(* ===== verification/_CoqProject ===== *)
-Q . S2P
Prelude.v
Bitmap.v
KList.v
KListOps.v
KListSort.v
Cache.v
Arithmetic.v
Mem.v
Str.v
StrSearch.v
StrToken.v
CStdlib.v
Stdio.v
StdioOut.v
StdioSpec.v
StdioCorrect.v
Console.v
HexDump.v
Intq.v
Serial.v
SerialCorrect.v
Keyboard.v
Vga.v
Descriptor.v
Ata.v
AtaCorrect.v
Random.v
Hash.v
FreeMap.v
Block.v
Inode.v
InodeData.v
InodeTable.v
File.v
Directory.v
DirectoryMap.v
DirectoryOps.v
Word.v
Vaddr.v
Palloc.v
Pagedir.v
PagedirInv.v
PagedirOps.v
PagedirSafety.v
PagedirSteps.v
Frame.v
FrameClock.v
Page.v
Elf.v
Args.v
Process.v
ProcessInv.v
ProcessSteps.v
ProcessLife.v
ProcessSafety.v
Malloc.v
MallocInv.v
MallocOps.v
MallocSafety.v
MallocCorrect.v
MallocFree.v
Queue.v
Sched.v
SchedSteps.v
SchedInv.v
SchedProofs.v
SchedOps.v
SchedSafety.v
SchedPriority.v
PageFault.v
FaultBytes.v
FaultInv.v
FaultMoves.v
FaultSteps.v
FaultEvict.v
FaultLoad.v
FaultCorrect.v
FaultUser.v
FaultRuns.v
