(* ===== verification/Prelude.v ===== *)
(** * A verification of the Pintos kernel

    This library models the kernel of the repository, as it is built with
    USERPROG, FILESYS, VM, PRJ3 and PRJ4 defined and INDEXED_STRUCTURE undefined, and
    proves that its components do what they are for.  The target is the
    32-bit i386: integers are [Z] with the wrap-around of their C type written
    out ([u8], [u32], [s32], ...), memory is a map from addresses to bytes where
    addresses matter, and a run of C code is a function to [outcome]: a result,
    or the fault that stops it (a failed ASSERT, a PANIC, an access to memory
    that is not there, a divide error, or the fuel of a loop of the model).

    ** The system and its files

    Paths are relative to src/src.  Each group lists the files of this library
    with the code they translate.

    - Shared vocabulary: [Prelude] (machine integers, outcomes, the state monad
      [M], counting loops, lib/round.h).
    - Kernel library: [Bitmap] (lib/kernel/bitmap.c); [KList], [KListOps],
      [KListSort], [Queue] (lib/kernel/list.c on a heap of cells, what its
      operations do to the sequence of elements, its merge sort, and the sequence
      that sorting leaves); [Hash] (lib/kernel/hash.c); [Mem] (byte-addressed
      memory), [Str], [StrSearch], [StrToken] (lib/string.c); [CStdlib]
      (lib/stdlib.c, lib/ctype.h); [Arithmetic] (lib/arithmetic.c); [Random]
      (lib/random.c); [Stdio], [StdioOut], [StdioSpec], [StdioCorrect],
      [HexDump] (lib/stdio.c); [Console] (lib/kernel/console.c).
    - Devices: [Intq] (devices/intq.c), [Serial], [SerialCorrect]
      (devices/serial.c, devices/input.c), [Keyboard] (devices/kbd.c), [Vga]
      (devices/vga.c), [Ata], [AtaCorrect] (devices/disk.c).
    - Processor tables: [Descriptor] (userprog/gdt.c, and the gates, the
      interrupt table and the interrupt controllers of threads/interrupt.c).
    - File system, from the disk up: [Cache] (filesys/cache.c) over the interface
      [Disk]; [Block], the interface between the cache and the inodes;
      [FreeMap] (filesys/free-map.c); [Inode], [InodeData], [InodeTable]
      (filesys/inode.c); [File] (filesys/file.c); [Directory], [DirectoryMap],
      [DirectoryOps] (filesys/directory.c).
    - Memory: [Word] and [Vaddr] (words in memory, threads/vaddr.h,
      threads/pte.h), [Palloc] (threads/palloc.c), [Pagedir], [PagedirInv],
      [PagedirOps], [PagedirSafety], [PagedirSteps] (userprog/pagedir.c),
      [Malloc], [MallocInv], [MallocOps], [MallocSafety], [MallocCorrect],
      [MallocFree] (threads/malloc.c), [Frame], [FrameClock] (vm/swap.c), [Page]
      (vm/page.c).
    - User programs: [Elf] and [Args] (load, validate_segment, load_segment and
      the argument part of setup_stack in userprog/process.c); [Process]
      (process_execute, start_process, process_wait and process_kill of
      userprog/process.c and the exit system call) as steps of threads, with
      [ProcessInv], [ProcessSteps], [ProcessLife] its invariant and
      [ProcessSafety] its theorems and counterexamples; [PageFault]
      (userprog/exception.c: page_fault and kill) over the page allocator, page
      directories, frame and swap tables, any disk and any file system that
      keeps its laws, with [FaultBytes], [FaultInv], [FaultMoves] (what a page of
      a process holds, wherever it is), [FaultSteps], [FaultEvict], [FaultLoad]
      (the parts of the handler), [FaultCorrect], [FaultUser], [FaultRuns] (the
      handler, loads and stores of programs, the theorems).
    - Threads: [Sched] (threads/thread.c, threads/synch.c, the interrupt level of
      threads/interrupt.c, devices/timer.c) as one machine state with kernel
      stacks; [SchedSteps] its executions; [SchedInv], [SchedProofs],
      [SchedOps] its invariant; [SchedSafety], [SchedPriority] its theorems.

    The components meet at a few places, and the library composes them there.
    The inode layer is written against the class [Block], which [Cache]
    implements over any [Disk]; [AtaCorrect] shows that the disk driver behaves as
    the disk in memory on which the cache is run.  Directories and files work on
    the table of open inodes.  The page allocator uses the bitmap; page
    directories and the block allocator work on the page allocator's memory; the
    frame table on the page directories; the supplementary page table on the
    hash table; the serial driver and the keyboard on interrupt queues; the
    console on formatted output; the argument loop on [strtok_r].  The
    scheduler's queues are the sequences that the list functions are proved to
    produce.

    ** What the theorems show

    - Data structures refine their mathematical counterparts: bitmaps are lists
      of booleans, the hash table and the supplementary page table finite sets
      and maps, kernel lists sequences, the buffer cache and the disk driver
      arrays of sectors, directories maps from names to sectors, page
      directories functions from pages to entries, the display a terminal,
      [__vprintf] the function of its format.
    - Functional correctness on every branch: sorting, searching, tokenising,
      64-bit division, inode reads and writes inside a file over any chain of
      on-disk inodes,
      allocation of pages and blocks (disjoint, large enough, contents kept),
      loading of executables for arbitrary file contents, the layout of the
      arguments on the user stack, segment descriptors and gates.
    - Invariants over all executions: no thread is lost or queued twice,
      open counts of inodes equal the open files, no stale translation stays in
      the lookaside buffer while page directories are not destroyed, and the
      code loses and reorders no byte of interrupt queues and of the serial port
      (the serial port's receive register, of one byte, may be overrun).
    - Scheduling: locks exclude each other, the running thread has the highest
      priority when a switch happens, semaphores lose no wake-up, donation
      reaches every holder of a chain of locks, and [recalculate_priority] gives
      the maximum over the first waiters of the locks a thread owns, which is
      the maximum over all waiters only if the first ones are the highest.
    - Processes: in executions in which a process exits only after it has waited
      for all its children and memory suffices, no step of creation, waiting and
      exit faults and a wait gives the child's status once; executions outside
      that discipline that go wrong are exhibited.
    - Page faults: with room for the page and memory for the handler, a fault
      run without interference is served and every page of every process keeps
      its bytes, so that programs see a flat memory; a page table that cannot be
      had is the exception, and executions without room that lose a page or stop
      the kernel are exhibited.
    - Termination: the clock of the frame table ends within two rounds if some
      frame is not a stack page; all loops of the C code are shown to end.

    Lemmas that show an execution in which the code does not do what it intends
    are named for what goes wrong ([second_reader_panics],
    [argument_limit_too_large], [spurious_interrupt_counted], ...).

    ** Bounds of the model's loops

    A loop that is not structural carries fuel, and the theorems show that the
    fuel given is never used up.  List walks take more than the number of
    elements; string scans one more than the size of memory; chains of on-disk
    inodes and transfers the number of sectors involved; the clock of the cache
    65 rounds for 64 buffers, that of the frame table two rounds and one; heapify
    33 and the search for a power of two 32 levels for 32-bit counts; digit loops
    65 and zero padding 64 steps for 64-bit numbers; the initialisation of
    malloc's descriptors 11 steps; nested formatting two levels; polling of the
    serial port one step more than the reads that find the transmitter busy, its queue loops 64
    steps for 63 bytes; segments one step more than their pages.  The loops of
    the disk driver (1000 and 3000 polls) are the code's own limits.

    ** Abstractions

    In the files on data structures a lock makes the operation that holds it
    atomic; the scheduler files model locks themselves.  The outcome of [malloc]
    in a client is an argument (or a budget of successes), since the allocator is
    a component of its own.  The links of malloc's free lists and the bitmaps of
    page pools are kept beside memory; a descriptor pointer is its index plus one.
    The translation buffer is a map that loading the base register empties.  A
    kernel stack is the list of what remains to be done by the calls on it.  A
    [va_list] is the sequence of its words.  Devices are register files with
    their documented behaviour and arbitrary delays (16550A, ATA, 8259A, the
    display's cursor registers); console output is the sequence of characters
    sent to the devices.  An executable is the contents of its file.  Code that
    is not in the repository enters as parameters: the entry stubs of interrupts,
    comparison and hash functions of clients.  The free map lies below the files,
    so how much of its own file gets written is a parameter there
    ([environment]).  Threads that block on an interrupt queue are modelled in
    [Intq] and not among the calls of [Sched].  The page-fault handler is one
    step: other threads do not run while it waits for the disk.

    ** Not modelled

    The boot code and the assembly stubs (threads/*.S, threads/init.c), timer
    calibration and the programming of the timer chip, the panic and back trace
    code, the self test of synch.c, the file system utilities, user
    programs, tests and host tools.  Not modelled: system-call dispatch and the
    checks of user pointers (userprog/syscall.c apart from exit), path
    resolution (filesys/filesys.c), the task-state segment (userprog/tss.c), the
    registration of exception handlers, and interleavings inside the page-fault
    handler. *)
From stdpp Require Export base tactics list numbers gmap.
From Stdlib Require Export ZArith Lia Bool.
#[global] Open Scope Z_scope.

(** * Machine integers *)

(** Reduction of an integer to the unsigned [w]-bit types of C. *)
Definition wrap (w z : Z) : Z := z mod 2 ^ w.
Definition u8 (z : Z) : Z := z mod 256.
Definition u16 (z : Z) : Z := z mod 65536.
Definition u32 (z : Z) : Z := z mod 4294967296.
Definition u64 (z : Z) : Z := z mod 18446744073709551616.

(** Conversion to the signed two's complement types. *)
Definition s8 (z : Z) : Z := (z + 128) mod 256 - 128.
Definition s16 (z : Z) : Z := (z + 32768) mod 65536 - 32768.
Definition s32 (z : Z) : Z := (z + 2147483648) mod 4294967296 - 2147483648.
Definition s64 (z : Z) : Z :=
  (z + 9223372036854775808) mod 18446744073709551616 - 9223372036854775808.

Definition is_u8 (z : Z) : Prop := 0 <= z < 256.
Definition is_u32 (z : Z) : Prop := 0 <= z < 4294967296.
Definition is_u64 (z : Z) : Prop := 0 <= z < 18446744073709551616.
Definition is_s32 (z : Z) : Prop := -2147483648 <= z < 2147483648.
Definition is_s64 (z : Z) : Prop :=
  -9223372036854775808 <= z < 9223372036854775808.

Definition SIZE_MAX : Z := 4294967295.

(** The condition [flags & f]. *)
Definition has (flags f : Z) : bool := negb (Z.land flags f =? 0).

(** C's [ROUND_UP], [DIV_ROUND_UP] and [ROUND_DOWN] (lib/round.h), at
    [size_t] width. *)
Definition ROUND_UP (x step : Z) : Z :=
  u32 (u32 (u32 (x + step) - 1) / step * step).
Definition DIV_ROUND_UP (x step : Z) : Z := u32 (u32 (x + step) - 1) / step.
Definition ROUND_DOWN (x step : Z) : Z := x / step * step.

Create HintDb machine discriminated.
Create Rewrite HintDb widths.

Lemma u32_small z : 0 <= z < 4294967296 → u32 z = z.
Proof. unfold u32. apply Z.mod_small. Qed.
Lemma u8_small z : 0 <= z < 256 → u8 z = z.
Proof. unfold u8. apply Z.mod_small. Qed.
Lemma u64_small z : 0 <= z < 18446744073709551616 → u64 z = z.
Proof. unfold u64. apply Z.mod_small. Qed.
Lemma s32_small z : -2147483648 <= z < 2147483648 → s32 z = z.
Proof. intros. unfold s32. rewrite Z.mod_small; lia. Qed.
Lemma s64_small z :
  -9223372036854775808 <= z < 9223372036854775808 → s64 z = z.
Proof. intros. unfold s64. rewrite Z.mod_small; lia. Qed.

Lemma u32_range z : 0 <= u32 z < 4294967296.
Proof. unfold u32. apply Z.mod_pos_bound. lia. Qed.
Lemma u8_range z : 0 <= u8 z < 256.
Proof. unfold u8. apply Z.mod_pos_bound. lia. Qed.
Lemma u64_range z : 0 <= u64 z < 18446744073709551616.
Proof. unfold u64. apply Z.mod_pos_bound. lia. Qed.
Lemma s32_range z : -2147483648 <= s32 z < 2147483648.
Proof.
  unfold s32. pose proof (Z.mod_pos_bound (z + 2147483648) 4294967296). lia.
Qed.
#[export] Hint Resolve u32_range u8_range u64_range s32_range : machine.

Lemma u32_idemp z : u32 (u32 z) = u32 z.
Proof. unfold u32. by rewrite Z.mod_mod. Qed.
Lemma u32_add_l a b : u32 (u32 a + b) = u32 (a + b).
Proof. unfold u32. by rewrite Zplus_mod_idemp_l. Qed.
Lemma u32_add_r a b : u32 (a + u32 b) = u32 (a + b).
Proof. unfold u32. by rewrite Zplus_mod_idemp_r. Qed.
Lemma u32_sub_l a b : u32 (u32 a - b) = u32 (a - b).
Proof. unfold u32. by rewrite Zminus_mod_idemp_l. Qed.
#[export] Hint Rewrite u32_idemp u32_add_l u32_add_r u32_sub_l : widths.

Lemma DIV_ROUND_UP_exact x step :
  0 <= x → 1 <= step → x + step <= 4294967296 →
  DIV_ROUND_UP x step = (x + step - 1) / step.
Proof.
  intros. unfold DIV_ROUND_UP. rewrite u32_sub_l. by rewrite u32_small by lia.
Qed.

(** [lia] after clearing machine widths where the ranges are known. *)
Ltac widths :=
  repeat match goal with
  | |- context [u32 ?z] => rewrite (u32_small z) by lia
  | H : context [u32 ?z] |- _ => rewrite (u32_small z) in H by lia
  | |- context [u8 ?z] => rewrite (u8_small z) by lia
  | |- context [u64 ?z] => rewrite (u64_small z) by lia
  | |- context [s32 ?z] => rewrite (s32_small z) by lia
  | H : context [s32 ?z] |- _ => rewrite (s32_small z) in H by lia
  | |- context [s64 ?z] => rewrite (s64_small z) by lia
  end.

(** Case analysis on the boolean comparisons of translated conditions. *)
Ltac bcase :=
  match goal with
  | |- context [Z.eqb ?a ?b] => destruct (Z.eqb_spec a b)
  | |- context [Z.ltb ?a ?b] => destruct (Z.ltb_spec a b)
  | |- context [Z.leb ?a ?b] => destruct (Z.leb_spec a b)
  | H : context [Z.eqb ?a ?b] |- _ => destruct (Z.eqb_spec a b)
  | H : context [Z.ltb ?a ?b] |- _ => destruct (Z.ltb_spec a b)
  | H : context [Z.leb ?a ?b] |- _ => destruct (Z.leb_spec a b)
  end.
Ltac bcases := repeat bcase.

(** Split the visible conjunctions of the goal, leaving invariants folded. *)
Ltac splits := repeat lazymatch goal with |- _ ∧ _ => split end.

(** * Faults and outcomes *)

(** Ways in which translated code stops without returning: a failed [ASSERT],
    a call of [PANIC], an access outside the memory the model gives it, a
    divide error, or (for the loops of the model) a fuel bound reached. *)
Inductive fault := AssertFail | KernelPanic | WildAccess | DivideError | OutOfFuel.
#[global] Instance fault_eq_dec : EqDecision fault.
Proof. solve_decision. Defined.

Inductive outcome (A : Type) := Ok (a : A) | Err (f : fault).
Arguments Ok {A} a.
Arguments Err {A} f.

#[global] Instance outcome_ret : MRet outcome := λ A, Ok.
#[global] Instance outcome_bind : MBind outcome :=
  λ A B f m, match m with Ok a => f a | Err e => Err e end.

Definition is_ok {A} (m : outcome A) : bool :=
  match m with Ok _ => true | Err _ => false end.

(** [ASSERT (b)] followed by [k]. *)
Definition assert {A} (b : bool) (k : outcome A) : outcome A :=
  if b then k else Err AssertFail.

(** A partial read, faulting outside its domain. *)
Definition of_option {A} (o : option A) : outcome A :=
  match o with Some a => Ok a | None => Err WildAccess end.

Lemma assert_true {A} (b : bool) (k : outcome A) : b = true → assert b k = k.
Proof. by intros ->. Qed.

Lemma assert_Ok {A} (b : bool) (k : outcome A) a :
  assert b k = Ok a ↔ b = true ∧ k = Ok a.
Proof. destruct b; simpl; naive_solver. Qed.

Lemma bind_Ok {A B} (m : outcome A) (f : A → outcome B) b :
  m ≫= f = Ok b ↔ ∃ a, m = Ok a ∧ f a = Ok b.
Proof. destruct m; unfold mbind; simpl; naive_solver. Qed.

(** Running one step of a computation whose result is known. *)
Lemma bind_step {A B} (m : outcome A) (f : A → outcome B) a : m = Ok a → m ≫= f = f a.
Proof. by intros ->. Qed.

(** * Code over a mutable store *)

Definition M (S A : Type) : Type := S → outcome (A * S).

#[global] Instance M_ret {S} : MRet (M S) := λ A a s, Ok (a, s).
#[global] Instance M_bind {S} : MBind (M S) :=
  λ A B f m s, match m s with Ok (a, s') => f a s' | Err e => Err e end.

Definition fail {S A} (e : fault) : M S A := λ _, Err e.
Definition getS {S} : M S S := λ s, Ok (s, s).
Definition putS {S} (s : S) : M S () := λ _, Ok ((), s).
Definition modS {S} (f : S → S) : M S () := λ s, Ok ((), f s).
Definition check {S} (b : bool) : M S () :=
  λ s, if b then Ok ((), s) else Err AssertFail.

(** A computation that does not touch the store. *)
Definition pureM {S A} (o : outcome A) : M S A := λ s, a ← o; Ok (a, s).

Lemma M_bind_Ok {S A B} (m : M S A) (f : A → M S B) s r :
  (m ≫= f) s = Ok r ↔ ∃ a s', m s = Ok (a, s') ∧ f a s' = Ok r.
Proof. unfold mbind, M_bind. destruct (m s) as [[a s']|]; naive_solver. Qed.

(** Running one step of a monadic program whose result is known. *)
Lemma M_bind_step {S A B} (m : M S A) (f : A → M S B) s a s' :
  m s = Ok (a, s') → (m ≫= f) s = f a s'.
Proof. unfold mbind, M_bind. by intros ->. Qed.

(** Steps that read, replace or ignore the store. *)
Lemma getS_step {S B} (f : S → M S B) s : (getS ≫= f) s = f s s.
Proof. done. Qed.
Lemma modS_step {S B} g (f : () → M S B) (s : S) : (modS g ≫= f) s = f () (g s).
Proof. done. Qed.
Lemma pureM_step {S A B} (o : outcome A) (f : A → M S B) s a : o = Ok a → (pureM o ≫= f) s = f a s.
Proof. by intros ->. Qed.
Lemma pureM_err {S A B} (o : outcome A) (f : A → M S B) s e : o = Err e → (pureM o ≫= f) s = Err e.
Proof. by intros ->. Qed.

Lemma check_true {S} (b : bool) (s : S) : b = true → check b s = Ok ((), s).
Proof. unfold check. by intros ->. Qed.

(** * Counting loops *)

(** [for (k = i; n iterations; k++) s = body (k, s)], leaving at the first
    fault. *)
Fixpoint for_up {S} (n : nat) (i : Z) (body : Z → S → outcome S) (s : S) : outcome S :=
  match n with
  | O => Ok s
  | Datatypes.S n' => body i s ≫= for_up n' (i + 1) body
  end.

(** The invariant rule of [for_up]. *)
Lemma for_up_inv {S} (P : Z → S → Prop) (body : Z → S → outcome S) n i s :
  P i s →
  (∀ k s, i <= k < i + Z.of_nat n → P k s → ∃ s', body k s = Ok s' ∧ P (k + 1) s') →
  ∃ s', for_up n i body s = Ok s' ∧ P (i + Z.of_nat n) s'.
Proof.
  revert i s. induction n as [|n IH]; intros i s HP Hb; simpl.
  { exists s. by rewrite Z.add_0_r. }
  destruct (Hb i s) as (s1 & E & HP1); [lia|done|].
  rewrite E. unfold mbind; simpl.
  destruct (IH (i + 1) s1) as (s2 & E2 & HP2); [done|intros; apply Hb; [lia|done]|].
  exists s2. split; [done|].
  by replace (i + Z.of_nat (Datatypes.S n)) with (i + 1 + Z.of_nat n) by lia.
Qed.

(** * Lists indexed by machine integers *)

Definition zget {A} (l : list A) (i : Z) : option A :=
  if i <? 0 then None else l !! Z.to_nat i.
Definition zset {A} (l : list A) (i : Z) (a : A) : option (list A) :=
  if (0 <=? i) && (i <? Z.of_nat (length l)) then Some (<[Z.to_nat i := a]> l) else None.

Lemma zget_Some_range {A} (l : list A) i a :
  zget l i = Some a → 0 <= i < Z.of_nat (length l).
Proof.
  unfold zget. bcases; [done|]. intros Hl%lookup_lt_Some. lia.
Qed.

Lemma zget_is_Some {A} (l : list A) i :
  0 <= i < Z.of_nat (length l) → ∃ a, zget l i = Some a.
Proof.
  intros. unfold zget. bcases; [lia|]. apply lookup_lt_is_Some_2. lia.
Qed.

Lemma zset_Some {A} (l : list A) i a :
  0 <= i < Z.of_nat (length l) → zset l i a = Some (<[Z.to_nat i := a]> l).
Proof. intros. unfold zset. bcases; simpl; (done || lia). Qed.

Lemma zget_insert {A} (l : list A) i j a :
  0 <= i < Z.of_nat (length l) →
  zget (<[Z.to_nat i := a]> l) j = if i =? j then Some a else zget l j.
Proof.
  intros. unfold zget. bcases; subst; try lia; try done.
  - rewrite list_lookup_insert_eq; [done|lia].
  - rewrite list_lookup_insert_ne; [done|lia].
Qed.

Lemma lookup_Forall {A} (P : A → Prop) (l : list A) i a :
  Forall P l → l !! i = Some a → P a.
Proof. rewrite Forall_lookup. eauto. Qed.

(** * Little-endian words *)

Definition word_bytes (w : Z) : list Z :=
  [u8 w; u8 (Z.shiftr w 8); u8 (Z.shiftr w 16); u8 (Z.shiftr w 24)].
Definition bytes_word (b0 b1 b2 b3 : Z) : Z := b0 + 256 * b1 + 65536 * b2 + 16777216 * b3.

Lemma bytes_word_bytes w : is_u32 w →
  bytes_word (u8 w) (u8 (Z.shiftr w 8)) (u8 (Z.shiftr w 16)) (u8 (Z.shiftr w 24)) = w.
Proof.
  intros [? ?]. unfold bytes_word, u8. rewrite !Z.shiftr_div_pow2 by lia.
  change (2 ^ 8) with 256. change (2 ^ 16) with 65536. change (2 ^ 24) with 16777216.
  rewrite (Z.mod_small (w / 16777216) 256)
    by (split; [apply Z.div_pos; lia|apply Z.div_lt_upper_bound; lia]).
  assert (w / 65536 = w / 256 / 256) as E1 by (rewrite Z.div_div by lia; done).
  assert (w / 16777216 = w / 65536 / 256) as E2 by (rewrite Z.div_div by lia; done).
  pose proof (Z.div_mod w 256). pose proof (Z.div_mod (w / 256) 256).
  pose proof (Z.div_mod (w / 65536) 256). lia.
Qed.

Lemma bytes_word_range b0 b1 b2 b3 :
  is_u8 b0 → is_u8 b1 → is_u8 b2 → is_u8 b3 → is_u32 (bytes_word b0 b1 b2 b3).
Proof. unfold is_u8, is_u32, bytes_word. lia. Qed.

(** Bit fields laid side by side add up. *)
Lemma lor_field a x n : 0 <= n → 0 <= a < 2 ^ n → Z.lor a (Z.shiftl x n) = a + x * 2 ^ n.
Proof.
  intros Hn Ha. rewrite <- Z.shiftl_mul_pow2 by done. symmetry. apply Z.add_nocarry_lor.
  apply Z.bits_inj'. intros i Hi. rewrite Z.land_spec, Z.bits_0. destruct (Z.ltb_spec i n).
  - by rewrite Z.shiftl_spec_low, andb_false_r.
  - rewrite <- (Z.mod_small a (2 ^ n)) by done. by rewrite Z.mod_pow2_bits_high by lia.
Qed.
