(* ===== verification/Bitmap.v ===== *)
(** The kernel bitmap (lib/kernel/bitmap.c): an array of 32-bit elements
    used as an array of bits.  The operations are translated at machine
    width; [bits_of] is the abstraction to a list of booleans, and the
    theorems show that each operation implements the list operation its
    comment in the source describes. *)
From S2P Require Import Prelude.

(** [typedef unsigned long elem_type]: 32 bits on the i386 target. *)
Definition ELEM_BITS : Z := 32.
Definition sizeof_elem_type : Z := 4.
Definition BITMAP_ERROR : Z := SIZE_MAX.

Record bitmap := mkBitmap { bit_cnt : Z; bits : list Z }.

Definition elem_idx (bit_idx : Z) : Z := bit_idx / ELEM_BITS.
Definition bit_mask (bit_idx : Z) : Z := u32 (Z.shiftl 1 (bit_idx mod ELEM_BITS)).
Definition elem_cnt (bit_cnt : Z) : Z := DIV_ROUND_UP bit_cnt ELEM_BITS.
Definition byte_cnt (bit_cnt : Z) : Z := u32 (sizeof_elem_type * elem_cnt bit_cnt).
Definition last_mask (b : bitmap) : Z :=
  let last_bits := bit_cnt b mod ELEM_BITS in
  if negb (last_bits =? 0) then u32 (u32 (Z.shiftl 1 last_bits) - 1) else u32 (-1).

Definition bitmap_size (b : bitmap) : Z := bit_cnt b.

(** [b->bits[idx] = f (b->bits[idx])], faulting outside the array. *)
Definition update_elem (b : bitmap) (idx : Z) (f : Z → Z) : outcome bitmap :=
  e ← of_option (zget (bits b) idx);
  bs ← of_option (zset (bits b) idx (f e));
  Ok (mkBitmap (bit_cnt b) bs).

Definition bitmap_mark (b : bitmap) (bit_idx : Z) : outcome bitmap :=
  let idx := elem_idx bit_idx in
  let mask := bit_mask bit_idx in
  update_elem b idx (λ e, Z.lor e mask).

Definition bitmap_reset (b : bitmap) (bit_idx : Z) : outcome bitmap :=
  let idx := elem_idx bit_idx in
  let mask := bit_mask bit_idx in
  update_elem b idx (λ e, Z.land e (u32 (Z.lnot mask))).

Definition bitmap_flip (b : bitmap) (bit_idx : Z) : outcome bitmap :=
  let idx := elem_idx bit_idx in
  let mask := bit_mask bit_idx in
  update_elem b idx (λ e, Z.lxor e mask).

Definition bitmap_set (b : bitmap) (idx : Z) (value : bool) : outcome bitmap :=
  assert (idx <? bit_cnt b)
  (if value then bitmap_mark b idx else bitmap_reset b idx).

Definition bitmap_test (b : bitmap) (idx : Z) : outcome bool :=
  assert (idx <? bit_cnt b)
  (e ← of_option (zget (bits b) (elem_idx idx));
   Ok (negb (Z.land e (bit_mask idx) =? 0))).

Definition bitmap_set_multiple (b : bitmap) (start cnt : Z) (value : bool) : outcome bitmap :=
  assert (start <=? bit_cnt b)
  (assert (u32 (start + cnt) <=? bit_cnt b)
   (for_up (Z.to_nat cnt) 0 (λ i b, bitmap_set b (u32 (start + i)) value) b)).

Definition bitmap_set_all (b : bitmap) (value : bool) : outcome bitmap :=
  bitmap_set_multiple b 0 (bitmap_size b) value.

Definition bitmap_count (b : bitmap) (start cnt : Z) (value : bool) : outcome Z :=
  assert (start <=? bit_cnt b)
  (assert (u32 (start + cnt) <=? bit_cnt b)
   (for_up (Z.to_nat cnt) 0
      (λ i value_cnt, t ← bitmap_test b (u32 (start + i));
                      Ok (if eqb t value then u32 (value_cnt + 1) else value_cnt)) 0)).

(** The loop of [bitmap_contains], with its early return. *)
Fixpoint contains_loop (b : bitmap) (start : Z) (n : nat) (i : Z) (value : bool) : outcome bool :=
  match n with
  | O => Ok false
  | S n' => t ← bitmap_test b (u32 (start + i));
            if eqb t value then Ok true else contains_loop b start n' (i + 1) value
  end.

Definition bitmap_contains (b : bitmap) (start cnt : Z) (value : bool) : outcome bool :=
  assert (start <=? bit_cnt b)
  (assert (u32 (start + cnt) <=? bit_cnt b)
   (contains_loop b start (Z.to_nat cnt) 0 value)).

Definition bitmap_any (b : bitmap) (start cnt : Z) : outcome bool :=
  bitmap_contains b start cnt true.
Definition bitmap_none (b : bitmap) (start cnt : Z) : outcome bool :=
  c ← bitmap_contains b start cnt true; Ok (negb c).
Definition bitmap_all (b : bitmap) (start cnt : Z) : outcome bool :=
  c ← bitmap_contains b start cnt false; Ok (negb c).

(** The loop of [bitmap_scan]: [for (i = start; i <= last; i++)], with the
    [n] iterations left from [i]. *)
Fixpoint scan_loop (b : bitmap) (cnt : Z) (value : bool) (n : nat) (i : Z) : outcome Z :=
  match n with
  | O => Ok BITMAP_ERROR
  | S n' => c ← bitmap_contains b i cnt (negb value);
            if negb c then Ok i else scan_loop b cnt value n' (u32 (i + 1))
  end.

Definition bitmap_scan (b : bitmap) (start cnt : Z) (value : bool) : outcome Z :=
  assert (start <=? bit_cnt b)
  (if cnt <=? bit_cnt b then
     let last := u32 (bit_cnt b - cnt) in
     scan_loop b cnt value (Z.to_nat (last + 1 - start)) start
   else Ok BITMAP_ERROR).

Definition bitmap_scan_and_flip (b : bitmap) (start cnt : Z) (value : bool)
  : outcome (Z * bitmap) :=
  idx ← bitmap_scan b start cnt value;
  if negb (idx =? BITMAP_ERROR) then
    b' ← bitmap_set_multiple b idx cnt (negb value); Ok (idx, b')
  else Ok (idx, b).

Definition sizeof_struct_bitmap : Z := 8.
Definition bitmap_buf_size (bit_cnt : Z) : Z :=
  u32 (sizeof_struct_bitmap + byte_cnt bit_cnt).

(** [block] is the storage behind the header of the preallocated buffer, as
    elements; its previous contents are arbitrary. *)
Definition bitmap_create_in_buf (cnt : Z) (block : list Z) (block_size : Z) : outcome bitmap :=
  assert (bitmap_buf_size cnt <=? block_size)
  (bitmap_set_all (mkBitmap cnt block) false).

(** [hdr] says whether [malloc (sizeof *b)] succeeds, [store] is what
    [malloc (byte_cnt (bit_cnt))] returns: no block, or a block with
    arbitrary contents.  A null result is [None]. *)
Definition bitmap_create (hdr : bool) (store : option (list Z)) (cnt : Z)
  : outcome (option bitmap) :=
  if hdr then
    match store with
    | Some block => b ← bitmap_set_all (mkBitmap cnt block) false; Ok (Some b)
    | None => if cnt =? 0 then b ← bitmap_set_all (mkBitmap cnt []) false; Ok (Some b)
              else Ok None
    end
  else Ok None.

(** * Abstraction *)

Definition bget (b : bitmap) (i : Z) : bool :=
  match zget (bits b) (i / 32) with Some e => Z.testbit e (i mod 32) | None => false end.

(** The bits of [b], as a list of booleans. *)
Definition bits_of (b : bitmap) : list bool :=
  map (bget b) (seqZ 0 (bit_cnt b)).

(** Well-formedness: the storage holds the elements the bit count needs (a
    preallocated buffer may hold more), each an [elem_type]. The bound keeps [DIV_ROUND_UP] from wrapping. *)
Definition bitmap_wf (b : bitmap) : Prop :=
  0 <= bit_cnt b <= 4294967296 - 32 ∧
  elem_cnt (bit_cnt b) <= Z.of_nat (length (bits b)) ∧
  Forall is_u32 (bits b).

(** * Single bits *)

Lemma bit_mask_pow2 i : 0 <= i → bit_mask i = 2 ^ (i mod 32).
Proof.
  intros. unfold bit_mask, ELEM_BITS.
  pose proof (Z.mod_pos_bound i 32 ltac:(lia)).
  rewrite Z.shiftl_1_l. apply u32_small. split; [lia|].
  change 4294967296 with (2 ^ 32). apply Z.pow_lt_mono_r; lia.
Qed.

Lemma is_u32_testbit z : is_u32 z ↔ 0 <= z ∧ ∀ k, 32 <= k → Z.testbit z k = false.
Proof.
  unfold is_u32. change 4294967296 with (2 ^ 32). split.
  - intros [? ?]. split; [done|]. intros k Hk.
    rewrite <- (Z.mod_small z (2 ^ 32)) by lia. by apply Z.mod_pow2_bits_high.
  - intros [? Hk]. split; [done|].
    destruct (Z.eq_dec z 0) as [->|]; [lia|].
    apply Z.log2_lt_pow2; [lia|].
    destruct (Z_lt_ge_dec (Z.log2 z) 32) as [|Hge]; [done|].
    specialize (Hk (Z.log2 z) ltac:(lia)).
    rewrite Z.bit_log2 in Hk by lia. done.
Qed.

(** Bits of [u32 (~m)] for [m = 2^k]. *)
Lemma lnot_mask_testbit k j :
  0 <= k < 32 → 0 <= j → Z.testbit (u32 (Z.lnot (2 ^ k))) j = (j <? 32) && negb (k =? j).
Proof.
  intros Hk Hj. unfold u32. change 4294967296 with (2 ^ 32).
  destruct (Z.ltb_spec j 32); simpl.
  - by rewrite Z.mod_pow2_bits_low, Z.lnot_spec, Z.pow2_bits_eqb by lia.
  - by rewrite Z.mod_pow2_bits_high by lia.
Qed.

Lemma elem_idx_range b i :
  bitmap_wf b → 0 <= i < bit_cnt b → 0 <= i / 32 < Z.of_nat (length (bits b)).
Proof.
  intros ((?&?)&Hl&_) ?. unfold elem_cnt, ELEM_BITS in Hl.
  rewrite DIV_ROUND_UP_exact in Hl by lia. split; [apply Z.div_pos; lia|].
  eapply Z.lt_le_trans; [|exact Hl].
  apply Z.div_lt_upper_bound; [lia|].
  pose proof (Z.div_mod (bit_cnt b + 32 - 1) 32 ltac:(lia)).
  pose proof (Z.mod_pos_bound (bit_cnt b + 32 - 1) 32 ltac:(lia)). lia.
Qed.

(** What it means for [b'] to be [b] with bit [i] set to [v]. *)
Definition bit_put (b : bitmap) (i : Z) (v : bool) (b' : bitmap) : Prop :=
  bitmap_wf b' ∧ bit_cnt b' = bit_cnt b ∧
  ∀ j, 0 <= j → bget b' j = if i =? j then v else bget b j.

Lemma update_elem_put b i f v :
  bitmap_wf b → 0 <= i < bit_cnt b →
  (∀ e, is_u32 e → is_u32 (f e) ∧
        ∀ k, 0 <= k → Z.testbit (f e) k = if i mod 32 =? k then v e else Z.testbit e k) →
  ∃ b' e, zget (bits b) (i / 32) = Some e ∧
          update_elem b (i / 32) f = Ok b' ∧ bit_put b i (v e) b'.
Proof.
  intros Hwf Hi Hf. pose proof (elem_idx_range b i Hwf Hi) as Hr.
  destruct (zget_is_Some _ _ Hr) as [e He].
  destruct Hwf as (Hc & Hl & Hu).
  assert (is_u32 e) as Hue.
  { unfold zget in He. bcases; [done|]. by eapply lookup_Forall. }
  destruct (Hf e Hue) as [Hue' Hbits].
  exists (mkBitmap (bit_cnt b) (<[Z.to_nat (i / 32) := f e]> (bits b))), e.
  split_and!; [done| |].
  { unfold update_elem. rewrite He. unfold mbind; simpl.
    by rewrite zset_Some by done. }
  split_and!; [split_and!; simpl|done|simpl].
  - lia.
  - lia.
  - by rewrite length_insert.
  - by apply Forall_insert.
  - intros j Hj. unfold bget; simpl. rewrite zget_insert by done.
    pose proof (Z.mod_pos_bound j 32 ltac:(lia)).
    destruct (Z.eqb_spec (i / 32) (j / 32)) as [Eq|Ne].
    + rewrite Hbits by lia. rewrite <- Eq, He.
      pose proof (Z.div_mod i 32 ltac:(lia)). pose proof (Z.div_mod j 32 ltac:(lia)).
      bcases; (done || lia || congruence).
    + destruct (Z.eqb_spec i j); [congruence|done].
Qed.

Lemma bitmap_mark_put b i :
  bitmap_wf b → 0 <= i < bit_cnt b → ∃ b', bitmap_mark b i = Ok b' ∧ bit_put b i true b'.
Proof.
  intros Hwf Hi.
  destruct (update_elem_put b i (λ e, Z.lor e (bit_mask i)) (λ _, true)) as (b'&e&_&?&?);
    eauto.
  intros e He. pose proof (Z.mod_pos_bound i 32 ltac:(lia)).
  rewrite bit_mask_pow2 by lia. split.
  - apply is_u32_testbit in He as [? He]. apply is_u32_testbit. split.
    + apply Z.lor_nonneg. split; [done|]. apply Z.pow_nonneg; lia.
    + intros k Hk. rewrite Z.lor_spec, He, Z.pow2_bits_eqb by lia. bcases; [lia|done].
  - intros k Hk. rewrite Z.lor_spec, Z.pow2_bits_eqb by lia.
    bcases; by rewrite ?orb_true_r, ?orb_false_r.
Qed.

Lemma bitmap_reset_put b i :
  bitmap_wf b → 0 <= i < bit_cnt b → ∃ b', bitmap_reset b i = Ok b' ∧ bit_put b i false b'.
Proof.
  intros Hwf Hi.
  destruct (update_elem_put b i (λ e, Z.land e (u32 (Z.lnot (bit_mask i)))) (λ _, false))
    as (b'&e&_&?&?); eauto.
  intros e He. pose proof (Z.mod_pos_bound i 32 ltac:(lia)).
  rewrite bit_mask_pow2 by lia.
  apply is_u32_testbit in He as [? He]. split.
  - apply is_u32_testbit. split; [apply Z.land_nonneg; by left|].
    intros k Hk. by rewrite Z.land_spec, He.
  - intros k Hk. rewrite Z.land_spec, lnot_mask_testbit by lia.
    destruct (Z.ltb_spec k 32); simpl; [|rewrite He by lia; by bcases].
    bcases; simpl; by rewrite ?andb_true_r, ?andb_false_r.
Qed.

Lemma bitmap_flip_put b i :
  bitmap_wf b → 0 <= i < bit_cnt b →
  ∃ b', bitmap_flip b i = Ok b' ∧ bit_put b i (negb (bget b i)) b'.
Proof.
  intros Hwf Hi.
  destruct (update_elem_put b i (λ e, Z.lxor e (bit_mask i))
              (λ e, negb (Z.testbit e (i mod 32)))) as (b'&e&He&?&?); eauto.
  - intros e He. pose proof (Z.mod_pos_bound i 32 ltac:(lia)).
    rewrite bit_mask_pow2 by lia. split.
    + apply is_u32_testbit in He as [? He]. apply is_u32_testbit. split.
      * apply Z.lxor_nonneg. assert (0 <= 2 ^ (i mod 32)) by (apply Z.pow_nonneg; lia). lia.
      * intros k Hk. rewrite Z.lxor_spec, He, Z.pow2_bits_eqb by lia. bcases; [lia|done].
    + intros k Hk. rewrite Z.lxor_spec, Z.pow2_bits_eqb by lia.
      bcases; subst; by rewrite ?xorb_true_r, ?xorb_false_r.
  - exists b'. split; [done|]. unfold bget. by rewrite He.
Qed.

Lemma bitmap_set_put b i v :
  bitmap_wf b → 0 <= i < bit_cnt b → ∃ b', bitmap_set b i v = Ok b' ∧ bit_put b i v b'.
Proof.
  intros. unfold bitmap_set. rewrite assert_true by (apply Z.ltb_lt; lia).
  destruct v; eauto using bitmap_mark_put, bitmap_reset_put.
Qed.

Lemma land_pow2_testbit e k : 0 <= k → negb (Z.land e (2 ^ k) =? 0) = Z.testbit e k.
Proof.
  intros. destruct (Z.testbit e k) eqn:E.
  - destruct (Z.eqb_spec (Z.land e (2 ^ k)) 0) as [E0|]; [|done].
    apply (f_equal (λ z, Z.testbit z k)) in E0.
    rewrite Z.land_spec, E, Z.pow2_bits_true, Z.testbit_0_l in E0 by lia. done.
  - assert (Z.land e (2 ^ k) = 0) as ->; [|done].
    apply Z.bits_inj'. intros j Hj.
    rewrite Z.land_spec, Z.pow2_bits_eqb, Z.testbit_0_l by lia.
    bcases; subst; [by rewrite E|by rewrite andb_false_r].
Qed.

Lemma bitmap_test_get b i :
  bitmap_wf b → 0 <= i < bit_cnt b → bitmap_test b i = Ok (bget b i).
Proof.
  intros Hwf Hi. unfold bitmap_test. rewrite assert_true by (apply Z.ltb_lt; lia).
  destruct (zget_is_Some _ _ (elem_idx_range b i Hwf Hi)) as [e He].
  unfold elem_idx, ELEM_BITS, bget. rewrite He. unfold mbind; simpl.
  rewrite bit_mask_pow2 by lia. pose proof (Z.mod_pos_bound i 32 ltac:(lia)).
  by rewrite land_pow2_testbit by lia.
Qed.

(** * Ranges of bits *)

Lemma bitmap_set_multiple_put b start cnt v :
  bitmap_wf b → 0 <= start → 0 <= cnt → start + cnt <= bit_cnt b →
  ∃ b', bitmap_set_multiple b start cnt v = Ok b' ∧ bitmap_wf b' ∧
        bit_cnt b' = bit_cnt b ∧
        ∀ j, 0 <= j → bget b' j = if (start <=? j) && (j <? start + cnt) then v else bget b j.
Proof.
  intros Hwf Hs Hc Hb. pose proof (proj1 Hwf) as Hcnt.
  unfold bitmap_set_multiple.
  rewrite !assert_true by (widths; apply Z.leb_le; lia).
  edestruct (for_up_inv (λ k b', bitmap_wf b' ∧ bit_cnt b' = bit_cnt b ∧
     ∀ j, 0 <= j → bget b' j = if (start <=? j) && (j <? start + k) then v else bget b j)
     (λ i b, bitmap_set b (u32 (start + i)) v) (Z.to_nat cnt) 0 b) as (b' & E & H).
  - splits; [done..|]. intros j Hj. by bcases; simpl; try lia.
  - intros k b1 Hk (Hwf1 & Hc1 & Hg1). widths.
    destruct (bitmap_set_put b1 (start + k) v) as (b2 & E2 & Hwf2 & Hc2 & Hg2); [done|lia|].
    exists b2. splits; [done|done|congruence|].
    intros j Hj. rewrite Hg2, Hg1 by done. by bcases; simpl; try lia.
  - exists b'. rewrite Z2Nat.id, Z.add_0_l in H by lia. naive_solver.
Qed.

Lemma contains_loop_spec b start n i value :
  bitmap_wf b → 0 <= start → 0 <= i → start + i + Z.of_nat n <= bit_cnt b →
  ∃ c, contains_loop b start n i value = Ok c ∧
       (c = true ↔ ∃ j, start + i <= j < start + i + Z.of_nat n ∧ bget b j = value).
Proof.
  intros Hwf Hs. pose proof (proj1 Hwf) as Hcnt.
  revert i. induction n as [|n IH]; intros i Hi Hb; simpl.
  { exists false. split; [done|]. split; [done|]. intros (j & ? & ?). lia. }
  widths. rewrite bitmap_test_get by (done || lia). unfold mbind; simpl.
  destruct (eqb_spec (bget b (start + i)) value) as [Eq|Ne].
  - exists true. split; [done|]. split; [|done]. intros _. exists (start + i).
    split; [lia|done].
  - destruct (IH (i + 1)) as (c & -> & Hc); [lia|lia|].
    exists c. split; [done|]. rewrite Hc. split.
    + intros (j & ? & ?). exists j. split; [lia|done].
    + intros (j & ? & ?). exists j. split; [|done].
      destruct (Z.eq_dec j (start + i)) as [->|]; [done|lia].
Qed.

Lemma bitmap_contains_spec b start cnt value :
  bitmap_wf b → 0 <= start → 0 <= cnt → start + cnt <= bit_cnt b →
  ∃ c, bitmap_contains b start cnt value = Ok c ∧
       (c = true ↔ ∃ j, start <= j < start + cnt ∧ bget b j = value).
Proof.
  intros Hwf ???. pose proof (proj1 Hwf). unfold bitmap_contains.
  rewrite !assert_true by (widths; apply Z.leb_le; lia).
  destruct (contains_loop_spec b start (Z.to_nat cnt) 0 value) as (c & ? & Hc);
    [done|lia..|].
  exists c. split; [done|]. by rewrite Z2Nat.id, Z.add_0_r in Hc by lia.
Qed.

(** [cnt] bits from [i] all have the value [v]. *)
Definition run_at (b : bitmap) (i cnt : Z) (v : bool) : Prop :=
  ∀ j, i <= j < i + cnt → bget b j = v.

Lemma bitmap_contains_run b i cnt v :
  bitmap_wf b → 0 <= i → 0 <= cnt → i + cnt <= bit_cnt b →
  ∃ c, bitmap_contains b i cnt (negb v) = Ok c ∧ (c = false ↔ run_at b i cnt v).
Proof.
  intros. destruct (bitmap_contains_spec b i cnt (negb v)) as (c & E & Hc); try done.
  exists c. split; [done|]. split.
  - intros -> j Hj. destruct (bget b j) eqn:Eb, v; try done; exfalso;
      (assert (false = true) by (apply Hc; eauto)); done.
  - intros Hr. destruct c; [|done]. destruct Hc as [Hc _].
    destruct (Hc eq_refl) as (j & Hj & Ej). rewrite (Hr j Hj) in Ej. by destruct v.
Qed.

Lemma scan_loop_spec b cnt v n i :
  bitmap_wf b → 0 <= cnt → 0 <= i → i + Z.of_nat n = bit_cnt b - cnt + 1 →
  (∃ r, scan_loop b cnt v n i = Ok r ∧ i <= r <= bit_cnt b - cnt ∧ run_at b r cnt v ∧
        ∀ k, i <= k < r → ¬ run_at b k cnt v) ∨
  (scan_loop b cnt v n i = Ok BITMAP_ERROR ∧
   ∀ k, i <= k <= bit_cnt b - cnt → ¬ run_at b k cnt v).
Proof.
  intros Hwf Hc. pose proof (proj1 Hwf) as Hcnt.
  revert i. induction n as [|n IH]; intros i Hi Hn; simpl.
  { right. split; [done|]. lia. }
  destruct (bitmap_contains_run b i cnt v) as (c & -> & Hrun); [done|lia..|].
  unfold mbind; simpl. destruct c; simpl.
  - assert (¬ run_at b i cnt v) as Hno by (rewrite <- Hrun; done).
    widths. destruct (IH (i + 1)) as [(r & -> & ? & ? & Hk)|[-> Hk]]; [lia|lia|left|right].
    + exists r. split_and!; [done|lia|lia|done|]. intros k ?.
      destruct (Z.eq_dec k i) as [->|]; [done|]. apply Hk. lia.
    + split; [done|]. intros k ?.
      destruct (Z.eq_dec k i) as [->|]; [done|]. apply Hk. lia.
  - left. exists i. split_and!; [done|lia|lia|by apply Hrun|]. lia.
Qed.

(** [bitmap_scan] finds the first run at or after [start], and answers
    [BITMAP_ERROR] only when there is none. *)
Lemma bitmap_scan_spec b start cnt v :
  bitmap_wf b → 0 <= start <= bit_cnt b → 0 <= cnt →
  (∃ r, bitmap_scan b start cnt v = Ok r ∧ start <= r ∧ r + cnt <= bit_cnt b ∧
        run_at b r cnt v ∧ ∀ k, start <= k < r → ¬ run_at b k cnt v) ∨
  (bitmap_scan b start cnt v = Ok BITMAP_ERROR ∧
   ∀ k, start <= k → k + cnt <= bit_cnt b → ¬ run_at b k cnt v).
Proof.
  intros Hwf Hs Hc. pose proof (proj1 Hwf) as Hcnt. unfold bitmap_scan.
  rewrite assert_true by (apply Z.leb_le; lia).
  destruct (Z.leb_spec cnt (bit_cnt b)).
  - widths. destruct (Z_le_gt_dec start (bit_cnt b - cnt + 1)).
    + destruct (scan_loop_spec b cnt v (Z.to_nat (bit_cnt b - cnt + 1 - start)) start)
        as [(r & ? & ? & ? & ?)|[? Hk]]; [done|lia..|left|right].
      * exists r. split_and!; try done; lia.
      * split; [done|]. intros k ??. apply Hk. lia.
    + right. rewrite Z2Nat.nonpos by lia. split; [done|]. lia.
  - right. split; [done|]. lia.
Qed.

(** * The list view *)

Lemma bits_of_length b : length (bits_of b) = Z.to_nat (bit_cnt b).
Proof. unfold bits_of. by rewrite length_map, length_seqZ. Qed.

Lemma bits_of_lookup b (n : nat) :
  Z.of_nat n < bit_cnt b → bits_of b !! n = Some (bget b (Z.of_nat n)).
Proof.
  intros. unfold bits_of. rewrite list_lookup_fmap, lookup_seqZ_lt by lia. done.
Qed.

Lemma bits_of_lookup_Some b (n : nat) v :
  bits_of b !! n = Some v ↔ Z.of_nat n < bit_cnt b ∧ bget b (Z.of_nat n) = v.
Proof.
  split.
  - intros H. pose proof (lookup_lt_Some _ _ _ H) as Hl. rewrite bits_of_length in Hl.
    rewrite bits_of_lookup in H by lia. split; [lia|congruence].
  - intros [? <-]. by apply bits_of_lookup.
Qed.

(** Two bitmaps of one size with the same bits have the same list. *)
Lemma bits_of_ext b (l : list bool) :
  length l = Z.to_nat (bit_cnt b) →
  (∀ n : nat, Z.of_nat n < bit_cnt b → l !! n = Some (bget b (Z.of_nat n))) →
  bits_of b = l.
Proof.
  intros Hl Hn. apply list_eq. intros n.
  destruct (Z_lt_ge_dec (Z.of_nat n) (bit_cnt b)).
  - by rewrite bits_of_lookup, Hn.
  - rewrite !lookup_ge_None_2; [done|lia|rewrite bits_of_length; lia].
Qed.

(** [l] with the [c] values from [s] replaced by [v]. *)
Definition fill (s c : nat) (v : bool) (l : list bool) : list bool :=
  take s l ++ replicate c v ++ drop (s + c) l.

Lemma fill_length s c v l : (s + c <= length l)%nat → length (fill s c v l) = length l.
Proof.
  intros. unfold fill.
  rewrite !length_app, length_take, length_replicate, length_drop. lia.
Qed.

Lemma fill_lookup s c v l (n : nat) :
  (s + c <= length l)%nat → (n < length l)%nat →
  fill s c v l !! n = if decide (s <= n < s + c)%nat then Some v else l !! n.
Proof.
  intros Hl Hn. unfold fill. case_decide.
  - rewrite lookup_app_r by (rewrite length_take; lia).
    rewrite length_take_le by lia.
    rewrite lookup_app_l by (rewrite length_replicate; lia).
    apply lookup_replicate_2. lia.
  - destruct (decide (n < s)%nat).
    + rewrite lookup_app_l by (rewrite length_take; lia). apply lookup_take_lt. lia.
    + rewrite lookup_app_r by (rewrite length_take; lia).
      rewrite length_take_le by lia.
      rewrite lookup_app_r by (rewrite length_replicate; lia).
      rewrite length_replicate, lookup_drop. f_equal. lia.
Qed.

Lemma put_range_fill b b' s c v :
  0 <= s → 0 <= c → s + c <= bit_cnt b → bit_cnt b' = bit_cnt b →
  (∀ j, 0 <= j → bget b' j = if (s <=? j) && (j <? s + c) then v else bget b j) →
  bits_of b' = fill (Z.to_nat s) (Z.to_nat c) v (bits_of b).
Proof.
  intros Hs Hc Hb Hcnt Hg. apply bits_of_ext.
  - rewrite fill_length; rewrite bits_of_length; [congruence|lia].
  - intros n Hn. rewrite fill_lookup by (rewrite bits_of_length; lia).
    rewrite Hg by lia. case_decide; bcases; simpl; try lia; [done|..];
      rewrite bits_of_lookup by lia; done.
Qed.

(** The bits of [l] from [i] hold [c] values [v]. *)
Definition run_of (l : list bool) (i c : nat) (v : bool) : Prop :=
  (i + c <= length l)%nat ∧ take c (drop i l) = replicate c v.

Lemma run_of_lookup l i c v :
  run_of l i c v ↔
  (i + c <= length l)%nat ∧ ∀ n : nat, (i <= n < i + c)%nat → l !! n = Some v.
Proof.
  unfold run_of. split; intros [Hl H]; (split; [done|]).
  - intros n Hn.
    assert (take c (drop i l) !! (n - i)%nat = Some v) as E.
    { rewrite H. apply lookup_replicate_2. lia. }
    rewrite lookup_take_lt, lookup_drop in E by lia.
    by replace (i + (n - i))%nat with n in E by lia.
  - apply list_eq. intros n. destruct (decide (n < c)%nat).
    + rewrite lookup_take_lt, lookup_drop, H by lia. symmetry. by apply lookup_replicate_2.
    + rewrite !lookup_ge_None_2; [done|rewrite length_replicate; lia|].
      rewrite length_take. lia.
Qed.

Lemma run_at_of b i c v :
  0 <= i → 0 <= c → i + c <= bit_cnt b →
  run_at b i c v ↔ run_of (bits_of b) (Z.to_nat i) (Z.to_nat c) v.
Proof.
  intros ???. rewrite run_of_lookup, bits_of_length. unfold run_at. split.
  - intros Hat. split; [lia|]. intros n Hn. rewrite bits_of_lookup by lia.
    f_equal. apply Hat. lia.
  - intros [_ Hof] j Hj. specialize (Hof (Z.to_nat j) ltac:(lia)).
    rewrite bits_of_lookup, Z2Nat.id in Hof by lia. congruence.
Qed.

(** List form of [bitmap_scan_spec], for the clients of the bitmap. *)
Lemma bitmap_scan_list b start cnt v :
  bitmap_wf b → 0 <= start <= bit_cnt b → 0 <= cnt →
  (∃ r : nat, bitmap_scan b start cnt v = Ok (Z.of_nat r) ∧ (Z.to_nat start <= r)%nat ∧
      run_of (bits_of b) r (Z.to_nat cnt) v ∧
      ∀ k, (Z.to_nat start <= k < r)%nat → ¬ run_of (bits_of b) k (Z.to_nat cnt) v) ∨
  (bitmap_scan b start cnt v = Ok BITMAP_ERROR ∧
   ∀ k, (Z.to_nat start <= k)%nat → ¬ run_of (bits_of b) k (Z.to_nat cnt) v).
Proof.
  intros Hwf Hs Hc.
  assert (∀ k, (Z.to_nat start <= k)%nat → run_of (bits_of b) k (Z.to_nat cnt) v →
    start <= Z.of_nat k ∧ Z.of_nat k + cnt <= bit_cnt b ∧ run_at b (Z.of_nat k) cnt v) as Hto.
  { intros k Hk Hr. pose proof (proj1 Hr) as Hl. rewrite bits_of_length in Hl.
    split_and!; [lia|lia|]. apply run_at_of; [lia..|]. by rewrite Nat2Z.id. }
  destruct (bitmap_scan_spec b start cnt v Hwf Hs Hc) as
    [(r & E & Hsr & Hrb & Hrun & Hno)|[E Hno]].
  - left. exists (Z.to_nat r). rewrite Z2Nat.id by lia.
    split_and!; [done|lia| |].
    + apply run_at_of; (done || lia).
    + intros k Hk Hr. destruct (Hto k ltac:(lia) Hr) as (?&?&?). eapply Hno; [|done]. lia.
  - right. split; [done|]. intros k Hk Hr.
    destruct (Hto k Hk Hr) as (?&?&?). by eapply Hno.
Qed.

Lemma bitmap_set_multiple_fill b start cnt v :
  bitmap_wf b → 0 <= start → 0 <= cnt → start + cnt <= bit_cnt b →
  ∃ b', bitmap_set_multiple b start cnt v = Ok b' ∧ bitmap_wf b' ∧
        bit_cnt b' = bit_cnt b ∧
        bits_of b' = fill (Z.to_nat start) (Z.to_nat cnt) v (bits_of b).
Proof.
  intros. destruct (bitmap_set_multiple_put b start cnt v) as (b'&?&?&?&?); try done.
  exists b'. eauto using put_range_fill.
Qed.

(** The scan-and-flip contract used by the page allocator, the free map and
    the swap table: the first run is claimed, or nothing changes. *)
Lemma bitmap_scan_and_flip_list b cnt :
  bitmap_wf b → 0 <= cnt →
  (∃ (r : nat) b', bitmap_scan_and_flip b 0 cnt false = Ok (Z.of_nat r, b') ∧
      Z.of_nat r + cnt <= bit_cnt b ∧
      bitmap_wf b' ∧ bit_cnt b' = bit_cnt b ∧
      run_of (bits_of b) r (Z.to_nat cnt) false ∧
      (∀ k, (k < r)%nat → ¬ run_of (bits_of b) k (Z.to_nat cnt) false) ∧
      bits_of b' = fill r (Z.to_nat cnt) true (bits_of b)) ∨
  (bitmap_scan_and_flip b 0 cnt false = Ok (BITMAP_ERROR, b) ∧
   ∀ k, ¬ run_of (bits_of b) k (Z.to_nat cnt) false).
Proof.
  intros Hwf Hc. pose proof (proj1 Hwf) as Hcnt. unfold bitmap_scan_and_flip.
  destruct (bitmap_scan_list b 0 cnt false) as [(r & E & ? & Hr & Hk)|[E Hno]];
    [done|lia|done|left|right]; rewrite E; unfold mbind; simpl.
  - pose proof (proj1 Hr) as Hl. rewrite bits_of_length in Hl.
    destruct (Z.eqb_spec (Z.of_nat r) BITMAP_ERROR) as [E0|_].
    { unfold BITMAP_ERROR, SIZE_MAX in E0. lia. }
    destruct (bitmap_set_multiple_fill b (Z.of_nat r) cnt true) as (b' & -> & ? & ? & Hf);
      [done|lia..|].
    rewrite Nat2Z.id in Hf. exists r, b'. splits; try done; try lia.
    intros k ?. apply Hk. lia.
  - split; [done|]. intros k. apply Hno. lia.
Qed.

Lemma bit_put_insert b i v b' :
  0 <= i < bit_cnt b → bit_put b i v b' → bits_of b' = <[Z.to_nat i := v]> (bits_of b).
Proof.
  intros Hi (_ & Hc & Hg). apply bits_of_ext.
  - rewrite length_insert, bits_of_length. congruence.
  - intros n Hn. rewrite Hg by lia. rewrite Hc in Hn.
    destruct (Z.eqb_spec i (Z.of_nat n)) as [->|].
    + rewrite Nat2Z.id, list_lookup_insert_eq; [done|]. rewrite bits_of_length. lia.
    + rewrite list_lookup_insert_ne by lia. by apply bits_of_lookup.
Qed.

(** Counting a range of bits. *)
Lemma bitmap_count_list b start cnt v :
  bitmap_wf b → 0 <= start → 0 <= cnt → start + cnt <= bit_cnt b →
  bitmap_count b start cnt v =
  Ok (Z.of_nat (count_occ bool_dec
        (take (Z.to_nat cnt) (drop (Z.to_nat start) (bits_of b))) v)).
Proof.
  intros Hwf Hs Hc Hb. pose proof (proj1 Hwf) as Hcnt. unfold bitmap_count.
  rewrite !assert_true by (widths; apply Z.leb_le; lia).
  set (l := drop (Z.to_nat start) (bits_of b)).
  edestruct (for_up_inv (λ k n, n = Z.of_nat (count_occ bool_dec (take (Z.to_nat k) l) v))
     (λ i value_cnt, t ← bitmap_test b (u32 (start + i));
                      Ok (if eqb t v then u32 (value_cnt + 1) else value_cnt))
     (Z.to_nat cnt) 0 0) as (s' & E & H); [by rewrite take_0| |].
  - intros k n Hk ->. widths. rewrite bitmap_test_get by (done || lia).
    unfold mbind; simpl. eexists. split; [done|].
    assert (l !! Z.to_nat k = Some (bget b (start + k))) as Hl.
    { unfold l. rewrite lookup_drop.
      replace (Z.to_nat start + Z.to_nat k)%nat with (Z.to_nat (start + k)) by lia.
      rewrite bits_of_lookup by lia. by rewrite Z2Nat.id by lia. }
    replace (Z.to_nat (k + 1)) with (S (Z.to_nat k)) by lia.
    rewrite (take_S_r _ _ _ Hl), count_occ_app; simpl.
    pose proof (count_occ_bound bool_dec v (take (Z.to_nat k) l)) as Hcb.
    rewrite length_take in Hcb.
    destruct (bool_dec (bget b (start + k)) v), (eqb_spec (bget b (start + k)) v);
      try congruence; simpl; widths; lia.
  - rewrite E, H, Z.add_0_l, Z2Nat.id by lia. done.
Qed.

(** Setting, testing and flipping a bit implement update, lookup and
    negation of the list of bits, and keep the bitmap well formed, for every
    valid index. *)
Lemma bit_refines (b : bitmap) (i : Z) (v : bool)
  (Hwf : bitmap_wf b) (Hi : 0 <= i < bit_cnt b) :
  (∃ b', bitmap_set b i v = Ok b' ∧ bitmap_wf b' ∧
         bits_of b' = <[Z.to_nat i := v]> (bits_of b)) ∧
  (∃ t, bitmap_test b i = Ok t ∧ bits_of b !! Z.to_nat i = Some t) ∧
  (∃ b' t, bitmap_flip b i = Ok b' ∧ bitmap_wf b' ∧ bits_of b !! Z.to_nat i = Some t ∧
         bits_of b' = <[Z.to_nat i := negb t]> (bits_of b)).
Proof.
  assert (bits_of b !! Z.to_nat i = Some (bget b i)) as Hl.
  { rewrite bits_of_lookup by lia. by rewrite Z2Nat.id by lia. }
  destruct (bitmap_set_put b i v Hwf Hi) as (b1 & ? & H1).
  destruct (bitmap_flip_put b i Hwf Hi) as (b2 & ? & H2).
  splits.
  - exists b1. splits; [done|apply H1|by apply bit_put_insert].
  - exists (bget b i). by rewrite bitmap_test_get.
  - exists b2, (bget b i). splits; [done|apply H2|done|by apply bit_put_insert].
Qed.

(** Setting a range of bits replaces exactly that range, and counting a
    range counts the occurrences of the value in it. *)
Lemma range_refines (b : bitmap) (start cnt : Z) (v : bool)
  (Hwf : bitmap_wf b) (Hs : 0 <= start) (Hc : 0 <= cnt) (Hb : start + cnt <= bit_cnt b) :
  (∃ b', bitmap_set_multiple b start cnt v = Ok b' ∧ bitmap_wf b' ∧
         bits_of b' = fill (Z.to_nat start) (Z.to_nat cnt) v (bits_of b)) ∧
  bitmap_count b start cnt v =
    Ok (Z.of_nat (count_occ bool_dec
          (take (Z.to_nat cnt) (drop (Z.to_nat start) (bits_of b))) v)).
Proof.
  split; [|by apply bitmap_count_list].
  destruct (bitmap_set_multiple_fill b start cnt v) as (b' & ? & ? & ? & ?); eauto.
Qed.

(** C25: a bitmap is a list of bits.  Setting, testing and flipping a bit
    implement update, lookup and negation at every valid index; setting a range
    replaces exactly that range, counting one counts the occurrences of the
    value in it; and every operation keeps the bitmap well formed. *)
Theorem bitmap_refines (b : bitmap) (i start cnt : Z) (v : bool)
  (Hwf : bitmap_wf b) (Hi : 0 <= i < bit_cnt b)
  (Hs : 0 <= start) (Hc : 0 <= cnt) (Hb : start + cnt <= bit_cnt b) :
  (∃ b', bitmap_set b i v = Ok b' ∧ bitmap_wf b' ∧
         bits_of b' = <[Z.to_nat i := v]> (bits_of b)) ∧
  (∃ t, bitmap_test b i = Ok t ∧ bits_of b !! Z.to_nat i = Some t) ∧
  (∃ b' t, bitmap_flip b i = Ok b' ∧ bitmap_wf b' ∧ bits_of b !! Z.to_nat i = Some t ∧
         bits_of b' = <[Z.to_nat i := negb t]> (bits_of b)) ∧
  (∃ b', bitmap_set_multiple b start cnt v = Ok b' ∧ bitmap_wf b' ∧
         bits_of b' = fill (Z.to_nat start) (Z.to_nat cnt) v (bits_of b)) ∧
  bitmap_count b start cnt v =
    Ok (Z.of_nat (count_occ bool_dec
          (take (Z.to_nat cnt) (drop (Z.to_nat start) (bits_of b))) v)).
Proof.
  destruct (bit_refines b i v Hwf Hi) as (? & ? & ?).
  destruct (range_refines b start cnt v Hwf Hs Hc Hb). done.
Qed.

(** [bitmap_scan_and_flip] claims the first run of [cnt] equal bits at or
    after [start], flipping exactly those bits; if there is no such run it
    returns [BITMAP_ERROR] and leaves the bitmap alone. *)
Theorem bitmap_scan_and_flip_correct (b : bitmap) (start cnt : Z) (v : bool)
  (Hwf : bitmap_wf b) (Hs : 0 <= start <= bit_cnt b) (Hc : 0 <= cnt) :
  (∃ (r : nat) b', bitmap_scan_and_flip b start cnt v = Ok (Z.of_nat r, b') ∧
      (Z.to_nat start <= r)%nat ∧ bitmap_wf b' ∧
      run_of (bits_of b) r (Z.to_nat cnt) v ∧
      (∀ k, (Z.to_nat start <= k < r)%nat → ¬ run_of (bits_of b) k (Z.to_nat cnt) v) ∧
      bits_of b' = fill r (Z.to_nat cnt) (negb v) (bits_of b)) ∨
  (bitmap_scan_and_flip b start cnt v = Ok (BITMAP_ERROR, b) ∧
   ∀ k, (Z.to_nat start <= k)%nat → ¬ run_of (bits_of b) k (Z.to_nat cnt) v).
Proof.
  pose proof (proj1 Hwf) as Hcnt. unfold bitmap_scan_and_flip.
  destruct (bitmap_scan_list b start cnt v) as [(r & E & ? & Hr & Hk)|[E Hno]];
    [done..|left|right]; rewrite E; unfold mbind; simpl; [|done].
  pose proof (proj1 Hr) as Hl. rewrite bits_of_length in Hl.
  destruct (Z.eqb_spec (Z.of_nat r) BITMAP_ERROR) as [E0|_].
  { unfold BITMAP_ERROR, SIZE_MAX in E0. lia. }
  destruct (bitmap_set_multiple_fill b (Z.of_nat r) cnt (negb v)) as (b' & -> & ? & ? & Hf);
    [done|lia..|].
  rewrite Nat2Z.id in Hf. exists r, b'. splits; done.
Qed.

(** A bitmap of 40 bits in two elements, with bits 0, 1 and 33 set. *)
Definition sample_bitmap : bitmap := mkBitmap 40 [3; 2].

Lemma sample_bitmap_wf : bitmap_wf sample_bitmap.
Proof.
  split; [simpl; lia|]. split; [vm_compute; discriminate|].
  repeat constructor; lia.
Qed.

Lemma bitmap_refines_witness :
  bitmap_test sample_bitmap 33 = Ok true ∧ bitmap_count sample_bitmap 1 33 true = Ok 2 ∧
  ∃ b', bitmap_set_multiple sample_bitmap 1 33 false = Ok b' ∧ bitmap_wf b' ∧
        bits_of b' = fill 1 33 false (bits_of sample_bitmap).
Proof.
  split; [reflexivity|]. split; [reflexivity|].
  destruct (bitmap_refines sample_bitmap 35 1 33 false sample_bitmap_wf
    ltac:(simpl; lia) ltac:(lia) ltac:(lia) ltac:(simpl; lia)) as (_ & _ & _ & H & _). exact H.
Defined.

Lemma bitmap_scan_and_flip_witness :
  (∃ b', bitmap_scan_and_flip sample_bitmap 0 32 false = Ok (BITMAP_ERROR, b')) ∧
  bitmap_scan_and_flip sample_bitmap 0 31 false = Ok (2, mkBitmap 40 [4294967295; 3]) ∧
  ∃ r b', bitmap_scan_and_flip sample_bitmap 0 31 false = Ok (r, b').
Proof.
  split; [eexists; vm_compute; reflexivity|]. split; [vm_compute; reflexivity|].
  destruct (bitmap_scan_and_flip_correct sample_bitmap 0 31 false sample_bitmap_wf
    ltac:(simpl; lia) ltac:(lia)) as [(r & b' & H & _)|[H _]]; eauto.
Defined.
