(* ===== verification/KList.v ===== *)
(** The kernel's intrusive doubly linked list (lib/kernel/list.c, list.h).

    Elements live in a heap of [struct list_elem] cells indexed by address; a
    list is a header of two cells, the head and the tail.  Every operation of
    list.c is translated against that heap, pointer by pointer, with its
    ASSERTs; [list_rep] relates a heap to the sequence of element addresses
    it stores.  The theorems show that each operation implements the
    operation on sequences that its comment promises, leaves the rest of the
    heap alone, and never faults; for the loops, that the fuel bound given in
    the statement (more than the number of elements) is enough. *)
From S2P Require Import Prelude.
From Stdlib Require Import Permutation Sorted.

Definition NULL : Z := 0.

(** [struct list_elem]. *)
Record list_elem := mkElem { prev : Z; next : Z }.

Abbreviation heap := (gmap Z list_elem).
Abbreviation LM := (M heap).

(** [struct list]: the head element first, the tail element 8 bytes on. *)
Definition sizeof_list_elem : Z := 8.
Definition head_of (l : Z) : Z := l.
Definition tail_of (l : Z) : Z := l + sizeof_list_elem.

(** Memory accesses [a->prev], [a->next], [a->prev = p], [a->next = n]. *)
Definition load (a : Z) : LM list_elem :=
  λ h, match h !! a with Some e => Ok (e, h) | None => Err WildAccess end.
Definition get_prev (a : Z) : LM Z := e ← load a; mret (prev e).
Definition get_next (a : Z) : LM Z := e ← load a; mret (next e).
Definition set_prev (a p : Z) : LM () :=
  λ h, match h !! a with
       | Some e => Ok ((), <[a := mkElem p (next e)]> h)
       | None => Err WildAccess
       end.
Definition set_next (a n : Z) : LM () :=
  λ h, match h !! a with
       | Some e => Ok ((), <[a := mkElem (prev e) n]> h)
       | None => Err WildAccess
       end.

Definition is_head (elem : Z) : LM bool :=
  if elem =? NULL then mret false else
  e ← load elem; mret ((prev e =? NULL) && negb (next e =? NULL)).
Definition is_interior (elem : Z) : LM bool :=
  if elem =? NULL then mret false else
  e ← load elem; mret (negb (prev e =? NULL) && negb (next e =? NULL)).
Definition is_tail (elem : Z) : LM bool :=
  if elem =? NULL then mret false else
  e ← load elem; mret (negb (prev e =? NULL) && (next e =? NULL)).

(** [ASSERT (a || b)] on predicates that read the heap, with C's
    short-circuit evaluation. *)
Definition assert_either (a b : LM bool) : LM () :=
  r ← a; if (r : bool) then mret () else r' ← b; check r'.
Definition assert_that (a : LM bool) : LM () := r ← a; check r.

Definition list_init (list : Z) : LM () :=
  check (negb (list =? NULL));;
  set_prev (head_of list) NULL;;
  set_next (head_of list) (tail_of list);;
  set_prev (tail_of list) (head_of list);;
  set_next (tail_of list) NULL.

Definition list_begin (list : Z) : LM Z :=
  check (negb (list =? NULL));; get_next (head_of list).

Definition list_next (elem : Z) : LM Z :=
  assert_either (is_head elem) (is_interior elem);; get_next elem.

Definition list_end (list : Z) : LM Z :=
  check (negb (list =? NULL));; mret (tail_of list).

Definition list_rbegin (list : Z) : LM Z :=
  check (negb (list =? NULL));; get_prev (tail_of list).

Definition list_prev (elem : Z) : LM Z :=
  assert_either (is_interior elem) (is_tail elem);; get_prev elem.

Definition list_rend (list : Z) : LM Z :=
  check (negb (list =? NULL));; mret (head_of list).
Definition list_head (list : Z) : LM Z :=
  check (negb (list =? NULL));; mret (head_of list).
Definition list_tail (list : Z) : LM Z :=
  check (negb (list =? NULL));; mret (tail_of list).

Definition list_insert (before elem : Z) : LM () :=
  assert_either (is_interior before) (is_tail before);;
  check (negb (elem =? NULL));;
  p ← get_prev before;
  set_prev elem p;;
  set_next elem before;;
  p' ← get_prev before;
  set_next p' elem;;
  set_prev before elem.

Definition list_splice (before first last : Z) : LM () :=
  assert_either (is_interior before) (is_tail before);;
  if first =? last then mret ()
  else
    last ← list_prev last;
    assert_that (is_interior first);;
    assert_that (is_interior last);;
    fp ← get_prev first; ln ← get_next last;
    set_next fp ln;;
    ln' ← get_next last; fp' ← get_prev first;
    set_prev ln' fp';;
    bp ← get_prev before;
    set_prev first bp;;
    set_next last before;;
    bp' ← get_prev before;
    set_next bp' first;;
    set_prev before last.

Definition list_push_front (list elem : Z) : LM () :=
  b ← list_begin list; list_insert b elem.
Definition list_push_back (list elem : Z) : LM () :=
  e ← list_end list; list_insert e elem.

Definition list_remove (elem : Z) : LM Z :=
  assert_that (is_interior elem);;
  p ← get_prev elem; n ← get_next elem;
  set_next p n;;
  n' ← get_next elem; p' ← get_prev elem;
  set_prev n' p';;
  get_next elem.

Definition list_empty (list : Z) : LM bool :=
  b ← list_begin list; e ← list_end list; mret (b =? e).

Definition list_front (list : Z) : LM Z :=
  b ← list_empty list; check (negb b);; get_next (head_of list).
Definition list_back (list : Z) : LM Z :=
  b ← list_empty list; check (negb b);; get_prev (tail_of list).

Definition list_pop_front (list : Z) : LM Z :=
  front ← list_front list; list_remove front;; mret front.
Definition list_pop_back (list : Z) : LM Z :=
  back ← list_back list; list_remove back;; mret back.

(** [for (e = list_begin (list); e != list_end (list); e = list_next (e))
    cnt++;] *)
Fixpoint size_loop (fuel : nat) (list e cnt : Z) : LM Z :=
  match fuel with
  | O => fail OutOfFuel
  | S fuel =>
      z ← list_end list;
      if e =? z then mret cnt
      else e' ← list_next e; size_loop fuel list e' (u32 (cnt + 1))
  end.
Definition list_size (fuel : nat) (list : Z) : LM Z :=
  e ← list_begin list; size_loop fuel list e 0.

(** [swap (&a->prev, &a->next)], [swap (&a->next, &b->prev)],
    [swap (&a->prev, &b->next)]: the three uses of [swap] in [list_reverse]. *)
Definition swap_links (a : Z) : LM () :=
  e ← load a; set_prev a (next e);; set_next a (prev e).
Definition swap_next_prev (a b : Z) : LM () :=
  x ← get_next a; y ← get_prev b; set_next a y;; set_prev b x.
Definition swap_prev_next (a b : Z) : LM () :=
  x ← get_prev a; y ← get_next b; set_prev a y;; set_next b x.

Fixpoint reverse_loop (fuel : nat) (list e : Z) : LM () :=
  match fuel with
  | O => fail OutOfFuel
  | S fuel =>
      z ← list_end list;
      if e =? z then mret ()
      else swap_links e;; e' ← get_prev e; reverse_loop fuel list e'
  end.
Definition list_reverse (fuel : nat) (list : Z) : LM () :=
  em ← list_empty list;
  if (em : bool) then mret ()
  else
    e ← list_begin list;
    reverse_loop fuel list e;;
    swap_next_prev (head_of list) (tail_of list);;
    a ← get_next (head_of list); b ← get_prev (tail_of list);
    swap_prev_next a b.

(** The operations on ordered lists take the comparison [less] of two
    elements, with its auxiliary data already supplied. *)
Section Ordered.
Context (less : Z → Z → bool).

Fixpoint is_sorted_loop (fuel : nat) (a b : Z) : LM bool :=
  match fuel with
  | O => fail OutOfFuel
  | S fuel =>
      a ← list_next a;
      if a =? b then mret true
      else p ← list_prev a;
           if less a p then mret false else is_sorted_loop fuel a b
  end.
Definition is_sorted (fuel : nat) (a b : Z) : LM bool :=
  if negb (a =? b) then is_sorted_loop fuel a b else mret true.

Fixpoint run_loop (fuel : nat) (a b : Z) : LM Z :=
  match fuel with
  | O => fail OutOfFuel
  | S fuel =>
      a ← list_next a;
      if negb (a =? b) then
        p ← list_prev a;
        if negb (less a p) then run_loop fuel a b else mret a
      else mret a
  end.
Definition find_end_of_run (fuel : nat) (a b : Z) : LM Z :=
  check (negb (a =? NULL));; check (negb (b =? NULL));; check (negb (a =? b));;
  run_loop fuel a b.

Fixpoint merge_loop (fuel : nat) (a0 a1b0 b1 : Z) : LM () :=
  match fuel with
  | O => fail OutOfFuel
  | S fuel =>
      if negb (a0 =? a1b0) && negb (a1b0 =? b1) then
        if negb (less a1b0 a0) then
          a0 ← list_next a0; merge_loop fuel a0 a1b0 b1
        else
          a1b0 ← list_next a1b0;
          p ← list_prev a1b0;
          list_splice a0 p a1b0;;
          merge_loop fuel a0 a1b0 b1
      else mret ()
  end.
Definition inplace_merge (fuel : nat) (a0 a1b0 b1 : Z) : LM () :=
  check (negb (a0 =? NULL));; check (negb (a1b0 =? NULL));; check (negb (b1 =? NULL));;
  assert_that (is_sorted fuel a0 a1b0);;
  assert_that (is_sorted fuel a1b0 b1);;
  merge_loop fuel a0 a1b0 b1.

(** One pass of the [for] loop of [list_sort], returning
    [output_run_cnt]. *)
Fixpoint pass_loop (fuel lfuel : nat) (list a0 output_run_cnt : Z) : LM Z :=
  match lfuel with
  | O => fail OutOfFuel
  | S lfuel =>
      z ← list_end list;
      if a0 =? z then mret output_run_cnt
      else
        let output_run_cnt := u32 (output_run_cnt + 1) in
        a1b0 ← find_end_of_run fuel a0 z;
        if a1b0 =? z then mret output_run_cnt
        else
          b1 ← find_end_of_run fuel a1b0 z;
          inplace_merge fuel a0 a1b0 b1;;
          pass_loop fuel lfuel list b1 output_run_cnt
  end.

(** The [do ... while (output_run_cnt > 1)] loop. *)
Fixpoint sort_loop (fuel dfuel : nat) (list : Z) : LM () :=
  match dfuel with
  | O => fail OutOfFuel
  | S dfuel =>
      a0 ← list_begin list;
      n ← pass_loop fuel fuel list a0 0;
      if 1 <? n then sort_loop fuel dfuel list else mret ()
  end.
Definition list_sort (fuel : nat) (list : Z) : LM () :=
  check (negb (list =? NULL));;
  sort_loop fuel fuel list;;
  b ← list_begin list; e ← list_end list;
  assert_that (is_sorted fuel b e).

Fixpoint insert_ordered_loop (fuel : nat) (list e elem : Z) : LM Z :=
  match fuel with
  | O => fail OutOfFuel
  | S fuel =>
      z ← list_end list;
      if e =? z then mret e
      else if less elem e then mret e
      else e' ← list_next e; insert_ordered_loop fuel list e' elem
  end.
Definition list_insert_ordered (fuel : nat) (list elem : Z) : LM () :=
  check (negb (list =? NULL));; check (negb (elem =? NULL));;
  b ← list_begin list;
  e ← insert_ordered_loop fuel list b elem;
  list_insert e elem.

Fixpoint unique_loop (fuel : nat) (list duplicates elem : Z) : LM () :=
  match fuel with
  | O => fail OutOfFuel
  | S fuel =>
      next ← list_next elem;
      z ← list_end list;
      if next =? z then mret ()
      else if negb (less elem next) && negb (less next elem) then
        list_remove next;;
        (if negb (duplicates =? NULL) then list_push_back duplicates next else mret ());;
        unique_loop fuel list duplicates elem
      else unique_loop fuel list duplicates next
  end.
Definition list_unique (fuel : nat) (list duplicates : Z) : LM () :=
  check (negb (list =? NULL));;
  em ← list_empty list;
  if (em : bool) then mret ()
  else elem ← list_begin list; unique_loop fuel list duplicates elem.

Fixpoint max_loop (fuel : nat) (list e max : Z) : LM Z :=
  match fuel with
  | O => fail OutOfFuel
  | S fuel =>
      z ← list_end list;
      if e =? z then mret max
      else e' ← list_next e; max_loop fuel list e' (if less max e then e else max)
  end.
Definition list_max (fuel : nat) (list : Z) : LM Z :=
  max ← list_begin list; z ← list_end list;
  if negb (max =? z) then e ← list_next max; max_loop fuel list e max else mret max.

Fixpoint min_loop (fuel : nat) (list e min : Z) : LM Z :=
  match fuel with
  | O => fail OutOfFuel
  | S fuel =>
      z ← list_end list;
      if e =? z then mret min
      else e' ← list_next e; min_loop fuel list e' (if less e min then e else min)
  end.
Definition list_min (fuel : nat) (list : Z) : LM Z :=
  min ← list_begin list; z ← list_end list;
  if negb (min =? z) then e ← list_next min; min_loop fuel list e min else mret min.
End Ordered.

(** * Representation *)

Definition hdd (n : Z) (xs : list Z) : Z := match xs with [] => n | a :: _ => a end.
Fixpoint lastd (p : Z) (xs : list Z) : Z := match xs with [] => p | a :: xs => lastd a xs end.

(** [seg h p xs n]: the cells [xs] are linked in order, the first one's
    [prev] is [p] and the last one's [next] is [n]. *)
Fixpoint seg (h : heap) (p : Z) (xs : list Z) (n : Z) : Prop :=
  match xs with
  | [] => True
  | a :: xs' => h !! a = Some (mkElem p (hdd n xs')) ∧ seg h a xs' n
  end.

(** All the cells of a list, headers included. *)
Definition cells (l : Z) (xs : list Z) : list Z := head_of l :: xs ++ [tail_of l].

Definition list_rep (h : heap) (l : Z) (xs : list Z) : Prop :=
  seg h NULL (cells l xs) NULL ∧ NoDup (cells l xs) ∧ NULL ∉ cells l xs.

Lemma hdd_app n xs ys : hdd n (xs ++ ys) = hdd (hdd n ys) xs.
Proof. by destruct xs. Qed.
Lemma lastd_app p xs ys : lastd p (xs ++ ys) = lastd (lastd p xs) ys.
Proof. revert p. induction xs; simpl; eauto. Qed.
Lemma lastd_snoc p xs x : lastd p (xs ++ [x]) = x.
Proof. by rewrite lastd_app. Qed.

Lemma seg_app h p xs ys n :
  seg h p (xs ++ ys) n ↔ seg h p xs (hdd n ys) ∧ seg h (lastd p xs) ys n.
Proof.
  revert p. induction xs as [|a xs IH]; intros p; simpl; [tauto|].
  rewrite IH, hdd_app. tauto.
Qed.

(** Writes to cells outside a segment leave it in place. *)
Lemma seg_frame h h' p xs n :
  (∀ a, a ∈ xs → h' !! a = h !! a) → seg h p xs n → seg h' p xs n.
Proof.
  revert p. induction xs as [|a xs IH]; intros p Hf; simpl; [done|].
  intros [E Hs]. split.
  - rewrite Hf; [done|left].
  - apply IH; [|done]. intros. apply Hf. by right.
Qed.

Lemma seg_lookup h p A a B n :
  seg h p (A ++ a :: B) n → h !! a = Some (mkElem (lastd p A) (hdd n B)).
Proof. rewrite seg_app. simpl. tauto. Qed.

Lemma list_rep_frame h h' l xs :
  (∀ a, a ∈ cells l xs → h' !! a = h !! a) → list_rep h l xs → list_rep h' l xs.
Proof. intros Hf (Hs & Hn & H0). split; [|done]. by eapply seg_frame. Qed.

Lemma lastd_in p xs : lastd p xs = p ∨ lastd p xs ∈ xs.
Proof.
  revert p. induction xs as [|a xs IH]; intros p; simpl; [by left|].
  right. destruct (IH a) as [->|?]; [left|by right].
Qed.
Lemma hdd_in n xs : hdd n xs = n ∨ hdd n xs ∈ xs.
Proof. destruct xs; simpl; [by left|right; left]. Qed.

(** A split of the elements as a split of the cells. *)
Lemma cells_app l xs ys : cells l (xs ++ ys) = (head_of l :: xs) ++ (ys ++ [tail_of l]).
Proof. unfold cells. by rewrite <- app_assoc. Qed.

Lemma lastd_split p xs : ∃ A, p :: xs = A ++ [lastd p xs].
Proof.
  revert p. induction xs as [|a xs IH]; intros p; simpl; [by exists []|].
  destruct (IH a) as [A ->]. by exists (p :: A).
Qed.
Lemma hdd_split n xs : ∃ B, xs ++ [n] = hdd n xs :: B.
Proof. destruct xs; simpl; eauto. Qed.

(** The cells around an insertion point: [p] before it and [b] after it. *)
Lemma cells_split l xs ys :
  ∃ A B, cells l (xs ++ ys) = A ++ lastd (head_of l) xs :: hdd (tail_of l) ys :: B ∧
         head_of l :: xs = A ++ [lastd (head_of l) xs] ∧
         ys ++ [tail_of l] = hdd (tail_of l) ys :: B.
Proof.
  destruct (lastd_split (head_of l) xs) as [A HA].
  destruct (hdd_split (tail_of l) ys) as [B HB].
  exists A, B. split; [|done]. rewrite cells_app, HA, HB. by rewrite <- app_assoc.
Qed.

(** * Tactics for running the monadic code on a known heap *)

Lemma load_Ok (h : heap) a e : h !! a = Some e → load a h = Ok (e, h).
Proof. unfold load. by intros ->. Qed.
Lemma get_prev_Ok (h : heap) a e : h !! a = Some e → get_prev a h = Ok (prev e, h).
Proof. intros. unfold get_prev. by rewrite (M_bind_step _ _ _ _ _ (load_Ok _ _ _ H)). Qed.
Lemma get_next_Ok (h : heap) a e : h !! a = Some e → get_next a h = Ok (next e, h).
Proof. intros. unfold get_next. by rewrite (M_bind_step _ _ _ _ _ (load_Ok _ _ _ H)). Qed.
Lemma set_prev_Ok (h : heap) a e p :
  h !! a = Some e → set_prev a p h = Ok ((), <[a := mkElem p (next e)]> h).
Proof. unfold set_prev. by intros ->. Qed.
Lemma set_next_Ok (h : heap) a e n :
  h !! a = Some e → set_next a n h = Ok ((), <[a := mkElem (prev e) n]> h).
Proof. unfold set_next. by intros ->. Qed.

(** [step L]: execute the next command of the goal's program with lemma [L],
    leaving the lemma's premises. *)
Ltac step L := erewrite (M_bind_step _ _ _ _ _ L).

(** Lookup of a cell through the writes made so far, and execution of the
    next command when it is a read or a write of such a cell. *)
Ltac lk :=
  first [ eassumption
        | rewrite lookup_insert_eq; reflexivity
        | rewrite lookup_insert_ne by (done || congruence); lk ].
Ltac run L := erewrite M_bind_step; [|eapply L; lk]; simpl.

Lemma is_interior_Ok (h : heap) a e :
  a ≠ NULL → h !! a = Some e →
  is_interior a h = Ok (negb (prev e =? NULL) && negb (next e =? NULL), h).
Proof.
  intros Ha E. unfold is_interior. destruct (Z.eqb_spec a NULL); [done|].
  by rewrite (M_bind_step _ _ _ _ _ (load_Ok _ _ _ E)).
Qed.
Lemma is_tail_Ok (h : heap) a e :
  a ≠ NULL → h !! a = Some e →
  is_tail a h = Ok (negb (prev e =? NULL) && (next e =? NULL), h).
Proof.
  intros Ha E. unfold is_tail. destruct (Z.eqb_spec a NULL); [done|].
  by rewrite (M_bind_step _ _ _ _ _ (load_Ok _ _ _ E)).
Qed.
Lemma is_head_Ok (h : heap) a e :
  a ≠ NULL → h !! a = Some e →
  is_head a h = Ok ((prev e =? NULL) && negb (next e =? NULL), h).
Proof.
  intros Ha E. unfold is_head. destruct (Z.eqb_spec a NULL); [done|].
  by rewrite (M_bind_step _ _ _ _ _ (load_Ok _ _ _ E)).
Qed.

(** [ASSERT (is_interior (a) || is_tail (a))] holds of any cell with a
    predecessor; [ASSERT (is_head (a) || is_interior (a))] of any cell with a
    successor. *)
Lemma assert_has_prev (h : heap) a e :
  a ≠ NULL → h !! a = Some e → prev e ≠ NULL →
  assert_either (is_interior a) (is_tail a) h = Ok ((), h).
Proof.
  intros Ha E Hp. unfold assert_either. step (is_interior_Ok h a e Ha E).
  destruct (Z.eqb_spec (prev e) NULL); [done|]. simpl.
  destruct (Z.eqb_spec (next e) NULL) as [En|]; simpl; [|done].
  step (is_tail_Ok h a e Ha E). apply check_true. rewrite En.
  by destruct (Z.eqb_spec (prev e) NULL).
Qed.
Lemma assert_has_next (h : heap) a e :
  a ≠ NULL → h !! a = Some e → next e ≠ NULL →
  assert_either (is_head a) (is_interior a) h = Ok ((), h).
Proof.
  intros Ha E Hn. unfold assert_either. step (is_head_Ok h a e Ha E).
  destruct (Z.eqb_spec (next e) NULL); [done|]. simpl. rewrite andb_true_r.
  destruct (Z.eqb_spec (prev e) NULL) as [En|]; simpl; [done|].
  step (is_interior_Ok h a e Ha E). apply check_true.
  destruct (Z.eqb_spec (prev e) NULL), (Z.eqb_spec (next e) NULL); done.
Qed.
Lemma assert_interior (h : heap) a e :
  a ≠ NULL → h !! a = Some e → prev e ≠ NULL → next e ≠ NULL →
  assert_that (is_interior a) h = Ok ((), h).
Proof.
  intros Ha E Hp Hn. unfold assert_that. step (is_interior_Ok h a e Ha E).
  apply check_true. destruct (Z.eqb_spec (prev e) NULL), (Z.eqb_spec (next e) NULL); done.
Qed.

Lemma list_next_Ok (h : heap) a e :
  a ≠ NULL → h !! a = Some e → next e ≠ NULL → list_next a h = Ok (next e, h).
Proof.
  intros Ha E Hn. unfold list_next. step (assert_has_next h a e Ha E Hn).
  by apply get_next_Ok.
Qed.
Lemma list_prev_Ok (h : heap) a e :
  a ≠ NULL → h !! a = Some e → prev e ≠ NULL → list_prev a h = Ok (prev e, h).
Proof.
  intros Ha E Hp. unfold list_prev. step (assert_has_prev h a e Ha E Hp).
  by apply get_prev_Ok.
Qed.

(** * Traversal *)

Lemma list_rep_null h l xs a : list_rep h l xs → a ∈ cells l xs → a ≠ NULL.
Proof. intros (_ & _ & H0) Ha ->. done. Qed.

Lemma head_in_cells l xs : head_of l ∈ cells l xs.
Proof. left. Qed.
Lemma tail_in_cells l xs : tail_of l ∈ cells l xs.
Proof. unfold cells. right. apply elem_of_app. right. left. Qed.
Lemma elem_in_cells l xs a : a ∈ xs → a ∈ cells l xs.
Proof. intros. unfold cells. right. apply elem_of_app. by left. Qed.
#[local] Hint Resolve head_in_cells tail_in_cells elem_in_cells : core.

(** The cell of an element, and of the element after a split point. *)
Lemma list_rep_elem h l A a B :
  list_rep h l (A ++ a :: B) →
  h !! a = Some (mkElem (lastd (head_of l) A) (hdd (tail_of l) B)).
Proof.
  intros (Hs & _). rewrite cells_app in Hs.
  change ((head_of l :: A) ++ (a :: B) ++ [tail_of l])
    with ((head_of l :: A) ++ a :: (B ++ [tail_of l])) in Hs.
  apply seg_lookup in Hs. by rewrite hdd_app in Hs.
Qed.

Lemma list_rep_around h l A B :
  list_rep h l (A ++ B) →
  ∃ pp bn, h !! lastd (head_of l) A = Some (mkElem pp (hdd (tail_of l) B)) ∧
           h !! hdd (tail_of l) B = Some (mkElem (lastd (head_of l) A) bn).
Proof.
  intros (Hs & _). destruct (cells_split l A B) as (X & Y & E & _). rewrite E in Hs.
  pose proof (seg_lookup _ _ _ _ _ _ Hs) as E1.
  change (lastd (head_of l) A :: hdd (tail_of l) B :: Y)
    with ([lastd (head_of l) A] ++ hdd (tail_of l) B :: Y) in Hs.
  rewrite app_assoc in Hs. apply seg_lookup in Hs. rewrite lastd_snoc in Hs. eauto.
Qed.

Lemma around_in_cells l A B :
  lastd (head_of l) A ∈ cells l (A ++ B) ∧ hdd (tail_of l) B ∈ cells l (A ++ B).
Proof.
  destruct (cells_split l A B) as (X & Y & -> & _). rewrite !elem_of_app. set_solver.
Qed.

Lemma list_rep_l h l xs : list_rep h l xs → l ≠ NULL.
Proof. intros Hr. exact (list_rep_null _ _ _ _ Hr (head_in_cells l xs)). Qed.

Lemma check_nonnull {S} (s : S) a : a ≠ NULL → check (negb (a =? NULL)) s = Ok ((), s).
Proof. intros. apply check_true. by destruct (Z.eqb_spec a NULL). Qed.

Lemma list_end_Ok h l xs : list_rep h l xs → list_end l h = Ok (tail_of l, h).
Proof. intros Hr%list_rep_l. unfold list_end. by step (check_nonnull h l Hr). Qed.

Lemma list_begin_Ok h l xs : list_rep h l xs → list_begin l h = Ok (hdd (tail_of l) xs, h).
Proof.
  intros Hr. pose proof (list_rep_l _ _ _ Hr). unfold list_begin.
  step (check_nonnull h l ltac:(done)).
  destruct (list_rep_around h l [] xs Hr) as (pp & bn & E & _). simpl in E.
  by rewrite (get_next_Ok _ _ _ E).
Qed.

Lemma list_rbegin_Ok h l xs : list_rep h l xs → list_rbegin l h = Ok (lastd (head_of l) xs, h).
Proof.
  intros Hr. pose proof (list_rep_l _ _ _ Hr). unfold list_rbegin.
  step (check_nonnull h l ltac:(done)). rewrite <- (app_nil_r xs) in Hr.
  destruct (list_rep_around h l xs [] Hr) as (pp & bn & _ & E). simpl in E.
  by rewrite (get_prev_Ok _ _ _ E).
Qed.

Lemma next_of_elem h l A a B :
  list_rep h l (A ++ a :: B) → list_next a h = Ok (hdd (tail_of l) B, h).
Proof.
  intros Hr. assert (a ≠ NULL) as Ha.
  { eapply list_rep_null; [exact Hr|]. apply elem_in_cells. set_solver. }
  rewrite (list_next_Ok _ _ _ Ha (list_rep_elem _ _ _ _ _ Hr)); [done|simpl].
  change (A ++ a :: B) with (A ++ [a] ++ B) in Hr. rewrite app_assoc in Hr.
  eapply list_rep_null; [exact Hr|apply around_in_cells].
Qed.

Lemma prev_of_split h l A B :
  list_rep h l (A ++ B) → list_prev (hdd (tail_of l) B) h = Ok (lastd (head_of l) A, h).
Proof.
  intros Hr. destruct (list_rep_around _ _ _ _ Hr) as (pp & bn & _ & E).
  destruct (around_in_cells l A B) as [H1 H2].
  rewrite (list_prev_Ok _ _ _ (list_rep_null _ _ _ _ Hr H2) E); [done|simpl].
  by eapply list_rep_null.
Qed.

(** An element is never the tail, so the loops' exit tests are exact. *)
Lemma elem_ne_tail h l A a B : list_rep h l (A ++ a :: B) → a ≠ tail_of l.
Proof.
  intros (_ & Hn & _) ->. rewrite cells_app in Hn. simpl in Hn.
  apply NoDup_cons in Hn as [_ Hn]. apply NoDup_app in Hn as (_ & _ & Hn).
  apply NoDup_cons in Hn as [Hn _]. apply Hn. set_solver.
Qed.

Lemma hdd_eqb_tail h l A B :
  list_rep h l (A ++ B) → (hdd (tail_of l) B =? tail_of l) = bool_decide (B = []).
Proof.
  intros Hr. destruct B as [|b B]; simpl; [by rewrite Z.eqb_refl|].
  pose proof (elem_ne_tail _ _ _ _ _ Hr). destruct (Z.eqb_spec b (tail_of l)); done.
Qed.

Lemma list_empty_Ok h l xs : list_rep h l xs → list_empty l h = Ok (bool_decide (xs = []), h).
Proof.
  intros Hr. unfold list_empty. step (list_begin_Ok _ _ _ Hr). step (list_end_Ok _ _ _ Hr).
  by rewrite (hdd_eqb_tail h l [] xs Hr).
Qed.

(** * Initialisation, insertion and removal *)

Lemma list_init_Ok h l e1 e2 :
  l ≠ NULL → tail_of l ≠ NULL → h !! head_of l = Some e1 → h !! tail_of l = Some e2 →
  ∃ h', list_init l h = Ok ((), h') ∧ list_rep h' l [] ∧
        ∀ a, a ≠ head_of l → a ≠ tail_of l → h' !! a = h !! a.
Proof.
  intros Hl Ht E1 E2. assert (head_of l ≠ tail_of l) as Hne.
  { unfold head_of, tail_of, sizeof_list_elem. lia. }
  unfold list_init. step (check_nonnull h l Hl).
  step (set_prev_Ok h _ e1 NULL E1).
  run set_next_Ok. run set_prev_Ok. erewrite set_next_Ok by lk.
  eexists. split; [done|]. split.
  - split; [|split].
    + simpl. splits; [|by rewrite lookup_insert_eq|done].
      rewrite !lookup_insert_ne, lookup_insert_eq by done. done.
    + unfold cells. simpl. apply NoDup_cons. split; [set_solver|apply NoDup_singleton].
    + unfold cells. simpl. set_solver.
  - intros a ??. by rewrite !lookup_insert_ne.
Qed.

Lemma list_insert_Ok h l A B e old :
  list_rep h l (A ++ B) → e ∉ cells l (A ++ B) → e ≠ NULL → h !! e = Some old →
  ∃ h', list_insert (hdd (tail_of l) B) e h = Ok ((), h') ∧ list_rep h' l (A ++ e :: B) ∧
        (∀ a, a ≠ e → a ∉ cells l (A ++ B) → h' !! a = h !! a) ∧
        (∀ a, is_Some (h !! a) → is_Some (h' !! a)).
Proof.
  intros Hr He He0 Eo. pose proof Hr as (Hs & Hn & H0).
  destruct (list_rep_around _ _ _ _ Hr) as (pp & bn & Ep & Eb).
  destruct (around_in_cells l A B) as [Hpin Hbin].
  destruct (cells_split l A B) as (X & Y & EC & EA & EB).
  set (p := lastd (head_of l) A) in *. set (b := hdd (tail_of l) B) in *.
  rewrite EC in Hn, Hs. apply NoDup_app in Hn as (Hn1 & Hn2 & Hn3).
  apply NoDup_cons in Hn3 as [Hn4 Hn5]. apply NoDup_cons in Hn5 as [Hn6 Hn7].
  assert (p ≠ b) as Hpb by set_solver.
  assert (e ≠ p) as Hep by congruence. assert (e ≠ b) as Heb by congruence.
  unfold list_insert.
  step (assert_has_prev h b _ ltac:(by eapply list_rep_null) Eb
     ltac:(by eapply (list_rep_null _ _ _ p Hr))).
  step (check_nonnull h e He0). step (get_prev_Ok h b _ Eb). simpl.
  step (set_prev_Ok h e old p Eo).
  run set_next_Ok. run get_prev_Ok. run set_next_Ok. erewrite set_prev_Ok by lk. simpl.
  eexists. split; [done|]. splits.
  - assert (cells l (A ++ e :: B) = X ++ p :: e :: b :: Y) as EC'.
    { rewrite cells_app, EA. simpl. rewrite EB, <- app_assoc. done. }
    split; [|split].
    + rewrite EC'. apply seg_app in Hs as [Hs1 (Hs2 & Hs3 & Hs4)].
      assert (∀ a, a ∈ X ∨ a ∈ Y → a ≠ p ∧ a ≠ b ∧ a ≠ e) as Hfr.
      { intros a Ha. rewrite EC in He. set_solver. }
      apply seg_app; simpl. split; [|splits].
      * eapply seg_frame; [|exact Hs1]. intros a Ha.
        destruct (Hfr a (or_introl Ha)) as (?&?&?). by rewrite !lookup_insert_ne.
      * rewrite lookup_insert_ne, lookup_insert_eq by done. rewrite Ep in Hs2. congruence.
      * by rewrite !lookup_insert_ne, lookup_insert_eq by done.
      * rewrite lookup_insert_eq. rewrite Eb in Hs3. congruence.
      * eapply seg_frame; [|exact Hs4]. intros a Ha.
        destruct (Hfr a (or_intror Ha)) as (?&?&?). by rewrite !lookup_insert_ne.
    + rewrite EC'. rewrite EC in He. apply NoDup_app. splits; [done|set_solver|].
      rewrite !NoDup_cons. set_solver.
    + rewrite EC'. rewrite EC in H0. set_solver.
  - intros a Hae Hac.
    rewrite !lookup_insert_ne; (done || congruence).
  - intros a Ha. rewrite !lookup_insert_is_Some'. tauto.
Qed.

Lemma list_remove_Ok h l A a B :
  list_rep h l (A ++ a :: B) →
  ∃ h', list_remove a h = Ok (hdd (tail_of l) B, h') ∧ list_rep h' l (A ++ B) ∧
        (∀ x, x ∉ cells l (A ++ B) → h' !! x = h !! x) ∧
        (∀ x, is_Some (h !! x) → is_Some (h' !! x)).
Proof.
  intros Hr. pose proof Hr as (Hs & Hn & H0).
  pose proof (list_rep_elem _ _ _ _ _ Hr) as Ea.
  destruct (cells_split l A (a :: B)) as (X & Y & EC & EA & EB).
  simpl in EC, EB. destruct (hdd_split (tail_of l) B) as [Z HZ].
  simpl in EB. rewrite HZ in EB. injection EB as <-. 
  set (p := lastd (head_of l) A) in *. set (b := hdd (tail_of l) B) in *.
  rewrite EC in Hn, Hs, H0. apply seg_app in Hs as [Hs1 (Hs2 & Hs3 & Hs4 & Hs5)].
  apply NoDup_app in Hn as (Hn1 & Hn2 & Hn3).
  rewrite !NoDup_cons in Hn3. destruct Hn3 as (Hn4 & Hn5 & Hn6 & Hn7).
  assert (p ≠ b ∧ a ≠ p ∧ a ≠ b ∧ a ≠ NULL ∧ p ≠ NULL ∧ b ≠ NULL) as (?&?&?&?&?&?)
    by set_solver.
  unfold list_remove. step (assert_interior h a _ ltac:(done) Ea ltac:(done) ltac:(done)).
  step (get_prev_Ok h a _ Ea). step (get_next_Ok h a _ Ea). simpl.
  step (set_next_Ok h p _ b Hs2). simpl.
  run get_next_Ok. run get_prev_Ok. run set_prev_Ok. erewrite get_next_Ok by lk. simpl.
  assert (cells l (A ++ B) = X ++ p :: b :: Z) as EC'.
  { rewrite cells_app, EA, HZ, <- app_assoc. done. }
  eexists. split; [done|]. splits.
  - split; [|split]; rewrite EC'.
    + apply seg_app; simpl. split; [|splits].
      * eapply seg_frame; [|exact Hs1]. intros x Hx. rewrite !lookup_insert_ne by set_solver. done.
      * rewrite lookup_insert_ne, lookup_insert_eq by done. done.
      * by rewrite lookup_insert_eq.
      * eapply seg_frame; [|exact Hs5]. intros x Hx. rewrite !lookup_insert_ne by set_solver. done.
    + apply NoDup_app. splits; [done|set_solver|]. rewrite !NoDup_cons. set_solver.
    + set_solver.
  - intros x Hx. rewrite EC' in Hx. rewrite !lookup_insert_ne by set_solver. done.
  - intros x Hx. rewrite !lookup_insert_is_Some'. tauto.
Qed.

(** * The two link fields, separately

    Operations that relink several cells at once ([list_splice],
    [list_reverse]) write [next] fields and [prev] fields of cells that may
    coincide.  Seen as two functions of the address, the fields do not
    interfere. *)
Definition nx (h : heap) (a : Z) : option Z := next <$> h !! a.
Definition pv (h : heap) (a : Z) : option Z := prev <$> h !! a.

Fixpoint nchain (f : Z → option Z) (xs : list Z) (n : Z) : Prop :=
  match xs with [] => True | a :: xs' => f a = Some (hdd n xs') ∧ nchain f xs' n end.
Fixpoint pchain (f : Z → option Z) (p : Z) (xs : list Z) : Prop :=
  match xs with [] => True | a :: xs' => f a = Some p ∧ pchain f a xs' end.

Lemma cell_fields (h : heap) a p n :
  h !! a = Some (mkElem p n) ↔ nx h a = Some n ∧ pv h a = Some p.
Proof.
  unfold nx, pv. destruct (h !! a) as [[p' n']|]; simpl; naive_solver.
Qed.

Lemma seg_fields h p xs n : seg h p xs n ↔ nchain (nx h) xs n ∧ pchain (pv h) p xs.
Proof.
  revert p. induction xs as [|a xs IH]; intros p; simpl; [tauto|].
  rewrite cell_fields, IH. tauto.
Qed.

Lemma nchain_app f xs ys n : nchain f (xs ++ ys) n ↔ nchain f xs (hdd n ys) ∧ nchain f ys n.
Proof.
  induction xs as [|a xs IH]; simpl; [tauto|]. rewrite IH, hdd_app. tauto.
Qed.
Lemma pchain_app f p xs ys : pchain f p (xs ++ ys) ↔ pchain f p xs ∧ pchain f (lastd p xs) ys.
Proof.
  revert p. induction xs as [|a xs IH]; intros p; simpl; [tauto|]. rewrite IH. tauto.
Qed.
Lemma nchain_frame f g xs n : (∀ a, a ∈ xs → g a = f a) → nchain f xs n → nchain g xs n.
Proof.
  induction xs as [|a xs IH]; intros Hf; simpl; [done|]. intros [E Hs].
  split; [rewrite Hf; [done|left]|]. apply IH; [|done]. intros; apply Hf; by right.
Qed.
Lemma pchain_frame f g p xs : (∀ a, a ∈ xs → g a = f a) → pchain f p xs → pchain g p xs.
Proof.
  revert p. induction xs as [|a xs IH]; intros p Hf; simpl; [done|]. intros [E Hs].
  split; [rewrite Hf; [done|left]|]. apply IH; [|done]. intros; apply Hf; by right.
Qed.

(** Redirecting the last [next], or the first [prev], of a chain. *)
Lemma nchain_retarget f g x xs n n' :
  NoDup (x :: xs) → nchain f (x :: xs) n → g (lastd x xs) = Some n' →
  (∀ a, a ∈ x :: xs → a ≠ lastd x xs → g a = f a) → nchain g (x :: xs) n'.
Proof.
  revert x. induction xs as [|y xs IH]; intros x Hn Hc Hl Hf; simpl in *; [done|].
  apply NoDup_cons in Hn as [Hx Hn]. split.
  - rewrite Hf; [tauto|left|].
    intros ->. destruct (lastd_in y xs) as [E|E]; rewrite ?E in Hx; set_solver.
  - apply IH; [done|tauto|done|]. intros a Ha. apply Hf. by right.
Qed.
Lemma pchain_retarget f g x xs p p' :
  pchain f p (x :: xs) → g x = Some p' → (∀ a, a ∈ xs → g a = f a) → pchain g p' (x :: xs).
Proof. simpl. intros [_ Hc] Hx Hf. split; [done|]. by eapply pchain_frame. Qed.

Lemma nchain_last f x xs n : nchain f (x :: xs) n → f (lastd x xs) = Some n.
Proof. revert x. induction xs as [|y xs IH]; intros x; simpl; [tauto|]. intros [_ ?]. by apply IH. Qed.

Lemma get_next_nx h a n : nx h a = Some n → get_next a h = Ok (n, h).
Proof.
  unfold nx. destruct (h !! a) as [e|] eqn:E; [|done]. simpl. intros [= <-].
  by apply get_next_Ok.
Qed.
Lemma get_prev_pv h a p : pv h a = Some p → get_prev a h = Ok (p, h).
Proof.
  unfold pv. destruct (h !! a) as [e|] eqn:E; [|done]. simpl. intros [= <-].
  by apply get_prev_Ok.
Qed.

Definition fupd (f : Z → option Z) (a v : Z) : Z → option Z :=
  λ x, if decide (x = a) then Some v else f x.

Lemma set_next_fields h a n :
  is_Some (h !! a) → ∃ h', set_next a n h = Ok ((), h') ∧ (∀ x, nx h' x = fupd (nx h) a n x) ∧
    (∀ x, pv h' x = pv h x) ∧ (∀ x, is_Some (h' !! x) ↔ is_Some (h !! x)).
Proof.
  intros [e E]. rewrite (set_next_Ok _ _ _ n E). eexists. split; [done|].
  unfold nx, pv, fupd. splits; intros x;
    (destruct (decide (x = a)) as [->|]; [rewrite lookup_insert_eq, ?E|rewrite lookup_insert_ne by done]);
    simpl; done.
Qed.
Lemma set_prev_fields h a p :
  is_Some (h !! a) → ∃ h', set_prev a p h = Ok ((), h') ∧ (∀ x, pv h' x = fupd (pv h) a p x) ∧
    (∀ x, nx h' x = nx h x) ∧ (∀ x, is_Some (h' !! x) ↔ is_Some (h !! x)).
Proof.
  intros [e E]. rewrite (set_prev_Ok _ _ _ p E). eexists. split; [done|].
  unfold nx, pv, fupd. splits; intros x;
    (destruct (decide (x = a)) as [->|]; [rewrite lookup_insert_eq, ?E|rewrite lookup_insert_ne by done]);
    simpl; done.
Qed.

Lemma lookup_fields (h h' : heap) a : nx h' a = nx h a → pv h' a = pv h a → h' !! a = h !! a.
Proof.
  unfold nx, pv. destruct (h !! a) as [[]|], (h' !! a) as [[]|]; simpl; naive_solver.
Qed.

Lemma rep_alloc h l xs a : list_rep h l xs → a ∈ cells l xs → is_Some (h !! a).
Proof.
  intros (Hs & _) Ha. apply list_elem_of_split in Ha as (A & B & E). rewrite E in Hs.
  apply seg_lookup in Hs. eauto.
Qed.

(** Membership goals over concatenations and explicit lists. *)
Ltac mem :=
  rewrite ?elem_of_app, ?elem_of_cons, ?elem_of_nil in *; tauto.

Lemma assert_has_prev_pv h a p :
  a ≠ NULL → pv h a = Some p → p ≠ NULL →
  assert_either (is_interior a) (is_tail a) h = Ok ((), h).
Proof.
  intros Ha. unfold pv. destruct (h !! a) as [e|] eqn:E; [|done]. simpl. intros [= <-] Hp.
  by eapply assert_has_prev.
Qed.
Lemma list_prev_pv h a p : a ≠ NULL → pv h a = Some p → p ≠ NULL → list_prev a h = Ok (p, h).
Proof.
  intros Ha E Hp. unfold list_prev. step (assert_has_prev_pv h a p Ha E Hp).
  by apply get_prev_pv.
Qed.
Lemma assert_interior_fields h a p n :
  a ≠ NULL → pv h a = Some p → nx h a = Some n → p ≠ NULL → n ≠ NULL →
  assert_that (is_interior a) h = Ok ((), h).
Proof.
  intros Ha Ep En Hp Hn. eapply assert_interior; [done|by apply cell_fields|done|done].
Qed.

(** The cell before the last one of a chain is not null. *)
Lemma pchain_last_prev f p x xs :
  pchain f p (x :: xs) → p ≠ NULL → NULL ∉ x :: xs →
  ∃ tp, f (lastd x xs) = Some tp ∧ tp ≠ NULL.
Proof.
  revert p x. induction xs as [|y xs IH]; intros p x [E Hc] Hp H0; simpl; [eauto|].
  apply (IH x y); [done|set_solver|set_solver].
Qed.

(** Evaluate an updated field at an address known to differ from the cells
    written. *)
Ltac fupd_simpl :=
  unfold fupd in *;
  repeat match goal with
  | |- context [decide (?x = ?x)] => rewrite (decide_True (P := x = x)) by done
  | |- context [decide (?x = ?y)] => rewrite (decide_False (P := x = y)) by congruence
  end.

Lemma app_ne (xs ys : list Z) x y : NoDup (xs ++ ys) → x ∈ xs → y ∈ ys → x ≠ y.
Proof. intros (_ & Hd & _)%NoDup_app Hx Hy ->. by eapply Hd. Qed.

Lemma lastd_mem x xs : lastd x xs ∈ x :: xs.
Proof. rewrite elem_of_cons. destruct (lastd_in x xs); tauto. Qed.

(** Execution of [list_splice] on distinct cells: the fields it leaves. *)
Lemma splice_fields h p q a s t r tp sn :
  (∀ x, x ∈ [p; q; a; s; t; r] → is_Some (h !! x) ∧ x ≠ NULL) →
  NoDup [p; q; t] → NoDup [a; s; r] → tp ≠ NULL → sn ≠ NULL →
  pv h a = Some p → pv h s = Some q → pv h r = Some t → pv h t = Some tp →
  nx h s = Some sn → nx h t = Some r →
  ∃ h', list_splice a s r h = Ok ((), h') ∧
        (∀ x, nx h' x = fupd (fupd (fupd (nx h) q r) t a) p s x) ∧
        (∀ x, pv h' x = fupd (fupd (fupd (pv h) r q) s p) a t x).
Proof.
  intros Hc Hn1 Hn2 Htp Hsn Pa Ps Pr Pt Ns Lt.
  destruct (Hc p ltac:(mem)) as [Cp Np]. destruct (Hc q ltac:(mem)) as [Cq Nq].
  destruct (Hc a ltac:(mem)) as [Ca Na]. destruct (Hc s ltac:(mem)) as [Cs Ns'].
  destruct (Hc t ltac:(mem)) as [Ct Nt]. destruct (Hc r ltac:(mem)) as [Cr Nr].
  rewrite !NoDup_cons, !not_elem_of_cons in Hn1, Hn2.
  destruct Hn1 as ((?&?&_)&(?&_)&_). destruct Hn2 as ((?&?&_)&(?&_)&_).
  unfold list_splice. step (assert_has_prev_pv h a p Na Pa Np).
  destruct (Z.eqb_spec s r) as [|_]; [done|].
  step (list_prev_pv h r t Nr Pr Nt).
  step (assert_interior_fields h s q _ Ns' Ps Ns Nq Hsn).
  step (assert_interior_fields h t tp r Nt Pt Lt Htp Nr).
  step (get_prev_pv h s q Ps). step (get_next_nx h t r Lt).
  destruct (set_next_fields h q r Cq) as (h1 & R1 & X1 & P1 & A1). step R1.
  step (get_next_nx h1 t r ltac:(rewrite X1; fupd_simpl; done)).
  step (get_prev_pv h1 s q ltac:(rewrite P1; done)).
  destruct (set_prev_fields h1 r q) as (h2 & R2 & P2 & X2 & A2); [apply A1, Cr|]. step R2.
  step (get_prev_pv h2 a p ltac:(rewrite P2; fupd_simpl; rewrite P1; done)).
  destruct (set_prev_fields h2 s p) as (h3 & R3 & P3 & X3 & A3); [apply A2, A1, Cs|]. step R3.
  destruct (set_next_fields h3 t a) as (h4 & R4 & X4 & P4 & A4); [apply A3, A2, A1, Ct|].
  step R4.
  step (get_prev_pv h4 a p ltac:(rewrite P4, P3; fupd_simpl; rewrite P2; fupd_simpl;
    rewrite P1; done)).
  destruct (set_next_fields h4 p s) as (h5 & R5 & X5 & P5 & A5); [apply A4, A3, A2, A1, Cp|].
  step R5.
  destruct (set_prev_fields h5 a t) as (h6 & R6 & P6 & X6 & A6);
    [apply A5, A4, A3, A2, A1, Ca|]. rewrite R6.
  exists h6. splits; [done|intros x..].
  - rewrite X6, X5. unfold fupd. case_decide; [done|]. rewrite X4. unfold fupd.
    case_decide; [done|]. by rewrite X3, X2, X1.
  - rewrite P6. unfold fupd. case_decide; [done|]. rewrite P5, P4, P3. unfold fupd.
    case_decide; [done|]. rewrite P2. unfold fupd. case_decide; [done|]. by rewrite P1.
Qed.

Lemma fupd_eq f a v : fupd f a v a = Some v.
Proof. unfold fupd. by rewrite decide_True. Qed.
Lemma fupd_ne f a v x : x ≠ a → fupd f a v x = f x.
Proof. intros. unfold fupd. by rewrite decide_False. Qed.
Lemma fupd3_ne f a b c va vb vc x :
  x ≠ a → x ≠ b → x ≠ c → fupd (fupd (fupd f a va) b vb) c vc x = f x.
Proof. intros. unfold fupd. by rewrite !decide_False. Qed.

(** The [next] fields of four adjacent chains after the splice. *)
Lemma splice_next f u U a A s S r W :
  let C := (u :: U) ++ (a :: A) ++ (s :: S) ++ (r :: W) in
  let g := fupd (fupd (fupd f (lastd a A) r) (lastd s S) a) (lastd u U) s in
  NoDup C → nchain f C NULL →
  nchain g ((u :: U) ++ (s :: S) ++ (a :: A) ++ (r :: W)) NULL.
Proof.
  intros C g Hn. unfold C in *. rewrite !nchain_app. intros (N1 & N2 & N3 & N4).
  pose proof (lastd_mem u U) as Ip. pose proof (lastd_mem a A) as Iq.
  pose proof (lastd_mem s S) as It.
  apply NoDup_app in Hn as (Du & Dua & Hn). apply NoDup_app in Hn as (Da & Das & Hn).
  apply NoDup_app in Hn as (Ds & Dsr & Dr). unfold g. splits.
  - eapply nchain_retarget; [done|exact N1|apply fupd_eq|].
    intros x Hx Hxp. pose proof (Dua x Hx). apply fupd3_ne; [intros ->; mem..|done].
  - eapply nchain_retarget; [done|exact N3| |].
    + rewrite fupd_ne; [apply fupd_eq|].
      intros E. apply (Dua _ Ip). rewrite <- E. mem.
    + intros x Hx Hxt. apply fupd3_ne; [|done|]; intros ->.
      * apply (Das _ Iq). mem.
      * apply (Dua _ Ip). mem.
  - eapply nchain_retarget; [done|exact N2| |].
    + rewrite fupd_ne; [rewrite fupd_ne; [apply fupd_eq|]|].
      * intros E. apply (Das _ Iq). rewrite E. mem.
      * intros E. apply (Dua _ Ip). rewrite <- E. mem.
    + intros x Hx Hxt. apply fupd3_ne; [done| |]; intros ->.
      * apply (Das _ Hx). mem.
      * apply (Dua _ Ip). mem.
  - eapply nchain_frame; [|exact N4]. intros x Hx. apply fupd3_ne; intros ->.
    + apply (Das _ Iq). mem.
    + apply (Dsr _ It). mem.
    + apply (Dua _ Ip). mem.
Qed.

(** The [prev] fields of four adjacent chains after the splice. *)
Lemma splice_prev f u U a A s S r W :
  let C := (u :: U) ++ (a :: A) ++ (s :: S) ++ (r :: W) in
  let g := fupd (fupd (fupd f r (lastd a A)) s (lastd u U)) a (lastd s S) in
  NoDup C → pchain f NULL C →
  pchain g NULL ((u :: U) ++ (s :: S) ++ (a :: A) ++ (r :: W)).
Proof.
  intros C g Hn. unfold C in *. rewrite !pchain_app. intros (V1 & V2 & V3 & V4).
  apply NoDup_app in Hn as (Du & Dua & Hn). apply NoDup_app in Hn as (Da & Das & Hn).
  apply NoDup_app in Hn as (Ds & Dsr & Dr).
  assert (a ≠ s) by (intros ->; apply (Das s); mem).
  assert (a ≠ r) by (intros ->; apply (Das r); mem).
  assert (s ≠ r) by (intros ->; apply (Dsr r); mem).
  apply NoDup_cons in Da as [Da _]. apply NoDup_cons in Ds as [Ds _].
  apply NoDup_cons in Dr as [Dr _]. unfold g. splits.
  - eapply pchain_frame; [|exact V1]. intros x Hx. pose proof (Dua x Hx).
    apply fupd3_ne; intros ->; mem.
  - eapply pchain_retarget; [exact V3|rewrite fupd_ne by done; apply fupd_eq|].
    intros x Hx. apply fupd3_ne; intros ->.
    + apply (Dsr r); mem.
    + done.
    + apply (Das a); mem.
  - eapply pchain_retarget; [exact V2|apply fupd_eq|].
    intros x Hx. apply fupd3_ne; intros ->.
    + apply (Das r); mem.
    + apply (Das s); mem.
    + done.
  - eapply pchain_retarget; [exact V4|rewrite !fupd_ne by done; apply fupd_eq|].
    intros x Hx. apply fupd3_ne; intros ->.
    + done.
    + apply (Dsr s); mem.
    + apply (Das a); mem.
Qed.

Lemma nchain_ext f g xs n : (∀ x, g x = f x) → nchain f xs n → nchain g xs n.
Proof. intros Hx. apply nchain_frame. intros a _. apply Hx. Qed.
Lemma pchain_ext f g p xs : (∀ x, g x = f x) → pchain f p xs → pchain g p xs.
Proof. intros Hx. apply pchain_frame. intros a _. apply Hx. Qed.

Lemma nodup3 (x y z : Z) : x ≠ y → x ≠ z → y ≠ z → NoDup [x; y; z].
Proof.
  intros. repeat apply NoDup_cons_2; [set_solver|set_solver|set_solver|constructor].
Qed.

(** Splicing within one chain of cells. *)
Lemma splice_chains h u U a A s S r W :
  let C := (u :: U) ++ (a :: A) ++ (s :: S) ++ (r :: W) in
  seg h NULL C NULL → NoDup C → NULL ∉ C →
  ∃ h', list_splice a s r h = Ok ((), h') ∧
        seg h' NULL ((u :: U) ++ (s :: S) ++ (a :: A) ++ (r :: W)) NULL ∧
        ∀ x, x ∉ C → h' !! x = h !! x.
Proof.
  intros C Hs Hn H0.
  assert (∀ x, x ∈ C → is_Some (h !! x) ∧ x ≠ NULL) as Hal.
  { intros x Hx. split; [|by intros ->].
    apply list_elem_of_split in Hx as (X & Y & E). rewrite E in Hs.
    apply seg_lookup in Hs. eauto. }
  pose proof (lastd_mem u U) as Ip. pose proof (lastd_mem a A) as Iq.
  pose proof (lastd_mem s S) as It. pose proof (hdd_in r S) as Ih.
  apply seg_fields in Hs as [Hnx Hpv].
  pose proof (splice_next _ _ _ _ _ _ _ _ _ Hn Hnx) as Hnx'.
  pose proof (splice_prev _ _ _ _ _ _ _ _ _ Hn Hpv) as Hpv'.
  unfold C in Hnx, Hpv, Hn. rewrite !nchain_app in Hnx. rewrite !pchain_app in Hpv.
  destruct Hnx as (_ & _ & N3 & _). destruct Hpv as (_ & [Pa _] & V3 & [Pr _]).
  pose proof (nchain_last _ _ _ _ N3) as Lt. destruct N3 as [Ns _].
  destruct (pchain_last_prev _ _ _ _ V3) as (tp & Pt & Htp).
  { apply (Hal (lastd a A)). unfold C. clear -Iq. mem. } { intros Hin. apply H0. unfold C. clear -Hin. mem. }
  destruct V3 as [Ps _]. simpl in Pa, Ps, Pr.
  destruct (splice_fields h (lastd u U) (lastd a A) a s (lastd s S) r tp (hdd r S))
    as (h' & R & X & P); try done.
  - intros x Hx. apply Hal. unfold C. set_unfold. clear -Hx Ip Iq It. naive_solver.
  - pose proof (app_ne _ _ _ (lastd a A) Hn Ip) as E1.
    pose proof (app_ne _ _ _ (lastd s S) Hn Ip) as E2.
    apply NoDup_app in Hn as (_ & _ & Hn).
    pose proof (app_ne _ _ _ (lastd s S) Hn Iq) as E3.
    apply nodup3; [apply E1|apply E2|apply E3]; clear -Iq It; mem.
  - apply NoDup_app in Hn as (_ & _ & Hn). pose proof (app_ne _ _ a s Hn) as E1.
    pose proof (app_ne _ _ a r Hn) as E2. apply NoDup_app in Hn as (_ & _ & Hn).
    pose proof (app_ne _ _ s r Hn) as E3.
    apply nodup3; [apply E1|apply E2|apply E3]; clear; mem.
  - apply (Hal (hdd r S)). unfold C. clear -Ih. destruct Ih as [->|Ih]; mem.
  - exists h'. splits; [done|apply seg_fields; split|].
    + by eapply nchain_ext.
    + by eapply pchain_ext.
    + intros x Hx. assert (∀ y, y ∈ C → x ≠ y) as Hxy by (intros y Hy ->; done).
      apply lookup_fields; [rewrite X|rewrite P]; apply fupd3_ne; apply Hxy; unfold C;
        clear -Ip Iq It; mem.
Qed.

(** [list_splice] moves a block of elements towards the front of its own
    list. *)
Lemma list_splice_Ok h l P a A s S R :
  list_rep h l (P ++ (a :: A) ++ (s :: S) ++ R) →
  ∃ h', list_splice a s (hdd (tail_of l) R) h = Ok ((), h') ∧
        list_rep h' l (P ++ (s :: S) ++ (a :: A) ++ R) ∧
        ∀ x, x ∉ cells l (P ++ (a :: A) ++ (s :: S) ++ R) → h' !! x = h !! x.
Proof.
  intros (Hs & Hn & H0). destruct (hdd_split (tail_of l) R) as [Y HY].
  set (r := hdd (tail_of l) R) in *.
  assert (∀ T U, cells l (P ++ T ++ U ++ R) = (head_of l :: P) ++ T ++ U ++ (r :: Y)) as EC.
  { intros T U. rewrite <- HY. unfold cells. simpl. by rewrite <- !app_assoc. }
  rewrite EC in *.
  destruct (splice_chains h _ _ _ _ _ _ _ _ Hs Hn H0) as (h' & R1 & Hs' & Hf).
  exists h'. splits; [done| |done].
  assert ((head_of l :: P) ++ (s :: S) ++ (a :: A) ++ r :: Y ≡ₚ
          (head_of l :: P) ++ (a :: A) ++ (s :: S) ++ r :: Y) as HP.
  { apply Permutation_app_head. rewrite !app_assoc. apply Permutation_app_tail.
    apply Permutation_app_comm. }
  unfold list_rep. rewrite EC. splits; [done|by rewrite HP|by rewrite HP].
Qed.
