(* ===== verification/KListOps.v ===== *)
(** Specifications of the list operations of lib/kernel/list.c beyond the
    primitive insertion and removal: pushing, popping, sizing, reversing,
    ordered insertion, removal of adjacent duplicates, maxima and minima.
    Each is related to a function on sequences. *)
From S2P Require Import Prelude KList.
From Stdlib Require Import Permutation Sorted.

(** A heap with the cells [ys] changed only. *)
Definition same_but (ys : list Z) (h h' : heap) : Prop :=
  (∀ a, a ∉ ys → h' !! a = h !! a) ∧ (∀ a, is_Some (h !! a) → is_Some (h' !! a)).

Lemma same_but_refl ys h : same_but ys h h.
Proof. split; auto. Qed.
Lemma same_but_trans ys h1 h2 h3 : same_but ys h1 h2 → same_but ys h2 h3 → same_but ys h1 h3.
Proof. intros [A1 B1] [A2 B2]. split; intros; [rewrite A2, A1|]; auto. Qed.
Lemma same_but_mono ys zs h h' : (∀ a, a ∈ ys → a ∈ zs) → same_but ys h h' → same_but zs h h'.
Proof. intros Hs [A B]. split; [|done]. intros a Ha. apply A. auto. Qed.
Lemma same_but_rep ys h h' l xs :
  same_but ys h h' → (∀ a, a ∈ ys → a ∉ cells l xs) → list_rep h l xs → list_rep h' l xs.
Proof. intros [A _] Hd. apply list_rep_frame. intros a Ha. apply A. intros Hy. by eapply Hd. Qed.

Lemma cells_mem l xs a : a ∈ cells l xs ↔ a = head_of l ∨ a ∈ xs ∨ a = tail_of l.
Proof. unfold cells. rewrite elem_of_cons, elem_of_app, list_elem_of_singleton. tauto. Qed.

(** * Stack and queue operations *)

Lemma list_insert_same_but h l A B e old :
  list_rep h l (A ++ B) → e ∉ cells l (A ++ B) → e ≠ NULL → h !! e = Some old →
  ∃ h', list_insert (hdd (tail_of l) B) e h = Ok ((), h') ∧ list_rep h' l (A ++ e :: B) ∧
        same_but (e :: cells l (A ++ B)) h h'.
Proof.
  intros. destruct (list_insert_Ok h l A B e old) as (h' & R & Hr & Hf & Ha); try done.
  exists h'. splits; [done|done|]. split; [|done]. intros a [? ?]%not_elem_of_cons. by apply Hf.
Qed.

Lemma list_push_front_Ok h l xs e old :
  list_rep h l xs → e ∉ cells l xs → e ≠ NULL → h !! e = Some old →
  ∃ h', list_push_front l e h = Ok ((), h') ∧ list_rep h' l (e :: xs) ∧
        same_but (e :: cells l xs) h h'.
Proof.
  intros Hr. unfold list_push_front. step (list_begin_Ok _ _ _ Hr).
  apply (list_insert_same_but h l [] xs e old Hr).
Qed.

Lemma list_push_back_Ok h l xs e old :
  list_rep h l xs → e ∉ cells l xs → e ≠ NULL → h !! e = Some old →
  ∃ h', list_push_back l e h = Ok ((), h') ∧ list_rep h' l (xs ++ [e]) ∧
        same_but (e :: cells l xs) h h'.
Proof.
  intros Hr. unfold list_push_back. step (list_end_Ok _ _ _ Hr).
  rewrite <- (app_nil_r xs) in Hr. pose proof (list_insert_same_but h l xs [] e old Hr) as Hi.
  by rewrite app_nil_r in Hi.
Qed.

Lemma elem_not_in_rest h l A a B : list_rep h l (A ++ a :: B) → a ∉ cells l (A ++ B).
Proof.
  intros (_ & Hn & _). unfold cells in *. rewrite <- app_assoc in Hn. simpl in Hn.
  change (head_of l :: A ++ a :: B ++ [tail_of l])
    with ((head_of l :: A) ++ a :: (B ++ [tail_of l])) in Hn.
  rewrite <- Permutation_middle in Hn. apply NoDup_cons in Hn as [Hn _].
  by rewrite <- app_assoc.
Qed.

Lemma list_remove_same_but h l A a B :
  list_rep h l (A ++ a :: B) →
  ∃ h', list_remove a h = Ok (hdd (tail_of l) B, h') ∧ list_rep h' l (A ++ B) ∧
        same_but (cells l (A ++ B)) h h' ∧ h' !! a = h !! a.
Proof.
  intros Hr. destruct (list_remove_Ok _ _ _ _ _ Hr) as (h' & R & Hr' & Hf & Ha).
  exists h'. splits; [done|done|done|]. apply Hf. by eapply elem_not_in_rest.
Qed.

Lemma list_front_Ok h l x xs : list_rep h l (x :: xs) → list_front l h = Ok (x, h).
Proof.
  intros Hr. unfold list_front. step (list_empty_Ok _ _ _ Hr).
  rewrite bool_decide_false by done. simpl. step (check_true true h eq_refl).
  destruct (list_rep_around h l [] (x :: xs) Hr) as (pp & bn & E & _). simpl in E.
  by rewrite (get_next_Ok _ _ _ E).
Qed.
Lemma list_back_Ok h l xs x : list_rep h l (xs ++ [x]) → list_back l h = Ok (x, h).
Proof.
  intros Hr. unfold list_back. step (list_empty_Ok _ _ _ Hr).
  rewrite bool_decide_false by (by destruct xs). simpl. step (check_true true h eq_refl).
  pose proof Hr as Hr'. rewrite <- (app_nil_r (xs ++ [x])) in Hr'.
  destruct (list_rep_around h l (xs ++ [x]) [] Hr') as (pp & bn & _ & E). simpl in E.
  rewrite (get_prev_Ok _ _ _ E). simpl. by rewrite lastd_snoc.
Qed.

Lemma list_pop_front_Ok h l x xs :
  list_rep h l (x :: xs) →
  ∃ h', list_pop_front l h = Ok (x, h') ∧ list_rep h' l xs ∧ same_but (cells l xs) h h'.
Proof.
  intros Hr. unfold list_pop_front. step (list_front_Ok _ _ _ _ Hr).
  destruct (list_remove_same_but h l [] x xs Hr) as (h' & R & Hr' & Hs & _). step R. eauto.
Qed.
Lemma list_pop_back_Ok h l xs x :
  list_rep h l (xs ++ [x]) →
  ∃ h', list_pop_back l h = Ok (x, h') ∧ list_rep h' l xs ∧ same_but (cells l xs) h h'.
Proof.
  intros Hr. unfold list_pop_back. step (list_back_Ok _ _ _ _ Hr).
  destruct (list_remove_same_but h l xs x [] Hr) as (h' & R & Hr' & Hs & _). step R.
  rewrite app_nil_r in *. eauto.
Qed.

(** Popping an empty list fails its ASSERT. *)
Lemma list_pop_front_empty h l : list_rep h l [] → list_pop_front l h = Err AssertFail.
Proof.
  intros Hr. unfold list_pop_front, list_front.
  unfold mbind at 1, M_bind at 1. by step (list_empty_Ok _ _ _ Hr).
Qed.

(** * Size *)

Lemma size_loop_Ok fuel h l A B cnt :
  list_rep h l (A ++ B) → (length B < fuel)%nat →
  size_loop fuel l (hdd (tail_of l) B) cnt h =
    Ok (match B with [] => cnt | _ => u32 (cnt + Z.of_nat (length B)) end, h).
Proof.
  revert A B cnt. induction fuel as [|fuel IH]; intros A B cnt Hr Hf; [lia|]. simpl.
  step (list_end_Ok _ _ _ Hr). rewrite (hdd_eqb_tail _ _ _ _ Hr).
  destruct B as [|b B]; [done|]. rewrite bool_decide_false by done. simpl.
  step (next_of_elem _ _ _ _ _ Hr).
  change (A ++ b :: B) with (A ++ [b] ++ B) in Hr. rewrite app_assoc in Hr. simpl in Hf.
  rewrite (IH _ _ _ Hr) by lia. destruct B; simpl; [done|].
  do 2 f_equal. rewrite u32_add_l. f_equal. lia.
Qed.

Lemma list_size_Ok fuel h l xs :
  list_rep h l xs → (length xs < fuel)%nat →
  list_size fuel l h = Ok (u32 (Z.of_nat (length xs)), h).
Proof.
  intros Hr Hf. unfold list_size. step (list_begin_Ok _ _ _ Hr).
  rewrite (size_loop_Ok fuel h l [] xs 0 Hr Hf). by destruct xs.
Qed.

(** * Reversal *)

Lemma pchain_rev f p xs : pchain f p xs ↔ nchain f (rev xs) p.
Proof.
  revert p. induction xs as [|a xs IH]; intros p; simpl; [done|].
  rewrite nchain_app, IH. simpl. tauto.
Qed.
Lemma nchain_rev f xs n : nchain f xs n ↔ pchain f n (rev xs).
Proof. rewrite <- (rev_involutive xs) at 1. by rewrite <- pchain_rev. Qed.

Lemma swap_links_fields h a p n :
  nx h a = Some n → pv h a = Some p →
  ∃ h', swap_links a h = Ok ((), h') ∧ (∀ x, nx h' x = fupd (nx h) a p x) ∧
        (∀ x, pv h' x = fupd (pv h) a n x) ∧ (∀ x, is_Some (h' !! x) ↔ is_Some (h !! x)).
Proof.
  intros En Ep. unfold swap_links.
  assert (h !! a = Some (mkElem p n)) as E by (by apply cell_fields).
  step (load_Ok _ _ _ E). simpl.
  destruct (set_prev_fields h a n) as (h1 & R1 & P1 & X1 & A1); [eauto|]. step R1.
  destruct (set_next_fields h1 a p) as (h2 & R2 & X2 & P2 & A2); [apply A1; eauto|].
  exists h2. splits; [done|intros x..].
  - rewrite X2. unfold fupd. case_decide; [done|]. apply X1.
  - by rewrite P2, P1.
  - by rewrite A2, A1.
Qed.

(** The loop exchanges the links of the elements it visits. *)
Lemma reverse_loop_Ok fuel h l A B :
  list_rep h l (A ++ B) → (length B < fuel)%nat →
  ∀ h0, (∀ x, x ∉ A → nx h0 x = nx h x) → (∀ x, x ∉ A → pv h0 x = pv h x) →
        (∀ x, x ∈ A → nx h0 x = pv h x) → (∀ x, x ∈ A → pv h0 x = nx h x) →
        (∀ x, is_Some (h0 !! x) ↔ is_Some (h !! x)) →
  ∃ h', reverse_loop fuel l (hdd (tail_of l) B) h0 = Ok ((), h') ∧
        (∀ x, x ∉ A ++ B → nx h' x = nx h x) ∧ (∀ x, x ∉ A ++ B → pv h' x = pv h x) ∧
        (∀ x, x ∈ A ++ B → nx h' x = pv h x) ∧ (∀ x, x ∈ A ++ B → pv h' x = nx h x) ∧
        (∀ x, is_Some (h' !! x) ↔ is_Some (h !! x)).
Proof.
  revert A B. induction fuel as [|fuel IH]; intros A B Hr Hf h0 X0 P0 XA PA HA; [lia|].
  simpl. pose proof (list_rep_l _ _ _ Hr) as Hl.
  unfold list_end. erewrite M_bind_step; [|by step (check_nonnull h0 l Hl)].
  rewrite (hdd_eqb_tail _ _ _ _ Hr).
  destruct B as [|b B]; simpl.
  { rewrite app_nil_r. eauto 10. }
  pose proof (list_rep_elem _ _ _ _ _ Hr) as E.
  apply cell_fields in E as [En Ep].
  assert (b ∉ A) as HbA.
  { destruct Hr as (_ & Hn & _). unfold cells in Hn. rewrite <- app_assoc in Hn.
    apply NoDup_cons in Hn as [_ Hn]. apply NoDup_app in Hn as (_ & Hd & _).
    intros Hb. apply (Hd b Hb). left. }
  destruct (swap_links_fields h0 b (lastd (head_of l) A) (hdd (tail_of l) B))
    as (h1 & R1 & X1 & P1 & A1); [by rewrite X0|by rewrite P0|].
  step R1. step (get_prev_pv h1 b (hdd (tail_of l) B) ltac:(rewrite P1; apply fupd_eq)).
  change (A ++ b :: B) with (A ++ [b] ++ B) in *. rewrite app_assoc in *.
  apply (IH (A ++ [b]) B Hr); [simpl in Hf; lia|..].
  - intros x Hx. rewrite X1, fupd_ne by set_solver. apply X0. set_solver.
  - intros x Hx. rewrite P1, fupd_ne by set_solver. apply P0. set_solver.
  - intros x Hx. rewrite X1. destruct (decide (x = b)) as [->|].
    + by rewrite fupd_eq, Ep.
    + rewrite fupd_ne by done. apply XA. set_solver.
  - intros x Hx. rewrite P1. destruct (decide (x = b)) as [->|].
    + by rewrite fupd_eq, En.
    + rewrite fupd_ne by done. apply PA. set_solver.
  - intros x. by rewrite A1, HA.
Qed.

Lemma swap_next_prev_fields h a b x y :
  nx h a = Some x → pv h b = Some y →
  ∃ h', swap_next_prev a b h = Ok ((), h') ∧ (∀ c, nx h' c = fupd (nx h) a y c) ∧
        (∀ c, pv h' c = fupd (pv h) b x c) ∧ (∀ c, is_Some (h' !! c) ↔ is_Some (h !! c)).
Proof.
  intros Ex Ey. unfold swap_next_prev. step (get_next_nx _ _ _ Ex). step (get_prev_pv _ _ _ Ey).
  unfold nx in Ex. unfold pv in Ey.
  destruct (set_next_fields h a y) as (h1 & R1 & X1 & P1 & A1);
    [destruct (h !! a); [eauto|done]|]. step R1.
  destruct (set_prev_fields h1 b x) as (h2 & R2 & P2 & X2 & A2);
    [apply A1; destruct (h !! b); [eauto|done]|].
  exists h2. splits; [done|intros c..].
  - by rewrite X2, X1.
  - rewrite P2. unfold fupd. case_decide; [done|]. apply P1.
  - by rewrite A2, A1.
Qed.
Lemma swap_prev_next_fields h a b x y :
  pv h a = Some x → nx h b = Some y →
  ∃ h', swap_prev_next a b h = Ok ((), h') ∧ (∀ c, pv h' c = fupd (pv h) a y c) ∧
        (∀ c, nx h' c = fupd (nx h) b x c) ∧ (∀ c, is_Some (h' !! c) ↔ is_Some (h !! c)).
Proof.
  intros Ex Ey. unfold swap_prev_next. step (get_prev_pv _ _ _ Ex). step (get_next_nx _ _ _ Ey).
  unfold pv in Ex. unfold nx in Ey.
  destruct (set_prev_fields h a y) as (h1 & R1 & P1 & X1 & A1);
    [destruct (h !! a); [eauto|done]|]. step R1.
  destruct (set_next_fields h1 b x) as (h2 & R2 & X2 & P2 & A2);
    [apply A1; destruct (h !! b); [eauto|done]|].
  exists h2. splits; [done|intros c..].
  - by rewrite P2, P1.
  - rewrite X2. unfold fupd. case_decide; [done|]. apply X1.
  - by rewrite A2, A1.
Qed.

Lemma rev_shape a xs d : ∃ W, rev (a :: xs) = lastd d (a :: xs) :: W ∧ lastd (lastd d (a :: xs)) W = a.
Proof.
  destruct (lastd_split a xs) as [A HA]. simpl lastd. rewrite HA, rev_app_distr. simpl.
  exists (rev A). split; [done|].
  destruct A as [|x A]; simpl in *; [congruence|]. injection HA as -> _.
  by rewrite lastd_snoc.
Qed.

Lemma cells_rev l xs : cells l (rev xs) ≡ₚ cells l xs.
Proof.
  unfold cells. apply perm_skip. apply Permutation_app_tail. symmetry. apply Permutation_rev.
Qed.

(** The fields left by [list_reverse] link the cells in the opposite order. *)
Lemma reverse_relink h l a xs f g :
  list_rep h l (a :: xs) →
  let z := lastd (head_of l) (a :: xs) in
  (∀ x, x ∉ a :: xs → f x = nx h x) → (∀ x, x ∉ a :: xs → g x = pv h x) →
  (∀ x, x ∈ a :: xs → f x = pv h x) → (∀ x, x ∈ a :: xs → g x = nx h x) →
  nchain (fupd (fupd f (head_of l) z) a (tail_of l)) (cells l (rev (a :: xs))) NULL ∧
  pchain (fupd (fupd g (tail_of l) a) z (head_of l)) NULL (cells l (rev (a :: xs))).
Proof.
  intros (Hs & Hn & H0) z Xo Po Xi Pi.
  assert (NoDup (rev (a :: xs))) as Hnr.
  { apply NoDup_ListNoDup, NoDup_rev, NoDup_ListNoDup. unfold cells in Hn.
    apply NoDup_cons in Hn as [_ Hn]. by apply NoDup_app in Hn as (? & _). }
  assert ((head_of l ∉ a :: xs) ∧ (tail_of l ∉ a :: xs) ∧ head_of l ≠ tail_of l) as (Hh & Ht & Hht).
  { unfold cells in Hn. apply NoDup_cons in Hn as [Hx Hn].
    apply NoDup_app in Hn as (_ & Hd & _). splits; [set_solver| |set_solver].
    intros Hin. apply (Hd _ Hin). left. }
  assert (z ∈ a :: xs) as Hz by apply (lastd_mem a xs).
  apply seg_fields in Hs as [Hnx Hpv]. unfold cells in Hnx, Hpv.
  destruct Hnx as [_ Hnx]. apply nchain_app in Hnx as [Hnx [Htl _]]. simpl in Htl.
  destruct Hpv as [Hhd Hpv]. apply pchain_app in Hpv as [Hpv _].
  apply nchain_rev in Hnx. apply pchain_rev in Hpv.
  destruct (rev_shape a xs (head_of l)) as (W & HW & HWl). fold z in HW, HWl.
  rewrite HW in *. unfold cells.
  assert (∀ x, x ∈ z :: W ↔ x ∈ a :: xs) as HWm.
  { intros x. rewrite <- HW, !list_elem_of_In. symmetry. apply in_rev. }
  split.
  - simpl. split; [|].
    { rewrite fupd_ne by (intros E; apply Hh; rewrite E; left). by rewrite fupd_eq. }
    apply (nchain_app _ (z :: W) [tail_of l]). split; [|split; [|done]].
    + eapply nchain_retarget; [done|exact Hpv|rewrite HWl; apply fupd_eq|].
      rewrite HWl. intros x Hx Hxa. apply HWm in Hx. rewrite !fupd_ne by set_solver.
      by apply Xi.
    + rewrite !fupd_ne by set_solver. rewrite Xo by done. done.
  - simpl. split; [|].
    { rewrite !fupd_ne by set_solver. by rewrite Po. }
    apply (pchain_app _ _ (z :: W) [tail_of l]). split; [|split; [|done]].
    + eapply pchain_retarget; [exact Hnx|apply fupd_eq|].
      intros x Hx. apply NoDup_cons in Hnr as [Hzw _].
      assert (x ∈ a :: xs) by (apply HWm; by right).
      rewrite !fupd_ne by set_solver. by apply Pi.
    + change (lastd (head_of l) (z :: W)) with (lastd z W). rewrite HWl.
      rewrite fupd_ne by set_solver. apply fupd_eq.
Qed.

Lemma list_reverse_Ok fuel h l xs :
  list_rep h l xs → (length xs < fuel)%nat →
  ∃ h', list_reverse fuel l h = Ok ((), h') ∧ list_rep h' l (rev xs) ∧
        same_but (cells l xs) h h'.
Proof.
  intros Hr Hf. unfold list_reverse. step (list_empty_Ok _ _ _ Hr).
  destruct xs as [|a xs].
  { exists h. splits; [done|done|apply same_but_refl]. }
  rewrite bool_decide_false by done. step (list_begin_Ok _ _ _ Hr).
  destruct (reverse_loop_Ok fuel h l [] (a :: xs) Hr Hf h) as (h1 & R1 & X1 & P1 & X1' & P1' & A1);
    [by intros; done..|by intros x Hx%elem_of_nil|by intros x Hx%elem_of_nil|done|].
  step R1. simpl app in *.
  destruct (list_rep_around h l [] (a :: xs) Hr) as (pp & bn & E1 & E2). simpl in E1, E2.
  pose proof Hr as Hr'. rewrite <- (app_nil_r (a :: xs)) in Hr'.
  destruct (list_rep_around h l _ [] Hr') as (zp & zn & E3 & E4). clear Hr'.
  set (z := lastd (head_of l) (a :: xs)) in *. simpl in E3, E4.
  apply cell_fields in E1 as [E1 _], E2 as [E2n E2], E3 as [E3 E3p], E4 as [_ E4].
  assert ((head_of l ∉ a :: xs) ∧ (tail_of l ∉ a :: xs) ∧ (z ∈ a :: xs) ∧ head_of l ≠ tail_of l)
    as (Hh & Ht & Hz & Hht).
  { destruct Hr as (_ & Hn & _). unfold cells in Hn. apply NoDup_cons in Hn as [Hx Hn].
    apply NoDup_app in Hn as (_ & Hd & _). splits; [set_solver| |apply (lastd_mem a xs)|set_solver].
    intros Hin. apply (Hd _ Hin). left. }
  destruct (swap_next_prev_fields h1 (head_of l) (tail_of l) a z) as (h2 & R2 & X2 & P2 & A2);
    [by rewrite X1|by rewrite P1|]. step R2.
  step (get_next_nx h2 (head_of l) z ltac:(rewrite X2; apply fupd_eq)).
  step (get_prev_pv h2 (tail_of l) a ltac:(rewrite P2; apply fupd_eq)).
  destruct (swap_prev_next_fields h2 z a (tail_of l) (head_of l)) as (h3 & R3 & P3 & X3 & A3).
  { rewrite P2, fupd_ne by (by intros E; apply Ht; rewrite <- E). by rewrite P1'. }
  { rewrite X2, fupd_ne by (intros E; apply Hh; rewrite <- E; left). by rewrite X1' by left. }
  exists h3. splits; [done| |].
  - destruct (reverse_relink h l a xs (nx h1) (pv h1) Hr X1 P1 X1' P1') as [HN HP]. fold z in HN, HP.
    destruct Hr as (_ & Hn & H0). split; [|split].
    + apply seg_fields. split.
      * eapply nchain_ext; [|exact HN]. intros x. rewrite X3. unfold fupd.
        case_decide; [done|]. rewrite X2. unfold fupd. by case_decide.
      * eapply pchain_ext; [|exact HP]. intros x. rewrite P3. unfold fupd.
        case_decide; [done|]. rewrite P2. unfold fupd. by case_decide.
    + by rewrite cells_rev.
    + by rewrite cells_rev.
  - split.
    + intros x Hx. assert (x ≠ head_of l ∧ x ≠ tail_of l ∧ (x ∉ a :: xs) ∧ x ≠ z ∧ x ≠ a)
        as (?&?&?&?&?) by (clear -Hx Hz; rewrite cells_mem in Hx; set_solver).
      apply lookup_fields.
      * by rewrite X3, fupd_ne, X2, fupd_ne, X1.
      * by rewrite P3, fupd_ne, P2, fupd_ne, P1.
    + intros x ?. by rewrite A3, A2, A1.
Qed.

Lemma Sorted_mono {A} (R Q : A → A → Prop) (xs : list A) :
  (∀ a b, R a b → Q a b) → Sorted R xs → Sorted Q xs.
Proof.
  intros Hi. induction 1 as [|a xs Hs IH Hh]; constructor; [done|].
  destruct Hh; constructor. auto.
Qed.

(** * Ordered lists

    What the ordered operations ask of the comparison function a client
    supplies: [less] is a strict weak order. *)
Class StrictWeak {A} (less : A → A → bool) : Prop := {
  less_asym a b : less a b = true → less b a = false;
  less_split a b c : less a b = true → less a c = true ∨ less c b = true
}.

(** Comparison by an integer key, as all the kernel's comparison functions
    do, is such an order. *)
#[export] Instance strict_weak_key {A} (key : A → Z) : StrictWeak (λ a b, key a <? key b).
Proof.
  split; intros a b *; rewrite ?Z.ltb_lt, ?Z.ltb_ge; lia.
Qed.

Section Ordered.
Context (less : Z → Z → bool) `{!StrictWeak less}.

(** [a] may precede [b] in nondecreasing order. *)
Definition le_by (a b : Z) : Prop := less b a = false.

Lemma le_by_trans a b c : le_by a b → le_by b c → le_by a c.
Proof.
  unfold le_by. intros H1 H2. destruct (less c a) eqn:E; [|done].
  destruct (less_split _ _ b E); congruence.
Qed.
Lemma less_irrefl a : less a a = false.
Proof. destruct (less a a) eqn:E; [|done]. pose proof (less_asym _ _ E). congruence. Qed.
#[export] Instance le_by_transitive : Transitive le_by.
Proof. intros a b c. apply le_by_trans. Qed.
#[export] Instance le_by_reflexive : Reflexive le_by.
Proof. intros a. apply less_irrefl. Qed.

(** Ordered insertion on sequences: before the first larger element. *)
Fixpoint insert_seq (e : Z) (xs : list Z) : list Z :=
  match xs with
  | [] => [e]
  | x :: xs' => if less e x then e :: x :: xs' else x :: insert_seq e xs'
  end.

Lemma insert_seq_perm e xs : insert_seq e xs ≡ₚ e :: xs.
Proof.
  induction xs as [|x xs IH]; simpl; [done|]. destruct (less e x); [done|].
  rewrite IH. apply Permutation_swap.
Qed.

Lemma insert_seq_sorted e xs : Sorted le_by xs → Sorted le_by (insert_seq e xs).
Proof.
  induction xs as [|x xs IH]; intros Hs; simpl; [auto|].
  destruct (less e x) eqn:E.
  - constructor; [done|]. constructor. unfold le_by. by apply less_asym.
  - inversion Hs as [|? ? Hs' Hd]; subst. constructor; [by apply IH|].
    destruct xs as [|y xs]; simpl; [by constructor|].
    destruct (less e y); constructor; [done|by inversion Hd].
Qed.

Lemma insert_ordered_loop_Ok fuel h l A B e :
  list_rep h l (A ++ B) → (length B < fuel)%nat →
  ∃ B1 B2, B = B1 ++ B2 ∧ insert_seq e B = B1 ++ e :: B2 ∧
    insert_ordered_loop less fuel l (hdd (tail_of l) B) e h = Ok (hdd (tail_of l) B2, h).
Proof.
  revert A B. induction fuel as [|fuel IH]; intros A B Hr Hf; [lia|]. simpl.
  step (list_end_Ok _ _ _ Hr). rewrite (hdd_eqb_tail _ _ _ _ Hr).
  destruct B as [|b B]; [by exists [], []|]. rewrite bool_decide_false by done. simpl.
  destruct (less e b); [by exists [], (b :: B)|].
  step (next_of_elem _ _ _ _ _ Hr).
  change (A ++ b :: B) with (A ++ [b] ++ B) in Hr. rewrite app_assoc in Hr. simpl in Hf.
  destruct (IH _ _ Hr ltac:(lia)) as (B1 & B2 & -> & Hi & R).
  exists (b :: B1), B2. splits; [done|simpl; by rewrite Hi|done].
Qed.

Lemma list_insert_ordered_Ok fuel h l xs e old :
  list_rep h l xs → (length xs < fuel)%nat → e ∉ cells l xs → e ≠ NULL → h !! e = Some old →
  ∃ h', list_insert_ordered less fuel l e h = Ok ((), h') ∧
        list_rep h' l (insert_seq e xs) ∧ same_but (e :: cells l xs) h h'.
Proof.
  intros Hr Hf He He0 Eo. unfold list_insert_ordered.
  step (check_nonnull h l (list_rep_l _ _ _ Hr)). step (check_nonnull h e He0).
  step (list_begin_Ok _ _ _ Hr).
  destruct (insert_ordered_loop_Ok fuel h l [] xs e Hr Hf) as (B1 & B2 & -> & -> & R).
  step R. by eapply list_insert_same_but.
Qed.

(** ** Maximum and minimum *)

Definition max_seq (m : Z) (xs : list Z) : Z :=
  foldl (λ m x, if less m x then x else m) m xs.
Definition min_seq (m : Z) (xs : list Z) : Z :=
  foldl (λ m x, if less x m then x else m) m xs.

Lemma max_loop_Ok fuel h l A B m :
  list_rep h l (A ++ B) → (length B < fuel)%nat →
  max_loop less fuel l (hdd (tail_of l) B) m h = Ok (max_seq m B, h).
Proof.
  revert A B m. induction fuel as [|fuel IH]; intros A B m Hr Hf; [lia|]. simpl.
  step (list_end_Ok _ _ _ Hr). rewrite (hdd_eqb_tail _ _ _ _ Hr).
  destruct B as [|b B]; [done|]. rewrite bool_decide_false by done. simpl.
  step (next_of_elem _ _ _ _ _ Hr).
  change (A ++ b :: B) with (A ++ [b] ++ B) in Hr. rewrite app_assoc in Hr. simpl in Hf.
  by rewrite (IH _ _ _ Hr) by lia.
Qed.
Lemma min_loop_Ok fuel h l A B m :
  list_rep h l (A ++ B) → (length B < fuel)%nat →
  min_loop less fuel l (hdd (tail_of l) B) m h = Ok (min_seq m B, h).
Proof.
  revert A B m. induction fuel as [|fuel IH]; intros A B m Hr Hf; [lia|]. simpl.
  step (list_end_Ok _ _ _ Hr). rewrite (hdd_eqb_tail _ _ _ _ Hr).
  destruct B as [|b B]; [done|]. rewrite bool_decide_false by done. simpl.
  step (next_of_elem _ _ _ _ _ Hr).
  change (A ++ b :: B) with (A ++ [b] ++ B) in Hr. rewrite app_assoc in Hr. simpl in Hf.
  by rewrite (IH _ _ _ Hr) by lia.
Qed.

Lemma list_max_Ok fuel h l xs :
  list_rep h l xs → (length xs < fuel)%nat →
  list_max less fuel l h =
    Ok (match xs with [] => tail_of l | x :: xs' => max_seq x xs' end, h).
Proof.
  intros Hr Hf. unfold list_max. step (list_begin_Ok _ _ _ Hr). step (list_end_Ok _ _ _ Hr).
  rewrite (hdd_eqb_tail h l [] xs Hr). destruct xs as [|x xs]; [done|].
  rewrite bool_decide_false by done. simpl.
  step (next_of_elem h l [] x xs Hr). simpl in Hf. apply (max_loop_Ok fuel h l [x] xs x Hr). lia.
Qed.
Lemma list_min_Ok fuel h l xs :
  list_rep h l xs → (length xs < fuel)%nat →
  list_min less fuel l h =
    Ok (match xs with [] => tail_of l | x :: xs' => min_seq x xs' end, h).
Proof.
  intros Hr Hf. unfold list_min. step (list_begin_Ok _ _ _ Hr). step (list_end_Ok _ _ _ Hr).
  rewrite (hdd_eqb_tail h l [] xs Hr). destruct xs as [|x xs]; [done|].
  rewrite bool_decide_false by done. simpl.
  step (next_of_elem h l [] x xs Hr). simpl in Hf. apply (min_loop_Ok fuel h l [x] xs x Hr). lia.
Qed.

(** The maximum is the first of the largest elements. *)
Lemma max_seq_spec xs : ∀ x A,
  (∀ y, y ∈ A → less y x = true) →
  ∃ A' B', A ++ x :: xs = A' ++ max_seq x xs :: B' ∧
     (∀ y, y ∈ A' → less y (max_seq x xs) = true) ∧
     (∀ y, y ∈ B' → less (max_seq x xs) y = false).
Proof.
  intros x A HA. unfold max_seq.
  assert (∀ xs m A B, (∀ y, y ∈ A → less y m = true) → (∀ y, y ∈ B → less m y = false) →
    let r := foldl (λ m x, if less m x then x else m) m xs in
    ∃ A' B', A ++ m :: B ++ xs = A' ++ r :: B' ∧ (∀ y, y ∈ A' → less y r = true) ∧
      (∀ y, y ∈ B' → less r y = false)) as Hg.
  { clear x A HA xs. intros xs. induction xs as [|z xs IH]; intros m A B HA HB; simpl.
    - exists A, B. by rewrite app_nil_r.
    - destruct (less m z) eqn:E.
      + destruct (IH z (A ++ m :: B) []) as (A' & B' & Eq & H1 & H2).
        * intros y Hy. rewrite elem_of_app, elem_of_cons in Hy.
          destruct Hy as [Hy|[->|Hy]]; [|done|].
          -- destruct (less_split _ _ z (HA y Hy)) as [|Hc]; [done|].
             pose proof (less_asym _ _ E). congruence.
          -- destruct (less_split _ _ y E) as [Hc|]; [|done]. rewrite HB in Hc; done.
        * intros y Hy. by apply elem_of_nil in Hy.
        * exists A', B'. splits; [|done|done]. rewrite <- Eq. simpl. by rewrite <- app_assoc.
      + destruct (IH m A (B ++ [z]) HA) as (A' & B' & Eq & H1 & H2).
        * intros y. rewrite elem_of_app, list_elem_of_singleton. intros [Hy| ->]; [by apply HB|done].
        * exists A', B'. splits; [|done|done]. rewrite <- Eq. by rewrite <- app_assoc. }
  apply (Hg xs x A [] HA). intros y Hy. by apply elem_of_nil in Hy.
Qed.

(** ** Removing adjacent duplicates *)

(** The elements kept and the duplicates removed after [e]. *)
Fixpoint uniq_seq (e : Z) (xs : list Z) : list Z * list Z :=
  match xs with
  | [] => ([], [])
  | x :: xs' =>
      if negb (less e x) && negb (less x e)
      then let '(k, d) := uniq_seq e xs' in (k, x :: d)
      else let '(k, d) := uniq_seq x xs' in (x :: k, d)
  end.

Lemma uniq_seq_perm xs : ∀ e, let '(k, d) := uniq_seq e xs in k ++ d ≡ₚ xs.
Proof.
  induction xs as [|x xs IH]; intros e; simpl; [done|].
  destruct (_ && _).
  - specialize (IH e). destruct (uniq_seq e xs). rewrite <- IH. symmetry. apply Permutation_middle.
  - specialize (IH x). destruct (uniq_seq x xs). simpl. by apply perm_skip.
Qed.

(** No two adjacent elements of the kept sequence are equivalent. *)
Lemma uniq_seq_distinct xs : ∀ e,
  Sorted (λ a b, negb (less a b) && negb (less b a) = false) (e :: (uniq_seq e xs).1).
Proof.
  induction xs as [|x xs IH]; intros e; simpl; [by repeat constructor|].
  destruct (negb (less e x) && negb (less x e)) eqn:E.
  - specialize (IH e). by destruct (uniq_seq e xs).
  - specialize (IH x). destruct (uniq_seq x xs) as [k d]. simpl in *.
    constructor; [done|by constructor].
Qed.

Definition cells_disjoint (l xs m ys : _) : Prop := ∀ a : Z, a ∈ cells l xs → a ∉ cells m ys.

#[local] Opaque cells.
Lemma unique_loop_Ok fuel h l d A e B D :
  list_rep h l (A ++ e :: B) → (length B < fuel)%nat →
  list_rep h d D → cells_disjoint l (A ++ e :: B) d D →
  ∃ h', unique_loop less fuel l d e h = Ok ((), h') ∧
        list_rep h' l (A ++ e :: (uniq_seq e B).1) ∧
        list_rep h' d (D ++ (uniq_seq e B).2) ∧
        same_but (cells l (A ++ e :: B) ++ cells d D) h h'.
Proof.
  revert h A e B D. induction fuel as [|fuel IH]; intros h A e B D Hr Hf Hd Hdis; [lia|]. simpl.
  step (next_of_elem _ _ _ _ _ Hr). step (list_end_Ok _ _ _ Hr).
  change (A ++ e :: B) with (A ++ [e] ++ B) in *. rewrite app_assoc in *.
  rewrite (hdd_eqb_tail _ _ _ _ Hr). destruct B as [|b B].
  { exists h. simpl. rewrite !app_nil_r in *.
    splits; [done|done|done|apply same_but_refl]. }
  rewrite bool_decide_false by done. simpl in Hf. simpl.
  destruct (negb (less e b) && negb (less b e)) eqn:E.
  - destruct (list_remove_same_but _ _ _ _ _ Hr) as (h1 & R1 & Hr1 & Hs1 & Eb). step R1.
    destruct (Z.eqb_spec d NULL) as [->|Hd0]; [by apply list_rep_l in Hd|]. simpl.
    assert (∀ a, a ∈ cells l ((A ++ [e]) ++ B) → a ∈ cells l ((A ++ [e]) ++ b :: B)) as Hsub.
    { intros a. rewrite !cells_mem, !elem_of_app, !elem_of_cons. tauto. }
    assert (b ∈ cells l ((A ++ [e]) ++ b :: B)) as Hbc
      by (rewrite cells_mem, !elem_of_app, !elem_of_cons; tauto).
    pose proof (elem_not_in_rest _ _ _ _ _ Hr) as Hbn.
    assert (list_rep h1 d D) as Hd1.
    { eapply same_but_rep; [exact Hs1| |done]. intros a Ha. apply Hdis. auto. }
    destruct (rep_alloc _ _ _ b Hr Hbc) as [eb Ebh].
    destruct (list_push_back_Ok h1 d D b eb) as (h2 & R2 & Hd2 & Hs2); [done|by apply Hdis|..].
    { exact (list_rep_null _ _ _ _ Hr Hbc). } { congruence. }
    step R2. assert (list_rep h2 l ((A ++ [e]) ++ B)) as Hr2.
    { eapply same_but_rep; [exact Hs2| |done].
      intros a [->|Ha]%elem_of_cons; [done|]. intros Hal. by apply (Hdis a (Hsub a Hal)). }
    rewrite <- app_assoc in Hr2. simpl in Hr2.
    destruct (IH h2 A e B (D ++ [b]) Hr2 ltac:(lia) Hd2) as (h3 & R3 & Hr3 & Hd3 & Hs3).
    { change (A ++ e :: B) with (A ++ [e] ++ B). rewrite app_assoc. intros a Ha.
      pose proof (Hdis a (Hsub a Ha)) as Hna. rewrite cells_mem in Hna.
      rewrite cells_mem, elem_of_app, list_elem_of_singleton.
      intros Hc. assert (a = b) as -> by tauto. done. }
    destruct (uniq_seq e B) as [k du]. simpl in *.
    exists h3. rewrite <- app_assoc in Hd3. splits; [done|done|done|].
    eapply same_but_trans; [|eapply same_but_trans].
    + eapply same_but_mono; [|exact Hs1]. intros a Ha. apply elem_of_app. left. auto.
    + eapply same_but_mono; [|exact Hs2]. intros a [->|Ha]%elem_of_cons; apply elem_of_app; auto.
    + eapply same_but_mono; [|exact Hs3].
      change (A ++ e :: B) with (A ++ [e] ++ B). rewrite app_assoc.
      intros a [Ha|Ha]%elem_of_app; apply elem_of_app; [left; auto|].
      rewrite cells_mem, elem_of_app, list_elem_of_singleton in Ha.
      destruct (decide (a = b)) as [->|]; [by left|]. right. rewrite cells_mem. tauto.
  - destruct (IH h (A ++ [e]) b B D Hr ltac:(lia) Hd Hdis) as (h3 & R3 & Hr3 & Hd3 & Hs3).
    destruct (uniq_seq b B) as [k du]. simpl in *. exists h3.
    rewrite <- app_assoc in Hr3. done.
Qed.
End Ordered.
