(* ===== verification/KListSort.v ===== *)
(** Correctness of [list_sort] (lib/kernel/list.c): the natural merge sort
    terminates, and leaves the list a sorted, stable rearrangement of what it
    was.  The heap-level code is first related to merges of sequences; the
    order-theoretic argument is then made on sequences alone. *)
From S2P Require Import Prelude KList KListOps.
From Stdlib Require Import Permutation Sorted.

Section Sort.
Context (less : Z → Z → bool) `{!StrictWeak less}.
#[local] Abbreviation le := (le_by less).

(** * Merging sequences *)

Fixpoint merge_seq (A : list Z) : list Z → list Z :=
  fix aux (B : list Z) : list Z :=
    match A, B with
    | [], _ => B
    | _, [] => A
    | a :: A', b :: B' => if less b a then b :: aux B' else a :: merge_seq A' B
    end.

Lemma merge_seq_nil_r A : merge_seq A [] = A.
Proof. by destruct A. Qed.
Lemma merge_seq_nil_l B : merge_seq [] B = B.
Proof. by destruct B. Qed.
Lemma merge_seq_cons a A b B :
  merge_seq (a :: A) (b :: B) =
    if less b a then b :: merge_seq (a :: A) B else a :: merge_seq A (b :: B).
Proof. done. Qed.

(** Induction following [merge_seq]. *)
Lemma merge_ind (P : list Z → list Z → Prop) :
  (∀ B, P [] B) → (∀ A, P A []) →
  (∀ a A b B, P (a :: A) B → P A (b :: B) → P (a :: A) (b :: B)) →
  ∀ A B, P A B.
Proof.
  intros H1 H2 H3 A. induction A as [|a A IHA]; [done|].
  intros B. induction B as [|b B IHB]; auto.
Qed.

Lemma merge_seq_perm A B : merge_seq A B ≡ₚ A ++ B.
Proof.
  revert A B. refine (merge_ind _ _ _ _); [intros B|intros A|intros a A b B IH1 IH2].
  - by rewrite merge_seq_nil_l.
  - by rewrite merge_seq_nil_r, app_nil_r.
  - rewrite merge_seq_cons. destruct (less b a).
    + rewrite IH1. by rewrite <- (Permutation_middle (a :: A) B b).
    + by rewrite IH2.
Qed.

Lemma merge_seq_head x A B :
  HdRel le x A → HdRel le x B → HdRel le x (merge_seq A B).
Proof.
  destruct A as [|a A], B as [|b B]; rewrite ?merge_seq_nil_l, ?merge_seq_nil_r; try done.
  rewrite merge_seq_cons. intros HA HB.
  inversion HA; inversion HB; subst. destruct (less b a); by constructor.
Qed.

Lemma merge_seq_sorted A B : Sorted le A → Sorted le B → Sorted le (merge_seq A B).
Proof.
  revert A B. refine (merge_ind _ _ _ _);
    [intros B; by rewrite merge_seq_nil_l|intros A; by rewrite merge_seq_nil_r|].
  intros a A b B IH1 IH2 HA HB. rewrite merge_seq_cons. destruct (less b a) eqn:E.
  - inversion HB; subst. constructor; [by apply IH1|]. apply merge_seq_head; [|done].
    constructor. unfold le_by. by apply less_asym.
  - inversion HA; subst. constructor; [by apply IH2|]. apply merge_seq_head; [done|].
    by constructor.
Qed.

(** Elements equivalent to [x]: neither smaller nor larger. *)
Definition equiv_to (x y : Z) : bool := negb (less x y) && negb (less y x).

Lemma Sorted_lower x A : Sorted le (x :: A) → ∀ y, y ∈ A → le x y.
Proof.
  intros Hs%Sorted_StronglySorted; [|intros ???; by apply le_by_trans]. inversion Hs as [|? ? _ Hf]; subst.
  intros y Hy. rewrite List.Forall_forall in Hf. apply Hf. by apply list_elem_of_In.
Qed.

Lemma filter_none x A : (∀ y, y ∈ A → equiv_to x y = false) → List.filter (equiv_to x) A = [].
Proof.
  induction A as [|a A IH]; intros Hf; simpl; [done|]. rewrite Hf by left.
  apply IH. intros. apply Hf. by right.
Qed.

(** Merging keeps equivalent elements in their order, the left run first. *)
Lemma merge_seq_stable x A B :
  Sorted le A → Sorted le B →
  List.filter (equiv_to x) (merge_seq A B) =
  List.filter (equiv_to x) A ++ List.filter (equiv_to x) B.
Proof.
  revert A B. refine (merge_ind _ _ _ _);
    [intros B HA HB|intros A HA HB|intros a A b B IH1 IH2 HA HB].
  - by rewrite merge_seq_nil_l.
  - by rewrite merge_seq_nil_r, app_nil_r.
  - rewrite merge_seq_cons. destruct (less b a) eqn:E.
    + cbn [List.filter]. inversion HB; subst. rewrite IH1 by done.
      destruct (equiv_to x b) eqn:Eb; [|done].
      assert (List.filter (equiv_to x) (a :: A) = []) as Hn.
      { apply filter_none. unfold equiv_to in *. intros y Hy.
        apply andb_true_iff in Eb as [Eb1%negb_true_iff Eb2%negb_true_iff].
        assert (less b y = true) as Hby.
        { destruct (less_split _ _ y E) as [|Hya]; [done|].
          apply elem_of_cons in Hy as [->|Hy]; [done|].
          pose proof (Sorted_lower _ _ HA y Hy) as Hle. unfold le_by in Hle. congruence. }
        destruct (less_split _ _ x Hby) as [Hc|Hc]; [congruence|]. by rewrite Hc. }
      pose proof Hn as Hn'. cbn [List.filter] in Hn'. by rewrite ?Hn', ?Hn.
    + cbn [List.filter]. inversion HA; subst. rewrite IH2 by done. cbn [List.filter].
      by destruct (equiv_to x a).
Qed.

(** * One pass of the sort, on sequences *)

(** [pass_rel R R' n]: cutting [R] into maximal nondecreasing runs and
    merging them two by two gives [R'], with [n] runs left. *)
Inductive pass_rel : list Z → list Z → nat → Prop :=
| pass_nil : pass_rel [] [] 0
| pass_one A : A ≠ [] → Sorted le A → pass_rel A A 1
| pass_two a A b B R R' n :
    Sorted le (a :: A) → Sorted le (b :: B) → less b (lastd a A) = true →
    (∀ r R1, R = r :: R1 → less r (lastd b B) = true) →
    pass_rel R R' n →
    pass_rel ((a :: A) ++ (b :: B) ++ R) (merge_seq (a :: A) (b :: B) ++ R') (S n).

Fixpoint descents (xs : list Z) : nat :=
  match xs with
  | [] => 0
  | x :: xs' => (match xs' with y :: _ => if less y x then 1 else 0 | [] => 0 end + descents xs')%nat
  end.

Lemma descents_app A b B :
  descents (A ++ b :: B) =
  (descents A + (match A with a :: A' => if less b (lastd a A') then 1 else 0 | [] => 0 end)
   + descents (b :: B))%nat.
Proof.
  induction A as [|a A IH]; [done|]. simpl app. destruct A as [|a' A].
  - simpl. lia.
  - simpl app in *. change (descents (a :: a' :: A ++ b :: B)) with
      ((if less a' a then 1 else 0) + descents (a' :: A ++ b :: B))%nat.
    rewrite IH. change (descents (a :: a' :: A)) with
      ((if less a' a then 1 else 0) + descents (a' :: A))%nat. simpl lastd. lia.
Qed.

Lemma descents_sorted A : descents A = 0%nat ↔ Sorted le A.
Proof.
  induction A as [|a A IH]; [split; [constructor|done]|]. destruct A as [|b A].
  - simpl. split; [by repeat constructor|done].
  - change (descents (a :: b :: A)) with
      ((if less b a then 1 else 0) + descents (b :: A))%nat. split.
    + intros Hd. constructor; [apply IH; lia|]. constructor. unfold le_by.
      destruct (less b a); [lia|done].
    + intros Hs. inversion Hs as [|? ? Hs' Hh]; subst. inversion Hh; subst.
      unfold le_by in *. rewrite H0. apply IH in Hs'. lia.
Qed.

Lemma pass_perm R R' n : pass_rel R R' n → R' ≡ₚ R.
Proof.
  induction 1 as [|A|a A b B R R' n]; [done|done|].
  rewrite merge_seq_perm, IHpass_rel. by rewrite <- app_assoc.
Qed.

Lemma pass_stable x R R' n :
  pass_rel R R' n → List.filter (equiv_to x) R' = List.filter (equiv_to x) R.
Proof.
  induction 1 as [|A|a A b B R R' n]; [done|done|].
  rewrite List.filter_app, merge_seq_stable by done.
  rewrite IHpass_rel, !List.filter_app. by rewrite <- app_assoc.
Qed.

Lemma pass_nonempty R R' n : pass_rel R R' n → R ≠ [] → (1 <= n)%nat.
Proof. destruct 1; [done|lia|lia]. Qed.

(** The runs left bound the descents left ... *)
Lemma pass_descents R R' n : pass_rel R R' n → (descents R' <= n - 1)%nat.
Proof.
  induction 1 as [|A ? HA|a A b B R R' n HA HB ? ? Hp IH];
    [simpl; lia|apply descents_sorted in HA; lia|].
  assert (descents (merge_seq (a :: A) (b :: B)) = 0%nat) as Hm.
  { apply descents_sorted. by apply merge_seq_sorted. }
  destruct R' as [|r R'].
  { rewrite app_nil_r. lia. }
  rewrite descents_app, Hm.
  assert (1 <= n)%nat. { eapply pass_nonempty; [done|]. intros ->. inversion Hp. }
  destruct (merge_seq (a :: A) (b :: B)) as [|z l]; [lia|]. destruct (less r (lastd z l)); lia.
Qed.

(** ... and are at most one more than the descents before, none more when
    there was something to merge and something left over. *)
Lemma pass_progress R R' n : pass_rel R R' n → (1 < n)%nat → (n <= descents R)%nat.
Proof.
  intros Hp. assert (∀ R R' n, pass_rel R R' n →
    (n <= descents R + 1)%nat ∧ ((1 < n)%nat → (n <= descents R)%nat)) as Hg.
  { clear. induction 1 as [|A ? HA|a A b B R R' n HA HB Hab Hbr Hp [IH _]];
      [simpl; lia|lia|].
    change ((a :: A) ++ (b :: B) ++ R) with ((a :: A) ++ b :: (B ++ R)).
    rewrite (descents_app (a :: A) b (B ++ R)), Hab.
    change (b :: B ++ R) with ((b :: B) ++ R).
    destruct R as [|r R].
    { inversion Hp; subst; [lia|done]. }
    rewrite (descents_app (b :: B) r R), (Hbr r R eq_refl). lia. }
  by apply (Hg _ _ _ Hp).
Qed.

Lemma pass_sorted R R' n : pass_rel R R' n → (n <= 1)%nat → Sorted le R'.
Proof. intros Hp Hn. apply descents_sorted. pose proof (pass_descents _ _ _ Hp). lia. Qed.

(** * The code on the heap *)

(** The position reached after [A] and before [R]. *)
Lemma pos_eqb h l P A R :
  list_rep h l (P ++ A ++ R) →
  (hdd (tail_of l) (A ++ R) =? hdd (tail_of l) R) = bool_decide (A = []).
Proof.
  intros (_ & Hn & _). destruct A as [|a A]; simpl; [by rewrite Z.eqb_refl|].
  destruct (Z.eqb_spec a (hdd (tail_of l) R)) as [E|]; [|done]. exfalso.
  rewrite app_assoc, cells_app in Hn.
  refine (app_ne _ _ a (hdd (tail_of l) R) Hn _ _ E).
  - rewrite elem_of_cons, elem_of_app, elem_of_cons. tauto.
  - destruct (hdd_split (tail_of l) R) as [Y ->]. left.
Qed.

Lemma pos_nonnull h l P R : list_rep h l (P ++ R) → hdd (tail_of l) R ≠ NULL.
Proof. intros Hr. exact (list_rep_null _ _ _ _ Hr (proj2 (around_in_cells l P R))). Qed.

Lemma shift_rep h l P a R : list_rep h l (P ++ a :: R) ↔ list_rep h l ((P ++ [a]) ++ R).
Proof. by rewrite <- app_assoc. Qed.

Lemma is_sorted_loop_Ok fuel h l P a A R :
  list_rep h l (P ++ a :: A ++ R) → Sorted le (a :: A) → (length A < fuel)%nat →
  is_sorted_loop less fuel a (hdd (tail_of l) R) h = Ok (true, h).
Proof.
  revert P a A. induction fuel as [|fuel IH]; intros P a A Hr Hs Hf; [lia|]. simpl.
  step (next_of_elem _ _ _ _ _ Hr). apply shift_rep in Hr.
  rewrite (pos_eqb _ _ _ _ _ Hr). destruct A as [|b A]; [done|].
  rewrite bool_decide_false by done. step (prev_of_split _ _ _ _ Hr).
  rewrite lastd_snoc. simpl. inversion Hs as [|? ? Hs' Hh]; subst. inversion Hh as [|? ? Hle]; subst.
  unfold le_by in Hle. rewrite Hle. simpl in Hf. apply (IH (P ++ [a]) b A); [done|done|lia].
Qed.

Lemma is_sorted_Ok fuel h l P A R :
  list_rep h l (P ++ A ++ R) → Sorted le A → (length A < fuel)%nat →
  is_sorted less fuel (hdd (tail_of l) (A ++ R)) (hdd (tail_of l) R) h = Ok (true, h).
Proof.
  intros Hr Hs Hf. unfold is_sorted. rewrite (pos_eqb _ _ _ _ _ Hr).
  destruct A as [|a A]; [done|]. rewrite bool_decide_false by done. simpl.
  simpl in Hf. apply (is_sorted_loop_Ok fuel h l P a A R Hr); [done|lia].
Qed.

Lemma run_loop_Ok fuel h l P a R :
  list_rep h l (P ++ a :: R) → (length R < fuel)%nat →
  ∃ R1 R2, R = R1 ++ R2 ∧ Sorted le (a :: R1) ∧
    (∀ r R3, R2 = r :: R3 → less r (lastd a R1) = true) ∧
    run_loop less fuel a (tail_of l) h = Ok (hdd (tail_of l) R2, h).
Proof.
  revert P a R. induction fuel as [|fuel IH]; intros P a R Hr Hf; [lia|]. simpl.
  step (next_of_elem _ _ _ _ _ Hr). apply shift_rep in Hr.
  rewrite (hdd_eqb_tail _ _ _ _ Hr). destruct R as [|b R].
  { exists [], []. splits; [done|by repeat constructor|done|done]. }
  rewrite bool_decide_false by done. simpl. step (prev_of_split _ _ _ _ Hr).
  rewrite lastd_snoc. destruct (less b a) eqn:E; simpl.
  { exists [], (b :: R). splits; [done|by repeat constructor| |done].
    by intros r R3 [= <- <-]. }
  simpl in Hf. destruct (IH (P ++ [a]) b R Hr ltac:(lia)) as (R1 & R2 & -> & Hs & Hm & R').
  exists (b :: R1), R2. splits; [done| |done|done].
  constructor; [done|]. by constructor.
Qed.

Lemma find_end_of_run_Ok fuel h l P a R :
  list_rep h l (P ++ a :: R) → (length R < fuel)%nat →
  ∃ R1 R2, R = R1 ++ R2 ∧ Sorted le (a :: R1) ∧
    (∀ r R3, R2 = r :: R3 → less r (lastd a R1) = true) ∧
    find_end_of_run less fuel a (tail_of l) h = Ok (hdd (tail_of l) R2, h).
Proof.
  intros Hr Hf. destruct (run_loop_Ok fuel h l P a R Hr Hf) as (R1 & R2 & ? & ? & ? & R').
  exists R1, R2. splits; [done|done|done|]. unfold find_end_of_run.
  step (check_nonnull h a (pos_nonnull h l P (a :: R) Hr)).
  step (check_nonnull h _ (list_rep_null _ _ _ _ Hr (tail_in_cells l _))).
  pose proof (elem_ne_tail _ _ _ _ _ Hr).
  erewrite M_bind_step; [|apply check_true; by destruct (Z.eqb_spec a (tail_of l))]. done.
Qed.

Lemma merge_loop_Ok fuel h l P A B Q :
  list_rep h l (P ++ A ++ B ++ Q) → (length A + length B < fuel)%nat →
  ∃ h', merge_loop less fuel (hdd (tail_of l) (A ++ B ++ Q)) (hdd (tail_of l) (B ++ Q))
          (hdd (tail_of l) Q) h = Ok ((), h') ∧
        list_rep h' l (P ++ merge_seq A B ++ Q) ∧
        ∀ x, x ∉ cells l (P ++ A ++ B ++ Q) → h' !! x = h !! x.
Proof.
  revert h P A B. induction fuel as [|fuel IH]; intros h P A B Hr Hf; [lia|].
  cbn [merge_loop]. rewrite (pos_eqb _ _ _ _ _ Hr).
  rewrite (pos_eqb h l (P ++ A) B Q) by (by rewrite <- app_assoc).
  destruct A as [|a A].
  { exists h. by rewrite merge_seq_nil_l. }
  destruct B as [|b B].
  { exists h. by rewrite merge_seq_nil_r. }
  rewrite !bool_decide_false by done. cbn iota beta delta [negb andb].
  change (hdd (tail_of l) ((a :: A) ++ (b :: B) ++ Q)) with a.
  change (hdd (tail_of l) ((b :: B) ++ Q)) with b.
  rewrite merge_seq_cons. destruct (less b a) eqn:E; cbn iota beta delta [negb].
  - assert (list_rep h l ((P ++ a :: A) ++ b :: B ++ Q)) as Hr' by (by rewrite <- app_assoc).
    step (next_of_elem _ _ _ _ _ Hr'). apply shift_rep in Hr'.
    step (prev_of_split _ _ _ _ Hr'). rewrite lastd_snoc.
    destruct (list_splice_Ok h l P a A b [] (B ++ Q)) as (h1 & R1 & Hr1 & Hf1); [done|].
    step R1. change (P ++ [b] ++ (a :: A) ++ B ++ Q) with (P ++ b :: (a :: A) ++ B ++ Q) in Hr1.
    apply shift_rep in Hr1. simpl in Hf.
    destruct (IH h1 (P ++ [b]) (a :: A) B Hr1 ltac:(simpl; lia)) as (h2 & R2 & Hr2 & Hf2).
    exists h2. splits; [exact R2|by rewrite <- app_assoc in Hr2|].
    intros x Hx. rewrite Hf2; [by apply Hf1|]. intros Hc. apply Hx. revert Hc.
    rewrite ?cells_mem, ?elem_of_app, ?elem_of_cons, ?elem_of_app, ?elem_of_cons, ?elem_of_nil.
    tauto.
  - step (next_of_elem h l P a (A ++ (b :: B) ++ Q) Hr).
    pose proof Hr as Hr1. change ((a :: A) ++ (b :: B) ++ Q) with (a :: A ++ (b :: B) ++ Q) in Hr1.
    apply shift_rep in Hr1. simpl in Hf.
    destruct (IH h (P ++ [a]) A (b :: B) Hr1 ltac:(simpl; lia)) as (h2 & R2 & Hr2 & Hf2).
    exists h2. splits; [exact R2|by rewrite <- app_assoc in Hr2|].
    intros x Hx. apply Hf2. by rewrite <- app_assoc.
Qed.

Lemma inplace_merge_Ok fuel h l P A B Q :
  list_rep h l (P ++ A ++ B ++ Q) → Sorted le A → Sorted le B →
  (length A + length B < fuel)%nat →
  ∃ h', inplace_merge less fuel (hdd (tail_of l) (A ++ B ++ Q)) (hdd (tail_of l) (B ++ Q))
          (hdd (tail_of l) Q) h = Ok ((), h') ∧
        list_rep h' l (P ++ merge_seq A B ++ Q) ∧
        ∀ x, x ∉ cells l (P ++ A ++ B ++ Q) → h' !! x = h !! x.
Proof.
  intros Hr HA HB Hf. unfold inplace_merge.
  assert (list_rep h l ((P ++ A) ++ B ++ Q)) as Hr1 by (by rewrite <- app_assoc).
  assert (list_rep h l (((P ++ A) ++ B) ++ Q)) as Hr2 by (by rewrite <- app_assoc).
  step (check_nonnull h _ (pos_nonnull _ _ _ _ Hr)).
  step (check_nonnull h _ (pos_nonnull _ _ _ _ Hr1)).
  step (check_nonnull h _ (pos_nonnull _ _ _ _ Hr2)).
  assert (∀ m, m h = Ok (true, h) → assert_that m h = Ok ((), h)) as Ha.
  { intros m Hm. unfold assert_that. by step Hm. }
  step (Ha _ (is_sorted_Ok fuel h l P A (B ++ Q) Hr HA ltac:(lia))).
  step (Ha _ (is_sorted_Ok fuel h l (P ++ A) B Q Hr1 HB ltac:(lia))).
  by apply merge_loop_Ok.
Qed.

Lemma pass_loop_Ok fuel lfuel h l P R cnt :
  list_rep h l (P ++ R) → (length R < fuel)%nat → (length R < lfuel)%nat →
  0 <= cnt → cnt + Z.of_nat (length R) < 4294967296 →
  ∃ h' R' n, pass_loop less fuel lfuel l (hdd (tail_of l) R) cnt h = Ok (cnt + Z.of_nat n, h') ∧
    list_rep h' l (P ++ R') ∧ pass_rel R R' n ∧ (n <= length R)%nat ∧
    ∀ x, x ∉ cells l (P ++ R) → h' !! x = h !! x.
Proof.
  revert h P R cnt. induction lfuel as [|lfuel IH]; intros h P R cnt Hr Hf Hlf Hc Hw; [lia|].
  cbn [pass_loop]. step (list_end_Ok _ _ _ Hr). rewrite (hdd_eqb_tail _ _ _ _ Hr).
  destruct R as [|a R].
  { exists h, [], 0%nat. rewrite Z.add_0_r. splits; [done|done|constructor|lia|done]. }
  rewrite bool_decide_false by done. simpl in Hf, Hlf, Hw. cbn iota. simpl hdd.
  rewrite (u32_small (cnt + 1)) by lia.
  destruct (find_end_of_run_Ok fuel h l P a R Hr ltac:(lia)) as (A & S & -> & HA & Hm & R1).
  step R1. rewrite length_app in *.
  assert (list_rep h l ((P ++ a :: A) ++ S)) as Hr1 by (by rewrite <- app_assoc).
  rewrite (hdd_eqb_tail _ _ _ _ Hr1). destruct S as [|b S].
  { exists h, (a :: A), 1%nat. rewrite app_nil_r in *.
    splits; [done|done|by constructor|simpl; lia|done]. }
  rewrite bool_decide_false by done. cbn iota. simpl hdd. simpl in Hf, Hlf, Hw.
  destruct (find_end_of_run_Ok fuel h l (P ++ a :: A) b S Hr1 ltac:(lia))
    as (B & Q & -> & HB & Hm2 & R2).
  step R2. rewrite length_app in *.
  destruct (inplace_merge_Ok fuel h l P (a :: A) (b :: B) Q) as (h1 & R3 & Hr3 & Hf3);
    [done|done|done|simpl; lia|].
  simpl hdd in R3. step R3. rewrite app_assoc in Hr3.
  destruct (IH h1 (P ++ merge_seq (a :: A) (b :: B)) Q (cnt + 1) Hr3)
    as (h2 & Q' & n & R4 & Hr4 & Hp & Hn & Hf4); [lia..|].
  exists h2, (merge_seq (a :: A) (b :: B) ++ Q'), (Datatypes.S n). splits.
  - rewrite R4. do 2 f_equal. lia.
  - by rewrite app_assoc.
  - apply (pass_two a A b B Q Q' n); try done. by apply (Hm b (B ++ Q)).
  - simpl. rewrite length_app. simpl. rewrite length_app. lia.
  - intros x Hx. rewrite Hf4; [by apply Hf3|]. intros Hc'. apply Hx. revert Hc'.
    rewrite !cells_mem, <- app_assoc, (merge_seq_perm (a :: A) (b :: B)), <- app_assoc. done.
Qed.

Lemma sort_loop_Ok fuel dfuel h l xs :
  list_rep h l xs → (length xs < fuel)%nat → (descents xs < dfuel)%nat →
  Z.of_nat (length xs) < 4294967296 →
  ∃ h' ys, sort_loop less fuel dfuel l h = Ok ((), h') ∧ list_rep h' l ys ∧
    ys ≡ₚ xs ∧ Sorted le ys ∧
    (∀ x, List.filter (equiv_to x) ys = List.filter (equiv_to x) xs) ∧
    ∀ x, x ∉ cells l xs → h' !! x = h !! x.
Proof.
  revert h xs. induction dfuel as [|dfuel IH]; intros h xs Hr Hf Hd Hw; [lia|].
  cbn [sort_loop]. step (list_begin_Ok _ _ _ Hr).
  destruct (pass_loop_Ok fuel fuel h l [] xs 0) as (h1 & R' & n & R1 & Hr1 & Hp & Hn & Hf1);
    [done|lia..|].
  step R1. rewrite Z.add_0_l.
  pose proof (pass_perm _ _ _ Hp) as Hperm. simpl app in *.
  destruct (Z.ltb_spec 1 (Z.of_nat n)).
  - pose proof (pass_progress _ _ _ Hp ltac:(lia)). pose proof (pass_descents _ _ _ Hp).
    assert (length R' = length xs) as Hlen by (by rewrite Hperm).
    destruct (IH h1 R' Hr1) as (h2 & ys & R2 & Hr2 & Hp2 & Hs2 & Hst & Hf2);
      [lia|lia|lia|].
    exists h2, ys. splits; [done|done|by rewrite Hp2|done| |].
    + intros x. by rewrite Hst, (pass_stable x _ _ _ Hp).
    + intros x Hx. rewrite Hf2; [by apply Hf1|]. intros Hc. apply Hx.
      rewrite cells_mem in *. by rewrite <- Hperm.
  - exists h1, R'. splits; [done|done|done| | |done].
    + eapply pass_sorted; [done|lia].
    + intros x. by rewrite (pass_stable x _ _ _ Hp).
Qed.

Lemma descents_length xs : (descents xs <= length xs)%nat.
Proof.
  induction xs as [|x xs IH]; simpl; [lia|]. destruct xs as [|y xs]; [simpl; lia|].
  destruct (less y x); simpl in *; lia.
Qed.

Lemma list_sort_Ok fuel h l xs :
  list_rep h l xs → (length xs < fuel)%nat → Z.of_nat (length xs) < 4294967296 →
  ∃ h' ys, list_sort less fuel l h = Ok ((), h') ∧ list_rep h' l ys ∧
    ys ≡ₚ xs ∧ Sorted le ys ∧
    (∀ x, List.filter (equiv_to x) ys = List.filter (equiv_to x) xs) ∧
    ∀ x, x ∉ cells l xs → h' !! x = h !! x.
Proof.
  intros Hr Hf Hw. unfold list_sort. step (check_nonnull h l (list_rep_l _ _ _ Hr)).
  pose proof (descents_length xs).
  destruct (sort_loop_Ok fuel fuel h l xs) as (h1 & ys & R1 & Hr1 & Hp & Hs & Hst & Hf1);
    [done|lia..|].
  step R1. step (list_begin_Ok _ _ _ Hr1). step (list_end_Ok _ _ _ Hr1).
  assert (length ys = length xs) as Hlen by (by rewrite Hp).
  pose proof (is_sorted_Ok fuel h1 l [] ys []) as Hso. rewrite app_nil_r in Hso.
  simpl app in Hso. simpl hdd in Hso at 2. specialize (Hso Hr1 Hs ltac:(lia)).
  exists h1, ys. splits; try done. unfold assert_that. by step Hso.
Qed.

End Sort.

(** * Properties *)

(** C24: sorting a list with a strict weak order terminates without failing
    any ASSERT (the last one being that the list is sorted) and leaves, in
    the same list, a sorted permutation of its elements in which equivalent
    elements keep their order; cells outside the list are not written. *)
Theorem list_sort_correct (less : Z → Z → bool) (Hless : StrictWeak less)
  (fuel : nat) (h : heap) (l : Z) (xs : list Z)
  (Hr : list_rep h l xs) (Hf : (length xs < fuel)%nat)
  (Hw : Z.of_nat (length xs) < 4294967296) :
  ∃ h' ys, list_sort less fuel l h = Ok ((), h') ∧ list_rep h' l ys ∧
    ys ≡ₚ xs ∧ Sorted (le_by less) ys ∧
    (∀ x, List.filter (equiv_to less x) ys = List.filter (equiv_to less x) xs) ∧
    ∀ x, x ∉ cells l xs → h' !! x = h !! x.
Proof. by apply list_sort_Ok. Qed.

(** Inserting into a sorted list keeps it sorted, whatever the new
    element, and adds exactly that element; the loop finds its place within
    the fuel. *)
Theorem list_insert_ordered_correct (less : Z → Z → bool) (Hless : StrictWeak less)
  (fuel : nat) (h : heap) (l e : Z) (xs : list Z)
  (Hr : list_rep h l xs) (Hs : Sorted (le_by less) xs) (Hf : (length xs < fuel)%nat)
  (He : e ∉ cells l xs) (He0 : e ≠ NULL) (Ha : is_Some (h !! e)) :
  ∃ h' ys, list_insert_ordered less fuel l e h = Ok ((), h') ∧ list_rep h' l ys ∧
    ys ≡ₚ e :: xs ∧ Sorted (le_by less) ys.
Proof.
  destruct Ha as [old Ha].
  destruct (list_insert_ordered_Ok less fuel h l xs e old Hr Hf He He0 Ha)
    as (h' & R & Hr' & _).
  exists h', (insert_seq less e xs). splits; [done|done|apply insert_seq_perm|].
  by apply insert_seq_sorted.
Qed.

(** Pushing, popping, removing, reversing and sizing a list implement
    the sequence operations: what is pushed in front is popped from the
    front, and reversal reverses. *)
Theorem list_sequence_ops (fuel : nat) (h : heap) (l e : Z) (xs : list Z)
  (Hr : list_rep h l xs) (Hf : (length xs < fuel)%nat)
  (Hw : Z.of_nat (length xs) < 4294967296)
  (He : e ∉ cells l xs) (He0 : e ≠ NULL) (Ha : is_Some (h !! e)) :
  list_size fuel l h = Ok (Z.of_nat (length xs), h) ∧
  list_empty l h = Ok (bool_decide (xs = []), h) ∧
  (∃ h1 h2, list_push_front l e h = Ok ((), h1) ∧ list_rep h1 l (e :: xs) ∧
            list_pop_front l h1 = Ok (e, h2) ∧ list_rep h2 l xs) ∧
  (∃ h1 h2, list_push_back l e h = Ok ((), h1) ∧ list_rep h1 l (xs ++ [e]) ∧
            list_pop_back l h1 = Ok (e, h2) ∧ list_rep h2 l xs) ∧
  (∃ h1, list_reverse fuel l h = Ok ((), h1) ∧ list_rep h1 l (rev xs)).
Proof.
  destruct Ha as [old Ha]. splits.
  - rewrite (list_size_Ok fuel h l xs Hr Hf). by rewrite u32_small by lia.
  - by apply list_empty_Ok.
  - destruct (list_push_front_Ok h l xs e old Hr He He0 Ha) as (h1 & R1 & Hr1 & _).
    destruct (list_pop_front_Ok h1 l e xs Hr1) as (h2 & R2 & Hr2 & _). eauto 10.
  - destruct (list_push_back_Ok h l xs e old Hr He He0 Ha) as (h1 & R1 & Hr1 & _).
    destruct (list_pop_back_Ok h1 l xs e Hr1) as (h2 & R2 & Hr2 & _). eauto 10.
  - destruct (list_reverse_Ok fuel h l xs Hr Hf) as (h1 & R1 & Hr1 & _). eauto.
Qed.

(** [list_unique] keeps the first element of every group of adjacent
    equivalent elements and moves the others, in order, to the end of the
    list of duplicates: nothing is lost and no two neighbours are left
    equivalent. *)
Theorem list_unique_correct (less : Z → Z → bool) (fuel : nat) (h : heap)
  (l d x : Z) (xs D : list Z)
  (Hr : list_rep h l (x :: xs)) (Hd : list_rep h d D)
  (Hdis : cells_disjoint l (x :: xs) d D) (Hf : (length xs < fuel)%nat) :
  ∃ h' kept dups, list_unique less fuel l d h = Ok ((), h') ∧
    list_rep h' l (x :: kept) ∧ list_rep h' d (D ++ dups) ∧ kept ++ dups ≡ₚ xs ∧
    Sorted (λ a b, less a b = true ∨ less b a = true) (x :: kept).
Proof.
  destruct (unique_loop_Ok less fuel h l d [] x xs D Hr Hf Hd Hdis)
    as (h' & R & Hr' & Hd' & _).
  exists h', (uniq_seq less x xs).1, (uniq_seq less x xs).2. splits.
  - unfold list_unique. step (check_nonnull h l (list_rep_l _ _ _ Hr)).
    step (list_empty_Ok _ _ _ Hr). rewrite bool_decide_false by done.
    by step (list_begin_Ok _ _ _ Hr).
  - done.
  - done.
  - pose proof (uniq_seq_perm less xs x). by destruct (uniq_seq less x xs).
  - eapply Sorted_mono; [|apply uniq_seq_distinct]. simpl. intros a b Hab.
    destruct (less a b), (less b a); auto.
Qed.

(** [list_max] returns the first of the largest elements of a nonempty
    list, and the tail of an empty one. *)
Theorem list_max_correct (less : Z → Z → bool) (Hless : StrictWeak less)
  (fuel : nat) (h : heap) (l : Z) (xs : list Z)
  (Hr : list_rep h l xs) (Hf : (length xs < fuel)%nat) :
  (xs = [] ∧ list_max less fuel l h = Ok (tail_of l, h)) ∨
  (∃ A m B, xs = A ++ m :: B ∧ list_max less fuel l h = Ok (m, h) ∧
     (∀ y, y ∈ A → less y m = true) ∧ (∀ y, y ∈ B → less m y = false)).
Proof.
  rewrite (list_max_Ok less fuel h l xs Hr Hf). destruct xs as [|x xs]; [by left|right].
  destruct (max_seq_spec less xs x []) as (A & B & E & HA & HB).
  - intros y Hy. by apply elem_of_nil in Hy.
  - exists A, (max_seq less x xs), B. done.
Qed.

(** ** A sample list: elements at 30, 10 and 20, header at 100, and a free
    cell at 40; a second list, empty, at 200.  Elements are compared by their
    tens. *)
Definition sample_heap : heap :=
  <[100 := mkElem 0 30]> (<[30 := mkElem 100 10]> (<[10 := mkElem 30 20]>
  (<[20 := mkElem 10 108]> (<[108 := mkElem 20 0]> (<[40 := mkElem 7 7]>
  (<[200 := mkElem 0 208]> (<[208 := mkElem 200 0]> ∅))))))).
Definition sample_less (a b : Z) : bool := a / 10 <? b / 10.

#[export] Instance sample_less_order : StrictWeak sample_less.
Proof. apply (strict_weak_key (λ a, a / 10)). Qed.

Ltac nodup := apply (bool_decide_unpack _); vm_compute; exact I.

Lemma sample_rep : list_rep sample_heap 100 [30; 10; 20].
Proof. split; [repeat split|split; nodup]. Qed.
Lemma sample_rep2 : list_rep sample_heap 200 [].
Proof. split; [repeat split|split; nodup]. Qed.

Lemma list_sort_correct_witness :
  ∃ h' ys, list_sort sample_less 4 100 sample_heap = Ok ((), h') ∧ list_rep h' 100 ys ∧
    ys ≡ₚ [30; 10; 20] ∧ Sorted (le_by sample_less) ys.
Proof.
  destruct (list_sort_correct sample_less _ 4 sample_heap 100 [30; 10; 20] sample_rep
    ltac:(simpl; lia) ltac:(simpl; lia)) as (h' & ys & H1 & H2 & H3 & H4 & _).
  exists h', ys. exact (conj H1 (conj H2 (conj H3 H4))).
Defined.

Lemma list_insert_ordered_correct_witness :
  ∃ h' ys, list_insert_ordered sample_less 4 200 40 sample_heap = Ok ((), h') ∧
    list_rep h' 200 ys ∧ ys ≡ₚ [40] ∧ Sorted (le_by sample_less) ys.
Proof.
  apply (list_insert_ordered_correct sample_less _ 4 sample_heap 200 40 [] sample_rep2);
    [constructor|simpl; lia|nodup|discriminate|eexists; reflexivity].
Defined.

Lemma list_sequence_ops_witness :
  list_size 4 100 sample_heap = Ok (3, sample_heap) ∧
  ∃ h1, list_reverse 4 100 sample_heap = Ok ((), h1) ∧ list_rep h1 100 [20; 10; 30].
Proof.
  destruct (list_sequence_ops 4 sample_heap 100 40 [30; 10; 20] sample_rep
    ltac:(simpl; lia) ltac:(simpl; lia) ltac:(nodup) ltac:(discriminate)
    ltac:(eexists; reflexivity)) as (H1 & _ & _ & _ & H5).
  exact (conj H1 H5).
Defined.

Lemma list_unique_correct_witness :
  ∃ h' kept dups, list_unique sample_less 4 100 200 sample_heap = Ok ((), h') ∧
    list_rep h' 100 (30 :: kept) ∧ list_rep h' 200 dups ∧ kept ++ dups ≡ₚ [10; 20].
Proof.
  destruct (list_unique_correct sample_less 4 sample_heap 100 200 30 [10; 20] []
    sample_rep sample_rep2) as (h' & k & d & H1 & H2 & H3 & H4 & _).
  - intros a Ha Hb. rewrite cells_mem in *. unfold head_of, tail_of, sizeof_list_elem in *.
    rewrite !elem_of_cons, elem_of_nil in *. lia.
  - simpl. lia.
  - exists h', k, d. exact (conj H1 (conj H2 (conj H3 H4))).
Defined.

Lemma list_max_correct_witness :
  list_max sample_less 4 100 sample_heap = Ok (30, sample_heap) ∧
  ∃ A m B, [30; 10; 20] = A ++ m :: B ∧
    list_max sample_less 4 100 sample_heap = Ok (m, sample_heap).
Proof.
  split; [vm_compute; reflexivity|].
  destruct (list_max_correct sample_less _ 4 sample_heap 100 [30; 10; 20] sample_rep
    ltac:(simpl; lia)) as [[H _]|(A & m & B & H1 & H2 & _)]; [discriminate|eauto].
Defined.
