(* ===== verification/Cache.v ===== *)
(** The file system's buffer cache (filesys/cache.c): 64 sector buffers with
    a clock (second chance) replacement policy in front of the disk.

    The disk (devices/disk.c) enters through the class [Disk]: reading and
    writing whole sectors.  The refinement theorem shows that any sequence of
    cache operations answers exactly what the same sequence of reads and
    writes would answer on a plain array of sectors, whatever is cached,
    dirty or evicted in between.  The per-buffer locks serialise the accesses
    to one buffer and do not change data: each operation is one step here. *)
From S2P Require Import Prelude.

Definition DISK_SECTOR_SIZE : Z := 512.
Definition BUFFER_CACHE_SIZE : Z := 64.

(** * The disk *)

(** Whole-sector access, failing beyond the disk's capacity (the ASSERT of
    [select_sector] in devices/disk.c). *)
Class Disk (D : Type) := {
  capacity : D → Z;
  disk_read : D → Z → outcome (list Z);
  disk_write : D → Z → list Z → outcome D
}.

(** What the cache relies on: a sector reads back what was last written to
    it, in full sectors of bytes, and other sectors are unaffected. *)
Class DiskLaws (D : Type) `{Disk D} : Prop := {
  disk_read_ok d s : 0 <= s < capacity d →
    ∃ bs, disk_read d s = Ok bs ∧ length bs = 512%nat;
  disk_write_ok d s bs : 0 <= s < capacity d → length bs = 512%nat →
    ∃ d', disk_write d s bs = Ok d' ∧ capacity d' = capacity d ∧
          disk_read d' s = Ok bs ∧ ∀ s', s' ≠ s → disk_read d' s' = disk_read d s'
}.

(** * The cache *)

(** [struct file_cache], without its lock. *)
Record file_cache := mkCache {
  allocated : bool; sector_no : Z; accessed : bool; dirty : bool; data : list Z }.
#[global] Instance file_cache_eq_dec : EqDecision file_cache.
Proof. solve_decision. Defined.

Section Cache.
Context {D : Type} `{Disk D}.

(** The static state of cache.c and the disk behind it. *)
Record state := mkState {
  buffer_cache : list file_cache; lookup_start_index : Z; filesys_disk : D }.

Definition set_slot (st : state) (i : Z) (c : file_cache) : outcome state :=
  cs ← of_option (zset (buffer_cache st) i c);
  Ok (mkState cs (lookup_start_index st) (filesys_disk st)).
Definition get_slot (st : state) (i : Z) : outcome file_cache :=
  of_option (zget (buffer_cache st) i).
Definition with_disk (st : state) (d : D) : state :=
  mkState (buffer_cache st) (lookup_start_index st) d.
Definition with_start (st : state) (i : Z) : state :=
  mkState (buffer_cache st) i (filesys_disk st).

(** The zero-initialised static array, after [buffer_cache_init]. *)
Definition init_slot (c : file_cache) : file_cache :=
  mkCache false 0 (accessed c) (dirty c) (data c).
Definition buffer_cache_init (st : state) : state :=
  mkState (init_slot <$> buffer_cache st) 0 (filesys_disk st).
Definition static_state (d : D) : state :=
  mkState (replicate 64 (mkCache false 0 false false (replicate 512 0))) 0 d.

(** The search loops [for (i = 0; i < BUFFER_CACHE_SIZE; i++) if (...)]: the
    first index satisfying the test, or -1. *)
Fixpoint search (test : file_cache → bool) (cs : list file_cache) (i : Z) : Z :=
  match cs with
  | [] => -1
  | c :: cs' => if test c then i else search test cs' (i + 1)
  end.

Definition holds (sec_no : Z) (c : file_cache) : bool := (sector_no c =? sec_no) && allocated c.

(** [if (buffer_cache[i].dirty) disk_write (...)] *)
Definition write_if_dirty (st : state) (c : file_cache) : outcome state :=
  if dirty c then d ← disk_write (filesys_disk st) (sector_no c) (data c); Ok (with_disk st d)
  else Ok st.

Definition buffer_cache_release (st : state) (sec_no : Z) : outcome (bool * state) :=
  let i := search (holds sec_no) (buffer_cache st) 0 in
  if i <? 0 then Ok (false, st)
  else
    c ← get_slot st i;
    st ← write_if_dirty st c;
    st ← set_slot st i (mkCache false (sector_no c) (accessed c) (dirty c) (data c));
    Ok (true, st).

(** The clock loop: clear [accessed] bits from the clock hand on, until a
    buffer without it is found, and evict that one. *)
Fixpoint clock_loop (fuel : nat) (i : Z) (st : state) : outcome (Z * state) :=
  match fuel with
  | O => Err OutOfFuel
  | S fuel =>
      c ← get_slot st i;
      if accessed c then
        st ← set_slot st i (mkCache (allocated c) (sector_no c) false (dirty c) (data c));
        clock_loop fuel ((i + 1) mod BUFFER_CACHE_SIZE) st
      else
        let st := with_start st ((i + 1) mod BUFFER_CACHE_SIZE) in
        st ← write_if_dirty st c;
        st ← set_slot st i (mkCache false (sector_no c) (accessed c) (dirty c) (data c));
        Ok (i, st)
  end.

(** One round over the cache clears every bit, so one more step than there
    are buffers is enough fuel ([clock_loop_ok]). *)
Definition clock_fuel : nat := 65.

Definition buffer_cache_find_victim (st : state) : outcome (Z * state) :=
  let i := search (λ c, negb (allocated c)) (buffer_cache st) 0 in
  if 0 <=? i then Ok (i, st)
  else clock_loop clock_fuel (lookup_start_index st) st.

(** The part shared by reading and writing: the index of the buffer holding
    [sec_no], loading the sector into a victim if there is none. *)
Definition locate (st : state) (sec_no : Z) : outcome (Z * state) :=
  let ans := search (holds sec_no) (buffer_cache st) 0 in
  if ans <? 0 then
    '(ans, st) ← buffer_cache_find_victim st;
    c ← get_slot st ans;
    bs ← disk_read (filesys_disk st) sec_no;
    st ← set_slot st ans (mkCache true sec_no true (dirty c) bs);
    Ok (ans, st)
  else Ok (ans, st).

(** [memcpy] out of, and into, the buffer of a slot. *)
Definition in_sector (size offset : Z) : bool :=
  (0 <=? size) && (0 <=? offset) && (offset + size <=? DISK_SECTOR_SIZE).
Definition sub_bytes (bs : list Z) (size offset : Z) : list Z :=
  take (Z.to_nat size) (drop (Z.to_nat offset) bs).
Definition patch_bytes (bs src : list Z) (offset : Z) : list Z :=
  take (Z.to_nat offset) bs ++ src ++ drop (Z.to_nat offset + length src) bs.

Definition buffer_cache_read (st : state) (sec_no size offset : Z) : outcome (list Z * state) :=
  '(ans, st) ← locate st sec_no;
  c ← get_slot st ans;
  if in_sector size offset then Ok (sub_bytes (data c) size offset, st) else Err WildAccess.

(** [buffer] holds the [size] bytes copied. *)
Definition buffer_cache_write (st : state) (sec_no : Z) (buffer : list Z) (offset : Z)
  : outcome state :=
  '(ans, st) ← locate st sec_no;
  c ← get_slot st ans;
  if in_sector (Z.of_nat (length buffer)) offset then
    set_slot st ans (mkCache (allocated c) (sector_no c) (accessed c) true
                       (patch_bytes (data c) buffer offset))
  else Err WildAccess.

(** [for (i = 0; i < BUFFER_CACHE_SIZE; i++) if (allocated && dirty)
    disk_write (...)] *)
Fixpoint write_back_loop (cs : list file_cache) (st : state) : outcome state :=
  match cs with
  | [] => Ok st
  | c :: cs' =>
      if allocated c && dirty c then
        d ← disk_write (filesys_disk st) (sector_no c) (data c);
        write_back_loop cs' (with_disk st d)
      else write_back_loop cs' st
  end.
Definition buffer_cache_write_back (st : state) : outcome state :=
  write_back_loop (buffer_cache st) st.

(** * The logical contents of the disk *)

(** Buffer [i] is [c] and caches sector [s]. *)
Definition holder (st : state) (s : Z) (i : nat) (c : file_cache) : Prop :=
  buffer_cache st !! i = Some c ∧ allocated c = true ∧ sector_no c = s.

(** What a reader of sector [s] sees: the cached copy if there is one. *)
Definition view (st : state) (s : Z) : outcome (list Z) :=
  match List.find (holds s) (buffer_cache st) with
  | Some c => Ok (data c)
  | None => disk_read (filesys_disk st) s
  end.

(** The cache invariant: full-size buffers, at most one buffer per sector,
    sectors within the disk, and clean buffers equal to their sectors. *)
Record cache_inv (st : state) : Prop := {
  inv_length : length (buffer_cache st) = 64%nat;
  inv_start : 0 <= lookup_start_index st < 64;
  inv_data i c : buffer_cache st !! i = Some c → length (data c) = 512%nat;
  inv_unique s i j c c' : holder st s i c → holder st s j c' → i = j;
  inv_range s i c : holder st s i c → 0 <= s < capacity (filesys_disk st);
  inv_clean s i c : holder st s i c → dirty c = false →
    disk_read (filesys_disk st) s = Ok (data c)
}.

Lemma holds_spec s c : holds s c = true ↔ allocated c = true ∧ sector_no c = s.
Proof. unfold holds. rewrite andb_true_iff, Z.eqb_eq. tauto. Qed.

Lemma view_holder st s i c : cache_inv st → holder st s i c → view st s = Ok (data c).
Proof.
  intros Hi Hh. unfold view. destruct (List.find _ _) as [c'|] eqn:E.
  - apply List.find_some in E as [Hin Hc]. apply list_elem_of_In, list_elem_of_lookup in Hin as [j Hj].
    apply holds_spec in Hc. assert (holder st s j c') as Hh' by (split; [done|tauto]).
    rewrite <- (inv_unique _ Hi _ _ _ _ _ Hh Hh') in Hj. destruct Hh. congruence.
  - destruct Hh as (Hl & Ha & Hs). apply list_elem_of_lookup_2, list_elem_of_In in Hl.
    pose proof (List.find_none _ _ E _ Hl) as Hf.
    assert (holds s c = true) by (by apply holds_spec). congruence.
Qed.

Lemma view_none st s :
  (∀ i c, ¬ holder st s i c) → view st s = disk_read (filesys_disk st) s.
Proof.
  intros Hn. unfold view. destruct (List.find _ _) as [c'|] eqn:E; [|done].
  apply List.find_some in E as [Hin Hc]. apply list_elem_of_In, list_elem_of_lookup in Hin as [j Hj].
  apply holds_spec in Hc. exfalso. apply (Hn j c'). split; [done|tauto].
Qed.

Lemma holder_dec st s : (∃ i c, holder st s i c) ∨ (∀ i c, ¬ holder st s i c).
Proof.
  destruct (List.find (holds s) (buffer_cache st)) as [c|] eqn:E; [left|right].
  - apply List.find_some in E as [Hin Hc]. apply list_elem_of_In, list_elem_of_lookup in Hin as [j Hj].
    apply holds_spec in Hc. exists j, c. split; [done|tauto].
  - intros i c (Hl & Ha & Hs). apply list_elem_of_lookup_2, list_elem_of_In in Hl.
    pose proof (List.find_none _ _ E _ Hl) as Hf.
    assert (holds s c = true) by (by apply holds_spec). congruence.
Qed.

(** Two states with the same logical contents, on disks of one size. *)
Definition same_view (st st' : state) : Prop :=
  (∀ s, view st' s = view st s) ∧ capacity (filesys_disk st') = capacity (filesys_disk st).

Lemma same_view_refl st : same_view st st.
Proof. by split. Qed.
Lemma same_view_trans st1 st2 st3 : same_view st1 st2 → same_view st2 st3 → same_view st1 st3.
Proof. intros [V1 C1] [V2 C2]. split; [intros s; by rewrite V2|congruence]. Qed.

(** No sector becomes cached. *)
Definition no_new_holder (st st' : state) : Prop :=
  ∀ s i c', holder st' s i c' → ∃ c, holder st s i c.

Lemma no_new_holder_trans st1 st2 st3 :
  no_new_holder st1 st2 → no_new_holder st2 st3 → no_new_holder st1 st3.
Proof. intros H1 H2 s i c' [c Hc]%H2. by eapply H1. Qed.

(** The result of searching the array. *)
Lemma search_spec test cs i :
  (search test cs i = -1 ∧ ∀ k c, cs !! k = Some c → test c = false) ∨
  (∃ k c, search test cs i = i + Z.of_nat k ∧ cs !! k = Some c ∧ test c = true).
Proof.
  revert i. induction cs as [|c cs IH]; intros i; simpl; [left; split; [done|]|].
  { intros k c Hk. by rewrite lookup_nil in Hk. }
  destruct (test c) eqn:E.
  - right. exists 0%nat, c. split; [lia|done].
  - destruct (IH (i + 1)) as [[-> Hn]|(k & c' & -> & Hk & Ht)]; [left|right].
    + split; [done|]. intros [|k] c' Hk; simpl in Hk; [congruence|eauto].
    + exists (S k), c'. split; [lia|done].
Qed.

Lemma get_slot_nat st (i : nat) c :
  buffer_cache st !! i = Some c → get_slot st (Z.of_nat i) = Ok c.
Proof.
  intros Hl. unfold get_slot, zget. destruct (Z.ltb_spec (Z.of_nat i) 0); [lia|].
  by rewrite Nat2Z.id, Hl.
Qed.

Definition put (st : state) (i : nat) (c : file_cache) (d : D) : state :=
  mkState (<[i := c]> (buffer_cache st)) (lookup_start_index st) d.

Lemma set_slot_nat st (i : nat) c :
  (i < length (buffer_cache st))%nat →
  set_slot st (Z.of_nat i) c = Ok (put st i c (filesys_disk st)).
Proof.
  intros Hl. unfold set_slot. rewrite zset_Some by lia. unfold mbind; simpl.
  by rewrite Nat2Z.id.
Qed.

(** Holders after the replacement of one buffer. *)
Lemma holder_put st i c c' d s j x :
  buffer_cache st !! i = Some c →
  holder (put st i c' d) s j x ↔
    (j = i ∧ x = c' ∧ allocated c' = true ∧ sector_no c' = s) ∨ (j ≠ i ∧ holder st s j x).
Proof.
  intros Hl. pose proof (lookup_lt_Some _ _ _ Hl). unfold holder, put; simpl.
  destruct (decide (j = i)) as [->|].
  - rewrite list_lookup_insert_eq by done. naive_solver.
  - rewrite list_lookup_insert_ne by done. naive_solver.
Qed.

(** The general step: buffer [i] becomes [c'] and the disk [d'], where every
    sector's reader sees what [v] says. *)
Lemma put_inv st i c c' d' :
  cache_inv st → buffer_cache st !! i = Some c → length (data c') = 512%nat →
  capacity d' = capacity (filesys_disk st) →
  (* a newly cached sector is in range and cached nowhere else *)
  (allocated c' = true → 0 <= sector_no c' < capacity d' ∧
     ∀ j x, holder st (sector_no c') j x → j = i) →
  (* clean buffers still agree with the disk *)
  (allocated c' = true → dirty c' = false → disk_read d' (sector_no c') = Ok (data c')) →
  (∀ s j x, j ≠ i → holder st s j x → dirty x = false → disk_read d' s = Ok (data x)) →
  cache_inv (put st i c' d').
Proof.
  intros Hi Hl Hd Hc Hnew Hcl Hoth. split; simpl.
  - rewrite length_insert. apply Hi.
  - apply Hi.
  - intros j x. destruct (decide (j = i)) as [->|].
    + rewrite list_lookup_insert_eq by (by eapply lookup_lt_Some). by intros [= <-].
    + rewrite list_lookup_insert_ne by done. apply Hi.
  - intros s j k x y Hx Hy. apply (holder_put _ _ _ _ _ _ _ _ Hl) in Hx.
    apply (holder_put _ _ _ _ _ _ _ _ Hl) in Hy.
    destruct Hx as [(->&->&Ha&Hs)|[Hj Hx]], Hy as [(->&->&Ha'&Hs')|[Hk Hy]]; try done.
    + subst s. destruct (Hnew Ha) as [_ Hu]. exfalso. eauto.
    + subst s. destruct (Hnew Ha') as [_ Hu]. exfalso. eauto.
    + eapply inv_unique; eauto.
  - intros s j x Hx. rewrite (holder_put _ _ _ _ _ _ _ _ Hl) in Hx.
    destruct Hx as [(->&->&Ha&<-)|[Hj Hx]]; [by apply Hnew|]. rewrite Hc. by eapply inv_range.
  - intros s j x Hx Hdx. rewrite (holder_put _ _ _ _ _ _ _ _ Hl) in Hx.
    destruct Hx as [(->&->&Ha&<-)|[Hj Hx]]; [by apply Hcl|]. eauto.
Qed.
Lemma no_new_holder_put st i c c' d' :
  buffer_cache st !! i = Some c →
  (allocated c' = true → allocated c = true ∧ sector_no c' = sector_no c) →
  no_new_holder st (put st i c' d').
Proof.
  intros Hl Hc s j x Hx. apply (holder_put _ _ _ _ _ _ _ _ Hl) in Hx as [(->&->&Ha&<-)|[_ Hx]].
  - destruct (Hc Ha) as [Ha' Hs]. exists c. by repeat split.
  - by exists x.
Qed.

(** What readers see after the step, sector by sector. *)
Lemma view_put_new st i c c' d' s :
  cache_inv (put st i c' d') → buffer_cache st !! i = Some c → holds s c' = true →
  view (put st i c' d') s = Ok (data c').
Proof.
  intros Hi Hl Hs%holds_spec. apply (view_holder _ _ i); [done|].
  apply (holder_put _ _ _ _ _ _ _ _ Hl). left. tauto.
Qed.

Lemma view_put_old st i c c' d' s :
  cache_inv st → buffer_cache st !! i = Some c → holds s c = true → holds s c' = false →
  view (put st i c' d') s = disk_read d' s.
Proof.
  intros Hi Hl Hs%holds_spec Hs'. rewrite view_none; [done|]. intros j x Hx.
  apply (holder_put _ _ _ _ _ _ _ _ Hl) in Hx as [(->&->&Hx)|[Hj Hx]].
  - apply holds_spec in Hx. congruence.
  - apply Hj. eapply inv_unique; [done|done|]. split; [done|tauto].
Qed.

Lemma view_put_other st i c c' d' s :
  cache_inv st → cache_inv (put st i c' d') → buffer_cache st !! i = Some c →
  holds s c = false → holds s c' = false →
  disk_read d' s = disk_read (filesys_disk st) s →
  view (put st i c' d') s = view st s.
Proof.
  intros Hi Hi' Hl Hs Hs' Hd. destruct (holder_dec st s) as [(j & x & Hx)|Hn].
  - rewrite (view_holder st s j x) by done. apply (view_holder _ _ j); [done|].
    apply (holder_put _ _ _ _ _ _ _ _ Hl). right. split; [|done]. intros ->.
    destruct Hx as (Hl' & Hx). simplify_eq. apply holds_spec in Hx. congruence.
  - rewrite (view_none st s) by done. rewrite view_none; [done|]. intros j x Hx.
    apply (holder_put _ _ _ _ _ _ _ _ Hl) in Hx as [(->&->&Hx)|[Hj Hx]].
    + apply holds_spec in Hx. congruence.
    + by eapply Hn.
Qed.

(** Moving the clock hand changes no contents. *)
Lemma with_start_inv st k : cache_inv st → 0 <= k < 64 → cache_inv (with_start st k).
Proof. intros [] ?. by split. Qed.

(** Clearing an [accessed] bit. *)
Lemma clear_accessed_ok st i c :
  cache_inv st → buffer_cache st !! i = Some c →
  let st' := put st i (mkCache (allocated c) (sector_no c) false (dirty c) (data c))
                 (filesys_disk st) in
  cache_inv st' ∧ same_view st st'.
Proof.
  intros Hi Hl st'. assert (cache_inv st') as Hi'.
  { eapply put_inv; simpl; eauto using inv_data.
    - intros Ha. assert (holder st (sector_no c) i c) as Hh by (by repeat split).
      split; [by eapply inv_range|]. intros. by eapply inv_unique.
    - intros Ha. apply (inv_clean _ Hi _ i). done.
    - intros s j x _ Hx. apply (inv_clean _ Hi _ _ _ Hx). }
  split; [done|]. split; [|done]. intros s.
  destruct (holds s c) eqn:E.
  - unfold st'. erewrite view_put_new by (simpl; eauto). apply holds_spec in E. symmetry.
    apply (view_holder _ _ i c); [done|]. split; [done|tauto].
  - by eapply view_put_other.
Qed.

(** Writing a buffer to its sector keeps the logical contents. *)
Lemma write_if_dirty_ok `{!DiskLaws D} st i c s :
  cache_inv st → holder st s i c →
  ∃ d', write_if_dirty st c = Ok (with_disk st d') ∧
    capacity d' = capacity (filesys_disk st) ∧ disk_read d' s = Ok (data c) ∧
    ∀ s', s' ≠ s → disk_read d' s' = disk_read (filesys_disk st) s'.
Proof.
  intros Hi Hh. pose proof (inv_range _ Hi _ _ _ Hh) as Hr. unfold write_if_dirty.
  destruct Hh as (Hl & Ha & Hs). destruct (dirty c) eqn:Ed.
  - destruct (disk_write_ok (filesys_disk st) s (data c)) as (d' & E & Hc & Hw & Ho);
      [done|by eapply inv_data|].
    exists d'. rewrite Hs, E. by split.
  - exists (filesys_disk st). splits; try done; [by destruct st|].
    by apply (inv_clean _ Hi s i c).
Qed.

(** Eviction: write the buffer out if dirty and give it up. *)
Definition evicted (c : file_cache) : file_cache :=
  mkCache false (sector_no c) (accessed c) (dirty c) (data c).

Lemma holds_evicted s c : holds s (evicted c) = false.
Proof. unfold holds; simpl. apply andb_false_r. Qed.

Lemma evict_ok `{!DiskLaws D} st i c :
  cache_inv st → buffer_cache st !! i = Some c → allocated c = true →
  ∃ d', write_if_dirty st c = Ok (with_disk st d') ∧
    cache_inv (put st i (evicted c) d') ∧ same_view st (put st i (evicted c) d').
Proof.
  intros Hi Hl Ha. assert (holder st (sector_no c) i c) as Hh by (by repeat split).
  destruct (write_if_dirty_ok st i c (sector_no c)) as (d' & E & Hc & Hw & Ho); [done..|].
  exists d'. split; [done|]. assert (cache_inv (put st i (evicted c) d')) as Hi'.
  { eapply put_inv; simpl; eauto using inv_data; try done.
    intros s j x Hj Hx Hd. rewrite Ho; [by eapply inv_clean|]. intros ->.
    apply Hj. by eapply inv_unique. }
  split; [done|]. split; [|done]. intros s. destruct (holds s c) eqn:Es.
  - erewrite view_put_old by eauto using holds_evicted. apply holds_spec in Es as [_ <-].
    by rewrite (view_holder st _ i c), Hw by done.
  - eapply view_put_other; eauto using holds_evicted. apply Ho. intros ->.
    assert (holds (sector_no c) c = true) by (by apply holds_spec). congruence.
Qed.

(** ** The clock *)

(** Buffers with their [accessed] bit set: each unsuccessful step of the
    clock removes one. *)
Definition accessed_count (st : state) : nat :=
  length (filter (λ c, accessed c = true) (buffer_cache st)).

Lemma accessed_count_clear st i c c' d :
  buffer_cache st !! i = Some c → accessed c = true → accessed c' = false →
  S (accessed_count (put st i c' d)) = accessed_count st.
Proof.
  intros Hl Ha Ha'. unfold accessed_count, put; simpl.
  rewrite (insert_take_drop _ _ _ (lookup_lt_Some _ _ _ Hl)).
  rewrite <- (take_drop_middle _ _ _ Hl) at 3. rewrite !filter_app, !length_app.
  rewrite !filter_cons. rewrite Ha, Ha'. simpl. lia.
Qed.

Definition all_allocated (st : state) : Prop :=
  ∀ i c, buffer_cache st !! i = Some c → allocated c = true.

(** The clock always stops, on a freed buffer, with the contents unchanged. *)
Lemma clock_loop_ok `{!DiskLaws D} fuel (i : nat) st :
  cache_inv st → all_allocated st → (i < 64)%nat → (accessed_count st < fuel)%nat →
  ∃ (k : nat) c st', clock_loop fuel (Z.of_nat i) st = Ok (Z.of_nat k, st') ∧
    cache_inv st' ∧ same_view st st' ∧ no_new_holder st st' ∧
    buffer_cache st' !! k = Some c ∧ allocated c = false.
Proof.
  revert i st. induction fuel as [|fuel IH]; intros i st Hi Hall Hlt Hf; [lia|].
  destruct (lookup_lt_is_Some_2 (buffer_cache st) i) as [c Hl]; [by rewrite (inv_length _ Hi)|].
  assert (Z.of_nat (S i mod 64) = (Z.of_nat i + 1) mod BUFFER_CACHE_SIZE) as Hmod.
  { unfold BUFFER_CACHE_SIZE. rewrite Nat2Z.inj_mod. f_equal; lia. }
  pose proof (Nat.mod_upper_bound (S i) 64) as Hub.
  simpl. rewrite (get_slot_nat _ _ _ Hl). unfold mbind at 1; simpl.
  destruct (accessed c) eqn:Ea.
  - rewrite set_slot_nat by (by rewrite (inv_length _ Hi)). unfold mbind; simpl.
    destruct (clear_accessed_ok st i c Hi Hl) as [Hi' Hv]. rewrite <- Hmod.
    edestruct (IH (S i mod 64)%nat) as (k & c' & st' & E & Hi'' & Hv' & Hn & Hk); [exact Hi'| |lia| |].
    + intros j x. simpl. destruct (decide (j = i)) as [->|].
      * rewrite list_lookup_insert_eq by (by eapply lookup_lt_Some). intros [= <-]. simpl. eauto.
      * rewrite list_lookup_insert_ne by done. eauto.
    + eapply Nat.succ_lt_mono. erewrite accessed_count_clear; eauto.
    + exists k, c', st'. splits; try done; [by eapply same_view_trans| |tauto..].
      eapply no_new_holder_trans; [|exact Hn]. by eapply no_new_holder_put.
  - set (st1 := with_start st _). assert (cache_inv st1) as Hi1.
    { apply with_start_inv; [done|]. rewrite <- Hmod. lia. }
    destruct (evict_ok st1 i c) as (d' & E & Hi' & Hv); [done..|by eapply Hall|].
    rewrite E. unfold mbind at 1; simpl. unfold evicted in Hi', Hv. rewrite Ea in Hi', Hv.
    rewrite set_slot_nat by (simpl; by rewrite (inv_length _ Hi)). unfold mbind; simpl.
    eexists i, _, _. splits; [reflexivity|exact Hi'|exact Hv| | |].
    + by eapply (no_new_holder_put st1).
    + simpl. apply list_lookup_insert_eq. by eapply lookup_lt_Some.
    + done.
Qed.

Lemma find_victim_ok `{!DiskLaws D} st :
  cache_inv st →
  ∃ (k : nat) c st', buffer_cache_find_victim st = Ok (Z.of_nat k, st') ∧
    cache_inv st' ∧ same_view st st' ∧ no_new_holder st st' ∧
    buffer_cache st' !! k = Some c ∧ allocated c = false.
Proof.
  intros Hi. unfold buffer_cache_find_victim.
  destruct (search_spec (λ c, negb (allocated c)) (buffer_cache st) 0)
    as [[-> Hn]|(k & c & -> & Hk & Ht)].
  - change (0 <=? -1) with false. cbv iota.
    pose proof (inv_start _ Hi). rewrite <- (Z2Nat.id (lookup_start_index st)) by lia.
    apply clock_loop_ok; [done| |lia|].
    + intros i c Hc%Hn. by apply negb_false_iff in Hc.
    + unfold accessed_count, clock_fuel. pose proof (length_filter (λ c, accessed c = true) (buffer_cache st)).
      rewrite (inv_length _ Hi) in *. lia.
  - destruct (Z.leb_spec 0 (0 + Z.of_nat k)); [|lia]. rewrite Z.add_0_l.
    exists k, c, st. splits; try done.
    { intros s j x Hx. by exists x. }
    by apply negb_true_iff.
Qed.

(** ** Reading and writing through the cache *)

(** Loading a sector nobody caches into an unused buffer. *)
Lemma load_ok st k c c' :
  cache_inv st → buffer_cache st !! k = Some c → allocated c = false →
  (∀ i x, ¬ holder st (sector_no c') i x) →
  0 <= sector_no c' < capacity (filesys_disk st) → allocated c' = true →
  disk_read (filesys_disk st) (sector_no c') = Ok (data c') → length (data c') = 512%nat →
  cache_inv (put st k c' (filesys_disk st)) ∧ same_view st (put st k c' (filesys_disk st)).
Proof.
  intros Hi Hk Ha Hn Hr Ha' Hd Hlen.
  assert (cache_inv (put st k c' (filesys_disk st))) as Hi'.
  { eapply put_inv; eauto using inv_clean.
    intros _. split; [done|]. intros j x Hx. by apply Hn in Hx. }
  split; [done|]. split; [|done]. intros s. destruct (holds s c') eqn:E.
  - erewrite view_put_new by eauto. apply holds_spec in E as [_ <-].
    by rewrite (view_none st).
  - eapply view_put_other; eauto. unfold holds. rewrite Ha. apply andb_false_r.
Qed.

(** After [locate] the sector is cached at the returned index. *)
Lemma locate_ok `{!DiskLaws D} st s :
  cache_inv st → 0 <= s < capacity (filesys_disk st) →
  ∃ (k : nat) c st', locate st s = Ok (Z.of_nat k, st') ∧
    cache_inv st' ∧ same_view st st' ∧ holder st' s k c.
Proof.
  intros Hi Hr. unfold locate.
  destruct (search_spec (holds s) (buffer_cache st) 0)
    as [[-> Hn]|(k & c & -> & Hk & Ht)].
  - change (-1 <? 0) with true. cbv iota.
    destruct (find_victim_ok st Hi) as (k & c & st' & E & Hi' & Hv & Hnew & Hk & Ha).
    rewrite E. unfold mbind at 1; simpl. rewrite (get_slot_nat _ _ _ Hk). unfold mbind at 1; simpl.
    assert (∀ i x, ¬ holder st' s i x) as Hnone.
    { intros i x [y (Hy & Hh)]%Hnew. specialize (Hn _ _ Hy). apply holds_spec in Hh. congruence. }
    destruct (disk_read_ok (filesys_disk st') s) as (bs & Er & Hlen); [destruct Hv; lia|].
    rewrite Er. unfold mbind at 1; simpl.
    rewrite set_slot_nat by (by eapply lookup_lt_Some). unfold mbind; simpl.
    edestruct (load_ok st' k c (mkCache true s true (dirty c) bs)) as [Hi'' Hv'];
      simpl; eauto; [destruct Hv; lia|].
    eexists k, (mkCache true s true (dirty c) bs), _.
    splits; [reflexivity|done|by eapply same_view_trans|].
    split; [|by split]. simpl. apply list_lookup_insert_eq. by eapply lookup_lt_Some.
  - destruct (Z.ltb_spec (0 + Z.of_nat k) 0); [lia|].
    exists k, c, st. splits; try done.
    split; [done|by apply holds_spec].
Qed.

Lemma in_sector_spec size offset :
  in_sector size offset = true ↔ 0 <= size ∧ 0 <= offset ∧ offset + size <= 512.
Proof. unfold in_sector, DISK_SECTOR_SIZE. rewrite !andb_true_iff, !Z.leb_le. tauto. Qed.

Lemma patch_bytes_length bs src offset :
  length bs = 512%nat → 0 <= offset → offset + Z.of_nat (length src) <= 512 →
  length (patch_bytes bs src offset) = 512%nat.
Proof.
  intros. unfold patch_bytes. rewrite !length_app, length_take, length_drop. lia.
Qed.

Lemma buffer_cache_read_ok `{!DiskLaws D} st s size offset :
  cache_inv st → 0 <= s < capacity (filesys_disk st) → in_sector size offset = true →
  ∃ bs st', buffer_cache_read st s size offset = Ok (sub_bytes bs size offset, st') ∧
    view st s = Ok bs ∧ cache_inv st' ∧ same_view st st'.
Proof.
  intros Hi Hr Hin. destruct (locate_ok st s Hi Hr) as (k & c & st' & E & Hi' & Hv & Hh).
  exists (data c), st'. unfold buffer_cache_read. rewrite E. unfold mbind at 1; simpl.
  rewrite (get_slot_nat _ _ c) by apply Hh. unfold mbind at 1; simpl. rewrite Hin.
  splits; try done. destruct Hv as [<- _]. by eapply view_holder.
Qed.

Lemma buffer_cache_write_ok `{!DiskLaws D} st s src offset :
  cache_inv st → 0 <= s < capacity (filesys_disk st) →
  in_sector (Z.of_nat (length src)) offset = true →
  ∃ bs st', buffer_cache_write st s src offset = Ok st' ∧ view st s = Ok bs ∧
    cache_inv st' ∧ capacity (filesys_disk st') = capacity (filesys_disk st) ∧
    view st' s = Ok (patch_bytes bs src offset) ∧ ∀ s', s' ≠ s → view st' s' = view st s'.
Proof.
  intros Hi Hr Hin. destruct (locate_ok st s Hi Hr) as (k & c & st' & E & Hi' & Hv & Hh).
  unfold buffer_cache_write. rewrite E. unfold mbind at 1; simpl.
  rewrite (get_slot_nat _ _ c) by apply Hh. unfold mbind at 1; simpl. rewrite Hin.
  apply in_sector_spec in Hin. destruct Hv as [Hv Hcap].
  pose proof (view_holder _ _ _ _ Hi' Hh) as Hvs. pose proof Hh as (Hk & Ha & Hs).
  rewrite set_slot_nat by (by eapply lookup_lt_Some). set (c' := mkCache _ _ _ _ _).
  assert (cache_inv (put st' k c' (filesys_disk st'))) as Hi''.
  { eapply put_inv; simpl; eauto using inv_clean; [|rewrite Ha, Hs; intros _|done].
    - apply patch_bytes_length; [by eapply inv_data|lia..].
    - split; [lia|]. intros. by eapply inv_unique. }
  exists (data c). eexists. splits; [reflexivity| |done|done| |].
  - by rewrite <- Hv.
  - eapply view_put_new; eauto. by apply holds_spec.
  - intros s' Hne. rewrite <- Hv. eapply view_put_other; eauto; unfold holds; simpl;
      (destruct (Z.eqb_spec (sector_no c) s'); [congruence|done]).
Qed.

Lemma buffer_cache_release_ok `{!DiskLaws D} st s :
  cache_inv st →
  ∃ b st', buffer_cache_release st s = Ok (b, st') ∧ cache_inv st' ∧ same_view st st' ∧
    ∀ i c, ¬ holder st' s i c.
Proof.
  intros Hi. unfold buffer_cache_release.
  destruct (search_spec (holds s) (buffer_cache st) 0)
    as [[-> Hn]|(k & c & -> & Hk & Ht)].
  - change (-1 <? 0) with true. cbv iota. exists false, st.
    splits; try done. intros i c (Hl & Hh). apply Hn in Hl. apply holds_spec in Hh. congruence.
  - destruct (Z.ltb_spec (0 + Z.of_nat k) 0); [lia|]. rewrite Z.add_0_l.
    rewrite (get_slot_nat _ _ _ Hk). unfold mbind at 1; simpl. apply holds_spec in Ht.
    destruct (evict_ok st k c) as (d' & E & Hi' & Hv); [done|done|tauto|].
    rewrite E. unfold mbind at 1; simpl.
    rewrite set_slot_nat by (simpl; by eapply lookup_lt_Some). unfold mbind; simpl.
    eexists true, _. splits; [reflexivity|exact Hi'|exact Hv|].
    intros i x [(->&->&Hx&_)|[Hj Hx]]%(holder_put _ _ _ _ _ _ _ _ Hk); [done|].
    apply Hj. eapply inv_unique; [exact Hi|exact Hx|]. split; [done|tauto].
Qed.

(** ** Write-back *)

(** Write-back goes through the buffers; [done] have been written. *)
Lemma write_back_loop_ok `{!DiskLaws D} cs st st0 :
  cache_inv st0 → capacity (filesys_disk st) = capacity (filesys_disk st0) →
  buffer_cache st = buffer_cache st0 → lookup_start_index st = lookup_start_index st0 →
  (∀ c, c ∈ cs → c ∈ buffer_cache st0) →
  (∀ s c, c ∈ buffer_cache st0 → c ∉ cs → holds s c = true →
     disk_read (filesys_disk st) s = Ok (data c)) →
  (∀ s c, c ∈ buffer_cache st0 → dirty c = false → holds s c = true →
     disk_read (filesys_disk st) s = Ok (data c)) →
  (∀ s, (∀ i c, ¬ holder st0 s i c) →
     disk_read (filesys_disk st) s = disk_read (filesys_disk st0) s) →
  ∃ st', write_back_loop cs st = Ok st' ∧
    capacity (filesys_disk st') = capacity (filesys_disk st0) ∧
    buffer_cache st' = buffer_cache st0 ∧ lookup_start_index st' = lookup_start_index st0 ∧
    (∀ s c, c ∈ buffer_cache st0 → holds s c = true →
       disk_read (filesys_disk st') s = Ok (data c)) ∧
    (∀ s, (∀ i c, ¬ holder st0 s i c) →
       disk_read (filesys_disk st') s = disk_read (filesys_disk st0) s).
Proof.
  intros Hi. revert st. induction cs as [|c cs IH]; intros st Hcap Hb Hs Hsub Hdone Hclean Hno.
  { exists st. splits; try done. intros s c Hc. apply Hdone; [done|]. apply not_elem_of_nil. }
  simpl. assert (c ∈ buffer_cache st0) as Hc by (apply Hsub; left).
  apply list_elem_of_lookup in Hc as Hk. destruct Hk as [k Hk].
  assert (∀ c0, c0 ∈ cs → c0 ∈ buffer_cache st0) as Hsub' by (intros; apply Hsub; by right).
  destruct (allocated c && dirty c) eqn:E.
  - apply andb_true_iff in E as [Ha Hd].
    assert (holder st0 (sector_no c) k c) as Hh by (by repeat split).
    destruct (disk_write_ok (filesys_disk st) (sector_no c) (data c))
      as (d' & E & Hc' & Hw & Ho); [rewrite Hcap; by eapply inv_range|by eapply inv_data|].
    assert (∀ s c0, c0 ∈ buffer_cache st0 → holds s c0 = true → s = sector_no c → c0 = c) as Huniq.
    { intros s c0 [j Hj]%list_elem_of_lookup Hs0%holds_spec ->.
      assert (j = k) as -> by (eapply inv_unique; [done| |done]; split; [done|tauto]). congruence. }
    rewrite E. unfold mbind; simpl. apply IH; simpl; try done.
    + by rewrite Hc'.
    + intros s c0 Hc0 Hn Hs0. destruct (decide (s = sector_no c)) as [->|Hne].
      * by rewrite Hw, (Huniq _ c0 Hc0 Hs0).
      * rewrite Ho by done. apply Hdone; try done.
        intros [->|]%elem_of_cons; [|done]. apply holds_spec in Hs0 as [_ <-]. done.
    + intros s c0 Hc0 Hcl Hs0. destruct (decide (s = sector_no c)) as [->|Hne].
      * by rewrite Hw, (Huniq _ c0 Hc0 Hs0).
      * rewrite Ho by done. eauto.
    + intros s Hn. rewrite Ho; [eauto|]. intros ->. by eapply Hn.
  - apply IH; try done. intros s c0 Hc0 Hn Hs0.
    destruct (decide (c0 ∈ c :: cs)) as [Hin|]; [|by apply Hdone].
    apply elem_of_cons in Hin as [->|]; [|done].
    apply Hclean; try done. apply holds_spec in Hs0 as [Ha _]. by rewrite Ha in E.
Qed.

Lemma buffer_cache_write_back_ok `{!DiskLaws D} st :
  cache_inv st →
  ∃ st', buffer_cache_write_back st = Ok st' ∧ cache_inv st' ∧ same_view st st' ∧
    ∀ s, disk_read (filesys_disk st') s = view st s.
Proof.
  intros Hi. unfold buffer_cache_write_back.
  destruct (write_back_loop_ok (buffer_cache st) st st)
    as (st' & E & Hcap & Hb & Hs & Hdone & Hno); try done.
  { intros s c [j Hj]%list_elem_of_lookup Hd Hh%holds_spec. eapply inv_clean; [done| |done].
    split; [done|tauto]. }
  assert (∀ s i c, holder st' s i c ↔ holder st s i c) as Hiff.
  { intros s i c. unfold holder. by rewrite Hb. }
  assert (∀ s i c, holder st s i c → disk_read (filesys_disk st') s = Ok (data c)) as Hrd.
  { intros s i c (Hl & Hh). apply Hdone; [by eapply list_elem_of_lookup_2|by apply holds_spec]. }
  assert (∀ s, disk_read (filesys_disk st') s = view st s) as Hall.
  { intros s. destruct (holder_dec st s) as [(i & c & Hh)|Hn].
    - rewrite (view_holder _ _ _ _ Hi Hh). eauto.
    - rewrite view_none by done. eauto. }
  assert (cache_inv st') as Hi'.
  { split; rewrite ?Hb, ?Hs, ?Hcap; try apply Hi.
    - intros s i j c c'. rewrite !Hiff. apply Hi.
    - intros s i c. rewrite Hiff. apply Hi.
    - intros s i c. rewrite Hiff. eauto. }
  exists st'. splits; try done. split; [|done]. intros s.
  destruct (holder_dec st s) as [(i & c & Hh)|Hn].
  - rewrite (view_holder _ _ _ _ Hi Hh). apply (view_holder _ _ i); [done|by apply Hiff].
  - rewrite view_none; [done|]. intros i c. by rewrite Hiff.
Qed.

Lemma buffer_cache_init_inv d : cache_inv (buffer_cache_init (static_state d)).
Proof.
  assert (∀ s i c, ¬ holder (buffer_cache_init (static_state d)) s i c) as Hn.
  { intros s i c (Hl & Ha & _). cbn [buffer_cache buffer_cache_init static_state] in Hl.
    rewrite list_lookup_fmap in Hl. apply fmap_Some in Hl as (x & _ & ->). done. }
  split; try (intros; exfalso; by eapply Hn).
  - done.
  - done.
  - intros i c Hl. cbn [buffer_cache buffer_cache_init static_state] in Hl.
    rewrite list_lookup_fmap in Hl. apply fmap_Some in Hl as (x & Hx & ->).
    apply lookup_replicate in Hx as [-> _]. done.
Qed.

(** * The specification: an array of sectors *)

(** The operations of the cache's interface. *)
Inductive op :=
  | Read (sec_no size offset : Z)
  | Write (sec_no : Z) (buffer : list Z) (offset : Z)
  | WriteBack
  | Release (sec_no : Z).

(** Their effect on an array of sectors; only reads answer anything. *)
Definition spec_op (a : list (list Z)) (o : op) : option (list Z * list (list Z)) :=
  match o with
  | Read s size offset =>
      bs ← zget a s; if in_sector size offset then Some (sub_bytes bs size offset, a) else None
  | Write s src offset =>
      bs ← zget a s;
      if in_sector (Z.of_nat (length src)) offset
      then a' ← zset a s (patch_bytes bs src offset); Some ([], a') else None
  | WriteBack | Release _ => Some ([], a)
  end.

Definition cache_op (st : state) (o : op) : outcome (list Z * state) :=
  match o with
  | Read s size offset => buffer_cache_read st s size offset
  | Write s src offset => st ← buffer_cache_write st s src offset; Ok ([], st)
  | WriteBack => st ← buffer_cache_write_back st; Ok ([], st)
  | Release s => '(_, st) ← buffer_cache_release st s; Ok ([], st)
  end.

Fixpoint spec_run (a : list (list Z)) (os : list op) : option (list (list Z) * list (list Z)) :=
  match os with
  | [] => Some ([], a)
  | o :: os => '(r, a) ← spec_op a o; '(rs, a) ← spec_run a os; Some (r :: rs, a)
  end.
Fixpoint cache_run (st : state) (os : list op) : outcome (list (list Z) * state) :=
  match os with
  | [] => Ok ([], st)
  | o :: os => '(r, st) ← cache_op st o; '(rs, st) ← cache_run st os; Ok (r :: rs, st)
  end.

(** The state [st] implements the array [a]. *)
Definition represents (st : state) (a : list (list Z)) : Prop :=
  cache_inv st ∧ Z.of_nat (length a) = capacity (filesys_disk st) ∧
  ∀ s bs, zget a s = Some bs → view st s = Ok bs.

Lemma represents_same_view st st' a :
  represents st a → cache_inv st' → same_view st st' → represents st' a.
Proof.
  intros (Hi & Hl & Hv) Hi' [Hs Hc]. unfold represents. splits; [done|by rewrite Hc|].
  intros s bs Hz. rewrite Hs. eauto.
Qed.

Lemma cache_op_refines `{!DiskLaws D} st a o r a' :
  represents st a → spec_op a o = Some (r, a') →
  ∃ st', cache_op st o = Ok (r, st') ∧ represents st' a'.
Proof.
  intros Hrep Hs. pose proof Hrep as (Hi & Hl & Hv). destruct o as [s size off|s src off| |s]; simpl in *.
  - apply bind_Some in Hs as (bs & Hz & Hs). destruct (in_sector size off) eqn:Hin; [|done].
    simplify_eq. pose proof (zget_Some_range _ _ _ Hz).
    destruct (buffer_cache_read_ok st s size off) as (bs' & st' & E & Hbs & Hi' & Hv'); [done|lia|done|].
    rewrite (Hv _ _ Hz) in Hbs. simplify_eq. eauto using represents_same_view.
  - apply bind_Some in Hs as (bs & Hz & Hs). destruct (in_sector _ off) eqn:Hin; [|done].
    apply bind_Some in Hs as (a1 & Hset & Hs). simplify_eq. pose proof (zget_Some_range _ _ _ Hz).
    rewrite zset_Some in Hset by lia. simplify_eq.
    destruct (buffer_cache_write_ok st s src off)
      as (bs' & st' & E & Hbs & Hi' & Hc & Hw & Ho); [done|lia|done|].
    rewrite (Hv _ _ Hz) in Hbs. simplify_eq. rewrite E. unfold mbind; simpl.
    eexists. split; [reflexivity|]. unfold represents.
    splits; [done|by rewrite length_insert, Hc|].
    intros s' bs. rewrite zget_insert by lia. destruct (Z.eqb_spec s s') as [<-|].
    + intros [= <-]. done.
    + intros Hz'. rewrite Ho by done. eauto.
  - simplify_eq. destruct (buffer_cache_write_back_ok st) as (st' & E & Hi' & Hv' & _); [done|].
    rewrite E. unfold mbind; simpl. eauto using represents_same_view.
  - simplify_eq. destruct (buffer_cache_release_ok st s) as (b & st' & E & Hi' & Hv' & _); [done|].
    rewrite E. unfold mbind; simpl. eauto using represents_same_view.
Qed.

Lemma cache_run_refines `{!DiskLaws D} os st a rs a' :
  represents st a → spec_run a os = Some (rs, a') →
  ∃ st', cache_run st os = Ok (rs, st') ∧ represents st' a'.
Proof.
  revert st a rs. induction os as [|o os IH]; intros st a rs Hrep Hs; simpl in *.
  { simplify_eq. eauto. }
  apply bind_Some in Hs as ([r a1] & H1 & Hs). apply bind_Some in Hs as ([rs' a2] & H2 & Hs).
  simplify_eq. destruct (cache_op_refines _ _ _ _ _ Hrep H1) as (st1 & E1 & Hrep1).
  destruct (IH _ _ _ Hrep1 H2) as (st2 & E2 & Hrep2). exists st2.
  rewrite E1. unfold mbind; simpl. by rewrite E2.
Qed.

(** The contents of a disk as an array. *)
Definition disk_is (d : D) (a : list (list Z)) : Prop :=
  Z.of_nat (length a) = capacity d ∧ ∀ s bs, zget a s = Some bs → disk_read d s = Ok bs.

Lemma init_represents d a :
  disk_is d a → represents (buffer_cache_init (static_state d)) a.
Proof.
  intros [Hl Hd]. unfold represents. splits; [apply buffer_cache_init_inv|done|]. intros s bs Hz.
  rewrite view_none; [by apply Hd|]. intros i c (Hx & Ha & _).
  cbn [buffer_cache buffer_cache_init static_state] in Hx.
  rewrite list_lookup_fmap in Hx. by apply fmap_Some in Hx as (x & _ & ->).
Qed.

(** C7: The buffer cache is transparent.  Start with the initialised cache
    over a disk holding the sectors [a] and run any sequence of reads,
    writes, write-backs and releases that stays within the disk: every
    operation returns, every read answers what the array of sectors answers,
    and a final write-back leaves the disk itself holding the final array. *)
Theorem buffer_cache_refines_array `{!DiskLaws D} d a os rs a' :
  disk_is d a → spec_run a os = Some (rs, a') →
  ∃ st st', cache_run (buffer_cache_init (static_state d)) os = Ok (rs, st) ∧
    buffer_cache_write_back st = Ok st' ∧ disk_is (filesys_disk st') a'.
Proof.
  intros Hd Hs. destruct (cache_run_refines os _ a rs a' (init_represents _ _ Hd) Hs)
    as (st & E & Hi & Hl & Hv).
  destruct (buffer_cache_write_back_ok st Hi) as (st' & E' & _ & [_ Hc] & Hw).
  exists st, st'. splits; try done. split; [congruence|]. intros s bs Hz. rewrite Hw. eauto.
Qed.

(** The clock terminates.  In every state satisfying the invariant,
    [buffer_cache_find_victim] returns the index of an unused buffer, having
    written the victim back if it was dirty: no sector's contents change and
    the invariant is kept. *)
Theorem find_victim_total `{!DiskLaws D} st :
  cache_inv st →
  ∃ i c st', buffer_cache_find_victim st = Ok (i, st') ∧ get_slot st' i = Ok c ∧
    0 <= i < BUFFER_CACHE_SIZE ∧ allocated c = false ∧ cache_inv st' ∧
    ∀ s, view st' s = view st s.
Proof.
  intros Hi. destruct (find_victim_ok st Hi) as (k & c & st' & E & Hi' & [Hv _] & _ & Hk & Ha).
  exists (Z.of_nat k), c, st'. splits; try done; [by apply get_slot_nat|lia|].
  apply lookup_lt_Some in Hk. rewrite (inv_length _ Hi') in Hk. unfold BUFFER_CACHE_SIZE. lia.
Qed.

End Cache.
Arguments state D : clear implicits.

(** * A disk in memory *)

(** The instance of the disk interface used by the concrete runs: an array of
    512-byte sectors. *)
Definition ramdisk : Type := list (list Z).

#[global] Instance ramdisk_Disk : Disk ramdisk := {
  capacity l := Z.of_nat (length l);
  disk_read l s := bs ← of_option (zget l s); Ok (resize 512 0 bs);
  disk_write l s bs := of_option (zset l s bs)
}.

#[global] Instance ramdisk_laws : DiskLaws ramdisk.
Proof.
  split.
  - intros d s Hs. destruct (zget_is_Some d s Hs) as [bs E]. exists (resize 512 0 bs).
    simpl. rewrite E. split; [done|]. apply length_resize.
  - unfold ramdisk. intros d s bs Hs Hl. exists (<[Z.to_nat s := bs]> d). simpl.
    rewrite zset_Some by done. splits; try done.
    + apply (f_equal Z.of_nat), length_insert.
    + rewrite zget_insert, Z.eqb_refl by done. unfold mbind; simpl.
      f_equal. by apply resize_all_alt.
    + intros s' Hne. rewrite zget_insert by done. by destruct (Z.eqb_spec s s').
Qed.

Definition sample_ramdisk : ramdisk := replicate 70 (replicate 512 7).

Lemma sample_ramdisk_is : disk_is sample_ramdisk sample_ramdisk.
Proof.
  split; [done|]. intros s bs Hz. unfold disk_read; simpl. rewrite Hz. unfold mbind; simpl.
  unfold zget in Hz. destruct (s <? 0); [done|]. by apply lookup_replicate in Hz as [-> _].
Qed.

(** More sectors than buffers are touched, so dirty buffers are evicted. *)
Definition sample_ops : list op :=
  ((λ s, Write (Z.of_nat s) [Z.of_nat s; 1] 510) <$> seq 0 70) ++
  [Read 3 4 508; Release 69; Read 69 2 510; WriteBack; Read 0 2 510].

Lemma buffer_cache_refines_witness :
  ∃ a' st st', spec_run sample_ramdisk sample_ops =
      Some (replicate 70 [] ++ [[7; 7; 3; 1]; []; [69; 1]; []; [0; 1]], a') ∧
    cache_run (buffer_cache_init (static_state sample_ramdisk)) sample_ops =
      Ok (replicate 70 [] ++ [[7; 7; 3; 1]; []; [69; 1]; []; [0; 1]], st) ∧
    buffer_cache_write_back st = Ok st' ∧ disk_is (filesys_disk st') a'.
Proof.
  destruct (spec_run sample_ramdisk sample_ops) as [[rs a']|] eqn:E; [|by vm_compute in E].
  assert (rs = replicate 70 [] ++ [[7; 7; 3; 1]; []; [69; 1]; []; [0; 1]]) as ->.
  { assert (fst <$> spec_run sample_ramdisk sample_ops =
        Some (replicate 70 [] ++ [[7; 7; 3; 1]; []; [69; 1]; []; [0; 1]])) as E' by by vm_compute.
    rewrite E in E'. by injection E'. }
  destruct (buffer_cache_refines_array _ _ _ _ _ sample_ramdisk_is E) as (st & st' & Hrun & Hwb & Hd).
  exists a', st, st'. by splits.
Defined.

Lemma find_victim_total_witness :
  ∃ i c st', buffer_cache_find_victim (buffer_cache_init (static_state sample_ramdisk)) = Ok (i, st')
    ∧ get_slot st' i = Ok c ∧ 0 <= i < BUFFER_CACHE_SIZE ∧ allocated c = false.
Proof.
  destruct (find_victim_total _ (buffer_cache_init_inv sample_ramdisk))
    as (i & c & st' & E & Hg & Hr & Ha & _).
  exists i, c, st'. destruct Hr. by splits.
Defined.
