(* ===== verification/Arithmetic.v ===== *)
(** 64-bit division on the 32-bit target (lib/arithmetic.c): the routines the
    compiler calls for [/] and [%] on [long long].

    The x86 [divl] instruction is modelled with its divide error (#DE); the
    theorems show that the two-step and the normalising algorithm of [udiv64]
    never trap on a nonzero divisor and compute the exact quotient, and what
    the narrower return types of the remainder routines leave of the
    remainder. *)
From S2P Require Import Prelude.

Definition b32 : Z := 4294967296.

(** [asm ("divl %4")]: the 64-bit value [n1:n0] divided by [d], trapping when
    [d] is zero or the quotient needs more than 32 bits. *)
Definition divl (n d : Z) : outcome Z :=
  let n1 := u32 (Z.shiftr n 32) in
  let n0 := u32 n in
  if d =? 0 then Err DivideError
  else let q := (n1 * b32 + n0) / d in
       if q <? b32 then Ok q else Err DivideError.

Definition nlz (x : Z) : Z :=
  let n := 0 in
  let '(n, x) := if x <=? 0x0000FFFF then (n + 16, u32 (Z.shiftl x 16)) else (n, x) in
  let '(n, x) := if x <=? 0x00FFFFFF then (n + 8, u32 (Z.shiftl x 8)) else (n, x) in
  let '(n, x) := if x <=? 0x0FFFFFFF then (n + 4, u32 (Z.shiftl x 4)) else (n, x) in
  let '(n, x) := if x <=? 0x3FFFFFFF then (n + 2, u32 (Z.shiftl x 2)) else (n, x) in
  if x <=? 0x7FFFFFFF then n + 1 else n.

Definition udiv64 (n d : Z) : outcome Z :=
  if Z.shiftr d 32 =? 0 then
    let b := u64 (Z.shiftl 1 32) in
    let n1 := u32 (Z.shiftr n 32) in
    let n0 := u32 n in
    let d0 := u32 d in
    if d0 =? 0 then Err DivideError          (* n1 % d0 *)
    else
      q ← divl (u64 (u64 (b * (n1 mod d0)) + n0)) d0;
      Ok (u64 (q + u64 (b * (n1 / d0))))
  else if n <? d then Ok 0
  else
    let d1 := u32 (Z.shiftr d 32) in
    let s := nlz d1 in
    q ← divl (Z.shiftr n 1) (u32 (Z.shiftr (u64 (Z.shiftl d s)) 32));
    let q := Z.shiftr q (31 - s) in
    Ok (if u64 (n - u64 (u64 (q - 1) * d)) <? d then u64 (q - 1) else q).

(** The return types of the remainder routines are 32 bits wide. *)
Definition umod64 (n d : Z) : outcome Z :=
  q ← udiv64 n d; Ok (u32 (u64 (n - u64 (d * q)))).

Definition sdiv64 (n d : Z) : outcome Z :=
  let n_abs := if 0 <=? n then u64 n else u64 (- u64 n) in
  let d_abs := if 0 <=? d then u64 d else u64 (- u64 d) in
  q_abs ← udiv64 n_abs d_abs;
  Ok (if eqb (n <? 0) (d <? 0) then s64 q_abs else s64 (- s64 q_abs)).

Definition smod64 (n d : Z) : outcome Z :=
  q ← sdiv64 n d; Ok (s32 (s64 (n - s64 (d * q)))).

Definition __divdi3 (n d : Z) : outcome Z := sdiv64 n d.
Definition __moddi3 (n d : Z) : outcome Z := smod64 n d.
Definition __udivdi3 (n d : Z) : outcome Z := udiv64 n d.
Definition __umoddi3 (n d : Z) : outcome Z := umod64 n d.

(** * Leading zeros *)

Ltac nlz_step :=
  match goal with
  | |- context [?x <=? ?c] => destruct (Z.leb_spec x c); rewrite ?Z.shiftl_mul_pow2 by lia;
      rewrite ?(u32_small _) by lia
  end.

(** [nlz] counts leading zeros: shifting by it sets the top bit. *)
Lemma nlz_spec x :
  0 < x < b32 →
  0 <= nlz x <= 31 ∧ 2147483648 <= x * 2 ^ nlz x < b32.
Proof.
  unfold b32. intros Hx. unfold nlz. repeat (nlz_step; simpl); lia.
Qed.

(** * Unsigned division *)

(** [divl] is exact when the quotient fits. *)
Lemma divl_ok n d :
  0 <= n < b32 * b32 → 0 < d → n < b32 * d → divl n d = Ok (n / d).
Proof.
  unfold b32. intros Hn Hd Hlt. unfold divl, b32, u32. rewrite Z.shiftr_div_pow2 by lia.
  change (2 ^ 32) with 4294967296.
  rewrite (Z.mod_small (n / _)) by (split; [apply Z.div_pos; lia|apply Z.div_lt_upper_bound; lia]).
  rewrite (Z.mul_comm (n / _)), <- Z.div_mod by lia.
  destruct (Z.eqb_spec d 0); [lia|].
  destruct (Z.ltb_spec (n / d) 4294967296) as [|Hge]; [done|].
  assert (n / d < 4294967296) by (apply Z.div_lt_upper_bound; lia). lia.
Qed.

(** A divisor of at most 32 bits: long division in two digits. *)
Lemma udiv64_short n d :
  0 <= n < b32 * b32 → 0 < d < b32 → udiv64 n d = Ok (n / d).
Proof.
  unfold b32. intros Hn Hd. unfold udiv64.
  rewrite !Z.shiftr_div_pow2 by lia. change (2 ^ 32) with 4294967296.
  rewrite (Z.div_small d) by lia. simpl (0 =? 0). cbv iota zeta.
  change (u64 (Z.shiftl 1 32)) with 4294967296.
  pose proof (Z.div_mod n 4294967296 ltac:(lia)) as Hdm.
  pose proof (Z.mod_pos_bound n 4294967296 ltac:(lia)) as H0.
  set (n1 := n / 4294967296) in *. set (n0 := n mod 4294967296) in *.
  assert (0 <= n1 < 4294967296) as H1 by lia.
  replace (u32 n) with n0 by done. rewrite (u32_small n1), (u32_small d) by lia.
  destruct (Z.eqb_spec d 0); [lia|].
  pose proof (Z.div_mod n1 d ltac:(lia)) as Hdm1.
  pose proof (Z.mod_pos_bound n1 d ltac:(lia)) as Hr1.
  set (q1 := n1 / d) in *. set (r1 := n1 mod d) in *.
  assert (0 <= q1 <= n1) by nia.
  rewrite (u64_small (4294967296 * r1)), (u64_small (_ + n0)) by lia.
  rewrite divl_ok by (unfold b32; nia). unfold mbind; simpl. f_equal.
  assert (n / d = (4294967296 * r1 + n0) / d + 4294967296 * q1) as ->.
  { rewrite <- Z.div_add by lia. f_equal. nia. }
  assert ((4294967296 * r1 + n0) / d < 4294967296) by (apply Z.div_lt_upper_bound; nia).
  assert (0 <= (4294967296 * r1 + n0) / d) by (apply Z.div_pos; lia).
  rewrite (u64_small (4294967296 * q1)) by lia. rewrite u64_small; [done|]. nia.
Qed.

(** The estimate of the normalising algorithm is at most one too large: [m] is
    the divisor [d] with its low [k + 1] bits cleared. *)
Lemma quotient_estimate n d m k :
  0 <= k <= 31 → 0 <= n < b32 * b32 → b32 * 2 ^ k <= m → m <= d <= m + 2 ^ (k + 1) - 1 →
  n / d <= n / m <= n / d + 1.
Proof.
  unfold b32. intros Hk Hn Hm Hd.
  assert (0 < 2 ^ k) as HP by (apply Z.pow_pos_nonneg; lia).
  rewrite Z.pow_add_r in Hd by lia. change (2 ^ 1) with 2 in Hd.
  assert (2 ^ k * 2 ^ (32 - k) = 4294967296) as HPQ.
  { rewrite <- Z.pow_add_r by lia. by replace (k + (32 - k)) with 32 by lia. }
  set (P := 2 ^ k) in *. set (Q := 2 ^ (32 - k)) in *.
  pose proof (Z.div_mod n d ltac:(lia)) as Hdm. pose proof (Z.mod_pos_bound n d ltac:(lia)) as Hr.
  assert (0 <= n / d) as Hq0 by (apply Z.div_pos; lia).
  set (q := n / d) in *. set (r := n mod d) in *.
  assert (q < Q) as HqQ by nia. split.
  - apply Z.div_le_lower_bound; nia.
  - apply Z.lt_succ_r. apply Z.div_lt_upper_bound; [lia|].
    assert ((q + 1) * (d - m) <= m); [|nia].
    assert ((q + 1) * P <= 4294967296) by nia.
    destruct (Z.eq_dec P 1) as [HP1|]; [rewrite HP1 in *; nia|].
    assert ((q + 1) * (d - m) <= (q + 1) * (2 * P)) by nia. nia.
Qed.

(** The divisor shifted to have its top bit set, and its high word. *)
Lemma normalised d s :
  b32 <= d < b32 * b32 → 0 <= s <= 31 →
  2147483648 <= d / b32 * 2 ^ s < b32 →
  Z.shiftr (u64 (Z.shiftl d s)) 32 = d / 2 ^ (32 - s) ∧
  2147483648 <= d / 2 ^ (32 - s) < b32 ∧
  d / 2 ^ (32 - s) * 2 ^ (32 - s) <= d ∧
  d <= d / 2 ^ (32 - s) * 2 ^ (32 - s) + 2 ^ (32 - s) - 1.
Proof.
  unfold b32. intros Hd Hs Hn.
  rewrite Z.shiftl_mul_pow2, Z.shiftr_div_pow2 by lia. change (2 ^ 32) with 4294967296.
  assert (0 < 2 ^ s) by (apply Z.pow_pos_nonneg; lia).
  assert (0 < 2 ^ (32 - s)) by (apply Z.pow_pos_nonneg; lia).
  assert (2 ^ s * 2 ^ (32 - s) = 4294967296) as HST.
  { rewrite <- Z.pow_add_r by lia. by replace (s + (32 - s)) with 32 by lia. }
  set (S := 2 ^ s) in *. set (T := 2 ^ (32 - s)) in *.
  pose proof (Z.div_mod d 4294967296 ltac:(lia)). pose proof (Z.mod_pos_bound d 4294967296 ltac:(lia)).
  assert (d / 4294967296 < T) by nia.
  assert (d * S < 18446744073709551616) by nia.
  rewrite u64_small by nia. rewrite <- HST at 1.
  rewrite (Z.mul_comm d S), Z.div_mul_cancel_l by lia.
  pose proof (Z.div_mod d T ltac:(lia)). pose proof (Z.mod_pos_bound d T ltac:(lia)).
  splits; [done| | |lia|lia].
  - apply Z.div_le_lower_bound; nia.
  - apply Z.div_lt_upper_bound; nia.
Qed.

Lemma udiv64_long n d :
  0 <= n < b32 * b32 → b32 <= d < b32 * b32 → udiv64 n d = Ok (n / d).
Proof.
  unfold b32. intros Hn Hd. unfold udiv64.
  rewrite (Z.shiftr_div_pow2 d) by lia. change (2 ^ 32) with 4294967296.
  assert (1 <= d / 4294967296) by (apply Z.div_le_lower_bound; lia).
  assert (d / 4294967296 < 4294967296) by (apply Z.div_lt_upper_bound; lia).
  destruct (Z.eqb_spec (d / 4294967296) 0); [lia|].
  destruct (Z.ltb_spec n d); [by rewrite Z.div_small by lia|]. cbv zeta.
  rewrite (u32_small (d / _)) by lia.
  destruct (nlz_spec (d / 4294967296)) as [Hs Hnorm]; [unfold b32; lia|].
  set (s := nlz (d / 4294967296)) in *.
  destruct (normalised d s) as (Hsh & Hv & Hm1 & Hm2); [done|done|done|].
  rewrite Hsh. set (v := d / 2 ^ (32 - s)) in *.
  rewrite (Z.shiftr_div_pow2 n) by lia. change (2 ^ 1) with 2.
  rewrite (u32_small v) by (unfold b32 in Hv; lia).
  assert (0 <= n / 2 < 9223372036854775808) by (split; [apply Z.div_pos|apply Z.div_lt_upper_bound]; lia).
  rewrite divl_ok by (unfold b32 in *; nia). unfold mbind; simpl.
  rewrite Z.shiftr_div_pow2 by lia. f_equal.
  assert (0 < 2 ^ (31 - s)) by (apply Z.pow_pos_nonneg; lia).
  assert (2 * (v * 2 ^ (31 - s)) = v * 2 ^ (32 - s)) as Hpow.
  { replace (32 - s) with (Z.succ (31 - s)) by lia. rewrite Z.pow_succ_r by lia. ring. }
  rewrite Z.div_div, Z.div_div, Hpow by lia.
  destruct (quotient_estimate n d (v * 2 ^ (32 - s)) (31 - s)) as [Hlo Hhi];
    [lia|done|rewrite <- Hpow; unfold b32 in *; nia|replace (31 - s + 1) with (32 - s) by lia; lia|].
  set (q := n / (v * 2 ^ (32 - s))) in *.
  pose proof (Z.div_mod n d ltac:(lia)) as Hdm. pose proof (Z.mod_pos_bound n d ltac:(lia)) as Hr.
  assert (1 <= n / d) by (apply Z.div_le_lower_bound; lia).
  assert (n / d < 4294967296) by (apply Z.div_lt_upper_bound; lia).
  rewrite (u64_small (q - 1)), (u64_small (_ * d)), u64_small by nia.
  destruct (Z.ltb_spec (n - (q - 1) * d) d); nia.
Qed.

Lemma udiv64_ok n d :
  is_u64 n → is_u64 d → udiv64 n d = if d =? 0 then Err DivideError else Ok (n / d).
Proof.
  unfold is_u64. intros Hn Hd. destruct (Z.eqb_spec d 0) as [->|]; [done|].
  destruct (Z.lt_ge_cases d b32);
    [apply udiv64_short|apply udiv64_long]; unfold b32 in *; lia.
Qed.

(** * The routines the compiler calls *)

Lemma abs64 n : is_s64 n → (if 0 <=? n then u64 n else u64 (- u64 n)) = Z.abs n.
Proof.
  unfold is_s64. intros. destruct (Z.leb_spec 0 n).
  - rewrite u64_small; lia.
  - unfold u64. rewrite <- (Z.mod_add n 1), (Z.mod_small (n + _)), Z.mul_1_l by lia.
    replace (- (n + 18446744073709551616)) with (- n + (-1) * 18446744073709551616) by lia.
    rewrite Z.mod_add, Z.mod_small by lia. lia.
Qed.

Lemma s64_mod z k : s64 (z + k * 18446744073709551616) = s64 z.
Proof.
  unfold s64. replace (z + k * 18446744073709551616 + 9223372036854775808)
    with (z + 9223372036854775808 + k * 18446744073709551616) by lia.
  by rewrite Z.mod_add.
Qed.
Lemma s64_eq z : ∃ k, s64 z = z + k * 18446744073709551616.
Proof.
  exists (- ((z + 9223372036854775808) / 18446744073709551616)). unfold s64.
  rewrite Z.mod_eq by lia. lia.
Qed.
Lemma s64_neg z : s64 (- s64 z) = s64 (- z).
Proof.
  destruct (s64_eq z) as [k ->].
  replace (- (z + k * 18446744073709551616)) with (- z + (- k) * 18446744073709551616) by lia.
  apply s64_mod.
Qed.

Lemma sdiv64_ok n d :
  is_s64 n → is_s64 d →
  sdiv64 n d = if d =? 0 then Err DivideError else Ok (s64 (Z.quot n d)).
Proof.
  intros Hn Hd. unfold sdiv64. rewrite !abs64 by done.
  unfold is_s64 in *. rewrite udiv64_ok by (unfold is_u64; lia).
  destruct (Z.eqb_spec d 0) as [->|Hne]; [done|].
  destruct (Z.eqb_spec (Z.abs d) 0); [lia|]. unfold mbind; simpl.
  rewrite <- Z.quot_div_nonneg by lia. rewrite s64_neg. f_equal.
  destruct (Z.ltb_spec n 0), (Z.ltb_spec d 0); simpl; f_equal;
    rewrite ?(Z.abs_neq n), ?(Z.abs_eq n), ?(Z.abs_neq d), ?(Z.abs_eq d) by lia;
    rewrite ?Z.quot_opp_l, ?Z.quot_opp_r by lia; lia.
Qed.

(** The one quotient that does not fit is the least integer divided by -1. *)
Lemma quot_fits n d : is_s64 n → is_s64 d → d ≠ 0 → n ≠ -9223372036854775808 ∨ d ≠ -1 →
  s64 (Z.quot n d) = Z.quot n d.
Proof.
  intros Hn Hd Hne Hx. unfold is_s64 in *. apply s64_small.
  assert (Z.abs (Z.quot n d) * Z.abs d <= Z.abs n).
  { rewrite <- Z.abs_mul. pose proof (Z.quot_rem' n d). pose proof (Z.rem_sign_mul n d Hne).
    assert (Z.abs n = Z.abs (d * Z.quot n d) + Z.abs (Z.rem n d)); [|lia].
    pose proof (Z.mul_quot_le n d). pose proof (Z.mul_quot_ge n d). nia. }
  destruct (Z.eq_dec d 1) as [->|]; [rewrite Z.quot_1_r; lia|].
  destruct (Z.eq_dec d (-1)) as [->|]; [lia|].
  assert (2 <= Z.abs d) by lia. nia.
Qed.

(** C30: 64-bit division is exact.  For every numerator and every nonzero
    divisor [__udivdi3] returns the floor of the quotient without ever
    trapping in [divl], and [__divdi3] the quotient truncated towards zero,
    which wraps around only for the least integer divided by -1; a zero
    divisor raises the divide error. *)
Theorem division_correct :
  (∀ n d, is_u64 n → is_u64 d →
     __udivdi3 n d = if d =? 0 then Err DivideError else Ok (n / d)) ∧
  (∀ n d, is_s64 n → is_s64 d →
     __divdi3 n d = if d =? 0 then Err DivideError
                    else if (n =? -9223372036854775808) && (d =? -1) then Ok n
                    else Ok (Z.quot n d)).
Proof.
  split; [apply udiv64_ok|]. intros n d Hn Hd. unfold __divdi3. rewrite sdiv64_ok by done.
  destruct (Z.eqb_spec d 0); [done|].
  destruct (Z.eqb_spec n (-9223372036854775808)) as [->|], (Z.eqb_spec d (-1)) as [->|]; simpl;
    [done|rewrite quot_fits by auto; done..].
Qed.

Lemma division_correct_witness :
  __udivdi3 18446744073709551615 4294967297 = Ok 4294967295 ∧ __udivdi3 5 0 = Err DivideError ∧
  __divdi3 (-7) 2 = Ok (-3) ∧ __divdi3 (-9223372036854775808) (-1) = Ok (-9223372036854775808).
Proof.
  destruct division_correct as [Hu Hs].
  splits; (rewrite Hu || rewrite Hs); done || (unfold is_u64, is_s64; lia).
Defined.

Lemma s32_s64 z : s32 (s64 z) = s32 z.
Proof.
  destruct (s64_eq z) as [k ->]. unfold s32.
  replace (z + k * 18446744073709551616 + 2147483648)
    with (z + 2147483648 + k * 4294967296 * 4294967296) by lia.
  by rewrite Z.mod_add.
Qed.

(** The 64-bit remainder routines return the remainder modulo 2^32 only:
    [__umoddi3] is the remainder exactly when the remainder is below 2^32
    (always for divisors of at most 32 bits), and [__moddi3] exactly when it
    fits a signed 32-bit integer. *)
Theorem moddi3_truncated :
  (∀ n d, is_u64 n → is_u64 d → d ≠ 0 →
     __umoddi3 n d = Ok (u32 (n mod d)) ∧
     (__umoddi3 n d = Ok (n mod d) ↔ n mod d < 4294967296)) ∧
  (∀ n d, is_s64 n → is_s64 d → d ≠ 0 →
     __moddi3 n d = Ok (s32 (Z.rem n d)) ∧
     (__moddi3 n d = Ok (Z.rem n d) ↔ is_s32 (Z.rem n d))).
Proof.
  split; intros n d Hn Hd Hne.
  - assert (__umoddi3 n d = Ok (u32 (n mod d))) as E.
    { unfold __umoddi3, umod64. rewrite udiv64_ok by done.
      destruct (Z.eqb_spec d 0); [done|]. unfold mbind; simpl. f_equal.
      unfold is_u64 in *. pose proof (Z.div_mod n d Hne). pose proof (Z.mod_pos_bound n d ltac:(lia)).
      pose proof (Z.mul_div_le n d ltac:(lia)). assert (0 <= n / d) by (apply Z.div_pos; lia).
      assert (0 <= d * (n / d)) by nia.
      rewrite (u64_small (d * _)), u64_small by lia. f_equal. lia. }
    split; [done|]. rewrite E. unfold is_u64 in *.
    pose proof (Z.mod_pos_bound n d ltac:(lia)). split.
    + intros [= <-]. apply u32_range.
    + intros. by rewrite u32_small by lia.
  - assert (__moddi3 n d = Ok (s32 (Z.rem n d))) as E.
    { unfold __moddi3, smod64. rewrite sdiv64_ok by done.
      destruct (Z.eqb_spec d 0); [done|]. unfold mbind; simpl. f_equal.
      rewrite s32_s64, Z.rem_eq by done.
      destruct (s64_eq (Z.quot n d)) as [k ->].
      destruct (s64_eq (d * (Z.quot n d + k * 18446744073709551616))) as [j ->].
      rewrite <- (s32_s64 (n - d * Z.quot n d)), <- s32_s64. f_equal.
      rewrite <- (s64_mod (n - d * Z.quot n d) (- (d * k) - j)). f_equal. ring. }
    split; [done|]. rewrite E. split.
    + intros [= <-]. apply s32_range.
    + intros. by rewrite s32_small.
Qed.

Lemma moddi3_truncated_witness :
  __umoddi3 18446744073709551615 18446744073709551614 = Ok 1 ∧
  __umoddi3 4294967301 8589934592 = Ok 5 ∧ __moddi3 (-7) 2 = Ok (-1).
Proof.
  destruct moddi3_truncated as [Hu Hs].
  split; [|split].
  - rewrite (proj1 (Hu 18446744073709551615 18446744073709551614 ltac:(unfold is_u64; lia)
      ltac:(unfold is_u64; lia) ltac:(lia))). reflexivity.
  - rewrite (proj1 (Hu 4294967301 8589934592 ltac:(unfold is_u64; lia)
      ltac:(unfold is_u64; lia) ltac:(lia))). reflexivity.
  - rewrite (proj1 (Hs (-7) 2 ltac:(unfold is_s64; lia) ltac:(unfold is_s64; lia) ltac:(lia))).
    reflexivity.
Defined.
