(* ===== verification/Mem.v ===== *)
(** Byte-addressed memory as the C library sees it: loads and stores that
    fault outside the mapped bytes, blocks of bytes and null-terminated
    strings. *)
From S2P Require Import Prelude.

Abbreviation mem := (gmap Z Z).
Abbreviation MM := (M mem).

Definition load (p : Z) : MM Z :=
  λ m, match m !! p with Some v => Ok (v, m) | None => Err WildAccess end.
Definition store (p v : Z) : MM () :=
  λ m, match m !! p with Some _ => Ok ((), <[p := u8 v]> m) | None => Err WildAccess end.

Lemma mem_load_Ok (m : mem) p v : m !! p = Some v → load p m = Ok (v, m).
Proof. unfold load. by intros ->. Qed.
Lemma store_Ok (m : mem) p v : is_Some (m !! p) → store p v m = Ok ((), <[p := u8 v]> m).
Proof. unfold store. by intros [x ->]. Qed.

(** Executing the next load or store of a program. *)
Ltac mload := erewrite M_bind_step; [|eapply mem_load_Ok; eassumption]; simpl.
Ltac mstore := erewrite M_bind_step; [|eapply store_Ok; eassumption]; simpl.

(** * Blocks *)

(** The bytes [bs] are at [p]. *)
Definition bytes_at (m : mem) (p : Z) (bs : list Z) : Prop :=
  ∀ i b, bs !! i = Some b → m !! (p + Z.of_nat i) = Some b.

(** [n] mapped bytes start at [p]. *)
Definition mapped (m : mem) (p : Z) (n : nat) : Prop :=
  ∀ i, (i < n)%nat → is_Some (m !! (p + Z.of_nat i)).

(** The memory with the bytes [bs] at [p]. *)
Fixpoint put_bytes (p : Z) (bs : list Z) (m : mem) : mem :=
  match bs with [] => m | b :: bs => <[p := b]> (put_bytes (p + 1) bs m) end.

Lemma bytes_at_nil m p : bytes_at m p [].
Proof. intros i b H. by rewrite lookup_nil in H. Qed.

Lemma bytes_at_cons m p b bs :
  bytes_at m p (b :: bs) ↔ m !! p = Some b ∧ bytes_at m (p + 1) bs.
Proof.
  split.
  - intros H. split.
    + rewrite <- (Z.add_0_r p). by apply (H 0%nat).
    + intros i x Hi. replace (p + 1 + Z.of_nat i) with (p + Z.of_nat (S i)) by lia. by apply H.
  - intros [H0 H] [|i] x Hi; simpl in Hi.
    + simplify_eq. by rewrite Z.add_0_r.
    + replace (p + Z.of_nat (S i)) with (p + 1 + Z.of_nat i) by lia. by apply H.
Qed.

Lemma bytes_at_app m p bs bs' :
  bytes_at m p (bs ++ bs') ↔ bytes_at m p bs ∧ bytes_at m (p + Z.of_nat (length bs)) bs'.
Proof.
  revert p. induction bs as [|b bs IH]; intros p; cbn [app length].
  - rewrite Z.add_0_r. pose proof (bytes_at_nil m p). tauto.
  - rewrite !bytes_at_cons, IH.
    replace (p + 1 + Z.of_nat (length bs)) with (p + Z.of_nat (S (length bs))) by lia. tauto.
Qed.

Lemma bytes_at_mapped m p bs : bytes_at m p bs → mapped m p (length bs).
Proof. intros H i Hi. destruct (lookup_lt_is_Some_2 bs i Hi) as [b Hb]. eauto. Qed.

Lemma mapped_S m p n : mapped m p (S n) ↔ is_Some (m !! p) ∧ mapped m (p + 1) n.
Proof.
  split.
  - intros H. split; [rewrite <- (Z.add_0_r p); apply (H 0%nat); lia|].
    intros i Hi. replace (p + 1 + Z.of_nat i) with (p + Z.of_nat (S i)) by lia. apply H. lia.
  - intros [H0 H] [|i] Hi; [by rewrite Z.add_0_r|].
    replace (p + Z.of_nat (S i)) with (p + 1 + Z.of_nat i) by lia. apply H. lia.
Qed.

(** Concrete blocks are checked by evaluation. *)
Lemma bytes_at_forall (m : mem) p bs :
  bool_decide (Forall (λ '(i, b), m !! (p + Z.of_nat i) = Some b) (imap pair bs)) = true → bytes_at m p bs.
Proof.
  intros H%bool_decide_eq_true i b Hi. rewrite Forall_lookup in H. apply (H i (i, b)).
  by rewrite list_lookup_imap, Hi.
Qed.
Lemma mapped_of_forall (m : mem) p n :
  bool_decide (Forall (λ i, is_Some (m !! (p + Z.of_nat i))) (seq 0 n)) = true → mapped m p n.
Proof.
  intros H%bool_decide_eq_true i Hi. rewrite Forall_forall in H. apply H, elem_of_seq. lia.
Qed.

Lemma mapped_le m p n k : mapped m p n → (k <= n)%nat → mapped m p k.
Proof. intros H Hk i Hi. apply H. lia. Qed.

(** Memory after writing a block, address by address. *)
Lemma put_bytes_lookup m p bs a :
  put_bytes p bs m !! a =
    if (p <=? a) && (a <? p + Z.of_nat (length bs)) then bs !! Z.to_nat (a - p) else m !! a.
Proof.
  revert p. induction bs as [|b bs IH]; intros p; cbn [put_bytes length].
  - bcases; simpl; try done. lia.
  - destruct (decide (a = p)) as [->|Hne].
    + rewrite lookup_insert_eq. bcases; simpl; try lia. by rewrite Z.sub_diag.
    + rewrite lookup_insert_ne, IH by done. bcases; simpl; try lia; try done.
      replace (Z.to_nat (a - p)) with (S (Z.to_nat (a - (p + 1)))) by lia. done.
Qed.

Lemma put_bytes_ne m p bs a :
  a < p ∨ p + Z.of_nat (length bs) <= a → put_bytes p bs m !! a = m !! a.
Proof. intros. rewrite put_bytes_lookup. bcases; simpl; try done; lia. Qed.

Lemma put_bytes_at m p bs : bytes_at (put_bytes p bs m) p bs.
Proof.
  intros i b Hi. pose proof (lookup_lt_Some _ _ _ Hi). rewrite put_bytes_lookup.
  bcases; simpl; try lia. by replace (Z.to_nat (p + Z.of_nat i - p)) with i by lia.
Qed.

Lemma bytes_at_put_ne m p bs q bs' :
  bytes_at m q bs' →
  q + Z.of_nat (length bs') <= p ∨ p + Z.of_nat (length bs) <= q →
  bytes_at (put_bytes p bs m) q bs'.
Proof.
  intros H Hd i b Hi. pose proof (lookup_lt_Some _ _ _ Hi). rewrite put_bytes_ne by lia. auto.
Qed.

Lemma put_bytes_insert_comm m p bs a v :
  a < p ∨ p + Z.of_nat (length bs) <= a →
  put_bytes p bs (<[a := v]> m) = <[a := v]> (put_bytes p bs m).
Proof.
  intros Ha. apply map_eq. intros x. rewrite put_bytes_lookup.
  destruct (decide (x = a)) as [->|].
  - rewrite !lookup_insert_eq. bcases; simpl; try done; lia.
  - by rewrite !lookup_insert_ne, put_bytes_lookup by done.
Qed.

Lemma put_bytes_app m p bs bs' :
  put_bytes p (bs ++ bs') m = put_bytes p bs (put_bytes (p + Z.of_nat (length bs)) bs' m).
Proof.
  revert p. induction bs as [|b bs IH]; intros p; cbn [app put_bytes length].
  - by rewrite Z.add_0_r.
  - rewrite IH. by replace (p + 1 + Z.of_nat (length bs)) with (p + Z.of_nat (S (length bs))) by lia.
Qed.

Lemma put_bytes_put_ne m p bs q bs' :
  p + Z.of_nat (length bs) <= q ∨ q + Z.of_nat (length bs') <= p →
  put_bytes p bs (put_bytes q bs' m) = put_bytes q bs' (put_bytes p bs m).
Proof.
  intros Hd. apply map_eq. intros x. rewrite !put_bytes_lookup. bcases; simpl; try done; lia.
Qed.

Lemma mapped_put m p bs q n : mapped m q n → mapped (put_bytes p bs m) q n.
Proof.
  intros H i Hi. rewrite put_bytes_lookup. bcases; simpl; auto.
  apply lookup_lt_is_Some_2. lia.
Qed.

Lemma mapped_insert m a v q n : mapped m q n → mapped (<[a := v]> m) q n.
Proof.
  intros H i Hi. destruct (decide (q + Z.of_nat i = a)) as [->|];
    [rewrite lookup_insert_eq; eauto|rewrite lookup_insert_ne by done; auto].
Qed.

Lemma bytes_at_insert_ne m a v q bs :
  bytes_at m q bs → a < q ∨ q + Z.of_nat (length bs) <= a → bytes_at (<[a := v]> m) q bs.
Proof.
  intros H Ha i b Hi. pose proof (lookup_lt_Some _ _ _ Hi).
  rewrite lookup_insert_ne by lia. auto.
Qed.

(** A block cannot be larger than the memory: enough fuel for any scan. *)
Lemma mapped_size (m : mem) p n : mapped m p n → (n <= size m)%nat.
Proof.
  intros H. assert (list_to_set (seqZ p (Z.of_nat n)) ⊆@{gset Z} dom m) as Hsub.
  { intros a Ha. apply elem_of_list_to_set, elem_of_seqZ in Ha. apply elem_of_dom.
    destruct (H (Z.to_nat (a - p))) as [v Hv]; [lia|]. exists v. rewrite <- Hv. f_equal. lia. }
  apply subseteq_size in Hsub. rewrite size_dom, size_list_to_set in Hsub by apply NoDup_seqZ.
  rewrite length_seqZ in Hsub. lia.
Qed.

(** * Strings *)

(** The null-terminated string [s] is at [p]. *)
Definition cstr (m : mem) (p : Z) (s : list Z) : Prop :=
  Forall (λ c, 0 < c < 256) s ∧ bytes_at m p (s ++ [0]).

Lemma cstr_nil m p : cstr m p [] ↔ m !! p = Some 0.
Proof.
  unfold cstr; simpl. rewrite bytes_at_cons. pose proof (bytes_at_nil m (p + 1)).
  pose proof (List.Forall_nil (λ c, 0 < c < 256)). tauto.
Qed.

Lemma cstr_cons m p c s :
  cstr m p (c :: s) ↔ m !! p = Some c ∧ 0 < c < 256 ∧ cstr m (p + 1) s.
Proof. unfold cstr; simpl. rewrite Forall_cons, bytes_at_cons. tauto. Qed.

Lemma cstr_app m p s s' :
  cstr m p (s ++ s') ↔
    Forall (λ c, 0 < c < 256) s ∧ bytes_at m p s ∧ cstr m (p + Z.of_nat (length s)) s'.
Proof. unfold cstr. rewrite Forall_app, <- app_assoc, bytes_at_app. tauto. Qed.

Lemma cstr_size m p s : cstr m p s → (length s < size m)%nat.
Proof.
  intros [_ H]. apply bytes_at_mapped, mapped_size in H. rewrite length_app in H; simpl in H. lia.
Qed.

Lemma cstr_same_bytes m m' p s :
  cstr m p s → (∀ i, (i <= length s)%nat → m' !! (p + Z.of_nat i) = m !! (p + Z.of_nat i)) →
  cstr m' p s.
Proof.
  intros [Hs Hb] He. split; [done|]. intros i b Hi. rewrite He; [auto|].
  apply lookup_lt_Some in Hi. rewrite length_app in Hi; simpl in Hi. lia.
Qed.

Lemma cstr_bytes m p s : cstr m p s → bytes_at m p s.
Proof. intros [_ H]. by apply bytes_at_app in H as [H _]. Qed.

Lemma put_bytes_same m p bs : bytes_at m p bs → put_bytes p bs m = m.
Proof.
  revert p. induction bs as [|b bs IH]; intros p H; cbn [put_bytes]; [done|].
  apply bytes_at_cons in H as [H0 H]. rewrite IH by done. by apply insert_id.
Qed.
