(* ===== verification/Str.v ===== *)
(** The C string library of the kernel and the user programs (lib/string.c),
    over byte-addressed memory: block moves, comparisons, searches, bounded
    copies and the tokenizer. *)
From S2P Require Import Prelude Mem.

Definition NULL : Z := 0.

(** * Blocks *)

(** [while (size-- > 0) *dst++ = *src++;], returning the final [dst]. *)
Fixpoint copy_up (n : nat) (dst src : Z) : MM Z :=
  match n with
  | O => mret dst
  | S n => v ← load src; store dst v;; copy_up n (dst + 1) (src + 1)
  end.
(** [while (size-- > 0) *--dst = *--src;] *)
Fixpoint copy_down (n : nat) (dst src : Z) : MM Z :=
  match n with
  | O => mret dst
  | S n => v ← load (src - 1); store (dst - 1) v;; copy_down n (dst - 1) (src - 1)
  end.

Definition memcpy (dst_ src_ size : Z) : MM Z :=
  check (negb (dst_ =? NULL) || (size =? 0));;
  check (negb (src_ =? NULL) || (size =? 0));;
  copy_up (Z.to_nat size) dst_ src_;;
  mret dst_.

(** The value returned is the moved pointer [dst], not [dst_]. *)
Definition memmove (dst_ src_ size : Z) : MM Z :=
  check (negb (dst_ =? NULL) || (size =? 0));;
  check (negb (src_ =? NULL) || (size =? 0));;
  if dst_ <? src_ then copy_up (Z.to_nat size) dst_ src_
  else copy_down (Z.to_nat size) (dst_ + size) (src_ + size).

Fixpoint memcmp_loop (n : nat) (a b : Z) : MM Z :=
  match n with
  | O => mret 0
  | S n =>
      x ← load a; y ← load b;
      if negb (x =? y) then mret (if y <? x then 1 else -1)
      else memcmp_loop n (a + 1) (b + 1)
  end.
Definition memcmp (a b size : Z) : MM Z :=
  check (negb (a =? NULL) || (size =? 0));;
  check (negb (b =? NULL) || (size =? 0));;
  memcmp_loop (Z.to_nat size) a b.

Fixpoint memchr_loop (n : nat) (block ch : Z) : MM Z :=
  match n with
  | O => mret NULL
  | S n => x ← load block; if x =? ch then mret block else memchr_loop n (block + 1) ch
  end.
Definition memchr (block_ ch_ size : Z) : MM Z :=
  check (negb (block_ =? NULL) || (size =? 0));;
  memchr_loop (Z.to_nat size) block_ (u8 ch_).

Fixpoint memset_loop (n : nat) (dst value : Z) : MM () :=
  match n with
  | O => mret ()
  | S n => store dst value;; memset_loop n (dst + 1) value
  end.
Definition memset (dst_ value size : Z) : MM Z :=
  check (negb (dst_ =? NULL) || (size =? 0));;
  memset_loop (Z.to_nat size) dst_ value;;
  mret dst_.

(** * Strings *)

(** A scan reads one mapped byte per step, so a step more than there are
    mapped bytes is enough fuel. *)
Definition with_fuel {A} (f : nat → MM A) : MM A := λ m, f (S (size m)) m.

Fixpoint strcmp_loop (fuel : nat) (a b : Z) : MM Z :=
  match fuel with
  | O => fail OutOfFuel
  | S fuel =>
      x ← load a;
      y ← load b;
      if negb (x =? 0) && (x =? y) then strcmp_loop fuel (a + 1) (b + 1)
      else mret (if x <? y then -1 else if y <? x then 1 else 0)
  end.
Definition strcmp (a b : Z) : MM Z :=
  check (negb (a =? NULL));; check (negb (b =? NULL));;
  with_fuel (λ n, strcmp_loop n a b).

Fixpoint strchr_loop (fuel : nat) (string c : Z) : MM Z :=
  match fuel with
  | O => fail OutOfFuel
  | S fuel =>
      x ← load string;
      if x =? c then mret string
      else if x =? 0 then mret NULL
      else strchr_loop fuel (string + 1) c
  end.
Definition strchr (string c_ : Z) : MM Z :=
  check (negb (string =? NULL));;
  with_fuel (λ n, strchr_loop n string (u8 c_)).

(** The scans of [strcspn] ([want = false]) and [strspn] ([want = true]): go
    on while membership of the character in [set] is [want]. *)
Fixpoint span_loop (want : bool) (fuel : nat) (string set length : Z) : MM Z :=
  match fuel with
  | O => fail OutOfFuel
  | S fuel =>
      x ← load (string + length);
      if x =? 0 then mret length
      else
        r ← strchr set x;
        if eqb (negb (r =? NULL)) want then span_loop want fuel string set (u32 (length + 1))
        else mret length
  end.
Definition strcspn (string stop : Z) : MM Z := with_fuel (λ n, span_loop false n string stop 0).
Definition strspn (string skip : Z) : MM Z := with_fuel (λ n, span_loop true n string skip 0).

Fixpoint strpbrk_loop (fuel : nat) (string stop : Z) : MM Z :=
  match fuel with
  | O => fail OutOfFuel
  | S fuel =>
      x ← load string;
      if x =? 0 then mret NULL
      else
        r ← strchr stop x;
        if negb (r =? NULL) then mret string else strpbrk_loop fuel (string + 1) stop
  end.
Definition strpbrk (string stop : Z) : MM Z := with_fuel (λ n, strpbrk_loop n string stop).

Fixpoint strrchr_loop (fuel : nat) (string c p : Z) : MM Z :=
  match fuel with
  | O => fail OutOfFuel
  | S fuel =>
      x ← load string;
      if x =? 0 then mret p
      else strrchr_loop fuel (string + 1) c (if x =? c then string else p)
  end.
Definition strrchr (string c_ : Z) : MM Z := with_fuel (λ n, strrchr_loop n string (u8 c_) NULL).

Fixpoint scan_nul (fuel : nat) (p : Z) : MM Z :=
  match fuel with
  | O => fail OutOfFuel
  | S fuel => x ← load p; if x =? 0 then mret p else scan_nul fuel (p + 1)
  end.
Definition strlen (string : Z) : MM Z :=
  check (negb (string =? NULL));;
  p ← with_fuel (λ n, scan_nul n string); mret (u32 (p - string)).

Fixpoint strnlen_loop (fuel : nat) (string maxlen length : Z) : MM Z :=
  match fuel with
  | O => fail OutOfFuel
  | S fuel =>
      x ← load (string + length);
      if negb (x =? 0) && (length <? maxlen) then strnlen_loop fuel string maxlen (u32 (length + 1))
      else mret length
  end.
Definition strnlen (string maxlen : Z) : MM Z :=
  with_fuel (λ n, strnlen_loop n string maxlen 0).

(** [for (i = 0; i <= haystack_len - needle_len; i++)], [n] iterations left. *)
Fixpoint strstr_loop (n : nat) (haystack needle needle_len i : Z) : MM Z :=
  match n with
  | O => mret NULL
  | S n =>
      r ← memcmp (haystack + i) needle needle_len;
      if r =? 0 then mret (haystack + i) else strstr_loop n haystack needle needle_len (i + 1)
  end.
Definition strstr (haystack needle : Z) : MM Z :=
  haystack_len ← strlen haystack;
  needle_len ← strlen needle;
  if needle_len <=? haystack_len then
    strstr_loop (Z.to_nat (haystack_len - needle_len + 1)) haystack needle needle_len 0
  else mret NULL.

(** [strtok_r]: the loops skipping delimiters and skipping other characters.
    [None] is the return inside the first loop. *)
Fixpoint skip_delims (fuel : nat) (s delimiters : Z) : MM (Z * bool) :=
  match fuel with
  | O => fail OutOfFuel
  | S fuel =>
      x ← load s;
      r ← strchr delimiters x;
      if negb (r =? NULL) then
        if x =? 0 then mret (s, true) else skip_delims fuel (s + 1) delimiters
      else mret (s, false)
  end.
Fixpoint skip_token (fuel : nat) (s delimiters : Z) : MM Z :=
  match fuel with
  | O => fail OutOfFuel
  | S fuel =>
      x ← load s;
      r ← strchr delimiters x;
      if r =? NULL then skip_token fuel (s + 1) delimiters else mret s
  end.

(** Returns the token and the new value of [*save_ptr]. *)
Definition strtok_r (s delimiters save_ptr : Z) : MM (Z * Z) :=
  check (negb (delimiters =? NULL));;
  let s := if s =? NULL then save_ptr else s in
  check (negb (s =? NULL));;
  '(s, finished) ← with_fuel (λ n, skip_delims n s delimiters);
  if (finished : bool) then mret (NULL, s)
  else
    let token := s in
    s ← with_fuel (λ n, skip_token n s delimiters);
    x ← load s;
    if negb (x =? 0) then store s 0;; mret (token, s + 1) else mret (token, s).

Definition strlcpy (dst src size : Z) : MM Z :=
  check (negb (dst =? NULL));; check (negb (src =? NULL));;
  src_len ← strlen src;
  (if 0 <? size then
     let dst_len := u32 (size - 1) in
     let dst_len := if src_len <? dst_len then src_len else dst_len in
     memcpy dst src dst_len;;
     store (dst + dst_len) 0
   else mret ());;
  mret src_len.

Definition strlcat (dst src size : Z) : MM Z :=
  check (negb (dst =? NULL));; check (negb (src =? NULL));;
  src_len ← strlen src;
  dst_len ← strlen dst;
  (if (0 <? size) && (dst_len <? size) then
     let copy_cnt := u32 (u32 (size - dst_len) - 1) in
     let copy_cnt := if src_len <? copy_cnt then src_len else copy_cnt in
     memcpy (dst + dst_len) src copy_cnt;;
     store (dst + dst_len + copy_cnt) 0
   else mret ());;
  mret (u32 (src_len + dst_len)).

(** * Block moves *)

Lemma copy_up_Ok bs m dst src :
  bytes_at m src bs → Forall is_u8 bs → mapped m dst (length bs) →
  dst <= src ∨ src + Z.of_nat (length bs) <= dst →
  copy_up (length bs) dst src m = Ok (dst + Z.of_nat (length bs), put_bytes dst bs m).
Proof.
  revert m dst src. induction bs as [|b bs IH]; intros m dst src Hb Hu Hm Hd; cbn [copy_up length put_bytes].
  { by rewrite Z.add_0_r. }
  apply bytes_at_cons in Hb as [Hb0 Hb]. apply mapped_S in Hm as [Hm0 Hm].
  apply Forall_cons in Hu as [Hu0 Hu]. cbn [length] in Hd.
  mload. mstore. rewrite u8_small by done. rewrite IH; [| |done| |lia].
  - f_equal. f_equal; [lia|]. apply put_bytes_insert_comm. lia.
  - apply bytes_at_insert_ne; [done|lia].
  - by apply mapped_insert.
Qed.

Lemma copy_down_Ok bs m dst src :
  bytes_at m src bs → Forall is_u8 bs → mapped m dst (length bs) → src <= dst →
  copy_down (length bs) (dst + Z.of_nat (length bs)) (src + Z.of_nat (length bs)) m =
    Ok (dst, put_bytes dst bs m).
Proof.
  revert m. induction bs as [|b bs IH] using rev_ind; intros m Hb Hu Hm Hd.
  { simpl. by rewrite Z.add_0_r. }
  rewrite length_app, Nat.add_comm in *. cbn [length Nat.add] in *. cbn [copy_down].
  apply bytes_at_app in Hb as [Hb Hb0]. apply bytes_at_cons in Hb0 as [Hb0 _].
  apply Forall_app in Hu as [Hu Hu0]. apply Forall_cons in Hu0 as [Hu0 _].
  assert (is_Some (m !! (dst + Z.of_nat (length bs)))) as Hm0 by (apply Hm; lia).
  replace (dst + Z.of_nat (S (length bs)) - 1) with (dst + Z.of_nat (length bs)) by lia.
  replace (src + Z.of_nat (S (length bs)) - 1) with (src + Z.of_nat (length bs)) by lia.
  mload. mstore. rewrite u8_small by done. rewrite IH; [| |done| |done].
  - by rewrite put_bytes_app.
  - apply bytes_at_insert_ne; [done|lia].
  - eapply mapped_insert, mapped_le; [done|lia].
Qed.

Lemma null_check p n m : 0 < p → check (negb (p =? NULL) || (n =? 0)) m = Ok ((), m : mem).
Proof. intros. apply check_true. unfold NULL. by destruct (Z.eqb_spec p 0); [lia|]. Qed.
Lemma nonnull_check p m : 0 < p → check (negb (p =? NULL)) m = Ok ((), m : mem).
Proof. intros. apply check_true. unfold NULL. by destruct (Z.eqb_spec p 0); [lia|]. Qed.
Ltac nonnull := erewrite M_bind_step; [|first [apply null_check | apply nonnull_check]; lia].

Lemma memcpy_Ok bs m dst src :
  0 < dst → 0 < src → bytes_at m src bs → Forall is_u8 bs → mapped m dst (length bs) →
  dst <= src ∨ src + Z.of_nat (length bs) <= dst →
  memcpy dst src (Z.of_nat (length bs)) m = Ok (dst, put_bytes dst bs m).
Proof.
  intros. unfold memcpy. do 2 nonnull. rewrite Nat2Z.id.
  by erewrite M_bind_step by (by apply copy_up_Ok).
Qed.

Lemma memset_loop_Ok n m p v :
  mapped m p n → memset_loop n p v m = Ok ((), put_bytes p (replicate n (u8 v)) m).
Proof.
  revert m p. induction n as [|n IH]; intros m p Hm; cbn [memset_loop replicate put_bytes]; [done|].
  apply mapped_S in Hm as [Hm0 Hm]. mstore. rewrite IH by by apply mapped_insert.
  f_equal. f_equal. apply put_bytes_insert_comm. lia.
Qed.

Lemma memset_Ok m p v n :
  0 < p → mapped m p n →
  memset p v (Z.of_nat n) m = Ok (p, put_bytes p (replicate n (u8 v)) m).
Proof.
  intros. unfold memset. nonnull. rewrite Nat2Z.id.
  by erewrite M_bind_step by by apply memset_loop_Ok.
Qed.

(** [memcpy] and [memmove] copy blocks.  [memcpy] is right on blocks that
    do not overlap (and on every forward move); [memmove] is right for any
    overlap: the destination holds the bytes the source had before the call
    and every other byte is unchanged.  The pointer [memmove] returns is the
    destination only when it moves a block backwards in memory ([dst >= src]);
    a forward copy loop leaves it at the end of the destination. *)
Theorem memmove_correct bs m dst src :
  0 < dst → 0 < src → bytes_at m src bs → Forall is_u8 bs → mapped m dst (length bs) →
  memmove dst src (Z.of_nat (length bs)) m =
    Ok (if dst <? src then dst + Z.of_nat (length bs) else dst, put_bytes dst bs m) ∧
  (dst <= src ∨ src + Z.of_nat (length bs) <= dst →
   memcpy dst src (Z.of_nat (length bs)) m = Ok (dst, put_bytes dst bs m)).
Proof.
  intros Hd Hs Hb Hu Hm. split; [|intros; by apply memcpy_Ok].
  unfold memmove. do 2 nonnull. rewrite Nat2Z.id. destruct (Z.ltb_spec dst src).
  - apply copy_up_Ok; try done. lia.
  - by apply copy_down_Ok.
Qed.

(** A memory of the bytes [bs] from address [p] on. *)
Definition mem_of (p : Z) (bs : list Z) : mem := put_bytes p bs ∅.

Lemma memmove_correct_witness :
  memmove 101 100 3 (mem_of 100 [1; 2; 3; 4]) =
    Ok (101, put_bytes 101 [1; 2; 3] (mem_of 100 [1; 2; 3; 4])).
Proof.
  apply (memmove_correct [1; 2; 3] (mem_of 100 [1; 2; 3; 4]) 101 100); [lia|lia| | |].
  - intros i b Hi. apply (put_bytes_at ∅ 100 [1; 2; 3; 4]).
    destruct i as [|[|[|i]]]; simpl in *; try done.
  - repeat constructor; unfold is_u8; lia.
  - apply (mapped_le _ _ 3); [|simpl; lia]. intros i Hi. unfold mem_of.
    rewrite put_bytes_lookup. bcases; simpl in *; try lia.
    apply (lookup_lt_is_Some_2 [1; 2; 3; 4]). simpl. lia.
Defined.

(** * Comparison *)

(** Lexicographic order: -1, 0 or 1. *)
Fixpoint lex (a b : list Z) : Z :=
  match a, b with
  | [], [] => 0
  | [], _ => -1
  | _, [] => 1
  | x :: a, y :: b => if x <? y then -1 else if y <? x then 1 else lex a b
  end.

Lemma memcmp_Ok a b m p q :
  0 < p → 0 < q → bytes_at m p a → bytes_at m q b → length a = length b →
  memcmp p q (Z.of_nat (length a)) m = Ok (lex a b, m).
Proof.
  intros Hp Hq Ha Hb Hl. unfold memcmp. do 2 nonnull. rewrite Nat2Z.id. clear Hp Hq.
  revert b p q Ha Hb Hl. induction a as [|x a IH]; intros [|y b] p q Ha Hb Hl; try done.
  apply bytes_at_cons in Ha as [Hx Ha], Hb as [Hy Hb]. cbn [length memcmp_loop lex].
  mload. mload. destruct (Z.eqb_spec x y) as [->|]; simpl.
  - rewrite (IH b) by (done || by injection Hl). by rewrite Z.ltb_irrefl.
  - destruct (Z.ltb_spec y x), (Z.ltb_spec x y); try done; lia.
Qed.

Lemma strcmp_loop_Ok a b m p q fuel :
  cstr m p a → cstr m q b → (length a < fuel)%nat →
  strcmp_loop fuel p q m = Ok (lex a b, m).
Proof.
  revert b p q fuel. induction a as [|x a IH]; intros b p q [|fuel] Ha Hb Hf; simpl in Hf; try lia.
  - apply cstr_nil in Ha. cbn [strcmp_loop]. mload.
    destruct b as [|y b]; [apply cstr_nil in Hb|apply cstr_cons in Hb as (Hb & Hy & _)]; mload; [done|].
    by destruct (Z.ltb_spec 0 y); [|lia].
  - apply cstr_cons in Ha as (Ha & Hx & Ha'). cbn [strcmp_loop]. mload.
    destruct b as [|y b]; [apply cstr_nil in Hb|apply cstr_cons in Hb as (Hb & Hy & Hb')]; mload.
    + destruct (Z.eqb_spec x 0); [lia|]. simpl.
      by destruct (Z.ltb_spec x 0), (Z.ltb_spec 0 x); try lia.
    + destruct (Z.eqb_spec x 0); [lia|]. simpl. destruct (Z.eqb_spec x y) as [->|].
      * rewrite (IH b) by (done || lia). by rewrite Z.ltb_irrefl.
      * by destruct (Z.ltb_spec x y), (Z.ltb_spec y x); try lia.
Qed.

Lemma strcmp_Ok a b m p q :
  0 < p → 0 < q → cstr m p a → cstr m q b → strcmp p q m = Ok (lex a b, m).
Proof.
  intros. unfold strcmp. do 2 nonnull. apply strcmp_loop_Ok; try done.
  assert (length a < size m)%nat by (by eapply cstr_size). lia.
Qed.

Lemma lex_refl a : lex a a = 0.
Proof. induction a as [|x a IH]; simpl; [done|]. by rewrite Z.ltb_irrefl. Qed.
Lemma lex_eq a b : lex a b = 0 → a = b.
Proof.
  revert b. induction a as [|x a IH]; intros [|y b]; simpl; try done.
  destruct (Z.ltb_spec x y), (Z.ltb_spec y x); try done.
  intros Hl. f_equal; [lia|auto].
Qed.
Lemma lex_antisym a b : lex b a = - lex a b.
Proof.
  revert b. induction a as [|x a IH]; intros [|y b]; simpl; try done.
  destruct (Z.ltb_spec x y), (Z.ltb_spec y x); try done; try lia.
Qed.
Lemma lex_trans a b c : lex a b = -1 → lex b c = -1 → lex a c = -1.
Proof.
  revert b c. induction a as [|x a IH]; intros [|y b] [|z c]; simpl; try done.
  destruct (Z.ltb_spec x y), (Z.ltb_spec y z), (Z.ltb_spec x z); try done; try lia;
    repeat (match goal with |- context [?u <? ?v] => destruct (Z.ltb_spec u v) end; try done; try lia);
    eauto.
Qed.

(** [strcmp] and [memcmp] compare lexicographically by unsigned bytes:
    they terminate without changing memory, answer 0 exactly on equal
    strings, and order strings antisymmetrically and transitively. *)
Theorem strcmp_correct m p q a b :
  0 < p → 0 < q → cstr m p a → cstr m q b →
  strcmp p q m = Ok (lex a b, m) ∧
  (length a = length b → memcmp p q (Z.of_nat (length a)) m = Ok (lex a b, m)) ∧
  (lex a b = 0 ↔ a = b) ∧ lex b a = - lex a b ∧
  ∀ c, lex a b = -1 → lex b c = -1 → lex a c = -1.
Proof.
  intros Hp Hq Ha Hb. splits.
  - by apply strcmp_Ok.
  - intros Hl. apply memcmp_Ok; try done; by eapply bytes_at_app; apply Ha || apply Hb.
  - split; [apply lex_eq|intros ->; apply lex_refl].
  - apply lex_antisym.
  - intros c. apply lex_trans.
Qed.

Lemma cstr_mem_of p s : Forall (λ c, 0 < c < 256) s → cstr (mem_of p (s ++ [0])) p s.
Proof. intros. split; [done|]. apply put_bytes_at. Qed.

Lemma cstr_put_ne m p bs q s :
  cstr m q s → q + Z.of_nat (length s) < p ∨ p + Z.of_nat (length bs) <= q →
  cstr (put_bytes p bs m) q s.
Proof.
  intros [Hs Hb] Hd. split; [done|]. apply bytes_at_put_ne; [done|].
  rewrite length_app; simpl. lia.
Qed.

(** Concrete memories: two strings at disjoint addresses. *)
Definition two_strings (p : Z) (a : list Z) (q : Z) (b : list Z) : mem :=
  put_bytes p (a ++ [0]) (mem_of q (b ++ [0])).
Lemma two_strings_fst p a q b :
  Forall (λ c, 0 < c < 256) a → cstr (two_strings p a q b) p a.
Proof. intros. split; [done|]. apply put_bytes_at. Qed.
Lemma two_strings_snd p a q b :
  Forall (λ c, 0 < c < 256) b → p + Z.of_nat (length a) < q → cstr (two_strings p a q b) q b.
Proof.
  intros. apply cstr_put_ne; [by apply cstr_mem_of|]. rewrite length_app; simpl. lia.
Qed.

Lemma strcmp_correct_witness :
  let m := two_strings 16 [97; 98] 32 [97; 200] in strcmp 16 32 m = Ok (-1, m).
Proof.
  refine (proj1 (strcmp_correct _ 16 32 [97; 98] [97; 200] _ _ _ _)); try lia.
  - apply two_strings_fst. repeat constructor; lia.
  - apply two_strings_snd; [repeat constructor; lia|simpl; lia].
Defined.
