(* ===== verification/StrSearch.v ===== *)
(** Theorems on the searching half of lib/string.c: the character and
    substring searches, the bounded copies and the tokenizer [strtok_r]. *)
From S2P Require Import Prelude Mem Str.

(** * Specifications of the searches *)

(** The first position satisfying [f]. *)
Fixpoint first_idx (f : Z → bool) (s : list Z) : option nat :=
  match s with
  | [] => None
  | c :: s => if f c then Some 0%nat else S <$> first_idx f s
  end.
(** The length of the longest prefix satisfying [f]. *)
Fixpoint prefix_len (f : Z → bool) (s : list Z) : nat :=
  match s with [] => 0 | c :: s => if f c then S (prefix_len f s) else 0 end.
(** The last position satisfying [f]. *)
Fixpoint last_idx (f : Z → bool) (s : list Z) : option nat :=
  match s with
  | [] => None
  | c :: s => match last_idx f s with
              | Some i => Some (S i)
              | None => if f c then Some 0%nat else None
              end
  end.
Definition inb (s : list Z) (c : Z) : bool := existsb (Z.eqb c) s.

(** A position as a pointer into the string at [p]. *)
Definition ptr_of (p : Z) (o : option nat) : Z :=
  match o with Some i => p + Z.of_nat i | None => NULL end.

Lemma ptr_of_S p o : ptr_of (p + 1) o = ptr_of p (S <$> o).
Proof. destruct o; simpl; [lia|done]. Qed.

Lemma inb_spec s c : inb s c = true ↔ c ∈ s.
Proof.
  unfold inb. rewrite existsb_exists, list_elem_of_In. setoid_rewrite Z.eqb_eq. naive_solver.
Qed.

Lemma first_idx_None f s : first_idx f s = None ↔ Forall (λ c, f c = false) s.
Proof.
  induction s as [|c s IH]; simpl; [by split|]. rewrite Forall_cons.
  destruct (f c); [naive_solver|]. rewrite fmap_None. tauto.
Qed.
Lemma first_idx_Some f s i :
  first_idx f s = Some i ↔
    (∃ c, s !! i = Some c ∧ f c = true) ∧ ∀ j c, (j < i)%nat → s !! j = Some c → f c = false.
Proof.
  revert i. induction s as [|c s IH]; intros i; simpl.
  { split; [done|]. intros [(c & Hc & _) _]. by rewrite lookup_nil in Hc. }
  destruct (f c) eqn:E.
  - split.
    + intros [= <-]. split; [by exists c|]. lia.
    + intros [_ Hmin]. destruct i as [|i]; [done|]. specialize (Hmin 0%nat c ltac:(lia) eq_refl). congruence.
  - rewrite fmap_Some. split.
    + intros (k & Hk & ->). apply IH in Hk as [(x & Hx & Hf) Hmin]. split; [by exists x|].
      intros [|j] y Hj Hy; simpl in Hy; [congruence|]. eapply Hmin; [|done]. lia.
    + intros [(x & Hx & Hf) Hmin]. destruct i as [|i]; simpl in Hx; [congruence|].
      exists i. split; [|done]. apply IH. split; [by exists x|].
      intros j y Hj Hy. apply (Hmin (S j)); [lia|done].
Qed.

(** * The scans *)

Lemma memchr_Ok bs m p c :
  0 < p → bytes_at m p bs →
  memchr p c (Z.of_nat (length bs)) m = Ok (ptr_of p (first_idx (λ x, x =? u8 c) bs), m).
Proof.
  intros Hp Hb. unfold memchr. nonnull. rewrite Nat2Z.id. clear Hp.
  revert p Hb. induction bs as [|b bs IH]; intros p Hb; cbn [memchr_loop length first_idx]; [done|].
  apply bytes_at_cons in Hb as [Hb0 Hb]. mload. destruct (Z.eqb_spec b (u8 c)).
  - simpl. by rewrite Z.add_0_r.
  - rewrite IH by done. by rewrite ptr_of_S.
Qed.

Lemma strchr_loop_Ok s m p c fuel :
  cstr m p s → (length s < fuel)%nat →
  strchr_loop fuel p c m = Ok (ptr_of p (first_idx (λ x, x =? c) (s ++ [0])), m).
Proof.
  revert p fuel. induction s as [|x s IH]; intros p [|fuel] Hs Hf; simpl in Hf; try lia;
    cbn [strchr_loop app first_idx].
  - apply cstr_nil in Hs. mload. destruct c; simpl; rewrite ?Z.add_0_r; done.
  - apply cstr_cons in Hs as (H0 & Hx & Hs). mload. destruct (Z.eqb_spec x c).
    + simpl. by rewrite Z.add_0_r.
    + destruct (Z.eqb_spec x 0); [lia|]. rewrite IH by (done || lia). by rewrite ptr_of_S.
Qed.

Lemma strchr_Ok s m p c :
  0 < p → cstr m p s →
  strchr p c m = Ok (ptr_of p (first_idx (λ x, x =? u8 c) (s ++ [0])), m).
Proof.
  intros Hp Hs. unfold strchr. nonnull. apply strchr_loop_Ok; [done|].
  pose proof (cstr_size _ _ _ Hs). lia.
Qed.

(** As a membership test, which is how the other routines use it. *)
Lemma strchr_in s m p c :
  0 < p → cstr m p s → 0 <= c < 256 →
  ∃ r, strchr p c m = Ok (r, m) ∧ (r =? NULL) = negb (inb (s ++ [0]) c).
Proof.
  intros Hp Hs Hc. eexists. split; [by apply strchr_Ok|].
  rewrite u8_small by done. destruct (first_idx _ _) as [i|] eqn:E; simpl.
  - apply first_idx_Some in E as [(x & Hx & ->%Z.eqb_eq) _].
    assert (inb (s ++ [0]) c = true) as -> by (apply inb_spec; by eapply list_elem_of_lookup_2).
    unfold NULL. destruct (Z.eqb_spec (p + Z.of_nat i) 0); [lia|done].
  - apply first_idx_None in E. rewrite Forall_forall in E. symmetry. apply negb_true_iff.
    apply not_true_is_false. intros Hin%inb_spec. specialize (E _ Hin). by rewrite Z.eqb_refl in E.
Qed.

Lemma inb_app0 s c : c ≠ 0 → inb (s ++ [0]) c = inb s c.
Proof.
  intros Hc. unfold inb. rewrite existsb_app. simpl.
  destruct (Z.eqb_spec c 0); [done|]. by rewrite !orb_false_r.
Qed.
Lemma inb_0 s : inb (s ++ [0]) 0 = true.
Proof. apply inb_spec, elem_of_app. right. by left. Qed.

Lemma span_loop_Ok want s t m p q k fuel :
  0 < q → cstr m q t → cstr m (p + k) s → 0 <= k → k + Z.of_nat (length s) < 4294967296 →
  (length s < fuel)%nat →
  span_loop want fuel p q k m =
    Ok (k + Z.of_nat (prefix_len (λ c, eqb (inb t c) want) s), m).
Proof.
  intros Hq Ht. revert k fuel. induction s as [|x s IH]; intros k [|fuel] Hs Hk Hl Hf; simpl in Hf; try lia;
    cbn [span_loop prefix_len].
  - apply cstr_nil in Hs. mload. by rewrite Z.add_0_r.
  - apply cstr_cons in Hs as (H0 & Hx & Hs). mload. destruct (Z.eqb_spec x 0); [lia|].
    destruct (strchr_in t m q x) as (r & Hr & Hn); [done|done|lia|].
    erewrite M_bind_step by exact Hr. rewrite Hn, negb_involutive, inb_app0 by lia.
    destruct (eqb (inb t x) want); simpl; [|by rewrite Z.add_0_r].
    cbn [length] in Hl. rewrite u32_small by lia.
    rewrite IH; [f_equal; f_equal; lia| |lia|lia|lia].
    by replace (p + (k + 1)) with (p + k + 1) by lia.
Qed.

Lemma strspn_Ok want s t m p q :
  0 < q → cstr m q t → cstr m p s → Z.of_nat (length s) < 4294967296 →
  with_fuel (λ n, span_loop want n p q 0) m =
    Ok (Z.of_nat (prefix_len (λ c, eqb (inb t c) want) s), m).
Proof.
  intros Hq Ht Hs Hl. unfold with_fuel. rewrite (span_loop_Ok want s t); try done.
  - by rewrite Z.add_0_r.
  - pose proof (cstr_size _ _ _ Hs). lia.
Qed.

Lemma strpbrk_Ok s t m p q :
  0 < q → cstr m q t → cstr m p s →
  strpbrk p q m = Ok (ptr_of p (first_idx (inb t) s), m).
Proof.
  intros Hq Ht Hs. unfold strpbrk, with_fuel. pose proof (cstr_size _ _ _ Hs) as Hf.
  assert (length s < S (size m))%nat as Hf' by lia. clear Hf. revert Hf'.
  generalize (S (size m)) as fuel. intros fuel. revert p fuel Hs.
  induction s as [|x s IH]; intros p [|fuel] Hs Hf; simpl in Hf; try lia;
    cbn [strpbrk_loop first_idx].
  - apply cstr_nil in Hs. by mload.
  - apply cstr_cons in Hs as (H0 & Hx & Hs). mload. destruct (Z.eqb_spec x 0); [lia|].
    destruct (strchr_in t m q x) as (r & Hr & Hn); [done|done|lia|].
    erewrite M_bind_step by exact Hr. rewrite Hn, negb_involutive, inb_app0 by lia.
    destruct (inb t x); simpl; [by rewrite Z.add_0_r|].
    rewrite IH by (done || lia). by rewrite ptr_of_S.
Qed.

Lemma strrchr_loop_Ok s m p c r fuel :
  cstr m p s → (length s < fuel)%nat →
  strrchr_loop fuel p c r m =
    Ok (match last_idx (λ x, x =? c) s with Some i => p + Z.of_nat i | None => r end, m).
Proof.
  revert p r fuel. induction s as [|x s IH]; intros p r [|fuel] Hs Hf; simpl in Hf; try lia;
    cbn [strrchr_loop last_idx].
  - apply cstr_nil in Hs. by mload.
  - apply cstr_cons in Hs as (H0 & Hx & Hs). mload. destruct (Z.eqb_spec x 0); [lia|].
    rewrite IH by (done || lia). destruct (last_idx _ s) as [i|].
    + do 2 f_equal. lia.
    + destruct (Z.eqb_spec x c); [|done]. do 2 f_equal. lia.
Qed.

Lemma strlen_Ok s m p :
  0 < p → cstr m p s → Z.of_nat (length s) < 4294967296 →
  strlen p m = Ok (Z.of_nat (length s), m).
Proof.
  intros Hp Hs Hl. unfold strlen. nonnull.
  assert (∀ fuel q, cstr m q s → (length s < fuel)%nat →
    scan_nul fuel q m = Ok (q + Z.of_nat (length s), m)) as Hscan.
  { clear Hp Hs Hl. induction s as [|x s IH]; intros [|fuel] q Hs Hf; simpl in Hf; try lia;
      cbn [scan_nul length].
    - apply cstr_nil in Hs. mload. by rewrite Z.add_0_r.
    - apply cstr_cons in Hs as (H0 & Hx & Hs). mload. destruct (Z.eqb_spec x 0); [lia|].
      rewrite IH by (done || lia). do 2 f_equal. lia. }
  erewrite M_bind_step.
  2:{ apply (Hscan _ p Hs). pose proof (cstr_size _ _ _ Hs). lia. }
  unfold mret, M_ret. do 2 f_equal. rewrite u32_small by lia. lia.
Qed.

Lemma strnlen_Ok s m p n :
  cstr m p s → Z.of_nat (length s) < 4294967296 → 0 <= n →
  strnlen p n m = Ok (Z.min n (Z.of_nat (length s)), m).
Proof.
  intros Hs Hl Hn. unfold strnlen, with_fuel.
  assert (∀ s k fuel, cstr m (p + k) s → 0 <= k <= n → k + Z.of_nat (length s) < 4294967296 →
    (length s < fuel)%nat →
    strnlen_loop fuel p n k m = Ok (Z.min n (k + Z.of_nat (length s)), m)) as Hloop.
  { clear s Hs Hl. induction s as [|x s IH]; intros k [|fuel] Hs Hk Hl Hf; simpl in Hf; try lia;
      cbn [strnlen_loop length].
    - apply cstr_nil in Hs. mload. unfold mret, M_ret. do 2 f_equal. lia.
    - apply cstr_cons in Hs as (H0 & Hx & Hs). mload. destruct (Z.eqb_spec x 0); [lia|].
      cbn [length] in Hl. simpl. destruct (Z.ltb_spec k n).
      + rewrite u32_small by lia. rewrite IH; [do 2 f_equal; lia| |lia|lia|lia].
        by replace (p + (k + 1)) with (p + k + 1) by lia.
      + unfold mret, M_ret. do 2 f_equal. lia. }
  rewrite (Hloop s); [done|by rewrite Z.add_0_r|lia|lia|].
  pose proof (cstr_size _ _ _ Hs). lia.
Qed.

(** The first of the [n] positions from [i] on at which [t] occurs in [s]. *)
Fixpoint occurs_from (n i : nat) (s t : list Z) : option nat :=
  match n with
  | O => None
  | S n => if decide (take (length t) (drop i s) = t) then Some i else occurs_from n (S i) s t
  end.

Lemma occurs_from_spec n i s t :
  match occurs_from n i s t with
  | Some k => (i <= k < i + n)%nat ∧ take (length t) (drop k s) = t ∧
              ∀ j, (i <= j < k)%nat → take (length t) (drop j s) ≠ t
  | None => ∀ j, (i <= j < i + n)%nat → take (length t) (drop j s) ≠ t
  end.
Proof.
  revert i. induction n as [|n IH]; intros i; simpl; [lia|].
  case_decide as Hd; [splits; (done || lia)|]. specialize (IH (S i)).
  destruct (occurs_from n (S i) s t) as [k|].
  - destruct IH as (Hr & Hk & Hmin). splits; [lia|lia|done|]. intros j Hj.
    destruct (decide (j = i)) as [->|]; [done|]. apply Hmin. lia.
  - intros j Hj. destruct (decide (j = i)) as [->|]; [done|]. apply IH. lia.
Qed.

Lemma strstr_loop_Ok n i s t m p q :
  0 < p → 0 < q → bytes_at m p s → bytes_at m q t → (i + n + length t <= S (length s))%nat →
  strstr_loop n p q (Z.of_nat (length t)) (Z.of_nat i) m = Ok (ptr_of p (occurs_from n i s t), m).
Proof.
  intros Hp Hq Hs Ht. revert i. induction n as [|n IH]; intros i Hl; [done|].
  cbn [strstr_loop occurs_from].
  assert (length (take (length t) (drop i s)) = length t) as Hlen
    by (rewrite length_take, length_drop; lia).
  erewrite M_bind_step.
  2:{ rewrite <- Hlen. apply memcmp_Ok; [lia|done| |exact Ht|done].
      rewrite <- (take_drop i s), bytes_at_app in Hs. destruct Hs as [_ Hs].
      rewrite length_take, Nat.min_l in Hs by lia.
      rewrite <- (take_drop (length t) (drop i s)), bytes_at_app in Hs. apply Hs. }
  case_decide as Hd.
  - rewrite Hd, lex_refl. done.
  - destruct (Z.eqb_spec (lex (take (length t) (drop i s)) t) 0) as [E|]; [by apply lex_eq in E|].
    replace (Z.of_nat i + 1) with (Z.of_nat (S i)) by lia. apply IH. lia.
Qed.

Lemma strstr_Ok s t m p q :
  0 < p → 0 < q → cstr m p s → cstr m q t →
  Z.of_nat (length s) < 4294967296 → Z.of_nat (length t) < 4294967296 →
  strstr p q m = Ok (ptr_of p (occurs_from (S (length s) - length t) 0 s t), m).
Proof.
  intros Hp Hq Hs Ht Hls Hlt. unfold strstr.
  erewrite M_bind_step by (by apply (strlen_Ok s)). erewrite M_bind_step by (by apply (strlen_Ok t)).
  destruct (Z.leb_spec (Z.of_nat (length t)) (Z.of_nat (length s))).
  - replace (Z.to_nat _) with (S (length s) - length t)%nat by lia.
    apply (strstr_loop_Ok _ 0); [done|done|by apply cstr_bytes|by apply cstr_bytes|lia].
  - by replace (S (length s) - length t)%nat with 0%nat by lia.
Qed.

(** C31: The string searches find what they document.  On terminated strings
    each search terminates, leaves memory alone and returns: [strchr] the
    first and [strrchr] the last occurrence of a character (the terminator
    counting for [strchr]), [strspn]/[strcspn] the length of the longest
    prefix inside/outside a set, [strpbrk] the first member of the set,
    [strstr] the first occurrence of the needle, or the null pointer;
    [strlen] and [strnlen] the (bounded) length. *)
Theorem string_search_correct m p q s t c n :
  0 < p → 0 < q → cstr m p s → cstr m q t →
  Z.of_nat (length s) < 4294967296 → Z.of_nat (length t) < 4294967296 → 0 < c < 256 → 0 <= n →
  strlen p m = Ok (Z.of_nat (length s), m) ∧
  strnlen p n m = Ok (Z.min n (Z.of_nat (length s)), m) ∧
  strchr p c m = Ok (ptr_of p (first_idx (Z.eqb c) s), m) ∧
  strchr p 0 m = Ok (p + Z.of_nat (length s), m) ∧
  strrchr p c m = Ok (ptr_of p (last_idx (Z.eqb c) s), m) ∧
  strspn p q m = Ok (Z.of_nat (prefix_len (inb t) s), m) ∧
  strcspn p q m = Ok (Z.of_nat (prefix_len (λ x, negb (inb t x)) s), m) ∧
  strpbrk p q m = Ok (ptr_of p (first_idx (inb t) s), m) ∧
  (∃ r, strstr p q m = Ok (r, m) ∧
     (r = NULL ∧ (∀ j, take (length t) (drop j s) = t → (length s < j + length t)%nat) ∨
      ∃ i : nat, r = p + Z.of_nat i ∧ take (length t) (drop i s) = t ∧
        ∀ j, (j < i)%nat → take (length t) (drop j s) ≠ t)).
Proof.
  intros Hp Hq Hs Ht Hls Hlt Hc Hn.
  assert (∀ (f g : Z → bool) l, (∀ x, f x = g x) → prefix_len f l = prefix_len g l) as Hext.
  { intros f g l E. induction l as [|x l IH]; simpl; [done|]. by rewrite E, IH. }
  splits; try (by apply strlen_Ok || by apply strnlen_Ok || by apply strpbrk_Ok).
  - rewrite (strchr_Ok s) by done. rewrite u8_small by lia. do 3 f_equal.
    clear -Hc. induction s as [|x s IH]; simpl.
    + destruct c; done || lia.
    + rewrite (Z.eqb_sym x c). destruct (c =? x); [done|]. by rewrite IH.
  - rewrite (strchr_Ok s) by done. change (u8 0) with 0. do 2 f_equal.
    destruct Hs as [Hs _]. clear -Hs. revert p. induction Hs as [|x s Hx Hs IH]; intros p; [done|].
    simpl. destruct (Z.eqb_spec x 0); [lia|]. rewrite <- ptr_of_S, IH. lia.
  - unfold strrchr, with_fuel. erewrite (strrchr_loop_Ok s) by
      (done || (pose proof (cstr_size _ _ _ Hs); lia)). rewrite u8_small by lia.
    assert (last_idx (λ x, x =? c) s = last_idx (Z.eqb c) s) as ->; [|done].
    clear. induction s as [|x s IH]; simpl; [done|]. by rewrite IH, Z.eqb_sym.
  - unfold strspn. rewrite (strspn_Ok true s t) by done. do 3 f_equal.
    apply Hext. intros x. by destruct (inb t x).
  - unfold strcspn. by rewrite (strspn_Ok false s t) by done.
  - eexists. split; [by apply (strstr_Ok s t)|].
    pose proof (occurs_from_spec (S (length s) - length t) 0 s t) as Ho.
    destruct (occurs_from _ 0 s t) as [k|]; simpl.
    + right. exists k. destruct Ho as (Hr & Hk & Hmin). splits; try done. intros. apply Hmin. lia.
    + left. split; [done|]. intros j Hj.
      destruct (le_lt_dec (j + length t) (length s)); [|done]. exfalso. apply (Ho j); [lia|done].
Qed.

Lemma string_search_correct_witness :
  let m := two_strings 16 [97; 98; 97; 98; 99] 32 [98; 99] in
  strlen 16 m = Ok (5, m) ∧ ∃ r, strstr 16 32 m = Ok (r, m).
Proof.
  assert (cstr (two_strings 16 [97; 98; 97; 98; 99] 32 [98; 99]) 16 [97; 98; 97; 98; 99]) as Hs.
  { apply two_strings_fst. repeat constructor; lia. }
  assert (cstr (two_strings 16 [97; 98; 97; 98; 99] 32 [98; 99]) 32 [98; 99]) as Ht.
  { apply two_strings_snd; [repeat constructor; lia|simpl; lia]. }
  destruct (string_search_correct _ 16 32 _ _ 97 3 ltac:(lia) ltac:(lia) Hs Ht
              ltac:(simpl; lia) ltac:(simpl; lia) ltac:(lia) ltac:(lia))
    as (Hl & _ & _ & _ & _ & _ & _ & _ & r & Hr & _).
  split; [exact Hl|]. exists r. exact Hr.
Defined.

(** * Bounded copies *)

Lemma cstr_u8 m p s k : cstr m p s → Forall is_u8 (take k s).
Proof.
  intros [Hs _]. apply Forall_take. eapply Forall_impl; [exact Hs|]. unfold is_u8. simpl. lia.
Qed.
Lemma cstr_take m p s k : cstr m p s → bytes_at m p (take k s).
Proof.
  intros [_ Hb]. apply bytes_at_app in Hb as [Hb _].
  rewrite <- (take_drop k s) in Hb. apply bytes_at_app in Hb. apply Hb.
Qed.

Lemma take_min_length (n : nat) (s : list Z) : take (Nat.min (length s) n) s = take n s.
Proof.
  destruct (Nat.le_ge_cases (length s) n).
  - by rewrite Nat.min_l, !take_ge by lia.
  - by rewrite Nat.min_r by lia.
Qed.

(** Copying a prefix of a string and terminating it. *)
Lemma copy_terminate m d p s k :
  0 < d → 0 < p → cstr m p s → mapped m d (S k) → (k <= length s)%nat →
  d + Z.of_nat k < p ∨ p + Z.of_nat (length s) < d →
  (memcpy d p (Z.of_nat k);; store (d + Z.of_nat k) 0) m =
    Ok ((), put_bytes d (take k s ++ [0]) m).
Proof.
  intros Hd Hp Hs Hm Hk Hdis.
  assert (length (take k s) = k) as Hlen by (rewrite length_take; lia).
  erewrite M_bind_step.
  2:{ rewrite <- Hlen at 1. apply memcpy_Ok; try done; [by eapply cstr_take|by eapply cstr_u8| |lia].
      rewrite Hlen. eapply mapped_le; [done|lia]. }
  rewrite store_Ok.
  2:{ apply mapped_put with (n := S k); [done|lia]. }
  rewrite put_bytes_app, Hlen. simpl. rewrite put_bytes_insert_comm by lia. done.
Qed.

(** [strlcpy] and [strlcat] respect the size of the destination.  Given a
    destination of [size] mapped bytes disjoint from the source, they write
    only inside it, always terminate it when [size] is positive, truncate to
    [size - 1] characters, and return the length of the untruncated result. *)
Theorem strlcpy_strlcat_correct m d p s t size :
  0 < d → 0 < p → cstr m p s → mapped m d (Z.to_nat size) → 0 <= size < 4294967296 →
  Z.of_nat (length s + length t) < 4294967296 →
  d + size <= p ∨ p + Z.of_nat (length s) < d →
  (size > 0 → ∃ m', strlcpy d p size m = Ok (Z.of_nat (length s), m') ∧
     m' = put_bytes d (take (Z.to_nat (size - 1)) s ++ [0]) m ∧
     cstr m' d (take (Z.to_nat (size - 1)) s)) ∧
  (size = 0 → strlcpy d p size m = Ok (Z.of_nat (length s), m)) ∧
  (cstr m d t → Z.of_nat (length t) < size →
     ∃ m', strlcat d p size m = Ok (Z.of_nat (length s + length t), m') ∧
     m' = put_bytes d (take (Z.to_nat (size - 1)) (t ++ s) ++ [0]) m ∧
     cstr m' d (take (Z.to_nat (size - 1)) (t ++ s))) ∧
  (cstr m d t → size <= Z.of_nat (length t) →
     strlcat d p size m = Ok (Z.of_nat (length s + length t), m)).
Proof.
  intros Hd Hp Hs Hm Hsz Hl Hdis.
  pose proof (proj1 Hs) as Hchars.
  assert (∀ u : list Z, Forall (λ c, 0 < c < 256) u → cstr (put_bytes d (u ++ [0]) m) d u) as Hres.
  { intros u Hu. split; [done|]. apply put_bytes_at. }
  splits.
  - intros Hpos. set (k := Nat.min (length s) (Z.to_nat (size - 1))).
    assert (take (Z.to_nat (size - 1)) s = take k s) as -> by (unfold k; by rewrite take_min_length).
    exists (put_bytes d (take k s ++ [0]) m).
    splits; [|done|apply Hres; by apply Forall_take].
    unfold strlcpy. do 2 nonnull. erewrite M_bind_step by (apply (strlen_Ok s); [done|done|lia]).
    destruct (Z.ltb_spec 0 size); [|lia]. rewrite u32_small by lia.
    replace (if Z.of_nat (length s) <? size - 1 then _ else _) with (Z.of_nat k)
      by (destruct (Z.ltb_spec (Z.of_nat (length s)) (size - 1)); unfold k; lia).
    erewrite M_bind_step; [done|].
    apply copy_terminate; try done; [|unfold k; lia|unfold k; lia].
    eapply mapped_le; [done|unfold k; lia].
  - intros ->. unfold strlcpy. do 2 nonnull.
    by erewrite M_bind_step by (apply (strlen_Ok s); [done|done|lia]).
  - intros Ht Hlt. set (k := Nat.min (length s) (Z.to_nat (size - 1) - length t)).
    assert (take (Z.to_nat (size - 1)) (t ++ s) = t ++ take k s) as ->.
    { rewrite take_app, take_ge by lia. unfold k. by rewrite take_min_length. }
    exists (put_bytes d ((t ++ take k s) ++ [0]) m).
    splits; [|done|apply Hres, Forall_app; split; [apply Ht|by apply Forall_take]].
    unfold strlcat. do 2 nonnull.
    erewrite M_bind_step by (apply (strlen_Ok s); [done|done|lia]).
    erewrite M_bind_step by (apply (strlen_Ok t); [done|done|lia]).
    destruct (Z.ltb_spec 0 size); [|lia]. destruct (Z.ltb_spec (Z.of_nat (length t)) size); [|lia].
    cbn [andb]. rewrite (u32_small (size - _)), (u32_small (size - _ - 1)) by lia.
    replace (if Z.of_nat (length s) <? _ then _ else _) with (Z.of_nat k)
      by (destruct (Z.ltb_spec (Z.of_nat (length s)) (size - Z.of_nat (length t) - 1)); unfold k; lia).
    erewrite M_bind_step.
    2:{ apply copy_terminate; try done; [lia| |unfold k; lia|unfold k; lia].
        intros i Hi. rewrite <- Z.add_assoc, <- Nat2Z.inj_add. apply Hm. unfold k in Hi. lia. }
    unfold mret, M_ret. rewrite u32_small, Nat2Z.inj_add by lia. do 2 f_equal.
    rewrite <- app_assoc, (put_bytes_app m d t), put_bytes_put_ne by lia.
    by rewrite (put_bytes_same m d t) by (by apply cstr_bytes).
  - intros Ht Hge. unfold strlcat. do 2 nonnull.
    erewrite M_bind_step by (apply (strlen_Ok s); [done|done|lia]).
    erewrite M_bind_step by (apply (strlen_Ok t); [done|done|lia]).
    destruct (Z.ltb_spec (Z.of_nat (length t)) size); [lia|]. rewrite andb_false_r.
    unfold mret, M_ret, mbind, M_bind. rewrite u32_small, Nat2Z.inj_add by lia. done.
Qed.

Lemma strlcpy_strlcat_witness :
  let m := two_strings 16 [97; 98; 99] 32 [100; 101] in
  ∃ m', strlcpy 16 32 2 m = Ok (2, m') ∧ cstr m' 16 [100].
Proof.
  assert (cstr (two_strings 16 [97; 98; 99] 32 [100; 101]) 32 [100; 101]) as Hs.
  { apply two_strings_snd; [repeat constructor; lia|simpl; lia]. }
  destruct (strlcpy_strlcat_correct (two_strings 16 [97; 98; 99] 32 [100; 101]) 16 32 [100; 101] [] 2)
    as [H _]; [lia|lia|exact Hs| |lia|simpl; lia|simpl; lia|].
  - intros i Hi. assert (i = 0%nat ∨ i = 1%nat) as [->| ->] by lia; by eexists.
  - destruct H as (m' & E & _ & Hc); [lia|]. exists m'. by split.
Defined.
