(* ===== verification/StrToken.v ===== *)
(** The tokenizer [strtok_r] of lib/string.c, which process.c uses to split a
    command line: one call finds the next token, and the documented loop over
    it finds exactly the words of the string, each terminated in place. *)
From S2P Require Import Prelude Mem Str StrSearch.

(** The idiom of the comment of [strtok_r]:
    [for (token = strtok_r (s, d, &save); token != NULL;
          token = strtok_r (NULL, d, &save))]; the tokens in order. *)
Fixpoint tokenize_loop (fuel : nat) (token delimiters save : Z) : MM (list Z) :=
  match fuel with
  | O => fail OutOfFuel
  | S fuel =>
      if token =? NULL then mret []
      else
        '(token', save') ← strtok_r NULL delimiters save;
        rest ← tokenize_loop fuel token' delimiters save';
        mret (token :: rest)
  end.
Definition tokenize (s delimiters : Z) : MM (list Z) :=
  with_fuel (λ n, '(token, save) ← strtok_r s delimiters 0; tokenize_loop n token delimiters save).

(** The words of [s]: its maximal runs of characters outside [d]. *)
Fixpoint words (d : Z → bool) (s : list Z) : list (list Z) :=
  match s with
  | [] => []
  | c :: s =>
      if d c then words d s
      else match s with
           | [] => [[c]]
           | c' :: _ => if d c' then [c] :: words d s
                        else match words d s with
                             | w :: ws => (c :: w) :: ws
                             | [] => [[c]]
                             end
           end
  end.

Lemma words_delims d pre s : Forall (λ c, d c = true) pre → words d (pre ++ s) = words d s.
Proof. induction 1 as [|c pre Hc Hp IH]; simpl; [done|]. by rewrite Hc. Qed.

Lemma words_token d tok s :
  tok ≠ [] → Forall (λ c, d c = false) tok →
  (∀ c s', s = c :: s' → d c = true) → words d (tok ++ s) = tok :: words d s.
Proof.
  intros Hne Ht Hs. induction Ht as [|c tok Hc Ht IH]; [done|].
  destruct tok as [|c' tok].
  - simpl. rewrite Hc. destruct s as [|x s]; [done|]. by rewrite (Hs x s eq_refl).
  - specialize (IH ltac:(done)). cbn [app] in *. apply Forall_cons in Ht as [Hc' _].
    cbn [words] in *. rewrite Hc, Hc' in *. by rewrite IH.
Qed.

(** Splitting off the longest prefix satisfying a test. *)
Lemma span_split (f : Z → bool) s :
  ∃ pre rest, s = pre ++ rest ∧ Forall (λ c, f c = true) pre ∧
    (∀ c s', rest = c :: s' → f c = false).
Proof.
  induction s as [|c s (pre & rest & -> & Hp & Hr)].
  { by exists [], []. }
  destruct (f c) eqn:E.
  - exists (c :: pre), rest. splits; try done. by constructor.
  - exists [], (c :: pre ++ rest). splits; try done. by intros ? ? [= -> _].
Qed.

Section Delims.
Context (d : Z) (ds : list Z) (Hd : 0 < d).

Lemma skip_delims_Ok pre rest m p fuel :
  cstr m d ds → cstr m p (pre ++ rest) → Forall (λ c, inb ds c = true) pre →
  (∀ c s', rest = c :: s' → inb ds c = false) → (length pre < fuel)%nat →
  skip_delims fuel p d m =
    Ok ((p + Z.of_nat (length pre), match rest with [] => true | _ => false end), m).
Proof.
  intros Hds. revert p fuel. induction pre as [|c pre IH]; intros p [|fuel] Hs Hp Hr Hf;
    simpl in Hf; try lia; cbn [skip_delims app length] in *.
  - rewrite Z.add_0_r. destruct rest as [|c rest].
    + apply cstr_nil in Hs. mload. destruct (strchr_in ds m d 0) as (r & E & Hn); [done|done|lia|].
      erewrite M_bind_step by exact E. by rewrite Hn, inb_0.
    + apply cstr_cons in Hs as (H0 & Hc & _). mload.
      destruct (strchr_in ds m d c) as (r & E & Hn); [done|done|lia|].
      erewrite M_bind_step by exact E. by rewrite Hn, inb_app0, (Hr c rest eq_refl) by lia.
  - apply cstr_cons in Hs as (H0 & Hc & Hs). apply Forall_cons in Hp as [Hpc Hp]. mload.
    destruct (strchr_in ds m d c) as (r & E & Hn); [done|done|lia|].
    erewrite M_bind_step by exact E. rewrite Hn, inb_app0, Hpc by lia. simpl.
    destruct (Z.eqb_spec c 0); [lia|]. rewrite IH by (done || lia). do 3 f_equal. lia.
Qed.

Lemma skip_token_Ok tok rest m p fuel :
  cstr m d ds → cstr m p (tok ++ rest) → Forall (λ c, inb ds c = false) tok →
  (∀ c s', rest = c :: s' → inb ds c = true) → (length tok < fuel)%nat →
  skip_token fuel p d m = Ok (p + Z.of_nat (length tok), m).
Proof.
  intros Hds. revert p fuel. induction tok as [|c tok IH]; intros p [|fuel] Hs Hp Hr Hf;
    simpl in Hf; try lia; cbn [skip_token app length] in *.
  - rewrite Z.add_0_r. destruct rest as [|c rest].
    + apply cstr_nil in Hs. mload. destruct (strchr_in ds m d 0) as (r & E & Hn); [done|done|lia|].
      erewrite M_bind_step by exact E. by rewrite Hn, inb_0.
    + apply cstr_cons in Hs as (H0 & Hc & _). mload.
      destruct (strchr_in ds m d c) as (r & E & Hn); [done|done|lia|].
      erewrite M_bind_step by exact E. by rewrite Hn, inb_app0, (Hr c rest eq_refl) by lia.
  - apply cstr_cons in Hs as (H0 & Hc & Hs). apply Forall_cons in Hp as [Hpc Hp]. mload.
    destruct (strchr_in ds m d c) as (r & E & Hn); [done|done|lia|].
    erewrite M_bind_step by exact E. rewrite Hn, inb_app0, Hpc by lia. simpl.
    rewrite IH by (done || lia). do 2 f_equal. lia.
Qed.

(** One call from position [p] (given directly or saved). *)
Lemma strtok_r_none pre m s save :
  let p := if s =? NULL then save else s in
  0 < p → cstr m d ds → cstr m p pre → Forall (λ c, inb ds c = true) pre →
  strtok_r s d save m = Ok ((NULL, p + Z.of_nat (length pre)), m).
Proof.
  intros p Hp Hds Hs Hpre. unfold strtok_r. nonnull. fold p. nonnull.
  erewrite M_bind_step.
  2:{ unfold with_fuel. apply (skip_delims_Ok pre []); try done; [by rewrite app_nil_r|].
      pose proof (cstr_size _ _ _ Hs). lia. }
  done.
Qed.

Lemma strtok_r_some pre tok rest m s save :
  let p := if s =? NULL then save else s in
  let q := p + Z.of_nat (length pre) in
  let e := q + Z.of_nat (length tok) in
  0 < p → cstr m d ds → cstr m p (pre ++ tok ++ rest) →
  Forall (λ c, inb ds c = true) pre → tok ≠ [] → Forall (λ c, inb ds c = false) tok →
  (∀ c s', rest = c :: s' → inb ds c = true) →
  strtok_r s d save m =
    match rest with
    | [] => Ok ((q, e), m)
    | _ => Ok ((q, e + 1), <[e := 0]> m)
    end.
Proof.
  intros p q e Hp Hds Hs Hpre Hne Htok Hr. unfold strtok_r. nonnull. fold p. nonnull.
  pose proof (cstr_size _ _ _ Hs) as Hsz. rewrite !length_app in Hsz.
  erewrite M_bind_step.
  2:{ unfold with_fuel. apply (skip_delims_Ok pre (tok ++ rest)); try done; [|lia].
      destruct tok as [|x tok]; [done|]. intros c s' [= -> _]. by apply Forall_cons in Htok as [? _]. }
  destruct tok as [|x tok]; [done|]. cbn [app]. fold q.
  apply cstr_app in Hs as (_ & _ & Hs). fold q in Hs.
  erewrite M_bind_step.
  2:{ unfold with_fuel. apply (skip_token_Ok (x :: tok) rest); try done. simpl in *. lia. }
  fold e. apply cstr_app in Hs as (_ & _ & Hs). fold e in Hs.
  destruct rest as [|c rest].
  - apply cstr_nil in Hs. by mload.
  - apply cstr_cons in Hs as (H0 & Hc & _). mload. destruct (Z.eqb_spec c 0); [lia|]. simpl.
    assert (is_Some (m !! e)) as He by eauto. by mstore.
Qed.

(** One call: either only delimiters are left, or it returns the first word [tok]
    and leaves the string [rest'] after it to the next call. *)
Lemma strtok_r_next s m p arg save :
  (if arg =? NULL then save else arg) = p → 0 < p → cstr m d ds → cstr m p s →
  (words (inb ds) s = [] ∧ strtok_r arg d save m = Ok ((NULL, p + Z.of_nat (length s)), m)) ∨
  ∃ q tok sv rest' m1, strtok_r arg d save m = Ok ((q, sv), m1) ∧
    words (inb ds) s = tok :: words (inb ds) rest' ∧ p <= q ∧ (length rest' < length s)%nat ∧
    (q + Z.of_nat (length tok) < sv ∨ q + Z.of_nat (length tok) = sv ∧ rest' = []) ∧ sv + Z.of_nat (length rest') = p + Z.of_nat (length s) ∧
    cstr m1 q tok ∧ cstr m1 sv rest' ∧ (∀ a, is_Some (m !! a) → is_Some (m1 !! a)) ∧
    (∀ a, a < p ∨ p + Z.of_nat (length s) <= a → m1 !! a = m !! a).
Proof.
  intros Harg Hp Hds Hs.
  destruct (span_split (inb ds) s) as (pre & rest & -> & Hpre & Hrest).
  destruct rest as [|c rest'].
  { left. rewrite app_nil_r in *. rewrite <- (app_nil_r pre) at 1. rewrite words_delims by done. split; [done|].
    pose proof (strtok_r_none pre m arg save) as H. cbv zeta in H. rewrite Harg in H. by apply H. }
  right. destruct (span_split (λ c, negb (inb ds c)) (c :: rest')) as (tok & rest & Heq & Htok & Hend).
  assert (tok ≠ []) as Hne.
  { intros ->. specialize (Hend c rest' ltac:(done)). by rewrite (Hrest c rest' eq_refl) in Hend. }
  assert (Forall (λ c, inb ds c = false) tok) as Htok'
    by (eapply Forall_impl; [exact Htok|]; intros x; apply negb_true_iff).
  assert (∀ c s', rest = c :: s' → inb ds c = true) as Hend'
    by (intros ? ? E; by apply negb_false_iff, (Hend _ _ E)).
  rewrite Heq in *. clear c rest' Heq Hrest Htok Hend.
  pose proof (strtok_r_some pre tok rest m arg save) as Hcall. cbv zeta in Hcall.
  rewrite Harg in Hcall. specialize (Hcall Hp Hds Hs Hpre Hne Htok' Hend').
  set (q := p + Z.of_nat (length pre)) in *. set (e := q + Z.of_nat (length tok)) in *.
  assert (cstr m q (tok ++ rest)) as Hq by (by apply cstr_app in Hs as (_ & _ & ?)).
  assert (0 < length tok)%nat by (destruct tok; simpl; [done|lia]).
  rewrite words_delims, words_token, !length_app by done.
  destruct rest as [|c s'].
  - exists q, tok, e, [], m. rewrite app_nil_r in Hq.
    assert (m !! e = Some 0) as He
      by (destruct Hq as [_ Hq]; apply bytes_at_app in Hq as [_ Hq]; by apply bytes_at_cons in Hq as [? _]).
    cbn [length]. splits; try done; try lia; [by right|by apply cstr_nil].
  - exists q, tok, (e + 1), s', (<[e := 0]> m). apply cstr_app in Hq as (Hchars & Hb & Hr).
    apply cstr_cons in Hr as (He & Hc & Hs'). fold e in He, Hs'.
    cbn [length words]. rewrite (Hend' c s' eq_refl). splits; try done; try lia.
    + split; [done|]. apply bytes_at_app. split; [apply bytes_at_insert_ne; [done|lia]|].
      apply bytes_at_cons. split; [apply lookup_insert_eq|apply bytes_at_nil].
    + eapply cstr_same_bytes; [exact Hs'|]. intros. apply lookup_insert_ne. lia.
    + intros a Ha. destruct (decide (a = e)) as [->|]; [rewrite lookup_insert_eq|rewrite lookup_insert_ne by done]; eauto.
    + intros a Ha. apply lookup_insert_ne. lia.
Qed.

(** The loop from a saved position [p]: its tokens are the words of the rest
    of the string, and memory below [p] is left alone. *)
Lemma tokenize_from s m p fuel arg save :
  (if arg =? NULL then save else arg) = p → 0 < p → cstr m d ds → cstr m p s →
  d + Z.of_nat (length ds) < p ∨ p + Z.of_nat (length s) < d →
  (length s < fuel)%nat →
  ∃ ps m', ('(t, sv) ← strtok_r arg d save; tokenize_loop fuel t d sv) m = Ok (ps, m') ∧
    Forall2 (cstr m') ps (words (inb ds) s) ∧
    (∀ a, a < p ∨ p + Z.of_nat (length s) <= a → m' !! a = m !! a).
Proof.
  revert s m p arg save. induction fuel as [|fuel IH]; intros s m p arg save Harg Hp Hds Hs Hdis Hf; [lia|].
  destruct (strtok_r_next s m p arg save Harg Hp Hds Hs)
    as [[-> E]|(q & tok & sv & rest & m1 & E & -> & Hq & Hl & Hsv & Hend & Htok & Hrest & _ & Hm1)].
  { exists [], m. erewrite M_bind_step by exact E. by splits. }
  erewrite M_bind_step by exact E. cbn [tokenize_loop].
  destruct (Z.eqb_spec q NULL) as [->|_]; [unfold NULL in Hq; lia|].
  destruct (IH rest m1 sv NULL sv) as (ps & m' & E' & Hps & Hout); [done|lia| |done|lia|lia|].
  { eapply cstr_same_bytes; [exact Hds|]. intros. apply Hm1. lia. }
  apply M_bind_Ok in E' as ([t' sv'] & m2 & E1 & E2). exists (q :: ps), m'.
  erewrite M_bind_step by exact E1. cbv beta iota. erewrite M_bind_step by exact E2. splits; [done| |].
  - constructor; [|done]. eapply cstr_same_bytes; [exact Htok|]. intros i Hi. apply Hout.
    destruct Hsv as [?|[? ->]]; cbn [length]; lia.
  - intros a Ha. rewrite Hout by lia. apply Hm1. lia.
Qed.
End Delims.

(** C32: Tokenizing a string with [strtok_r] yields its words.  For a string
    [s] and delimiters [ds] in disjoint memory, the documented loop terminates
    with one pointer per maximal run of non-delimiters, in order, each
    pointing to that run as a terminated string; no byte outside the string is
    changed. *)
Theorem strtok_r_tokenizes m p s d ds :
  0 < p → 0 < d → cstr m p s → cstr m d ds →
  d + Z.of_nat (length ds) < p ∨ p + Z.of_nat (length s) < d →
  ∃ ps m', tokenize p d m = Ok (ps, m') ∧
    Forall2 (cstr m') ps (words (inb ds) s) ∧
    (∀ a, a < p ∨ p + Z.of_nat (length s) < a → m' !! a = m !! a).
Proof.
  intros Hp Hd Hs Hds Hdis.
  assert ((p =? NULL) = false) as Hnn by (unfold NULL; destruct (Z.eqb_spec p 0); lia).
  destruct (tokenize_from d ds Hd s m p (S (size m)) p 0) as (ps & m' & E & H); try done.
  { by rewrite Hnn. } { pose proof (cstr_size _ _ _ Hs). lia. }
  destruct H as [Hw Hout]. exists ps, m'. splits; try done. intros. apply Hout. lia.
Qed.

Lemma strtok_r_tokenizes_witness :
  let m := two_strings 16 [32; 97; 98; 32; 32; 99] 32 [32] in
  ∃ ps m', tokenize 16 32 m = Ok (ps, m') ∧ Forall2 (cstr m') ps [[97; 98]; [99]].
Proof.
  destruct (strtok_r_tokenizes (two_strings 16 [32; 97; 98; 32; 32; 99] 32 [32]) 16
              [32; 97; 98; 32; 32; 99] 32 [32]) as (ps & m' & E & Hw & _); [lia|lia| | |simpl; lia|].
  - apply two_strings_fst. repeat constructor; lia.
  - apply two_strings_snd; [repeat constructor; lia|simpl; lia].
  - exists ps, m'. split; [exact E|exact Hw].
Defined.
