(* ===== verification/CStdlib.v ===== *)
(** lib/stdlib.c: [atoi], the heap sort behind [qsort] and [sort], and the
    binary search behind [bsearch].

    An array of [cnt] elements of [size] bytes is a list of [cnt] byte lists;
    the comparison function is a parameter returning a strcmp-type result.
    Element indexes are the source's 1-based ones. *)
From S2P Require Import Prelude Mem Str.

(** * Character classes (lib/ctype.h) and [atoi] *)

Definition isdigit (c : Z) : bool := (48 <=? c) && (c <=? 57).
Definition isspace (c : Z) : bool :=
  (c =? 32) || (c =? 12) || (c =? 10) || (c =? 13) || (c =? 9) || (c =? 11).

Fixpoint skip_spaces (fuel : nat) (s : Z) : MM Z :=
  match fuel with
  | O => fail OutOfFuel
  | S fuel => c ← load s; if isspace c then skip_spaces fuel (s + 1) else mret s
  end.
(** [for (value = 0; isdigit ( *s); s++) value = value * 10 - ( *s - '0');] *)
Fixpoint parse_digits (fuel : nat) (s value : Z) : MM Z :=
  match fuel with
  | O => fail OutOfFuel
  | S fuel =>
      c ← load s;
      if isdigit c then parse_digits fuel (s + 1) (s32 (s32 (value * 10) - (c - 48)))
      else mret value
  end.
Definition atoi (s : Z) : MM Z :=
  check (negb (s =? NULL));;
  s ← with_fuel (λ n, skip_spaces n s);
  c ← load s;
  let '(negative, s) :=
    if c =? 43 then (false, s + 1) else if c =? 45 then (true, s + 1) else (false, s) in
  value ← with_fuel (λ n, parse_digits n s 0);
  mret (if (negative : bool) then value else s32 (- value)).

(** * Sorting and searching arrays *)

Abbreviation chunk := (list Z).

(** The element with 1-based index [idx], and its byte [i]. *)
Definition elem (array : list chunk) (idx : Z) : outcome chunk := of_option (zget array (idx - 1)).
Definition byte_of (e : chunk) (i : Z) : outcome Z := of_option (zget e i).
Definition set_byte (array : list chunk) (idx i v : Z) : outcome (list chunk) :=
  e ← elem array idx; e' ← of_option (zset e i v); of_option (zset array (idx - 1) e').

Definition do_swap (array : list chunk) (a_idx b_idx size : Z) : outcome (list chunk) :=
  for_up (Z.to_nat size) 0 (λ i array,
    a ← elem array a_idx; t ← byte_of a i;
    b ← elem array b_idx; v ← byte_of b i;
    array ← set_byte array a_idx i v;
    set_byte array b_idx i t) array.

Section Compare.
Context (compare : chunk → chunk → Z).

Definition do_compare (array : list chunk) (a_idx b_idx : Z) : outcome Z :=
  a ← elem array a_idx; b ← elem array b_idx; Ok (compare a b).

(** [left <= cnt && do_compare (array, left, max, ...) > 0] *)
Definition greater (array : list chunk) (child max cnt : Z) : outcome bool :=
  if child <=? cnt then r ← do_compare array child max; Ok (0 <? r) else Ok false.

Fixpoint heapify_loop (fuel : nat) (array : list chunk) (i cnt size : Z) : outcome (list chunk) :=
  match fuel with
  | O => Err OutOfFuel
  | S fuel =>
      let left := u32 (2 * i) in
      let right := u32 (2 * i + 1) in
      let max := i in
      l ← greater array left max cnt;
      let max := if (l : bool) then left else max in
      r ← greater array right max cnt;
      let max := if (r : bool) then right else max in
      if max =? i then Ok array
      else array ← do_swap array i max size; heapify_loop fuel array max cnt size
  end.
(** The index doubles in every round and stays below 2^31, so 33 rounds are
    enough ([heapify_ok]). *)
Definition heapify (array : list chunk) (i cnt size : Z) : outcome (list chunk) :=
  heapify_loop 33 array i cnt size.

(** [for (i = cnt / 2; i > 0; i--)], [i] iterations left. *)
Fixpoint build_heap (i : nat) (array : list chunk) (cnt size : Z) : outcome (list chunk) :=
  match i with
  | O => Ok array
  | S i' => array ← heapify array (Z.of_nat i) cnt size; build_heap i' array cnt size
  end.
(** [for (i = cnt; i > 1; i--)] *)
Fixpoint sort_heap (i : nat) (array : list chunk) (size : Z) : outcome (list chunk) :=
  match i with
  | O | S O => Ok array
  | S i' =>
      array ← do_swap array 1 (Z.of_nat i) size;
      array ← heapify array 1 (Z.of_nat i - 1) size;
      sort_heap i' array size
  end.

(** [base] is the address of the array. *)
Definition sort (base : Z) (array : list chunk) (cnt size : Z) : outcome (list chunk) :=
  assert (negb (base =? NULL) || (cnt =? 0)) (
  assert (0 <? size) (
  array ← build_heap (Z.to_nat (cnt / 2)) array cnt size;
  sort_heap (Z.to_nat cnt) array size)).

(** [compare_thunk] calls the comparison it is given. *)
Definition qsort (base : Z) (array : list chunk) (cnt size : Z) : outcome (list chunk) :=
  sort base array cnt size.

(** The element at address [p] of the array at [base]. *)
Definition elem_at (base : Z) (array : list chunk) (size p : Z) : outcome chunk :=
  of_option (zget array ((p - base) / size)).

Fixpoint search_loop (fuel : nat) (key : chunk) (base : Z) (array : list chunk) (size : Z)
    (first last : Z) : outcome Z :=
  match fuel with
  | O => Err OutOfFuel
  | S fuel =>
      if first <? last then
        let range := (last - first) / size in
        let middle := first + range / 2 * size in
        m ← elem_at base array size middle;
        let cmp := compare key m in
        if cmp <? 0 then search_loop fuel key base array size first middle
        else if 0 <? cmp then search_loop fuel key base array size (middle + size) last
        else Ok middle
      else Ok NULL
  end.
Definition binary_search (key : chunk) (base : Z) (array : list chunk) (cnt size : Z) : outcome Z :=
  search_loop (S (Z.to_nat cnt)) key base array size base (base + size * cnt).
Definition bsearch (key : chunk) (base : Z) (array : list chunk) (cnt size : Z) : outcome Z :=
  binary_search key base array cnt size.

(** ** Swapping *)

(** The array with elements [a] and [b] (1-based, distinct) exchanged. *)
Definition swapped (array : list chunk) (a b : Z) (x y : chunk) : list chunk :=
  <[Z.to_nat (b - 1) := x]> (<[Z.to_nat (a - 1) := y]> array).

Lemma elem_Ok array idx e : zget array (idx - 1) = Some e → elem array idx = Ok e.
Proof. unfold elem. by intros ->. Qed.

Lemma set_byte_Ok array idx e i v :
  zget array (idx - 1) = Some e → 0 <= i < Z.of_nat (length e) →
  set_byte array idx i v = Ok (<[Z.to_nat (idx - 1) := <[Z.to_nat i := v]> e]> array).
Proof.
  intros He Hi. unfold set_byte, elem. rewrite He. unfold mbind; simpl.
  rewrite zset_Some by done. simpl. rewrite zset_Some by (by eapply zget_Some_range). done.
Qed.

(** The first [i] bytes of [u] and the others of [v]. *)
Definition mix (i : Z) (u v : chunk) : chunk := take (Z.to_nat i) u ++ drop (Z.to_nat i) v.

Lemma mix_length i u v : 0 <= i <= Z.of_nat (length u) → length u = length v →
  length (mix i u v) = length u.
Proof. intros. unfold mix. rewrite length_app, length_take, length_drop. lia. Qed.

Lemma mix_get i u v b :
  0 <= i < Z.of_nat (length u) → v !! Z.to_nat i = Some b → zget (mix i u v) i = Some b.
Proof.
  intros Hi Hb. unfold zget, mix. bcases; [lia|].
  rewrite lookup_app_r, length_take, lookup_drop by (rewrite length_take; lia).
  replace (Z.to_nat i + _)%nat with (Z.to_nat i) by lia. done.
Qed.

Lemma mix_step i u v b :
  0 <= i → length u = length v → u !! Z.to_nat i = Some b →
  <[Z.to_nat i := b]> (mix i u v) = mix (i + 1) u v.
Proof.
  intros Hi Hl Hb. pose proof (lookup_lt_Some _ _ _ Hb). unfold mix.
  rewrite insert_app_r_alt, length_take by (rewrite length_take; lia).
  replace (Z.to_nat i - _)%nat with 0%nat by lia.
  replace (Z.to_nat (i + 1)) with (S (Z.to_nat i)) by lia.
  rewrite (take_S_r _ _ b), <- app_assoc by done. f_equal.
  destruct (lookup_lt_is_Some_2 v (Z.to_nat i)) as [c Hc]; [lia|].
  by rewrite (drop_S _ c).
Qed.

(** Exchanging byte [i] of the elements [a] and [b]. *)
Lemma swap_byte_Ok array a b x y i :
  a ≠ b → 0 <= a - 1 < Z.of_nat (length array) → 0 <= b - 1 < Z.of_nat (length array) →
  length x = length y → 0 <= i < Z.of_nat (length x) →
  let arr := swapped array a b (mix i x y) (mix i y x) in
  (a0 ← elem arr a; t ← byte_of a0 i; b0 ← elem arr b; v ← byte_of b0 i;
   arr ← set_byte arr a i v; set_byte arr b i t) =
  Ok (swapped array a b (mix (i + 1) x y) (mix (i + 1) y x)).
Proof.
  intros Hab Ra Rb Hl Hi arr.
  destruct (lookup_lt_is_Some_2 x (Z.to_nat i)) as [bx Hbx]; [lia|].
  destruct (lookup_lt_is_Some_2 y (Z.to_nat i)) as [by_ Hby]; [lia|].
  assert (zget arr (a - 1) = Some (mix i y x)) as Ea.
  { unfold arr, swapped. rewrite !zget_insert by (rewrite ?length_insert; lia).
    destruct (Z.eqb_spec (b - 1) (a - 1)); [lia|]. by rewrite Z.eqb_refl. }
  assert (zget arr (b - 1) = Some (mix i x y)) as Eb.
  { unfold arr, swapped. rewrite !zget_insert by (rewrite ?length_insert; lia).
    by rewrite Z.eqb_refl. }
  rewrite (elem_Ok _ _ _ Ea), (elem_Ok _ _ _ Eb). unfold byte_of. cbn [mbind outcome_bind].
  rewrite (mix_get i y x bx), (mix_get i x y by_) by (done || lia).
  cbn [of_option mbind outcome_bind].
  rewrite (set_byte_Ok _ _ _ _ _ Ea) by (rewrite mix_length; lia). cbn [mbind outcome_bind].
  erewrite set_byte_Ok.
  2:{ rewrite zget_insert by (unfold arr, swapped; rewrite !length_insert; lia).
      destruct (Z.eqb_spec (a - 1) (b - 1)); [lia|exact Eb]. }
  2:{ rewrite mix_length; lia. }
  rewrite !mix_step by (done || lia). f_equal. unfold arr, swapped.
  rewrite (list_insert_insert_ne _ (Z.to_nat (a - 1)) (Z.to_nat (b - 1))) by lia.
  by rewrite !list_insert_insert_eq.
Qed.

Lemma do_swap_Ok array a b x y size :
  a ≠ b → zget array (a - 1) = Some x → zget array (b - 1) = Some y →
  Z.of_nat (length x) = size → Z.of_nat (length y) = size →
  do_swap array a b size = Ok (swapped array a b x y).
Proof.
  intros Hab Hx Hy Hlx Hly. unfold do_swap.
  pose proof (zget_Some_range _ _ _ Hx) as Ra. pose proof (zget_Some_range _ _ _ Hy) as Rb.
  destruct (for_up_inv (λ i arr, arr = swapped array a b (mix i x y) (mix i y x))
    (λ i array, a0 ← elem array a; t ← byte_of a0 i; b0 ← elem array b; v ← byte_of b0 i;
       array ← set_byte array a i v; set_byte array b i t) (Z.to_nat size) 0 array)
    as (arr & E & Harr).
  - unfold swapped, mix. simpl. rewrite !drop_0.
    unfold zget in Hx, Hy. destruct (a - 1 <? 0), (b - 1 <? 0); try done.
    rewrite (list_insert_id array) by done. by rewrite list_insert_id.
  - intros i arr Hi ->. eexists. split; [|reflexivity]. apply swap_byte_Ok; lia || done.
  - rewrite E, Harr, Z.add_0_l. unfold mix. rewrite Z2Nat.id by lia.
    rewrite !take_ge, !drop_ge, !app_nil_r by lia. done.
Qed.
(** ** The heap *)

(** The comparison is a total preorder. *)
Class CompareLaws : Prop := {
  cmp_flip a b : 0 < compare a b ↔ compare b a < 0;
  cmp_trans a b c : compare a b <= 0 → compare b c <= 0 → compare a c <= 0
}.
Context `{!CompareLaws}.

Lemma cmp_gt_le a b : 0 < compare a b → compare b a <= 0.
Proof. rewrite cmp_flip. lia. Qed.

Definition below (arr : list chunk) (c k : Z) : Prop :=
  ∀ x y, zget arr (c - 1) = Some x → zget arr (k - 1) = Some y → compare x y <= 0.
Definition child (c k : Z) : Prop := c = 2 * k ∨ c = 2 * k + 1.

(** Every element from [lo] on is at least as large as its children, up to
    [cnt]; and the same except at [e], whose children are below its parent. *)
Definition heap (arr : list chunk) (lo cnt : Z) : Prop :=
  ∀ k c, child c k → lo <= k → c <= cnt → below arr c k.
Definition heap_except (arr : list chunk) (lo cnt e : Z) : Prop :=
  (∀ k c, child c k → lo <= k → c <= cnt → k ≠ e → below arr c k) ∧
  (∀ g c, child e g → lo <= g → child c e → c <= cnt → below arr c g).

Definition all_size (arr : list chunk) (size : Z) : Prop :=
  Forall (λ e, Z.of_nat (length e) = size) arr.

Lemma all_size_get arr size k e :
  all_size arr size → zget arr k = Some e → Z.of_nat (length e) = size.
Proof.
  unfold zget. intros Hall. destruct (k <? 0); [done|]. intros Hl.
  by eapply (lookup_Forall _ _ _ _ Hall).
Qed.

Lemma swapped_get arr a b x y k :
  0 <= a - 1 < Z.of_nat (length arr) → 0 <= b - 1 < Z.of_nat (length arr) →
  zget (swapped arr a b x y) (k - 1) =
    if k =? b then Some x else if k =? a then Some y else zget arr (k - 1).
Proof.
  intros Ha Hb. unfold swapped. rewrite !zget_insert by (rewrite ?length_insert; lia).
  destruct (Z.eqb_spec (b - 1) (k - 1)), (Z.eqb_spec k b); try lia; try done.
  destruct (Z.eqb_spec (a - 1) (k - 1)), (Z.eqb_spec k a); try lia; done.
Qed.

Lemma swapped_perm arr a b x y :
  zget arr (a - 1) = Some x → zget arr (b - 1) = Some y → swapped arr a b x y ≡ₚ arr.
Proof.
  unfold zget, swapped. destruct (a - 1 <? 0), (b - 1 <? 0); try done.
  apply Permutation_insert_swap.
Qed.

(** The choice of the largest among [i] and its children. *)
Lemma greater_Ok arr c m cnt :
  1 <= c → 1 <= m <= Z.of_nat (length arr) → cnt <= Z.of_nat (length arr) →
  ∃ b, greater arr c m cnt = Ok b ∧
    (b = true → c <= cnt ∧ below arr m c) ∧ (b = false → c <= cnt → below arr c m).
Proof.
  intros Hc Hm Hcnt. unfold greater. destruct (Z.leb_spec c cnt); [|exists false; splits; done || lia].
  destruct (zget_is_Some arr (c - 1)) as [x Hx]; [lia|].
  destruct (zget_is_Some arr (m - 1)) as [y Hy]; [lia|].
  unfold do_compare. rewrite (elem_Ok _ _ _ Hx), (elem_Ok _ _ _ Hy). cbn [mbind outcome_bind].
  eexists. split; [reflexivity|]. unfold below.
  destruct (Z.ltb_spec 0 (compare x y)) as [Hlt|Hle]; split; intros Hb; try done.
  - split; [done|]. intros u v Hu Hv. simplify_eq. by apply cmp_gt_le.
  - intros _ u v Hu Hv. simplify_eq. done.
Qed.

Lemma below_refl arr k : below arr k k.
Proof.
  intros u v Hu Hv. simplify_eq. destruct (Z_le_gt_dec (compare u u) 0); [done|].
  apply cmp_gt_le. lia.
Qed.

Lemma below_trans arr a b c :
  1 <= b <= Z.of_nat (length arr) → below arr a b → below arr b c → below arr a c.
Proof.
  intros Hb H1 H2 x z Hx Hz. destruct (zget_is_Some arr (b - 1)) as [y Hy]; [lia|].
  eapply cmp_trans; eauto.
Qed.

(** Sinking one level: after exchanging [i] with its largest child [m], the
    only possible violation is at [m]. *)
Lemma sink_step arr lo cnt i m x y :
  1 <= lo <= i → i <= cnt → cnt <= Z.of_nat (length arr) → heap_except arr lo cnt i →
  child m i → m <= cnt → (∀ c, child c i → c <= cnt → below arr c m) → below arr i m →
  zget arr (i - 1) = Some x → zget arr (m - 1) = Some y →
  heap_except (swapped arr i m x y) lo cnt m.
Proof.
  intros Hlo Hi Hcnt [Hh Hg] Hm Hmc Hmax Him Hx Hy. unfold child in *.
  assert (∀ k, zget (swapped arr i m x y) (k - 1) =
    if k =? m then Some x else if k =? i then Some y else zget arr (k - 1)) as Hget
    by (intros; apply swapped_get; lia).
  split.
  - intros k c Hc Hk Hcc Hkm u v. unfold child in Hc. rewrite !Hget.
    destruct (Z.eqb_spec k m); [done|]. destruct (Z.eqb_spec k i) as [->|Hki].
    + intros Hu [= <-]. destruct (Z.eqb_spec c m) as [->|].
      * simplify_eq. by eapply Him.
      * destruct (Z.eqb_spec c i); [lia|]. by eapply (Hmax c).
    + destruct (Z.eqb_spec c m) as [->|]; [lia|]. destruct (Z.eqb_spec c i) as [->|].
      * intros [= <-] Hv. by eapply (Hg k m).
      * intros Hu Hv. eapply (Hh k c); done || lia.
  - intros g c Hmg Hlg Hc Hcc u v. unfold child in Hmg, Hc. assert (g = i) as -> by lia. rewrite !Hget.
    destruct (Z.eqb_spec i m); [lia|]. rewrite Z.eqb_refl. intros Hu [= <-].
    destruct (Z.eqb_spec c m); [lia|]. destruct (Z.eqb_spec c i); [lia|].
    eapply (Hh m c); done || lia.
Qed.

Lemma heapify_loop_ok fuel arr lo i cnt size :
  1 <= lo <= i → i <= cnt → cnt <= Z.of_nat (length arr) → cnt < 2147483648 →
  all_size arr size → heap_except arr lo cnt i → cnt < i * 2 ^ Z.of_nat fuel →
  ∃ arr', heapify_loop fuel arr i cnt size = Ok arr' ∧ heap arr' lo cnt ∧ arr' ≡ₚ arr ∧
    ∀ k, cnt < k → zget arr' (k - 1) = zget arr (k - 1).
Proof.
  revert arr i. induction fuel as [|fuel IH]; intros arr i Hlo Hi Hcnt Hb Hsz Hh Hf.
  { simpl in Hf. lia. }
  cbn [heapify_loop]. rewrite !u32_small by lia.
  destruct (greater_Ok arr (2 * i) i cnt) as (l & El & Hl1 & Hl0); [lia..|].
  rewrite El. cbn [mbind outcome_bind]. set (m1 := if l then 2 * i else i).
  assert (1 <= m1 <= cnt) as Hm1 by (unfold m1; destruct l; [destruct Hl1; lia|lia]).
  destruct (greater_Ok arr (2 * i + 1) m1 cnt) as (r & Er & Hr1 & Hr0); [lia..|].
  rewrite Er. cbn [mbind outcome_bind]. set (m := if r then 2 * i + 1 else m1).
  assert (1 <= m <= cnt) as Hm by (unfold m; destruct r; [destruct Hr1; lia|lia]).
  assert (m = i ∨ child m i) as Hcase by (unfold m, m1, child; destruct r, l; lia).
  assert (below arr i m1) as Him1 by (unfold m1; destruct l; [by apply Hl1|apply below_refl]).
  assert (∀ c, child c i → c <= cnt → below arr c m) as Hmax.
  { assert (2 * i <= cnt → below arr (2 * i) m1) as H2.
    { intros. unfold m1. destruct l; [apply below_refl|by apply Hl0]. }
    intros c [->| ->] Hc; unfold m; destruct r.
    - eapply below_trans; [|by apply H2|by apply Hr1]. lia.
    - by apply H2.
    - apply below_refl.
    - by apply Hr0. }
  assert (below arr i m) as Him.
  { unfold m. destruct r; [|done]. eapply below_trans; [|exact Him1|by apply Hr1]. lia. }
  destruct (Z.eqb_spec m i) as [E|Hne].
  { exists arr. splits; try done. intros k c Hc Hk Hcc. destruct (decide (k = i)) as [->|].
    - rewrite <- E at 1. by apply Hmax.
    - by apply (proj1 Hh). }
  destruct Hcase as [|Hcm]; [done|].
  destruct (zget_is_Some arr (i - 1)) as [x Hx]; [lia|].
  destruct (zget_is_Some arr (m - 1)) as [y Hy]; [lia|].
  pose proof (swapped_perm arr i m x y Hx Hy) as Hp.
  rewrite (do_swap_Ok arr i m x y) by (done || by eapply all_size_get || lia).
  cbn [mbind outcome_bind].
  destruct (IH (swapped arr i m x y) m) as (arr' & E & Hheap & Hperm & Hout).
  - unfold child in Hcm. lia.
  - lia.
  - by rewrite (Permutation_length Hp).
  - done.
  - unfold all_size. by rewrite Hp.
  - eapply sink_step; done || lia.
  - unfold child in Hcm. rewrite Nat2Z.inj_succ, Z.pow_succ_r in Hf by lia. nia.
  - exists arr'. splits; [done|done|by rewrite Hperm|].
    intros k Hk. rewrite Hout by done. rewrite swapped_get by lia.
    destruct (Z.eqb_spec k m), (Z.eqb_spec k i); try lia. done.
Qed.
Lemma heapify_ok arr lo i cnt size :
  1 <= lo <= i → i <= cnt → cnt <= Z.of_nat (length arr) → cnt < 2147483648 →
  all_size arr size → heap_except arr lo cnt i →
  ∃ arr', heapify arr i cnt size = Ok arr' ∧ heap arr' lo cnt ∧ arr' ≡ₚ arr ∧
    ∀ k, cnt < k → zget arr' (k - 1) = zget arr (k - 1).
Proof.
  intros. apply (heapify_loop_ok 33); try done. change (2 ^ Z.of_nat 33) with 8589934592. lia.
Qed.

Lemma build_heap_ok (i : nat) arr cnt size :
  2 * Z.of_nat i <= cnt → cnt <= Z.of_nat (length arr) → cnt < 2147483648 → all_size arr size →
  heap arr (Z.of_nat i + 1) cnt →
  ∃ arr', build_heap i arr cnt size = Ok arr' ∧ heap arr' 1 cnt ∧ arr' ≡ₚ arr.
Proof.
  revert arr. induction i as [|i IH]; intros arr Hi Hcnt Hb Hsz Hh; [by exists arr|].
  cbn [build_heap].
  destruct (heapify_ok arr (Z.of_nat (S i)) (Z.of_nat (S i)) cnt size)
    as (arr1 & E & Hheap & Hp & _); [lia..|done| |].
  { split.
    - intros k c Hc Hk Hcc Hne. apply Hh; [done|lia|done].
    - intros g c Hg Hlg. unfold child in Hg. lia. }
  rewrite E. cbn [mbind outcome_bind].
  destruct (IH arr1) as (arr2 & E2 & Hh2 & Hp2).
  - lia.
  - by rewrite (Permutation_length Hp).
  - done.
  - unfold all_size. by rewrite Hp.
  - by replace (Z.of_nat i + 1) with (Z.of_nat (S i)) by lia.
  - exists arr2. splits; [done|done|by rewrite Hp2].
Qed.

(** The root of a heap is its largest element. *)
Lemma heap_root arr cnt k :
  heap arr 1 cnt → cnt <= Z.of_nat (length arr) → 1 <= k <= cnt → below arr k 1.
Proof.
  intros Hh Hcnt Hk. assert (∃ n, k = Z.of_nat n) as [n ->] by (exists (Z.to_nat k); lia).
  induction n as [n IH] using lt_wf_ind.
  destruct (decide (n = 1%nat)) as [->|].
  - apply below_refl.
  - pose proof (Nat.div_mod_eq n 2) as Hdm. pose proof (Nat.mod_upper_bound n 2) as Hmod.
    set (h := (n / 2)%nat) in *. clearbody h. set (r := (n mod 2)%nat) in *. clearbody r.
    eapply (below_trans _ _ (Z.of_nat h)); [lia| |apply IH; lia].
    apply Hh; [unfold child; lia|lia|lia].
Qed.

(** The sorted part: from position [i] on the array is sorted, and all the
    elements before are below it. *)
Definition sorted_from (arr : list chunk) (i : Z) : Prop :=
  ∀ j k, 1 <= j < k → i < k → k <= Z.of_nat (length arr) → below arr j k.

Lemma zget_perm_prefix (arr arr' : list chunk) cnt :
  arr' ≡ₚ arr → (∀ k, cnt < k → zget arr' (k - 1) = zget arr (k - 1)) → 0 <= cnt →
  ∀ j x, 1 <= j <= cnt → zget arr' (j - 1) = Some x →
  ∃ j', 1 <= j' <= cnt ∧ zget arr (j' - 1) = Some x.
Proof.
  intros Hp Hout Hc j x Hj Hx.
  assert (drop (Z.to_nat cnt) arr' = drop (Z.to_nat cnt) arr) as Hd.
  { apply list_eq. intros i. rewrite !lookup_drop.
    specialize (Hout (Z.of_nat (Z.to_nat cnt + i) + 1) ltac:(lia)).
    rewrite Z.add_simpl_r in Hout. unfold zget in Hout.
    destruct (Z.ltb_spec (Z.of_nat (Z.to_nat cnt + i)) 0); [lia|]. by rewrite Nat2Z.id in Hout. }
  assert (take (Z.to_nat cnt) arr' ≡ₚ take (Z.to_nat cnt) arr) as Ht.
  { apply (Permutation_app_inv_r (drop (Z.to_nat cnt) arr)).
    rewrite <- Hd at 1. by rewrite !take_drop. }
  assert (x ∈ take (Z.to_nat cnt) arr) as Hin.
  { rewrite <- Ht. apply (list_elem_of_lookup_2 _ (Z.to_nat (j - 1))).
    rewrite lookup_take_lt by lia. unfold zget in Hx. by destruct (j - 1 <? 0). }
  apply list_elem_of_lookup in Hin as [n Hn]. apply lookup_take_Some in Hn as [Hn Hlt].
  exists (Z.of_nat n + 1). split; [lia|]. rewrite Z.add_simpl_r. unfold zget.
  destruct (Z.ltb_spec (Z.of_nat n) 0); [lia|]. by rewrite Nat2Z.id.
Qed.
(** Moving the root behind the shrinking heap. *)
Lemma extract_step arr i x y :
  2 <= i <= Z.of_nat (length arr) → heap arr 1 i →
  zget arr (1 - 1) = Some x → zget arr (i - 1) = Some y →
  heap_except (swapped arr 1 i x y) 1 (i - 1) 1.
Proof.
  intros Hi Hh Hx Hy. split.
  - intros k c Hc Hk Hcc Hne u v. unfold child in Hc. rewrite !swapped_get by lia.
    bcases; try lia. intros Hu Hv. eapply (Hh k c); done || lia.
  - intros g c Hg Hlg. unfold child in Hg. lia.
Qed.

Lemma sorted_step arr arr2 i x y :
  2 <= i <= Z.of_nat (length arr) → heap arr 1 i → sorted_from arr i →
  zget arr (1 - 1) = Some x → zget arr (i - 1) = Some y →
  arr2 ≡ₚ swapped arr 1 i x y →
  (∀ k, i - 1 < k → zget arr2 (k - 1) = zget (swapped arr 1 i x y) (k - 1)) →
  sorted_from arr2 (i - 1).
Proof.
  intros Hi Hh Hs Hx Hy Hp Hout j k Hj Hk Hkl u v Hu Hv.
  rewrite (Permutation_length Hp), (Permutation_length (swapped_perm _ _ _ _ _ Hx Hy)) in Hkl.
  rewrite Hout, swapped_get in Hv by lia.
  assert (∃ j', 1 <= j' <= Z.max i j ∧ j' < k + (if k =? i then 1 else 0) ∧ zget arr (j' - 1) = Some u)
    as (j' & Hj' & Hj'k & Hu').
  { destruct (Z_le_gt_dec j (i - 1)).
    - destruct (zget_perm_prefix _ _ (i - 1) Hp Hout ltac:(lia) j u ltac:(lia) Hu) as (j' & Hj' & Hu').
      rewrite swapped_get in Hu' by lia. destruct (Z.eqb_spec j' i); [lia|].
      destruct (Z.eqb_spec j' 1); simplify_eq.
      + exists i. splits; try done; try lia. bcases; lia.
      + exists j'. splits; try done; try lia. bcases; lia.
    - rewrite Hout, swapped_get in Hu by lia. destruct (Z.eqb_spec j i); simplify_eq.
      + exists 1. splits; try done; try lia. bcases; lia.
      + destruct (Z.eqb_spec j 1); [lia|]. exists j. splits; try done; try lia. bcases; lia. }
  destruct (Z.eqb_spec k i) as [->|]; [|destruct (Z.eqb_spec k 1); [lia|]].
  - simplify_eq. eapply (heap_root arr i j'); try done; lia.
  - eapply (Hs j' k); done || lia.
Qed.

Lemma sort_heap_SS i array size :
  sort_heap (S (S i)) array size =
    (array ← do_swap array 1 (Z.of_nat (S (S i))) size;
     array ← heapify array 1 (Z.of_nat (S (S i)) - 1) size;
     sort_heap (S i) array size).
Proof. reflexivity. Qed.

Lemma sort_heap_ok (i : nat) arr size :
  Z.of_nat i <= Z.of_nat (length arr) → Z.of_nat i < 2147483648 → all_size arr size →
  heap arr 1 (Z.of_nat i) → sorted_from arr (Z.of_nat i) →
  ∃ arr', sort_heap i arr size = Ok arr' ∧ arr' ≡ₚ arr ∧ sorted_from arr' 1.
Proof.
  revert arr. induction i as [|i IH]; intros arr Hi Hb Hsz Hh Hs.
  { exists arr. splits; try done. intros j k Hj Hk Hkl. apply Hs; lia. }
  destruct i as [|i]; [by exists arr|]. rewrite sort_heap_SS.
  remember (S (S i)) as n eqn:Hn.
  destruct (zget_is_Some arr (1 - 1)) as [x Hx]; [lia|].
  destruct (zget_is_Some arr (Z.of_nat n - 1)) as [y Hy]; [lia|].
  pose proof (swapped_perm arr 1 (Z.of_nat n) x y Hx Hy) as Hp.
  erewrite bind_step.
  2:{ apply (do_swap_Ok arr 1 (Z.of_nat n) x y); try done; by eapply all_size_get || lia. }
  destruct (heapify_ok (swapped arr 1 (Z.of_nat n) x y) 1 1 (Z.of_nat n - 1) size)
    as (arr2 & E & Hheap & Hp2 & Hout).
  { lia. } { lia. } { rewrite (Permutation_length Hp). lia. } { lia. }
  { unfold all_size. by rewrite Hp. } { apply extract_step; try done. lia. }
  erewrite bind_step by exact E.
  destruct (IH arr2) as (arr3 & E3 & Hp3 & Hs3).
  - rewrite (Permutation_length Hp2), (Permutation_length Hp). lia.
  - lia.
  - unfold all_size. by rewrite Hp2, Hp.
  - by replace (Z.of_nat (S i)) with (Z.of_nat n - 1) by lia.
  - replace (Z.of_nat (S i)) with (Z.of_nat n - 1) by lia. eapply sorted_step; try done. lia.
  - exists arr3. splits; [done|by rewrite Hp3, Hp2|done].
Qed.

(** C33: [sort] (and [qsort], which calls it) sorts.  For a comparison that is
    a total preorder and an array of fewer than 2^31 elements of [size] > 0
    bytes, the heap sort terminates without leaving the array, and the result
    is a permutation of the array in nondescending order. *)
Theorem sort_correct base arr cnt size :
  base ≠ NULL → 0 < size → cnt = Z.of_nat (length arr) → cnt < 2147483648 → all_size arr size →
  ∃ arr', sort base arr cnt size = Ok arr' ∧ qsort base arr cnt size = Ok arr' ∧ arr' ≡ₚ arr ∧
    ∀ (j k : nat) x y, (j < k)%nat → arr' !! j = Some x → arr' !! k = Some y → compare x y <= 0.
Proof.
  intros Hb Hs -> Hlt Hsz. unfold qsort, sort.
  rewrite assert_true by (destruct (Z.eqb_spec base NULL); done).
  rewrite assert_true by lia.
  pose proof (Z.div_mod (Z.of_nat (length arr)) 2 ltac:(lia)) as Hdm.
  pose proof (Z.mod_pos_bound (Z.of_nat (length arr)) 2 ltac:(lia)) as Hmod.
  destruct (build_heap_ok (Z.to_nat (Z.of_nat (length arr) / 2)) arr (Z.of_nat (length arr)) size)
    as (arr1 & E1 & Hh & Hp1); [lia|lia|done|done| |].
  { intros k c Hc Hk Hcc. unfold child in Hc. lia. }
  rewrite E1. cbn [mbind outcome_bind]. rewrite Nat2Z.id.
  destruct (sort_heap_ok (length arr) arr1 size) as (arr2 & E2 & Hp2 & Hsorted).
  { by rewrite (Permutation_length Hp1). } { done. } { unfold all_size. by rewrite Hp1. } { done. }
  { intros j k Hj Hk Hkl. rewrite (Permutation_length Hp1) in Hkl. lia. }
  rewrite E2. exists arr2. splits; [done|done|by rewrite Hp2|].
  intros j k x y Hjk Hx Hy. pose proof (lookup_lt_Some _ _ _ Hy).
  apply (Hsorted (Z.of_nat j + 1) (Z.of_nat k + 1)); [lia|lia|lia| |];
    rewrite Z.add_simpl_r; unfold zget; [destruct (Z.ltb_spec (Z.of_nat j) 0)|destruct (Z.ltb_spec (Z.of_nat k) 0)];
    try lia; by rewrite Nat2Z.id.
Qed.
(** ** Binary search *)

(** In a sorted array the elements above the key are a suffix, those below it
    a prefix. *)
Definition sorted_array (arr : list chunk) : Prop :=
  ∀ (j k : nat) x y, (j < k)%nat → arr !! j = Some x → arr !! k = Some y → compare x y <= 0.

Lemma key_below key arr j k x y :
  sorted_array arr → (j <= k)%nat → arr !! j = Some x → arr !! k = Some y →
  compare key x < 0 → compare key y < 0.
Proof.
  intros Hs Hjk Hx Hy Hlt. destruct (decide (j = k)) as [->|]; [by simplify_eq|].
  destruct (Z.lt_ge_cases (compare key y) 0) as [|Hge]; [done|]. exfalso.
  assert (compare y key <= 0) by (pose proof (cmp_flip y key); lia).
  assert (compare x key <= 0) by (eapply cmp_trans; [eapply (Hs j k); done || lia|done]).
  pose proof (cmp_flip x key). lia.
Qed.
Lemma key_above key arr j k x y :
  sorted_array arr → (j <= k)%nat → arr !! j = Some x → arr !! k = Some y →
  0 < compare key y → 0 < compare key x.
Proof.
  intros Hs Hjk Hx Hy Hlt. destruct (decide (j = k)) as [->|]; [by simplify_eq|].
  destruct (Z.lt_ge_cases 0 (compare key x)) as [|Hge]; [done|]. exfalso.
  assert (compare key y <= 0) by (eapply cmp_trans; [done|eapply (Hs j k); done || lia]). lia.
Qed.

Definition found (key : chunk) (base : Z) (arr : list chunk) (size r : Z) : Prop :=
  (r = NULL ∧ ∀ j x, arr !! j = Some x → compare key x ≠ 0) ∨
  (∃ (j : nat) x, r = base + Z.of_nat j * size ∧ arr !! j = Some x ∧ compare key x = 0).

Lemma search_loop_ok fuel key base arr size (f l : nat) :
  sorted_array arr → 0 < size → (f <= l <= length arr)%nat → (l - f < fuel)%nat →
  (∀ j x, (j < f)%nat → arr !! j = Some x → 0 < compare key x) →
  (∀ j x, (l <= j)%nat → arr !! j = Some x → compare key x < 0) →
  ∃ r, search_loop fuel key base arr size (base + Z.of_nat f * size) (base + Z.of_nat l * size) = Ok r
    ∧ found key base arr size r.
Proof.
  intros Hs Hsz. revert f l. induction fuel as [|fuel IH]; intros f l Hfl Hf Hlo Hhi; [lia|].
  cbn [search_loop]. destruct (Z.ltb_spec (base + Z.of_nat f * size) (base + Z.of_nat l * size)).
  2:{ exists NULL. split; [done|]. left. split; [done|]. intros j x Hx.
      assert (f = l) as -> by nia. destruct (le_lt_dec l j); [specialize (Hhi j x)|specialize (Hlo j x)];
        intuition lia. }
  assert (f < l)%nat as Hlt by nia.
  replace (base + Z.of_nat l * size - (base + Z.of_nat f * size)) with (Z.of_nat (l - f) * size) by nia.
  rewrite Z.div_mul by lia. set (k := (f + (l - f) / 2)%nat).
  assert ((l - f) / 2 < l - f)%nat by (apply Nat.div_lt; lia).
  replace (base + Z.of_nat f * size + Z.of_nat (l - f) / 2 * size) with (base + Z.of_nat k * size)
    by (unfold k; rewrite Nat2Z.inj_add, Nat2Z.inj_div; change (Z.of_nat 2) with 2; ring).
  destruct (lookup_lt_is_Some_2 arr k) as [x Hx]; [lia|].
  erewrite bind_step.
  2:{ unfold elem_at. replace (base + Z.of_nat k * size - base) with (Z.of_nat k * size) by lia.
      rewrite Z.div_mul by lia. unfold zget. destruct (Z.ltb_spec (Z.of_nat k) 0); [lia|].
      rewrite Nat2Z.id, Hx. reflexivity. }
  destruct (Z.ltb_spec (compare key x) 0); [|destruct (Z.ltb_spec 0 (compare key x))].
  - apply IH; [lia|lia|done|]. intros j y Hj Hy. by eapply (key_below key arr k j).
  - replace (base + Z.of_nat k * size + size) with (base + Z.of_nat (S k) * size) by lia.
    apply IH; [lia|lia| |done]. intros j y Hj Hy. eapply (key_above key arr j k); done || lia.
  - eexists. split; [reflexivity|]. right. exists k, x. splits; try done. lia.
Qed.

(** [binary_search] (and [bsearch]) on a sorted array terminates within
    one step per element and returns the address of an element equal to the
    key, or the null pointer exactly when there is none. *)
Theorem binary_search_correct key base arr cnt size :
  sorted_array arr → 0 < size → cnt = Z.of_nat (length arr) →
  ∃ r, binary_search key base arr cnt size = Ok r ∧ bsearch key base arr cnt size = Ok r ∧
    found key base arr size r.
Proof.
  intros Hs Hsz ->. unfold bsearch, binary_search. rewrite Nat2Z.id.
  destruct (search_loop_ok (S (length arr)) key base arr size 0 (length arr)) as (r & E & Hr);
    try done; [lia|lia|lia| |].
  { intros j x Hj Hx. apply lookup_lt_Some in Hx. lia. }
  rewrite Z.mul_0_l, Z.add_0_r in E. rewrite (Z.mul_comm size). eauto.
Qed.
End Compare.

(** Lexicographic comparison of the bytes is such an order. *)
#[global] Instance lex_laws : CompareLaws lex.
Proof.
  assert (∀ a b, lex a b = -1 ∨ lex a b = 0 ∨ lex a b = 1) as H3.
  { induction a as [|x a IH]; intros [|y b]; simpl; try lia.
    destruct (x <? y), (y <? x); lia || apply IH. }
  split.
  - intros a b. rewrite (lex_antisym a b). lia.
  - intros a b c Hab Hbc.
    destruct (H3 a b) as [E|[E|E]], (H3 b c) as [E'|[E'|E']]; try lia;
      try apply lex_eq in E; try apply lex_eq in E'; subst; try lia.
    rewrite (lex_trans a b c); done || lia.
Qed.

Definition sample_array : list (list Z) := [[3; 1]; [1; 2]; [2; 9]; [1; 1]].

Lemma sort_correct_witness :
  ∃ arr', sort lex 4096 sample_array 4 2 = Ok arr' ∧ arr' ≡ₚ sample_array.
Proof.
  destruct (sort_correct lex 4096 sample_array 4 2) as (arr' & E & _ & Hp & _);
    [done|lia|done|lia|by repeat constructor|].
  by exists arr'.
Defined.

Lemma binary_search_correct_witness :
  ∃ r, binary_search lex [2; 9] 4096 [[1; 1]; [1; 2]; [2; 9]; [3; 1]] 4 2 = Ok r ∧
    found lex [2; 9] 4096 [[1; 1]; [1; 2]; [2; 9]; [3; 1]] 2 r.
Proof.
  destruct (binary_search_correct lex [2; 9] 4096 [[1; 1]; [1; 2]; [2; 9]; [3; 1]] 4 2)
    as (r & E & _ & Hr); [|lia|done|by exists r].
  intros [|[|[|[|j]]]] [|[|[|[|k]]]] x y Hjk Hx Hy; simpl in *; simplify_eq; simpl; lia || done.
Defined.

(** * [atoi] *)

(** The value of a digit string. *)
Definition digits_value (ds : list Z) : Z := fold_left (λ v c, v * 10 + (c - 48)) ds 0.

(** An optional sign as [atoi] reads it. *)
Definition signs (neg : bool) (sgn : list Z) : Prop := if neg then sgn = [45] else sgn = [] ∨ sgn = [43].

Lemma skip_spaces_Ok ws s m p fuel :
  cstr m p (ws ++ s) → Forall (λ c, isspace c = true) ws →
  (∀ c s', s = c :: s' → isspace c = false) → (length ws < fuel)%nat →
  skip_spaces fuel p m = Ok (p + Z.of_nat (length ws), m).
Proof.
  revert p fuel. induction ws as [|c ws IH]; intros p [|fuel] Hs Hw Hr Hf; simpl in Hf; try lia;
    cbn [skip_spaces app length] in *.
  - rewrite Z.add_0_r. destruct s as [|c s].
    + apply cstr_nil in Hs. by mload.
    + apply cstr_cons in Hs as (H0 & _ & _). mload. by rewrite (Hr c s eq_refl).
  - apply cstr_cons in Hs as (H0 & _ & Hs). apply Forall_cons in Hw as [Hc Hw]. mload.
    rewrite Hc, IH by (done || lia). do 2 f_equal. lia.
Qed.

Lemma s32_eq z : ∃ k, s32 z = z + k * 4294967296.
Proof.
  exists (- ((z + 2147483648) / 4294967296)). unfold s32. rewrite Z.mod_eq by lia. lia.
Qed.
Lemma s32_mod z k : s32 (z + k * 4294967296) = s32 z.
Proof.
  unfold s32. replace (z + k * 4294967296 + 2147483648) with (z + 2147483648 + k * 4294967296) by lia.
  by rewrite Z.mod_add.
Qed.

Lemma parse_digits_Ok ds s m p v fuel :
  cstr m p (ds ++ s) → Forall (λ c, isdigit c = true) ds →
  (∀ c s', s = c :: s' → isdigit c = false) → (length ds < fuel)%nat →
  parse_digits fuel p (s32 (- v)) m =
    Ok (s32 (- fold_left (λ v c, v * 10 + (c - 48)) ds v), m).
Proof.
  revert p v fuel. induction ds as [|c ds IH]; intros p v [|fuel] Hs Hd Hr Hf; simpl in Hf; try lia;
    cbn [parse_digits app length fold_left] in *.
  - destruct s as [|c s].
    + apply cstr_nil in Hs. by mload.
    + apply cstr_cons in Hs as (H0 & _ & _). mload. by rewrite (Hr c s eq_refl).
  - apply cstr_cons in Hs as (H0 & _ & Hs). apply Forall_cons in Hd as [Hc Hd]. mload. rewrite Hc.
    replace (s32 (s32 (s32 (- v) * 10) - (c - 48))) with (s32 (- (v * 10 + (c - 48)))).
    + apply IH; done || lia.
    + destruct (s32_eq (- v)) as [k ->]. destruct (s32_eq ((- v + k * 4294967296) * 10)) as [j ->].
      rewrite <- (s32_mod (- (v * 10 + (c - 48))) (k * 10 + j)). f_equal. ring.
Qed.

(** [atoi] reads optional white space, an optional sign and a run of
    decimal digits, and returns the signed value modulo 2^32; every value of
    an [int], the least one included, is returned exactly. *)
Theorem atoi_correct m p ws neg sgn ds rest :
  0 < p → cstr m p (ws ++ sgn ++ ds ++ rest) → Forall (λ c, isspace c = true) ws →
  signs neg sgn → Forall (λ c, isdigit c = true) ds → ds ≠ [] →
  (∀ c s', rest = c :: s' → isdigit c = false) →
  let v := if neg then - digits_value ds else digits_value ds in
  atoi p m = Ok (s32 v, m) ∧ (is_s32 v → atoi p m = Ok (v, m)).
Proof.
  intros Hp Hs Hw Hsgn Hd Hne Hr v.
  assert (atoi p m = Ok (s32 v, m)) as E; [|split; [done|]; intros; by rewrite E, s32_small].
  pose proof (cstr_size _ _ _ Hs) as Hsz. rewrite !length_app in Hsz.
  unfold atoi. nonnull. destruct ds as [|d ds]; [done|].
  pose proof (Forall_cons_1 _ _ _ Hd) as [Hdd _].
  assert (isspace d = false ∧ d ≠ 43 ∧ d ≠ 45) as (Hds & Hd43 & Hd45).
  { unfold isdigit, isspace in *. bcases; simpl in *; try done; lia. }
  erewrite M_bind_step.
  2:{ unfold with_fuel. apply (skip_spaces_Ok ws (sgn ++ (d :: ds) ++ rest)); [done|done| |lia].
      destruct neg; simpl in Hsgn; [subst|destruct Hsgn; subst]; intros c s' [= <- _]; done. }
  apply cstr_app in Hs as (_ & _ & Hs). set (q := p + Z.of_nat (length ws)) in *.
  assert (∀ r, cstr m r ((d :: ds) ++ rest) →
    with_fuel (λ n, parse_digits n r 0) m = Ok (s32 (- digits_value (d :: ds)), m)) as Hparse.
  { intros r Hcr. unfold with_fuel. change 0 with (s32 (- 0)) at 1.
    apply (parse_digits_Ok (d :: ds) rest); try done. lia. }
  assert (s32 (- s32 (- digits_value (d :: ds))) = s32 (digits_value (d :: ds))) as Hneg.
  { destruct (s32_eq (- digits_value (d :: ds))) as [k ->].
    rewrite <- (s32_mod (digits_value (d :: ds)) (- k)). f_equal. ring. }
  destruct neg; simpl in Hsgn; [subst sgn|destruct Hsgn as [-> | ->]].
  - apply cstr_cons in Hs as (H0 & _ & Hs). mload. erewrite M_bind_step by (by apply Hparse). done.
  - pose proof Hs as Hs'. apply cstr_cons in Hs as (H0 & _ & _). mload.
    destruct (Z.eqb_spec d 43); [done|]. destruct (Z.eqb_spec d 45); [done|].
    erewrite M_bind_step by (by apply Hparse). unfold mret, M_ret. by rewrite Hneg.
  - apply cstr_cons in Hs as (H0 & _ & Hs). mload. erewrite M_bind_step by (by apply Hparse).
    unfold mret, M_ret. by rewrite Hneg.
Qed.

Lemma atoi_correct_witness :
  let m := mem_of 16 ([32; 45; 50; 49; 52; 55; 52; 56; 51; 54; 52; 56] ++ [0]) in
  atoi 16 m = Ok (-2147483648, m).
Proof.
  refine (proj2 (atoi_correct _ 16 [32] true [45] [50; 49; 52; 55; 52; 56; 51; 54; 52; 56] []
            _ _ _ _ _ _ _) _); try done.
  - apply cstr_mem_of. repeat constructor; lia.
  - by repeat constructor.
  - by repeat constructor.
Defined.
