(* ===== verification/Stdio.v ===== *)
(** Formatted output (lib/stdio.c): the parser of conversion specifications,
    the conversions of integers and strings, [__vprintf] over an output
    callback, and its instance [vsnprintf] that writes to a bounded buffer.

    The callback is a parameter over the memory and data of its own.  A
    [va_list] is the sequence of the 32-bit words still to be read from the
    caller's stack; 64-bit arguments take two.  A string is the source's
    pointer or one of its literals.  Signed arithmetic wraps at 32 bits. *)
From S2P Require Import Prelude Mem Str CStdlib.

(** * Conversion specifications *)

Definition MINUS : Z := 1.
Definition PLUS : Z := 2.
Definition SPACE : Z := 4.
Definition POUND : Z := 8.
Definition ZERO : Z := 16.
Definition GROUP : Z := 32.

Inductive int_type := CHAR | SHORT | INT | INTMAX | LONG | LONGLONG | PTRDIFFT | SIZET.
#[export] Instance int_type_eq_dec : EqDecision int_type.
Proof. solve_decision. Defined.

Record printf_conversion := mkConv { flags : Z; width : Z; precision : Z; type : int_type }.

Record integer_base := mkBase { ibase : Z; digits : list Z; ix : Z; group : Z }.
Definition lower_digits : list Z := [48; 49; 50; 51; 52; 53; 54; 55; 56; 57; 97; 98; 99; 100; 101; 102].
Definition upper_digits : list Z := [48; 49; 50; 51; 52; 53; 54; 55; 56; 57; 65; 66; 67; 68; 69; 70].
Definition base_d : integer_base := mkBase 10 (take 10 lower_digits) 0 3.
Definition base_o : integer_base := mkBase 8 (take 8 lower_digits) 0 3.
Definition base_x : integer_base := mkBase 16 lower_digits 120 4.
Definition base_X : integer_base := mkBase 16 upper_digits 88 4.

(** [c->flags &= ~f]. *)
Definition unset (flags f : Z) : Z := Z.land flags (Z.lnot f).

(** * Variable arguments *)

Definition va_word (args : list Z) : outcome (Z * list Z) :=
  match args with w :: args => Ok (w, args) | [] => Err WildAccess end.
Definition va_dword (args : list Z) : outcome (Z * list Z) :=
  '(lo, args) ← va_word args; '(hi, args) ← va_word args; Ok (lo + 4294967296 * hi, args).

(** The argument of a signed conversion, as an [intmax_t]. *)
Definition va_signed (t : int_type) (args : list Z) : outcome (Z * list Z) :=
  match t with
  | CHAR => '(w, args) ← va_word args; Ok (s8 w, args)
  | SHORT => '(w, args) ← va_word args; Ok (s16 w, args)
  | INT | LONG | PTRDIFFT => '(w, args) ← va_word args; Ok (s32 w, args)
  | INTMAX | LONGLONG => '(d, args) ← va_dword args; Ok (s64 d, args)
  | SIZET =>
      '(w, args) ← va_word args;
      Ok (if SIZE_MAX / 2 <? w then w - SIZE_MAX - 1 else w, args)
  end.

(** The argument of an unsigned conversion, as a [uintmax_t]. *)
Definition va_unsigned (t : int_type) (args : list Z) : outcome (Z * list Z) :=
  match t with
  | CHAR => '(w, args) ← va_word args; Ok (u8 w, args)
  | SHORT => '(w, args) ← va_word args; Ok (u16 w, args)
  | INT | LONG | SIZET => '(w, args) ← va_word args; Ok (w, args)
  | INTMAX | LONGLONG => va_dword args
  | PTRDIFFT => '(w, args) ← va_word args; Ok (Z.land (u64 (s32 w)) 4294967295, args)
  end.

(** * The digits of an integer *)

(** The contents of [buf] from [cp - 1] down to its start; the array has 64
    elements. *)
Definition push (ch : Z) (buf : list Z) : outcome (list Z) :=
  if Z.of_nat (length buf) <? 64 then Ok (ch :: buf) else Err WildAccess.

(** [while (value > 0)]; a value of 64 bits has at most 64 digits. *)
Fixpoint digit_loop (fuel : nat) (c : printf_conversion) (b : integer_base) (value digit_cnt : Z)
    (buf : list Z) : outcome (list Z) :=
  match fuel with
  | O => Err OutOfFuel
  | S fuel =>
      if 0 <? value then
        buf ← (if has (flags c) GROUP && (0 <? digit_cnt) && (digit_cnt mod group b =? 0)
               then push 44 buf else Ok buf);
        d ← of_option (zget (digits b) (value mod ibase b));
        buf ← push d buf;
        digit_loop fuel c b (value / ibase b) (digit_cnt + 1) buf
      else Ok buf
  end.

(** [while (cp - buf < precision && cp < buf + sizeof buf - 1)]. *)
Fixpoint zero_loop (fuel : nat) (precision : Z) (buf : list Z) : outcome (list Z) :=
  match fuel with
  | O => Err OutOfFuel
  | S fuel =>
      if (Z.of_nat (length buf) <? precision) && (Z.of_nat (length buf) <? 63)
      then buf ← push 48 buf; zero_loop fuel precision buf
      else Ok buf
  end.

(** The sign character, or 0. *)
Definition sign_char (is_signed negative : bool) (c : printf_conversion) : Z :=
  if is_signed then
    if has (flags c) PLUS then if negative then 45 else 43
    else if has (flags c) SPACE then if negative then 45 else 32
    else if negative then 45 else 0
  else 0.

Definition x_char (value : Z) (b : integer_base) (c : printf_conversion) : Z :=
  if has (flags c) POUND && negb (value =? 0) then ix b else 0.

(** The contents of [buf] when output starts. *)
Definition digit_buffer (value : Z) (b : integer_base) (c : printf_conversion) : outcome (list Z) :=
  buf ← digit_loop 65 c b value 0 [];
  buf ← zero_loop 64 (if precision c <? 0 then 1 else precision c) buf;
  if has (flags c) POUND && (ibase b =? 8)
     && match buf with [] => true | ch :: _ => negb (ch =? 48) end
  then push 48 buf else Ok buf.

Definition pad_count (c : printf_conversion) (len x sign : Z) : Z :=
  let pad_cnt := s32 (width c - len - (if negb (x =? 0) then 2 else 0)
                      - (if negb (sign =? 0) then 1 else 0)) in
  if pad_cnt <? 0 then 0 else pad_cnt.

(** * Strings *)

Inductive source := At (p : Z) | Lit (s : list Z).
Definition null_text : list Z := [40; 110; 117; 108; 108; 41].
(** <<"<<no %%%c in kernel>>">> and <<"<<no %%%c conversion>>">>. *)
Definition no_kernel_text : list Z :=
  [60; 60; 110; 111; 32; 37; 37; 37; 99; 32; 105; 110; 32; 107; 101; 114; 110; 101; 108; 62; 62].
Definition no_conversion_text : list Z :=
  [60; 60; 110; 111; 32; 37; 37; 37; 99; 32; 99; 111; 110; 118; 101; 114; 115; 105; 111; 110; 62; 62].

Section Output.
Context {A : Type}.
Abbreviation FM := (M (mem * A)).
Context (output : Z → FM ()).

Definition on_mem {B} (f : MM B) : FM B := λ '(m, a), '(b, m) ← f m; Ok (b, (m, a)).

Definition char_at (f : source) (i : Z) : FM Z :=
  match f with
  | At p => on_mem (load (p + i))
  | Lit s => pureM (of_option (zget (s ++ [0]) i))
  end.

Definition source_strnlen (f : source) (maxlen : Z) : FM Z :=
  match f with
  | At p => on_mem (strnlen p maxlen)
  | Lit s => mret (Z.min maxlen (Z.of_nat (length s)))
  end.

Fixpoint output_dup (ch : Z) (cnt : nat) : FM () :=
  match cnt with O => mret () | S cnt => output ch;; output_dup ch cnt end.
Fixpoint output_list (s : list Z) : FM () :=
  match s with [] => mret () | ch :: s => output ch;; output_list s end.

Definition format_integer (value : Z) (is_signed negative : bool) (b : integer_base)
    (c : printf_conversion) : FM () :=
  let sign := sign_char is_signed negative c in
  let x := x_char value b c in
  buf ← pureM (digit_buffer value b c);
  let pad_cnt := Z.to_nat (pad_count c (Z.of_nat (length buf)) x sign) in
  (if negb (has (flags c) (Z.lor MINUS ZERO)) then output_dup 32 pad_cnt else mret ());;
  (if negb (sign =? 0) then output sign else mret ());;
  (if negb (x =? 0) then output 48;; output x else mret ());;
  (if has (flags c) ZERO then output_dup 48 pad_cnt else mret ());;
  output_list buf;;
  if has (flags c) MINUS then output_dup 32 pad_cnt else mret ().

(** [for (i = 0; i < length; i++) output (string[i], aux)], [n] characters
    left. *)
Fixpoint copy_chars (n : nat) (string : source) (i : Z) : FM () :=
  match n with
  | O => mret ()
  | S n => ch ← char_at string i; output ch;; copy_chars n string (i + 1)
  end.
Definition format_string (string : source) (length : Z) (c : printf_conversion) : FM () :=
  (if (length <? width c) && negb (has (flags c) MINUS)
   then output_dup 32 (Z.to_nat (u32 (s32 (width c - length)))) else mret ());;
  copy_chars (Z.to_nat length) string 0;;
  if (length <? width c) && has (flags c) MINUS
  then output_dup 32 (Z.to_nat (u32 (s32 (width c - length)))) else mret ().

(** ** Parsing a conversion *)

Definition flag_of (ch : Z) : option Z :=
  if ch =? 45 then Some MINUS else if ch =? 43 then Some PLUS else if ch =? 32 then Some SPACE
  else if ch =? 35 then Some POUND else if ch =? 48 then Some ZERO else if ch =? 39 then Some GROUP
  else None.
Fixpoint parse_flags (fuel : nat) (f : source) (i flags : Z) : FM (Z * Z) :=
  match fuel with
  | O => fail OutOfFuel
  | S fuel =>
      ch ← char_at f i;
      match flag_of ch with
      | Some b => parse_flags fuel f (i + 1) (Z.lor flags b)
      | None => mret (i, flags)
      end
  end.
(** [for (; isdigit ( *format); format++) v = v * 10 + *format - '0']. *)
Fixpoint parse_number (fuel : nat) (f : source) (i v : Z) : FM (Z * Z) :=
  match fuel with
  | O => fail OutOfFuel
  | S fuel =>
      ch ← char_at f i;
      if isdigit ch then parse_number fuel f (i + 1) (s32 (s32 (v * 10) + ch - 48))
      else mret (i, v)
  end.

Definition parse_type (f : source) (i : Z) : FM (Z * int_type) :=
  ch ← char_at f i;
  if ch =? 104 then
    ch ← char_at f (i + 1); mret (if ch =? 104 then (i + 2, CHAR) else (i + 1, SHORT))
  else if ch =? 106 then mret (i + 1, INTMAX)
  else if ch =? 108 then
    ch ← char_at f (i + 1); mret (if ch =? 108 then (i + 2, LONGLONG) else (i + 1, LONG))
  else if ch =? 116 then mret (i + 1, PTRDIFFT)
  else if ch =? 122 then mret (i + 1, SIZET)
  else mret (i, INT).

(** A number or, for [*], an argument. *)
Definition parse_amount (fuel : nat) (f : source) (i : Z) (args : list Z) : FM (Z * Z * list Z) :=
  ch ← char_at f i;
  if ch =? 42 then '(w, args) ← pureM (va_word args); mret (i + 1, s32 w, args)
  else '(i, v) ← parse_number fuel f i 0; mret (i, v, args).

(** [fuel] bounds the characters of the specification. *)
Definition parse_conversion (fuel : nat) (f : source) (i : Z) (args : list Z)
  : FM (Z * printf_conversion * list Z) :=
  '(i, flags) ← parse_flags fuel f i 0;
  let flags := if has flags MINUS then unset flags ZERO else flags in
  let flags := if has flags PLUS then unset flags SPACE else flags in
  '(i, width, args) ← parse_amount fuel f i args;
  let '(width, flags) :=
    if width <? 0 then (s32 (- width), Z.lor flags MINUS) else (width, flags) in
  ch ← char_at f i;
  '(i, precision, args) ←
    (if ch =? 46 then
       '(i, precision, args) ← parse_amount fuel f (i + 1) args;
       mret (i, if precision <? 0 then -1 else precision, args)
     else mret (i, -1, args));
  let flags := if 0 <=? precision then unset flags ZERO else flags in
  '(i, type) ← parse_type f i;
  mret (i, mkConv flags width precision type, args).

(** ** [__vprintf] *)

(** The base of the unsigned conversion [ch]. *)
Definition base_of (ch : Z) : option integer_base :=
  if ch =? 111 then Some base_o else if ch =? 117 then Some base_d
  else if ch =? 120 then Some base_x else if ch =? 88 then Some base_X else None.
Definition is_signed_conv (ch : Z) : bool := (ch =? 100) || (ch =? 105).
Definition is_refused (ch : Z) : bool :=
  (ch =? 102) || (ch =? 101) || (ch =? 69) || (ch =? 103) || (ch =? 71) || (ch =? 110).

(** The conversion [ch]; [print] is [__printf] with a literal format.  The
    result is the rest of the arguments. *)
Definition convert (print : list Z → list Z → FM ()) (ch : Z) (c : printf_conversion)
    (args : list Z) : FM (list Z) :=
  if is_signed_conv ch then
    '(value, args) ← pureM (va_signed (type c) args);
    format_integer (u64 (if value <? 0 then - value else value)) true (value <? 0) base_d c;;
    mret args
  else match base_of ch with
  | Some b =>
      '(value, args) ← pureM (va_unsigned (type c) args);
      format_integer value false false b c;;
      mret args
  | None =>
      if ch =? 99 then
        '(w, args) ← pureM (va_word args);
        format_string (Lit [u8 w]) 1 c;;
        mret args
      else if ch =? 115 then
        '(p, args) ← pureM (va_word args);
        let s := if p =? NULL then Lit null_text else At p in
        n ← source_strnlen s (u32 (precision c));
        format_string s (s32 n) c;;
        mret args
      else if ch =? 112 then
        '(p, args) ← pureM (va_word args);
        format_integer p false false base_x (mkConv POUND (width c) (precision c) (type c));;
        mret args
      else
        print (if is_refused ch then no_kernel_text else no_conversion_text) [u32 (s8 ch)];;
        mret args
  end.

Fixpoint vprintf_loop (print : list Z → list Z → FM ()) (fuel : nat) (f : source) (i : Z)
    (args : list Z) : FM () :=
  match fuel with
  | O => fail OutOfFuel
  | S fuel =>
      ch ← char_at f i;
      if ch =? 0 then mret ()
      else if negb (ch =? 37) then output ch;; vprintf_loop print fuel f (i + 1) args
      else
        ch ← char_at f (i + 1);
        if ch =? 37 then output 37;; vprintf_loop print fuel f (i + 2) args
        else
          '(i, c, args) ← parse_conversion fuel f (i + 1) args;
          ch ← char_at f i;
          args ← convert print ch c args;
          vprintf_loop print fuel f (i + 1) args
  end.

(** The formats [__vprintf] prints itself have only conversions that do not
    print, so two levels are enough. *)
Fixpoint vprintf_level (level fuel : nat) (f : source) (args : list Z) : FM () :=
  let print := match level with
               | O => λ _ _, fail OutOfFuel
               | S level => λ text args, vprintf_level level (S (length text)) (Lit text) args
               end in
  vprintf_loop print fuel f 0 args.
Definition __vprintf (fuel : nat) (format : Z) (args : list Z) : FM () :=
  vprintf_level 1 fuel (At format) args.
Definition __printf (fuel : nat) (format : Z) (args : list Z) : FM () := __vprintf fuel format args.
End Output.

(** * [vsnprintf] *)

Record vsnprintf_aux := mkAux { aux_p : Z; aux_length : Z; aux_max_length : Z }.

Definition vsnprintf_helper (ch : Z) : M (mem * vsnprintf_aux) () := λ '(m, a),
  let length := s32 (aux_length a + 1) in
  if aux_length a <? aux_max_length a
  then '(_, m) ← store (aux_p a) ch m; Ok ((), (m, mkAux (aux_p a + 1) length (aux_max_length a)))
  else Ok ((), (m, mkAux (aux_p a) length (aux_max_length a))).

Definition vsnprintf (fuel : nat) (buffer buf_size format : Z) (args : list Z) : MM Z := λ m,
  let aux := mkAux buffer 0 (if 0 <? buf_size then s32 (buf_size - 1) else 0) in
  '(_, (m, aux)) ← __vprintf vsnprintf_helper fuel format args (m, aux);
  '(_, m) ← (if 0 <? buf_size then store (aux_p aux) 0 m else Ok ((), m));
  Ok (aux_length aux, m).
Definition snprintf (fuel : nat) (buffer buf_size format : Z) (args : list Z) : MM Z :=
  vsnprintf fuel buffer buf_size format args.
