(* ===== verification/StdioOut.v ===== *)
(** What formatted output prints: a computation over the output callback that
    prints a known sequence of characters, and the characters printed by the
    integer and string conversions. *)
From S2P Require Import Prelude Mem Str StrSearch CStdlib Stdio.

Section Emits.
Context {A : Type} (output : Z → M (mem * A) ()).
Abbreviation FM := (M (mem * A)).

(** [R] is memory the callback leaves alone; [I n] holds of states in which it
    may be called [n] more times. *)
Context (R : mem) (I : nat → mem → A → Prop).
Context (I_mem : ∀ n m a, I n m a → R ⊆ m).
Context (I_out : ∀ n ch m a m' a',
  I (S n) m a → output ch (m, a) = Ok ((), (m', a')) → I n m' a').

(** [f] prints [cs] and returns [r]. *)
Definition emits {B} (f : FM B) (cs : list Z) (r : B) : Prop :=
  ∀ n m a, I (length cs + n) m a → f (m, a) = (output_list output cs;; mret r) (m, a).

Lemma output_list_inv cs n m a m' a' :
  I (length cs + n) m a → output_list output cs (m, a) = Ok ((), (m', a')) → I n m' a'.
Proof.
  revert m a. induction cs as [|ch cs IH]; intros m a HI; simpl.
  - intros [= -> ->]. done.
  - unfold mbind, M_bind. destruct (output ch (m, a)) as [[[] [m1 a1]]|] eqn:E; [|done].
    apply IH. eapply I_out; [|done]. done.
Qed.

Lemma output_list_app cs cs' s :
  output_list output (cs ++ cs') s = (output_list output cs;; output_list output cs') s.
Proof.
  revert s. induction cs as [|ch cs IH]; intros s; [done|]. cbn [app output_list].
  unfold mbind, M_bind in *. destruct (output ch s) as [[[] s1]|]; [|done]. by rewrite IH.
Qed.

Lemma emits_bind {B C} (f : FM B) (g : B → FM C) cs cs' r r' :
  emits f cs r → emits (g r) cs' r' → emits (f ≫= g) (cs ++ cs') r'.
Proof.
  intros Hf Hg n m a HI. rewrite length_app in HI.
  unfold mbind at 1, M_bind. rewrite (Hf (length cs' + n)%nat) by (by rewrite Nat.add_assoc).
  unfold mbind, M_bind. rewrite output_list_app. unfold mbind, M_bind.
  destruct (output_list output cs (m, a)) as [[[] [m' a']]|] eqn:E; [|done]. unfold mret, M_ret.
  rewrite (Hg n); [done|]. eapply output_list_inv; [|done]. by rewrite Nat.add_assoc.
Qed.

(** A step that prints nothing. *)
Lemma emits_silent {B C} (f : FM B) (g : B → FM C) cs r r' :
  emits f [] r → emits (g r) cs r' → emits (f ≫= g) cs r'.
Proof. apply (emits_bind f g []). Qed.

Lemma emits_ret {B} (r : B) : emits (mret r) [] r.
Proof. done. Qed.
Lemma emits_pure {B} (o : outcome B) r : o = Ok r → emits (pureM o) [] r.
Proof. by intros ->. Qed.

Lemma emits_output ch : emits (output ch) [ch] ().
Proof.
  intros n m a HI. simpl. unfold mbind, M_bind, mret, M_ret. by destruct (output ch (m, a)) as [[[] ?]|].
Qed.

Lemma emits_list cs : emits (output_list output cs) cs ().
Proof.
  intros n m a HI. unfold mbind, M_bind, mret, M_ret.
  by destruct (output_list output cs (m, a)) as [[[] ?]|].
Qed.

Lemma emits_dup ch n : emits (output_dup output ch n) (replicate n ch) ().
Proof.
  induction n as [|n IH]; [apply emits_ret|]. by apply (emits_bind _ _ [ch] (replicate n ch) () ()); [apply emits_output|].
Qed.

Lemma emits_if {B} (b : bool) (f g : FM B) cs cs' r :
  (b = true → emits f cs r) → (b = false → emits g cs' r) →
  emits (if b then f else g) (if b then cs else cs') r.
Proof. destruct b; auto. Qed.

(** A conditional piece of output. *)
Definition opt (b : bool) (cs : list Z) : list Z := if b then cs else [].
Lemma emits_opt (b : bool) (f : FM ()) cs :
  emits f cs () → emits (if b then f else mret ()) (opt b cs) ().
Proof. intros. by apply emits_if. Qed.

(** ** Reading *)

(** The characters of a string from index [i] on, its terminator included. *)
Definition chars_at (f : source) (i : Z) (s : list Z) : Prop :=
  match f with
  | At p => cstr R (p + i) s
  | Lit t => drop (Z.to_nat i) t = s ∧ 0 <= i <= Z.of_nat (length t)
  end.

Lemma chars_at_cons f i ch s : chars_at f i (ch :: s) → chars_at f (i + 1) s.
Proof.
  destruct f as [p|t]; simpl.
  - rewrite cstr_cons, Z.add_assoc. tauto.
  - intros [Hd Hi]. pose proof (f_equal length Hd) as Hl. rewrite length_drop in Hl. simpl in Hl.
    split; [|lia]. replace (Z.to_nat (i + 1)) with (Z.to_nat i + 1)%nat by lia.
    rewrite <- drop_drop, Hd. done.
Qed.

Lemma chars_at_app f i s s' : chars_at f i (s ++ s') → chars_at f (i + Z.of_nat (length s)) s'.
Proof.
  revert i. induction s as [|ch s IH]; intros i H; cbn [app length] in *; [by rewrite Z.add_0_r|].
  apply chars_at_cons, IH in H. by replace (i + Z.of_nat (S (length s))) with (i + 1 + Z.of_nat (length s)) by lia.
Qed.

(** The character at the head of the rest of a string. *)
Definition hd0 (s : list Z) : Z := match s with [] => 0 | ch :: _ => ch end.

Lemma emits_char f i s : chars_at f i s → emits (char_at f i) [] (hd0 s).
Proof.
  intros Hs n m a HI. destruct f as [p|t]; simpl in *.
  - unfold on_mem. rewrite (mem_load_Ok m _ (hd0 s)); [done|].
    eapply lookup_weaken; [|by eapply I_mem]. destruct s; [by apply cstr_nil|by apply cstr_cons in Hs as [? _]].
  - destruct Hs as [<- Hi]. unfold pureM. unfold zget. destruct (Z.ltb_spec i 0); [lia|].
    destruct (decide (Z.to_nat i < length t)%nat).
    + rewrite lookup_app_l by done. destruct (lookup_lt_is_Some_2 t (Z.to_nat i)) as [x Hx]; [done|].
      rewrite Hx. by rewrite (drop_S t x (Z.to_nat i)).
    + rewrite lookup_app_r, drop_ge by lia. by replace (Z.to_nat i - length t)%nat with 0%nat by lia.
Qed.
End Emits.

(** * The text of an integer *)

(** The digits of [v], least significant first. *)
Fixpoint numeral_le (fuel : nat) (base v : Z) : list Z :=
  match fuel with
  | O => []
  | S fuel => if 0 <? v then v mod base :: numeral_le fuel base (v / base) else []
  end.
(** The numeral of a 64-bit value, most significant digit first. *)
Definition numeral (base v : Z) : list Z := reverse (numeral_le 65 base v).
Definition value_of (base : Z) (ds : list Z) : Z := fold_left (λ v d, v * base + d) ds 0.

Lemma value_of_snoc base ds d : value_of base (ds ++ [d]) = value_of base ds * base + d.
Proof. unfold value_of. by rewrite fold_left_app. Qed.

Lemma pow_8_div n v base : 8 <= base → 0 <= v < 8 ^ Z.of_nat (S n) → 0 <= v / base < 8 ^ Z.of_nat n.
Proof.
  intros Hb Hv. split; [apply Z.div_pos; lia|].
  rewrite Nat2Z.inj_succ, Z.pow_succ_r in Hv by lia. apply Z.div_lt_upper_bound; [lia|].
  assert (0 < 8 ^ Z.of_nat n) by (apply Z.pow_pos_nonneg; lia). nia.
Qed.

Lemma numeral_le_spec base (n : nat) fuel v :
  8 <= base → 0 <= v < 8 ^ Z.of_nat n → (n <= fuel)%nat →
  let ds := numeral_le fuel base v in
  value_of base (reverse ds) = v ∧ Forall (λ d, 0 <= d < base) ds ∧ (length ds <= n)%nat ∧
  (ds ≠ [] → last ds ≠ Some 0) ∧ (ds = [] ↔ v = 0).
Proof.
  intros Hb. revert fuel v. induction n as [|n IH]; intros fuel v Hv Hf.
  { assert (v = 0) as -> by (simpl in Hv; lia). destruct fuel; simpl; by repeat split; try lia. }
  destruct fuel as [|fuel]; [lia|]. cbn [numeral_le]. destruct (Z.ltb_spec 0 v).
  2: { assert (v = 0) as -> by lia. simpl. by repeat split; try lia. }
  destruct (IH fuel (v / base)) as (H1 & H2 & H3 & H4 & H5); [by apply pow_8_div|lia|].
  set (ds := numeral_le fuel base (v / base)) in *. simpl. splits.
  - rewrite reverse_cons, value_of_snoc, H1. pose proof (Z.div_mod v base). lia.
  - constructor; [|done]. apply Z.mod_pos_bound. lia.
  - lia.
  - intros _. rewrite last_cons. destruct (last ds) eqn:El.
    + intros [= ->]. apply H4; [|done]. by intros ->.
    + apply last_None in El. rewrite El in H5. pose proof (proj1 H5 eq_refl) as H0.
      rewrite Z.mod_eq, H0 by lia. intros [= ?]. lia.
  - split; [done|lia].
Qed.

(** A numeral is its value's unique digit sequence without leading zeros. *)
Lemma numeral_spec base v : 8 <= base → is_u64 v →
  value_of base (numeral base v) = v ∧ Forall (λ d, 0 <= d < base) (numeral base v) ∧
  (length (numeral base v) <= 22)%nat ∧ head (numeral base v) ≠ Some 0 ∧ (numeral base v = [] ↔ v = 0).
Proof.
  intros Hb Hv. unfold is_u64 in Hv. destruct (numeral_le_spec base 22 65 v) as (H1 & H2 & H3 & H4 & H5);
    [done|change (8 ^ Z.of_nat 22) with 73786976294838206464; lia|lia|].
  unfold numeral. set (ds := numeral_le 65 base v) in *. splits.
  - done.
  - by rewrite Forall_reverse.
  - by rewrite length_reverse.
  - rewrite head_reverse. destruct ds; [done|]. by apply H4.
  - rewrite <- H5. split; [|by intros ->]. intros E. by rewrite <- (reverse_involutive ds), E.
Qed.

(** Digits from the right, with a comma before every group but the first. *)
Fixpoint pieces (on : bool) (g k : Z) (ds : list Z) : list Z :=
  match ds with
  | [] => []
  | d :: ds => (if on && (0 <? k) && (k mod g =? 0) then [44] else []) ++ d :: pieces on g (k + 1) ds
  end.

Definition glyph (b : integer_base) (d : Z) : Z := default 0 (digits b !! Z.to_nat d).
Definition base_ok (b : integer_base) : Prop :=
  8 <= ibase b ∧ length (digits b) = Z.to_nat (ibase b).

Lemma bind_ok {X Y} (x : X) (f : X → outcome Y) : Ok x ≫= f = f x.
Proof. done. Qed.
Lemma buf_push_Ok ch buf : (length buf < 64)%nat → push ch buf = Ok (ch :: buf).
Proof. intros. unfold push. destruct (Z.ltb_spec (Z.of_nat (length buf)) 64); [done|lia]. Qed.

Lemma digit_loop_Ok c b (n : nat) fuel v k buf :
  base_ok b → 0 <= v < 8 ^ Z.of_nat n → (n < fuel)%nat → 0 <= k → (length buf + 2 * n <= 64)%nat →
  digit_loop fuel c b v k buf =
    Ok (reverse (pieces (has (flags c) GROUP) (group b) k (glyph b <$> numeral_le fuel (ibase b) v)) ++ buf).
Proof.
  intros [Hb Hd]. revert fuel v k buf. induction n as [|n IH]; intros [|fuel] v k buf Hv Hf Hk Hl; try lia.
  { simpl in Hv. assert (v = 0) as -> by lia. done. }
  cbn [digit_loop numeral_le]. destruct (Z.ltb_spec 0 v); [|done]. cbn [fmap list_fmap pieces].
  rewrite reverse_app, reverse_cons, <- !app_assoc.
  assert (0 <= v mod ibase b < ibase b) by (apply Z.mod_pos_bound; lia).
  assert (zget (digits b) (v mod ibase b) = Some (glyph b (v mod ibase b))) as Hg.
  { unfold zget, glyph. destruct (Z.ltb_spec (v mod ibase b) 0); [lia|].
    destruct (lookup_lt_is_Some_2 (digits b) (Z.to_nat (v mod ibase b))) as [x Hx]; [lia|]. by rewrite Hx. }
  pose proof (pow_8_div n v (ibase b) Hb Hv).
  case_match.
  - rewrite (buf_push_Ok 44) by lia. rewrite bind_ok, Hg. cbn [of_option]. rewrite bind_ok, buf_push_Ok by (simpl; lia).
    rewrite bind_ok, IH; [done|done|lia|lia|simpl; lia].
  - rewrite bind_ok, Hg. cbn [of_option]. rewrite bind_ok, buf_push_Ok by lia.
    rewrite bind_ok, IH; [done|done|lia|lia|simpl; lia].
Qed.

Lemma zero_loop_Ok fuel prec buf : (64 <= fuel + length buf)%nat → (0 < fuel)%nat →
  zero_loop fuel prec buf = Ok (replicate (Z.to_nat (Z.min prec 63 - Z.of_nat (length buf))) 48 ++ buf).
Proof.
  revert buf. induction fuel as [|fuel IH]; intros buf Hl Hf; [lia|]. cbn [zero_loop].
  destruct (Z.ltb_spec (Z.of_nat (length buf)) prec), (Z.ltb_spec (Z.of_nat (length buf)) 63); simpl;
    try by replace (Z.to_nat _) with 0%nat by lia.
  rewrite buf_push_Ok by lia. unfold mbind; simpl. rewrite IH by (simpl; lia). f_equal. cbn [length].
  replace (Z.to_nat (Z.min prec 63 - Z.of_nat (length buf)))
    with (S (Z.to_nat (Z.min prec 63 - Z.of_nat (S (length buf))))) by lia.
  rewrite replicate_S_end, <- app_assoc. done.
Qed.

(** The digits printed for a value: the numeral, with commas if asked for,
    behind zeros up to the precision, and a leading zero for octal [#]. *)
Definition integer_body (value : Z) (b : integer_base) (c : printf_conversion) : list Z :=
  reverse (pieces (has (flags c) GROUP) (group b) 0 (glyph b <$> numeral_le 65 (ibase b) value)).
Definition integer_text (value : Z) (b : integer_base) (c : printf_conversion) : list Z :=
  let body := integer_body value b c in
  let prec := if precision c <? 0 then 1 else precision c in
  let text := replicate (Z.to_nat (Z.min prec 63 - Z.of_nat (length body))) 48 ++ body in
  if has (flags c) POUND && (ibase b =? 8) && negb (hd0 text =? 48) then 48 :: text else text.

Lemma pieces_length on g k ds : (length ds <= length (pieces on g k ds) <= 2 * length ds)%nat.
Proof.
  revert k. induction ds as [|d ds IH]; intros k; simpl; [lia|].
  specialize (IH (k + 1)). rewrite length_app. case_match; simpl; lia.
Qed.

Lemma pow_8_22 value : is_u64 value → 0 <= value < 8 ^ Z.of_nat 22.
Proof. unfold is_u64. change (8 ^ Z.of_nat 22) with 73786976294838206464. lia. Qed.

Lemma integer_body_length value b c : base_ok b → is_u64 value → (length (integer_body value b c) <= 44)%nat.
Proof.
  intros Hb Hv. unfold integer_body. rewrite length_reverse.
  pose proof (pieces_length (has (flags c) GROUP) (group b) 0 (glyph b <$> numeral_le 65 (ibase b) value)) as Hp.
  rewrite length_fmap in Hp.
  destruct (numeral_le_spec (ibase b) 22 65 value) as (_ & _ & ? & _); [apply Hb|by apply pow_8_22|lia|lia].
Qed.

Lemma integer_text_length value b c : base_ok b → is_u64 value → (length (integer_text value b c) <= 64)%nat.
Proof.
  intros Hb Hv. pose proof (integer_body_length value b c Hb Hv). unfold integer_text.
  case_match; cbn [length]; rewrite length_app, length_replicate; lia.
Qed.

(** The digits never leave the 64 characters of [buf]. *)
Lemma digit_buffer_Ok value b c : base_ok b → is_u64 value →
  digit_buffer value b c = Ok (integer_text value b c).
Proof.
  intros Hb Hv. pose proof (integer_body_length value b c Hb Hv) as Hl.
  unfold digit_buffer. rewrite (digit_loop_Ok c b 22); [|done|by apply pow_8_22|lia|lia|simpl; lia].
  rewrite app_nil_r, bind_ok. fold (integer_body value b c). unfold integer_text.
  set (body := integer_body value b c) in *.
  rewrite zero_loop_Ok, bind_ok by lia. set (text := replicate _ _ ++ body).
  replace (match text with [] => true | ch :: _ => negb (ch =? 48) end) with (negb (hd0 text =? 48))
    by by destruct text.
  case_match; [|done]. apply buf_push_Ok. subst text. rewrite length_app, length_replicate. lia.
Qed.

(** The whole field: digits, sign, prefix and padding. *)
Definition integer_field (value : Z) (is_signed negative : bool) (b : integer_base)
    (c : printf_conversion) : list Z :=
  let sign := sign_char is_signed negative c in
  let x := x_char value b c in
  let text := integer_text value b c in
  let pad := Z.to_nat (pad_count c (Z.of_nat (length text)) x sign) in
  opt (negb (has (flags c) (Z.lor MINUS ZERO))) (replicate pad 32) ++
  opt (negb (sign =? 0)) [sign] ++ opt (negb (x =? 0)) [48; x] ++
  opt (has (flags c) ZERO) (replicate pad 48) ++ text ++ opt (has (flags c) MINUS) (replicate pad 32).

(** The field of a string. *)
Definition string_field (s : list Z) (c : printf_conversion) : list Z :=
  let pad := Z.to_nat (width c - Z.of_nat (length s)) in
  opt (negb (has (flags c) MINUS)) (replicate pad 32) ++ s ++ opt (has (flags c) MINUS) (replicate pad 32).

Section Fields.
Context {A : Type} (output : Z → M (mem * A) ()).
Context (R : mem) (I : nat → mem → A → Prop).
Context (I_mem : ∀ n m a, I n m a → R ⊆ m).
Context (I_out : ∀ n ch m a m' a',
  I (S n) m a → output ch (m, a) = Ok ((), (m', a')) → I n m' a').
Abbreviation emits := (emits output I).

Lemma format_integer_emits value sg neg b c : base_ok b → is_u64 value →
  emits (format_integer output value sg neg b c) (integer_field value sg neg b c) ().
Proof using I_out.
  intros Hb Hv. unfold format_integer, integer_field.
  eapply emits_silent; [done|by apply emits_pure, digit_buffer_Ok|].
  set (pad := Z.to_nat _). set (sign := sign_char sg neg c). set (x := x_char value b c).
  repeat (eapply emits_bind; [exact I_out| |]).
  - by apply emits_opt, emits_dup.
  - by apply emits_opt, emits_output.
  - apply emits_opt. apply (emits_bind output I I_out _ _ [48] [x] () ()); apply emits_output.
  - by apply emits_opt, emits_dup.
  - apply emits_list.
  - by apply emits_opt, emits_dup.
Qed.

Lemma copy_chars_emits f i s rest :
  chars_at R f i (s ++ rest) → emits (copy_chars output (length s) f i) s ().
Proof using I_mem I_out.
  revert i. induction s as [|ch s IH]; intros i Hs; [apply emits_ret|]. cbn [length copy_chars].
  eapply emits_silent; [done|by eapply emits_char|].
  apply (emits_bind output I I_out _ _ [ch] s () ()); [apply emits_output|].
  apply IH. by eapply chars_at_cons.
Qed.

Lemma format_string_emits f s rest c :
  chars_at R f 0 (s ++ rest) → is_s32 (Z.of_nat (length s)) → 0 <= width c < 2147483648 →
  emits (format_string output f (Z.of_nat (length s)) c) (string_field s c) ().
Proof using I_mem I_out.
  intros Hs Hl Hw. unfold format_string, string_field, is_s32 in *. rewrite Nat2Z.id.
  assert (Z.of_nat (length s) < width c →
    Z.to_nat (u32 (s32 (width c - Z.of_nat (length s)))) = Z.to_nat (width c - Z.of_nat (length s))) as Hp
    by (intros; by widths).
  destruct (Z.ltb_spec (Z.of_nat (length s)) (width c)); cbn [andb].
  - rewrite Hp by done. repeat (eapply emits_bind; [exact I_out| |]).
    + by apply emits_opt, emits_dup.
    + by eapply copy_chars_emits.
    + by apply emits_opt, emits_dup.
  - replace (Z.to_nat (width c - Z.of_nat (length s))) with 0%nat by lia. cbn [replicate].
    replace (opt (negb (has (flags c) MINUS)) [] ++ s ++ opt (has (flags c) MINUS) []) with ([] ++ s ++ [])
      by by destruct (has (flags c) MINUS).
    repeat (eapply emits_bind; [exact I_out| |]); [apply emits_ret| |apply emits_ret].
    by eapply copy_chars_emits.
Qed.
End Fields.
