(* ===== verification/StdioSpec.v ===== *)
(** Formats as sequences of items, what they print for a list of arguments,
    and the proof that [__vprintf] prints exactly that. *)
From S2P Require Import Prelude Mem Str StrSearch CStdlib Stdio StdioOut.

(** * Conversion specifications as written *)

(** A width or precision: digits (none for an absent width), or [*]. *)
Inductive amount := Digits (ds : list Z) | Star.
Record spec := mkSpec {
  sp_flags : list Z; sp_width : amount; sp_precision : option amount; sp_type : int_type }.

Definition amount_bytes (a : amount) : list Z := match a with Digits ds => ds | Star => [42] end.
Definition precision_bytes (o : option amount) : list Z :=
  match o with None => [] | Some a => 46 :: amount_bytes a end.
Definition type_bytes (t : int_type) : list Z :=
  match t with
  | CHAR => [104; 104] | SHORT => [104] | INT => [] | INTMAX => [106] | LONG => [108]
  | LONGLONG => [108; 108] | PTRDIFFT => [116] | SIZET => [122]
  end.
Definition spec_bytes (sp : spec) : list Z :=
  sp_flags sp ++ amount_bytes (sp_width sp) ++ precision_bytes (sp_precision sp) ++ type_bytes (sp_type sp).

(** A conversion character: none that continues the specification. *)
Definition plain (ch : Z) : bool :=
  negb (bool_decide (ch ∈ [0; 37; 46; 42; 104; 106; 108; 116; 122])) && negb (isdigit ch)
  && match flag_of ch with Some _ => false | None => true end.

Definition wf_amount (a : amount) : Prop :=
  match a with
  | Digits ds => Forall (λ c, isdigit c = true) ds ∧ digits_value ds < 2147483648
  | Star => True
  end.
Record wf_spec (sp : spec) : Prop := {
  wf_flags : Forall (λ c, is_Some (flag_of c)) (sp_flags sp);
  wf_width : wf_amount (sp_width sp);
  wf_zero : hd0 (amount_bytes (sp_width sp)) ≠ 48;
  wf_precision : match sp_precision sp with Some a => wf_amount a | None => True end
}.

(** The conversion a specification stands for, and the arguments left. *)
Definition amount_value (a : amount) (args : list Z) : option (Z * list Z) :=
  match a, args with
  | Digits ds, _ => Some (digits_value ds, args)
  | Star, w :: args => Some (s32 w, args)
  | Star, [] => None
  end.
Definition written_flags (fs : list Z) : Z := fold_left (λ f c, Z.lor f (default 0 (flag_of c))) fs 0.
Definition conv_of (sp : spec) (args : list Z) : option (printf_conversion * list Z) :=
  let flags := written_flags (sp_flags sp) in
  let flags := if has flags MINUS then unset flags ZERO else flags in
  let flags := if has flags PLUS then unset flags SPACE else flags in
  '(width, args) ← amount_value (sp_width sp) args;
  let '(width, flags) :=
    if width <? 0 then (s32 (- width), Z.lor flags MINUS) else (width, flags) in
  '(precision, args) ← match sp_precision sp with
                       | None => Some (-1, args)
                       | Some a => '(p, args) ← amount_value a args; Some (if p <? 0 then -1 else p, args)
                       end;
  let flags := if 0 <=? precision then unset flags ZERO else flags in
  Some (mkConv flags width precision (sp_type sp), args).

Section Parse.
Context {A : Type} (output : Z → M (mem * A) ()).
Context (R : mem) (I : nat → mem → A → Prop).
Context (I_mem : ∀ n m a, I n m a → R ⊆ m).
Context (I_out : ∀ n ch m a m' a',
  I (S n) m a → output ch (m, a) = Ok ((), (m', a')) → I n m' a').
Abbreviation emits := (emits output I).

(** Reading the next character of the format. *)
Ltac next_char := eapply emits_silent; [exact I_out|by eapply emits_char|]; cbn [hd0 app].

Lemma parse_flags_emits fuel f i fs rest acc :
  chars_at R f i (fs ++ rest) → Forall (λ c, is_Some (flag_of c)) fs → flag_of (hd0 rest) = None →
  (length fs < fuel)%nat →
  emits (parse_flags fuel f i acc) []
    (i + Z.of_nat (length fs), fold_left (λ f c, Z.lor f (default 0 (flag_of c))) fs acc).
Proof using I_mem I_out.
  revert fuel i acc. induction fs as [|ch fs IH]; intros [|fuel] i acc Hs Hf Hr Hl; try (simpl in Hl; lia);
    cbn [parse_flags length fold_left].
  - next_char. cbn [app] in Hr. rewrite Hr, Z.add_0_r. apply emits_ret.
  - next_char. apply Forall_cons in Hf as [[b Hb] Hf]. rewrite Hb. cbn [default].
    replace (i + Z.of_nat (S (length fs))) with (i + 1 + Z.of_nat (length fs)) by lia.
    apply IH; [by eapply chars_at_cons|done..|simpl in Hl; lia].
Qed.

Lemma digits_value_mono ds v : Forall (λ c, isdigit c = true) ds → 0 <= v →
  v <= fold_left (λ v c, v * 10 + (c - 48)) ds v.
Proof.
  revert v. induction ds as [|c ds IH]; intros v Hd Hv; simpl; [lia|].
  apply Forall_cons in Hd as [Hc Hd]. unfold isdigit in Hc. apply andb_prop in Hc as [?%Z.leb_le ?%Z.leb_le].
  specialize (IH (v * 10 + (c - 48)) Hd ltac:(lia)). lia.
Qed.

Lemma parse_number_emits fuel f i ds rest v :
  chars_at R f i (ds ++ rest) → Forall (λ c, isdigit c = true) ds → isdigit (hd0 rest) = false →
  (length ds < fuel)%nat → 0 <= v → fold_left (λ v c, v * 10 + (c - 48)) ds v < 2147483648 →
  emits (parse_number fuel f i v) []
    (i + Z.of_nat (length ds), fold_left (λ v c, v * 10 + (c - 48)) ds v).
Proof using I_mem I_out.
  revert fuel i v. induction ds as [|ch ds IH]; intros [|fuel] i v Hs Hd Hr Hl Hv Hlt; try (simpl in Hl; lia);
    cbn [parse_number length fold_left] in *.
  - next_char. cbn [app] in Hr. rewrite Hr, Z.add_0_r. apply emits_ret.
  - next_char. apply Forall_cons in Hd as [Hc Hd]. rewrite Hc.
    assert (48 <= ch <= 57) by (unfold isdigit in Hc; apply andb_prop in Hc as [?%Z.leb_le ?%Z.leb_le]; lia).
    pose proof (digits_value_mono ds (v * 10 + (ch - 48)) Hd ltac:(lia)).
    rewrite (s32_small (v * 10)), s32_small by lia.
    replace (v * 10 + ch - 48) with (v * 10 + (ch - 48)) by lia.
    replace (i + Z.of_nat (S (length ds))) with (i + 1 + Z.of_nat (length ds)) by lia.
    apply IH; [by eapply chars_at_cons|done|done|lia|lia|done].
Qed.

Lemma parse_amount_emits fuel f i a rest args v args' :
  chars_at R f i (amount_bytes a ++ rest) → wf_amount a → isdigit (hd0 rest) = false → hd0 rest ≠ 42 →
  (length (amount_bytes a) < fuel)%nat → amount_value a args = Some (v, args') →
  emits (parse_amount fuel f i args) [] (i + Z.of_nat (length (amount_bytes a)), v, args').
Proof using I_mem I_out.
  intros Hs Hw Hr Hst Hl Hv. unfold parse_amount. next_char. destruct a as [ds|]; simpl in *.
  - destruct (Z.eqb_spec (hd0 (ds ++ rest)) 42) as [E|_].
    { destruct ds as [|d ds]; [by destruct rest|]. simpl in E. subst. destruct Hw as [Hd _].
      by apply Forall_cons in Hd as [? _]. }
    simplify_eq. eapply emits_silent; [done| |].
    + eapply (parse_number_emits fuel f i ds rest 0); try done; apply Hw.
    + apply emits_ret.
  - destruct args as [|w args]; simplify_eq. eapply emits_silent; [done|by apply emits_pure|]. apply emits_ret.
Qed.

Lemma parse_type_emits f i t ch rest :
  chars_at R f i (type_bytes t ++ ch :: rest) → plain ch = true →
  emits (parse_type f i) [] (i + Z.of_nat (length (type_bytes t)), t).
Proof using I_mem I_out.
  intros Hs Hp. unfold plain in Hp. rewrite !andb_true_iff, negb_true_iff, bool_decide_eq_false in Hp.
  destruct Hp as [[Hp _] _]. rewrite !not_elem_of_cons in Hp. unfold parse_type. next_char.
  assert (chars_at R f (i + 1) (drop 1 (type_bytes t ++ ch :: rest))) as Hs1.
  { by destruct t; (eapply chars_at_cons; exact Hs). }
  destruct t; cbn [type_bytes app hd0 drop length] in *; rewrite ?Z.add_0_r; try apply emits_ret.
  - next_char. apply emits_ret.
  - next_char. destruct (Z.eqb_spec ch 104); [tauto|]. apply emits_ret.
  - repeat (case_match eqn:E; [apply Z.eqb_eq in E; tauto|clear E]). apply emits_ret.
  - next_char. destruct (Z.eqb_spec ch 108); [tauto|]. apply emits_ret.
  - next_char. apply emits_ret.
Qed.

(** What may follow each part of a specification. *)
Lemma plain_facts ch : plain ch = true →
  ch ≠ 0 ∧ ch ≠ 37 ∧ ch ≠ 42 ∧ ch ≠ 46 ∧ isdigit ch = false ∧ flag_of ch = None.
Proof.
  unfold plain. rewrite !andb_true_iff, !negb_true_iff, bool_decide_eq_false, !not_elem_of_cons.
  intros [[H ?] E]. destruct (flag_of ch); [done|]. tauto.
Qed.
Lemma type_hd t ch rest (s := type_bytes t ++ ch :: rest) : plain ch = true →
  isdigit (hd0 s) = false ∧ flag_of (hd0 s) = None ∧ hd0 s ≠ 42 ∧ hd0 s ≠ 46.
Proof. intros Hp. destruct t; try done. subst s. simpl. pose proof (plain_facts ch Hp). tauto. Qed.
Lemma precision_hd o t ch rest (s := precision_bytes o ++ type_bytes t ++ ch :: rest) : plain ch = true →
  isdigit (hd0 s) = false ∧ flag_of (hd0 s) = None ∧ hd0 s ≠ 42.
Proof. intros Hp. destruct o; [done|]. pose proof (type_hd t ch rest Hp). tauto. Qed.
Lemma digit_no_flag c : isdigit c = true → c ≠ 48 → flag_of c = None.
Proof. unfold isdigit, flag_of. intros. bcases; simpl in *; done || lia. Qed.
Lemma width_hd a s : wf_amount a → hd0 (amount_bytes a) ≠ 48 → flag_of (hd0 s) = None →
  flag_of (hd0 (amount_bytes a ++ s)) = None.
Proof.
  destruct a as [[|d ds]|]; simpl; [done| |done]. intros [Hd _] Hz _.
  apply Forall_cons in Hd as [Hd _]. by apply digit_no_flag.
Qed.

Lemma parse_conversion_emits fuel f i sp ch rest args c args' :
  chars_at R f i (spec_bytes sp ++ ch :: rest) → plain ch = true → wf_spec sp →
  (length (spec_bytes sp) < fuel)%nat → conv_of sp args = Some (c, args') →
  emits (parse_conversion fuel f i args) [] (i + Z.of_nat (length (spec_bytes sp)), c, args').
Proof using I_mem I_out.
  intros Hs Hp [Hwf Hww Hz Hwp] Hl Hc. unfold spec_bytes in *. rewrite !length_app in *.
  rewrite <- !app_assoc in Hs. destruct sp as [fs a o t]; cbn [sp_flags sp_width sp_precision sp_type] in *.
  destruct (precision_hd o t ch rest Hp) as (Hpd & Hpf & Hps).
  destruct (type_hd t ch rest Hp) as (Htd & _ & Hts & Htp).
  unfold parse_conversion.
  eapply emits_silent; [done|eapply (parse_flags_emits fuel f i fs); [exact Hs|done| |lia]|].
  { by apply width_hd. }
  cbv beta iota. apply chars_at_app in Hs. unfold conv_of in Hc. cbn [sp_flags sp_width sp_precision sp_type] in Hc.
  fold (written_flags fs). set (fl := if has _ PLUS then _ else _) in *.
  destruct (amount_value a args) as [[w args1]|] eqn:Ew; [|done]. simpl in Hc.
  eapply emits_silent; [done|eapply parse_amount_emits; [exact Hs|done|done|done|lia|exact Ew]|].
  cbv beta iota. apply chars_at_app in Hs.
  set (wf := if w <? 0 then _ else _) in *. destruct wf as [w' fl'].
  next_char.
  destruct o as [a2|]; cbn [precision_bytes app] in *.
  - change (hd0 (46 :: _)) with 46. change (46 =? 46) with true. cbv beta iota.
    apply chars_at_cons in Hs.
    destruct (amount_value a2 args1) as [[p args2]|] eqn:Ep; [|done]. simpl in Hc. simplify_eq.
    eapply emits_silent; [done| |].
    { eapply emits_silent; [done|eapply parse_amount_emits; [exact Hs|done|done|done|simpl in *; lia|exact Ep]|].
      apply emits_ret. }
    cbv beta iota. apply chars_at_app in Hs.
    eapply emits_silent; [done|by eapply parse_type_emits|]. cbv beta iota.
    cbn [length]. replace (i + Z.of_nat (length fs + (length (amount_bytes a) + (S (length (amount_bytes a2)) + length (type_bytes t)))))
      with (i + Z.of_nat (length fs) + Z.of_nat (length (amount_bytes a)) + 1 + Z.of_nat (length (amount_bytes a2)) + Z.of_nat (length (type_bytes t))) by lia.
    apply emits_ret.
  - destruct (Z.eqb_spec (hd0 (type_bytes t ++ ch :: rest)) 46); [done|]. simpl in Hc. simplify_eq.
    eapply emits_silent; [done|apply emits_ret|]. cbv beta iota.
    eapply emits_silent; [done|by eapply parse_type_emits|]. cbv beta iota. cbn [length].
    replace (i + Z.of_nat (length fs + (length (amount_bytes a) + (0 + length (type_bytes t)))))
      with (i + Z.of_nat (length fs) + Z.of_nat (length (amount_bytes a)) + Z.of_nat (length (type_bytes t))) by lia.
    apply emits_ret.
Qed.
End Parse.

(** * What a format prints *)

(** The part of a string a precision leaves. *)
Definition shown (c : printf_conversion) (s : list Z) : list Z :=
  if precision c <? 0 then s else take (Z.to_nat (precision c)) s.

(** The message in place of a conversion that is not supported. *)
Definition refusal (ch : Z) : list Z :=
  [60; 60; 110; 111; 32; 37; ch] ++
  (if is_refused ch then [32; 105; 110; 32; 107; 101; 114; 110; 101; 108; 62; 62]
   else [32; 99; 111; 110; 118; 101; 114; 115; 105; 111; 110; 62; 62]).

(** The conversion [ch] takes [args] to the text [out] and the arguments
    [args']; strings are read from [R], and [refuse] says whether unsupported
    conversions may occur. *)
Inductive converts (R : mem) (refuse : bool) (ch : Z) (c : printf_conversion) (args : list Z)
  : list Z → list Z → Prop :=
| c_signed v args' :
    is_signed_conv ch = true → va_signed (type c) args = Ok (v, args') →
    converts R refuse ch c args (integer_field (Z.abs v) true (v <? 0) base_d c) args'
| c_unsigned b v args' :
    base_of ch = Some b → va_unsigned (type c) args = Ok (v, args') →
    converts R refuse ch c args (integer_field v false false b c) args'
| c_char w args' :
    ch = 99 → args = w :: args' → converts R refuse ch c args (string_field [u8 w] c) args'
| c_string p s args' :
    ch = 115 → args = p :: args' → p ≠ NULL → cstr R p s → Z.of_nat (length s) < 2147483648 →
    converts R refuse ch c args (string_field (shown c s) c) args'
| c_null args' :
    ch = 115 → args = NULL :: args' →
    converts R refuse ch c args (string_field (shown c null_text) c) args'
| c_pointer p args' :
    ch = 112 → args = p :: args' →
    converts R refuse ch c args
      (integer_field p false false base_x (mkConv POUND (width c) (precision c) (type c))) args'
| c_refused :
    refuse = true → is_u8 ch → is_signed_conv ch = false → base_of ch = None →
    ch ∉ [99; 115; 112] → converts R refuse ch c args (refusal ch) args.

Inductive item := Char (ch : Z) | Percent | Conv (sp : spec) (ch : Z).
Definition item_bytes (it : item) : list Z :=
  match it with Char ch => [ch] | Percent => [37; 37] | Conv sp ch => 37 :: spec_bytes sp ++ [ch] end.
Definition format_bytes (its : list item) : list Z := concat (item_bytes <$> its).

(** The items print [out] for the arguments [args]. *)
Inductive prints (R : mem) (refuse : bool) : list item → list Z → list Z → Prop :=
| p_nil args : prints R refuse [] args []
| p_char ch its args out :
    ch ≠ 0 → ch ≠ 37 → prints R refuse its args out → prints R refuse (Char ch :: its) args (ch :: out)
| p_percent its args out :
    prints R refuse its args out → prints R refuse (Percent :: its) args (37 :: out)
| p_conv sp ch its args c args1 args2 out out' :
    wf_spec sp → plain ch = true → conv_of sp args = Some (c, args1) → 0 <= width c →
    converts R refuse ch c args1 out args2 → prints R refuse its args2 out' →
    prints R refuse (Conv sp ch :: its) args (out ++ out').

Lemma amount_value_u32 a args v args' : Forall is_u32 args → wf_amount a → amount_value a args = Some (v, args') →
  Forall is_u32 args' ∧ is_s32 v.
Proof.
  intros Hu Hw Ha. destruct a as [ds|]; simpl in Ha.
  - simplify_eq. destruct Hw as [Hd Hl]. split; [done|]. unfold is_s32.
    pose proof (digits_value_mono ds 0 Hd ltac:(lia)). unfold digits_value in *. lia.
  - destruct args as [|w args]; simplify_eq. apply Forall_cons in Hu as [_ Hu]. split; [done|apply s32_range].
Qed.

Lemma conv_of_ok sp args c args' : Forall is_u32 args → wf_spec sp → conv_of sp args = Some (c, args') →
  Forall is_u32 args' ∧ is_s32 (width c) ∧ -1 <= precision c < 2147483648.
Proof.
  intros Hu [_ Hw _ Hp]. unfold conv_of. set (fl := if has _ PLUS then _ else _).
  destruct (amount_value (sp_width sp) args) as [[w args1]|] eqn:Ew; [|done]. simpl.
  destruct (amount_value_u32 _ _ _ _ Hu Hw Ew) as [Hu1 Hr1].
  assert (∀ fl, is_s32 (if w <? 0 then (s32 (- w), Z.lor fl MINUS) else (w, fl)).1) as Hw'
    by (intros; destruct (w <? 0); simpl; [apply s32_range|done]).
  specialize (Hw' fl). destruct (if w <? 0 then _ else _) as [w' fl']. simpl in Hw'.
  destruct (sp_precision sp) as [a|].
  - destruct (amount_value a args1) as [[p args2]|] eqn:Ep; [|done]. simpl. intros [= <- <-].
    destruct (amount_value_u32 _ _ _ _ Hu1 Hp Ep) as [Hu2 Hr2]. unfold is_s32 in *. splits; try done; simpl.
    all: destruct (Z.ltb_spec p 0); lia.
  - simpl. intros [= <- <-]. unfold is_s32 in *. simpl. splits; done || lia.
Qed.

Lemma va_word_inv args w args' : va_word args = Ok (w, args') → args = w :: args'.
Proof. destruct args; naive_solver. Qed.

Lemma va_dword_inv args d args' : Forall is_u32 args → va_dword args = Ok (d, args') →
  Forall is_u32 args' ∧ is_u64 d.
Proof.
  destruct args as [|lo [|hi args]]; try done. intros (H1 & H2 & H3)%Forall_cons_1%(λ H, conj (proj1 H) (Forall_cons_1 _ _ _ (proj2 H))).
  intros [= <- <-]. unfold is_u32, is_u64 in *. split; [done|lia].
Qed.

Lemma va_signed_ok t args v args' : Forall is_u32 args → va_signed t args = Ok (v, args') →
  Forall is_u32 args' ∧ is_s64 v.
Proof.
  intros Hu. unfold va_signed. destruct t;
    rewrite bind_Ok; intros ([w r] & Hw & [= <- <-]);
    try (apply va_word_inv in Hw; subst; apply Forall_cons in Hu as [? Hu]);
    try (apply va_dword_inv in Hw as [? ?]; [|done]);
    (split; [done|]); unfold is_s64, is_u32, s8, s16, s32, s64, SIZE_MAX in *.
  all: try match goal with |- context [?a mod ?b] => pose proof (Z.mod_pos_bound a b); lia end.
  case_match; lia.
Qed.

Lemma va_unsigned_ok t args v args' : Forall is_u32 args → va_unsigned t args = Ok (v, args') →
  Forall is_u32 args' ∧ is_u64 v.
Proof.
  intros Hu. unfold va_unsigned. destruct t; try by apply va_dword_inv.
  all: rewrite bind_Ok; intros ([w r] & Hw & [= <- <-]).
  all: apply va_word_inv in Hw; subst; apply Forall_cons in Hu as [? Hu].
  all: split; [done|]; unfold is_u64, is_u32, u8, u16 in *; try lia.
  - pose proof (Z.mod_pos_bound w 256). lia.
  - pose proof (Z.mod_pos_bound w 65536). lia.
  - change 4294967295 with (Z.ones 32). rewrite Z.land_ones by lia.
    pose proof (Z.mod_pos_bound (u64 (s32 w)) (2 ^ 32)). lia.
Qed.

Lemma cstr_mono m m' p s : m ⊆ m' → cstr m p s → cstr m' p s.
Proof.
  intros Hm [Hs Hb]. split; [done|]. intros i b Hi. eapply lookup_weaken; [by apply Hb|done].
Qed.

Section Print.
Context {A : Type} (output : Z → M (mem * A) ()).
Context (R : mem) (I : nat → mem → A → Prop).
Context (I_mem : ∀ n m a, I n m a → R ⊆ m).
Context (I_out : ∀ n ch m a m' a',
  I (S n) m a → output ch (m, a) = Ok ((), (m', a')) → I n m' a').
Abbreviation emits := (emits output I).

Lemma emits_strnlen p s n : cstr R p s → Z.of_nat (length s) < 4294967296 → 0 <= n →
  emits (source_strnlen (At p) n) [] (Z.min n (Z.of_nat (length s))).
Proof using I_mem.
  intros Hs Hl Hn k m a HI. simpl. unfold on_mem. erewrite strnlen_Ok; [done| |done..].
  exact (cstr_mono R m p s (I_mem _ _ _ HI) Hs).
Qed.

Lemma base_of_ok ch b : base_of ch = Some b → base_ok b ∧ is_signed_conv ch = false.
Proof.
  unfold base_of, is_signed_conv. intros H. repeat case_match; simplify_eq;
    match goal with E : (ch =? _) = true |- _ => apply Z.eqb_eq in E; subst end; done.
Qed.

Lemma shown_prefix c s : ∃ rest, s = shown c s ++ rest.
Proof.
  unfold shown. case_match; [exists []; by rewrite app_nil_r|].
  exists (drop (Z.to_nat (precision c)) s). by rewrite take_drop.
Qed.

(** The length [strnlen] finds is the number of characters shown. *)
Lemma shown_length c s : -1 <= precision c < 2147483648 → Z.of_nat (length s) < 2147483648 →
  s32 (Z.min (u32 (precision c)) (Z.of_nat (length s))) = Z.of_nat (length (shown c s)).
Proof.
  intros Hp Hl. unfold shown. destruct (Z.ltb_spec (precision c) 0).
  - assert (precision c = -1) as -> by lia. change (u32 (-1)) with 4294967295. rewrite s32_small; lia.
  - rewrite u32_small, length_take, s32_small by lia. lia.
Qed.

Lemma emits_shown f c s : chars_at R f 0 s → 0 <= width c < 2147483648 → -1 <= precision c < 2147483648 →
  Z.of_nat (length s) < 2147483648 →
  emits (format_string output f (s32 (Z.min (u32 (precision c)) (Z.of_nat (length s)))) c)
    (string_field (shown c s) c) ().
Proof using I_mem I_out.
  intros Hs Hw Hp Hl. rewrite shown_length by done. destruct (shown_prefix c s) as [rest E].
  apply format_string_emits with R rest; [done|done|by rewrite <- E| |done].
  apply (f_equal length) in E. rewrite length_app in E. unfold is_s32. lia.
Qed.

Lemma emits_args {B} (f : M (mem * A) ()) cs (r : B) : emits f cs () → emits (f;; mret r) cs r.
Proof using I_out.
  intros Hf. rewrite <- (app_nil_r cs). eapply emits_bind; [done|exact Hf|apply emits_ret].
Qed.

(** A conversion prints what it should, if the messages for refused ones do. *)
Lemma convert_emits print refuse ch c args out args' :
  (refuse = true → ∀ ch, is_u8 ch →
     emits (print (if is_refused ch then no_kernel_text else no_conversion_text) [u32 (s8 ch)]) (refusal ch) ()) →
  converts R refuse ch c args out args' → 0 <= width c < 2147483648 → -1 <= precision c < 2147483648 →
  Forall is_u32 args → emits (convert output print ch c args) out args' ∧ Forall is_u32 args'.
Proof using I_mem I_out.
  intros Hpr Hc Hw Hp Hu. unfold convert. destruct Hc as
    [v args' Hch Hv|b v args' Hch Hv|w args' -> ->|p s args' -> -> Hnull Hs Hl|args' -> ->|p args' -> ->|Hr Hb Hs Hba Hn].
  - destruct (va_signed_ok _ _ _ _ Hu Hv) as [Hu' Hv']. split; [|done]. rewrite Hch.
    eapply emits_silent; [done|by apply emits_pure|]. apply emits_args.
    replace (u64 (if v <? 0 then - v else v)) with (Z.abs v)
      by (unfold is_s64 in Hv'; destruct (Z.ltb_spec v 0); rewrite u64_small by lia; lia).
    apply format_integer_emits; [done|done|]. unfold is_s64, is_u64 in *. lia.
  - destruct (va_unsigned_ok _ _ _ _ Hu Hv) as [Hu' Hv']. destruct (base_of_ok _ _ Hch) as [Hb ->]. split; [|done].
    rewrite Hch. eapply emits_silent; [done|by apply emits_pure|]. apply emits_args.
    by apply format_integer_emits.
  - apply Forall_cons in Hu as [Hw' Hu]. split; [|done]. cbn -[format_string].
    eapply emits_silent; [done|by apply emits_pure|]. apply emits_args.
    apply (format_string_emits output R I I_mem I_out (Lit [u8 w]) [u8 w] []); done.
  - apply Forall_cons in Hu as [Hw' Hu]. split; [|done]. cbn -[format_string source_strnlen].
    eapply emits_silent; [done|by apply emits_pure|]. cbv beta iota.
    destruct (Z.eqb_spec p NULL); [done|].
    eapply emits_silent; [done|apply emits_strnlen; [exact Hs|lia|apply u32_range]|]. apply emits_args.
    apply emits_shown; try done. simpl. by rewrite Z.add_0_r.
  - apply Forall_cons in Hu as [Hw' Hu]. split; [|done]. cbn -[format_string source_strnlen null_text].
    eapply emits_silent; [done|by apply emits_pure|]. cbv beta iota. change (NULL =? NULL) with true. cbv iota.
    eapply emits_silent; [done|apply emits_ret|]. apply emits_args. by apply emits_shown.
  - apply Forall_cons in Hu as [Hw' Hu]. split; [|done]. cbn -[format_integer].
    eapply emits_silent; [done|by apply emits_pure|]. apply emits_args.
    apply format_integer_emits; [done|done|]. unfold is_u32, is_u64 in *. lia.
  - split; [|done]. rewrite Hs, Hba. rewrite !not_elem_of_cons in Hn. destruct Hn as (? & ? & ? & _).
    destruct (Z.eqb_spec ch 99), (Z.eqb_spec ch 115), (Z.eqb_spec ch 112); try done.
    apply emits_args. by apply Hpr.
Qed.

(** No specification starts like [%%]. *)
Lemma spec_hd sp ch rest : wf_spec sp → plain ch = true → hd0 (spec_bytes sp ++ ch :: rest) ≠ 37.
Proof using.
  intros [Hf Hw _ _] Hp. unfold spec_bytes. destruct sp as [[|c fs] a o t]; simpl in *.
  - destruct a as [[|d ds]|]; simpl; [|by intros ->; destruct Hw as [[? _]%Forall_cons_1 _]|done].
    destruct o; [done|]. destruct t; try done. simpl. by destruct (plain_facts ch Hp) as (? & ? & _).
  - apply Forall_cons in Hf as [[b Hb] _]. by intros ->.
Qed.

Lemma vprintf_loop_emits print refuse fuel f i its args out :
  (refuse = true → ∀ ch, is_u8 ch →
     emits (print (if is_refused ch then no_kernel_text else no_conversion_text) [u32 (s8 ch)]) (refusal ch) ()) →
  chars_at R f i (format_bytes its) → prints R refuse its args out → Forall is_u32 args →
  (length (format_bytes its) < fuel)%nat →
  emits (vprintf_loop output print fuel f i args) out ().
Proof using I_mem I_out.
  intros Hpr Hs Hp. revert fuel i Hs.
  induction Hp as [args|ch its args out Hn0 Hn37 Hp IH|its args out Hp IH
    |sp ch its args c args1 args2 out out' Hsp Hpl Hc Hw Hcv Hp IH];
    intros [|fuel] i Hs Hu Hf; try lia; cbn [vprintf_loop];
    (eapply emits_silent; [done|by eapply emits_char|]);
    unfold format_bytes in *; cbn [fmap list_fmap concat item_bytes app hd0] in *.
  - apply emits_ret.
  - destruct (Z.eqb_spec ch 0), (Z.eqb_spec ch 37); try done. cbn [negb].
    apply (emits_bind output I I_out _ _ [ch] out () ()); [apply emits_output|].
    apply IH; [by eapply chars_at_cons|done|simpl in Hf; lia].
  - apply chars_at_cons in Hs. cbn [negb Z.eqb]. eapply emits_silent; [done|by eapply emits_char|].
    apply chars_at_cons in Hs. change (37 =? 37) with true. cbv iota.
    apply (emits_bind output I I_out _ _ [37] out () ()); [apply emits_output|].
    replace (i + 2) with (i + 1 + 1) by lia. apply IH; [done|done|simpl in Hf; lia].
  - apply chars_at_cons in Hs. rewrite <- app_assoc in Hs. cbn [negb Z.eqb app] in *.
    cbn [length] in Hf. rewrite !length_app in Hf. simpl in Hf.
    destruct (conv_of_ok _ _ _ _ Hu Hsp Hc) as (Hu1 & Hw1 & Hp1).
    eapply emits_silent; [done|by eapply emits_char|].
    pose proof (spec_hd sp ch (concat (item_bytes <$> its)) Hsp Hpl) as Hh.
    destruct (Z.eqb_spec (hd0 (spec_bytes sp ++ ch :: concat (item_bytes <$> its))) 37); [done|].
    eapply emits_silent; [done|eapply parse_conversion_emits; [done..|lia|done]|]. cbv beta iota.
    apply chars_at_app in Hs. eapply emits_silent; [done|by eapply emits_char|]. cbn [hd0].
    destruct (convert_emits print refuse ch c args1 out args2) as [He Hu2]; try done; [unfold is_s32 in *; lia|].
    eapply emits_bind; [done|exact He|]. apply IH; [by eapply chars_at_cons|done|lia].
Qed.
End Print.
