(* ===== verification/StdioCorrect.v ===== *)
(** Correctness of formatted output: [__vprintf] prints what its format says,
    [vsnprintf] stays within its buffer, and decimal output is read back by
    [atoi]. *)
From S2P Require Import Prelude Mem Str StrSearch CStdlib Stdio StdioOut StdioSpec.

(** * The messages printed by [__vprintf] itself *)

Definition bare : spec := mkSpec [] (Digits []) None INT.
Definition bare_conv : printf_conversion := mkConv 0 0 (-1) INT.
Lemma wf_bare : wf_spec bare.
Proof. split; simpl; done. Qed.
Lemma bare_conv_of args : conv_of bare args = Some (bare_conv, args).
Proof. done. Qed.

Definition text_items (s : list Z) : list item := Char <$> s.
Lemma prints_text R refuse s its args out : Forall (λ c, c ≠ 0 ∧ c ≠ 37) s → prints R refuse its args out →
  prints R refuse (text_items s ++ its) args (s ++ out).
Proof. induction 1 as [|c s [? ?] Hs IH]; intros Hp; [done|]. apply p_char; auto. Qed.

(** <<"<<no %%%c">> and the rest of the message. *)
Definition message_items (tail : list Z) : list item :=
  text_items [60; 60; 110; 111; 32] ++ Percent :: Conv bare 99 :: text_items tail.
Lemma u8_s8 ch : is_u8 ch → u8 (u32 (s8 ch)) = ch.
Proof.
  unfold is_u8, u8, u32, s8. intros. rewrite Z.mod_mod_divide by (by exists 16777216).
  destruct (Z.lt_ge_cases ch 128).
  - rewrite (Z.mod_small (ch + 128)), Z.mod_small by lia. lia.
  - replace (ch + 128) with (ch - 128 + 1 * 256) by lia. rewrite Z.mod_add, (Z.mod_small (ch - 128)) by lia.
    replace (ch - 128 - 128) with (ch + (-1) * 256) by lia. rewrite Z.mod_add, Z.mod_small by lia. done.
Qed.
Lemma message_prints R tail ch : Forall (λ c, c ≠ 0 ∧ c ≠ 37) tail → is_u8 ch →
  prints R false (message_items tail) [u32 (s8 ch)] ([60; 60; 110; 111; 32; 37; ch] ++ tail).
Proof.
  intros Ht Hch. apply (prints_text R false [60; 60; 110; 111; 32] _ _ (37 :: [ch] ++ tail)); [by repeat constructor|].
  apply p_percent. eapply (p_conv R false bare 99 _ _ bare_conv); [apply wf_bare|done|done|done| |].
  - replace [ch] with (string_field [u8 (u32 (s8 ch))] bare_conv) by (by rewrite u8_s8). by eapply c_char.
  - pose proof (prints_text R false tail [] [] [] Ht (p_nil _ _ _)) as H. by rewrite !app_nil_r in H.
Qed.

Section Vprintf.
Context {A : Type} (output : Z → M (mem * A) ()).
Context (R : mem) (I : nat → mem → A → Prop).
Context (I_mem : ∀ n m a, I n m a → R ⊆ m).
Context (I_out : ∀ n ch m a m' a',
  I (S n) m a → output ch (m, a) = Ok ((), (m', a')) → I n m' a').

Lemma message_emits ch : is_u8 ch →
  let text := if is_refused ch then no_kernel_text else no_conversion_text in
  emits output I (vprintf_level output 0 (S (length text)) (Lit text) [u32 (s8 ch)]) (refusal ch) ().
Proof using I_mem I_out.
  intros Hch text. set (tail := if is_refused ch then
    [32; 105; 110; 32; 107; 101; 114; 110; 101; 108; 62; 62] else [32; 99; 111; 110; 118; 101; 114; 115; 105; 111; 110; 62; 62]).
  assert (format_bytes (message_items tail) = text) as Eb by (subst tail text; by destruct (is_refused ch)).
  assert (Forall (λ c, c ≠ 0 ∧ c ≠ 37) tail) as Ht by (subst tail; destruct (is_refused ch); by repeat constructor).
  apply vprintf_loop_emits with R false (message_items tail); try done.
  - rewrite Eb. split; [done|lia].
  - by apply message_prints.
  - constructor; [apply u32_range|constructor].
  - rewrite Eb. lia.
Qed.

Lemma vprintf_level_emits fuel f its args out :
  chars_at R f 0 (format_bytes its) → prints R true its args out → Forall is_u32 args →
  (length (format_bytes its) < fuel)%nat →
  emits output I (vprintf_level output 1 fuel f args) out ().
Proof using I_mem I_out.
  intros Hs Hp Hu Hf. apply vprintf_loop_emits with R true its; try done.
  intros _ ch Hch. by apply message_emits.
Qed.

Lemma vprintf_emits fuel format its args out :
  cstr R format (format_bytes its) → prints R true its args out → Forall is_u32 args →
  (length (format_bytes its) < fuel)%nat →
  emits output I (__vprintf output fuel format args) out ().
Proof using I_mem I_out.
  intros. apply vprintf_level_emits with its; try done. simpl. by rewrite Z.add_0_r.
Qed.
End Vprintf.

(** C17: [__vprintf] prints what its format says.  For every callback that
    leaves the memory of the format and of the string arguments alone, a
    format that consists of the given items calls it with exactly the
    characters the items stand for, in order, and returns. *)
Theorem vprintf_prints {A} (output : Z → M (mem * A) ()) (R : mem)
  (Hout : ∀ ch m a m' a', R ⊆ m → output ch (m, a) = Ok ((), (m', a')) → R ⊆ m')
  fuel format its args out m a :
  R ⊆ m → cstr R format (format_bytes its) → prints R true its args out → Forall is_u32 args →
  (length (format_bytes its) < fuel)%nat →
  __vprintf output fuel format args (m, a) = output_list output out (m, a).
Proof.
  intros Hm Hs Hp Hu Hf.
  rewrite (vprintf_emits output R (λ _ m _, R ⊆ m) (λ _ _ _ H, H) (λ _, Hout) fuel format its args out Hs Hp Hu Hf 0%nat m a Hm).
  unfold mbind, M_bind. by destruct (output_list output out (m, a)) as [[[] s]|].
Qed.

(** * Bounded output *)

Section Buffer.
Context (R : mem) (buffer : Z) (size : nat) (total : nat).
Context (HR : ∀ a, buffer <= a < buffer + Z.of_nat size → R !! a = None).
Context (Ht : Z.of_nat total < 2147483648).

(** [n] more of [total] characters may come. *)
Definition buffer_inv (n : nat) (m : mem) (a : vsnprintf_aux) : Prop :=
  R ⊆ m ∧ mapped m buffer size ∧ 0 <= aux_length a ∧ aux_length a + Z.of_nat n <= Z.of_nat total ∧
  0 <= aux_max_length a <= Z.max 0 (Z.of_nat size - 1) ∧
  aux_p a = buffer + Z.min (aux_length a) (aux_max_length a).

Lemma helper_step n ch m a : buffer_inv (S n) m a →
  let full := aux_max_length a <=? aux_length a in
  let m' := if full then m else <[aux_p a := u8 ch]> m in
  let a' := mkAux (if full then aux_p a else aux_p a + 1) (aux_length a + 1) (aux_max_length a) in
  vsnprintf_helper ch (m, a) = Ok ((), (m', a')) ∧ buffer_inv n m' a'.
Proof using HR Ht.
  intros (Hm & Hma & Hl & Hn & Hmax & Hp). unfold vsnprintf_helper.
  rewrite s32_small by lia.
  destruct (Z.ltb_spec (aux_length a) (aux_max_length a)), (Z.leb_spec (aux_max_length a) (aux_length a)); try lia.
  - rewrite Z.min_l in Hp by lia. rewrite store_Ok.
    2: { rewrite Hp. rewrite <- (Z2Nat.id (aux_length a)) by lia. apply Hma. lia. }
    split; [done|]. unfold buffer_inv; simpl. splits; try lia.
    + apply insert_subseteq_r; [|done]. apply HR. lia.
    + by apply mapped_insert.
  - split; [done|]. unfold buffer_inv; simpl. splits; try done; lia.
Qed.

Lemma buffer_out n ch m a m' a' :
  buffer_inv (S n) m a → vsnprintf_helper ch (m, a) = Ok ((), (m', a')) → buffer_inv n m' a'.
Proof using HR Ht. intros HI E. destruct (helper_step n ch m a HI) as [E' H]. rewrite E in E'. by simplify_eq. Qed.

Lemma helper_list out n m a : buffer_inv (length out + n) m a →
  let room := Z.to_nat (aux_max_length a - aux_length a) in
  output_list vsnprintf_helper out (m, a) =
    Ok ((), (put_bytes (aux_p a) (u8 <$> take room out) m,
             mkAux (aux_p a + Z.of_nat (length (take room out))) (aux_length a + Z.of_nat (length out))
               (aux_max_length a))).
Proof using HR Ht.
  revert m a. induction out as [|ch out IH]; intros m a HI; cbn [output_list length].
  { rewrite take_nil. simpl. rewrite !Z.add_0_r. by destruct a. }
  destruct (helper_step _ ch m a HI) as [E HI']. erewrite M_bind_step by exact E. rewrite (IH _ _ HI').
  cbn [aux_max_length aux_length aux_p].
  destruct (Z.leb_spec (aux_max_length a) (aux_length a)).
  - replace (Z.to_nat (aux_max_length a - (aux_length a + 1))) with 0%nat by lia.
    replace (Z.to_nat (aux_max_length a - aux_length a)) with 0%nat by lia. simpl. do 3 f_equal. f_equal; lia.
  - replace (Z.to_nat (aux_max_length a - aux_length a))
      with (S (Z.to_nat (aux_max_length a - (aux_length a + 1)))) by lia.
    cbn [take length fmap list_fmap put_bytes]. rewrite put_bytes_insert_comm by lia. do 3 f_equal. f_equal; lia.
Qed.
End Buffer.

(** The text [vsnprintf] leaves in a buffer of [size] bytes. *)
Definition clipped (size : Z) (out : list Z) : list Z :=
  if size =? 0 then [] else (u8 <$> take (Z.to_nat (size - 1)) out) ++ [0].

Lemma vsnprintf_Ok R fuel buffer size format its args out m :
  R ⊆ m → cstr R format (format_bytes its) → prints R true its args out → Forall is_u32 args →
  (length (format_bytes its) < fuel)%nat → 0 <= size < 2147483648 → Z.of_nat (length out) < 2147483648 →
  mapped m buffer (Z.to_nat size) → (∀ a, buffer <= a < buffer + size → R !! a = None) →
  vsnprintf fuel buffer size format args m =
    Ok (Z.of_nat (length out), put_bytes buffer (clipped size out) m).
Proof.
  intros Hm Hs Hp Hu Hf Hsz Hl Hma HR. unfold vsnprintf, clipped.
  set (max := if 0 <? size then s32 (size - 1) else 0).
  assert (max = Z.max 0 (size - 1)) as Emax.
  { subst max. destruct (Z.ltb_spec 0 size); [rewrite s32_small|]; lia. }
  assert (∀ a, buffer <= a < buffer + Z.of_nat (Z.to_nat size) → R !! a = None) as HR'
    by (intros; apply HR; lia).
  set (I := buffer_inv R buffer (Z.to_nat size) (length out)).
  assert (I (length out + 0)%nat m (mkAux buffer 0 max)) as HI.
  { unfold I, buffer_inv; simpl. splits; try done; lia. }
  rewrite (vprintf_emits vsnprintf_helper R I (λ n m a H, proj1 H)
    (buffer_out R buffer _ _ HR' Hl) fuel format its args out Hs Hp Hu Hf 0%nat m _ HI).
  erewrite M_bind_step by exact (helper_list R buffer _ _ HR' Hl out 0%nat m _ HI).
  unfold mret, M_ret, mbind, outcome_bind. cbn [aux_p aux_length aux_max_length]. rewrite Z.sub_0_r.
  destruct (Z.ltb_spec 0 size), (Z.eqb_spec size 0); try lia.
  - rewrite store_Ok.
    + do 2 f_equal. replace (Z.to_nat (size - 1)) with (Z.to_nat max) by lia.
      rewrite put_bytes_app, length_fmap. cbn [put_bytes]. rewrite put_bytes_insert_comm; [done|].
      rewrite length_fmap. lia.
    + rewrite put_bytes_ne by (rewrite length_fmap; lia). apply Hma.
      rewrite length_take. lia.
  - by replace (Z.to_nat max) with 0%nat by lia.
Qed.

(** C34: [vsnprintf] stays within its buffer.  It writes the output, cut to
    one byte less than the size, and a terminator, changes no other byte and
    returns the length the output would have had; with size zero it writes
    nothing. *)
Theorem vsnprintf_bounded R fuel buffer size format its args out m :
  R ⊆ m → cstr R format (format_bytes its) → prints R true its args out → Forall is_u32 args →
  (length (format_bytes its) < fuel)%nat → 0 <= size < 2147483648 → Z.of_nat (length out) < 2147483648 →
  mapped m buffer (Z.to_nat size) → (∀ a, buffer <= a < buffer + size → R !! a = None) →
  ∃ m', vsnprintf fuel buffer size format args m = Ok (Z.of_nat (length out), m') ∧
    (∀ a, a < buffer ∨ buffer + size <= a → m' !! a = m !! a) ∧
    (0 < size → bytes_at m' buffer ((u8 <$> take (Z.to_nat (size - 1)) out) ++ [0])) ∧
    (size = 0 → m' = m).
Proof.
  intros. eexists. split; [by eapply vsnprintf_Ok|]. unfold clipped. splits.
  - intros a Ha. destruct (Z.eqb_spec size 0); [done|]. apply put_bytes_ne.
    rewrite length_app, length_fmap, length_take. simpl. lia.
  - intros Hs. destruct (Z.eqb_spec size 0); [lia|]. apply put_bytes_at.
  - intros ->. done.
Qed.

(** * Decimal output read back *)

Lemma pieces_off g k ds : pieces false g k ds = ds.
Proof. revert k. induction ds as [|d ds IH]; intros k; simpl; [done|]. by rewrite IH. Qed.

Lemma glyph_decimal d : 0 <= d < 10 → glyph base_d d = 48 + d.
Proof.
  intros. assert (d ∈ [0; 1; 2; 3; 4; 5; 6; 7; 8; 9]) as Hd by (rewrite !elem_of_cons; lia).
  repeat (apply elem_of_cons in Hd as [-> |Hd]; [done|]). by apply elem_of_nil in Hd.
Qed.

(** The text of [%d] and [%u]: decimal digits that denote the value. *)
Lemma decimal_text v : is_u64 v →
  let t := integer_text v base_d bare_conv in
  Forall (λ c, isdigit c = true) t ∧ t ≠ [] ∧ digits_value t = v ∧ (length t <= 22)%nat.
Proof.
  intros Hv. destruct (numeral_spec 10 v ltac:(lia) Hv) as (H1 & H2 & H3 & _ & H5).
  unfold integer_text, integer_body. change (has (flags bare_conv) GROUP) with false. rewrite pieces_off.
  change (ibase base_d) with 10. rewrite <- fmap_reverse. fold (numeral 10 v).
  change (has (flags bare_conv) POUND) with false. cbn [andb]. change (precision bare_conv <? 0) with true. cbv iota.
  rewrite length_fmap.
  assert (glyph base_d <$> numeral 10 v = (λ d, 48 + d) <$> numeral 10 v) as ->.
  { apply list_fmap_ext. intros i d Hd. apply glyph_decimal. by eapply (lookup_Forall _ _ _ _ H2). }
  destruct (numeral 10 v) as [|d ds] eqn:En.
  { simpl. splits; [by repeat constructor|done| |lia]. symmetry. by apply H5. }
  replace (Z.to_nat (Z.min 1 63 - Z.of_nat (length (d :: ds)))) with 0%nat by (simpl; lia). cbn [replicate app].
  splits; [|done| |by rewrite length_fmap].
  - apply Forall_fmap. eapply Forall_impl; [exact H2|]. intros x Hx. unfold compose, isdigit. simpl in Hx.
    bcases; simpl; done || lia.
  - rewrite <- H1. unfold digits_value, value_of. generalize (d :: ds) 0. intros l.
    induction l as [|x l IH]; intros acc; simpl; [done|]. rewrite IH. f_equal. lia.
Qed.

Definition percent_d : list Z := [37; 100].

Lemma percent_d_prints R v : is_s32 v →
  prints R true [Conv bare 100] [u32 v]
    (opt (v <? 0) [45] ++ integer_text (Z.abs v) base_d bare_conv).
Proof.
  intros Hv. rewrite <- (app_nil_r (opt _ _ ++ _)).
  eapply p_conv; [apply wf_bare|done|done|done| |constructor].
  assert (va_signed INT [u32 v] = Ok (v, [])) as Hs.
  { simpl. unfold mbind; simpl. do 2 f_equal. unfold is_s32 in Hv. rewrite <- (s32_small v) at 2 by lia.
    unfold s32, u32. by rewrite Zplus_mod_idemp_l. }
  replace (opt (v <? 0) [45] ++ _) with (integer_field (Z.abs v) true (v <? 0) base_d bare_conv).
  { by apply c_signed. }
  unfold integer_field. change (x_char (Z.abs v) base_d bare_conv) with 0.
  change (has (flags bare_conv) ZERO) with false. change (has (flags bare_conv) MINUS) with false.
  change (has (flags bare_conv) (Z.lor MINUS ZERO)) with false. cbn [negb opt app].
  assert (∀ l s, 0 <= l < 100 → 0 <= s → pad_count bare_conv l 0 s = 0) as Hpad.
  { intros l s Hl Hs'. unfold pad_count. simpl. rewrite s32_small by (case_match; lia).
    case_match eqn:E; [done|]. apply Z.ltb_ge in E. destruct (negb (s =? 0)); lia. }
  assert (is_u64 (Z.abs v)) as Hu by (unfold is_s32, is_u64 in *; lia).
  destruct (decimal_text _ Hu) as (_ & _ & _ & Hl).
  rewrite Hpad; [|lia|unfold sign_char; simpl; by destruct (v <? 0)]. rewrite app_nil_r. simpl.
  unfold sign_char. simpl. by destruct (v <? 0).
Qed.

(** Printing an [int] with [%d] into a large enough buffer and reading it
    back with [atoi] gives the same [int], for every [int]. *)
Theorem printf_atoi_roundtrip v buffer size format fuel m :
  is_s32 v → cstr m format percent_d → 0 < buffer → 24 <= size < 2147483648 → (3 <= fuel)%nat →
  mapped m buffer (Z.to_nat size) → buffer + size <= format ∨ format + 3 <= buffer →
  ∃ n m', snprintf fuel buffer size format [u32 v] m = Ok (n, m') ∧ atoi buffer m' = Ok (v, m').
Proof.
  intros Hv Hs Hb Hsz Hf Hma Hd.
  set (R := filter (λ kv, ¬ (buffer <= kv.1 < buffer + size)) m).
  set (t := integer_text (Z.abs v) base_d bare_conv).
  assert (is_u64 (Z.abs v)) as Hu by (unfold is_s32, is_u64 in *; lia).
  destruct (decimal_text _ Hu) as (Hdig & Hne & Hval & Hlen). fold t in Hdig, Hne, Hval, Hlen.
  assert (Z.of_nat (length (opt (v <? 0) [45] ++ t)) <= 23) as Hout
    by (rewrite length_app; destruct (v <? 0); simpl; lia).
  eexists _, _. split.
  - apply (vsnprintf_Ok R) with (its := [Conv bare 100]) (out := opt (v <? 0) [45] ++ t); try done; try lia.
    + apply map_filter_subseteq.
    + eapply cstr_same_bytes; [exact Hs|]. intros i Hi. destruct Hs as [_ Hby].
      destruct (lookup_lt_is_Some_2 (percent_d ++ [0]) i) as [x Hx]; [simpl in *; lia|].
      rewrite (Hby i x Hx). apply map_lookup_filter_Some_2; [by apply Hby|]. simpl in *. lia.
    + by apply percent_d_prints.
    + constructor; [apply u32_range|constructor].
    + intros a Ha. apply map_lookup_filter_None_2. right. simpl. lia.
  - unfold clipped. destruct (Z.eqb_spec size 0); [lia|]. rewrite take_ge by lia.
    assert (Forall (λ c, 0 < c < 256) (opt (v <? 0) [45] ++ t)) as Hby.
    { apply Forall_app_2; [destruct (v <? 0); repeat constructor; lia|]. eapply Forall_impl; [exact Hdig|].
      intros c Hc. unfold isdigit in Hc. apply andb_prop in Hc as [?%Z.leb_le ?%Z.leb_le]. lia. }
    assert (u8 <$> (opt (v <? 0) [45] ++ t) = opt (v <? 0) [45] ++ t) as ->.
    { rewrite <- (list_fmap_id (opt (v <? 0) [45] ++ t)) at 2. apply list_fmap_ext. intros i c Hc.
      apply u8_small. pose proof (lookup_Forall _ _ _ _ Hby Hc). simpl in *. lia. }
    pose proof (atoi_correct (put_bytes buffer ((opt (v <? 0) [45] ++ t) ++ [0]) m) buffer []
      (v <? 0) (opt (v <? 0) [45]) t []) as Hat. rewrite Hval, app_nil_r in Hat.
    replace (if v <? 0 then - Z.abs v else Z.abs v) with v in Hat by (destruct (Z.ltb_spec v 0); lia).
    apply Hat; try done.
    + split; [done|]. apply put_bytes_at.
    + unfold signs. destruct (v <? 0); [done|by left].
Qed.

(** * Integer conversions *)

Lemma has_lor f a b : has f (Z.lor a b) = has f a || has f b.
Proof.
  unfold has. rewrite Z.land_lor_distr_r.
  destruct (Z.eqb_spec (Z.land f a) 0) as [->|Ha]; simpl; [done|].
  destruct (Z.eqb_spec (Z.lor (Z.land f a) (Z.land f b)) 0) as [E|]; [|done].
  apply Z.lor_eq_0_iff in E. tauto.
Qed.

(** Characters of the sign and of the prefix. *)
Definition prefix_length (value : Z) (sg neg : bool) (b : integer_base) (c : printf_conversion) : Z :=
  (if negb (sign_char sg neg c =? 0) then 1 else 0) + (if negb (x_char value b c =? 0) then 2 else 0).

Lemma field_length value sg neg b c : base_ok b → is_u64 value → 0 <= width c < 2147483648 →
  has (flags c) MINUS && has (flags c) ZERO = false →
  Z.of_nat (length (integer_field value sg neg b c)) =
    Z.max (width c) (Z.of_nat (length (integer_text value b c)) + prefix_length value sg neg b c).
Proof.
  intros Hb Hv Hw Hmz. pose proof (integer_text_length value b c Hb Hv) as Hl.
  unfold integer_field, prefix_length. rewrite has_lor.
  set (sign := sign_char sg neg c). set (x := x_char value b c). set (t := integer_text value b c) in *.
  assert (∀ u v : Z, 0 <= u <= 2 → 0 <= v <= 1 → s32 (width c - Z.of_nat (length t) - u - v) =
    width c - Z.of_nat (length t) - u - v) as Hs by (intros; apply s32_small; lia).
  unfold pad_count. rewrite !length_app.
  destruct (has (flags c) MINUS), (has (flags c) ZERO), (negb (sign =? 0)), (negb (x =? 0)); try done;
    cbn [orb negb opt length]; rewrite ?length_replicate, Hs by lia; case_match; lia.
Qed.

Lemma bases_ok b : b ∈ [base_d; base_o; base_x; base_X] → base_ok b.
Proof. rewrite !elem_of_cons, elem_of_nil. intros [-> |[-> |[-> |[-> |[]]]]]; done. Qed.

(** An integer conversion prints the value.  For every flag, width and
    precision the digits fit the 64-byte buffer; without grouping they are
    the digits of the value in the base, without leading zeros but for those
    the precision asks for; and the field is exactly as wide as asked, or as
    its contents if they are wider. *)
Theorem format_integer_correct {A} (output : Z → M (mem * A) ()) value sg neg b c m a
  (Hb : b ∈ [base_d; base_o; base_x; base_X]) (Hv : is_u64 value) (Hw : 0 <= width c < 2147483648) :
  let ds := numeral (ibase b) value in
  let text := integer_text value b c in
  let prec := if precision c <? 0 then 1 else precision c in
  format_integer output value sg neg b c (m, a) = output_list output (integer_field value sg neg b c) (m, a) ∧
  (length text <= 64)%nat ∧
  value_of (ibase b) ds = value ∧ Forall (λ d, 0 <= d < ibase b) ds ∧ head ds ≠ Some 0 ∧
  (has (flags c) (Z.lor GROUP POUND) = false →
   text = replicate (Z.to_nat (Z.min prec 63 - Z.of_nat (length ds))) 48 ++ (glyph b <$> ds)) ∧
  (has (flags c) MINUS && has (flags c) ZERO = false →
   Z.of_nat (length (integer_field value sg neg b c)) =
     Z.max (width c) (Z.of_nat (length text) + prefix_length value sg neg b c)).
Proof.
  intros ds text prec. assert (base_ok b) as Hok by by apply bases_ok.
  destruct (numeral_spec (ibase b) value (proj1 Hok) Hv) as (H1 & H2 & _ & H4 & _). splits; try done.
  - rewrite (format_integer_emits output (λ _ _ _, True) ltac:(done) value sg neg b c Hok Hv 0%nat m a Logic.I).
    unfold mbind, M_bind.
    by destruct (output_list output (integer_field value sg neg b c) (m, a)) as [[[] s]|].
  - by apply integer_text_length.
  - rewrite has_lor, orb_false_iff. intros [Hg Hp]. unfold text, integer_text. rewrite Hp. cbn [andb].
    unfold integer_body. rewrite Hg, pieces_off, <- fmap_reverse, length_fmap. done.
  - by apply field_length.
Qed.

(** * Formats at work *)

(** A callback that collects the characters. *)
Definition collect (ch : Z) : M (mem * list Z) () := λ '(m, a), Ok ((), (m, a ++ [ch])).

(** <<"a=%05d%%%s%x">>, and the string <<"hi">>. *)
Definition sample_items : list item :=
  [Char 97; Char 61; Conv (mkSpec [48] (Digits [53]) None INT) 100; Percent; Conv bare 115; Conv bare 120].
Definition sample_memory : mem :=
  put_bytes 64 (format_bytes sample_items ++ [0]) (put_bytes 96 [104; 105; 0] (put_bytes 128 (replicate 8 7) ∅)).
Definition sample_args : list Z := [u32 (-42); 96; 48879].
Definition sample_text : list Z :=
  [97; 61; 45; 48; 48; 52; 50; 37; 104; 105; 98; 101; 101; 102].

Lemma sample_strings : cstr sample_memory 64 (format_bytes sample_items) ∧ cstr sample_memory 96 [104; 105].
Proof.
  split; (split; [repeat constructor; lia|]); apply bytes_at_forall; by vm_compute.
Qed.

Lemma sample_prints R : cstr R 96 [104; 105] → prints R true sample_items sample_args sample_text.
Proof.
  intros Hs. apply p_char; [done..|]. apply p_char; [done..|].
  eapply (p_conv _ _ _ _ _ _ (mkConv ZERO 5 (-1) INT) _ [96; 48879] [45; 48; 48; 52; 50] (37 :: _));
    [split; simpl; try done; by repeat constructor|done|done|done| |].
  { by apply (c_signed R true 100 (mkConv ZERO 5 (-1) INT) _ (-42)). }
  apply p_percent.
  eapply (p_conv _ _ _ _ _ _ bare_conv _ [48879] [104; 105] [98; 101; 101; 102]); [apply wf_bare|done|done|done| |].
  { by eapply (c_string R true 115 bare_conv _ 96 [104; 105]). }
  eapply (p_conv _ _ _ _ _ _ bare_conv _ [] [98; 101; 101; 102] []); [apply wf_bare|done|done|done| |constructor].
  by apply (c_unsigned R true 120 bare_conv _ base_x 48879).
Qed.

Lemma sample_args_u32 : Forall is_u32 sample_args.
Proof. repeat constructor; by vm_compute. Qed.

Lemma vprintf_prints_witness :
  __vprintf collect 32 64 sample_args (sample_memory, []) = Ok ((), (sample_memory, sample_text)).
Proof.
  rewrite (vprintf_prints collect sample_memory ltac:(by intros ????? ? [= <- <-]) 32 64 sample_items sample_args sample_text);
    [by vm_compute|done|apply sample_strings|apply sample_prints, sample_strings|apply sample_args_u32|vm_compute; lia].
Defined.

Lemma vsnprintf_bounded_witness :
  ∃ m', vsnprintf 32 128 6 64 sample_args sample_memory = Ok (14, m') ∧
    bytes_at m' 128 [97; 61; 45; 48; 48; 0] ∧ m' !! 134 = Some 7.
Proof.
  set (R := put_bytes 64 (format_bytes sample_items ++ [0]) (put_bytes 96 [104; 105; 0] ∅) : mem).
  assert (cstr R 64 (format_bytes sample_items)) as Hf
    by (split; [repeat constructor; lia|]; apply bytes_at_forall; by vm_compute).
  assert (cstr R 96 [104; 105]) as Hs
    by (split; [repeat constructor; lia|]; apply bytes_at_forall; by vm_compute).
  assert (R ⊆ sample_memory) as Hsub by (apply (bool_decide_unpack _); vm_compute; exact I).
  assert (mapped sample_memory 128 6) as Hma by (apply mapped_of_forall; vm_compute; exact eq_refl).
  assert (∀ a, 128 <= a < 128 + 6 → R !! a = None) as HR.
  { intros a Ha. assert (a ∈ seqZ 128 6) as Hin by (apply elem_of_seqZ; lia).
    clear Ha. revert a Hin. apply Forall_forall, (bool_decide_unpack _). vm_compute. exact I. }
  destruct (vsnprintf_bounded R 32 128 6 64 sample_items sample_args sample_text sample_memory Hsub Hf
    (sample_prints R Hs) sample_args_u32 ltac:(vm_compute; lia) ltac:(lia) ltac:(vm_compute; exact eq_refl) Hma HR)
    as (m' & E & Hout & Hb & _).
  exists m'. split; [exact E|]. split; [exact (Hb ltac:(lia))|].
  rewrite Hout by lia. vm_compute. exact eq_refl.
Defined.

Lemma printf_atoi_roundtrip_witness :
  let m := put_bytes 64 (percent_d ++ [0]) (put_bytes 128 (replicate 24 7) ∅) in
  ∃ n m', snprintf 3 128 24 64 [u32 (-2147483648)] m = Ok (n, m') ∧ atoi 128 m' = Ok (-2147483648, m').
Proof.
  intros m. apply (printf_atoi_roundtrip (-2147483648) 128 24 64 3 m); try lia; try done.
  - split; [repeat constructor; lia|]. apply put_bytes_at.
  - intros i Hi. apply (mapped_of_forall m 128 24); [by vm_compute|done].
Defined.

Lemma format_integer_correct_witness :
  format_integer collect 48879 false false base_X (mkConv (Z.lor POUND MINUS) 8 6 INT) (∅, []) =
    Ok ((), (∅, [48; 88; 48; 48; 66; 69; 69; 70])) ∧
  numeral 16 48879 = [11; 14; 14; 15].
Proof.
  split; [|done].
  rewrite (proj1 (format_integer_correct collect 48879 false false base_X (mkConv (Z.lor POUND MINUS) 8 6 INT) ∅ []
    ltac:(set_solver) ltac:(done) ltac:(done))). by vm_compute.
Defined.

(** ** Where the code departs from the C standard *)

(** A negative [*] width sets [MINUS] after [MINUS] has cleared [ZERO], so
    <<printf ("%0*d", -5, 42)>> pads on both sides. *)
Lemma negative_star_pads_twice :
  let m := mem_of 64 ([37; 48; 42; 100] ++ [0]) in
  __vprintf collect 9 64 [u32 (-5); 42] (m, []) =
    Ok ((), (m, [48; 48; 48; 52; 50; 32; 32; 32])).
Proof. by vm_compute. Qed.

(** A format that ends in [%] is read past its terminator: the message is
    printed and the loop goes on behind the null character. *)
Lemma percent_at_end_overruns :
  __vprintf collect 9 64 [] (mem_of 64 [37; 0], []) = Err WildAccess.
Proof. by vm_compute. Qed.
