(* ===== verification/Console.v ===== *)
(** The kernel console (lib/kernel/console.c) and [hex_dump] (lib/stdio.c): a
    recursive lock around formatted output to the serial port and the display.

    The state is what one thread sees: whether it is in interrupt context and
    whether it holds the console lock, which [lock_acquire] obtains sooner or
    later.  The two devices are the sequences of the characters sent to them. *)
From S2P Require Import Prelude Mem Str StrSearch CStdlib Stdio StdioOut StdioSpec StdioCorrect.

Record console := mkConsole {
  intr_context : bool;
  use_console_lock : bool;
  lock_held : bool;
  console_lock_depth : Z;
  write_cnt : Z;
  serial : list Z;
  vga : list Z
}.

Definition set_lock (held : bool) (depth : Z) (k : console) : console :=
  mkConsole (intr_context k) (use_console_lock k) held depth (write_cnt k) (serial k) (vga k).
Definition put (c : Z) (k : console) : console :=
  mkConsole (intr_context k) (use_console_lock k) (lock_held k) (console_lock_depth k)
    (s64 (write_cnt k + 1)) (serial k ++ [c]) (vga k ++ [c]).

Definition console_init (k : console) : console :=
  mkConsole (intr_context k) true false (console_lock_depth k) (write_cnt k) (serial k) (vga k).
Definition console_panic (k : console) : console :=
  mkConsole (intr_context k) false (lock_held k) (console_lock_depth k) (write_cnt k) (serial k) (vga k).

(** [!intr_context () && use_console_lock] *)
Definition locking (k : console) : bool := negb (intr_context k) && use_console_lock k.

Definition acquire_console (k : console) : console :=
  if locking k then
    if lock_held k then set_lock true (s32 (console_lock_depth k + 1)) k
    else set_lock true (console_lock_depth k) k
  else k.
(** [lock_release] asserts that the lock is held. *)
Definition release_console (k : console) : outcome console :=
  if locking k then
    if 0 <? console_lock_depth k then Ok (set_lock (lock_held k) (console_lock_depth k - 1) k)
    else assert (lock_held k) (Ok (set_lock false (console_lock_depth k) k))
  else Ok k.
Definition console_locked_by_current_thread (k : console) : bool :=
  intr_context k || negb (use_console_lock k) || lock_held k.

Definition putchar_have_lock (c : Z) (k : console) : outcome console :=
  assert (console_locked_by_current_thread k) (Ok (put (u8 c) k)).

(** [vprintf_helper], over the console and [char_cnt]. *)
Definition vprintf_helper (c : Z) : M (mem * (console * Z)) () := λ '(m, (k, char_cnt)),
  k ← putchar_have_lock c k; Ok ((), (m, (k, s32 (char_cnt + 1)))).

Abbreviation CM := (M (mem * console)).
Definition vprintf_from (fuel : nat) (format : source) (args : list Z) : CM Z := λ '(m, k),
  '(_, (m, (k, char_cnt))) ← vprintf_level vprintf_helper 1 fuel format args (m, (acquire_console k, 0));
  k ← release_console k;
  Ok (char_cnt, (m, k)).
Definition vprintf (fuel : nat) (format : Z) (args : list Z) : CM Z := vprintf_from fuel (At format) args.
Definition printf (fuel : nat) (format : Z) (args : list Z) : CM Z := vprintf fuel format args.
(** [printf] of a literal. *)
Definition printf_lit (text : list Z) (args : list Z) : CM () :=
  vprintf_from (S (length text)) (Lit text) args;; mret ().

(** <<"Console: %lld characters output\n">> *)
Definition console_print_stats : CM () :=
  '(_, k) ← getS;
  printf_lit [67; 111; 110; 115; 111; 108; 101; 58; 32; 37; 108; 108; 100; 32; 99; 104; 97; 114; 97; 99; 116;
              101; 114; 115; 32; 111; 117; 116; 112; 117; 116; 10]
    [u32 (write_cnt k); u32 (Z.shiftr (write_cnt k) 32)].

Definition put_locked (c : Z) : CM () := λ '(m, k), k ← putchar_have_lock c k; Ok ((), (m, k)).
Definition get_char (p : Z) : CM Z := λ '(m, k), '(c, m) ← load p m; Ok (c, (m, k)).
Definition acquire : CM () := λ '(m, k), Ok ((), (m, acquire_console k)).
Definition release : CM () := λ '(m, k), k ← release_console k; Ok ((), (m, k)).

Fixpoint puts_loop (fuel : nat) (s : Z) : CM () :=
  match fuel with
  | O => fail OutOfFuel
  | S fuel =>
      c ← get_char s;
      if c =? 0 then mret () else put_locked c;; puts_loop fuel (s + 1)
  end.
Definition puts (s : Z) : CM Z :=
  acquire;;
  '(m, _) ← getS; puts_loop (S (size m)) s;;
  put_locked 10;;
  release;;
  mret 0.
Fixpoint putbuf_loop (n : nat) (buffer : Z) : CM () :=
  match n with
  | O => mret ()
  | S n => c ← get_char buffer; put_locked c;; putbuf_loop n (buffer + 1)
  end.
Definition putbuf (buffer n : Z) : CM () := acquire;; putbuf_loop (Z.to_nat n) buffer;; release.
Definition putchar (c : Z) : CM Z := acquire;; put_locked c;; release;; mret c.

(** * [hex_dump] *)

Fixpoint repeat_lit (n : nat) (text : list Z) : CM () :=
  match n with O => mret () | S n => printf_lit text [];; repeat_lit n text end.
(** [for (; i < end; i++)] over the bytes of the line, [n] left. *)
Fixpoint hex_bytes (n : nat) (buf i : Z) : CM () :=
  match n with
  | O => mret ()
  | S n =>
      b ← get_char buf;
      printf_lit [37; 48; 50; 104; 104; 120; 37; 99] [b; if i =? 7 then 45 else 32];;
      hex_bytes n (buf + 1) (i + 1)
  end.
Definition isprint (c : Z) : bool := (32 <=? c) && (c <? 127).
Fixpoint ascii_bytes (n : nat) (buf : Z) : CM () :=
  match n with
  | O => mret ()
  | S n =>
      b ← get_char buf;
      printf_lit [37; 99] [if isprint b then b else 46];;
      ascii_bytes n (buf + 1)
  end.

(** One line of [n] bytes from column [start] on. *)
Definition hex_line (ofs buf start n : Z) (ascii : bool) : CM () :=
  printf_lit [37; 48; 56; 106; 120; 32; 32] [ROUND_DOWN ofs 16; 0];;
  repeat_lit (Z.to_nat start) [32; 32; 32];;
  hex_bytes (Z.to_nat n) buf start;;
  (if ascii then
     repeat_lit (Z.to_nat (16 - (start + n))) [32; 32; 32];;
     printf_lit [124] [];;
     repeat_lit (Z.to_nat start) [32];;
     ascii_bytes (Z.to_nat n) buf;;
     repeat_lit (Z.to_nat (16 - (start + n))) [32];;
     printf_lit [124] []
   else mret ());;
  printf_lit [10] [].

(** [while (size > 0)]; every line takes at least one byte. *)
Fixpoint hex_loop (fuel : nat) (ofs buf size : Z) (ascii : bool) : CM () :=
  match fuel with
  | O => fail OutOfFuel
  | S fuel =>
      if 0 <? size then
        let start := ofs mod 16 in
        let end_ := if size <? 16 - start then start + size else 16 in
        let n := end_ - start in
        hex_line ofs buf start n ascii;;
        hex_loop fuel (u32 (ofs + n)) (buf + n) (size - n) ascii
      else mret ()
  end.
Definition hex_dump (ofs buf size : Z) (ascii : bool) : CM () :=
  hex_loop (S (Z.to_nat size)) ofs buf size ascii.

(** * What the console prints *)

Record sound (k : console) : Prop := {
  so_depth : 0 <= console_lock_depth k < 2147483647;
  so_held : 0 < console_lock_depth k → lock_held k = true
}.

(** The console after printing [cs]. *)
Definition shout (cs : list Z) (k : console) : console :=
  mkConsole (intr_context k) (use_console_lock k) (lock_held k) (console_lock_depth k)
    (s64 (write_cnt k + Z.of_nat (length cs))) (serial k ++ (u8 <$> cs)) (vga k ++ (u8 <$> cs)).

Definition wide (k : console) : Prop := is_s64 (write_cnt k).

Lemma shout_nil k : wide k → shout [] k = k.
Proof.
  unfold wide, is_s64. intros. destruct k. unfold shout; simpl in *. rewrite !app_nil_r, Z.add_0_r.
  by rewrite s64_small.
Qed.
Lemma s64_add a b : s64 (s64 a + b) = s64 (a + b).
Proof.
  unfold s64. replace ((a + 9223372036854775808) mod 18446744073709551616 - 9223372036854775808 + b + 9223372036854775808)
    with ((a + 9223372036854775808) mod 18446744073709551616 + b) by lia.
  rewrite Zplus_mod_idemp_l. f_equal. f_equal. lia.
Qed.
Lemma shout_app cs cs' k : shout cs' (shout cs k) = shout (cs ++ cs') k.
Proof.
  unfold shout; simpl. rewrite s64_add, fmap_app, !app_assoc, length_app. do 2 f_equal. lia.
Qed.
Lemma put_shout c k : put (u8 c) k = shout [c] k.
Proof. done. Qed.
Lemma wide_shout cs k : wide (shout cs k).
Proof.
  unfold wide, is_s64, shout, s64; simpl.
  pose proof (Z.mod_pos_bound (write_cnt k + Z.of_nat (length cs) + 9223372036854775808) 18446744073709551616).
  lia.
Qed.

Lemma locked_shout cs k :
  console_locked_by_current_thread (shout cs k) = console_locked_by_current_thread k.
Proof. done. Qed.

Lemma acquire_locked k : console_locked_by_current_thread (acquire_console k) = true.
Proof.
  unfold acquire_console, locking, console_locked_by_current_thread.
  destruct k as [[] [] [] d w s v]; done.
Qed.

(** Releasing gives back the lock as it was before acquiring it. *)
Lemma release_acquired k cs : sound k → release_console (shout cs (acquire_console k)) = Ok (shout cs k).
Proof.
  intros [Hd Hh]. unfold release_console, acquire_console.
  destruct (locking k) eqn:El; [|unfold locking in *; simpl in *; by rewrite El].
  destruct (lock_held k) eqn:Eh; unfold locking in *; simpl in *; rewrite El.
  - rewrite s32_small by lia. destruct (Z.ltb_spec 0 (console_lock_depth k + 1)); [|lia].
    unfold set_lock, shout; simpl. rewrite Eh. do 2 f_equal. lia.
  - destruct (Z.ltb_spec 0 (console_lock_depth k)); [by specialize (Hh ltac:(done))|].
    unfold set_lock, shout; simpl. by rewrite Eh.
Qed.

Lemma acquire_wide k : wide k → wide (acquire_console k).
Proof. unfold wide, acquire_console. by repeat case_match. Qed.

Section Says.
Context (m : mem).

(** On memory [m], [f] prints [cs] and returns [r]. *)
Definition says {B} (f : CM B) (cs : list Z) (r : B) : Prop :=
  ∀ k, sound k → wide k → f (m, k) = Ok (r, (m, shout cs k)).

Lemma says_bind {B C} (f : CM B) (g : B → CM C) cs cs' r r' :
  says f cs r → says (g r) cs' r' → says (f ≫= g) (cs ++ cs') r'.
Proof using.
  intros Hf Hg k Hs Hw. rewrite (M_bind_step _ _ _ _ _ (Hf k Hs Hw)), <- shout_app.
  apply Hg; [by destruct Hs|apply wide_shout].
Qed.
Lemma says_ret {B} (r : B) : says (mret r) [] r.
Proof using. intros k _ Hw. by rewrite shout_nil. Qed.
Lemma says_then {B C} (f : CM B) (g : B → CM C) cs r r' :
  says f cs r → says (g r) [] r' → says (f ≫= g) cs r'.
Proof using. intros Hf Hg. rewrite <- (app_nil_r cs). by eapply says_bind. Qed.

Lemma says_char p c : m !! p = Some c → says (get_char p) [] c.
Proof using.
  intros Hp k _ Hw. unfold get_char. rewrite (mem_load_Ok m p c Hp). by rewrite shout_nil.
Qed.

(** The formatting of [__vprintf] over the console. *)
Definition counting (n : nat) (m' : mem) (a : console * Z) : Prop :=
  m' = m ∧ console_locked_by_current_thread a.1 = true ∧ 0 <= a.2 ∧ a.2 + Z.of_nat n < 2147483648.

Lemma helper_counts n ch m' k cnt : counting (S n) m' (k, cnt) →
  vprintf_helper ch (m', (k, cnt)) = Ok ((), (m', (shout [ch] k, cnt + 1))) ∧
  counting n m' (shout [ch] k, cnt + 1).
Proof using.
  intros (-> & Hl & H0 & Hn). simpl in *. unfold vprintf_helper, putchar_have_lock. rewrite Hl. simpl.
  unfold mbind; simpl. rewrite s32_small by lia. split; [done|]. unfold counting; simpl. splits; done || lia.
Qed.
Lemma counting_mem n m' a : counting n m' a → m ⊆ m'.
Proof using. by intros [-> _]. Qed.
Lemma counting_out n ch m' a m'' a' :
  counting (S n) m' a → vprintf_helper ch (m', a) = Ok ((), (m'', a')) → counting n m'' a'.
Proof using.
  destruct a as [k cnt]. intros HI E. destruct (helper_counts n ch m' k cnt HI) as [E' H]. rewrite E in E'.
  by simplify_eq.
Qed.
Lemma helper_list_counts cs n m' k cnt : wide k → counting (length cs + n) m' (k, cnt) →
  output_list vprintf_helper cs (m', (k, cnt)) =
    Ok ((), (m', (shout cs k, cnt + Z.of_nat (length cs)))).
Proof using.
  revert k cnt. induction cs as [|c cs IH]; intros k cnt Hw HI; cbn [output_list length].
  - rewrite shout_nil by done. by rewrite Z.add_0_r.
  - destruct (helper_counts _ c m' k cnt HI) as [E HI']. erewrite M_bind_step by exact E.
    rewrite IH; [|apply wide_shout|done]. rewrite shout_app. simpl. do 4 f_equal. lia.
Qed.

Lemma says_vprintf fuel f its args out :
  chars_at m f 0 (format_bytes its) → prints m true its args out → Forall is_u32 args →
  (length (format_bytes its) < fuel)%nat → Z.of_nat (length out) < 2147483648 →
  says (vprintf_from fuel f args) out (Z.of_nat (length out)).
Proof using.
  intros Hs Hp Hu Hf Hl k Hk Hw. unfold vprintf_from.
  assert (counting (length out + 0) m (acquire_console k, 0)) as HI.
  { unfold counting; simpl. splits; [done|apply acquire_locked|lia|lia]. }
  assert (wide (acquire_console k)) as Hw'.
  { by apply acquire_wide. }
  rewrite (vprintf_level_emits vprintf_helper m counting counting_mem counting_out fuel f its args out
    Hs Hp Hu Hf 0%nat m _ HI).
  erewrite M_bind_step by exact (helper_list_counts out 0%nat m _ 0 Hw' HI).
  unfold mret, M_ret, mbind, outcome_bind. by rewrite release_acquired.
Qed.

Lemma put_locked_says c k : console_locked_by_current_thread k = true →
  put_locked c (m, k) = Ok ((), (m, shout [c] k)).
Proof using. intros Hl. unfold put_locked, putchar_have_lock. by rewrite Hl. Qed.

Lemma acquire_step {B} (f : () → CM B) k : (acquire ≫= f) (m, k) = f () (m, acquire_console k).
Proof using. done. Qed.
Lemma release_says cs k : sound k → release (m, shout cs (acquire_console k)) = Ok ((), (m, shout cs k)).
Proof using. intros Hk. unfold release. by rewrite release_acquired. Qed.

Lemma putbuf_loop_says bs p k : bytes_at m p bs → console_locked_by_current_thread k = true → wide k →
  putbuf_loop (length bs) p (m, k) = Ok ((), (m, shout bs k)).
Proof using.
  revert p k. induction bs as [|b bs IH]; intros p k Hb Hl Hw; cbn [putbuf_loop length].
  - by rewrite shout_nil.
  - apply bytes_at_cons in Hb as [H0 Hb]. unfold get_char. unfold mbind at 1, M_bind at 1.
    rewrite (mem_load_Ok m p b H0). simpl.
    erewrite M_bind_step by by apply put_locked_says. rewrite IH; [|done|done|apply wide_shout].
    by rewrite shout_app.
Qed.

Lemma puts_loop_says s p k fuel : cstr m p s → console_locked_by_current_thread k = true → wide k →
  (length s < fuel)%nat → puts_loop fuel p (m, k) = Ok ((), (m, shout s k)).
Proof using.
  revert p k fuel. induction s as [|b s IH]; intros p k [|fuel] Hs Hl Hw Hf; simpl in Hf; try lia;
    cbn [puts_loop]; unfold get_char; unfold mbind at 1, M_bind at 1.
  - apply cstr_nil in Hs. rewrite (mem_load_Ok m p 0 Hs). simpl. by rewrite shout_nil.
  - apply cstr_cons in Hs as (H0 & Hb & Hs). rewrite (mem_load_Ok m p b H0). simpl.
    destruct (Z.eqb_spec b 0); [lia|]. erewrite M_bind_step by by apply put_locked_says.
    rewrite IH; [|done|done|apply wide_shout|lia]. by rewrite shout_app.
Qed.

Lemma says_putbuf p bs : bytes_at m p bs → says (putbuf p (Z.of_nat (length bs))) bs ().
Proof using.
  intros Hb k Hk Hw. unfold putbuf. rewrite Nat2Z.id, acquire_step.
  erewrite M_bind_step by (apply putbuf_loop_says; [done|apply acquire_locked|by apply acquire_wide]).
  by apply release_says.
Qed.

Lemma says_putchar c : says (putchar c) [c] c.
Proof using.
  intros k Hk Hw. unfold putchar. rewrite acquire_step.
  erewrite M_bind_step by apply put_locked_says, acquire_locked. by erewrite M_bind_step by by apply release_says.
Qed.

Lemma says_puts p s : cstr m p s → says (puts p) (s ++ [10]) 0.
Proof using.
  intros Hs k Hk Hw. unfold puts. rewrite acquire_step, getS_step.
  erewrite M_bind_step.
  2: { apply puts_loop_says; [done|apply acquire_locked|by apply acquire_wide|]. pose proof (cstr_size _ _ _ Hs). lia. }
  erewrite M_bind_step by apply put_locked_says, acquire_locked. rewrite shout_app.
  by erewrite M_bind_step by by apply release_says.
Qed.

Lemma says_lit its args out : prints m true its args out → Forall is_u32 args →
  Z.of_nat (length out) < 2147483648 → says (printf_lit (format_bytes its) args) out ().
Proof using.
  intros Hp Hu Hl. eapply says_then; [|apply says_ret].
  eapply says_vprintf; try done; [|lia]. split; [done|lia].
Qed.
End Says.

(** Console output is complete and keeps its lock.  [printf] prints
    exactly the text of its format to both devices, in order, and returns its
    length; [puts], [putbuf] and [putchar] print their characters; and each
    leaves the console lock exactly as it found it, held or not. *)
Theorem console_prints m k (Hk : sound k) (Hw : wide k) :
  (∀ fuel format its args out,
     cstr m format (format_bytes its) → prints m true its args out → Forall is_u32 args →
     (length (format_bytes its) < fuel)%nat → Z.of_nat (length out) < 2147483648 →
     printf fuel format args (m, k) = Ok (Z.of_nat (length out), (m, shout out k))) ∧
  (∀ p s, cstr m p s → puts p (m, k) = Ok (0, (m, shout (s ++ [10]) k))) ∧
  (∀ p bs, bytes_at m p bs → putbuf p (Z.of_nat (length bs)) (m, k) = Ok ((), (m, shout bs k))) ∧
  (∀ c, putchar c (m, k) = Ok (c, (m, shout [c] k))).
Proof.
  splits; intros.
  - unfold printf, vprintf. eapply says_vprintf; try done. simpl. by rewrite Z.add_0_r.
  - by apply says_puts.
  - by apply says_putbuf.
  - by apply says_putchar.
Qed.

Definition idle_console : console := mkConsole false true false 0 0 [] [].
Definition busy_console : console := mkConsole false true true 1 7 [33] [33].

Lemma console_prints_witness :
  printf 32 64 sample_args (sample_memory, idle_console) =
    Ok (14, (sample_memory, shout sample_text idle_console)) ∧
  puts 96 (sample_memory, busy_console) = Ok (0, (sample_memory, shout [104; 105; 10] busy_console)).
Proof.
  split.
  - apply (proj1 (console_prints sample_memory idle_console ltac:(done) ltac:(done)) 32%nat 64 sample_items sample_args sample_text);
      [apply sample_strings|apply sample_prints, sample_strings|apply sample_args_u32|vm_compute; lia|vm_compute; exact eq_refl].
  - apply (proj1 (proj2 (console_prints sample_memory busy_console ltac:(done) ltac:(done))) 96 [104; 105]).
    apply sample_strings.
Defined.
