(* ===== verification/HexDump.v ===== *)
(** The text of [hex_dump]: lines of at most sixteen bytes, aligned to their
    offset, with two hexadecimal digits per byte and optionally the printable
    characters. *)
From S2P Require Import Prelude Mem Str StrSearch CStdlib Stdio StdioOut StdioSpec StdioCorrect Console.

(** A value in [width] hexadecimal digits. *)
Definition hex_field (width : Z) (t : int_type) (v : Z) : list Z :=
  integer_field v false false base_x (mkConv ZERO width (-1) t).

Fixpoint hex_text (i : Z) (bs : list Z) : list Z :=
  match bs with
  | [] => []
  | b :: bs => hex_field 2 CHAR b ++ [if i =? 7 then 45 else 32] ++ hex_text (i + 1) bs
  end.
Definition ascii_text (bs : list Z) : list Z := (λ b, if isprint b then b else 46) <$> bs.

Definition line_text (ofs : Z) (bs : list Z) (ascii : bool) : list Z :=
  let start := ofs mod 16 in
  let rest := Z.to_nat (16 - (start + Z.of_nat (length bs))) in
  hex_field 8 INTMAX (ROUND_DOWN ofs 16) ++ [32; 32] ++
  concat (replicate (Z.to_nat start) [32; 32; 32]) ++ hex_text start bs ++
  (if ascii then
     concat (replicate rest [32; 32; 32]) ++ [124] ++ concat (replicate (Z.to_nat start) [32]) ++
     ascii_text bs ++ concat (replicate rest [32]) ++ [124]
   else []) ++ [10].

(** The lines of the dump of [bs], at most one per byte. *)
Fixpoint dump_text (fuel : nat) (ofs : Z) (bs : list Z) (ascii : bool) : list Z :=
  match fuel, bs with
  | S fuel, _ :: _ =>
      let n := Nat.min (Z.to_nat (16 - ofs mod 16)) (length bs) in
      line_text ofs (take n bs) ascii ++ dump_text fuel (u32 (ofs + Z.of_nat n)) (drop n bs) ascii
  | _, _ => []
  end.

Definition hex_spec (w : Z) (t : int_type) : spec := mkSpec [48] (Digits [48 + w]) None t.

Section Dump.
Context (m : mem).

Lemma says_text s : Forall (λ c, c ≠ 0 ∧ c ≠ 37) s → Z.of_nat (length s) < 2147483648 →
  says m (printf_lit s []) s ().
Proof using.
  intros Hs Hl. assert (format_bytes (text_items s) = s) as E.
  { clear Hs Hl. induction s as [|c s IH]; [done|]. change (c :: format_bytes (text_items s) = c :: s). by rewrite IH. }
  rewrite <- E at 1. apply says_lit; [|constructor|done].
  pose proof (prints_text m true s [] [] [] Hs (p_nil _ _ _)) as Hp. by rewrite !app_nil_r in Hp.
Qed.

Lemma says_repeat n s : Forall (λ c, c ≠ 0 ∧ c ≠ 37) s → Z.of_nat (length s) < 2147483648 →
  says m (repeat_lit n s) (concat (replicate n s)) ().
Proof using.
  intros Hs Hl. induction n as [|n IH]; [apply says_ret|]. cbn [repeat_lit replicate concat].
  eapply says_bind; [by apply says_text|done].
Qed.

Lemma hex_field_length w t v : is_u64 v → 0 <= w < 64 → Z.of_nat (length (hex_field w t v)) <= 100.
Proof using.
  intros Hv Hw. unfold hex_field. rewrite field_length; [|done|done|simpl; lia|done].
  pose proof (integer_text_length v base_x (mkConv ZERO w (-1) t) ltac:(done) Hv).
  unfold prefix_length. simpl. repeat case_match; lia.
Qed.

Lemma hex_conv w t v args args' rest out : w ∈ [2; 8] → t ∈ [CHAR; INTMAX] → is_u64 v →
  va_unsigned t args = Ok (v, args') → prints m true rest args' out →
  prints m true (Conv (hex_spec w t) 120 :: rest) args (hex_field w t v ++ out).
Proof using.
  intros Hw Ht Hv Ha Hr.
  assert (wf_spec (hex_spec w t) ∧ conv_of (hex_spec w t) args = Some (mkConv ZERO w (-1) t, args) ∧ 0 <= w)
    as (Hwf & Hc & Hw0).
  { rewrite !elem_of_cons, elem_of_nil in Hw. destruct Hw as [-> |[-> |[]]];
      (split; [split; simpl; [by apply Forall_singleton|by split; [apply Forall_singleton|]|done|done]|done]). }
  eapply p_conv; [exact Hwf|done|exact Hc|done| |exact Hr].
  by apply (c_unsigned m true 120 (mkConv ZERO w (-1) t) args base_x).
Qed.

Lemma says_hex_bytes bs p i : bytes_at m p bs → Forall is_u8 bs → says m (hex_bytes (length bs) p i) (hex_text i bs) ().
Proof using.
  revert p i. induction bs as [|b bs IH]; intros p i Hb Hu; [apply says_ret|]. cbn [length hex_bytes hex_text].
  apply bytes_at_cons in Hb as [H0 Hb]. apply Forall_cons in Hu as [Hub Hu]. unfold is_u8 in Hub.
  apply (says_bind m _ _ [] _ b ()); [by apply says_char|].
  rewrite (app_assoc (hex_field 2 CHAR b) [_]).
  eapply says_bind; [|by apply IH].
  apply (says_lit m [Conv (hex_spec 2 CHAR) 120; Conv bare 99]).
  - apply hex_conv with [if i =? 7 then 45 else 32]; [set_solver|set_solver|unfold is_u64; lia| |].
    + simpl. unfold mbind; simpl. by rewrite u8_small.
    + change [if i =? 7 then 45 else 32] with ([if i =? 7 then 45 else 32] ++ []) at 2.
      eapply (p_conv m true bare 99 _ _ bare_conv); [apply wf_bare|done|done|done| |constructor].
      replace [if i =? 7 then 45 else 32] with (string_field [u8 (if i =? 7 then 45 else 32)] bare_conv) at 2
        by by destruct (i =? 7).
      by eapply c_char.
  - repeat constructor; unfold is_u32; try lia; destruct (i =? 7); lia.
  - rewrite length_app. pose proof (hex_field_length 2 CHAR b). unfold is_u64 in *. cbn [length]. lia.
Qed.

Lemma says_ascii_bytes bs p : bytes_at m p bs → Forall is_u8 bs → says m (ascii_bytes (length bs) p) (ascii_text bs) ().
Proof using.
  revert p. induction bs as [|b bs IH]; intros p Hb Hu; [apply says_ret|]. cbn [length ascii_bytes ascii_text fmap list_fmap].
  apply bytes_at_cons in Hb as [H0 Hb]. apply Forall_cons in Hu as [Hub Hu]. unfold is_u8 in Hub.
  apply (says_bind m _ _ [] _ b ()); [by apply says_char|].
  apply (says_bind m _ _ [_] _ () ()); [|by apply IH].
  set (c := if isprint b then b else 46). assert (0 <= c < 256) as Hc by (subst c; case_match; lia).
  apply (says_lit m [Conv bare 99]).
  - change [c] with ([c] ++ []) at 2.
    eapply (p_conv m true bare 99 _ _ bare_conv); [apply wf_bare|done|done|done| |constructor].
    replace [c] with (string_field [u8 c] bare_conv) at 2 by by rewrite u8_small. by eapply c_char.
  - repeat constructor; unfold is_u32; lia.
  - simpl. lia.
Qed.

Lemma says_line ofs p bs ascii : bytes_at m p bs → Forall is_u8 bs → is_u32 ofs →
  says m (hex_line ofs p (ofs mod 16) (Z.of_nat (length bs)) ascii) (line_text ofs bs ascii) ().
Proof using.
  intros Hb Hu Ho. unfold is_u32 in Ho. unfold hex_line, line_text. rewrite Nat2Z.id.
  assert (0 <= ROUND_DOWN ofs 16 < 4294967296) as Hr 
    by (unfold ROUND_DOWN; pose proof (Z.mul_div_le ofs 16); pose proof (Z.div_pos ofs 16); lia).
  rewrite (app_assoc (hex_field _ _ _)).
  eapply says_bind.
  { apply (says_lit m [Conv (hex_spec 8 INTMAX) 120; Char 32; Char 32]).
    - apply hex_conv with []; [set_solver|set_solver|unfold is_u64; lia| |].
      + unfold va_unsigned, va_dword, va_word, mbind, outcome_bind. by rewrite Z.mul_0_r, Z.add_0_r.
      + by repeat constructor.
    - repeat constructor; unfold is_u32; lia.
    - rewrite length_app. pose proof (hex_field_length 8 INTMAX (ROUND_DOWN ofs 16)). unfold is_u64 in *. cbn [length]. lia. }
  eapply says_bind; [apply says_repeat; [by repeat constructor|done]|].
  eapply says_bind; [by apply says_hex_bytes|].
  eapply says_bind; [|by apply says_text; [repeat constructor|]].
  destruct ascii; [|apply says_ret].
  eapply says_bind; [apply says_repeat; [by repeat constructor|done]|].
  eapply says_bind; [apply says_text; [by repeat constructor|done]|].
  eapply says_bind; [apply says_repeat; [by repeat constructor|done]|].
  eapply says_bind; [by apply says_ascii_bytes|].
  eapply says_bind; [apply says_repeat; [by repeat constructor|done]|].
  apply says_text; [by repeat constructor|done].
Qed.

(** [hex_dump] terminates and prints exactly the lines of its bytes. *)
Lemma hex_dump_prints ofs p bs ascii : bytes_at m p bs → Forall is_u8 bs → is_u32 ofs →
  says m (hex_dump ofs p (Z.of_nat (length bs)) ascii) (dump_text (S (length bs)) ofs bs ascii) ().
Proof using.
  unfold hex_dump. rewrite Nat2Z.id.
  assert (∀ fuel ofs p bs, bytes_at m p bs → Forall is_u8 bs → is_u32 ofs → (length bs < fuel)%nat →
    says m (hex_loop fuel ofs p (Z.of_nat (length bs)) ascii) (dump_text fuel ofs bs ascii) ()) as Hl; [|intros; apply Hl; auto].
  clear. induction fuel as [|fuel IH]; intros ofs p bs Hb Hu Ho Hf; [lia|]. cbn [hex_loop dump_text].
  destruct bs as [|b bs]; [apply says_ret|].
  set (l := b :: bs) in *.
  assert (1 <= length l)%nat as Hl1 by (subst l; cbn [length]; lia). clearbody l.
  destruct (Z.ltb_spec 0 (Z.of_nat (length l))); [|lia].
  set (n := Nat.min (Z.to_nat (16 - ofs mod 16)) (length l)).
  pose proof (Z.mod_pos_bound ofs 16 ltac:(lia)).
  assert ((if Z.of_nat (length l) <? 16 - ofs mod 16 then ofs mod 16 + Z.of_nat (length l) else 16) - ofs mod 16 = Z.of_nat n) as ->.
  { destruct (Z.ltb_spec (Z.of_nat (length l)) (16 - ofs mod 16)); subst n; lia. }
  assert (n <= length l ∧ 1 <= n)%nat as [Hn Hn1] by (subst n; lia).
  rewrite <- (take_drop n l) in Hb. apply bytes_at_app in Hb as [Hb1 Hb2].
  rewrite length_take, Nat.min_l in Hb2 by lia.
  eapply says_bind.
  - replace (Z.of_nat n) with (Z.of_nat (length (take n l))) by (rewrite length_take; lia).
    apply says_line; [done|by apply Forall_take|done].
  - replace (Z.of_nat (length l) - Z.of_nat n) with (Z.of_nat (length (drop n l))) by (rewrite length_drop; lia).
    apply IH; [done|by apply Forall_drop|apply u32_range|]. rewrite length_drop. lia.
Qed.
End Dump.
