(* ===== verification/Intq.v ===== *)
(** Interrupt queues (devices/intq.c): a ring of 64 bytes between kernel threads
    and interrupt handlers, its monitor-style waiting, and the interleavings of
    the threads and handlers that use one.

    [intq_getc] and [intq_putc] are cut at the places where a thread can lose
    the processor: interrupts are off in them, so that everything between two
    calls of [lock_acquire], [thread_block] and [lock_release] is atomic. *)
From S2P Require Import Prelude.

Definition INTQ_BUFSIZE : Z := 64.

(** The lock is kept beside the queue, in [monitor] below. *)
Record intq := mkIntq {
  not_full : option Z;
  not_empty : option Z;
  buf : list Z;
  head : Z;
  tail : Z
}.

(** What the code sees of the processor: [intr_get_level () == INTR_OFF],
    [intr_context ()] and [thread_current ()]. *)
Record cpu := mkCpu { intr_off : bool; intr_context : bool; current : Z }.

(** The address of a waiter member. *)
Inductive cond := NotFull | NotEmpty.

Definition waiter (w : cond) (q : intq) : option Z :=
  match w with NotFull => not_full q | NotEmpty => not_empty q end.
Definition set_waiter (w : cond) (t : option Z) (q : intq) : intq :=
  match w with
  | NotFull => mkIntq t (not_empty q) (buf q) (head q) (tail q)
  | NotEmpty => mkIntq (not_full q) t (buf q) (head q) (tail q)
  end.

Definition next (pos : Z) : Z := Z.rem (s32 (pos + 1)) INTQ_BUFSIZE.

Definition intq_init (q : intq) : intq := mkIntq None None (buf q) 0 0.
Definition intq_empty (c : cpu) (q : intq) : outcome bool :=
  assert (intr_off c) (Ok (head q =? tail q)).
Definition intq_full (c : cpu) (q : intq) : outcome bool :=
  assert (intr_off c) (Ok (next (head q) =? tail q)).

(** The condition under which a thread may wait at a member. *)
Definition may_wait (c : cpu) (w : cond) (q : intq) : outcome bool :=
  match w with NotEmpty => intq_empty c q | NotFull => intq_full c q end.

(** [wait] up to [thread_block]. *)
Definition wait (c : cpu) (w : cond) (q : intq) : outcome intq :=
  assert (negb (intr_context c)) (assert (intr_off c) (
  b ← may_wait c w q; assert b (Ok (set_waiter w (Some (current c)) q)))).
(** [signal], with the thread it passes to [thread_unblock]. *)
Definition signal (c : cpu) (w : cond) (q : intq) : outcome (option Z * intq) :=
  assert (intr_off c) (
  b ← may_wait c w q;
  assert (negb b) (Ok (waiter w q, set_waiter w None q))).

(** One test of the loop condition: the operation completes, waking the thread
    given, or the thread goes on to [lock_acquire] and [wait]. *)
Inductive attempt (A : Type) := Done (a : A) (woken : option Z) (q : intq) | MustWait.
Arguments Done {A} a woken q.
Arguments MustWait {A}.

Definition intq_getc (c : cpu) (q : intq) : outcome (attempt Z) :=
  e ← intq_empty c q;
  if (e : bool) then assert (negb (intr_context c)) (Ok MustWait)
  else
    byte ← of_option (zget (buf q) (tail q));
    '(t, q) ← signal c NotFull (mkIntq (not_full q) (not_empty q) (buf q) (head q) (next (tail q)));
    Ok (Done byte t q).
Definition intq_putc (c : cpu) (q : intq) (byte : Z) : outcome (attempt ()) :=
  f ← intq_full c q;
  if (f : bool) then assert (negb (intr_context c)) (Ok MustWait)
  else
    b ← of_option (zset (buf q) (head q) byte);
    '(t, q) ← signal c NotEmpty (mkIntq (not_full q) (not_empty q) b (next (head q)) (tail q));
    Ok (Done () t q).

(** * The ring as a queue *)

Definition count (q : intq) : Z := (head q - tail q) mod INTQ_BUFSIZE.
Definition at_ (q : intq) (i : Z) : Z := default 0 (zget (buf q) ((tail q + i) mod INTQ_BUFSIZE)).
Definition contents (q : intq) : list Z := at_ q <$> seqZ 0 (count q).

(** The types of the members: indices within the buffer and bytes in it. *)
Record intq_wf (q : intq) : Prop := {
  wf_buf : length (buf q) = Z.to_nat INTQ_BUFSIZE;
  wf_bytes : Forall is_u8 (buf q);
  wf_head : 0 <= head q < INTQ_BUFSIZE;
  wf_tail : 0 <= tail q < INTQ_BUFSIZE
}.

Lemma next_mod i : 0 <= i < INTQ_BUFSIZE → next i = (i + 1) mod INTQ_BUFSIZE.
Proof.
  unfold next, INTQ_BUFSIZE. intros. rewrite s32_small by lia. by rewrite Z.rem_mod_nonneg by lia.
Qed.
Lemma next_range i : 0 <= i < INTQ_BUFSIZE → 0 <= next i < INTQ_BUFSIZE.
Proof. intros. rewrite next_mod by done. apply Z.mod_pos_bound. done. Qed.

Lemma count_range q : 0 <= count q < INTQ_BUFSIZE.
Proof. unfold count. by apply Z.mod_pos_bound. Qed.
Lemma length_contents q : Z.of_nat (length (contents q)) = count q.
Proof. unfold contents. rewrite length_fmap, length_seqZ. pose proof (count_range q). lia. Qed.

Lemma empty_count q : intq_wf q → (head q =? tail q) = (count q =? 0).
Proof.
  intros [_ _ ? ?]. unfold count, INTQ_BUFSIZE in *.
  bcases; try done; exfalso; Z.to_euclidean_division_equations; lia.
Qed.
Lemma full_count q : intq_wf q → (next (head q) =? tail q) = (count q =? 63).
Proof.
  intros [_ _ ? ?]. rewrite next_mod by done. unfold count, INTQ_BUFSIZE in *.
  bcases; try done; exfalso; Z.to_euclidean_division_equations; lia.
Qed.

(** The condition of a waiting thread, on the contents. *)
Definition starved (w : cond) (q : intq) : bool :=
  match w with NotEmpty => count q =? 0 | NotFull => count q =? 63 end.
Lemma may_wait_starved c w q : intq_wf q → intr_off c = true → may_wait c w q = Ok (starved w q).
Proof.
  intros Hw Hc. destruct w; cbn [may_wait starved]; unfold intq_empty, intq_full; rewrite Hc; cbn [assert].
  - by rewrite full_count.
  - by rewrite empty_count.
Qed.


Section ring.
Context (q : intq) (Hq : intq_wf q).

(** The queue after a byte is stored at the head. *)
Definition pushed (b : Z) : intq :=
  mkIntq (not_full q) (not_empty q) (<[Z.to_nat (head q) := b]> (buf q)) (next (head q)) (tail q).
(** The queue after a byte is taken from the tail. *)
Definition popped : intq := mkIntq (not_full q) (not_empty q) (buf q) (head q) (next (tail q)).

Lemma count_pushed b : count q < 63 → count (pushed b) = count q + 1.
Proof using Hq.
  destruct Hq as [_ _ ? ?]. unfold count, pushed; cbn [head tail]. rewrite next_mod by done.
  unfold INTQ_BUFSIZE in *. intros. Z.to_euclidean_division_equations; lia.
Qed.
Lemma count_popped : 0 < count q → count popped = count q - 1.
Proof using Hq.
  destruct Hq as [_ _ ? ?]. unfold count, popped; cbn [head tail]. rewrite next_mod by done.
  unfold INTQ_BUFSIZE in *. intros. Z.to_euclidean_division_equations; lia.
Qed.

Lemma pushed_wf b : is_u8 b → intq_wf (pushed b).
Proof using Hq.
  destruct Hq. intros. split; cbn [pushed buf head tail]; [by rewrite length_insert| |by apply next_range|done].
  by apply Forall_insert.
Qed.
Lemma popped_wf : intq_wf popped.
Proof using Hq. destruct Hq. split; cbn [popped buf head tail]; try done. by apply next_range. Qed.

(** The slot of the head is [count] places after the tail. *)
Lemma head_slot : head q = (tail q + count q) mod INTQ_BUFSIZE.
Proof using Hq.
  destruct Hq as [_ _ ? ?]. unfold count, INTQ_BUFSIZE in *. Z.to_euclidean_division_equations; lia.
Qed.
Lemma slot_ne i : 0 <= i < count q → (tail q + i) mod INTQ_BUFSIZE ≠ head q.
Proof using Hq.
  destruct Hq as [_ _ ? ?]. unfold count, INTQ_BUFSIZE in *. intros. Z.to_euclidean_division_equations; lia.
Qed.

Lemma at_pushed b i : at_ (pushed b) i =
  if head q =? (tail q + i) mod INTQ_BUFSIZE then b else at_ q i.
Proof using Hq.
  destruct Hq as [Hl _ ? ?]. unfold at_; cbn [pushed buf tail].
  rewrite zget_insert by (rewrite Hl; unfold INTQ_BUFSIZE in *; lia). by destruct (_ =? _).
Qed.

Lemma contents_pushed b : count q < 63 → contents (pushed b) = contents q ++ [b].
Proof using Hq.
  intros Hc. unfold contents. rewrite count_pushed by done. pose proof (count_range q).
  rewrite seqZ_app by lia. rewrite fmap_app. f_equal.
  - apply list_fmap_ext. intros j i Hi%list_elem_of_lookup_2. rewrite elem_of_seqZ in Hi.
    rewrite at_pushed. pose proof (slot_ne i). destruct (Z.eqb_spec (head q) ((tail q + i) mod INTQ_BUFSIZE)); [lia|done].
  - rewrite (seqZ_cons (0 + count q) 1), (seqZ_nil _ (Z.pred 1)) by lia. cbn [fmap list_fmap].
    rewrite at_pushed, Z.add_0_l, <- head_slot. by rewrite Z.eqb_refl.
Qed.

Lemma contents_popped : 0 < count q → contents q = at_ q 0 :: contents popped.
Proof using Hq.
  intros Hc. unfold contents. rewrite count_popped by done.
  rewrite (seqZ_cons 0 (count q)) by lia. cbn [fmap list_fmap]. f_equal.
  replace (Z.succ 0) with (1 + 0) by lia. rewrite <- fmap_add_seqZ, <- list_fmap_compose.
  replace (Z.pred (count q)) with (count q - 1) by lia. apply list_fmap_ext. intros j i _. cbn.
  unfold at_; cbn [popped buf tail]. destruct Hq as [_ _ ? ?]. rewrite next_mod by done.
  rewrite Zplus_mod_idemp_l. do 3 f_equal. lia.
Qed.

Lemma tail_byte : zget (buf q) (tail q) = Some (at_ q 0) ∧ is_u8 (at_ q 0).
Proof using Hq.
  destruct Hq as [Hl Hb ? Ht]. destruct (zget_is_Some (buf q) (tail q)) as [a Ea].
  { rewrite Hl. unfold INTQ_BUFSIZE in *. lia. }
  unfold at_. rewrite Z.add_0_r, (Z.mod_small (tail q)) by done. rewrite Ea. cbn.
  split; [done|]. unfold zget in Ea. destruct (tail q <? 0); [done|]. by eapply lookup_Forall.
Qed.
End ring.

Lemma contents_set_waiter w t q : contents (set_waiter w t q) = contents q.
Proof. by destruct w. Qed.
Lemma count_set_waiter w t q : count (set_waiter w t q) = count q.
Proof. by destruct w. Qed.
Lemma set_waiter_wf w t q : intq_wf q → intq_wf (set_waiter w t q).
Proof. intros []. by destruct w. Qed.

(** * The operations on the queue of bytes *)

Lemma intq_getc_spec c q : intq_wf q → intr_off c = true →
  match contents q with
  | [] => intq_getc c q = if intr_context c then Err AssertFail else Ok MustWait
  | b :: l => ∃ q', intq_getc c q = Ok (Done b (not_full q) q') ∧ intq_wf q' ∧ contents q' = l ∧ is_u8 b ∧
      not_full q' = None ∧ not_empty q' = not_empty q
  end.
Proof.
  intros Hw Hc. pose proof (length_contents q) as Hl. pose proof (count_range q).
  unfold intq_getc, intq_empty. rewrite Hc. cbn [assert]. rewrite empty_count by done.
  destruct (contents q) as [|b l] eqn:E; cbn [length] in Hl.
  { rewrite <- Hl. cbn. by destruct (intr_context c). }
  destruct (Z.eqb_spec (count q) 0); [lia|]. destruct (tail_byte q Hw) as [Et Hu].
  rewrite contents_popped in E by (done || lia). simplify_eq.
  exists (set_waiter NotFull None (popped q)). split; [|split; [|split]].
  - cbn [mbind outcome_bind]. rewrite Et. cbn [of_option mbind outcome_bind]. fold (popped q).
    unfold signal. rewrite Hc, may_wait_starved by (done || by apply popped_wf). cbn [assert mbind outcome_bind starved].
    rewrite count_popped by (done || lia).
    destruct (Z.eqb_spec (count q - 1) 63); [unfold INTQ_BUFSIZE in *; lia|done].
  - by apply set_waiter_wf, popped_wf.
  - by rewrite contents_set_waiter.
  - done.
Qed.

Lemma intq_putc_spec c q b : intq_wf q → intr_off c = true → is_u8 b →
  if (length (contents q) =? 63)%nat then
    intq_putc c q b = if intr_context c then Err AssertFail else Ok MustWait
  else ∃ q', intq_putc c q b = Ok (Done () (not_empty q) q') ∧ intq_wf q' ∧ contents q' = contents q ++ [b] ∧
      not_empty q' = None ∧ not_full q' = not_full q.
Proof.
  intros Hw Hc Hb. pose proof (length_contents q) as Hl. pose proof (count_range q).
  unfold intq_putc, intq_full. rewrite Hc. cbn [assert]. rewrite full_count by done.
  destruct (Nat.eqb_spec (length (contents q)) 63) as [E|E].
  { replace (count q) with 63 by lia. cbn. by destruct (intr_context c). }
  destruct (Z.eqb_spec (count q) 63); [lia|]. assert (count q < 63) by (unfold INTQ_BUFSIZE in *; lia).
  exists (set_waiter NotEmpty None (pushed q b)). split; [|split; [|split]].
  - cbn [mbind outcome_bind]. rewrite zset_Some by (destruct Hw as [-> _ ? ?]; unfold INTQ_BUFSIZE in *; lia).
    cbn [of_option mbind outcome_bind]. fold (pushed q b).
    unfold signal. rewrite Hc, may_wait_starved by (done || by apply pushed_wf). cbn [assert mbind outcome_bind starved].
    rewrite count_pushed by done. by destruct (Z.eqb_spec (count q + 1) 0); [lia|].
  - by apply set_waiter_wf, pushed_wf.
  - rewrite contents_set_waiter. by apply contents_pushed.
  - done.
Qed.

(** * Threads and handlers around a queue *)

Inductive request := Getc | Putc (byte : Z).
Definition cond_of (r : request) : cond := match r with Getc => NotEmpty | Putc _ => NotFull end.

(** Where a thread that called [intq_getc] or [intq_putc] is: about to test the
    loop condition, blocked in [lock_acquire], blocked in [thread_block] within
    [wait], or made ready by [signal]. *)
Inductive pc := Testing (r : request) | AtLock (r : request) | Sleeping (r : request) | Awake (r : request).
Definition request_of (p : pc) : request :=
  match p with Testing r | AtLock r | Sleeping r | Awake r => r end.

(** The queue, the holder of its lock, the threads inside its operations, and
    the bytes that the completed calls returned and were given. *)
Record monitor := mkMonitor {
  queue : intq;
  lock : option Z;
  threads : gmap Z pc;
  received : list Z;
  sent : list Z
}.
Definition set_threads (ts : gmap Z pc) (m : monitor) : monitor :=
  mkMonitor (queue m) (lock m) ts (received m) (sent m).
Definition in_thread (t : Z) : cpu := mkCpu true false t.
Definition in_handler (t : Z) : cpu := mkCpu true true t.

(** [thread_unblock] asserts that the thread is blocked. *)
Definition wake (t : option Z) (ts : gmap Z pc) : outcome (gmap Z pc) :=
  match t with
  | None => Ok ts
  | Some t => match ts !! t with Some (Sleeping r) => Ok (<[t := Awake r]> ts) | _ => Err AssertFail end
  end.

(** A call that tests its condition: it completes, or has to wait. *)
Definition perform (c : cpu) (r : request) (m : monitor) : outcome (option monitor) :=
  match r with
  | Getc =>
      a ← intq_getc c (queue m);
      match a with
      | Done b t q => ts ← wake t (threads m); Ok (Some (mkMonitor q (lock m) ts (received m ++ [b]) (sent m)))
      | MustWait => Ok None
      end
  | Putc b =>
      a ← intq_putc c (queue m) b;
      match a with
      | Done _ t q => ts ← wake t (threads m); Ok (Some (mkMonitor q (lock m) ts (received m) (sent m ++ [b])))
      | MustWait => Ok None
      end
  end.

(** [wait] with the lock just acquired. *)
Definition sleep (t : Z) (r : request) (m : monitor) : outcome monitor :=
  q ← wait (in_thread t) (cond_of r) (queue m);
  Ok (mkMonitor q (Some t) (<[t := Sleeping r]> (threads m)) (received m) (sent m)).
(** The loop condition and what follows it, up to the next switch. *)
Definition test (t : Z) (r : request) (m : monitor) : outcome monitor :=
  o ← perform (in_thread t) r m;
  match o with
  | Some m => Ok (set_threads (delete t (threads m)) m)
  | None =>
      match lock m with
      | None => sleep t r m
      | Some h => assert (negb (h =? t)) (Ok (set_threads (<[t := AtLock r]> (threads m)) m))
      end
  end.
(** [lock_release] after [wait] returns. *)
Definition resume (t : Z) (r : request) (m : monitor) : outcome monitor :=
  assert (bool_decide (lock m = Some t))
    (Ok (mkMonitor (queue m) None (<[t := Testing r]> (threads m)) (received m) (sent m))).
(** A handler calls only after checking that it will not have to wait. *)
Definition handle (t : Z) (r : request) (m : monitor) : outcome monitor :=
  b ← may_wait (in_handler t) (cond_of r) (queue m);
  if (b : bool) then Ok m
  else o ← perform (in_handler t) r m; Ok (default m o).

Definition request_ok (r : request) : Prop := match r with Getc => True | Putc b => is_u8 b end.

Inductive step (m : monitor) : outcome monitor → Prop :=
  | StepCall t r : threads m !! t = None → request_ok r →
      step m (Ok (set_threads (<[t := Testing r]> (threads m)) m))
  | StepTest t r : threads m !! t = Some (Testing r) → step m (test t r m)
  | StepLock t r : threads m !! t = Some (AtLock r) → lock m = None → step m (sleep t r m)
  | StepResume t r : threads m !! t = Some (Awake r) → step m (resume t r m)
  | StepHandler t r : request_ok r → step m (handle t r m).

Definition initial (q : intq) : monitor := mkMonitor (intq_init q) None ∅ [] [].
Inductive reachable (q : intq) : monitor → Prop :=
  | reach_init : reachable q (initial q)
  | reach_step m m' : reachable q m → step m (Ok m') → reachable q m'.

Record monitor_inv (m : monitor) : Prop := {
  inv_wf : intq_wf (queue m);
  inv_bytes : received m ++ contents (queue m) = sent m;
  inv_requests : ∀ t p, threads m !! t = Some p → request_ok (request_of p);
  inv_waiter : ∀ w t, waiter w (queue m) = Some t ↔ ∃ r, threads m !! t = Some (Sleeping r) ∧ cond_of r = w;
  inv_starved : ∀ t r, threads m !! t = Some (Sleeping r) → starved (cond_of r) (queue m) = true;
  inv_lock : ∀ t, lock m = Some t ↔ ∃ r, threads m !! t = Some (Sleeping r) ∨ threads m !! t = Some (Awake r)
}.

Lemma initial_inv q : intq_wf q → monitor_inv (initial q).
Proof.
  intros [? ? ? ?]. split; cbn; try done; try (intros; set_solver); [].
  intros [] t; cbn; set_solver.
Qed.

(** What a completed call does to another thread. *)
Definition woke (p p' : option pc) : Prop := p' = p ∨ ∃ r, p = Some (Sleeping r) ∧ p' = Some (Awake r).
Definition other (w : cond) : cond := match w with NotFull => NotEmpty | NotEmpty => NotFull end.

Section monitor.
Context (m : monitor) (Hm : monitor_inv m).

Lemma sleeping_unique t t' r r' :
  threads m !! t = Some (Sleeping r) → threads m !! t' = Some (Sleeping r') → t' = t.
Proof using Hm.
  intros H H'. assert (lock m = Some t) as E by (apply (inv_lock _ Hm); eauto).
  assert (lock m = Some t') as E' by (apply (inv_lock _ Hm); eauto). congruence.
Qed.

(** Nobody sleeps on a condition that does not hold, so the waiter that a
    completed call wakes is the only sleeper there can be. *)
Lemma wake_inv w q rec snt :
  intq_wf q → rec ++ contents q = snt → starved (other w) (queue m) = false →
  waiter w q = None → waiter (other w) q = waiter (other w) (queue m) →
  ∃ ts, wake (waiter w (queue m)) (threads m) = Ok ts ∧
    monitor_inv (mkMonitor q (lock m) ts rec snt) ∧ ∀ t, woke (threads m !! t) (ts !! t).
Proof using Hm.
  intros Hq Hb Hs Hw Ho.
  assert (∀ t r, threads m !! t = Some (Sleeping r) → waiter w (queue m) = Some t) as Hsl.
  { intros t r H. pose proof (inv_starved _ Hm t r H) as E. apply (inv_waiter _ Hm). exists r. split; [done|].
    destruct w, r; cbn in *; congruence. }
  assert (waiter (other w) q = None) as Ho'.
  { rewrite Ho. destruct (waiter (other w) (queue m)) as [t|] eqn:E; [|done].
    apply (inv_waiter _ Hm) in E as (r & Hr & Er). pose proof (inv_starved _ Hm t r Hr). congruence. }
  assert (∀ w', waiter w' q = None) as Hnone by (intros w'; destruct w, w'; done).
  destruct (waiter w (queue m)) as [t|] eqn:E; cbn [wake].
  - destruct (proj1 (inv_waiter _ Hm w t) E) as (r & Hr & Er). rewrite Hr. eexists. split; [done|].
    assert (∀ t' r', <[t:=Awake r]> (threads m) !! t' ≠ Some (Sleeping r')) as Hno.
    { intros t' r'. destruct (decide (t' = t)) as [->|]; [by rewrite lookup_insert_eq|].
      rewrite lookup_insert_ne by done. intros H. apply Hsl in H. congruence. }
    split; [split; cbn|].
    + done.
    + done.
    + intros t' p. destruct (decide (t' = t)) as [->|]; [rewrite lookup_insert_eq|rewrite lookup_insert_ne by done; by apply (inv_requests _ Hm)].
      intros [= <-]. by apply (inv_requests _ Hm _ _ Hr).
    + intros w' t'. rewrite Hnone. split; [done|]. intros (r' & H' & _). by apply Hno in H'.
    + intros t' r' H'. by apply Hno in H'.
    + intros t'. rewrite (inv_lock _ Hm). split; intros [r' H'].
      * destruct (decide (t' = t)) as [->|]; [exists r; right; by rewrite lookup_insert_eq|].
        exists r'. by rewrite lookup_insert_ne.
      * destruct H' as [H'|H']; [by apply Hno in H'|]. destruct (decide (t' = t)) as [->|]; [eauto|].
        rewrite lookup_insert_ne in H' by done. eauto.
    + intros t'. unfold woke. destruct (decide (t' = t)) as [->|]; [rewrite lookup_insert_eq; eauto|rewrite lookup_insert_ne by done; auto].
  - eexists. split; [done|]. assert (∀ t r, threads m !! t ≠ Some (Sleeping r)) as Hno.
    { intros t r H. by apply Hsl in H. }
    split; [split; cbn|].
    + done.
    + done.
    + apply (inv_requests _ Hm).
    + intros w' t'. rewrite Hnone. split; [done|]. intros (r' & H' & _). by apply Hno in H'.
    + intros t' r' H'. by apply Hno in H'.
    + apply (inv_lock _ Hm).
    + intros t'. by left.
Qed.

Lemma perform_spec c r : intr_off c = true → request_ok r →
  if starved (cond_of r) (queue m) then
    perform c r m = if intr_context c then Err AssertFail else Ok None
  else ∃ m', perform c r m = Ok (Some m') ∧ monitor_inv m' ∧ lock m' = lock m ∧
    (∀ t, woke (threads m !! t) (threads m' !! t)) ∧
    match r with
    | Getc => sent m' = sent m ∧ ∃ b, received m' = received m ++ [b]
    | Putc b => received m' = received m ∧ sent m' = sent m ++ [b]
    end.
Proof using Hm.
  intros Hc Hr. pose proof (inv_wf _ Hm) as Hw. pose proof (length_contents (queue m)) as Hl.
  pose proof (inv_bytes _ Hm) as Hb. destruct r as [|b]; cbn [cond_of starved perform].
  - pose proof (intq_getc_spec c (queue m) Hw Hc) as H. destruct (contents (queue m)) as [|b l]; cbn [length] in Hl.
    { rewrite <- Hl, H. cbn. by destruct (intr_context c). }
    destruct H as (q' & E & Hw' & Hc' & _ & Hf & He). destruct (Z.eqb_spec (count (queue m)) 0); [lia|].
    destruct (wake_inv NotFull q' (received m ++ [b]) (sent m)) as (ts & Et & Hi & Hk); cbn; try done.
    { rewrite Hc', <- app_assoc. done. }
    { by apply Z.eqb_neq. }
    eexists. rewrite E. cbn [mbind outcome_bind]. cbn [waiter] in Et. rewrite Et. cbn [mbind outcome_bind].
    split; [done|]. cbn. eauto 10.
  - pose proof (intq_putc_spec c (queue m) b Hw Hc Hr) as H.
    destruct (Nat.eqb_spec (length (contents (queue m))) 63) as [El|El].
    { rewrite H. destruct (Z.eqb_spec (count (queue m)) 63); [|lia]. by destruct (intr_context c). }
    destruct H as (q' & E & Hw' & Hc' & He & Hf). destruct (Z.eqb_spec (count (queue m)) 63); [lia|].
    destruct (wake_inv NotEmpty q' (received m) (sent m ++ [b])) as (ts & Et & Hi & Hk); cbn; try done.
    { rewrite Hc', app_assoc. by rewrite Hb. }
    { by apply Z.eqb_neq. }
    eexists. rewrite E. cbn [mbind outcome_bind]. cbn [waiter] in Et. rewrite Et. cbn [mbind outcome_bind].
    split; [done|]. cbn. eauto 10.
Qed.
End monitor.

(** Outside [wait]. *)
Definition quiet (p : option pc) : Prop :=
  match p with Some (Sleeping _) | Some (Awake _) => False | _ => True end.

Lemma rethread_inv m t ts : monitor_inv m → quiet (threads m !! t) → quiet (ts !! t) →
  (∀ p, ts !! t = Some p → request_ok (request_of p)) → (∀ t', t' ≠ t → ts !! t' = threads m !! t') →
  monitor_inv (set_threads ts m).
Proof.
  intros Hm Hp Hp' Hr Hts.
  assert (∀ t' r, (ts !! t' = Some (Sleeping r) ↔ threads m !! t' = Some (Sleeping r)) ∧
                  (ts !! t' = Some (Awake r) ↔ threads m !! t' = Some (Awake r))) as H.
  { intros t' r. destruct (decide (t' = t)) as [->|]; [|by rewrite Hts].
    split; split; intros E; rewrite E in *; done. }
  destruct Hm as [? ? Hq Hw Hs Hl]. split; cbn; try done.
  - intros t' p. destruct (decide (t' = t)) as [->|]; [apply Hr|rewrite Hts by done; apply Hq].
  - intros w t'. rewrite Hw. by setoid_rewrite (λ r, proj1 (H t' r)).
  - intros t' r E%H. eauto.
  - intros t'. rewrite Hl. setoid_rewrite (λ r, proj1 (H t' r)). by setoid_rewrite (λ r, proj2 (H t' r)).
Qed.

Lemma sleep_spec m t r : monitor_inv m → lock m = None → quiet (threads m !! t) → request_ok r →
  if starved (cond_of r) (queue m) then ∃ m', sleep t r m = Ok m' ∧ monitor_inv m'
  else sleep t r m = Err AssertFail.
Proof.
  intros Hm Hl Hp Hr. pose proof (inv_wf _ Hm) as Hw. unfold sleep, wait. cbn [in_thread intr_context intr_off negb assert].
  rewrite may_wait_starved by done. cbn [mbind outcome_bind current].
  destruct (starved (cond_of r) (queue m)) eqn:Hs; cbn [assert mbind outcome_bind]; [|done].
  assert (∀ t' r', threads m !! t' ≠ Some (Sleeping r') ∧ threads m !! t' ≠ Some (Awake r')) as Hno.
  { intros t' r'. split; intros H; assert (lock m = Some t') by (apply (inv_lock _ Hm); eauto); congruence. }
  assert (∀ w, waiter w (queue m) = None) as Hn.
  { intros w. destruct (waiter w (queue m)) as [t'|] eqn:E; [|done].
    apply (inv_waiter _ Hm) in E as (r' & H & _). by apply Hno in H. }
  assert (∀ t' r', <[t:=Sleeping r]> (threads m) !! t' = Some (Sleeping r') ↔ t' = t ∧ r' = r) as Hone.
  { intros t' r'. destruct (decide (t' = t)) as [->|].
    - rewrite lookup_insert_eq. naive_solver.
    - rewrite lookup_insert_ne by done. split; [intros H; by apply Hno in H|naive_solver]. }
  eexists. split; [done|]. destruct Hm as [? ? Hq _ _ _]. split; cbn.
  - by apply set_waiter_wf.
  - by rewrite contents_set_waiter.
  - intros t' p. destruct (decide (t' = t)) as [->|]; [rewrite lookup_insert_eq; by intros [= <-]|].
    rewrite lookup_insert_ne by done. apply Hq.
  - intros w t'. setoid_rewrite Hone. specialize (Hn w). destruct w, r; cbn in *; rewrite ?Hn; naive_solver.
  - intros t' r' [-> ->]%Hone. destruct r; cbn in *; unfold count in *; done.
  - intros t'. setoid_rewrite Hone. split; [intros [= <-]; eauto|]. intros [r' [[-> ->]|H]]; [done|].
    destruct (decide (t' = t)) as [->|]; [done|]. rewrite lookup_insert_ne in H by done. by apply Hno in H.
Qed.

Lemma resume_spec m t r : monitor_inv m → threads m !! t = Some (Awake r) →
  ∃ m', resume t r m = Ok m' ∧ monitor_inv m'.
Proof.
  intros Hm Ht. assert (lock m = Some t) as El by (apply (inv_lock _ Hm); eauto).
  unfold resume. rewrite bool_decide_eq_true_2 by done. eexists. split; [done|].
  assert (∀ t' r', t' ≠ t → threads m !! t' ≠ Some (Sleeping r') ∧ threads m !! t' ≠ Some (Awake r')) as Hno.
  { intros t' r' Hne. split; intros H; assert (lock m = Some t') by (apply (inv_lock _ Hm); eauto); congruence. }
  assert (∀ t' r', <[t:=Testing r]> (threads m) !! t' ≠ Some (Sleeping r') ∧
                   <[t:=Testing r]> (threads m) !! t' ≠ Some (Awake r')) as Hno'.
  { intros t' r'. destruct (decide (t' = t)) as [->|]; [by rewrite lookup_insert_eq|].
    rewrite lookup_insert_ne by done. by apply Hno. }
  assert (∀ w, waiter w (queue m) = None) as Hn.
  { intros w. destruct (waiter w (queue m)) as [t'|] eqn:E; [|done].
    apply (inv_waiter _ Hm) in E as (r' & H & _). destruct (decide (t' = t)) as [->|]; [congruence|].
    by apply Hno in H. }
  destruct Hm as [? ? Hq _ _ _]. split; cbn; try done.
  - intros t' p. destruct (decide (t' = t)) as [->|]; [rewrite lookup_insert_eq; intros [= <-]; apply (Hq _ _ Ht)|].
    rewrite lookup_insert_ne by done. apply Hq.
  - intros w t'. rewrite Hn. split; [done|]. intros (r' & H & _). by apply Hno' in H.
  - intros t' r' H. by apply Hno' in H.
  - intros t'. split; [done|]. intros [r' [H|H]]; by apply Hno' in H.
Qed.

Lemma test_spec m t r : monitor_inv m → threads m !! t = Some (Testing r) →
  ∃ m', test t r m = Ok m' ∧ monitor_inv m'.
Proof.
  intros Hm Ht. pose proof (inv_requests _ Hm _ _ Ht) as Hr. cbn in Hr.
  pose proof (perform_spec m Hm (in_thread t) r eq_refl Hr) as H. unfold test.
  destruct (starved (cond_of r) (queue m)) eqn:Hs.
  - rewrite H. cbn [in_thread intr_context mbind outcome_bind]. destruct (lock m) as [h|] eqn:El.
    + destruct (Z.eqb_spec h t) as [->|]; cbn [negb assert].
      { apply (inv_lock _ Hm) in El as [r' [E|E]]; congruence. }
      eexists. split; [done|]. apply (rethread_inv _ t); rewrite ?Ht, ?lookup_insert_eq; try done.
      * by intros p [= <-].
      * intros t' ?. by rewrite lookup_insert_ne.
    + pose proof (sleep_spec m t r Hm El) as Hsl. rewrite Hs, Ht in Hsl. by apply Hsl.
  - destruct H as (m' & E & Hm' & El & Hk & _). rewrite E. cbn [mbind outcome_bind]. eexists. split; [done|].
    apply (rethread_inv _ t); rewrite ?lookup_delete_eq; try done.
    + specialize (Hk t). rewrite Ht in Hk. destruct Hk as [->|(r' & ? & _)]; done.
    + intros t' ?. by rewrite lookup_delete_ne.
Qed.

Lemma handle_spec m t r : monitor_inv m → request_ok r →
  ∃ m', handle t r m = Ok m' ∧ monitor_inv m'.
Proof.
  intros Hm Hr. unfold handle. rewrite may_wait_starved by (done || apply (inv_wf _ Hm)). cbn [mbind outcome_bind].
  pose proof (perform_spec m Hm (in_handler t) r eq_refl Hr) as H.
  destruct (starved (cond_of r) (queue m)); [eauto|].
  destruct H as (m' & E & Hm' & _). rewrite E. cbn. eauto.
Qed.

(** A thread that has waited for the lock of the queue calls [wait] without
    testing its condition again. *)
Definition overtaken (m : monitor) : Prop :=
  lock m = None ∧ ∃ t r, threads m !! t = Some (AtLock r) ∧ starved (cond_of r) (queue m) = false.

Lemma step_spec m o : monitor_inv m → step m o →
  (∃ m', o = Ok m' ∧ monitor_inv m') ∨ (o = Err AssertFail ∧ overtaken m).
Proof.
  intros Hm [t r Ht Hr|t r Ht|t r Ht Hl|t r Ht|t r Hr].
  - left. eexists. split; [done|]. apply (rethread_inv _ t); rewrite ?Ht, ?lookup_insert_eq; try done.
    + by intros p [= <-].
    + intros t' ?. by rewrite lookup_insert_ne.
  - left. by apply test_spec.
  - pose proof (sleep_spec m t r Hm Hl) as H. rewrite Ht in H. specialize (H I (inv_requests _ Hm _ _ Ht)).
    destruct (starved (cond_of r) (queue m)) eqn:Hs; [by left|]. right. split; [done|]. split; [done|]. eauto.
  - left. by apply resume_spec.
  - left. by apply handle_spec.
Qed.

Lemma reachable_inv q m : intq_wf q → reachable q m → monitor_inv m.
Proof.
  intros Hq. induction 1 as [|m m' _ IH H]; [by apply initial_inv|].
  destruct (step_spec m (Ok m') IH H) as [(m'' & [= <-] & ?)|[? _]]; done.
Qed.

(** C15: interrupt queues under every interleaving of the threads and interrupt
    handlers that use one: (1) the bytes that [intq_getc] returned followed by
    the bytes in the ring are the bytes given to [intq_putc], in order, so none
    is lost, duplicated or reordered, and the ring never holds more than 63;
    (2) the members keep their types; (3) no wake-up is lost: a thread blocked
    in [wait] is recorded as the waiter, holds the lock, and its condition still
    does not hold; (4) a call that does not have to wait completes at once; and
    (5) the only assertion that can fail is the one of [wait], for a thread that
    had to wait for the lock and whose condition came to hold in the meantime. *)
Theorem intq_correct q m : intq_wf q → reachable q m →
  (received m ++ contents (queue m) = sent m ∧ (length (contents (queue m)) <= 63)%nat) ∧
  intq_wf (queue m) ∧
  (∀ t r, threads m !! t = Some (Sleeping r) →
    waiter (cond_of r) (queue m) = Some t ∧ lock m = Some t ∧ starved (cond_of r) (queue m) = true) ∧
  (∀ t r, threads m !! t = Some (Testing r) → starved (cond_of r) (queue m) = false →
    ∃ m', test t r m = Ok m' ∧ threads m' !! t = None ∧
      match r with
      | Getc => ∃ b, received m' = received m ++ [b] ∧ contents (queue m) = b :: contents (queue m')
      | Putc b => contents (queue m') = contents (queue m) ++ [b]
      end) ∧
  (∀ o, step m o → (∃ m', o = Ok m') ∨ o = Err AssertFail ∧ overtaken m).
Proof.
  intros Hq Hr. pose proof (reachable_inv q m Hq Hr) as Hm. destruct (Hm) as [Hw Hb Hk Hwt Hs Hl]. splits.
  - done.
  - pose proof (length_contents (queue m)). pose proof (count_range (queue m)). unfold INTQ_BUFSIZE in *. lia.
  - done.
  - intros t r Ht. splits; [apply Hwt; eauto|apply Hl; eauto|by apply (Hs t)].
  - intros t r Ht Hst. pose proof (perform_spec m Hm (in_thread t) r eq_refl (Hk _ _ Ht)) as H. rewrite Hst in H.
    destruct H as (m' & E & Hm' & _ & _ & Hd). unfold test. rewrite E. eexists. split; [done|]. cbn.
    rewrite lookup_delete_eq. split; [done|]. pose proof (inv_bytes _ Hm') as Hb'. destruct r as [|b].
    + destruct Hd as (Hs' & b & Hr'). exists b. split; [done|]. rewrite Hs', Hr', <- Hb, <- app_assoc in Hb'.
      by apply app_inv_head in Hb'.
    + destruct Hd as (Hr' & Hs'). rewrite Hs', Hr', <- Hb, <- app_assoc in Hb'. by apply app_inv_head in Hb'.
  - intros o Ho. destruct (step_spec m o Hm Ho) as [(m' & -> & _)|?]; eauto.
Qed.

(** * Runs *)

(** A schedule of the system. *)
Inductive event := Call (t : Z) (r : request) | Run (t : Z) | Irq (t : Z) (r : request).
Definition react (m : monitor) (e : event) : outcome monitor :=
  match e with
  | Call t r =>
      match threads m !! t with
      | None => Ok (set_threads (<[t := Testing r]> (threads m)) m)
      | Some _ => Err OutOfFuel
      end
  | Run t =>
      match threads m !! t with
      | Some (Testing r) => test t r m
      | Some (AtLock r) => match lock m with None => sleep t r m | Some _ => Err OutOfFuel end
      | Some (Awake r) => resume t r m
      | _ => Err OutOfFuel
      end
  | Irq t r => handle t r m
  end.
Definition event_ok (e : event) : bool :=
  match e with
  | Call _ (Putc b) | Irq _ (Putc b) => (0 <=? b) && (b <? 256)
  | _ => true
  end.
Fixpoint react_all (m : monitor) (es : list event) : outcome monitor :=
  match es with [] => Ok m | e :: es => if event_ok e then m ← react m e; react_all m es else Err OutOfFuel end.

Lemma react_step m e o : event_ok e = true → react m e = o → o ≠ Err OutOfFuel → step m o.
Proof.
  intros He <- Ho. destruct e as [t r|t|t r]; cbn [react] in *.
  - destruct (threads m !! t) eqn:E; [done|]. constructor; [done|]. destruct r; [done|].
    cbn in He. unfold request_ok, is_u8. bcases; (lia || done).
  - destruct (threads m !! t) as [[r|r|r|r]|] eqn:E; try done; [by constructor|destruct (lock m) eqn:?; [done|]; by constructor|by constructor].
  - constructor. destruct r; [done|]. cbn in He. unfold request_ok, is_u8. bcases; (lia || done).
Qed.
Lemma react_all_reachable q m es m' : reachable q m → react_all m es = Ok m' → reachable q m'.
Proof.
  revert m. induction es as [|e es IH]; intros m Hr; cbn [react_all]; [by intros [= <-]|].
  destruct (event_ok e) eqn:He; [|done]. destruct (react m e) as [m1|] eqn:E; cbn; [|done].
  apply IH. eapply reach_step; [done|]. by eapply react_step.
Qed.

Definition blank : intq := mkIntq None None (replicate 64 0) 0 0.
Lemma blank_wf : intq_wf blank.
Proof.
  split; [reflexivity| |unfold INTQ_BUFSIZE; cbn; lia..].
  apply Forall_replicate. unfold is_u8. lia.
Qed.
(** Thread 1 finds the queue empty and sleeps; the keyboard handler sends two
    bytes; thread 1 takes the first. *)
Definition typing : list event :=
  [Call 1 Getc; Run 1; Irq 9 (Putc 104); Irq 9 (Putc 105); Run 1; Run 1; Call 2 Getc].

Lemma intq_correct_witness : ∃ m, react_all (initial blank) typing = Ok m ∧
  received m = [104] ∧ contents (queue m) = [105] ∧
  ∃ m', test 2 Getc m = Ok m' ∧ received m' = [104; 105].
Proof.
  eexists. split; [vm_compute; reflexivity|]. split; [reflexivity|]. split; [vm_compute; reflexivity|].
  match goal with |- context [test 2 Getc ?m] =>
    assert (reachable blank m) as Hm
      by (apply (react_all_reachable blank (initial blank) typing); [apply reach_init|vm_compute; reflexivity]);
    destruct (intq_correct blank m blank_wf Hm) as (_ & _ & _ & H & _) end.
  destruct (H 2 Getc eq_refl eq_refl) as (m' & E & _ & b & Hr & Hc). exists m'. split; [exact E|].
  rewrite Hr. vm_compute in Hc. injection Hc as <- _. reflexivity.
Defined.

(** Two threads read the keyboard: the second waits for the lock while the first
    sleeps holding it.  When a byte wakes the first and it releases the lock, the
    second goes on to [wait], whose assertion that the queue is empty fails. *)
Definition two_readers : list event :=
  [Call 1 Getc; Run 1; Call 2 Getc; Run 2; Irq 9 (Putc 104); Run 1].
Lemma second_reader_panics : ∃ m, reachable blank m ∧ step m (Err AssertFail).
Proof.
  destruct (react_all (initial blank) two_readers) as [m|] eqn:E; [|by vm_compute in E].
  exists m. split; [by eapply react_all_reachable; [apply reach_init|]|].
  apply (react_step m (Run 2)); [done| |done]. vm_compute in E. injection E as <-. by vm_compute.
Qed.
