(* ===== verification/Serial.v ===== *)
(** The serial port (devices/serial.c) and the input buffer (devices/input.c).

    The 16550A UART is a register file with the documented behaviour of the
    registers the driver touches, with the FIFOs disabled, as after a reset and
    as [init_poll] leaves them: a divisor latch behind the DLAB bit; a receive
    buffer register for one byte, in which the next byte to arrive overwrites one
    that has not been read; and a transmitter holding register for one byte,
    which takes an arbitrary time to move on to the line, and in which a byte
    that is written before it has done so is overwritten.  LSR tells the driver
    whether the first holds a byte (DR) and whether the second is empty (THRE);
    its error bits, which the driver does not test, read as zero. *)
From S2P Require Import Prelude Intq.

(** * The UART *)

Definition RBR_REG : Z := 0.
Definition THR_REG : Z := 0.
Definition IER_REG : Z := 1.
Definition LS_REG : Z := 0.
Definition MS_REG : Z := 1.
Definition IIR_REG : Z := 2.
Definition FCR_REG : Z := 2.
Definition LCR_REG : Z := 3.
Definition MCR_REG : Z := 4.
Definition LSR_REG : Z := 5.
Definition IER_RECV : Z := 1.
Definition IER_XMIT : Z := 2.
Definition LCR_N81 : Z := 3.
Definition LCR_DLAB : Z := 128.
Definition MCR_OUT2 : Z := 8.
Definition LSR_DR : Z := 1.
Definition LSR_THRE : Z := 32.

(** [thr] is the byte in the transmitter holding register with the number of
    further status reads that will find it there; [delays] are those numbers for
    the bytes to come, 0 for a byte that moves on to the line at once.  [wire] is
    what has gone to the line. *)
Record uart := mkUart {
  rbr : option Z;
  thr : option (Z * nat);
  delays : list nat;
  wire : list Z;
  ier : Z;
  fcr : Z;
  lcr : Z;
  mcr : Z;
  divisor_low : Z;
  divisor_high : Z
}.
Definition dlab (u : uart) : bool := has (lcr u) LCR_DLAB.
Definition ready (u : uart) : bool := match thr u with None => true | Some _ => false end.
Definition set_thr (h : option (Z * nat)) (dl : list nat) (w : list Z) (u : uart) : uart :=
  mkUart (rbr u) h dl w (ier u) (fcr u) (lcr u) (mcr u) (divisor_low u) (divisor_high u).
(** The byte in the holding register moves on to the line. *)
Definition shift_out (u : uart) : uart :=
  match thr u with
  | Some (b, _) => set_thr None (delays u) (wire u ++ [b]) u
  | None => u
  end.
Definition polled (u : uart) : uart :=
  match thr u with
  | Some (b, S n) => set_thr (Some (b, n)) (delays u) (wire u) u
  | _ => shift_out u
  end.
Definition busy_reads (u : uart) : nat := match thr u with Some (_, n) => S n | None => O end.
(** A byte is written to the holding register, over what it holds. *)
Definition load_thr (v : Z) (u : uart) : uart :=
  match delays u with
  | S n :: dl => set_thr (Some (v, n)) dl (wire u) u
  | dl => set_thr None (drop 1 dl) (wire u ++ [v]) u
  end.
(** A byte arrives from the line, over what the receive buffer register holds. *)
Definition arrive (b : Z) (u : uart) : uart :=
  mkUart (Some b) (thr u) (delays u) (wire u) (ier u) (fcr u) (lcr u) (mcr u) (divisor_low u) (divisor_high u).

(** [outb (IO_BASE + reg, v)] *)
Definition outb (reg v : Z) (u : uart) : uart :=
  let '(mkUart rx h dl w i f l mc lo hi) := u in
  let v := u8 v in
  if reg =? 0 then
    if dlab u then mkUart rx h dl w i f l mc v hi else load_thr v u
  else if reg =? 1 then
    if dlab u then mkUart rx h dl w i f l mc lo v else mkUart rx h dl w v f l mc lo hi
  else if reg =? 2 then mkUart rx h dl w i v l mc lo hi
  else if reg =? 3 then mkUart rx h dl w i f v mc lo hi
  else mkUart rx h dl w i f l v lo hi.
(** [inb (IO_BASE + reg)] for the registers that the driver reads. *)
Definition inb (reg : Z) (u : uart) : Z * uart :=
  let '(mkUart rx h dl w i f l mc lo hi) := u in
  if reg =? LSR_REG then
    (Z.lor (match rx with None => 0 | Some _ => LSR_DR end) (if ready u then LSR_THRE else 0), polled u)
  else if reg =? RBR_REG then
    (default 0 rx, mkUart None h dl w i f l mc lo hi)
  else (1, u).

(** * The driver *)

Inductive serial_mode := UNINIT | POLL | QUEUE.
#[global] Instance serial_mode_eq_dec : EqDecision serial_mode.
Proof. solve_decision. Defined.

(** [buffer] is the queue of devices/input.c; [unblocked] the threads that were
    passed to [thread_unblock]. *)
Record ports := mkPorts {
  port : uart;
  mode : serial_mode;
  txq : intq;
  buffer : intq;
  unblocked : list Z
}.
Abbreviation DM := (M ports).
Definition set_mode (x : serial_mode) (d : ports) : ports := mkPorts (port d) x (txq d) (buffer d) (unblocked d).
Definition set_txq (q : intq) (d : ports) : ports := mkPorts (port d) (mode d) q (buffer d) (unblocked d).
Definition set_buffer (q : intq) (d : ports) : ports := mkPorts (port d) (mode d) (txq d) q (unblocked d).
Definition set_port (u : uart) (d : ports) : ports := mkPorts u (mode d) (txq d) (buffer d) (unblocked d).
Definition unblock (t : option Z) (d : ports) : ports :=
  mkPorts (port d) (mode d) (txq d) (buffer d) (unblocked d ++ option_list t).
Definition out (reg v : Z) : DM () := modS (λ d, set_port (outb reg v (port d)) d).
Definition inp (reg : Z) : DM Z := λ d, let '(v, u) := inb reg (port d) in Ok (v, set_port u d).

(** [intr_disable]: the rest of the function runs with interrupts off. *)
Definition disabled (c : cpu) : cpu := mkCpu true (intr_context c) (current c).

Definition input_init : DM () := modS (λ d, set_buffer (intq_init (buffer d)) d).
Definition input_full (c : cpu) : DM bool := d ← getS; pureM (intq_full c (buffer d)).
Definition tx_empty (c : cpu) : DM bool := d ← getS; pureM (intq_empty c (txq d)).
Definition tx_full (c : cpu) : DM bool := d ← getS; pureM (intq_full c (txq d)).

(** [intq_getc (&txq)] where the code has seen that the queue is not empty. *)
Definition tx_getc (c : cpu) : DM Z :=
  d ← getS;
  a ← pureM (intq_getc c (txq d));
  match a with
  | Done b t q => modS (λ d, unblock t (set_txq q d));; mret b
  | MustWait => fail OutOfFuel
  end.

Definition write_ier (c : cpu) : DM () :=
  check (intr_off c);;
  e ← tx_empty c;
  f ← input_full c;
  let ier := Z.lor (if (e : bool) then 0 else IER_XMIT) (if (f : bool) then 0 else IER_RECV) in
  out IER_REG ier.
Definition serial_notify (c : cpu) : DM () :=
  check (intr_off c);;
  d ← getS;
  if bool_decide (mode d = QUEUE) then write_ier c else mret ().

Definition set_serial (bps : Z) : DM () :=
  let base_rate := 1843200 / 16 in
  let divisor := u16 (Z.quot base_rate bps) in
  check ((300 <=? bps) && (bps <=? 115200));;
  out LCR_REG (Z.lor LCR_N81 LCR_DLAB);;
  out LS_REG (Z.land divisor 255);;
  out MS_REG (Z.shiftr divisor 8);;
  out LCR_REG LCR_N81.

(** [while ((inb (LSR_REG) & LSR_THRE) == 0) continue;], with fuel for the status
    reads that find the transmitter busy and the one that does not. *)
Fixpoint poll_loop (fuel : nat) : DM () :=
  match fuel with
  | O => fail OutOfFuel
  | S fuel => v ← inp LSR_REG; if has v LSR_THRE then mret () else poll_loop fuel
  end.
Definition putc_poll (c : cpu) (byte : Z) : DM () :=
  check (intr_off c);;
  d ← getS;
  poll_loop (S (busy_reads (port d)));;
  out THR_REG byte.

Definition init_poll : DM () :=
  d ← getS;
  check (bool_decide (mode d = UNINIT));;
  out IER_REG 0;;
  out FCR_REG 0;;
  set_serial 115200;;
  out MCR_REG MCR_OUT2;;
  modS (λ d, set_mode POLL (set_txq (intq_init (txq d)) d)).
(** The registration of the handler belongs to the interrupt table. *)
Definition serial_init_queue (c : cpu) : DM () :=
  d ← getS;
  (if bool_decide (mode d = UNINIT) then init_poll else mret ());;
  d ← getS;
  check (bool_decide (mode d = POLL));;
  modS (set_mode QUEUE);;
  write_ier (disabled c).

(** [intq_putc (&txq, byte); write_ier ();], which returns [false] where the
    thread has to wait for room; it comes back here when it has been woken. *)
Definition queue_byte (c : cpu) (byte : Z) : DM bool :=
  d ← getS;
  a ← pureM (intq_putc c (txq d) byte);
  match a with
  | Done _ t q => modS (λ d, unblock t (set_txq q d));; write_ier c;; mret true
  | MustWait => mret false
  end.
Definition serial_putc (c : cpu) (byte : Z) : DM bool :=
  let old_off := intr_off c in
  let c := disabled c in
  d ← getS;
  if bool_decide (mode d = QUEUE) then
    full ← (if old_off then tx_full c else mret false);
    (if (full : bool) then b ← tx_getc c; putc_poll c b else mret ());;
    queue_byte c byte
  else
    (if bool_decide (mode d = UNINIT) then init_poll else mret ());;
    putc_poll c byte;;
    mret true.

(** [while (!intq_empty (&txq)) putc_poll (intq_getc (&txq));] *)
Fixpoint flush_loop (fuel : nat) (c : cpu) : DM () :=
  match fuel with
  | O => fail OutOfFuel
  | S fuel =>
      e ← tx_empty c;
      if (e : bool) then mret () else b ← tx_getc c; putc_poll c b;; flush_loop fuel c
  end.
Definition serial_flush (c : cpu) : DM () := flush_loop (Z.to_nat INTQ_BUFSIZE) (disabled c).

(** [input_putc]; its queue is not full, so that [intq_putc] does not wait. *)
Definition input_putc (c : cpu) (key : Z) : DM () :=
  check (intr_off c);;
  f ← input_full c;
  check (negb f);;
  d ← getS;
  a ← pureM (intq_putc c (buffer d) key);
  match a with
  | Done _ t q => modS (λ d, unblock t (set_buffer q d))
  | MustWait => fail OutOfFuel
  end;;
  serial_notify c.
(** [None]: the thread has to wait for a key. *)
Definition input_getc (c : cpu) : DM (option Z) :=
  let c := disabled c in
  d ← getS;
  a ← pureM (intq_getc c (buffer d));
  match a with
  | Done b t q => modS (λ d, unblock t (set_buffer q d));; serial_notify c;; mret (Some b)
  | MustWait => mret None
  end.

(** The two loops of the handler; the first stops at the latest when the input
    buffer is full, the second when the transmit queue is empty. *)
Fixpoint receive_loop (fuel : nat) (c : cpu) : DM () :=
  match fuel with
  | O => fail OutOfFuel
  | S fuel =>
      f ← input_full c;
      if (f : bool) then mret ()
      else
        v ← inp LSR_REG;
        if has v LSR_DR then b ← inp RBR_REG; input_putc c b;; receive_loop fuel c else mret ()
  end.
Fixpoint transmit_loop (fuel : nat) (c : cpu) : DM () :=
  match fuel with
  | O => fail OutOfFuel
  | S fuel =>
      e ← tx_empty c;
      if (e : bool) then mret ()
      else
        v ← inp LSR_REG;
        if has v LSR_THRE then b ← tx_getc c; out THR_REG b;; transmit_loop fuel c else mret ()
  end.
Definition serial_interrupt (c : cpu) : DM () :=
  inp IIR_REG;;
  receive_loop (Z.to_nat INTQ_BUFSIZE) c;;
  transmit_loop (Z.to_nat INTQ_BUFSIZE) c;;
  write_ier c.
