(* ===== verification/SerialCorrect.v ===== *)
(** Correctness of the serial driver and the input buffer: the driver loses,
    duplicates and reorders no byte, no assertion fails, the interrupts that are
    needed are enabled, and an interrupt does the work there is. *)
From S2P Require Import Prelude Intq Serial.

(** The bytes sent, on the line or still queued, and the bytes received. *)
Definition sent_bytes (u : uart) : list Z := wire u ++ option_list (fst <$> thr u).
Definition received_bytes (u : uart) : list Z := option_list (rbr u).
Definition output (d : ports) : list Z := sent_bytes (port d) ++ contents (txq d).
Definition pending (d : ports) : list Z := contents (buffer d) ++ received_bytes (port d).

Record ports_wf (d : ports) : Prop := {
  pw_txq : intq_wf (txq d);
  pw_buffer : intq_wf (buffer d);
  pw_received : Forall is_u8 (received_bytes (port d));
  pw_dlab : mode d ≠ UNINIT → dlab (port d) = false;
  pw_txq_empty : mode d ≠ QUEUE → contents (txq d) = []
}.
Definition buffer_full (d : ports) : bool := count (buffer d) =? 63.
(** The transmit interrupt is on while there is something to send, and the
    receive interrupt exactly while there is room for what arrives. *)
Definition ier_ok (d : ports) : Prop :=
  mode d = QUEUE →
  (contents (txq d) ≠ [] → has (ier (port d)) IER_XMIT = true) ∧
  has (ier (port d)) IER_RECV = negb (buffer_full d).

(** * The UART *)

(** What polling and sending change. *)
Definition sends (u u' : uart) (w : list Z) : Prop :=
  rbr u' = rbr u ∧ sent_bytes u' = sent_bytes u ++ w ∧ ier u' = ier u ∧ lcr u' = lcr u.

Lemma sends_refl u : sends u u [].
Proof. unfold sends. by rewrite app_nil_r. Qed.
Lemma sends_trans u v x w w' : sends u v w → sends v x w' → sends u x (w ++ w').
Proof. intros (? & E & ? & ?) (? & E' & ? & ?). unfold sends. rewrite E', E, app_assoc. repeat split; congruence. Qed.

Lemma lsr_ready u : has (inb LSR_REG u).1 LSR_THRE = ready u.
Proof. destruct u as [[b|] [h|] dl]; done. Qed.
Lemma lsr_received u : has (inb LSR_REG u).1 LSR_DR = negb (bool_decide (received_bytes u = [])).
Proof. destruct u as [[b|] [h|] dl]; done. Qed.
Lemma shift_out_sends u : sends u (shift_out u) [].
Proof. destruct u as [rx [[b n]|] dl w]; unfold sends, sent_bytes; cbn; by rewrite ?app_nil_r. Qed.
Lemma lsr_polled u : (inb LSR_REG u).2 = polled u ∧ sends u (polled u) [].
Proof.
  split; [by destruct u|]. unfold polled. pose proof (shift_out_sends u) as H.
  destruct u as [rx [[b [|n]]|] dl w]; try exact H. unfold sends, sent_bytes; cbn. by rewrite ?app_nil_r.
Qed.
Lemma ready_polled u : ready u = true → ready (polled u) = true.
Proof. unfold ready, polled, shift_out. by destruct u as [rx [[b n]|] dl w]. Qed.

Lemma sends_dlab u u' w : sends u u' w → dlab u' = dlab u.
Proof. intros (_ & _ & _ & E). unfold dlab. by rewrite E. Qed.
(** Only an empty holding register takes a byte without losing one. *)
Lemma out_thr u b : ready u = true → dlab u = false → is_u8 b → sends u (outb THR_REG b u) [b].
Proof.
  intros Hr Hd Hb. destruct u as [rx [h|] dl w]; [done|]. cbn. rewrite Hd, u8_small by done.
  unfold sends, sent_bytes, load_thr. cbn. destruct dl as [|[|k] dl]; cbn; by rewrite ?app_nil_r.
Qed.
Lemma out_ier u v : dlab u = false → is_u8 v →
  rbr (outb IER_REG v u) = rbr u ∧ sent_bytes (outb IER_REG v u) = sent_bytes u ∧
  ier (outb IER_REG v u) = v ∧ lcr (outb IER_REG v u) = lcr u ∧ thr (outb IER_REG v u) = thr u.
Proof. intros Hd Hv. destruct u. cbn. rewrite Hd. cbn. by rewrite u8_small. Qed.

Lemma poll_loop_spec n d : (busy_reads (port d) < n)%nat →
  ∃ u, poll_loop n d = Ok ((), set_port u d) ∧ sends (port d) u [] ∧ ready u = true.
Proof.
  revert d. induction n as [|n IH]; intros d Hn; [lia|]. cbn [poll_loop].
  pose proof (lsr_ready (port d)) as Hr. destruct (lsr_polled (port d)) as [Ep Hp].
  destruct (inb LSR_REG (port d)) as [v u] eqn:E. cbn in Hr, Ep. subst u.
  rewrite (M_bind_step _ _ _ v (set_port (polled (port d)) d)) by (unfold inp; by rewrite E).
  rewrite Hr. destruct (ready (port d)) eqn:Hk; [eexists; split; [done|]; split; [done|by apply ready_polled]|].
  destruct (IH (set_port (polled (port d)) d)) as (u & Eu & Hu & Hk').
  { unfold ready, polled, busy_reads, shift_out in *. cbn. destruct (thr (port d)) as [[b [|k]]|] eqn:Et; cbn in *; (done || lia). }
  exists u. split; [done|]. split; [|done]. by apply (sends_trans _ _ _ [] [] Hp).
Qed.

Lemma putc_poll_spec c b d : intr_off c = true → dlab (port d) = false → is_u8 b →
  ∃ u, putc_poll c b d = Ok ((), set_port u d) ∧ sends (port d) u [b].
Proof.
  intros Hc Hd Hb. unfold putc_poll. rewrite (M_bind_step _ _ _ () d) by (by rewrite check_true). rewrite getS_step.
  destruct (poll_loop_spec (S (busy_reads (port d))) d) as (u & Eu & Hu & Hk); [lia|].
  rewrite (M_bind_step _ _ _ () (set_port u d)) by done. eexists. split; [reflexivity|]. cbn [port set_port].
  apply (sends_trans _ _ _ [] [b] Hu). apply out_thr; [done| |done]. by rewrite (sends_dlab _ _ _ Hu).
Qed.

(** * The interrupt enable register *)

Definition ier_of (d : ports) : Z :=
  Z.lor (if count (txq d) =? 0 then 0 else IER_XMIT) (if buffer_full d then 0 else IER_RECV).

Lemma write_ier_spec c d : intr_off c = true → ports_wf d → dlab (port d) = false →
  write_ier c d = Ok ((), set_port (outb IER_REG (ier_of d) (port d)) d).
Proof.
  intros Hc [Ht Hb _ _ _] Hd. unfold write_ier. rewrite (M_bind_step _ _ _ () d) by (by rewrite check_true).
  unfold tx_empty, input_full, intq_empty, intq_full. rewrite Hc. cbn [assert].
  rewrite (M_bind_step _ _ _ (head (txq d) =? tail (txq d)) d) by done.
  rewrite (M_bind_step _ _ _ (next (head (buffer d)) =? tail (buffer d)) d) by done.
  rewrite empty_count, full_count by done. done.
Qed.

Lemma ier_of_u8 d : is_u8 (ier_of d).
Proof. unfold ier_of. destruct (_ =? _), (buffer_full d); by vm_compute. Qed.
Lemma ier_of_xmit d : has (ier_of d) IER_XMIT = negb (count (txq d) =? 0).
Proof. unfold ier_of. by destruct (_ =? _), (buffer_full d). Qed.
Lemma ier_of_recv d : has (ier_of d) IER_RECV = negb (buffer_full d).
Proof. unfold ier_of. by destruct (_ =? _), (buffer_full d). Qed.

Lemma contents_nil q : contents q = [] ↔ count q = 0.
Proof.
  pose proof (length_contents q). pose proof (count_range q).
  split; [intros E; rewrite E in *; cbn in *; lia|]. intros E. apply nil_length_inv. lia.
Qed.

(** Updating the register: nothing else changes. *)
Lemma write_ier_ok c d : intr_off c = true → ports_wf d → dlab (port d) = false →
  ∃ u, write_ier c d = Ok ((), set_port u d) ∧ ports_wf (set_port u d) ∧ ier_ok (set_port u d) ∧
    rbr u = rbr (port d) ∧ sent_bytes u = sent_bytes (port d) ∧ dlab u = false ∧ thr u = thr (port d).
Proof.
  intros Hc Hw Hd. rewrite write_ier_spec by done. eexists. split; [reflexivity|].
  destruct (out_ier (port d) (ier_of d) Hd (ier_of_u8 d)) as (E1 & E2 & E3 & E4 & E5).
  assert (dlab (outb IER_REG (ier_of d) (port d)) = false) as Hd' by (unfold dlab; by rewrite E4).
  destruct Hw. splits; [split; cbn; unfold received_bytes; by rewrite ?E1| |done..].
  intros _. cbn. rewrite E3, ier_of_xmit, ier_of_recv. split; [|done].
  rewrite contents_nil. intros H%Z.eqb_neq. by rewrite H.
Qed.

Lemma serial_notify_ok c d : intr_off c = true → ports_wf d →
  ∃ u, serial_notify c d = Ok ((), set_port u d) ∧ ports_wf (set_port u d) ∧ ier_ok (set_port u d) ∧
    rbr u = rbr (port d) ∧ sent_bytes u = sent_bytes (port d) ∧ thr u = thr (port d).
Proof.
  intros Hc Hw. unfold serial_notify. rewrite (M_bind_step _ _ _ () d) by (by rewrite check_true). rewrite getS_step.
  case_bool_decide as Hm.
  - destruct (write_ier_ok c d Hc Hw) as (u & ? & ? & ? & ? & ? & ? & ?); [apply (pw_dlab _ Hw); congruence|eauto 10].
  - exists (port d). destruct d. splits; try done.
Qed.

(** * Transmission *)

(** What sending does: the input side stays as it is, and the output grows by
    the bytes [w]. *)
Record tx_step (d d' : ports) (w : list Z) : Prop := {
  ts_mode : mode d' = mode d;
  ts_buffer : buffer d' = buffer d;
  ts_received : rbr (port d') = rbr (port d);
  ts_dlab : dlab (port d') = dlab (port d);
  ts_ier : ier (port d') = ier (port d);
  ts_output : output d' = output d ++ w;
  ts_wf : intq_wf (txq d')
}.

Lemma tx_step_refl d : intq_wf (txq d) → tx_step d d [].
Proof. intros. split; rewrite ?app_nil_r; done. Qed.
Lemma tx_step_trans d d1 d2 w w' : tx_step d d1 w → tx_step d1 d2 w' → tx_step d d2 (w ++ w').
Proof.
  intros [? ? ? ? ? E ?] [? ? ? ? ? E' ?]. split; try congruence. by rewrite E', E, app_assoc.
Qed.
Lemma tx_step_wf d d' w : ports_wf d → tx_step d d' w → mode d = QUEUE → ports_wf d'.
Proof.
  intros [? ? ? Hd ?] [Em Eb Er Ed _ _ ?] Hm. split; unfold received_bytes; rewrite ?Eb, ?Er, ?Ed, ?Em; try done.
Qed.
Lemma tx_step_pending d d' w : tx_step d d' w → pending d' = pending d.
Proof. intros [? Eb Er _ _ _ _]. unfold pending, received_bytes. by rewrite Eb, Er. Qed.

Lemma tx_getc_spec c d b l : intr_off c = true → intq_wf (txq d) → contents (txq d) = b :: l →
  ∃ t q, tx_getc c d = Ok (b, unblock t (set_txq q d)) ∧ intq_wf q ∧ contents q = l ∧ is_u8 b.
Proof.
  intros Hc Hq E. pose proof (intq_getc_spec c (txq d) Hq Hc) as H. rewrite E in H.
  destruct H as (q & Eg & Hw & Hl & Hb & _). exists (not_full (txq d)), q. split; [|done].
  unfold tx_getc. rewrite getS_step. rewrite (pureM_step _ _ _ _ Eg). done.
Qed.

(** Sending the first queued byte by polling. *)
Lemma drain_one c d b l : intr_off c = true → intq_wf (txq d) → dlab (port d) = false → contents (txq d) = b :: l →
  ∃ d1 d', tx_getc c d = Ok (b, d1) ∧ putc_poll c b d1 = Ok ((), d') ∧ tx_step d d' [] ∧ contents (txq d') = l.
Proof.
  intros Hc Hq Hd E. destruct (tx_getc_spec c d b l Hc Hq E) as (t & q & Eg & Hw & Hl & Hb).
  destruct (putc_poll_spec c b (unblock t (set_txq q d)) Hc Hd Hb) as (u & Ep & Hs).
  eexists _, _. split; [done|]. split; [done|]. split; [|done].
  destruct Hs as (Er & Ew & Ei & El). split; cbn; try done.
  - unfold dlab. by rewrite El.
  - unfold output. cbn. rewrite Ew, E, Hl, app_nil_r, <- app_assoc. done.
Qed.

Lemma tx_empty_spec c d : intr_off c = true → intq_wf (txq d) → tx_empty c d = Ok (bool_decide (contents (txq d) = []), d).
Proof.
  intros Hc Hq. unfold tx_empty. rewrite getS_step. unfold intq_empty. rewrite Hc, empty_count by done. cbn.
  do 2 f_equal. pose proof (contents_nil (txq d)) as H. bcases; case_bool_decide; naive_solver.
Qed.
Lemma tx_full_spec c d : intr_off c = true → intq_wf (txq d) → tx_full c d = Ok (count (txq d) =? 63, d).
Proof. intros Hc Hq. unfold tx_full. rewrite getS_step. unfold intq_full. by rewrite Hc, full_count. Qed.
Lemma input_full_spec c d : intr_off c = true → intq_wf (buffer d) → input_full c d = Ok (buffer_full d, d).
Proof. intros Hc Hq. unfold input_full. rewrite getS_step. unfold intq_full. by rewrite Hc, full_count. Qed.

Lemma flush_loop_spec c n d : intr_off c = true → intq_wf (txq d) → dlab (port d) = false →
  (length (contents (txq d)) < n)%nat →
  ∃ d', flush_loop n c d = Ok ((), d') ∧ tx_step d d' [] ∧ contents (txq d') = [].
Proof.
  intros Hc. revert d. induction n as [|n IH]; intros d Hq Hd Hn; [lia|]. cbn [flush_loop].
  rewrite (M_bind_step _ _ _ _ _ (tx_empty_spec c d Hc Hq)). case_bool_decide as E.
  { exists d. split; [done|]. split; [by apply tx_step_refl|done]. }
  destruct (contents (txq d)) as [|b l] eqn:El; [done|].
  destruct (drain_one c d b l Hc Hq Hd El) as (d1 & d2 & E1 & E2 & Hs & Hl).
  rewrite (M_bind_step _ _ _ _ _ E1), (M_bind_step _ _ _ _ _ E2).
  destruct (IH d2) as (d' & E' & Hs' & Hl').
  - apply (ts_wf _ _ _ Hs).
  - by rewrite (ts_dlab _ _ _ Hs).
  - rewrite Hl. cbn in Hn. lia.
  - exists d'. split; [done|]. split; [|done]. apply (tx_step_trans _ _ _ [] [] Hs Hs').
Qed.

(** An empty holding register takes a byte, if there is one. *)
Lemma transmit_loop_spec c n d : intr_off c = true → intq_wf (txq d) → dlab (port d) = false →
  (length (contents (txq d)) < n)%nat →
  ∃ d' sent, transmit_loop n c d = Ok ((), d') ∧ tx_step d d' [] ∧ contents (txq d) = sent ++ contents (txq d') ∧
    (ready (port d) = true → contents (txq d) ≠ [] → sent ≠ []).
Proof.
  intros Hc. revert d. induction n as [|n IH]; intros d Hq Hd Hn; [lia|]. cbn [transmit_loop].
  rewrite (M_bind_step _ _ _ _ _ (tx_empty_spec c d Hc Hq)). case_bool_decide as E.
  { exists d, []. split; [done|]. split; [by apply tx_step_refl|done]. }
  destruct (contents (txq d)) as [|b l] eqn:El; [done|].
  pose proof (lsr_ready (port d)) as Hr. destruct (lsr_polled (port d)) as [Ep Hp].
  destruct (inb LSR_REG (port d)) as [v u] eqn:Ei. cbn in Hr, Ep. subst u.
  rewrite (M_bind_step _ _ _ v (set_port (polled (port d)) d)) by (unfold inp; by rewrite Ei). rewrite Hr.
  assert (tx_step d (set_port (polled (port d)) d) []) as Hs1.
  { destruct Hp as (? & Es & ? & El'). split; rewrite ?app_nil_r; cbn; try done.
    - unfold dlab. by rewrite El'.
    - unfold output. cbn. by rewrite Es, app_nil_r. }
  destruct (ready (port d)) eqn:Hk; [|by exists (set_port (polled (port d)) d), []].
  destruct (tx_getc_spec c (set_port (polled (port d)) d) b l Hc Hq El) as (t & q & Eg & Hw & Hl & Hb).
  rewrite (M_bind_step _ _ _ _ _ Eg). unfold out at 1. rewrite modS_step.
  match goal with |- context [transmit_loop n c ?x] => set (d2 := x) end.
  assert (tx_step (set_port (polled (port d)) d) d2 []) as Hs2.
  { destruct (out_thr (polled (port d)) b) as (Er & Ew & Ei' & El'); [by apply ready_polled|by rewrite (sends_dlab _ _ _ Hp)|done|].
    split; unfold d2; cbn [port mode buffer txq set_port unblock set_txq]; try done.
    - unfold dlab. by rewrite El'.
    - unfold output. cbn [port txq set_port unblock set_txq]. rewrite Ew, El, Hl, app_nil_r, <- app_assoc. done. }
  destruct (IH d2) as (d' & sent & E' & Hs' & Hsent & _).
  - done.
  - by rewrite (ts_dlab _ _ _ Hs2), (ts_dlab _ _ _ Hs1).
  - cbn in Hn. cbn. rewrite Hl. lia.
  - exists d', (b :: sent). split; [done|]. split; [apply (tx_step_trans _ _ _ [] [] Hs1), (tx_step_trans _ _ _ [] [] Hs2 Hs')|].
    split; [|done]. cbn. rewrite <- Hsent. cbn. by rewrite Hl.
Qed.

(** * The operations *)

(** A sound state that has sent [o] and has the bytes [p] to deliver. *)
Record sound (d : ports) (x : serial_mode) (o p : list Z) : Prop := {
  so_wf : ports_wf d;
  so_ier : ier_ok d;
  so_mode : mode d = x;
  so_output : output d = o;
  so_pending : pending d = p
}.

Lemma write_ier_sound c d : intr_off c = true → ports_wf d → mode d = QUEUE →
  ∃ d', write_ier c d = Ok ((), d') ∧ sound d' QUEUE (output d) (pending d).
Proof.
  intros Hc Hw Hm. destruct (write_ier_ok c d Hc Hw) as (u & E & Hw' & Hi & Er & Ew & _).
  { apply (pw_dlab _ Hw). congruence. }
  eexists. split; [done|]. split; try done; unfold output, pending, received_bytes; cbn; by rewrite ?Er, ?Ew.
Qed.

Lemma queue_byte_spec c b d : intr_off c = true → ports_wf d → mode d = QUEUE → is_u8 b →
  if count (txq d) =? 63 then queue_byte c b d = if intr_context c then Err AssertFail else Ok (false, d)
  else ∃ d', queue_byte c b d = Ok (true, d') ∧ sound d' QUEUE (output d ++ [b]) (pending d).
Proof.
  intros Hc Hw Hm Hb. pose proof (intq_putc_spec c (txq d) b (pw_txq _ Hw) Hc Hb) as H.
  pose proof (length_contents (txq d)) as Hl. unfold queue_byte. rewrite getS_step.
  destruct (Nat.eqb_spec (length (contents (txq d))) 63), (Z.eqb_spec (count (txq d)) 63); try lia.
  { destruct (intr_context c); [by rewrite (pureM_err _ _ _ _ H)|by rewrite (pureM_step _ _ _ _ H)]. }
  destruct H as (q & E & Hq & Hcq & _). rewrite (pureM_step _ _ _ _ E), modS_step.
  destruct (write_ier_sound c (unblock (not_empty (txq d)) (set_txq q d)) Hc) as (d' & E' & Hs).
  - destruct Hw. split; cbn; try done.
  - done.
  - exists d'. rewrite (M_bind_step _ _ _ _ _ E'). split; [done|]. destruct Hs as [? ? ? Ho Hp]. split; try done.
    rewrite Ho. unfold output. cbn. by rewrite Hcq, app_assoc.
Qed.

(** The register writes of [init_poll]. *)
Definition init_uart (u : uart) : uart :=
  outb MCR_REG MCR_OUT2 (outb LCR_REG LCR_N81 (outb MS_REG 0 (outb LS_REG 1
    (outb LCR_REG (Z.lor LCR_N81 LCR_DLAB) (outb FCR_REG 0 (outb IER_REG 0 u)))))).
Lemma init_uart_spec u :
  rbr (init_uart u) = rbr u ∧ sent_bytes (init_uart u) = sent_bytes u ∧ dlab (init_uart u) = false ∧
  divisor_low (init_uart u) = 1 ∧ divisor_high (init_uart u) = 0.
Proof.
  unfold init_uart.
  assert (rbr (outb IER_REG 0 u) = rbr u ∧ sent_bytes (outb IER_REG 0 u) = sent_bytes u) as [<- <-].
  { destruct u. cbn [outb IER_REG Z.eqb]. by destruct (dlab _). }
  destruct (outb IER_REG 0 u). splits; reflexivity.
Qed.

(** Setting the port up leaves the transmitter with the divisor of 115200 bps. *)
Lemma init_poll_spec d : ports_wf d → mode d = UNINIT →
  ∃ d', init_poll d = Ok ((), d') ∧ sound d' POLL (output d) (pending d) ∧
    divisor_low (port d') = 1 ∧ divisor_high (port d') = 0.
Proof.
  intros Hw Hm. assert (contents (txq d) = []) as Ht by (apply (pw_txq_empty _ Hw); congruence).
  destruct Hw as [[] ? ? _ _]. destruct (init_uart_spec (port d)) as (Er & Ew & Ed & El & Eh).
  exists (set_mode POLL (set_txq (intq_init (txq d)) (set_port (init_uart (port d)) d))). split.
  { unfold init_poll. rewrite getS_step, (M_bind_step _ _ _ () d) by (rewrite check_true; [done|by apply bool_decide_eq_true]).
    reflexivity. }
  split; [|done]. split; [split; cbn [port mode txq buffer set_port set_txq set_mode]; unfold received_bytes; rewrite ?Er; try done; split; try done|intros [=]|done| | ].
  - unfold output. cbn [port txq set_port set_txq set_mode]. by rewrite Ew, Ht.
  - unfold pending, received_bytes. cbn [port buffer set_port set_txq set_mode]. by rewrite Er.
Qed.

Lemma serial_putc_spec c b d : ports_wf d → ier_ok d → is_u8 b → (intr_context c = true → intr_off c = true) →
  ∃ r d', serial_putc c b d = Ok (r, d') ∧ mode d' ≠ UNINIT ∧
    sound d' (mode d') (output d ++ if (r : bool) then [b] else []) (pending d) ∧
    (r = false → d' = d ∧ intr_off c = false ∧ mode d = QUEUE ∧ count (txq d) = 63).
Proof.
  intros Hw Hi Hb Hctx. pose proof (pw_txq _ Hw) as Hq. unfold serial_putc. rewrite getS_step.
  case_bool_decide as Hm.
  - assert (dlab (port d) = false) as Hd by (apply (pw_dlab _ Hw); congruence).
    assert (∃ d1, (full ← (if intr_off c then tx_full (disabled c) else mret false);
        (if (full : bool) then b ← tx_getc (disabled c); putc_poll (disabled c) b else mret ());;
        queue_byte (disabled c) b) d = queue_byte (disabled c) b d1 ∧ tx_step d d1 [] ∧
        (intr_off c = true → count (txq d1) ≠ 63) ∧ (intr_off c = false → d1 = d)) as (d1 & -> & Hs & Hroom & Hsame).
    { destruct (intr_off c); [|exists d; split; [done|]; split; [by apply tx_step_refl|done]].
      rewrite (M_bind_step _ _ _ _ _ (tx_full_spec (disabled c) d eq_refl Hq)).
      destruct (Z.eqb_spec (count (txq d)) 63) as [E|E];
        [|exists d; split; [done|]; split; [by apply tx_step_refl|done]].
      pose proof (length_contents (txq d)) as Hl.
      destruct (contents (txq d)) as [|a l] eqn:El; [cbn in Hl; lia|].
      destruct (drain_one (disabled c) d a l eq_refl Hq Hd El) as (d1 & d2 & E1 & E2 & Hs & Hl').
      exists d2. split; [|split; [done|]].
      - rewrite (M_bind_step _ _ d () d2); [done|]. by rewrite (M_bind_step _ _ _ _ _ E1).
      - split; [|done]. intros _. pose proof (length_contents (txq d2)) as Hl2. rewrite Hl' in Hl2. cbn in Hl. lia. }
    pose proof (tx_step_wf _ _ _ Hw Hs Hm) as Hw1.
    pose proof (queue_byte_spec (disabled c) b d1 eq_refl Hw1) as H. rewrite (ts_mode _ _ _ Hs) in H.
    specialize (H Hm Hb). destruct (Z.eqb_spec (count (txq d1)) 63) as [E|E].
    + destruct (intr_off c) eqn:Hoff; [by apply Hroom in E|]. rewrite (Hsame eq_refl) in *.
      cbn [disabled intr_context] in H. destruct (intr_context c); [by discriminate (Hctx eq_refl)|].
      exists false, d. rewrite app_nil_r. splits; [done|congruence|by split|by intros].
    + destruct H as (d' & E' & Hs'). exists true, d'. split; [done|]. rewrite (so_mode _ _ _ _ Hs').
      split; [done|]. split; [|done]. destruct Hs' as [? ? ? Ho Hp]. split; try done.
      * by rewrite Ho, (ts_output _ _ _ Hs), app_nil_r.
      * by rewrite Hp, (tx_step_pending _ _ _ Hs).
  - assert (∃ d1, (if bool_decide (mode d = UNINIT) then init_poll else mret ()) d = Ok ((), d1) ∧
        sound d1 POLL (output d) (pending d)) as (d1 & E1 & Hs).
    { case_bool_decide as Hu.
      - destruct (init_poll_spec d Hw Hu) as (d1 & ? & ? & _). eauto.
      - exists d. split; [done|]. split; try done. by destruct (mode d). }
    rewrite (M_bind_step _ _ _ _ _ E1). destruct Hs as [Hw1 Hi1 Hm1 Ho Hp].
    destruct (putc_poll_spec (disabled c) b d1 eq_refl) as (u & E2 & Hs); [apply (pw_dlab _ Hw1); congruence|done|].
    rewrite (M_bind_step _ _ _ _ _ E2). exists true, (set_port u d1). split; [done|]. cbn [mode set_port].
    rewrite Hm1. split; [done|]. split; [|done]. destruct Hs as (Er & Ew & Ei & El). destruct Hw1 as [? ? ? Hd Ht].
    split; [split; cbn; unfold received_bytes; rewrite ?Er; try done; unfold dlab; by rewrite El| | | |]; cbn; try done.
    + intros H. cbn in H. congruence.
    + rewrite <- Ho. unfold output. cbn. rewrite Ew, Ht by congruence. by rewrite !app_nil_r.
    + rewrite <- Hp. unfold pending, received_bytes. cbn. by rewrite Er.
Qed.

Lemma serial_flush_spec c d : ports_wf d → ier_ok d → mode d = QUEUE →
  ∃ d', serial_flush c d = Ok ((), d') ∧ sound d' QUEUE (output d) (pending d) ∧ contents (txq d') = [].
Proof.
  intros Hw Hi Hm. unfold serial_flush.
  destruct (flush_loop_spec (disabled c) (Z.to_nat INTQ_BUFSIZE) d) as (d' & E & Hs & Hl); [done|apply Hw|apply (pw_dlab _ Hw); congruence| |].
  { pose proof (length_contents (txq d)). pose proof (count_range (txq d)). lia. }
  exists d'. split; [done|]. split; [|done]. destruct (Hs) as [Em Eb Er _ Ei Eo _]. split.
  - by apply (tx_step_wf _ _ _ Hw Hs).
  - intros _. rewrite Hl. split; [done|]. unfold buffer_full. rewrite Eb, Ei. by apply Hi.
  - congruence.
  - by rewrite Eo, app_nil_r.
  - by apply (tx_step_pending _ _ _ Hs).
Qed.

(** * Reception *)

Lemma input_putc_spec c b d : intr_off c = true → ports_wf d → buffer_full d = false → is_u8 b →
  ∃ d', input_putc c b d = Ok ((), d') ∧ ports_wf d' ∧ ier_ok d' ∧ mode d' = mode d ∧ output d' = output d ∧
    contents (buffer d') = contents (buffer d) ++ [b] ∧ rbr (port d') = rbr (port d) ∧
    txq d' = txq d ∧ thr (port d') = thr (port d) ∧ unblocked d' = unblocked d ++ option_list (not_empty (buffer d)).
Proof.
  intros Hc Hw Hf Hb. unfold input_putc. rewrite (M_bind_step _ _ _ () d) by (by rewrite check_true).
  rewrite (M_bind_step _ _ _ _ _ (input_full_spec c d Hc (pw_buffer _ Hw))), Hf.
  rewrite (M_bind_step _ _ _ () d) by (by rewrite check_true). rewrite getS_step.
  pose proof (intq_putc_spec c (buffer d) b (pw_buffer _ Hw) Hc Hb) as H.
  pose proof (length_contents (buffer d)) as Hl. unfold buffer_full in Hf. apply Z.eqb_neq in Hf.
  destruct (Nat.eqb_spec (length (contents (buffer d))) 63); [lia|]. destruct H as (q & E & Hq & Hcq & _).
  rewrite (pureM_step _ _ _ _ E).
  rewrite (M_bind_step _ _ _ () (unblock (not_empty (buffer d)) (set_buffer q d))) by done.
  destruct (serial_notify_ok c (unblock (not_empty (buffer d)) (set_buffer q d)) Hc) as (u & E' & Hw' & Hi & Er & Ew & Et).
  { destruct Hw. split; cbn; try done. }
  exists (set_port u (unblock (not_empty (buffer d)) (set_buffer q d))). splits; try done.
  unfold output. cbn. by rewrite Ew.
Qed.

Lemma input_getc_spec c d : ports_wf d → ier_ok d → (intr_context c = true → contents (buffer d) ≠ []) →
  ∃ r d', input_getc c d = Ok (r, d') ∧ sound d' (mode d) (output d) (pending d') ∧
    match r with
    | Some b => pending d = b :: pending d'
    | None => d' = d ∧ contents (buffer d) = []
    end.
Proof.
  intros Hw Hi Hctx. unfold input_getc. rewrite getS_step.
  pose proof (intq_getc_spec (disabled c) (buffer d) (pw_buffer _ Hw) eq_refl) as H.
  destruct (contents (buffer d)) as [|b l] eqn:El.
  { cbn [disabled intr_context] in H. destruct (intr_context c); [by destruct (Hctx eq_refl)|].
    rewrite (pureM_step _ _ _ _ H). exists None, d. done. }
  destruct H as (q & E & Hq & Hcq & _). rewrite (pureM_step _ _ _ _ E), modS_step.
  destruct (serial_notify_ok (disabled c) (unblock (not_full (buffer d)) (set_buffer q d)) eq_refl) as (u & E' & Hw' & Hi' & Er & Ew & _).
  { destruct Hw. split; cbn; try done. }
  rewrite (M_bind_step _ _ _ _ _ E'). eexists (Some b), _. split; [done|]. split.
  - split; try done. unfold output. cbn. by rewrite Ew.
  - unfold pending, received_bytes. cbn. by rewrite Er, El, Hcq.
Qed.

(** Reading the receive buffer register empties it. *)
Lemma read_rbr_spec b d : ports_wf d → rbr (port d) = Some b →
  ∃ u, inp RBR_REG d = Ok (b, set_port u d) ∧ ports_wf (set_port u d) ∧ rbr u = None ∧
    sent_bytes u = sent_bytes (port d) ∧ thr u = thr (port d) ∧ is_u8 b.
Proof.
  intros Hw E. exists (inb RBR_REG (port d)).2. destruct d as [[rx h dl w i f l mc lo hi] x tq bq ub]. cbn in E. subst rx.
  destruct Hw as [? ? Hrx ? ?]. cbn in Hrx. splits; try done. by inversion Hrx.
Qed.
Lemma read_lsr_spec d : ∃ v u, inp LSR_REG d = Ok (v, set_port u d) ∧ sends (port d) u [] ∧
  has v LSR_DR = negb (bool_decide (received_bytes (port d) = [])) ∧ (ready (port d) = true → ready u = true).
Proof.
  pose proof (lsr_received (port d)) as Hr. destruct (lsr_polled (port d)) as [Ep Hs].
  exists (inb LSR_REG (port d)).1, (polled (port d)). split.
  { unfold inp. rewrite <- Ep. by destruct (inb LSR_REG (port d)). }
  split; [done|]. split; [done|apply ready_polled].
Qed.

Lemma receive_loop_spec c n d : intr_off c = true → ports_wf d → ier_ok d → mode d = QUEUE →
  (63 - count (buffer d) < Z.of_nat n) →
  ∃ d', receive_loop n c d = Ok ((), d') ∧ sound d' QUEUE (output d) (pending d) ∧
    (buffer_full d' = true ∨ rbr (port d') = None) ∧ txq d' = txq d ∧
    (ready (port d) = true → ready (port d') = true).
Proof.
  intros Hc. revert d. induction n as [|n IH]; intros d Hw Hi Hm Hn.
  { pose proof (count_range (buffer d)). unfold INTQ_BUFSIZE in *. lia. }
  cbn [receive_loop]. rewrite (M_bind_step _ _ _ _ _ (input_full_spec c d Hc (pw_buffer _ Hw))).
  destruct (buffer_full d) eqn:Hf; [exists d; split; [done|]; split; [by split|by split; [left|]]|].
  destruct (read_lsr_spec d) as (v & u & E1 & (Er1 & Es1 & Ei1 & El1) & Ev & Hk1).
  rewrite (M_bind_step _ _ _ _ _ E1), Ev. rewrite app_nil_r in Es1.
  assert (ports_wf (set_port u d)) as Hw1.
  { destruct Hw. split; cbn; unfold received_bytes, dlab; rewrite ?Er1, ?El1; done. }
  unfold received_bytes. destruct (rbr (port d)) as [b|] eqn:Erx; cbn [option_list].
  2: { rewrite bool_decide_eq_true_2 by done. exists (set_port u d). split; [done|]. split; [|by split; [right|]].
       split; try done; unfold ier_ok, output, pending, received_bytes; cbn; rewrite ?Er1, ?Es1, ?Ei1, ?Erx; done. }
  rewrite bool_decide_eq_false_2 by done. cbn [negb].
  destruct (read_rbr_spec b (set_port u d) Hw1 Er1) as (u2 & E2 & Hw2 & Er2 & Es2 & Et2 & Hb).
  rewrite (M_bind_step _ _ _ _ _ E2).
  destruct (input_putc_spec c b (set_port u2 d) Hc Hw2) as (d3 & E3 & Hw3 & Hi3 & Hm3 & Ho3 & Hb3 & Hr3 & Ht3 & Hk3 & _); [done..|].
  rewrite (M_bind_step _ _ _ _ _ E3).
  destruct (IH d3) as (d' & E' & [Hw' Hi' Hm' Ho' Hp'] & Hstop & Ht' & Hk'); [done|done|by rewrite Hm3| |].
  { pose proof (length_contents (buffer d3)) as Hl3. rewrite Hb3, length_app in Hl3. cbn in Hl3.
    pose proof (length_contents (buffer d)). lia. }
  exists d'. split; [done|]. split; [|split; [done|]; split; [by rewrite Ht', Ht3|]].
  - split; try done.
    + rewrite Ho', Ho3. unfold output. cbn. by rewrite Es2, <- Es1.
    + rewrite Hp'. unfold pending, received_bytes. rewrite Hb3, Hr3. cbn. by rewrite Er2, Erx, app_nil_r.
  - intros Hk. apply Hk'. unfold ready in *. rewrite Hk3. cbn. rewrite Et2. by apply Hk1.
Qed.

(** The work that an interrupt does: it reads what there is to read, unless the
    input buffer is full, and sends a byte if the transmitter can take one. *)
Definition served (d d' : ports) : Prop :=
  (buffer_full d' = true ∨ rbr (port d') = None) ∧
  ∃ sent, contents (txq d) = sent ++ contents (txq d') ∧
    (ready (port d) = true → contents (txq d) ≠ [] → sent ≠ []).

Lemma serial_interrupt_spec c d : intr_off c = true → ports_wf d → ier_ok d → mode d = QUEUE →
  ∃ d', serial_interrupt c d = Ok ((), d') ∧ sound d' QUEUE (output d) (pending d) ∧ served d d'.
Proof.
  intros Hc Hw Hi Hm. unfold serial_interrupt.
  rewrite (M_bind_step _ _ _ 1 d) by (destruct d as [[[|] ?] ?]; done).
  destruct (receive_loop_spec c (Z.to_nat INTQ_BUFSIZE) d Hc Hw Hi Hm) as (d1 & E1 & [Hw1 Hi1 Hm1 Ho1 Hp1] & Hstop & Ht1 & Hk1).
  { pose proof (count_range (buffer d)). unfold INTQ_BUFSIZE in *. lia. }
  rewrite (M_bind_step _ _ _ _ _ E1).
  destruct (transmit_loop_spec c (Z.to_nat INTQ_BUFSIZE) d1 Hc (pw_txq _ Hw1)) as (d2 & sent & E2 & Hs & Hsent & Hsome).
  { apply (pw_dlab _ Hw1). congruence. }
  { pose proof (length_contents (txq d1)). pose proof (count_range (txq d1)). lia. }
  rewrite (M_bind_step _ _ _ _ _ E2). pose proof (tx_step_wf _ _ _ Hw1 Hs Hm1) as Hw2.
  destruct (write_ier_ok c d2 Hc Hw2) as (u & E3 & Hw3 & Hi3 & Er3 & Ew3 & _).
  { apply (pw_dlab _ Hw2). rewrite (ts_mode _ _ _ Hs). congruence. }
  exists (set_port u d2). split; [done|]. split; [|split].
  - split; try done.
    + cbn. by rewrite (ts_mode _ _ _ Hs).
    + unfold output at 1. cbn. rewrite Ew3. fold (output d2). by rewrite (ts_output _ _ _ Hs), app_nil_r.
    + unfold pending at 1, received_bytes. cbn. rewrite Er3, <- Hp1. exact (tx_step_pending _ _ _ Hs).
  - unfold buffer_full. cbn. rewrite Er3, (ts_buffer _ _ _ Hs), (ts_received _ _ _ Hs). done.
  - exists sent. rewrite <- Ht1. split; [done|]. intros Hk. by apply Hsome, Hk1.
Qed.

Lemma serial_init_queue_spec c d : ports_wf d → ier_ok d → mode d ≠ QUEUE →
  ∃ d', serial_init_queue c d = Ok ((), d') ∧ sound d' QUEUE (output d) (pending d).
Proof.
  intros Hw Hi Hm. unfold serial_init_queue. rewrite getS_step.
  assert (∃ d1, (if bool_decide (mode d = UNINIT) then init_poll else mret ()) d = Ok ((), d1) ∧
      sound d1 POLL (output d) (pending d)) as (d1 & E1 & [Hw1 _ Hm1 Ho1 Hp1]).
  { case_bool_decide as Hu.
    - destruct (init_poll_spec d Hw Hu) as (d1 & ? & ? & _). eauto.
    - exists d. split; [done|]. split; try done. by destruct (mode d). }
  rewrite (M_bind_step _ _ _ _ _ E1), getS_step.
  rewrite (M_bind_step _ _ _ () d1) by (by rewrite check_true by (by apply bool_decide_eq_true)).
  rewrite modS_step. destruct (write_ier_sound (disabled c) (set_mode QUEUE d1) eq_refl) as (d' & E' & [? ? ? Ho Hp]); [|done|].
  { destruct Hw1 as [? ? ? Hd ?]. split; cbn; try done. intros _. apply Hd. congruence. }
  exists d'. split; [done|]. split; try done; [exact (eq_trans Ho Ho1)|exact (eq_trans Hp Hp1)].
Qed.

(** * Runs *)

(** Calls of kernel threads ([off]: with interrupts disabled), the serial
    interrupt, bytes that arrive from the line, and a byte that moves from the
    holding register on to the line as time passes.  The handler is registered by
    [serial_init_queue], which is called once. *)
Inductive event :=
  | EPutc (off : bool) (b : Z) | EFlush | EGetc | EIrq | EInitQueue | EArrive (b : Z) | EShift.
Definition thread_cpu (off : bool) : cpu := mkCpu off false 1.
Definition handler_cpu : cpu := mkCpu true true 1.

(** The ports with the bytes that [serial_putc] accepted, the bytes that
    [input_getc] returned, the bytes that arrived, and the number of them that
    came before the byte in the receive buffer register had been read. *)
Record history := mkHistory {
  ports_of : ports;
  accepted : list Z;
  delivered : list Z;
  arrived : list Z;
  overruns : nat
}.

Definition occur (e : event) (h : history) : outcome history :=
  let '(mkHistory d acc del arr n) := h in
  match e with
  | EPutc off b =>
      '(r, d) ← serial_putc (thread_cpu off) b d; Ok (mkHistory d (if (r : bool) then acc ++ [b] else acc) del arr n)
  | EFlush => if bool_decide (mode d = QUEUE) then '(_, d) ← serial_flush (thread_cpu false) d; Ok (mkHistory d acc del arr n) else Ok h
  | EGetc => '(r, d) ← input_getc (thread_cpu false) d; Ok (mkHistory d acc (del ++ option_list r) arr n)
  | EIrq => if bool_decide (mode d = QUEUE) then '(_, d) ← serial_interrupt handler_cpu d; Ok (mkHistory d acc del arr n) else Ok h
  | EInitQueue => if bool_decide (mode d = QUEUE) then Ok h else '(_, d) ← serial_init_queue (thread_cpu false) d; Ok (mkHistory d acc del arr n)
  | EArrive b => Ok (mkHistory (set_port (arrive b (port d)) d) acc del (arr ++ [b]) (match rbr (port d) with Some _ => S n | None => n end))
  | EShift => Ok (mkHistory (set_port (shift_out (port d)) d) acc del arr n)
  end.
Fixpoint occur_all (es : list event) (h : history) : outcome history :=
  match es with [] => Ok h | e :: es => h ← occur e h; occur_all es h end.
Definition event_byte (e : event) : Prop :=
  match e with EPutc _ b | EArrive b => is_u8 b | _ => True end.

Record history_ok (h : history) : Prop := {
  ho_wf : ports_wf (ports_of h);
  ho_ier : ier_ok (ports_of h);
  ho_sent : output (ports_of h) = accepted h;
  ho_received : (delivered h ++ pending (ports_of h)) `sublist_of` arrived h;
  ho_overruns : length (arrived h) = (length (delivered h ++ pending (ports_of h)) + overruns h)%nat
}.

Lemma sound_history d x acc del arr n p :
  sound d x acc p → (del ++ p) `sublist_of` arr → length arr = (length (del ++ p) + n)%nat →
  history_ok (mkHistory d acc del arr n).
Proof. intros [? ? ? ? ?] ? ?. split; cbn; by subst. Qed.

(** A byte that arrives is kept, and only an unread byte is lost. *)
Lemma arrive_ok b d acc del arr n : is_u8 b → history_ok (mkHistory d acc del arr n) →
  history_ok (mkHistory (set_port (arrive b (port d)) d) acc del (arr ++ [b])
    (match rbr (port d) with Some _ => S n | None => n end)).
Proof.
  intros Hb [[] Hi Ho Hs Hl]. cbn in *. unfold pending, received_bytes in *.
  split; cbn in *; [split; cbn; try done; by constructor|done|done| |].
  - unfold pending, received_bytes. cbn. rewrite app_assoc in *. apply sublist_app; [|done].
    etransitivity; [|exact Hs]. by apply sublist_inserts_r.
  - unfold pending, received_bytes. cbn. rewrite !length_app in *. destruct (rbr (port d)); cbn in *; lia.
Qed.

Lemma occur_ok e h : event_byte e → history_ok h → ∃ h', occur e h = Ok h' ∧ history_ok h'.
Proof.
  intros Hb Hh. destruct h as [d acc del arr n]. destruct (Hh) as [Hw Hi Ho Hr Hl]; cbn in *.
  destruct e as [off b| | | | |b|]; cbn [occur].
  - destruct (serial_putc_spec (thread_cpu off) b d Hw Hi Hb) as (r & d' & E & _ & Hs & _); [done|].
    rewrite E. eexists. split; [done|]. rewrite Ho in Hs.
    apply (sound_history _ (mode d') _ _ _ _ (pending d)); [|done..]. destruct r; [done|by rewrite app_nil_r in Hs].
  - case_bool_decide as Hm; [|eauto]. destruct (serial_flush_spec (thread_cpu false) d Hw Hi Hm) as (d' & E & Hs & _).
    rewrite E. eexists. split; [done|]. rewrite Ho in Hs. by eapply sound_history.
  - destruct (input_getc_spec (thread_cpu false) d Hw Hi) as (r & d' & E & Hs & Hp); [done|].
    rewrite E. eexists. split; [done|]. rewrite Ho in Hs.
    assert ((del ++ option_list r) ++ pending d' = del ++ pending d) as Ep.
    { destruct r as [b|]; cbn; [by rewrite <- app_assoc, Hp|]. destruct Hp as [-> _]. by rewrite app_nil_r. }
    eapply sound_history; [done|by rewrite Ep..].
  - case_bool_decide as Hm; [|eauto]. destruct (serial_interrupt_spec handler_cpu d eq_refl Hw Hi Hm) as (d' & E & Hs & _).
    rewrite E. eexists. split; [done|]. rewrite Ho in Hs. by eapply sound_history.
  - case_bool_decide as Hm; [eauto|]. destruct (serial_init_queue_spec (thread_cpu false) d Hw Hi Hm) as (d' & E & Hs).
    rewrite E. eexists. split; [done|]. rewrite Ho in Hs. by eapply sound_history.
  - eexists. split; [done|]. by apply arrive_ok.
  - eexists. split; [done|]. destruct (shift_out_sends (port d)) as (Er & Es & Ei & El). rewrite app_nil_r in Es.
    destruct Hw as [? ? Hrx Hd ?]. split; cbn.
    + split; cbn; unfold received_bytes, dlab; rewrite ?Er, ?El; done.
    + unfold ier_ok, buffer_full in *. cbn. by rewrite Ei.
    + rewrite <- Ho. unfold output. cbn. by rewrite Es.
    + unfold pending, received_bytes. cbn. by rewrite Er.
    + unfold pending, received_bytes. cbn. by rewrite Er.
Qed.
Lemma occur_all_ok es h : Forall event_byte es → history_ok h → ∃ h', occur_all es h = Ok h' ∧ history_ok h'.
Proof.
  intros Hes. revert h. induction Hes as [|e es He _ IH]; intros h Hh; [by exists h|].
  destruct (occur_ok e h He Hh) as (h1 & E & Hh1). cbn [occur_all]. rewrite (bind_step _ _ _ E). by apply IH.
Qed.

(** C22: the serial driver with the input buffer, from any initial state and for
    every sequence of [serial_putc], [serial_flush], [input_getc] and
    [serial_init_queue] calls, serial interrupts and bytes that arrive, whatever
    the speed of the transmitter, whose holding register loses its byte when it
    is written before it is empty: no assertion fails and no loop runs on; the
    bytes on the line, the byte in the holding register and the bytes queued are
    those that [serial_putc] took, all of them, in order; the bytes [input_getc]
    returned, those in the input buffer and the one in the receive register are
    among the bytes that arrived, in order, and what is missing is as many bytes
    as have arrived on top of an unread one; in interrupt mode the transmit
    interrupt is enabled whenever bytes are queued, and the receive interrupt
    exactly while the input buffer has room; and then an interrupt leaves the
    receive register empty or the input buffer full and, when the transmitter is
    ready and bytes are queued, sends at least the first of them, and
    [serial_flush] leaves none queued. *)
Theorem serial_correct d es : ports_wf d → ier_ok d → Forall event_byte es →
  ∃ h, occur_all es (mkHistory d (output d) [] (pending d) 0) = Ok h ∧
    wire (port (ports_of h)) ++ option_list (fst <$> thr (port (ports_of h))) ++ contents (txq (ports_of h)) = accepted h ∧
    (delivered h ++ pending (ports_of h)) `sublist_of` arrived h ∧
    length (arrived h) = (length (delivered h ++ pending (ports_of h)) + overruns h)%nat ∧
    (mode (ports_of h) = QUEUE →
      (contents (txq (ports_of h)) ≠ [] → has (ier (port (ports_of h))) IER_XMIT = true) ∧
      has (ier (port (ports_of h))) IER_RECV = negb (buffer_full (ports_of h)) ∧
      (∃ d', serial_interrupt handler_cpu (ports_of h) = Ok ((), d') ∧ served (ports_of h) d') ∧
      ∃ d', serial_flush (thread_cpu false) (ports_of h) = Ok ((), d') ∧ contents (txq d') = []).
Proof.
  intros Hw Hi Hes.
  destruct (occur_all_ok es (mkHistory d (output d) [] (pending d) 0) Hes) as (h & E & [Hw' Hi' Ho Hs Hl]).
  { by split. }
  exists h. split; [done|]. split; [by rewrite <- Ho; unfold output, sent_bytes; rewrite app_assoc|].
  split; [done|]. split; [done|]. intros Hm. destruct (Hi' Hm). split; [done|]. split; [done|]. split.
  - destruct (serial_interrupt_spec handler_cpu _ eq_refl Hw' Hi' Hm) as (d' & ? & _ & ?). eauto.
  - destruct (serial_flush_spec (thread_cpu false) _ Hw' Hi' Hm) as (d' & ? & _ & ?). eauto.
Qed.

(** A port as it comes up: nothing initialised, the transmitter slow. *)
Definition cold : ports :=
  mkPorts (mkUart None None [2; 0; 3]%nat [] 0 0 0 0 0 0) UNINIT blank blank [].
Definition session : list event :=
  [EPutc false 72; EInitQueue; EPutc false 105; EArrive 97; EArrive 98; EPutc true 33; EIrq; EGetc; EShift; EIrq].
Lemma cold_wf : ports_wf cold.
Proof. split; try done; apply blank_wf. Qed.
(** The session loses the byte 97, on top of which 98 arrived, and no other. *)
Lemma serial_correct_witness : ∃ h, occur_all session (mkHistory cold [] [] [] 0) = Ok h ∧
  wire (port (ports_of h)) ++ option_list (fst <$> thr (port (ports_of h))) ++ contents (txq (ports_of h)) = [72; 105; 33] ∧
  delivered h = [98] ∧ arrived h = [97; 98] ∧ overruns h = 1%nat.
Proof.
  destruct (serial_correct cold session cold_wf) as (h & E & Hs & _).
  - intros [=].
  - repeat constructor; unfold is_u8; cbn; lia.
  - exists h. split; [exact E|]. rewrite Hs. vm_compute in E. injection E as <-. by split.
Defined.
