(* ===== verification/Keyboard.v ===== *)
(** The keyboard driver (devices/kbd.c): scancodes to characters, with the state
    of the shift keys, and the characters' way into the input buffer. *)
From Stdlib Require Import String Ascii.
From S2P Require Import Prelude Mem Console Intq Serial SerialCorrect.

(** The characters of a literal. *)
Definition codes (s : string) : list Z := (λ a, Z.of_N (N_of_ascii a)) <$> list_ascii_of_string s.

(** lib/ctype.h *)
Definition isupper (c : Z) : bool := (65 <=? c) && (c <=? 90).
Definition tolower (c : Z) : Z := if isupper c then c - 65 + 97 else c.

(** * The driver *)

(** [struct keymap]; a table ends with its terminating entry. *)
Record keymap := mkKeymap { first_scancode : Z; chars : list Z }.
Definition invariant_keymap : list keymap :=
  [mkKeymap 0x01 [27]; mkKeymap 0x0e [8]; mkKeymap 0x0f (9 :: codes "QWERTYUIOP"); mkKeymap 0x1c [13];
   mkKeymap 0x1e (codes "ASDFGHJKL"); mkKeymap 0x2c (codes "ZXCVBNM"); mkKeymap 0x37 (codes "*");
   mkKeymap 0x39 (codes " "); mkKeymap 0 []].
Definition unshifted_keymap : list keymap :=
  [mkKeymap 0x02 (codes "1234567890-="); mkKeymap 0x1a (codes "[]"); mkKeymap 0x27 (codes ";'`");
   mkKeymap 0x2b (codes "\"); mkKeymap 0x33 (codes ",./"); mkKeymap 0 []].
Definition shifted_keymap : list keymap :=
  [mkKeymap 0x02 (codes "!@#$%^&*()_+"); mkKeymap 0x1a (codes "{}"); mkKeymap 0x27 [58; 34; 126];
   mkKeymap 0x2b (codes "|"); mkKeymap 0x33 (codes "<>?"); mkKeymap 0 []].

(** [for (; k->first_scancode != 0; k++)]; [None] for a result of [false]. *)
Fixpoint map_key (k : list keymap) (scancode : Z) : option Z :=
  match k with
  | [] => None
  | e :: k =>
      if first_scancode e =? 0 then None
      else if (first_scancode e <=? scancode)
              && (scancode <? u32 (first_scancode e + Z.of_nat (List.length (chars e))))
      then zget (chars e) (scancode - first_scancode e)
      else map_key k scancode
  end.

Record kbd := mkKbd {
  left_shift : bool; right_shift : bool;
  left_alt : bool; right_alt : bool;
  left_ctrl : bool; right_ctrl : bool;
  caps_lock : bool;
  key_cnt : Z
}.
(** The variables of [shift_keys]. *)
Inductive shift_var := LeftShift | RightShift | LeftAlt | RightAlt | LeftCtrl | RightCtrl.
Definition set_shift (v : shift_var) (x : bool) (k : kbd) : kbd :=
  let '(mkKbd ls rs la ra lc rc cl n) := k in
  match v with
  | LeftShift => mkKbd x rs la ra lc rc cl n
  | RightShift => mkKbd ls x la ra lc rc cl n
  | LeftAlt => mkKbd ls rs x ra lc rc cl n
  | RightAlt => mkKbd ls rs la x lc rc cl n
  | LeftCtrl => mkKbd ls rs la ra x rc cl n
  | RightCtrl => mkKbd ls rs la ra lc x cl n
  end.
Definition toggle_caps (k : kbd) : kbd :=
  let '(mkKbd ls rs la ra lc rc cl n) := k in mkKbd ls rs la ra lc rc (negb cl) n.
Definition count_key (k : kbd) : kbd :=
  let '(mkKbd ls rs la ra lc rc cl n) := k in mkKbd ls rs la ra lc rc cl (s64 (n + 1)).

Definition shift_keys : list (Z * shift_var) :=
  [(0x2a, LeftShift); (0x36, RightShift); (0x38, LeftAlt); (0xe038, RightAlt); (0x1d, LeftCtrl); (0xe01d, RightCtrl)].
Fixpoint find_shift (l : list (Z * shift_var)) (code : Z) : option shift_var :=
  match l with [] => None | (c, v) :: l => if c =? code then Some v else find_shift l code end.

Definition shifted (k : kbd) : bool := left_shift k || right_shift k.
Definition alted (k : kbd) : bool := left_alt k || right_alt k.
Definition ctrled (k : kbd) : bool := left_ctrl k || right_ctrl k.

(** The condition that tries the tables in turn. *)
Definition lookup_key (shift : bool) (code : Z) : option Z :=
  match map_key invariant_keymap code with
  | Some c => Some c
  | None => if shift then map_key shifted_keymap code else map_key unshifted_keymap code
  end.
(** What Ctrl, Shift, Caps Lock and Alt make of the character. *)
Definition modify (shift caps ctrl alt : bool) (c : Z) : Z :=
  let c := if ctrl && (0x40 <=? c) && (c <? 0x60) then u8 (c - 0x40)
           else if Bool.eqb shift caps then u8 (tolower c) else c in
  if alt then u8 (c + 0x80) else c.

Abbreviation KM := (M (kbd * ports)).
Definition on_ports {A} (f : DM A) : KM A := λ '(k, d), '(a, d) ← f d; Ok (a, (k, d)).
Definition on_kbd (f : kbd → kbd) : KM () := λ '(k, d), Ok ((), (f k, d)).

(** [b1] and [b2] are the bytes that the first and the second read of the data
    register return. *)
Definition keyboard_interrupt (c : cpu) (b1 b2 : Z) : KM () :=
  '(k, _) ← getS;
  let code := if b1 =? 0xe0 then Z.lor (Z.shiftl b1 8) b2 else b1 in
  let release := has code 0x80 in
  let code := Z.land code (u32 (Z.lnot 0x80)) in
  if code =? 0x3a then (if release then mret () else on_kbd toggle_caps)
  else
    match lookup_key (shifted k) code with
    | Some ch =>
        if release then mret ()
        else
          full ← on_ports (input_full c);
          if (full : bool) then mret ()
          else
            on_kbd count_key;;
            on_ports (input_putc c (modify (shifted k) (caps_lock k) (ctrled k) (alted k) ch))
    | None =>
        match find_shift shift_keys code with
        | Some v => on_kbd (set_shift v (negb release))
        | None => mret ()
        end
    end.

Definition kbd_print_stats (k : kbd) : Console.CM () :=
  Console.printf_lit (codes "Keyboard: %lld keys pressed" ++ [10]) [u32 (key_cnt k); u32 (Z.shiftr (key_cnt k) 32)].

(** * The layout of the keyboard *)

(** Every key that types something: its scancode, what it types alone, and what
    it types with Shift. *)
Fixpoint row (first : Z) (plain shift : list Z) : list (Z * (Z * Z)) :=
  match plain, shift with
  | p :: plain, s :: shift => (first, (p, s)) :: row (first + 1) plain shift
  | _, _ => []
  end.
Definition layout : list (Z * (Z * Z)) :=
  row 1 (27 :: codes "1234567890-=" ++ [8; 9]) (27 :: codes "!@#$%^&*()_+" ++ [8; 9]) ++
  row 16 (codes "qwertyuiop[]" ++ [13]) (codes "QWERTYUIOP{}" ++ [13]) ++
  row 30 (codes "asdfghjkl;'`") (codes "ASDFGHJKL:" ++ [34; 126]) ++
  row 43 (codes "\zxcvbnm,./") (codes "|ZXCVBNM<>?") ++
  row 55 (codes "*") (codes "*") ++ row 57 (codes " ") (codes " ").

Definition is_letter (c : Z) : bool := (97 <=? c) && (c <=? 122).
(** What a key types: Shift selects, Caps Lock inverts Shift for letters, Ctrl
    makes a control character of what has one, Alt sets the high bit. *)
Definition typed (shift caps ctrl alt : bool) (key : Z * Z) : Z :=
  let '(plain, upper) := key in
  let c := if xorb shift (caps && is_letter plain) then upper else plain in
  let capital := if is_letter c then c - 32 else c in
  let c := if ctrl && (64 <=? capital) && (capital <? 96) then capital - 64 else c in
  if alt then c + 128 else c.

Inductive meaning := Types (key : Z * Z) | Shifts (v : shift_var) | Caps | Nothing.
Definition key_meaning (code : Z) : meaning :=
  if code =? 0x3a then Caps
  else match list_to_map (M := gmap Z (Z * Z)) layout !! code with
       | Some key => Types key
       | None => match find_shift shift_keys code with Some v => Shifts v | None => Nothing end
       end.

(** The key and the movement that the bytes of a scancode report. *)
Definition key_code (b1 b2 : Z) : Z := if b1 =? 224 then 57344 + b2 mod 128 else b1 mod 128.
Definition released (b1 b2 : Z) : bool := if b1 =? 224 then 128 <=? b2 else 128 <=? b1.

(** * Correctness *)

(** Properties of bytes and booleans, by evaluation. *)
Lemma u8_cases (P : Z → bool) : forallb P (seqZ 0 256) = true → ∀ b, is_u8 b → P b = true.
Proof.
  intros H b Hb. rewrite List.forallb_forall in H. apply H, list_elem_of_In, elem_of_seqZ. unfold is_u8 in Hb. lia.
Qed.
Definition bools : list bool := [true; false].
Lemma bool_cases (P : bool → bool) : forallb P bools = true → ∀ b, P b = true.
Proof. intros H [|]; cbn in H; destruct (P true), (P false); done. Qed.

Definition raw_code (b1 b2 : Z) : Z := if b1 =? 0xe0 then Z.lor (Z.shiftl b1 8) b2 else b1.
Lemma raw_code_spec b1 b2 : is_u8 b1 → is_u8 b2 →
  Z.land (raw_code b1 b2) (u32 (Z.lnot 0x80)) = key_code b1 b2 ∧ has (raw_code b1 b2) 0x80 = released b1 b2.
Proof.
  intros H1 H2. unfold raw_code, key_code, released. destruct (Z.eqb_spec b1 224) as [->|Hn].
  - pose proof (u8_cases (λ b, (Z.land (Z.lor (Z.shiftl 224 8) b) (u32 (Z.lnot 128)) =? 57344 + b mod 128)
      && Bool.eqb (has (Z.lor (Z.shiftl 224 8) b) 128) (128 <=? b)) ltac:(vm_compute; reflexivity) b2 H2) as H.
    apply andb_prop in H as [E1%Z.eqb_eq E2%eqb_prop]. done.
  - pose proof (u8_cases (λ b, (Z.land b (u32 (Z.lnot 128)) =? b mod 128)
      && Bool.eqb (has b 128) (128 <=? b)) ltac:(vm_compute; reflexivity) b1 H1) as H.
    apply andb_prop in H as [E1%Z.eqb_eq E2%eqb_prop]. done.
Qed.

(** The tables and the modifiers against the layout, for one key. *)
Definition agrees (code : Z) (shift caps ctrl alt : bool) : bool :=
  match key_meaning code, lookup_key shift code with
  | Types key, Some c =>
      let t := modify shift caps ctrl alt c in (t =? typed shift caps ctrl alt key) && (0 <=? t) && (t <? 256)
  | Types _, None => false
  | Caps, _ => code =? 0x3a
  | _, Some _ => false
  | _, None => true
  end.
Lemma agrees_all b1 b2 : is_u8 b1 → is_u8 b2 → ∀ shift caps ctrl alt,
  agrees (key_code b1 b2) shift caps ctrl alt = true.
Proof.
  intros H1 H2 shift caps ctrl alt. unfold key_code.
  set (P := λ base b, forallb (λ s, forallb (λ l, forallb (λ c, forallb (λ a, agrees (base + b mod 128) s l c a)
    bools) bools) bools) bools).
  assert (∀ base, (base = 0 ∨ base = 57344) → ∀ b, is_u8 b → agrees (base + b mod 128) shift caps ctrl alt = true) as H.
  { intros base Hbase b Hb. assert (P base b = true) as H.
    { revert b Hb. apply u8_cases. destruct Hbase as [->| ->]; vm_compute; reflexivity. }
    unfold P in H.
    exact (bool_cases _ (bool_cases _ (bool_cases _ (bool_cases _ H shift) caps) ctrl) alt). }
  destruct (b1 =? 224); [by apply H; auto|]. rewrite <- (Z.add_0_l (b1 mod 128)). by apply H; auto.
Qed.

(** C37: the keyboard handler, for every state of the shift keys and every
    scancode: a key of the layout that is pressed puts the character the layout
    gives it under Shift, Caps Lock, Ctrl and Alt at the end of the input buffer,
    waking a thread that waits for a key, unless the buffer is full, when the key
    is dropped; its release does nothing; the shift keys record whether they are
    down, Caps Lock changes over when pressed, and other keys do nothing.  The
    output and the interrupt settings stay right. *)
Theorem keyboard_correct c k d b1 b2 :
  intr_off c = true → ports_wf d → ier_ok d → is_u8 b1 → is_u8 b2 →
  ∃ k' d', keyboard_interrupt c b1 b2 (k, d) = Ok ((), (k', d')) ∧ ports_wf d' ∧ ier_ok d' ∧ output d' = output d ∧
    match key_meaning (key_code b1 b2) with
    | Types key =>
        if released b1 b2 || buffer_full d then k' = k ∧ d' = d
        else k' = count_key k ∧
          contents (buffer d') = contents (buffer d) ++
            [typed (shifted k) (caps_lock k) (ctrled k) (alted k) key] ∧
          unblocked d' = unblocked d ++ option_list (not_empty (buffer d))
    | Shifts v => k' = set_shift v (negb (released b1 b2)) k ∧ d' = d
    | Caps => k' = (if released b1 b2 then k else toggle_caps k) ∧ d' = d
    | Nothing => k' = k ∧ d' = d
    end.
Proof.
  intros Hc Hw Hi H1 H2. pose proof (agrees_all b1 b2 H1 H2 (shifted k) (caps_lock k) (ctrled k) (alted k)) as Ha.
  destruct (raw_code_spec b1 b2 H1 H2) as [Ec Er]. unfold keyboard_interrupt. rewrite getS_step.
  fold (raw_code b1 b2). cbv zeta. rewrite Ec, Er. unfold agrees, key_meaning in *.
  destruct (Z.eqb_spec (key_code b1 b2) 0x3a) as [E|E].
  { destruct (released b1 b2); eexists _, _; split; done. }
  destruct (list_to_map layout !! key_code b1 b2) as [key|] eqn:El.
  - destruct (lookup_key (shifted k) (key_code b1 b2)) as [ch|]; [|done].
    apply andb_prop in Ha as [[Et%Z.eqb_eq H0%Z.leb_le]%andb_prop H256%Z.ltb_lt].
    destruct (released b1 b2); [eexists _, _; split; done|].
    rewrite (M_bind_step _ _ _ (buffer_full d) (k, d))
      by (unfold on_ports; by rewrite (input_full_spec c d Hc (pw_buffer _ Hw))).
    destruct (buffer_full d) eqn:Hf; [eexists _, _; split; done|].
    rewrite (M_bind_step _ _ _ () (count_key k, d)) by done.
    destruct (input_putc_spec c _ d Hc Hw Hf (conj H0 H256)) as (d' & E' & Hw' & Hi' & _ & Ho & Hb & _ & _ & _ & Hu).
    unfold on_ports. rewrite E'. rewrite Et in Hb. eexists _, _. split; done.
  - destruct (find_shift shift_keys (key_code b1 b2)) as [v|]; destruct (lookup_key _ _); try done;
      eexists _, _; split; done.
Qed.

(** Shift pressed, then H, while a thread waits for a key. *)
Definition fresh_kbd : kbd := mkKbd false false false false false false false 0.
Definition waiting : ports :=
  mkPorts (port cold) UNINIT blank (mkIntq None (Some 7) (replicate 64 0) 0 0) [].
Lemma waiting_wf : ports_wf waiting.
Proof. split; try done; [apply blank_wf|]. destruct blank_wf. by split. Qed.
Lemma keyboard_correct_witness : ∃ k d,
  keyboard_interrupt handler_cpu 0x2a 0 (fresh_kbd, waiting) = Ok ((), (k, waiting)) ∧
  keyboard_interrupt handler_cpu 0x23 0 (k, waiting) = Ok ((), (count_key k, d)) ∧
  contents (buffer d) = [72] ∧ unblocked d = [7].
Proof.
  assert (is_u8 0x2a ∧ is_u8 0x23 ∧ is_u8 0) as (U1 & U2 & U3) by (unfold is_u8; lia).
  destruct (keyboard_correct handler_cpu fresh_kbd waiting 0x2a 0 eq_refl waiting_wf) as (k & d & E & _ & _ & _ & H);
    [intros [=]|exact U1|exact U3|].
  assert (key_meaning (key_code 0x2a 0) = Shifts LeftShift) as M1 by (vm_compute; reflexivity).
  rewrite M1 in H. destruct H as [-> ->].
  match goal with H : _ = Ok (_, (?k, _)) |- _ =>
    destruct (keyboard_correct handler_cpu k waiting 0x23 0 eq_refl waiting_wf) as (k' & d' & E' & _ & _ & _ & H');
    [intros [=]|exact U2|exact U3|]
  end.
  assert (key_meaning (key_code 0x23 0) = Types (104, 72)) as M2 by (vm_compute; reflexivity).
  rewrite M2 in H'. destruct H' as (-> & Hb & Hu). eexists _, d'. split; [exact E|]. split; [exact E'|].
  rewrite Hb, Hu. split; vm_compute; reflexivity.
Defined.
