(* ===== verification/Vga.v ===== *)
(** The VGA text display (devices/vga.c): the frame buffer as its 4000 bytes,
    the cursor, and the cursor registers of the display controller; and the
    terminal of 25 lines of 80 characters that it implements. *)
From S2P Require Import Prelude.

Definition COL_CNT : Z := 80.
Definition ROW_CNT : Z := 25.
Definition GRAY_ON_BLACK : Z := 7.

(** The display controller: the index register at port 0x3d4 and, behind the
    data register at 0x3d5, the two halves of the cursor position. *)
Record crtc := mkCrtc { index : Z; cursor_high : Z; cursor_low : Z }.
Definition write_data (v : Z) (h : crtc) : crtc :=
  if index h =? 0x0e then mkCrtc (index h) v (cursor_low h)
  else if index h =? 0x0f then mkCrtc (index h) (cursor_high h) v
  else h.
Definition read_data (h : crtc) : Z :=
  if index h =? 0x0e then cursor_high h else if index h =? 0x0f then cursor_low h else 0.
(** [outb (0x3d4, v)] and [outw (0x3d4, v)], which writes its high byte to the
    next port. *)
Definition outb_index (v : Z) (h : crtc) : crtc := mkCrtc (u8 v) (cursor_high h) (cursor_low h).
Definition outw_index (v : Z) (h : crtc) : crtc := write_data (u8 (Z.shiftr v 8)) (outb_index v h).

Record vga := mkVga { fb : list Z; cx : Z; cy : Z; inited : bool; hw : crtc }.
Definition set_fb (b : list Z) (s : vga) : vga := mkVga b (cx s) (cy s) (inited s) (hw s).
Definition set_cursor (x y : Z) (s : vga) : vga := mkVga (fb s) x y (inited s) (hw s).

(** The address of [fb[y][x][i]] in the frame buffer. *)
Definition slot (y x i : Z) : Z := (y * COL_CNT + x) * 2 + i.
(** [fb[y][x][0] = c; fb[y][x][1] = GRAY_ON_BLACK;] *)
Definition put_cell (y x c : Z) (b : list Z) : outcome (list Z) :=
  b ← of_option (zset b (slot y x 0) (u8 c));
  of_option (zset b (slot y x 1) GRAY_ON_BLACK).

Definition clear_row (y : Z) (b : list Z) : outcome (list Z) :=
  for_up (Z.to_nat COL_CNT) 0 (λ x b, put_cell y x 32 b) b.
Definition move_cursor (s : vga) : vga :=
  let cp := u16 (u32 (cx s + u32 (COL_CNT * cy s))) in
  let h := outw_index (Z.lor 0x0e (Z.land cp 0xff00)) (hw s) in
  let h := outw_index (u16 (Z.lor 0x0f (Z.shiftl cp 8))) h in
  mkVga (fb s) (cx s) (cy s) (inited s) h.
Definition cls (s : vga) : outcome vga :=
  b ← for_up (Z.to_nat ROW_CNT) 0 clear_row (fb s);
  Ok (move_cursor (set_cursor 0 0 (set_fb b s))).
(** [memmove (&fb[0], &fb[1], n)]: [n] bytes, one row down. *)
Definition scroll (b : list Z) : outcome (list Z) :=
  let row := COL_CNT * 2 in
  let n := row * (ROW_CNT - 1) in
  if row + n <=? Z.of_nat (length b) then
    Ok (take (Z.to_nat n) (drop (Z.to_nat row) b) ++ drop (Z.to_nat n) b)
  else Err WildAccess.
Definition newline (s : vga) : outcome vga :=
  let s := set_cursor 0 (u32 (cy s + 1)) s in
  if ROW_CNT <=? cy s then
    b ← scroll (fb s);
    b ← clear_row (ROW_CNT - 1) b;
    Ok (set_fb b (set_cursor (cx s) (ROW_CNT - 1) s))
  else Ok s.
Definition find_cursor (h : crtc) : Z * Z * crtc :=
  let h := outb_index 0x0e h in
  let cp := u16 (Z.shiftl (read_data h) 8) in
  let h := outb_index 0x0f h in
  let cp := u16 (Z.lor cp (read_data h)) in
  (cp mod COL_CNT, cp / COL_CNT, h).
Definition init (s : vga) : vga :=
  if inited s then s
  else let '(x, y, h) := find_cursor (hw s) in mkVga (fb s) x y true h.

(** The function runs with interrupts off. *)
Definition vga_putc (c : Z) (s : vga) : outcome vga :=
  let s := init s in
  s ← (if c =? 10 then newline s
       else if c =? 12 then cls s
       else if c =? 8 then Ok (if 0 <? cx s then set_cursor (cx s - 1) (cy s) s else s)
       else if c =? 13 then Ok (set_cursor 0 (cy s) s)
       else if c =? 9 then
         let s := set_cursor (ROUND_UP (u32 (cx s + 1)) 8) (cy s) s in
         if COL_CNT <=? cx s then newline s else Ok s
       else
         b ← put_cell (cy s) (cx s) c (fb s);
         let s := set_cursor (u32 (cx s + 1)) (cy s) (set_fb b s) in
         if COL_CNT <=? cx s then newline s else Ok s);
  Ok (move_cursor s).

(** * The terminal *)

(** What is shown at a line and column, as a character and its attribute. *)
Record term := mkTerm { grid : Z → Z → Z * Z; column : Z; line : Z }.
Definition blank_cell : Z * Z := (32, GRAY_ON_BLACK).

Definition term_newline (t : term) : term :=
  if line t <? 24 then mkTerm (grid t) 0 (line t + 1)
  else mkTerm (λ y x, if y <? 24 then grid t (y + 1) x else blank_cell) 0 24.
Definition term_wrap (t : term) : term := if column t <? 80 then t else term_newline t.
Definition term_put (c : Z) (t : term) : term :=
  mkTerm (λ y x, if (y =? line t) && (x =? column t) then (u8 c, GRAY_ON_BLACK) else grid t y x) (column t + 1) (line t).
Definition term_putc (c : Z) (t : term) : term :=
  if c =? 10 then term_newline t
  else if c =? 12 then mkTerm (λ _ _, blank_cell) 0 0
  else if c =? 8 then mkTerm (grid t) (Z.max 0 (column t - 1)) (line t)
  else if c =? 13 then mkTerm (grid t) 0 (line t)
  else if c =? 9 then term_wrap (mkTerm (grid t) (8 * (column t / 8 + 1)) (line t))
  else term_wrap (term_put c t).

Definition cell (b : list Z) (y x : Z) : Z * Z := (default 0 (zget b (slot y x 0)), default 0 (zget b (slot y x 1))).
Definition on_screen (y x : Z) : Prop := 0 <= y < ROW_CNT ∧ 0 <= x < COL_CNT.
(** The frame buffer shows the grid. *)
Definition shows (b : list Z) (g : Z → Z → Z * Z) : Prop :=
  length b = 4000%nat ∧ ∀ y x, on_screen y x → cell b y x = g y x.
Definition refines (s : vga) (t : term) : Prop :=
  shows (fb s) (grid t) ∧ cx s = column t ∧ cy s = line t ∧ on_screen (line t) (column t) ∧ inited s = true.
(** The cursor that the hardware displays. *)
Definition hw_cursor (h : crtc) : Z := cursor_high h * 256 + cursor_low h.

Lemma slot_range y x i : on_screen y x → 0 <= i < 2 → 0 <= slot y x i < 4000.
Proof. unfold on_screen, slot, ROW_CNT, COL_CNT. lia. Qed.

(** * Cells *)

Lemma put_cell_shows b g y x c : shows b g → on_screen y x →
  ∃ b', put_cell y x c b = Ok b' ∧
    shows b' (λ y' x', if (y' =? y) && (x' =? x) then (u8 c, GRAY_ON_BLACK) else g y' x').
Proof.
  intros [Hl Hg] Hs. unfold put_cell.
  pose proof (slot_range y x 0 Hs ltac:(lia)). pose proof (slot_range y x 1 Hs ltac:(lia)).
  rewrite zset_Some by (rewrite Hl; lia). cbn [of_option mbind outcome_bind].
  rewrite zset_Some by (rewrite length_insert, Hl; lia). cbn [of_option]. eexists. split; [done|].
  split; [by rewrite !length_insert|]. intros y' x' Hs'. unfold cell.
  rewrite !zget_insert by (rewrite ?length_insert, Hl; lia).
  specialize (Hg y' x' Hs'). unfold cell in Hg. unfold slot, on_screen, COL_CNT, ROW_CNT in *.
  destruct (Z.eqb_spec y' y), (Z.eqb_spec x' x); subst; cbn [andb];
    repeat case_match; cbn; try done; lia.
Qed.

Lemma clear_row_shows b g y : shows b g → 0 <= y < ROW_CNT →
  ∃ b', clear_row y b = Ok b' ∧ shows b' (λ y' x', if y' =? y then blank_cell else g y' x').
Proof.
  intros Hb Hy. unfold clear_row.
  destruct (for_up_inv (λ k b, shows b (λ y' x', if (y' =? y) && (x' <? k) then blank_cell else g y' x'))
    (λ x b, put_cell y x 32 b) (Z.to_nat COL_CNT) 0 b) as (b' & E & [Hl Hg]).
  - destruct Hb as [? Hg]. split; [done|]. intros y' x' Hs. rewrite (Hg y' x' Hs). unfold on_screen in Hs.
    destruct (Z.ltb_spec x' 0); [lia|]. by rewrite andb_false_r.
  - intros k b1 Hk H1. destruct (put_cell_shows b1 _ y k 32 H1) as (b2 & E2 & [Hl2 Hg2]).
    { unfold on_screen, ROW_CNT, COL_CNT in *. lia. }
    exists b2. split; [done|]. split; [done|]. intros y' x' Hs. rewrite (Hg2 y' x' Hs).
    destruct (Z.eqb_spec y' y), (Z.eqb_spec x' k), (Z.ltb_spec x' k), (Z.ltb_spec x' (k + 1)); cbn; done || lia.
  - exists b'. split; [done|]. split; [done|]. intros y' x' Hs. rewrite (Hg y' x' Hs).
    unfold on_screen, COL_CNT in *. destruct (Z.eqb_spec y' y), (Z.ltb_spec x' (0 + Z.of_nat (Z.to_nat 80))); cbn; done || lia.
Qed.

Lemma clear_all_shows b g : shows b g →
  ∃ b', for_up (Z.to_nat ROW_CNT) 0 clear_row b = Ok b' ∧ shows b' (λ _ _, blank_cell).
Proof.
  intros Hb.
  destruct (for_up_inv (λ k b, shows b (λ y' x', if y' <? k then blank_cell else g y' x'))
    clear_row (Z.to_nat ROW_CNT) 0 b) as (b' & E & [Hl Hg]).
  - destruct Hb as [? Hg]. split; [done|]. intros y' x' Hs. rewrite (Hg y' x' Hs). unfold on_screen in Hs.
    destruct (Z.ltb_spec y' 0); [lia|done].
  - intros k b1 Hk H1. destruct (clear_row_shows b1 _ k H1) as (b2 & E2 & [Hl2 Hg2]); [unfold ROW_CNT in *; lia|].
    exists b2. split; [done|]. split; [done|]. intros y' x' Hs. rewrite (Hg2 y' x' Hs).
    destruct (Z.eqb_spec y' k), (Z.ltb_spec y' k), (Z.ltb_spec y' (k + 1)); done || lia.
  - exists b'. split; [done|]. split; [done|]. intros y' x' Hs. rewrite (Hg y' x' Hs).
    unfold on_screen, ROW_CNT in *. destruct (Z.ltb_spec y' (0 + Z.of_nat (Z.to_nat 25))); done || lia.
Qed.

Lemma zget_scrolled (b : list Z) i : length b = 4000%nat → 0 <= i < 3840 →
  zget (take 3840 (drop 160 b) ++ drop 3840 b) i = zget b (i + 160).
Proof.
  intros Hl Hi. unfold zget. bcases; try lia.
  rewrite lookup_app_l by (rewrite length_take, length_drop; lia).
  rewrite lookup_take_lt by lia. rewrite lookup_drop. f_equal. lia.
Qed.
Lemma scroll_shows b g : shows b g →
  ∃ b', scroll b = Ok b' ∧ length b' = 4000%nat ∧
    ∀ y x, on_screen y x → y < 24 → cell b' y x = g (y + 1) x.
Proof.
  intros [Hl Hg]. unfold scroll. rewrite Hl. eexists. split; [reflexivity|].
  change (Z.to_nat (COL_CNT * 2 * (ROW_CNT - 1))) with 3840%nat. change (Z.to_nat (COL_CNT * 2)) with 160%nat. split.
  { rewrite length_app, length_take, !length_drop. lia. }
  intros y x Hs Hy. unfold on_screen, ROW_CNT, COL_CNT in *. rewrite <- (Hg (y + 1) x) by lia. unfold cell, slot, COL_CNT.
  rewrite !zget_scrolled by lia. f_equal; do 2 f_equal; lia.
Qed.

(** * The cursor *)

Lemma range_cases (P : Z → bool) n : forallb P (seqZ 0 n) = true → ∀ i, 0 <= i < n → P i = true.
Proof.
  intros H i Hi. rewrite List.forallb_forall in H. apply H, list_elem_of_In, elem_of_seqZ. lia.
Qed.

(** The two words that [move_cursor] writes for a position on the screen. *)
Lemma cursor_words cp : 0 <= cp < 2000 →
  u8 (Z.lor 14 (Z.land cp 65280)) = 14 ∧ u8 (Z.shiftr (Z.lor 14 (Z.land cp 65280)) 8) = cp / 256 ∧
  u8 (u16 (Z.lor 15 (Z.shiftl cp 8))) = 15 ∧ u8 (Z.shiftr (u16 (Z.lor 15 (Z.shiftl cp 8))) 8) = cp mod 256.
Proof.
  intros Hc. pose proof (range_cases (λ cp,
    (u8 (Z.lor 14 (Z.land cp 65280)) =? 14) && (u8 (Z.shiftr (Z.lor 14 (Z.land cp 65280)) 8) =? cp / 256) &&
    (u8 (u16 (Z.lor 15 (Z.shiftl cp 8))) =? 15) && (u8 (Z.shiftr (u16 (Z.lor 15 (Z.shiftl cp 8))) 8) =? cp mod 256))
    2000 ltac:(vm_compute; reflexivity) cp Hc) as H.
  cbv beta in H. rewrite !andb_true_iff, !Z.eqb_eq in H. tauto.
Qed.
Lemma move_cursor_hw s : on_screen (cy s) (cx s) → hw_cursor (hw (move_cursor s)) = 80 * cy s + cx s.
Proof.
  intros Hs. unfold on_screen, ROW_CNT, COL_CNT in Hs. unfold move_cursor, COL_CNT.
  rewrite !u32_small by (rewrite ?u32_small; lia).
  assert (u16 (cx s + 80 * cy s) = cx s + 80 * cy s) as -> by (unfold u16; rewrite Z.mod_small; lia).
  destruct (cursor_words (cx s + 80 * cy s)) as (E1 & E2 & E3 & E4); [lia|].
  unfold hw_cursor, outw_index, write_data, outb_index. cbn [hw index cursor_high cursor_low].
  rewrite E1, E2, E3, E4. cbn. pose proof (Z.div_mod (cx s + 80 * cy s) 256). lia.
Qed.
Lemma move_cursor_refines s t : refines s t → refines (move_cursor s) t.
Proof. done. Qed.

Lemma find_cursor_spec h : is_u8 (cursor_low h) → 0 <= cursor_high h → hw_cursor h < 2000 →
  ∃ h', find_cursor h = (hw_cursor h mod COL_CNT, hw_cursor h / COL_CNT, h').
Proof.
  intros Hl Hh Hc. eexists. unfold find_cursor, outb_index, read_data. cbn [index cursor_high cursor_low].
  assert (u16 (Z.lor (u16 (Z.shiftl (cursor_high h) 8)) (cursor_low h)) = hw_cursor h) as E; [|by rewrite <- E].
  unfold hw_cursor, is_u8 in *.
  pose proof (range_cases (λ i, forallb (λ j, u16 (Z.lor (u16 (Z.shiftl i 8)) j) =? i * 256 + j) (seqZ 0 256))
    8 ltac:(vm_compute; reflexivity) (cursor_high h)) as H.
  specialize (H ltac:(lia)). cbv beta in H. pose proof (range_cases _ 256 H (cursor_low h) Hl) as H'.
  by apply Z.eqb_eq.
Qed.

(** * Refinement *)

(** A state before wrapping: the column may have passed the edge. *)
Definition near (s : vga) (t : term) : Prop :=
  shows (fb s) (grid t) ∧ cx s = column t ∧ cy s = line t ∧ 0 <= line t < ROW_CNT ∧ 0 <= column t ∧ inited s = true.

Lemma newline_refines s t : near s t → ∃ s', newline s = Ok s' ∧ refines s' (term_newline t).
Proof.
  intros (Hb & _ & Ey & Hl & _ & Hi). unfold newline, term_newline. cbn [cy cx set_cursor].
  unfold ROW_CNT in *. rewrite u32_small by lia. rewrite Ey.
  destruct (Z.leb_spec 25 (line t + 1)), (Z.ltb_spec (line t) 24); try lia.
  - destruct (scroll_shows _ _ Hb) as (b1 & E1 & Hl1 & Hg1). cbn [fb set_cursor]. rewrite E1. cbn [mbind outcome_bind].
    destruct (clear_row_shows b1 (cell b1) 24) as (b2 & E2 & [Hl2 Hg2]); [by split|unfold ROW_CNT; lia|].
    change (25 - 1) with 24. rewrite E2. eexists. split; [done|]. split; [split; [done|]|cbn; unfold on_screen, ROW_CNT, COL_CNT; naive_solver lia].
    intros y x Hs. cbn [fb set_fb]. rewrite (Hg2 y x Hs). cbn [grid].
    destruct (Z.eqb_spec y 24), (Z.ltb_spec y 24); try (unfold on_screen, ROW_CNT in Hs; lia); [done|by apply Hg1].
  - eexists. split; [done|]. split; [done|]. cbn. unfold on_screen, ROW_CNT, COL_CNT. naive_solver lia.
Qed.
Lemma wrap_refines s t : near s t →
  ∃ s', (if COL_CNT <=? cx s then newline s else Ok s) = Ok s' ∧ refines s' (term_wrap t).
Proof.
  intros Hn. destruct (Hn) as (Hb & Ex & Ey & Hl & Hc & Hi). unfold term_wrap. rewrite Ex. unfold COL_CNT.
  destruct (Z.leb_spec 80 (column t)), (Z.ltb_spec (column t) 80); try lia; [by apply newline_refines|].
  exists s. split; [done|]. unfold refines, on_screen, COL_CNT. naive_solver lia.
Qed.
Lemma refines_near s t : refines s t → near s t.
Proof. intros (? & ? & ? & [? ?] & ?). unfold near. naive_solver. Qed.

Lemma tab_stop x : 0 <= x < 80 → ROUND_UP (u32 (x + 1)) 8 = 8 * (x / 8 + 1).
Proof.
  intros. unfold ROUND_UP. rewrite !(u32_small (x + 1)), (u32_small (x + 1 + 8)), (u32_small (x + 1 + 8 - 1)) by lia.
  rewrite u32_small by (Z.to_euclidean_division_equations; lia). Z.to_euclidean_division_equations; lia.
Qed.

Lemma vga_putc_refines c s t : refines s t →
  ∃ s', vga_putc c s = Ok s' ∧ refines s' (term_putc c t) ∧
    hw_cursor (hw s') = 80 * line (term_putc c t) + column (term_putc c t).
Proof.
  intros Hr. pose proof (refines_near _ _ Hr) as Hn. destruct (Hr) as (Hb & Ex & Ey & Hs & Hi).
  assert (∀ o t', (∃ s1, o = Ok s1 ∧ refines s1 t') → ∃ s', (s ← o; Ok (move_cursor s)) = Ok s' ∧
    refines s' t' ∧ hw_cursor (hw s') = 80 * line t' + column t') as Hend.
  { intros o t' (s1 & -> & H1). exists (move_cursor s1). split; [done|]. split; [done|].
    destruct H1 as (_ & E1 & E2 & H1 & _). rewrite <- E1, <- E2 in *. by apply move_cursor_hw. }
  unfold vga_putc, init. rewrite Hi. unfold term_putc. apply Hend.
  destruct (c =? 10); [by apply newline_refines|]. destruct (c =? 12); [|destruct (c =? 8); [|destruct (c =? 13); [|destruct (c =? 9)]]].
  - unfold cls. destruct (clear_all_shows _ _ Hb) as (b & E & Hb'). rewrite E. eexists. split; [done|].
    split; [done|]. cbn. unfold on_screen, ROW_CNT, COL_CNT. naive_solver lia.
  - eexists. split; [done|]. unfold refines, on_screen in *. rewrite Ex.
    destruct (Z.ltb_spec 0 (column t)); cbn [fb cx cy inited set_cursor grid column line]; splits; (done || lia).
  - eexists. split; [done|]. split; [done|]. cbn. unfold on_screen, ROW_CNT, COL_CNT in *. naive_solver lia.
  - apply wrap_refines. rewrite Ex. unfold on_screen, COL_CNT in Hs. rewrite tab_stop by lia.
    split; [done|]. cbn. splits; try done; [lia..|]. Z.to_euclidean_division_equations; lia.
  - rewrite Ex, Ey. destruct (put_cell_shows (fb s) (grid t) (line t) (column t) c Hb Hs) as (b & E & Hb'). rewrite E.
    cbn [mbind outcome_bind]. unfold on_screen, COL_CNT in Hs. rewrite u32_small by lia.
    apply wrap_refines. split; [done|]. cbn. splits; (done || lia).
Qed.

Fixpoint vga_puts (cs : list Z) (s : vga) : outcome vga :=
  match cs with [] => Ok s | c :: cs => s ← vga_putc c s; vga_puts cs s end.

Lemma vga_puts_snoc cs c s : vga_puts (cs ++ [c]) s = vga_puts cs s ≫= vga_putc c.
Proof.
  revert s. induction cs as [|a cs IH]; intros s; cbn.
  - by destruct (vga_putc c s).
  - destruct (vga_putc a s); cbn; [apply IH|done].
Qed.

Lemma vga_puts_refines cs s t : refines s t →
  ∃ s', vga_puts cs s = Ok s' ∧ refines s' (foldl (flip term_putc) t cs).
Proof.
  revert s t. induction cs as [|c cs IH]; intros s t Hr; [by exists s|].
  destruct (vga_putc_refines c s t Hr) as (s1 & E & H1 & _). destruct (IH _ _ H1) as (s2 & E2 & H2).
  exists s2. split; [|done]. cbn [vga_puts]. by rewrite (bind_step _ _ _ E).
Qed.

(** C38: the text display refines a terminal of 25 lines of 80 columns: started at
    the position that the hardware cursor has, it shows after any sequence of
    characters what the terminal does with new lines, form feeds, backspaces,
    carriage returns, tabs to the next multiple of eight and other characters,
    wrapping at the right edge and scrolling at the bottom; no write leaves the
    frame buffer, and the hardware cursor is left at the terminal's cursor. *)
Theorem vga_refines_terminal s c cs :
  length (fb s) = 4000%nat → inited s = false → is_u8 (cursor_low (hw s)) → 0 <= cursor_high (hw s) →
  hw_cursor (hw s) < 2000 →
  let t := mkTerm (cell (fb s)) (hw_cursor (hw s) mod 80) (hw_cursor (hw s) / 80) in
  let t' := foldl (flip term_putc) t (c :: cs) in
  ∃ s', vga_puts (c :: cs) s = Ok s' ∧
    (∀ y x, on_screen y x → cell (fb s') y x = grid t' y x) ∧
    on_screen (line t') (column t') ∧ hw_cursor (hw s') = 80 * line t' + column t'.
Proof.
  intros Hl Hi Hlo Hhi Hc t. pose proof (find_cursor_spec _ Hlo Hhi Hc) as (h & Ef).
  assert (refines (mkVga (fb s) (hw_cursor (hw s) mod 80) (hw_cursor (hw s) / 80) true h) t) as H0.
  { unfold refines, on_screen, ROW_CNT, COL_CNT, hw_cursor, is_u8 in *. cbn. splits; try done;
      Z.to_euclidean_division_equations; lia. }
  assert (∀ c, vga_putc c s = vga_putc c (mkVga (fb s) (hw_cursor (hw s) mod 80) (hw_cursor (hw s) / 80) true h)) as E0.
  { intros c0. unfold vga_putc, init. by rewrite Hi, Ef. }
  induction cs as [|c1 cs _] using rev_ind; cbn zeta.
  - destruct (vga_putc_refines c _ t H0) as (s' & E & ((Hb & Hg) & _ & _ & Hs & _) & Hh).
    exists s'. cbn [vga_puts]. rewrite E0, (bind_step _ _ _ E). by splits.
  - destruct (vga_puts_refines (c :: cs) _ _ H0) as (s1 & E1 & H1).
    destruct (vga_putc_refines c1 _ _ H1) as (s' & E & ((Hb & Hg) & _ & _ & Hs & _) & Hh).
    rewrite app_comm_cons, foldl_app. cbn [foldl flip]. exists s'. split; [|by splits].
    rewrite vga_puts_snoc. cbn [vga_puts] in *. rewrite E0, E1. done.
Qed.

(** A screen full of the letter A with the cursor near the end of its last line;
    typing wraps and scrolls. *)
Definition full_screen : vga :=
  mkVga (concat (replicate 2000 [65; 7])) 0 0 false (mkCrtc 0 7 206).
Lemma vga_refines_terminal_witness : ∃ s', vga_puts [66; 67; 10; 68] full_screen = Ok s' ∧
  cell (fb s') 22 78 = (66, 7) ∧ cell (fb s') 22 79 = (67, 7) ∧ cell (fb s') 24 0 = (68, 7) ∧
  hw_cursor (hw s') = 80 * 24 + 1.
Proof.
  destruct (vga_refines_terminal full_screen 66 [67; 10; 68]) as (s' & E & Hg & _ & Hh).
  - vm_compute. reflexivity.
  - reflexivity.
  - split; [intros [=]|reflexivity].
  - intros [=].
  - reflexivity.
  - assert (∀ y x, 0 <= y < 25 → 0 <= x < 80 → on_screen y x) as Hs by (intros y x Hy Hx; exact (conj Hy Hx)).
    exists s'. split; [exact E|]. rewrite !Hg by (apply Hs; lia). split; [vm_compute; reflexivity|].
    split; [vm_compute; reflexivity|]. split; [vm_compute; reflexivity|]. rewrite Hh. vm_compute. reflexivity.
Defined.
