(* ===== verification/Descriptor.v ===== *)
(** The descriptor tables of the processor: the segments of userprog/gdt.c, the
    gates and the interrupt table of threads/interrupt.c, and the two interrupt
    controllers it programs.  Descriptors are 64-bit words; [decode_seg] and
    [decode_gate] read them as the processor does. *)
From Stdlib Require Import String.
From S2P Require Import Prelude.

Definition SEL_NULL : Z := 0x00.
Definition SEL_KCSEG : Z := 0x08.
Definition SEL_KDSEG : Z := 0x10.
Definition SEL_UCSEG : Z := 0x1b.
Definition SEL_UDSEG : Z := 0x23.
Definition SEL_TSS : Z := 0x28.
Definition SEL_CNT : Z := 6.

(** * Segments *)

Inductive seg_class := CLS_SYSTEM | CLS_CODE_DATA.
Inductive seg_granularity := GRAN_BYTE | GRAN_PAGE.
Definition class_bit (c : seg_class) : Z := match c with CLS_SYSTEM => 0 | CLS_CODE_DATA => 1 end.
Definition gran_bit (g : seg_granularity) : Z := match g with GRAN_BYTE => 0 | GRAN_PAGE => 1 end.

Definition make_seg_desc (base limit : Z) (class : seg_class) (type dpl : Z) (granularity : seg_granularity) : outcome Z :=
  assert (limit <=? 0xfffff) (
  assert ((0 <=? type) && (type <=? 15)) (
  assert ((0 <=? dpl) && (dpl <=? 3)) (
  let e0 := Z.lor (Z.land limit 0xffff) (u32 (Z.shiftl base 16)) in
  let e1 := Z.lor (Z.lor (Z.lor (Z.lor (Z.lor (Z.lor (Z.lor (Z.lor
              (Z.land (Z.shiftr base 16) 0xff)
              (Z.shiftl type 8))
              (Z.shiftl (class_bit class) 12))
              (Z.shiftl dpl 13))
              (Z.shiftl 1 15))
              (Z.land limit 0xf0000))
              (Z.shiftl 1 22))
              (Z.shiftl (gran_bit granularity) 23))
              (Z.land base 0xff000000) in
  Ok (Z.lor e0 (Z.shiftl e1 32))))).
Definition make_code_desc (dpl : Z) : outcome Z := make_seg_desc 0 0xfffff CLS_CODE_DATA 10 dpl GRAN_PAGE.
Definition make_data_desc (dpl : Z) : outcome Z := make_seg_desc 0 0xfffff CLS_CODE_DATA 2 dpl GRAN_PAGE.
Definition make_tss_desc (laddr : Z) : outcome Z := make_seg_desc laddr 0x67 CLS_SYSTEM 9 0 GRAN_BYTE.
Definition make_gdtr_operand (limit base : Z) : Z := Z.lor limit (Z.shiftl base 16).

(** What a descriptor means to the processor. *)
Record segment := mkSegment {
  seg_base : Z; seg_limit : Z; seg_type : Z; seg_code_data : bool; seg_dpl : Z;
  seg_present : bool; seg_32bit : bool; seg_pages : bool
}.
Definition field (d i n : Z) : Z := Z.land (Z.shiftr d i) (Z.ones n).
Definition decode_seg (d : Z) : segment :=
  mkSegment (Z.lor (Z.lor (field d 16 16) (Z.shiftl (field d 32 8) 16)) (Z.shiftl (field d 56 8) 24))
    (Z.lor (field d 0 16) (Z.shiftl (field d 48 4) 16)) (field d 40 4) (Z.testbit d 44) (field d 45 2)
    (Z.testbit d 47) (Z.testbit d 54) (Z.testbit d 55).
(** The last byte of a segment. *)
Definition last_byte (s : segment) : Z :=
  if seg_pages s then seg_limit s * 4096 + 4095 else seg_limit s.

(** Masks select fields. *)
Lemma land_field a k n : 0 <= n → 0 <= k → Z.land a (Z.shiftl (Z.ones k) n) = Z.shiftl (a / 2 ^ n mod 2 ^ k) n.
Proof.
  intros Hn Hk. rewrite <- Z.shiftr_div_pow2, <- Z.land_ones by done.
  apply Z.bits_inj'. intros i Hi. rewrite Z.land_spec, !Z.shiftl_spec, Z.land_spec by done.
  destruct (Z.ltb_spec i n); [rewrite !(Z.testbit_neg_r _ (i - n)) by lia; by rewrite !andb_false_r|].
  rewrite Z.shiftr_spec by lia. by replace (i - n + n) with i by lia.
Qed.
Lemma field_div d i n : 0 <= i → 0 <= n → field d i n = d / 2 ^ i mod 2 ^ n.
Proof. intros. unfold field. by rewrite Z.land_ones, Z.shiftr_div_pow2. Qed.
Lemma testbit_div d i : 0 <= i → Z.testbit d i = (d / 2 ^ i mod 2 =? 1).
Proof.
  intros. rewrite <- (Z.testbit_spec' d i) by done. by destruct (Z.testbit d i).
Qed.

(** Turn the innermost composition of two fields into a sum. *)
Ltac pack :=
  match goal with |- context [Z.lor ?a (Z.shiftl ?x ?n)] =>
    lazymatch a with
    | context [Z.lor _ _] => fail
    | _ => lazymatch x with
           | context [Z.lor _ _] => fail
           | _ => rewrite (lor_field a x n) by (Z.to_euclidean_division_equations; lia)
           end
    end
  end.

Section seg.
Context (base limit type dpl : Z) (class : seg_class) (gran : seg_granularity).
Context (Hb : is_u32 base) (Hl : 0 <= limit <= 0xfffff) (Ht : 0 <= type <= 15) (Hd : 0 <= dpl <= 3).

(** A descriptor as the sum of its fields. *)
Definition seg_sum : Z :=
  limit mod 65536 + base mod 65536 * 2 ^ 16 + (base / 65536 mod 256) * 2 ^ 32 + type * 2 ^ 40 +
  class_bit class * 2 ^ 44 + dpl * 2 ^ 45 + 2 ^ 47 + (limit / 65536) * 2 ^ 48 + 2 ^ 54 +
  gran_bit gran * 2 ^ 55 + (base / 16777216) * 2 ^ 56.

Lemma class_bit_range : 0 <= class_bit class <= 1.
Proof using. destruct class; cbn; lia. Qed.
Lemma gran_bit_range : 0 <= gran_bit gran <= 1.
Proof using. destruct gran; cbn; lia. Qed.

Lemma make_seg_desc_sum : make_seg_desc base limit class type dpl gran = Ok seg_sum.
Proof using All.
  unfold make_seg_desc. rewrite !assert_true by (rewrite ?andb_true_iff, ?Z.leb_le; lia). f_equal.
  unfold is_u32 in Hb. pose proof class_bit_range. pose proof gran_bit_range.
  change 0xffff with (Z.ones 16). change 0xff with (Z.ones 8). rewrite !Z.land_ones by lia.
  change 0xf0000 with (Z.shiftl (Z.ones 4) 16). change 0xff000000 with (Z.shiftl (Z.ones 8) 24).
  rewrite !land_field, Z.shiftr_div_pow2 by lia.
  assert (u32 (Z.shiftl base 16) = Z.shiftl (base mod 65536) 16) as ->.
  { unfold u32. rewrite !Z.shiftl_mul_pow2 by lia. change 4294967296 with (65536 * 2 ^ 16).
    by rewrite Z.mul_mod_distr_r. }
  repeat pack.
  unfold seg_sum. Z.to_euclidean_division_equations; lia.
Qed.

Lemma make_seg_desc_spec : ∃ d, make_seg_desc base limit class type dpl gran = Ok d ∧ is_u64 d ∧
  decode_seg d = mkSegment base limit type (match class with CLS_CODE_DATA => true | _ => false end) dpl true true
    (match gran with GRAN_PAGE => true | _ => false end).
Proof using All.
  exists seg_sum. split; [apply make_seg_desc_sum|]. unfold is_u32 in Hb.
  pose proof class_bit_range. pose proof gran_bit_range. unfold seg_sum. split.
  { unfold is_u64. Z.to_euclidean_division_equations; lia. }
  unfold decode_seg. rewrite !field_div, !testbit_div by lia.
  f_equal; repeat pack; try (Z.to_euclidean_division_equations; lia).
  - destruct class; cbn [class_bit]; [apply Z.eqb_neq|apply Z.eqb_eq]; Z.to_euclidean_division_equations; lia.
  - destruct gran; cbn [gran_bit]; [apply Z.eqb_neq|apply Z.eqb_eq]; Z.to_euclidean_division_equations; lia.
Qed.
End seg.

(** The table and the registers that [lgdt] and [ltr] load; [addr] is the address
    of [gdt] and [tss] that of the task-state segment. *)
Record gdt_state := mkGdt { gdt : list Z; gdtr : Z; tr : Z }.
Definition set_entry (sel d : Z) (t : list Z) : outcome (list Z) := of_option (zset t (sel / 8) d).
Definition gdt_init (addr tss : Z) (s : gdt_state) : outcome gdt_state :=
  t ← set_entry SEL_NULL 0 (gdt s);
  d ← make_code_desc 0; t ← set_entry SEL_KCSEG d t;
  d ← make_data_desc 0; t ← set_entry SEL_KDSEG d t;
  d ← make_code_desc 3; t ← set_entry SEL_UCSEG d t;
  d ← make_data_desc 3; t ← set_entry SEL_UDSEG d t;
  d ← make_tss_desc tss; t ← set_entry SEL_TSS d t;
  Ok (mkGdt t (make_gdtr_operand (SEL_CNT * 8 - 1) addr) SEL_TSS).
(** The segment that a selector designates. *)
Definition selected (s : gdt_state) (sel : Z) : option segment := decode_seg <$> zget (gdt s) (sel / 8).

Definition flat (type dpl : Z) : segment := mkSegment 0 0xfffff type true dpl true true true.

Lemma gdt_init_spec addr tss s : is_u32 tss → length (gdt s) = 6%nat →
  ∃ s', gdt_init addr tss s = Ok s' ∧
    selected s' SEL_KCSEG = Some (flat 10 0) ∧ selected s' SEL_KDSEG = Some (flat 2 0) ∧
    selected s' SEL_UCSEG = Some (flat 10 3) ∧ selected s' SEL_UDSEG = Some (flat 2 3) ∧
    selected s' SEL_TSS = Some (mkSegment tss 0x67 9 false 0 true true false) ∧
    zget (gdt s') 0 = Some 0 ∧ gdtr s' = make_gdtr_operand 47 addr ∧ tr s' = SEL_TSS.
Proof.
  intros Ht Hl. destruct (gdt s) as [|g0 [|g1 [|g2 [|g3 [|g4 [|g5 []]]]]]] eqn:E; try done.
  destruct (make_seg_desc_spec tss 0x67 9 0 CLS_SYSTEM GRAN_BYTE) as (d & Ed & _ & Hd); [done|lia..|].
  unfold gdt_init. rewrite E. unfold make_tss_desc. rewrite Ed. eexists. split; [reflexivity|].
  splits; try reflexivity. unfold selected. cbn [gdt zget fmap option_fmap option_map]. by rewrite <- Hd.
Qed.

(** * Gates *)

Definition make_gate (function dpl type : Z) : outcome Z :=
  assert (negb (function =? 0)) (
  assert ((0 <=? dpl) && (dpl <=? 3)) (
  assert ((0 <=? type) && (type <=? 15)) (
  let e0 := Z.lor (Z.land function 0xffff) (Z.shiftl SEL_KCSEG 16) in
  let e1 := Z.lor (Z.lor (Z.lor (Z.lor
              (Z.land function 0xffff0000)
              (Z.shiftl 1 15))
              (Z.shiftl dpl 13))
              (Z.shiftl 0 12))
              (Z.shiftl type 8) in
  Ok (Z.lor e0 (Z.shiftl e1 32))))).
Definition make_intr_gate (function dpl : Z) : outcome Z := make_gate function dpl 14.
Definition make_trap_gate (function dpl : Z) : outcome Z := make_gate function dpl 15.
Definition make_idtr_operand (limit base : Z) : Z := Z.lor limit (Z.shiftl base 16).

Record gate := mkGate { gate_offset : Z; gate_selector : Z; gate_type : Z; gate_dpl : Z; gate_present : bool }.
(** The processor clears the interrupt flag on the way through a gate of type 14. *)
Definition gate_masks (g : gate) : bool := gate_type g =? 14.
Definition decode_gate (d : Z) : gate :=
  mkGate (Z.lor (field d 0 16) (Z.shiftl (field d 48 16) 16)) (field d 16 16) (field d 40 5) (field d 45 2) (Z.testbit d 47).

Lemma make_gate_spec function dpl type :
  is_u32 function → function ≠ 0 → 0 <= dpl <= 3 → 0 <= type <= 15 →
  ∃ d, make_gate function dpl type = Ok d ∧ is_u64 d ∧ decode_gate d = mkGate function SEL_KCSEG type dpl true.
Proof.
  intros Hf Hn Hd Ht. unfold is_u32 in Hf.
  exists (function mod 65536 + 8 * 2 ^ 16 + type * 2 ^ 40 + dpl * 2 ^ 45 + 2 ^ 47 + function / 65536 * 2 ^ 48). split.
  - unfold make_gate. rewrite !assert_true
      by (rewrite ?andb_true_iff, ?Z.leb_le, ?negb_true_iff, ?Z.eqb_neq; lia). f_equal.
    assert (∀ a b c d e, Z.lor (Z.lor (Z.lor (Z.lor a b) c) d) e = Z.lor (Z.lor (Z.lor (Z.lor e d) c) b) a) as ->.
    { intros. apply Z.bits_inj'. intros i _. rewrite !Z.lor_spec.
      by destruct (Z.testbit a i), (Z.testbit b i), (Z.testbit c i), (Z.testbit d i), (Z.testbit e i). }
    change 0xffff with (Z.ones 16). rewrite Z.land_ones by lia.
    change 0xffff0000 with (Z.shiftl (Z.ones 16) 16). rewrite land_field by lia.
    rewrite (Z.shiftl_mul_pow2 type) by lia. unfold SEL_KCSEG. repeat pack. Z.to_euclidean_division_equations; lia.
  - split; [unfold is_u64; Z.to_euclidean_division_equations; lia|].
    unfold decode_gate, SEL_KCSEG. rewrite !field_div, !testbit_div by lia.
    f_equal; repeat pack; Z.to_euclidean_division_equations; lia.
Qed.

(** * The interrupt controllers *)

(** One 8259A: the initialisation word it expects next (0: none), whether ICW1
    asked for ICW4, the vector of its first line, the mask and the lines in
    service. *)
Record pic := mkPic { expects : Z; wants4 : bool; vector_base : Z; cascade : Z; imr : Z; isr : Z }.
(** A non-specific end of interrupt takes the line of highest priority, the
    lowest-numbered one, out of service. *)
Definition clear_lowest (isr : Z) : Z := Z.land isr (isr - 1).
Definition pic_command (v : Z) (p : pic) : pic :=
  if has v 0x10 then mkPic 2 (has v 1) (vector_base p) (cascade p) 0 0
  else if v =? 0x20 then mkPic (expects p) (wants4 p) (vector_base p) (cascade p) (imr p) (clear_lowest (isr p))
  else p.
Definition pic_data (v : Z) (p : pic) : pic :=
  if expects p =? 2 then mkPic 3 (wants4 p) (Z.land v 0xf8) (cascade p) (imr p) (isr p)
  else if expects p =? 3 then mkPic (if wants4 p then 4 else 0) (wants4 p) (vector_base p) v (imr p) (isr p)
  else if expects p =? 4 then mkPic 0 (wants4 p) (vector_base p) (cascade p) (imr p) (isr p)
  else mkPic 0 (wants4 p) (vector_base p) (cascade p) v (isr p).
Definition pics : Type := pic * pic.
Definition pic_outb (port v : Z) (s : pics) : pics :=
  let '(master, slave) := s in
  if port =? 0x20 then (pic_command v master, slave)
  else if port =? 0x21 then (pic_data v master, slave)
  else if port =? 0xa0 then (master, pic_command v slave)
  else if port =? 0xa1 then (master, pic_data v slave)
  else s.

Definition pic_init (s : pics) : pics :=
  foldl (λ s '(port, v), pic_outb port v s) s
    [(0x21, 0xff); (0xa1, 0xff);
     (0x20, 0x11); (0x21, 0x20); (0x21, 0x04); (0x21, 0x01);
     (0xa0, 0x11); (0xa1, 0x28); (0xa1, 0x02); (0xa1, 0x01);
     (0x21, 0x00); (0xa1, 0x00)].
Definition pic_end_of_interrupt (irq : Z) (s : pics) : outcome pics :=
  assert ((0x20 <=? irq) && (irq <? 0x30)) (
  let s := pic_outb 0x20 0x20 s in
  Ok (if 0x28 <=? irq then pic_outb 0xa0 0x20 s else s)).

(** The vector of one of the sixteen lines, if it is let through. *)
Definition delivered (s : pics) (line : Z) : option Z :=
  let '(p, i) := if line <? 8 then (s.1, line) else (s.2, line - 8) in
  if (expects p =? 0) && negb (Z.testbit (imr p) i) then Some (vector_base p + i) else None.

Lemma pic_init_programs s : pic_init s = (mkPic 0 true 0x20 4 0 0, mkPic 0 true 0x28 2 0 0).
Proof. by destruct s as [[] []]. Qed.
Lemma pic_init_delivers s line : 0 <= line < 16 → delivered (pic_init s) line = Some (0x20 + line).
Proof.
  intros Hl. rewrite pic_init_programs. unfold delivered. cbn [fst snd].
  destruct (Z.ltb_spec line 8); cbn [expects imr vector_base Z.eqb andb]; rewrite Z.bits_0; cbn [negb]; f_equal; lia.
Qed.

(** * The interrupt table *)

Definition INTR_CNT : Z := 256.
Inductive intr_level := INTR_OFF | INTR_ON.
(** [handlers] holds a null pointer as [None]. *)
Record idt_state := mkIdt { idt : list Z; handlers : list (option Z); names : list string; idtr : Z; pic_pair : pics }.

(** The entry points of intr-stubs.S. *)
Section idt.
Context (intr_stubs : list Z).

Definition init_gate (i : Z) (t : list Z) : outcome (list Z) :=
  stub ← of_option (zget intr_stubs i);
  d ← make_intr_gate stub 0;
  of_option (zset t i d).
Definition exception_names : list (nat * string) :=
  [(0, "#DE Divide Error"); (1, "#DB Debug Exception"); (2, "NMI Interrupt"); (3, "#BP Breakpoint Exception");
   (4, "#OF Overflow Exception"); (5, "#BR BOUND Range Exceeded Exception"); (6, "#UD Invalid Opcode Exception");
   (7, "#NM Device Not Available Exception"); (8, "#DF Double Fault Exception"); (9, "Coprocessor Segment Overrun");
   (10, "#TS Invalid TSS Exception"); (11, "#NP Segment Not Present"); (12, "#SS Stack Fault Exception");
   (13, "#GP General Protection Exception"); (14, "#PF Page-Fault Exception");
   (16, "#MF x87 FPU Floating-Point Error"); (17, "#AC Alignment Check Exception");
   (18, "#MC Machine-Check Exception"); (19, "#XF SIMD Floating-Point Exception")]%nat%string.
Definition init_names : list string :=
  foldl (λ l '(i, n), <[i := n]> l) (replicate (Z.to_nat INTR_CNT) "unknown"%string) exception_names.
Definition intr_init (addr : Z) (s : idt_state) : outcome idt_state :=
  let pics := pic_init (pic_pair s) in
  t ← for_up (Z.to_nat INTR_CNT) 0 init_gate (idt s);
  Ok (mkIdt t (handlers s) init_names (make_idtr_operand (INTR_CNT * 8 - 1) addr) pics).

Definition register_handler (vec_no dpl : Z) (level : intr_level) (handler : Z) (name : string) (s : idt_state) : outcome idt_state :=
  old ← of_option (zget (handlers s) vec_no);
  assert (bool_decide (old = None)) (
  stub ← of_option (zget intr_stubs vec_no);
  d ← (match level with INTR_ON => make_trap_gate stub dpl | INTR_OFF => make_intr_gate stub dpl end);
  t ← of_option (zset (idt s) vec_no d);
  h ← of_option (zset (handlers s) vec_no (if handler =? 0 then None else Some handler));
  n ← of_option (zset (names s) vec_no name);
  Ok (mkIdt t h n (idtr s) (pic_pair s))).
Definition intr_register_ext (vec_no handler : Z) (name : string) (s : idt_state) : outcome idt_state :=
  assert ((0x20 <=? vec_no) && (vec_no <=? 0x2f)) (register_handler vec_no 0 INTR_OFF handler name s).
Definition intr_register_int (vec_no dpl : Z) (level : intr_level) (handler : Z) (name : string) (s : idt_state) : outcome idt_state :=
  assert ((vec_no <? 0x20) || (0x2f <? vec_no)) (register_handler vec_no dpl level handler name s).
Definition intr_name (vec : Z) (s : idt_state) : outcome string := of_option (zget (names s) vec).

(** The stubs as the assembler lays them out: one for every vector. *)
Context (Hcnt : length intr_stubs = 256%nat) (Hstub : Forall (λ a, is_u32 a ∧ a ≠ 0) intr_stubs).

Record idt_wf (s : idt_state) : Prop := {
  iw_idt : length (idt s) = 256%nat;
  iw_handlers : length (handlers s) = 256%nat;
  iw_names : length (names s) = 256%nat
}.
(** Where a vector leads, and how. *)
Definition entry (s : idt_state) (v : Z) : option gate := decode_gate <$> zget (idt s) v.
Definition stub_gate (v type dpl : Z) : option gate :=
  (λ a, mkGate a SEL_KCSEG type dpl true) <$> zget intr_stubs v.

Lemma stub_at v : 0 <= v < 256 → ∃ a, zget intr_stubs v = Some a ∧ is_u32 a ∧ a ≠ 0.
Proof using Hcnt Hstub.
  intros Hv. destruct (zget_is_Some intr_stubs v) as [a Ea]; [rewrite Hcnt; lia|]. exists a. split; [done|].
  unfold zget in Ea. destruct (v <? 0); [done|]. by apply (lookup_Forall _ _ _ _ Hstub Ea).
Qed.

Lemma intr_init_spec addr s : length (idt s) = 256%nat → length (handlers s) = 256%nat →
  ∃ s', intr_init addr s = Ok s' ∧ idt_wf s' ∧ handlers s' = handlers s ∧
    (∀ v, 0 <= v < 256 → entry s' v = stub_gate v 14 0) ∧
    idtr s' = make_idtr_operand 2047 addr ∧ pic_pair s' = pic_init (pic_pair s).
Proof using Hcnt Hstub.
  intros Hl Hh. unfold intr_init.
  destruct (for_up_inv (λ k t, length t = 256%nat ∧ ∀ v, 0 <= v < k → decode_gate <$> zget t v = stub_gate v 14 0)
    init_gate (Z.to_nat INTR_CNT) 0 (idt s)) as (t & E & Ht & Hg).
  - split; [done|]. lia.
  - intros k t Hk [Ht Hg]. unfold INTR_CNT in Hk. destruct (stub_at k) as (a & Ea & Ha & Hn); [lia|].
    destruct (make_gate_spec a 0 14 Ha Hn) as (d & Ed & _ & Hd); [lia..|].
    unfold init_gate, make_intr_gate. rewrite Ea. cbn [of_option mbind outcome_bind]. rewrite Ed. cbn [mbind outcome_bind].
    rewrite zset_Some by (rewrite Ht; lia). eexists. split; [done|]. split; [by rewrite length_insert|].
    intros v Hv. rewrite zget_insert by (rewrite Ht; lia). destruct (Z.eqb_spec k v) as [<-|].
    + unfold stub_gate. rewrite Ea. cbn. by rewrite Hd.
    + apply Hg. lia.
  - rewrite E. cbn [mbind outcome_bind]. eexists. split; [done|]. splits; try done.
Qed.

Lemma register_handler_spec v dpl level handler name s :
  idt_wf s → 0 <= v < 256 → 0 <= dpl <= 3 →
  match zget (handlers s) v with
  | Some None => ∃ s', register_handler v dpl level handler name s = Ok s' ∧ idt_wf s' ∧
      entry s' v = stub_gate v (match level with INTR_ON => 15 | INTR_OFF => 14 end) dpl ∧
      zget (handlers s') v = Some (if handler =? 0 then None else Some handler) ∧
      intr_name v s' = Ok name ∧
      ∀ v', v' ≠ v → entry s' v' = entry s v' ∧ zget (handlers s') v' = zget (handlers s) v' ∧ intr_name v' s' = intr_name v' s
  | _ => register_handler v dpl level handler name s = Err AssertFail
  end.
Proof using Hcnt Hstub.
  intros [Hi Hh Hn] Hv Hd. destruct (zget_is_Some (handlers s) v) as [old Eo]; [rewrite Hh; lia|].
  unfold register_handler. rewrite Eo. cbn [of_option mbind outcome_bind].
  destruct old as [f|]; [done|]. rewrite bool_decide_eq_true_2 by done. cbn [assert].
  destruct (stub_at v Hv) as (a & Ea & Ha & Hnz). rewrite Ea. cbn [of_option mbind outcome_bind].
  assert (∃ d, (match level with INTR_ON => make_trap_gate a dpl | INTR_OFF => make_intr_gate a dpl end) = Ok d ∧
    decode_gate d = mkGate a SEL_KCSEG (match level with INTR_ON => 15 | INTR_OFF => 14 end) dpl true) as (d & Ed & Hg).
  { destruct level; [destruct (make_gate_spec a dpl 14 Ha Hnz Hd) as (d & ? & _ & ?)|
      destruct (make_gate_spec a dpl 15 Ha Hnz Hd) as (d & ? & _ & ?)]; try lia; by exists d. }
  rewrite Ed. cbn [mbind outcome_bind]. rewrite !zset_Some by (rewrite ?Hi, ?Hh, ?Hn; lia). cbn [of_option mbind outcome_bind].
  eexists. split; [done|]. unfold entry, intr_name, stub_gate. cbn [idt handlers names].
  splits; [split; cbn; by rewrite length_insert|..].
  - rewrite zget_insert by (rewrite Hi; lia). rewrite Z.eqb_refl, Ea. cbn. by rewrite Hg.
  - rewrite zget_insert by (rewrite Hh; lia). by rewrite Z.eqb_refl.
  - rewrite zget_insert by (rewrite Hn; lia). by rewrite Z.eqb_refl.
  - intros v' Hne. rewrite !zget_insert by (rewrite ?Hi, ?Hh, ?Hn; lia).
    destruct (Z.eqb_spec v v'); [congruence|done].
Qed.
End idt.

(** The effect of a successful registration: the vector leads to its stub through
    a gate of the given type and privilege, the handler is recorded, and the other
    vectors stay as they are. *)
Definition registered (stubs : list Z) (s : idt_state) (v type dpl handler : Z) (s' : idt_state) : Prop :=
  idt_wf s' ∧ entry s' v = stub_gate stubs v type dpl ∧ zget (handlers s') v = Some (Some handler) ∧
  ∀ v', v' ≠ v → entry s' v' = entry s v' ∧ zget (handlers s') v' = zget (handlers s) v'.

Lemma register_registered stubs v dpl level handler name s :
  length stubs = 256%nat → Forall (λ a, is_u32 a ∧ a ≠ 0) stubs →
  idt_wf s → 0 <= v < 256 → 0 <= dpl <= 3 → handler ≠ 0 → zget (handlers s) v = Some None →
  ∃ s', register_handler stubs v dpl level handler name s = Ok s' ∧
    registered stubs s v (match level with INTR_ON => 15 | INTR_OFF => 14 end) dpl handler s'.
Proof.
  intros Hc Hs Hw Hv Hd Hh Hf. pose proof (register_handler_spec stubs Hc Hs v dpl level handler name s Hw Hv Hd) as H.
  rewrite Hf in H. destruct H as (s' & E & Hw' & He & Hh' & _ & Hrest). exists s'. split; [done|].
  destruct (Z.eqb_spec handler 0); [done|]. split; [done|]. split; [done|]. split; [done|].
  intros v' Hne. destruct (Hrest v' Hne) as (? & ? & _). done.
Qed.
Lemma register_taken stubs v dpl level handler name s f :
  zget (handlers s) v = Some (Some f) → register_handler stubs v dpl level handler name s = Err AssertFail.
Proof. intros E. unfold register_handler. by rewrite E. Qed.

(** C29: the tables of the processor once [gdt_init] and [intr_init] have run, read
    as the processor reads them: the kernel and user segments are flat, of ring 0
    and ring 3, and the task-state segment is where the kernel put it; every
    vector leads to its own stub in the kernel code segment with interrupts off
    and not for user code; the sixteen interrupt lines arrive at vectors 0x20 to
    0x2f.  After that [intr_register_ext] takes exactly the vectors 0x20 to 0x2f
    and [intr_register_int] exactly the others; each changes only the entry of its
    vector, to a gate that masks interrupts unless the handler asked to run with
    them on; and registering a vector that has a handler, or a vector of the
    other kind, fails an assertion. *)
Theorem descriptor_tables_correct (intr_stubs : list Z) gdt_addr idt_addr tss g s :
  length intr_stubs = 256%nat → Forall (λ a, is_u32 a ∧ a ≠ 0) intr_stubs → is_u32 tss →
  length (gdt g) = 6%nat → length (idt s) = 256%nat → length (handlers s) = 256%nat →
  (∃ g', gdt_init gdt_addr tss g = Ok g' ∧
     selected g' SEL_KCSEG = Some (flat 10 0) ∧ selected g' SEL_KDSEG = Some (flat 2 0) ∧
     selected g' SEL_UCSEG = Some (flat 10 3) ∧ selected g' SEL_UDSEG = Some (flat 2 3) ∧
     last_byte (flat 10 0) = 0xffffffff ∧ selected g' (tr g') = Some (mkSegment tss 0x67 9 false 0 true true false)) ∧
  (∃ s', intr_init intr_stubs idt_addr s = Ok s' ∧ idt_wf s' ∧
     (∀ v, 0 <= v < 256 → entry s' v = stub_gate intr_stubs v 14 0) ∧
     (∀ line, 0 <= line < 16 → delivered (pic_pair s') line = Some (0x20 + line))) ∧
  (∀ t v handler name, idt_wf t → 0 <= v < 256 → handler ≠ 0 →
     if (0x20 <=? v) && (v <=? 0x2f) && bool_decide (zget (handlers t) v = Some None) then
       ∃ t', intr_register_ext intr_stubs v handler name t = Ok t' ∧ registered intr_stubs t v 14 0 handler t'
     else intr_register_ext intr_stubs v handler name t = Err AssertFail) ∧
  (∀ t v dpl level handler name, idt_wf t → 0 <= v < 256 → 0 <= dpl <= 3 → handler ≠ 0 →
     if negb ((0x20 <=? v) && (v <=? 0x2f)) && bool_decide (zget (handlers t) v = Some None) then
       ∃ t', intr_register_int intr_stubs v dpl level handler name t = Ok t' ∧
         registered intr_stubs t v (match level with INTR_ON => 15 | INTR_OFF => 14 end) dpl handler t'
     else intr_register_int intr_stubs v dpl level handler name t = Err AssertFail).
Proof.
  intros Hc Hs Htss Hg Hi Hh. splits.
  - destruct (gdt_init_spec gdt_addr tss g Htss Hg) as (g' & E & ? & ? & ? & ? & ? & _ & _ & Htr).
    exists g'. rewrite Htr. splits; done.
  - destruct (intr_init_spec intr_stubs Hc Hs idt_addr s Hi Hh) as (s' & E & Hw & _ & He & _ & Hp).
    exists s'. rewrite Hp. splits; try done. intros line. apply pic_init_delivers.
  - intros t v handler name Hw Hv Hn. unfold intr_register_ext. destruct ((0x20 <=? v) && (v <=? 0x2f)); [|done].
    cbn [andb assert]. case_bool_decide as Hf; [by apply (register_registered intr_stubs v 0 INTR_OFF)|].
    destruct (zget_is_Some (handlers t) v) as [[f|] E]; [rewrite (iw_handlers _ Hw); lia| |congruence]. by eapply register_taken.
  - intros t v dpl level handler name Hw Hv Hd Hn. unfold intr_register_int.
    assert ((v <? 0x20) || (0x2f <? v) = negb ((0x20 <=? v) && (v <=? 0x2f))) as -> by (bcases; done || lia).
    destruct ((0x20 <=? v) && (v <=? 0x2f)); [done|].
    cbn [andb negb assert]. case_bool_decide as Hf; [by apply register_registered|].
    destruct (zget_is_Some (handlers t) v) as [[f|] E]; [rewrite (iw_handlers _ Hw); lia| |congruence]. by eapply register_taken.
Qed.

(** Stubs sixteen bytes apart, as the assembler aligns them. *)
Definition sample_stubs : list Z := (λ i, 0xc0021000 + 16 * i) <$> seqZ 0 256.
Lemma sample_stubs_ok : length sample_stubs = 256%nat ∧ Forall (λ a, is_u32 a ∧ a ≠ 0) sample_stubs.
Proof.
  split; [reflexivity|]. apply Forall_fmap, Forall_forall. intros i Hi. apply elem_of_seqZ in Hi.
  unfold is_u32, compose. lia.
Qed.
Definition blank_idt : idt_state :=
  mkIdt (replicate 256 0) (replicate 256 None) [] 0 (mkPic 0 false 0 0 0 0, mkPic 0 false 8 0 0 0).
(** The timer takes its vector, and taking it twice fails. *)
Lemma descriptor_tables_correct_witness : ∃ s t,
  intr_init sample_stubs 0xc0030000 blank_idt = Ok s ∧
  intr_register_ext sample_stubs 0x20 0xc0020400 "8254 Timer" s = Ok t ∧
  entry t 0x20 = Some (mkGate 0xc0021200 SEL_KCSEG 14 0 true) ∧
  intr_register_ext sample_stubs 0x20 0xc0020500 "again" t = Err AssertFail.
Proof.
  destruct sample_stubs_ok as [Hc Hs].
  destruct (descriptor_tables_correct sample_stubs 0xc0031000 0xc0030000 0xc0200000 (mkGdt (replicate 6 0) 0 0) blank_idt)
    as (_ & (s & Es & Hw & _) & Hext & _);
    [exact Hc|exact Hs|split; [intros [=]|reflexivity]|reflexivity|reflexivity|reflexivity|].
  assert (handlers s = replicate 256 None) as Hh.
  { unfold intr_init in Es. destruct (for_up _ _ _ _) in Es; [injection Es as <-|discriminate Es]. reflexivity. }
  pose proof (Hext s 0x20 0xc0020400 "8254 Timer"%string Hw ltac:(lia) ltac:(lia)) as H1.
  rewrite Hh in H1. destruct H1 as (t & Et & Hwt & He & Hht & _).
  pose proof (Hext t 0x20 0xc0020500 "again"%string Hwt ltac:(lia) ltac:(lia)) as H2.
  rewrite Hht in H2. exists s, t. split; [exact Es|]. split; [exact Et|]. split; [exact He|exact H2].
Defined.
