(* ===== verification/Ata.v ===== *)
(** The driver of the IDE disks (devices/disk.c) on top of an ATA channel.

    The hardware of a channel is a register file with up to two drives.  A
    command keeps the channel busy for a number of port accesses that the model
    leaves open ([delays], none when the list is used up) and then raises the interrupt that the ATA standard
    prescribes: when data can be read, and when written data is on the disk.  A
    register of an absent drive reads as whatever the bus floats to.  The lock of
    a channel makes the operations on it atomic; interrupts arrive in between.
    Time spent in [timer_msleep] and the like is not counted. *)
From S2P Require Import Prelude CStdlib.

(** * The hardware *)

Definition reg_data : Z := 0.
Definition reg_error : Z := 1.
Definition reg_nsect : Z := 2.
Definition reg_lbal : Z := 3.
Definition reg_lbam : Z := 4.
Definition reg_lbah : Z := 5.
Definition reg_device : Z := 6.
Definition reg_status : Z := 7.
Definition reg_command : Z := reg_status.
Definition reg_ctl : Z := 0x206.
Definition reg_alt_status : Z := reg_ctl.

Definition STA_BSY : Z := 0x80.
Definition STA_DRDY : Z := 0x40.
Definition STA_DRQ : Z := 0x08.
Definition CTL_SRST : Z := 0x04.
Definition DEV_MBS : Z := 0xa0.
Definition DEV_LBA : Z := 0x40.
Definition DEV_DEV : Z := 0x10.
Definition CMD_IDENTIFY_DEVICE : Z := 0xec.
Definition CMD_READ_SECTOR_RETRY : Z := 0x20.
Definition CMD_WRITE_SECTOR_RETRY : Z := 0x30.

(** A drive that is not a disk is one with packet commands. *)
Record drive := mkDrive { is_disk : bool; sectors : list (list Z); identity : list Z }.
(** The registers that each drive keeps; both hear every write. *)
Record regs := mkRegs { r_error : Z; r_nsect : Z; r_lbal : Z; r_lbam : Z; r_lbah : Z }.
Inductive phase := Idle | Sending (bs : list Z) | Receiving (lba : Z) (bs : list Z).
Inductive job := ToSend (bs : list Z) | ToReceive (lba : Z) | ToCommit (dev : nat) (lba : Z) (bs : list Z) | ToAbort | ToReset.

Record hw := mkHw {
  drives : list (option drive * regs);
  r_device : Z;
  r_ctl : Z;
  now : phase;
  work : option (nat * job);
  floating : Z;
  delays : list nat
}.
Definition with_drives (l : list (option drive * regs)) (h : hw) : hw :=
  mkHw l (r_device h) (r_ctl h) (now h) (work h) (floating h) (delays h).
Definition with_device (v : Z) (h : hw) : hw :=
  mkHw (drives h) v (r_ctl h) (now h) (work h) (floating h) (delays h).
Definition with_ctl (v : Z) (h : hw) : hw :=
  mkHw (drives h) (r_device h) v (now h) (work h) (floating h) (delays h).
Definition with_now (p : phase) (h : hw) : hw :=
  mkHw (drives h) (r_device h) (r_ctl h) p (work h) (floating h) (delays h).
Definition with_work (w : option (nat * job)) (h : hw) : hw :=
  mkHw (drives h) (r_device h) (r_ctl h) (now h) w (floating h) (delays h).
Definition with_delays (l : list nat) (h : hw) : hw :=
  mkHw (drives h) (r_device h) (r_ctl h) (now h) (work h) (floating h) l.

(** The drive selected, and the sector addressed in LBA mode. *)
Definition selected (h : hw) : nat := if has (r_device h) DEV_DEV then 1%nat else 0%nat.
Definition responding (h : hw) : option (drive * regs) :=
  match drives h !! selected h with Some (Some d, r) => Some (d, r) | _ => None end.
Definition lba (h : hw) (r : regs) : Z :=
  r_lbal r + 256 * r_lbam r + 65536 * r_lbah r + 16777216 * Z.land (r_device h) 15.

(** The registers after a reset: the signature of a disk or of a packet drive. *)
Definition signature (d : drive) : regs :=
  if is_disk d then mkRegs 1 1 1 0 0 else mkRegs 1 1 1 0x14 0xeb.
Definition reset_drive (dr : option drive * regs) : option drive * regs :=
  match dr with (Some d, _) => (Some d, signature d) | (None, r) => (None, r) end.
Definition set_error (v : Z) (dr : option drive * regs) : option drive * regs :=
  (dr.1, mkRegs v (r_nsect dr.2) (r_lbal dr.2) (r_lbam dr.2) (r_lbah dr.2)).
Definition store_sector (lba : Z) (bs : list Z) (dr : option drive * regs) : option drive * regs :=
  ((λ d, mkDrive (is_disk d) (<[Z.to_nat lba := bs]> (sectors d)) (identity d)) <$> dr.1, dr.2).

(** The end of a command, and whether it raises an interrupt. *)
Definition finish (j : job) (h : hw) : hw * bool :=
  let h := with_work None h in
  match j with
  | ToSend bs => (with_now (Sending bs) h, true)
  | ToReceive a => (with_now (Receiving a []) h, false)
  | ToCommit dev a bs => (with_now Idle (with_drives (alter (store_sector a bs) dev (drives h)) h), true)
  | ToAbort => (with_now Idle (with_drives (alter (set_error 4) (selected h) (drives h)) h), true)
  | ToReset => (with_now Idle (with_drives (reset_drive <$> drives h) h), false)
  end.
Definition start (j : job) (h : hw) : hw * bool :=
  match delays h with
  | S n :: l => (with_work (Some (S n, j)) (with_delays l h), false)
  | l => finish j (with_delays (drop 1 l) h)
  end.
Definition tick (h : hw) : hw * bool :=
  match work h with
  | Some (S (S n), j) => (with_work (Some (S n, j)) h, false)
  | Some (_, j) => finish j h
  | None => (h, false)
  end.
(** The command in progress, if any, runs to its end. *)
Definition run_out (h : hw) : hw * bool := match work h with Some (_, j) => finish j h | None => (h, false) end.

Definition command (v : Z) (h : hw) : hw * bool :=
  match responding h with
  | None => (h, false)
  | Some (d, r) =>
      if v =? CMD_IDENTIFY_DEVICE then start (if is_disk d then ToSend (identity d) else ToAbort) h
      else
        match (if is_disk d && has (r_device h) DEV_LBA && (r_nsect r =? 1) then zget (sectors d) (lba h r) else None) with
        | None => start ToAbort h
        | Some bs =>
            if v =? CMD_READ_SECTOR_RETRY then start (ToSend bs) h
            else if v =? CMD_WRITE_SECTOR_RETRY then start (ToReceive (lba h r)) h
            else start ToAbort h
        end
  end.

(** Writing a register; a busy channel ignores everything but the control and the
    device register.  A reset selects device 0. *)
Definition set_reg (reg v : Z) (r : regs) : regs :=
  let '(mkRegs e n l m h) := r in
  if reg =? reg_nsect then mkRegs e v l m h
  else if reg =? reg_lbal then mkRegs e n v m h
  else if reg =? reg_lbam then mkRegs e n l v h
  else mkRegs e n l m v.
Definition write_reg (reg v : Z) (h : hw) : hw * bool :=
  if reg =? reg_ctl then
    let released := has (r_ctl h) CTL_SRST && negb (has v CTL_SRST) in
    let h := with_ctl v (if has v CTL_SRST then with_device 0 h else h) in
    if released && existsb (λ dr, bool_decide (is_Some dr.1)) (drives h) then start ToReset h else (h, false)
  else if reg =? reg_device then (with_device v h, false)
  else if bool_decide (is_Some (work h)) then (h, false)
  else if reg =? reg_command then command v h
  else (with_drives (prod_map id (set_reg reg v) <$> drives h) h, false).

Definition status (h : hw) (d : drive) : Z :=
  if bool_decide (is_Some (work h)) then STA_BSY
  else Z.lor (if is_disk d then STA_DRDY else 0) (match now h with Idle => 0 | _ => STA_DRQ end).
Definition read_reg (reg : Z) (h : hw) : Z :=
  match responding h with
  | None => floating h
  | Some (d, r) =>
      if reg =? reg_error then r_error r
      else if reg =? reg_nsect then r_nsect r
      else if reg =? reg_lbal then r_lbal r
      else if reg =? reg_lbam then r_lbam r
      else if reg =? reg_lbah then r_lbah r
      else status h d
  end.

(** The data register, sixteen bits wide. *)
Definition read_data (h : hw) : Z * hw :=
  match now h with
  | Sending (b0 :: b1 :: bs) => (b0 + 256 * b1, with_now (match bs with [] => Idle | _ => Sending bs end) h)
  | _ => (floating h + 256 * floating h, h)
  end.
Definition write_data (v : Z) (h : hw) : hw * bool :=
  match now h with
  | Receiving a bs =>
      let bs := bs ++ [u8 v; u8 (Z.shiftr v 8)] in
      if (512 <=? length bs)%nat then start (ToCommit (selected h) a bs) (with_now Idle h)
      else (with_now (Receiving a bs) h, false)
  | _ => (h, false)
  end.

(** * The driver *)

Record disk := mkDisk { is_ata : bool; capacity : Z; read_cnt : Z; write_cnt : Z }.
Inductive size_unit := GB | MB | KB | Bytes.
Inductive message :=
  | IdleTimeout (dev : Z) | BusyWaiting (dev : Z) | BusyOk | BusyFailed | UnexpectedInterrupt
  | Detected (dev sectors size : Z) (u : size_unit) (model serial : list Z)
  | Stats (dev reads writes : Z).

(** [level] is the interrupt level of the thread that uses the channel. *)
Record channel := mkChannel {
  port : hw;
  reg_base : Z;
  irq : Z;
  expecting_interrupt : bool;
  completion_wait : Z;
  devices : list disk;
  level : bool;
  console : list message
}.
Abbreviation CM := (M channel).
Definition set_port (h : hw) (c : channel) : channel :=
  mkChannel h (reg_base c) (irq c) (expecting_interrupt c) (completion_wait c) (devices c) (level c) (console c).
Definition set_expecting (b : bool) (c : channel) : channel :=
  mkChannel (port c) (reg_base c) (irq c) b (completion_wait c) (devices c) (level c) (console c).
Definition set_completion (v : Z) (c : channel) : channel :=
  mkChannel (port c) (reg_base c) (irq c) (expecting_interrupt c) v (devices c) (level c) (console c).
Definition set_devices (l : list disk) (c : channel) : channel :=
  mkChannel (port c) (reg_base c) (irq c) (expecting_interrupt c) (completion_wait c) l (level c) (console c).
Definition printed (m : message) (c : channel) : channel :=
  mkChannel (port c) (reg_base c) (irq c) (expecting_interrupt c) (completion_wait c) (devices c) (level c)
    (console c ++ [m]).

Definition completion_up (c : channel) : channel := set_completion (u32 (completion_wait c + 1)) c.

(** The work of [interrupt_handler] for one channel; reading the status register
    acknowledges the interrupt and changes nothing else. *)
Definition interrupt (c : channel) : channel :=
  if expecting_interrupt c then completion_up c else printed UnexpectedInterrupt c.
Definition deliver (hb : hw * bool) (c : channel) : channel :=
  let c := set_port hb.1 c in if hb.2 && level c then interrupt c else c.

Definition outb (reg v : Z) : CM () :=
  modS (λ c, deliver (tick (port c)) c);;
  modS (λ c, deliver (write_reg reg (u8 v) (port c)) c).
Definition inb (reg : Z) : CM Z :=
  modS (λ c, deliver (tick (port c)) c);;
  c ← getS; mret (read_reg reg (port c)).
Definition inw : CM Z :=
  c ← getS; let '(v, h) := read_data (port c) in putS (set_port h c);; mret v.
Definition outw (v : Z) : CM () := modS (λ c, deliver (write_data v (port c)) c).

(** [sema_down (&c->completion_wait)]: the thread sleeps until the handler wakes
    it, which only the end of the command in progress can bring about. *)
Definition completion_down : CM () :=
  c ← getS;
  (if completion_wait c =? 0 then modS (λ c, deliver (run_out (port c)) c) else mret ());;
  c ← getS;
  if completion_wait c =? 0 then fail OutOfFuel else putS (set_completion (u32 (completion_wait c - 1)) c).

Definition print (m : message) : CM () := modS (printed m).
Definition get_disk (dev : Z) : CM disk := c ← getS; pureM (of_option (zget (devices c) dev)).
Definition put_disk (dev : Z) (d : disk) : CM () :=
  c ← getS; l ← pureM (of_option (zset (devices c) dev d)); putS (set_devices l c).

Fixpoint poll_idle (n : nat) (dev : Z) : CM () :=
  match n with
  | O => print (IdleTimeout dev)
  | S n =>
      s ← inb reg_status;
      if Z.land s (Z.lor STA_BSY STA_DRQ) =? 0 then mret () else poll_idle n dev
  end.
Definition wait_until_idle (dev : Z) : CM () := poll_idle 1000 dev.

Fixpoint busy_loop (n : nat) (i dev : Z) : CM bool :=
  match n with
  | O => print BusyFailed;; mret false
  | S n =>
      (if i =? 700 then print (BusyWaiting dev) else mret ());;
      s ← inb reg_alt_status;
      if negb (has s STA_BSY) then
        (if 700 <=? i then print BusyOk else mret ());;
        s ← inb reg_alt_status;
        mret (has s STA_DRQ)
      else busy_loop n (i + 1) dev
  end.
Definition wait_while_busy (dev : Z) : CM bool := busy_loop 3000 0 dev.

Definition select_device (dev : Z) : CM () :=
  outb reg_device (if dev =? 1 then Z.lor DEV_MBS DEV_DEV else DEV_MBS);;
  _ ← inb reg_alt_status;
  mret ().
Definition select_device_wait (dev : Z) : CM () :=
  wait_until_idle dev;; select_device dev;; wait_until_idle dev.

Definition select_sector (dev sec_no : Z) : CM () :=
  d ← get_disk dev;
  check (sec_no <? capacity d);;
  check (sec_no <? Z.shiftl 1 28);;
  select_device_wait dev;;
  outb reg_nsect 1;;
  outb reg_lbal sec_no;;
  outb reg_lbam (Z.shiftr sec_no 8);;
  outb reg_lbah (Z.shiftr sec_no 16);;
  outb reg_device (Z.lor (Z.lor (Z.lor DEV_MBS DEV_LBA) (if dev =? 1 then DEV_DEV else 0)) (Z.shiftr sec_no 24)).

Definition issue_pio_command (cmd : Z) : CM () :=
  c ← getS;
  check (level c);;
  modS (set_expecting true);;
  outb reg_command cmd.

(** [insw] and [outsw]: two bytes of memory per word. *)
Fixpoint insw (n : nat) : CM (list Z) :=
  match n with
  | O => mret []
  | S n => w ← inw; bs ← insw n; mret (u8 w :: u8 (Z.shiftr w 8) :: bs)
  end.
Fixpoint outsw (n : nat) (bs : list Z) : CM () :=
  match n with
  | O => mret ()
  | S n =>
      match bs with
      | b0 :: b1 :: bs => outw (b0 + 256 * b1);; outsw n bs
      | _ => fail WildAccess
      end
  end.
Definition input_sector : CM (list Z) := insw 256.
Definition output_sector (bs : list Z) : CM () := outsw 256 bs.

Definition disk_read (dev sec_no : Z) : CM (list Z) :=
  select_sector dev sec_no;;
  issue_pio_command CMD_READ_SECTOR_RETRY;;
  completion_down;;
  ok ← wait_while_busy dev;
  if negb (ok : bool) then fail KernelPanic
  else
    bs ← input_sector;
    d ← get_disk dev;
    put_disk dev (mkDisk (is_ata d) (capacity d) (s64 (read_cnt d + 1)) (write_cnt d));;
    mret bs.
Definition disk_write (dev sec_no : Z) (bs : list Z) : CM () :=
  select_sector dev sec_no;;
  issue_pio_command CMD_WRITE_SECTOR_RETRY;;
  ok ← wait_while_busy dev;
  if negb (ok : bool) then fail KernelPanic
  else
    output_sector bs;;
    completion_down;;
    d ← get_disk dev;
    put_disk dev (mkDisk (is_ata d) (capacity d) (read_cnt d) (s64 (write_cnt d + 1))).

(** * Detection *)

Definition probe (dev : Z) : CM bool :=
  select_device dev;;
  outb reg_nsect 0x55;; outb reg_lbal 0xaa;;
  outb reg_nsect 0xaa;; outb reg_lbal 0x55;;
  outb reg_nsect 0x55;; outb reg_lbal 0xaa;;
  n ← inb reg_nsect;
  if n =? 0x55 then l ← inb reg_lbal; mret (l =? 0xaa) else mret false.
Fixpoint slave_loop (n : nat) : CM () :=
  match n with
  | O => mret ()
  | S n =>
      s ← inb reg_nsect;
      ready ← (if s =? 1 then l ← inb reg_lbal; mret (l =? 1) else mret false);
      if (ready : bool) then mret () else slave_loop n
  end.
Definition reset_channel : CM () :=
  present0 ← probe 0;
  present1 ← probe 1;
  outb reg_ctl 0;;
  outb reg_ctl CTL_SRST;;
  outb reg_ctl 0;;
  (if (present0 : bool) then select_device 0;; _ ← wait_while_busy 0; mret () else mret ());;
  (if (present1 : bool) then select_device 1;; slave_loop 3000;; _ ← wait_while_busy 1; mret () else mret ()).

Definition check_device_type (dev : Z) : CM bool :=
  select_device dev;;
  error ← inb reg_error;
  lbam ← inb reg_lbam;
  lbah ← inb reg_lbah;
  status ← inb reg_status;
  d ← get_disk dev;
  if (negb (error =? 1) && (negb (error =? 0x81) || (dev =? 1))) || (Z.land status STA_DRDY =? 0)
     || negb (Z.land status STA_BSY =? 0)
  then put_disk dev (mkDisk false (capacity d) (read_cnt d) (write_cnt d));; mret (negb (error =? 0x81))
  else
    put_disk dev (mkDisk (((lbam =? 0) && (lbah =? 0)) || ((lbam =? 0x3c) && (lbah =? 0xc3)))
      (capacity d) (read_cnt d) (write_cnt d));;
    mret true.

(** [print_ata_string]: pairs of bytes swapped, trailing blanks and nulls
    dropped. *)
Fixpoint string_size (s : list Z) (size : nat) : nat :=
  match size with
  | O => O
  | S n =>
      let c := default 0 (s !! Z.to_nat (Z.lxor (Z.of_nat n) 1)) in
      if negb (c =? 0) && negb (CStdlib.isspace c) then S n else string_size s n
  end.
Definition ata_string (s : list Z) (size : nat) : list Z :=
  (λ i : nat, default 0 (s !! Z.to_nat (Z.lxor (Z.of_nat i) 1))) <$> seq 0 (string_size s size).

Definition size_text (n : Z) : Z * size_unit :=
  if 2 * 1024 * 1024 <? n then (n / (2 * 1024 * 1024), GB)
  else if 2 * 1024 <? n then (n / (2 * 1024), MB)
  else if 2 <? n then (n / 2, KB)
  else (u32 (n * 512), Bytes).
Definition id_word (id : list Z) (k : nat) : Z := default 0 (id !! (2 * k)%nat) + 256 * default 0 (id !! (2 * k + 1)%nat).

Definition identify_ata_device (dev : Z) : CM () :=
  d ← get_disk dev;
  check (is_ata d);;
  select_device_wait dev;;
  issue_pio_command CMD_IDENTIFY_DEVICE;;
  completion_down;;
  ok ← wait_while_busy dev;
  if negb (ok : bool) then put_disk dev (mkDisk false (capacity d) (read_cnt d) (write_cnt d))
  else
    id ← input_sector;
    let cap := Z.lor (id_word id 60) (u32 (Z.shiftl (id_word id 61) 16)) in
    put_disk dev (mkDisk (is_ata d) cap (read_cnt d) (write_cnt d));;
    print (Detected dev cap (size_text cap).1 (size_text cap).2
      (ata_string (drop 54 id) 40) (ata_string (drop 20 id) 20)).

(** The body of the loop of [disk_init], on a channel with hardware [h]. *)
Definition init_channel (chan_no : Z) : CM () :=
  c ← getS;
  r ← (if chan_no =? 0 then mret (0x1f0, 14 + 0x20)
       else if chan_no =? 1 then mret (0x170, 15 + 0x20) else fail KernelPanic);
  putS (mkChannel (port c) r.1 r.2 false 0 (replicate 2 (mkDisk false 0 0 0)) (level c) (console c));;
  reset_channel;;
  more ← check_device_type 0;
  (if (more : bool) then _ ← check_device_type 1; mret () else mret ());;
  d ← get_disk 0;
  (if is_ata d then identify_ata_device 0 else mret ());;
  d ← get_disk 1;
  (if is_ata d then identify_ata_device 1 else mret ()).

(** * Both channels *)

Definition CHANNEL_CNT : Z := 2.
Definition on_channel {A} (chan_no : Z) (f : CM A) : M (list channel) A :=
  cs ← getS;
  c ← pureM (of_option (zget cs chan_no));
  r ← pureM (f c);
  cs ← pureM (of_option (zset cs chan_no r.2));
  putS cs;; mret r.1.

Definition disk_init : M (list channel) () :=
  on_channel 0 (init_channel 0);; on_channel 1 (init_channel 1).

(** A disk is its channel and device number. *)
Definition disk_get (chan_no dev_no : Z) : M (list channel) (option (Z * Z)) :=
  check ((dev_no =? 0) || (dev_no =? 1));;
  if chan_no <? CHANNEL_CNT then
    d ← on_channel chan_no (get_disk dev_no);
    mret (if is_ata d then Some (chan_no, dev_no) else None)
  else mret None.
Definition disk_size (d : Z * Z) : M (list channel) Z :=
  x ← on_channel d.1 (get_disk d.2); mret (capacity x).

Definition print_stats (chan_no dev_no : Z) : M (list channel) () :=
  d ← disk_get chan_no dev_no;
  match d with
  | None => mret ()
  | Some (c, dev) => on_channel c (d ← get_disk dev; print (Stats dev (read_cnt d) (write_cnt d)))
  end.
Definition disk_print_stats : M (list channel) () :=
  print_stats 0 0;; print_stats 0 1;; print_stats 1 0;; print_stats 1 1.

(** [interrupt_handler] with the vector number of its frame. *)
Fixpoint interrupt_handler (vec_no : Z) (cs : list channel) : outcome (list channel) :=
  match cs with
  | [] => Err KernelPanic
  | c :: cs =>
      if vec_no =? irq c then Ok (interrupt c :: cs)
      else cs ← interrupt_handler vec_no cs; Ok (c :: cs)
  end.
