(* ===== verification/AtaCorrect.v ===== *)
(** Correctness of the disk driver: on a channel whose drives answer within the
    driver's time limits, reading and writing a sector is reading and writing one
    element of the drive's array of sectors, for every length of the drive's
    delays; detection finds exactly the disks that are there; and the driver
    implements the interface [Disk] on which the buffer cache is built. *)
From S2P Require Import Prelude Cache Ata.

(** * Sectors and drives *)

Definition sector_wf (bs : list Z) : Prop := length bs = 512%nat ∧ Forall is_u8 bs.
Definition drive_wf (d : drive) : Prop :=
  is_disk d = true ∧ Forall sector_wf (sectors d) ∧ Z.of_nat (length (sectors d)) < 2 ^ 28.

(** What the device register selects. *)
Definition device_of (dev sec : Z) : Z :=
  u8 (Z.lor (Z.lor (Z.lor DEV_MBS DEV_LBA) (if dev =? 1 then DEV_DEV else 0)) (Z.shiftr sec 24)).

Lemma device_of_bits dev sec : dev = 0 ∨ dev = 1 → 0 <= sec < 2 ^ 28 →
  has (device_of dev sec) DEV_DEV = (dev =? 1) ∧ has (device_of dev sec) DEV_LBA = true ∧
  Z.land (device_of dev sec) 15 = Z.shiftr sec 24.
Proof.
  intros Hd Hs. unfold device_of. assert (0 <= Z.shiftr sec 24 < 16) as Hr.
  { rewrite Z.shiftr_div_pow2 by lia. split; [apply Z.div_pos; lia|apply Z.div_lt_upper_bound; lia]. }
  set (x := Z.shiftr sec 24) in *. clearbody x.
  assert (x ∈ seqZ 0 16) as Hx by (apply elem_of_seqZ; lia).
  assert (forallb (λ dx : Z * Z, let w := u8 (Z.lor (Z.lor (Z.lor DEV_MBS DEV_LBA) (if dx.1 =? 1 then DEV_DEV else 0)) dx.2) in
    eqb (has w DEV_DEV) (dx.1 =? 1) && has w DEV_LBA && (Z.land w 15 =? dx.2))
    (list_prod [0; 1] (seqZ 0 16)) = true) as Hc by by vm_compute.
  rewrite forallb_forall in Hc. specialize (Hc (dev, x)). cbn [fst snd] in Hc.
  rewrite !andb_true_iff, eqb_true_iff, Z.eqb_eq in Hc. destruct Hc as [[? ?] ?]; [|done].
  apply in_prod; [destruct Hd as [-> | ->]; simpl; auto|by apply list_elem_of_In].
Qed.

Lemma sector_number sec : 0 <= sec < 2 ^ 28 →
  u8 sec + 256 * u8 (Z.shiftr sec 8) + 65536 * u8 (Z.shiftr sec 16) + 16777216 * Z.shiftr sec 24 = sec.
Proof.
  intros Hs. rewrite <- (bytes_word_bytes sec) at 5 by (split; lia). unfold bytes_word.
  rewrite (u8_small (Z.shiftr sec 24)); [done|]. rewrite Z.shiftr_div_pow2 by lia.
  split; [apply Z.div_pos; lia|apply Z.div_lt_upper_bound; lia].
Qed.

Lemma u8_word b0 b1 : is_u8 b0 → is_u8 b1 → u8 (b0 + 256 * b1) = b0 ∧ u8 (Z.shiftr (b0 + 256 * b1) 8) = b1.
Proof.
  unfold is_u8, u8. intros ? ?. rewrite Z.shiftr_div_pow2 by lia. change (2 ^ 8) with 256.
  Z.to_euclidean_division_equations. lia.
Qed.

(** * Steps of the driver *)

Section Steps.
Context (ct fl base q : Z).

(** A channel used by a thread with interrupts on. *)
Definition at_ (l : list (option drive * regs)) (v : Z) (p : phase) (w : option (nat * job)) (dl : list nat)
  (e : bool) (k : Z) (ds : list disk) (m : list message) : channel :=
  mkChannel (mkHw l v ct p w fl dl) base q e k ds true m.

Lemma inb_quiet reg l v p dl e k ds m :
  inb reg (at_ l v p None dl e k ds m) =
  Ok (read_reg reg (mkHw l v ct p None fl dl), at_ l v p None dl e k ds m).
Proof. done. Qed.

Lemma outb_reg_quiet reg x l v p dl e k ds m :
  reg ∈ [reg_nsect; reg_lbal; reg_lbam; reg_lbah] →
  outb reg x (at_ l v p None dl e k ds m) =
  Ok ((), at_ (prod_map id (set_reg reg (u8 x)) <$> l) v p None dl e k ds m).
Proof. intros H. repeat (apply elem_of_cons in H as [-> | H]; [done|]). by apply elem_of_nil in H. Qed.

Lemma outb_device_quiet x l v p dl e k ds m :
  outb reg_device x (at_ l v p None dl e k ds m) = Ok ((), at_ l (u8 x) p None dl e k ds m).
Proof. done. Qed.

Lemma poll_idle_quiet n dev l v dl e k ds m :
  ∃ m', poll_idle n dev (at_ l v Idle None dl e k ds m) = Ok ((), at_ l v Idle None dl e k ds m').
Proof.
  induction n as [|n IH]; simpl; [by eexists|].
  rewrite (M_bind_step _ _ _ _ _ (inb_quiet _ _ _ _ _ _ _ _ _)).
  destruct (_ =? 0); [by exists m|done].
Qed.

Lemma select_device_quiet dev l v p dl e k ds m :
  select_device dev (at_ l v p None dl e k ds m) =
  Ok ((), at_ l (if dev =? 1 then 0xb0 else 0xa0) p None dl e k ds m).
Proof. unfold select_device. by destruct (dev =? 1). Qed.

Lemma select_device_wait_quiet dev l v dl e k ds m : ∃ m',
  select_device_wait dev (at_ l v Idle None dl e k ds m) =
  Ok ((), at_ l (if dev =? 1 then 0xb0 else 0xa0) Idle None dl e k ds m').
Proof.
  unfold select_device_wait, wait_until_idle.
  destruct (poll_idle_quiet 1000 dev l v dl e k ds m) as [m1 E1]. rewrite (M_bind_step _ _ _ _ _ E1).
  rewrite (M_bind_step _ _ _ _ _ (select_device_quiet _ _ _ _ _ _ _ _ _)).
  apply poll_idle_quiet.
Qed.

(** The registers after [select_sector]. *)
Definition addressed (sec : Z) (l : list (option drive * regs)) : list (option drive * regs) :=
  prod_map id (λ r, mkRegs (r_error r) 1 (u8 sec) (u8 (Z.shiftr sec 8)) (u8 (Z.shiftr sec 16))) <$> l.

Lemma addressed_eq sec l :
  prod_map id (set_reg reg_lbah (u8 (Z.shiftr sec 16))) <$> (prod_map id (set_reg reg_lbam (u8 (Z.shiftr sec 8))) <$>
    (prod_map id (set_reg reg_lbal (u8 sec)) <$> (prod_map id (set_reg reg_nsect (u8 1)) <$> l)))
  = addressed sec l.
Proof.
  unfold addressed. rewrite <- !list_fmap_compose. apply list_fmap_ext. by intros _ [? []] _.
Qed.

Lemma get_disk_at dev d l v p w dl e k ds m : zget ds dev = Some d →
  get_disk dev (at_ l v p w dl e k ds m) = Ok (d, at_ l v p w dl e k ds m).
Proof. intros Hd. unfold get_disk, mbind, M_bind, getS, pureM; simpl. by rewrite Hd. Qed.
Lemma put_disk_at dev d l v p w dl e k ds m : 0 <= dev < Z.of_nat (length ds) →
  put_disk dev d (at_ l v p w dl e k ds m) = Ok ((), at_ l v p w dl e k (<[Z.to_nat dev := d]> ds) m).
Proof. intros Hd. unfold put_disk, mbind, M_bind, getS, pureM; simpl. by rewrite zset_Some. Qed.

Lemma select_sector_quiet dev sec d l v dl e k ds m :
  zget ds dev = Some d → sec < capacity d → sec < 2 ^ 28 → ∃ m',
  select_sector dev sec (at_ l v Idle None dl e k ds m) =
  Ok ((), at_ (addressed sec l) (device_of dev sec) Idle None dl e k ds m').
Proof.
  intros Hd Hc Hs. unfold select_sector. rewrite (M_bind_step _ _ _ _ _ (get_disk_at _ _ _ _ _ _ _ _ _ _ _ Hd)).
  rewrite (M_bind_step _ _ _ _ _ (check_true _ _ (proj2 (Z.ltb_lt _ _) Hc))).
  rewrite (M_bind_step _ _ _ _ _ (check_true (sec <? Z.shiftl 1 28) _ (proj2 (Z.ltb_lt _ _) Hs))).
  destruct (select_device_wait_quiet dev l v dl e k ds m) as [m1 E1]. rewrite (M_bind_step _ _ _ _ _ E1).
  exists m1. unfold device_of. rewrite <- addressed_eq.
  do 4 (erewrite M_bind_step by (apply outb_reg_quiet; set_solver)).
  by rewrite outb_device_quiet.
Qed.

(** A sector out of range is caught by an assertion. *)
Lemma select_sector_beyond dev sec d l v p w dl e k ds m :
  zget ds dev = Some d → capacity d <= sec → select_sector dev sec (at_ l v p w dl e k ds m) = Err AssertFail.
Proof.
  intros Hd Hc. unfold select_sector. rewrite (M_bind_step _ _ _ _ _ (get_disk_at _ _ _ _ _ _ _ _ _ _ _ Hd)).
  unfold check at 1. rewrite (proj2 (Z.ltb_ge _ _) Hc). done.
Qed.

(** ** Commands *)

Lemma issue_quiet cmd l v dl e ds m (h : hw) (b : bool) :
  write_reg reg_command (u8 cmd) (mkHw l v ct Idle None fl dl) = (h, b) →
  issue_pio_command cmd (at_ l v Idle None dl e 0 ds m) =
  Ok ((), mkChannel h base q true (if b then 1 else 0) ds true m).
Proof.
  intros E. transitivity (Ok ((), deliver (write_reg reg_command (u8 cmd) (mkHw l v ct Idle None fl dl))
    (at_ l v Idle None dl true 0 ds m))); [done|]. rewrite E. by destruct b.
Qed.

Lemma start_cases j l v p dl :
  (start j (mkHw l v ct p None fl dl) = finish j (mkHw l v ct p None fl (drop 1 dl))) ∨
  (∃ n, S n ∈ dl ∧ start j (mkHw l v ct p None fl dl) = (mkHw l v ct p (Some (S n, j)) fl (drop 1 dl), false)).
Proof. destruct dl as [|[|n] dl]; [by left|by left|right]. exists n. split; [left|done]. Qed.

(** Waiting for the interrupt at the end of a job that raises one. *)
Lemma completion_down_done j l v p dl ds m hb h :
  hb = start j (mkHw l v ct p None fl dl) →
  finish j (mkHw l v ct p None fl (drop 1 dl)) = (h, true) →
  completion_down (mkChannel hb.1 base q true (if hb.2 then 1 else 0) ds true m) =
  Ok ((), mkChannel h base q true 0 ds true m).
Proof.
  intros -> Ef. destruct (start_cases j l v p dl) as [E|(n & _ & E)]; rewrite E; [by rewrite Ef|].
  unfold completion_down, mbind, M_bind, getS, modS, deliver; simpl.
  unfold run_out; simpl. assert (finish j (mkHw l v ct p (Some (S n, j)) fl (drop 1 dl)) = (h, true)) as ->; [|done].
  rewrite <- Ef. by destruct j.
Qed.

(** ** Waiting *)

(** A drive responds on the selected position. *)
Definition responds (l : list (option drive * regs)) (v : Z) (d : drive) (r : regs) : Prop :=
  l !! (if has v DEV_DEV then 1%nat else 0%nat) = Some (Some d, r).

Lemma responding_at l v p w dl d r : responds l v d r → responding (mkHw l v ct p w fl dl) = Some (d, r).
Proof. unfold responds, responding, selected; simpl. by intros ->. Qed.

Lemma status_at l v p w dl d r : responds l v d r →
  let s := read_reg reg_alt_status (mkHw l v ct p w fl dl) in
  has s STA_BSY = bool_decide (is_Some w) ∧
  (w = None → has s STA_DRQ = match p with Idle => false | _ => true end).
Proof.
  intros Hr. unfold read_reg. rewrite (responding_at _ _ _ _ _ _ _ Hr). unfold status; simpl.
  destruct w as [w|]; simpl; [done|]. by destruct (is_disk d), p.
Qed.

Lemma print_if (b : bool) msg l v p w dl e k ds m : ∃ m',
  (if b then print msg else mret ()) (at_ l v p w dl e k ds m) = Ok ((), at_ l v p w dl e k ds m').
Proof. destruct b; by eexists. Qed.

(** [wait_while_busy], on a channel that is ready, and on one that becomes ready
    for data in time. *)
Lemma busy_loop_ready n i dev l v p dl e k ds m d r : responds l v d r → ∃ m',
  busy_loop (S n) i dev (at_ l v p None dl e k ds m) =
  Ok (match p with Idle => false | _ => true end, at_ l v p None dl e k ds m').
Proof.
  intros Hr. cbn [busy_loop]. destruct (print_if (i =? 700) (BusyWaiting dev) l v p None dl e k ds m) as [m1 E1].
  rewrite (M_bind_step _ _ _ _ _ E1), (M_bind_step _ _ _ _ _ (inb_quiet _ _ _ _ _ _ _ _ _)).
  destruct (status_at l v p None dl d r Hr) as [-> Hq]. rewrite bool_decide_false by (by intros [? ?]).
  cbn [negb]. destruct (print_if (700 <=? i) BusyOk l v p None dl e k ds m1) as [m2 E2].
  rewrite (M_bind_step _ _ _ _ _ E2), (M_bind_step _ _ _ _ _ (inb_quiet _ _ _ _ _ _ _ _ _)).
  rewrite Hq by done. by exists m2.
Qed.

(** A job that raises no interrupt at its end, which leaves the channel ready. *)
Definition silent (j : job) (l : list (option drive * regs)) (p : phase)
  (l' : list (option drive * regs)) (p' : phase) : Prop :=
  ∀ v w dl, finish j (mkHw l v ct p w fl dl) = (mkHw l' v ct p' None fl dl, false).

Lemma busy_loop_waits j l' p' n fuel i dev l v p dl e k ds m d r d' r' :
  silent j l p l' p' → responds l v d r → responds l' v d' r' → (n < fuel)%nat → ∃ m',
  busy_loop fuel i dev (at_ l v p (Some (S n, j)) dl e k ds m) =
  Ok (match p' with Idle => false | _ => true end, at_ l' v p' None dl e k ds m').
Proof.
  intros Hj Hr Hr' Hn. revert fuel i m Hn. induction n as [|n IH]; intros [|fuel] i m Hn; try lia; cbn [busy_loop].
  - destruct (print_if (i =? 700) (BusyWaiting dev) l v p (Some (1%nat, j)) dl e k ds m) as [m1 E1].
    rewrite (M_bind_step _ _ _ _ _ E1).
    rewrite (M_bind_step _ _ _ (read_reg reg_alt_status (mkHw l' v ct p' None fl dl)) (at_ l' v p' None dl e k ds m1))
      by (unfold inb, mbind, M_bind, modS, getS, tick; cbn [work port at_]; by rewrite Hj).
    destruct (status_at l' v p' None dl d' r' Hr') as [-> Hq]. rewrite bool_decide_false by (by intros [? ?]).
    cbn [negb]. destruct (print_if (700 <=? i) BusyOk l' v p' None dl e k ds m1) as [m2 E2].
    rewrite (M_bind_step _ _ _ _ _ E2), (M_bind_step _ _ _ _ _ (inb_quiet _ _ _ _ _ _ _ _ _)).
    rewrite Hq by done. by exists m2.
  - destruct (print_if (i =? 700) (BusyWaiting dev) l v p (Some (S (S n), j)) dl e k ds m) as [m1 E1].
    rewrite (M_bind_step _ _ _ _ _ E1).
    rewrite (M_bind_step _ _ _ (read_reg reg_alt_status (mkHw l v ct p (Some (S n, j)) fl dl))
      (at_ l v p (Some (S n, j)) dl e k ds m1)) by done.
    destruct (status_at l v p (Some (S n, j)) dl d r Hr) as [-> _]. rewrite bool_decide_true by done.
    cbn [negb]. apply IH. lia.
Qed.

(** ** Data *)

Lemma insw_all n l v bs dl e k ds m : length bs = (2 * n)%nat → Forall is_u8 bs → (0 < n)%nat →
  insw n (at_ l v (Sending bs) None dl e k ds m) = Ok (bs, at_ l v Idle None dl e k ds m).
Proof.
  revert bs. induction n as [|n IH]; [lia|]. intros [|b0 [|b1 bs]] Hl Hu _; simpl in Hl; try lia.
  apply Forall_cons in Hu as [H0 [H1 Hu]%Forall_cons]. destruct (u8_word b0 b1 H0 H1) as [E0 E1]. cbn [insw].
  rewrite (M_bind_step _ _ _ (b0 + 256 * b1)
    (at_ l v (match bs with [] => Idle | _ => Sending bs end) None dl e k ds m)) by done. rewrite E0, E1.
  destruct n as [|n].
  - by destruct bs.
  - rewrite (M_bind_step _ _ _ bs (at_ l v Idle None dl e k ds m)); [done|].
    destruct bs as [|b bs]; [simpl in Hl; lia|]. apply IH; [simpl in *; lia|done|lia].
Qed.

Lemma outsw_all n a pre l v bs dl k ds m :
  length bs = (2 * n)%nat → (length pre + 2 * n = 512)%nat → Forall is_u8 bs → (0 < n)%nat →
  outsw n bs (at_ l v (Receiving a pre) None dl true k ds m) =
  Ok ((), deliver (start (ToCommit (selected (mkHw l v ct Idle None fl dl)) a (pre ++ bs)) (mkHw l v ct Idle None fl dl))
            (at_ l v Idle None dl true k ds m)).
Proof.
  revert bs pre. induction n as [|n IH]; [lia|]. intros [|b0 [|b1 bs]] pre Hl Hp Hu _; simpl in Hl; try lia.
  apply Forall_cons in Hu as [H0 [H1 Hu]%Forall_cons]. destruct (u8_word b0 b1 H0 H1) as [E0 E1]. cbn [outsw].
  destruct n as [|n].
  - destruct bs; [|simpl in Hl; lia]. unfold outw, mbind, M_bind, modS, write_data. cbn [now at_ port].
    rewrite E0, E1. destruct (Nat.leb_spec 512 (length (pre ++ [b0; b1]))) as [_|Hc]; [done|].
    rewrite length_app in Hc. simpl in Hc. lia.
  - rewrite (M_bind_step _ _ _ () (at_ l v (Receiving a (pre ++ [b0; b1])) None dl true k ds m)).
    + rewrite IH; [by rewrite <- app_assoc|lia| |done|lia]. rewrite length_app. simpl. lia.
    + unfold outw, modS, write_data. cbn [now at_ port]. rewrite E0, E1.
      destruct (Nat.leb_spec 512 (length (pre ++ [b0; b1]))) as [Hc|_]; [|done].
      rewrite length_app in Hc. simpl in Hc. lia.
Qed.

(** ** Whole operations *)

Definition dev_ok (dev : Z) : Prop := dev = 0 ∨ dev = 1.

Lemma addressed_responds dev sec l dr r : dev_ok dev → 0 <= sec < 2 ^ 28 →
  l !! Z.to_nat dev = Some (Some dr, r) →
  responds (addressed sec l) (device_of dev sec) dr
    (mkRegs (r_error r) 1 (u8 sec) (u8 (Z.shiftr sec 8)) (u8 (Z.shiftr sec 16))).
Proof.
  intros Hd Hs Hl. unfold responds. destruct (device_of_bits dev sec Hd Hs) as [-> _].
  replace (if dev =? 1 then 1%nat else 0%nat) with (Z.to_nat dev) by (by destruct Hd as [-> | ->]).
  unfold addressed. by rewrite list_lookup_fmap, Hl.
Qed.

Lemma command_at dev sec l dl dr r bs : dev_ok dev → 0 <= sec < 2 ^ 28 →
  l !! Z.to_nat dev = Some (Some dr, r) → is_disk dr = true → zget (sectors dr) sec = Some bs →
  let h := mkHw (addressed sec l) (device_of dev sec) ct Idle None fl dl in
  write_reg reg_command (u8 CMD_READ_SECTOR_RETRY) h = start (ToSend bs) h ∧
  write_reg reg_command (u8 CMD_WRITE_SECTOR_RETRY) h = start (ToReceive sec) h.
Proof.
  intros Hd Hs Hl Hi Hz h. pose proof (addressed_responds dev sec l dr r Hd Hs Hl) as Hr.
  destruct (device_of_bits dev sec Hd Hs) as (_ & Hb & Hn).
  assert (∀ cmd, (cmd =? CMD_IDENTIFY_DEVICE) = false → write_reg reg_command cmd h =
    if cmd =? CMD_READ_SECTOR_RETRY then start (ToSend bs) h
    else if cmd =? CMD_WRITE_SECTOR_RETRY then start (ToReceive sec) h else start ToAbort h) as Hc.
  { intros cmd Hcmd. transitivity (command cmd h); [done|]. unfold command, h.
    rewrite (responding_at _ _ _ _ _ _ _ Hr), Hcmd, Hi. unfold lba. cbn [r_device r_nsect r_lbal r_lbam r_lbah].
    rewrite Hb, Hn, (sector_number sec Hs). cbn. by rewrite Hz. }
  split; by rewrite Hc.
Qed.

(** The drive's counters after an operation. *)
Definition counted (w : bool) (d : disk) : disk :=
  if w then mkDisk (is_ata d) (capacity d) (read_cnt d) (s64 (write_cnt d + 1))
  else mkDisk (is_ata d) (capacity d) (s64 (read_cnt d + 1)) (write_cnt d).

Context (dev sec : Z) (d : disk) (dr : drive) (r : regs) (l : list (option drive * regs)) (ds : list disk).
Context (Hdev : dev_ok dev) (Hd : zget ds dev = Some d) (Hl : l !! Z.to_nat dev = Some (Some dr, r)).
Context (Hwf : drive_wf dr) (Hcap : capacity d = Z.of_nat (length (sectors dr))).

Lemma disk_read_at bs v dl e m : zget (sectors dr) sec = Some bs → ∃ m',
  disk_read dev sec (at_ l v Idle None dl e 0 ds m) =
  Ok (bs, at_ (addressed sec l) (device_of dev sec) Idle None (drop 1 dl) true 0
    (<[Z.to_nat dev := counted false d]> ds) m').
Proof.
  intros Hz. destruct Hwf as (Hi & Hs & Hn). pose proof (zget_Some_range _ _ _ Hz) as Hr.
  assert (sector_wf bs) as [Hbl Hbu].
  { unfold zget in Hz. destruct (sec <? 0); [done|]. by eapply lookup_Forall. }
  unfold disk_read. destruct (select_sector_quiet dev sec d l v dl e 0 ds m) as [m1 E1]; [done|lia|lia|].
  rewrite (M_bind_step _ _ _ _ _ E1).
  destruct (command_at dev sec l dl dr r bs) as [Ec _]; [done|lia|done|done|done|].
  destruct (start _ _) as [h b] eqn:Es in Ec.
  rewrite (M_bind_step _ _ _ _ _ (issue_quiet _ _ _ _ _ _ _ _ _ Ec)).
  pose proof (completion_down_done (ToSend bs) _ _ _ _ ds m1 _ _ (eq_sym Es) eq_refl) as Ed. cbn [fst snd] in Ed.
  rewrite (M_bind_step _ _ _ _ _ Ed). clear Ed Es Ec E1.
  assert (responds (addressed sec l) (device_of dev sec) dr
    (mkRegs (r_error r) 1 (u8 sec) (u8 (Z.shiftr sec 8)) (u8 (Z.shiftr sec 16)))) as Hresp
    by (apply addressed_responds; [done|lia|done]).
  destruct (busy_loop_ready 2999 0 dev _ _ (Sending bs) (drop 1 dl) true 0 ds m1 _ _ Hresp) as [m2 E2].
  rewrite (M_bind_step _ _ _ true _ E2). cbn [negb].
  rewrite (M_bind_step _ _ _ _ _ (insw_all 256 _ _ bs _ _ _ _ _ Hbl Hbu ltac:(lia))).
  rewrite (M_bind_step _ _ _ _ _ (get_disk_at _ _ _ _ _ _ _ _ _ _ _ Hd)).
  exists m2. erewrite M_bind_step by (apply put_disk_at; by eapply zget_Some_range). done.
Qed.

Lemma disk_write_at bs old v dl e m : zget (sectors dr) sec = Some old → sector_wf bs →
  Forall (λ n, n < 3000)%nat dl → ∃ dl' m', Forall (λ n, n < 3000)%nat dl' ∧
  disk_write dev sec bs (at_ l v Idle None dl e 0 ds m) =
  Ok ((), at_ (alter (store_sector sec bs) (Z.to_nat dev) (addressed sec l)) (device_of dev sec) Idle None
    dl' true 0 (<[Z.to_nat dev := counted true d]> ds) m').
Proof.
  intros Hz [Hbl Hbu] Hdl. destruct Hwf as (Hi & _ & Hn). pose proof (zget_Some_range _ _ _ Hz) as Hr.
  unfold disk_write. destruct (select_sector_quiet dev sec d l v dl e 0 ds m) as [m1 E1]; [done|lia|lia|].
  rewrite (M_bind_step _ _ _ _ _ E1). clear E1.
  destruct (command_at dev sec l dl dr r old) as [_ Ec]; [done|lia|done|done|done|].
  assert (responds (addressed sec l) (device_of dev sec) dr
    (mkRegs (r_error r) 1 (u8 sec) (u8 (Z.shiftr sec 8)) (u8 (Z.shiftr sec 16)))) as Hresp
    by (apply addressed_responds; [done|lia|done]).
  assert (∃ m2, (issue_pio_command CMD_WRITE_SECTOR_RETRY;; wait_while_busy dev)
      (at_ (addressed sec l) (device_of dev sec) Idle None dl e 0 ds m1) =
    Ok (true, at_ (addressed sec l) (device_of dev sec) (Receiving sec []) None (drop 1 dl) true 0 ds m2)) as [m2 E2].
  { destruct (start_cases (ToReceive sec) (addressed sec l) (device_of dev sec) Idle dl) as [Es|(n & Hin & Es)];
      rewrite Es in Ec; rewrite (M_bind_step _ _ _ _ _ (issue_quiet _ _ _ _ _ _ _ _ _ Ec)).
    - exact (busy_loop_ready 2999 0 dev _ _ (Receiving sec []) (drop 1 dl) true 0 ds m1 _ _ Hresp).
    - refine (busy_loop_waits (ToReceive sec) _ (Receiving sec []) n 3000 0 dev _ _ Idle (drop 1 dl) true 0 ds m1 _ _ _ _ _ Hresp Hresp _); [done|].
      rewrite Forall_forall in Hdl. specialize (Hdl _ Hin). lia. }
  unfold mbind at 1, M_bind at 1 in E2. destruct (issue_pio_command _ _) as [[[] c1]|] eqn:Ei; [|done].
  rewrite (M_bind_step _ _ _ _ _ Ei), (M_bind_step _ _ _ _ _ E2). cbn [negb].
  rewrite (M_bind_step _ _ _ _ _ (outsw_all 256 sec [] _ _ bs _ _ _ _ Hbl eq_refl Hbu ltac:(lia))).
  cbn [app]. exists (drop 1 (drop 1 dl)), m2. split; [by do 2 apply Forall_drop|].
  erewrite M_bind_step.
  2: { destruct (start (ToCommit _ _ _) _) as [h b] eqn:Es.
       pose proof (completion_down_done _ _ _ _ _ ds m2 _ _ (eq_sym Es) eq_refl) as Ed. cbn [fst snd] in Ed.
       etransitivity; [|exact Ed]. by destruct b. }
  erewrite M_bind_step by (by apply get_disk_at).
  erewrite put_disk_at by (by eapply zget_Some_range).
  unfold selected; cbn [r_device]. destruct (device_of_bits dev sec Hdev) as [-> _]; [lia|].
  replace (if dev =? 1 then 1%nat else 0%nat) with (Z.to_nat dev) by (by destruct Hdev as [-> | ->]). done.
Qed.
End Steps.

(** * Detection *)

(** The identity of a disk gives its size in words 60 and 61. *)
Definition identity_wf (d : drive) : Prop :=
  sector_wf (identity d) ∧
  id_word (identity d) 60 + 65536 * id_word (identity d) 61 = Z.of_nat (length (sectors d)).
Definition slot_wf (x : option drive) : Prop :=
  match x with Some d => is_disk d = true → drive_wf d ∧ identity_wf d | None => True end.
Definition holds_disk (x : option drive) : bool := match x with Some d => is_disk d | None => false end.

Lemma id_word_range id k : Forall is_u8 id → 0 <= id_word id k < 65536.
Proof.
  intros H. unfold id_word. assert (∀ i, is_u8 (default 0 (id !! i))) as Hb.
  { intros i. destruct (id !! i) eqn:E; simpl; [by eapply lookup_Forall|by split]. }
  pose proof (Hb (2 * k)%nat). pose proof (Hb (2 * k + 1)%nat). unfold is_u8 in *. lia.
Qed.

(** The drives with their registers. *)
Definition bay (x0 x1 : option drive) (r0 r1 : regs) : list (option drive * regs) := [(x0, r0); (x1, r1)].

Lemma read_absent ct fl l v p w dl r reg :
  l !! (if has v DEV_DEV then 1%nat else 0%nat) = Some (None, r) → read_reg reg (mkHw l v ct p w fl dl) = fl.
Proof. intros H. unfold read_reg, responding, selected. cbn [drives r_device]. by rewrite H. Qed.

Section Detect.
Context (fl base q : Z) (Hfl : fl ≠ 0x81).

Definition marked (r : regs) : regs := mkRegs (r_error r) 0x55 0xaa (r_lbam r) (r_lbah r).

Lemma probe_at ct dev x0 x1 r0 r1 v dl e k ds m : dev_ok dev →
  probe dev (at_ ct fl base q (bay x0 x1 r0 r1) v Idle None dl e k ds m) =
  Ok (bool_decide (is_Some (if dev =? 1 then x1 else x0)),
      at_ ct fl base q (bay x0 x1 (marked r0) (marked r1)) (if dev =? 1 then 0xb0 else 0xa0) Idle None dl e k ds m).
Proof.
  intros Hd. unfold probe. rewrite (M_bind_step _ _ _ _ _ (select_device_quiet _ _ _ _ _ _ _ _ _ _ _ _ _)).
  do 6 (erewrite M_bind_step by (apply outb_reg_quiet; set_solver)).
  rewrite (M_bind_step _ _ _ _ _ (inb_quiet _ _ _ _ _ _ _ _ _ _ _ _ _)).
  destruct r0, r1, Hd as [-> | ->]; cbn; [destruct x0 as [[]|]|destruct x1 as [[]|]]; try reflexivity.
  all: erewrite read_absent by reflexivity; destruct (Z.eqb_spec fl 85) as [->|_]; reflexivity.
Qed.

(** ** The reset *)

(** A channel on its way out of a reset. *)
Definition resetting (l : list (option drive * regs)) (v : Z) (dl : list nat) (e : bool) (k : Z) (ds : list disk)
  (c : channel) : Prop :=
  ∃ m, c = at_ 0 fl base q (reset_drive <$> l) v Idle None dl e k ds m ∨
       ∃ n, (n < 3000)%nat ∧ c = at_ 0 fl base q l v Idle (Some (S n, ToReset)) dl e k ds m.

Section Resetting.
Context (l : list (option drive * regs)) (dl : list nat) (e : bool) (k : Z) (ds : list disk).

Lemma resetting_inb v reg c : resetting l v dl e k ds c → ∃ x c', inb reg c = Ok (x, c') ∧ resetting l v dl e k ds c'.
Proof.
  intros (m & [-> | ([|n] & Hn & ->)]); eexists _, _; (split; [reflexivity|]); exists m; [by left|by left|right].
  exists n. split; [lia|done].
Qed.

Lemma resetting_select v dev c : resetting l v dl e k ds c → ∃ c', select_device dev c = Ok ((), c') ∧
  resetting l (if dev =? 1 then 0xb0 else 0xa0) dl e k ds c'.
Proof.
  intros Hc. unfold select_device.
  assert (∃ c1, outb reg_device (if dev =? 1 then Z.lor DEV_MBS DEV_DEV else DEV_MBS) c = Ok ((), c1) ∧
    resetting l (if dev =? 1 then 0xb0 else 0xa0) dl e k ds c1) as (c1 & E1 & H1).
  { destruct Hc as (m & [-> | ([|n] & Hn & ->)]); eexists; (split; [reflexivity|]); exists m;
      destruct (dev =? 1); [by left|by left|by left|by left|right|right]; exists n; (split; [lia|done]). }
  rewrite (M_bind_step _ _ _ _ _ E1). destruct (resetting_inb _ reg_alt_status c1 H1) as (x & c2 & E2 & H2).
  exists c2. by rewrite (M_bind_step _ _ _ _ _ E2).
Qed.

Lemma resetting_slave n v c : resetting l v dl e k ds c → ∃ c', slave_loop n c = Ok ((), c') ∧ resetting l v dl e k ds c'.
Proof.
  revert c. induction n as [|n IH]; intros c Hc; cbn [slave_loop]; [by exists c|].
  destruct (resetting_inb v reg_nsect c Hc) as (x & c1 & E1 & H1). rewrite (M_bind_step _ _ _ _ _ E1).
  assert (∃ b c2, (if x =? 1 then l ← inb reg_lbal; mret (l =? 1) else mret false) c1 = Ok (b, c2) ∧
    resetting l v dl e k ds c2) as (b & c2 & E2 & H2).
  { destruct (x =? 1); [|by eexists _, _]. destruct (resetting_inb v reg_lbal c1 H1) as (y & c2 & E2 & H2).
    exists (y =? 1), c2. by rewrite (M_bind_step _ _ _ _ _ E2). }
  rewrite (M_bind_step _ _ _ _ _ E2). destruct b; [by exists c2|by apply IH].
Qed.

Lemma resetting_busy v dev d r c : responds l v d r → resetting l v dl e k ds c → ∃ b m,
  wait_while_busy dev c = Ok (b, at_ 0 fl base q (reset_drive <$> l) v Idle None dl e k ds m).
Proof.
  intros Hr (m & Hc). assert (responds (reset_drive <$> l) v d (signature d)) as Hr'.
  { unfold responds in *. by rewrite list_lookup_fmap, Hr. }
  exists false. destruct Hc as [-> | (n & Hn & ->)].
  - exact (busy_loop_ready _ _ _ _ 2999 0 dev _ _ Idle _ _ _ _ _ _ _ Hr').
  - exact (busy_loop_waits _ _ _ _ ToReset _ Idle n 3000 0 dev _ _ _ _ _ _ _ _ _ _ _ _ (λ _ _ _, eq_refl) Hr Hr' Hn).
Qed.
End Resetting.

Lemma outb_quiet ct reg x l v p dl e k ds m :
  outb reg x (at_ ct fl base q l v p None dl e k ds m) =
  Ok ((), deliver (write_reg reg (u8 x) (mkHw l v ct p None fl dl)) (at_ ct fl base q l v p None dl e k ds m)).
Proof. done. Qed.

(** Writing the control register, with and without releasing the reset line. *)
Lemma write_ctl_held ct x l v p dl : has ct CTL_SRST && negb (has x CTL_SRST) = false →
  write_reg reg_ctl x (mkHw l v ct p None fl dl) =
  (mkHw l (if has x CTL_SRST then 0 else v) x p None fl dl, false).
Proof. intros H. unfold write_reg. simpl. rewrite H. by destruct (has x CTL_SRST). Qed.
Lemma write_ctl_released l v p dl :
  write_reg reg_ctl 0 (mkHw l v CTL_SRST p None fl dl) =
  if existsb (λ dr, bool_decide (is_Some dr.1)) l then start ToReset (mkHw l v 0 p None fl dl)
  else (mkHw l v 0 p None fl dl, false).
Proof. done. Qed.

Lemma soft_reset_at ct l v dl e k ds m : has ct CTL_SRST = false → Forall (λ n, n < 3000)%nat dl →
  ∃ dl' c', (outb reg_ctl 0;; outb reg_ctl CTL_SRST;; outb reg_ctl 0) (at_ ct fl base q l v Idle None dl e k ds m) = Ok ((), c') ∧
    resetting l 0 dl' e k ds c' ∧ Forall (λ n, n < 3000)%nat dl' ∧
    (existsb (λ dr : option drive * regs, bool_decide (is_Some dr.1)) l = false →
     ∃ m, c' = at_ 0 fl base q (reset_drive <$> l) 0 Idle None dl' e k ds m).
Proof.
  intros Hct Hdl.
  rewrite (M_bind_step _ _ _ () (at_ 0 fl base q l v Idle None dl e k ds m))
    by (rewrite outb_quiet, write_ctl_held by (by rewrite Hct); done).
  rewrite (M_bind_step _ _ _ () (at_ CTL_SRST fl base q l 0 Idle None dl e k ds m))
    by (rewrite outb_quiet, write_ctl_held by done; done).
  rewrite outb_quiet, write_ctl_released. destruct (existsb _ l) eqn:Hex.
  - exists (drop 1 dl). eexists. split; [reflexivity|]. split; [|split; [by apply Forall_drop|done]]. exists m.
    destruct (start_cases 0 fl ToReset l 0 Idle dl) as [-> | (n & Hin & ->)]; [by left|right].
    exists n. split; [|done]. rewrite Forall_forall in Hdl. specialize (Hdl _ Hin). lia.
  - assert (reset_drive <$> l = l) as Hl.
    { clear -Hex. induction l as [|[[d|] r] l IH]; [done|done|]. simpl. f_equal. by apply IH. }
    exists dl. eexists. split; [reflexivity|]. unfold resetting. rewrite Hl. split; [exists m; by left|by eauto].
Qed.

(** Waiting for a drive that answers brings the channel out of the reset. *)
Lemma await_reset l v dl e k ds c dev (body : CM ()) d r : resetting l v dl e k ds c →
  responds l (if dev =? 1 then 0xb0 else 0xa0) d r →
  (∀ v c, resetting l v dl e k ds c → ∃ c', body c = Ok ((), c') ∧ resetting l v dl e k ds c') → ∃ v' m,
  (select_device dev;; body;; _ ← wait_while_busy dev; mret ()) c =
  Ok ((), at_ 0 fl base q (reset_drive <$> l) v' Idle None dl e k ds m).
Proof.
  intros Hc Hr Hb. destruct (resetting_select _ _ _ _ _ _ dev _ Hc) as (c1 & E1 & H1).
  rewrite (M_bind_step _ _ _ _ _ E1). destruct (Hb _ _ H1) as (c2 & E2 & H2). rewrite (M_bind_step _ _ _ _ _ E2).
  destruct (resetting_busy _ _ _ _ _ _ dev _ _ _ Hr H2) as (b & m & E3). rewrite (M_bind_step _ _ _ _ _ E3).
  eexists _, m. reflexivity.
Qed.

Definition reset_regs (x : option drive) (r : regs) : regs :=
  match x with Some d => signature d | None => r end.

Lemma reset_bay x0 x1 r0 r1 : reset_drive <$> bay x0 x1 r0 r1 = bay x0 x1 (reset_regs x0 r0) (reset_regs x1 r1).
Proof. by destruct x0, x1. Qed.

Lemma resetting_again l v dl e k ds m : resetting l v dl e k ds (at_ 0 fl base q (reset_drive <$> l) v Idle None dl e k ds m).
Proof. exists m. by left. Qed.

Lemma reset_channel_at ct x0 x1 r0 r1 v dl e k ds m : has ct CTL_SRST = false → Forall (λ n, n < 3000)%nat dl →
  ∃ r0' r1' v' dl' m', Forall (λ n, n < 3000)%nat dl' ∧
  reset_channel (at_ ct fl base q (bay x0 x1 r0 r1) v Idle None dl e k ds m) =
  Ok ((), at_ 0 fl base q (bay x0 x1 (reset_regs x0 r0') (reset_regs x1 r1')) v' Idle None dl' e k ds m').
Proof.
  intros Hct Hdl. unfold reset_channel. do 2 (erewrite M_bind_step by (apply probe_at; unfold dev_ok; lia)).
  set (s0 := marked (marked r0)). set (s1 := marked (marked r1)). exists s0, s1. rewrite <- reset_bay.
  destruct (soft_reset_at ct (bay x0 x1 s0 s1) 176 dl e k ds m Hct Hdl) as (dl' & c1 & E1 & H1 & Hdl' & Hnone).
  apply M_bind_Ok in E1 as (? & c2 & E2 & (? & c3 & E3 & E4)%M_bind_Ok).
  rewrite (M_bind_step _ _ _ _ _ E2), (M_bind_step _ _ _ _ _ E3), (M_bind_step _ _ _ _ _ E4). clear E2 E3 E4.
  assert (∃ v c, (if bool_decide (is_Some (if 0 =? 1 then x1 else x0))
      then select_device 0;; _ ← wait_while_busy 0; mret () else mret ()) c1 = Ok ((), c) ∧
    resetting (bay x0 x1 s0 s1) v dl' e k ds c ∧
    (is_Some x0 ∨ x1 = None → ∃ m, c = at_ 0 fl base q (reset_drive <$> bay x0 x1 s0 s1) v Idle None dl' e k ds m))
    as (v4 & c4 & E4 & H4 & Hq).
  { simpl. destruct x0 as [d|]; simpl.
    2: { exists 0, c1. splits; try done. intros [[? ?] | Ex]; [done|]. subst x1. by apply Hnone. }
    destruct (await_reset _ _ _ _ _ _ c1 0 (mret ()) d s0 H1) as (v' & m' & E'); [done|by eauto|].
    eexists v', _. split; [exact E'|]. split; [apply resetting_again|by eauto]. }
  rewrite (M_bind_step _ _ _ _ _ E4). simpl (if 1 =? 1 then _ else _).
  destruct x1 as [d|] eqn:Ex1.
  - destruct (await_reset _ _ _ _ _ _ c4 1 (slave_loop 3000) d s1 H4) as (v' & m' & E'); [done| |by exists v', dl', m'].
    intros. by apply resetting_slave.
  - destruct Hq as [m' ->]; [by right|]. by exists v4, dl', m'.
Qed.

(** ** Identification *)

Lemma check_device_type_at dev x0 x1 r0 r1 v dl e k d0 d1 m : dev_ok dev →
  let l := bay x0 x1 (reset_regs x0 r0) (reset_regs x1 r1) in
  let d := if dev =? 1 then d1 else d0 in
  check_device_type dev (at_ 0 fl base q l v Idle None dl e k [d0; d1] m) =
  Ok (true, at_ 0 fl base q l (if dev =? 1 then 0xb0 else 0xa0) Idle None dl e k
    (<[Z.to_nat dev := mkDisk (holds_disk (if dev =? 1 then x1 else x0)) (capacity d) (read_cnt d) (write_cnt d)]> [d0; d1]) m).
Proof.
  intros Hd l d. unfold check_device_type.
  rewrite (M_bind_step _ _ _ _ _ (select_device_quiet _ _ _ _ _ _ _ _ _ _ _ _ _)).
  do 4 rewrite (M_bind_step _ _ _ _ _ (inb_quiet _ _ _ _ _ _ _ _ _ _ _ _ _)).
  destruct Hd as [-> | ->]; [destruct x0 as [[[] ss id]|]|destruct x1 as [[[] ss id]|]]; try reflexivity;
    cbn [Z.eqb Pos.eqb]; do 4 (erewrite read_absent by reflexivity).
  all: erewrite M_bind_step by (by apply get_disk_at).
  all: replace ((negb (fl =? 1) && _) || _ || _) with true by (destruct (Z.eqb_spec fl 1) as [->|]; [done|];
    destruct (Z.eqb_spec fl 129); [done|done]).
  all: erewrite M_bind_step by (apply put_disk_at; simpl; lia).
  all: destruct (Z.eqb_spec fl 129); done.
Qed.

Lemma identify_at dev (l : list (option drive * regs)) v dl e ds m d dr r : dev_ok dev →
  zget ds dev = Some d → is_ata d = true → l !! Z.to_nat dev = Some (Some dr, r) → is_disk dr = true → identity_wf dr →
  ∃ m', identify_ata_device dev (at_ 0 fl base q l v Idle None dl e 0 ds m) =
  Ok ((), at_ 0 fl base q l (if dev =? 1 then 0xb0 else 0xa0) Idle None (drop 1 dl) true 0
    (<[Z.to_nat dev := mkDisk true (Z.of_nat (length (sectors dr))) (read_cnt d) (write_cnt d)]> ds) m').
Proof.
  intros Hdev Hd Ha Hl Hi [[Hil Hiu] Hid]. unfold identify_ata_device.
  erewrite M_bind_step by (by apply get_disk_at). rewrite (M_bind_step _ _ _ _ _ (check_true _ _ Ha)).
  destruct (select_device_wait_quiet 0 fl base q dev l v dl e 0 ds m) as [m1 E1]. rewrite (M_bind_step _ _ _ _ _ E1).
  set (v1 := if dev =? 1 then 0xb0 else 0xa0).
  assert (responds l v1 dr r) as Hr by (unfold responds, v1; by destruct Hdev as [-> | ->]).
  assert (write_reg reg_command (u8 CMD_IDENTIFY_DEVICE) (mkHw l v1 0 Idle None fl dl) =
    start (ToSend (identity dr)) (mkHw l v1 0 Idle None fl dl)) as Ec.
  { transitivity (command CMD_IDENTIFY_DEVICE (mkHw l v1 0 Idle None fl dl)); [done|]. unfold command.
    rewrite (responding_at _ _ _ _ _ _ _ _ _ Hr). simpl. by rewrite Hi. }
  destruct (start _ _) as [h b] eqn:Es in Ec.
  rewrite (M_bind_step _ _ _ _ _ (issue_quiet _ _ _ _ _ _ _ _ _ _ _ _ _ Ec)).
  pose proof (completion_down_done 0 fl base q _ _ _ _ _ ds m1 _ _ (eq_sym Es) eq_refl) as Ed. cbn [fst snd] in Ed.
  rewrite (M_bind_step _ _ _ _ _ Ed). clear Ed Es Ec E1.
  destruct (busy_loop_ready 0 fl base q 2999 0 dev _ _ (Sending (identity dr)) (drop 1 dl) true 0 ds m1 _ _ Hr) as [m2 E2].
  rewrite (M_bind_step _ _ _ true _ E2). cbn [negb].
  rewrite (M_bind_step _ _ _ _ _ (insw_all _ _ _ _ 256 _ _ (identity dr) _ _ _ _ _ Hil Hiu ltac:(lia))).
  pose proof (id_word_range (identity dr) 60 Hiu). pose proof (id_word_range (identity dr) 61 Hiu).
  replace (Z.lor _ _) with (Z.of_nat (length (sectors dr))).
  2: { rewrite u32_small, lor_field by (rewrite ?Z.shiftl_mul_pow2 by lia; lia). lia. }
  rewrite Ha. erewrite M_bind_step by (apply put_disk_at; by eapply zget_Some_range).
  eexists. reflexivity.
Qed.
End Detect.

(** * Channels as pairs of arrays *)

(** The disk structure describes the drive. *)
Definition disk_matches (d : disk) (dr : option drive * regs) : Prop :=
  is_ata d = holds_disk dr.1 ∧
  ∀ x, dr.1 = Some x → is_disk x = true → drive_wf x ∧ capacity d = Z.of_nat (length (sectors x)).

(** The state between two operations. *)
Record chan_ok (c : channel) : Prop := {
  ok_work : work (port c) = None;
  ok_now : now (port c) = Idle;
  ok_level : level c = true;
  ok_completion : completion_wait c = 0;
  ok_delays : Forall (λ n, n < 3000)%nat (delays (port c));
  ok_two : length (devices c) = 2%nat;
  ok_disks : Forall2 disk_matches (devices c) (drives (port c))
}.

(** What the channel stores: an array of sectors for each disk. *)
Definition array_of (dr : option drive * regs) : option (list (list Z)) :=
  if holds_disk dr.1 then sectors <$> dr.1 else None.
Definition arrays (c : channel) : list (option (list (list Z))) := array_of <$> drives (port c).

Lemma chan_ok_at c : chan_ok c → ∃ ct fl base q l v dl e ds m,
  c = at_ ct fl base q l v Idle None dl e 0 ds m.
Proof.
  intros [H1 H2 H3 H4 _ _ _]. destruct c as [[l v ct p w fl dl] base q e k ds lv m]; simpl in *; subst.
  by eexists _, _, _, _, _, _, _, _, _, _.
Qed.

Section Array.
Context (c : channel) (Hok : chan_ok c) (dev : Z) (a : list (list Z)) (Ha : zget (arrays c) dev = Some (Some a)).

Lemma array_disk : ∃ d dr r, zget (devices c) dev = Some d ∧ dev_ok dev ∧ disk_matches d (Some dr, r) ∧
  drives (port c) !! Z.to_nat dev = Some (Some dr, r) ∧ drive_wf dr ∧ sectors dr = a ∧
  capacity d = Z.of_nat (length a).
Proof.
  unfold arrays, zget in Ha. destruct (Z.ltb_spec dev 0) as [|Hn]; [done|].
  rewrite list_lookup_fmap in Ha. destruct (drives (port c) !! Z.to_nat dev) as [[x r]|] eqn:El; [|done].
  simpl in Ha. injection Ha as Ha'. unfold array_of in Ha'. simpl in Ha'.
  destruct x as [dr|]; simpl in Ha'; [|done]. destruct (is_disk dr) eqn:Hi; [|done]. injection Ha' as Ha'.
  destruct (Forall2_lookup_r _ _ _ _ _ (ok_disks c Hok) El) as (d & Ed & Hata & Hm). simpl in *.
  destruct (Hm dr eq_refl Hi) as [Hwf Hcap]. pose proof (lookup_lt_Some _ _ _ Ed) as Hlt.
  rewrite (ok_two c Hok) in Hlt. exists d, dr, r. unfold zget. rewrite (proj2 (Z.ltb_ge _ _) Hn), Ha' in *.
  splits; try done. unfold dev_ok; lia.
Qed.
End Array.

Lemma addressed_arrays sec l : array_of <$> addressed sec l = array_of <$> l.
Proof. unfold addressed. rewrite <- list_fmap_compose. by apply list_fmap_ext. Qed.

Lemma addressed_lookup sec l i y : l !! i = Some y → addressed sec l !! i =
  Some (prod_map id (λ r, mkRegs (r_error r) 1 (u8 sec) (u8 (Z.shiftr sec 8)) (u8 (Z.shiftr sec 16))) y).
Proof. intros H. unfold addressed. by rewrite list_lookup_fmap, H. Qed.

Lemma counted_matches w d dr sec : disk_matches d dr →
  disk_matches (counted w d) (prod_map id (λ r, mkRegs (r_error r) 1 (u8 sec) (u8 (Z.shiftr sec 8)) (u8 (Z.shiftr sec 16))) dr).
Proof. intros [? ?]. by destruct w. Qed.

Lemma addressed_matches sec ds l : Forall2 disk_matches ds l → Forall2 disk_matches ds (addressed sec l).
Proof. intros H. unfold addressed. rewrite Forall2_fmap_r. by eapply Forall2_impl. Qed.

Lemma alter_insert {A} (f : A → A) (l : list A) i y : l !! i = Some y → alter f i l = <[i := f y]> l.
Proof.
  revert i. induction l as [|z l IH]; intros [|i] H; [done|done|by injection H as ->|].
  change (z :: alter f i l = z :: <[i := f y]> l). f_equal. by apply IH.
Qed.

(** The outcomes of an operation on a disk. *)
Lemma disk_read_ok c dev a sec bs : chan_ok c → zget (arrays c) dev = Some (Some a) → zget a sec = Some bs →
  ∃ c', disk_read dev sec c = Ok (bs, c') ∧ chan_ok c' ∧ arrays c' = arrays c.
Proof.
  intros Hok Ha Hz. destruct (array_disk c Hok dev a Ha) as (d & dr & r & Hd & Hdev & Hmd & Hl & Hwf & <- & Hcap).
  pose proof (ok_delays c Hok) as Hdl. pose proof (ok_two c Hok) as H2. pose proof (ok_disks c Hok) as Hm.
  destruct (chan_ok_at c Hok) as (ct & fl & base & q & l & v & dl & e & ds & m & ->). simpl in *.
  destruct (disk_read_at ct fl base q dev sec d dr r l ds Hdev Hd Hl Hwf Hcap bs v dl e m Hz) as [m' E].
  eexists. split; [exact E|]. split; [|by apply addressed_arrays].
  split; try done; simpl; [by apply Forall_drop|by rewrite length_insert|].
  rewrite <- (list_insert_id (addressed sec l) (Z.to_nat dev) _ (addressed_lookup sec l _ _ Hl)).
  apply Forall2_insert; [by apply addressed_matches|by apply (counted_matches false d _ sec)].
Qed.

Lemma disk_write_ok c dev a sec bs : chan_ok c → zget (arrays c) dev = Some (Some a) →
  0 <= sec < Z.of_nat (length a) → sector_wf bs →
  ∃ c', disk_write dev sec bs c = Ok ((), c') ∧ chan_ok c' ∧
    arrays c' = <[Z.to_nat dev := Some (<[Z.to_nat sec := bs]> a)]> (arrays c).
Proof.
  intros Hok Ha Hs Hbs. destruct (array_disk c Hok dev a Ha) as (d & dr & r & Hd & Hdev & Hmd & Hl & Hwf & <- & Hcap).
  pose proof (ok_delays c Hok) as Hdl. pose proof (ok_two c Hok) as H2. pose proof (ok_disks c Hok) as Hm.
  destruct (chan_ok_at c Hok) as (ct & fl & base & q & l & v & dl & e & ds & m & ->). simpl in *.
  destruct (zget_is_Some (sectors dr) sec Hs) as [old Hz].
  destruct (disk_write_at ct fl base q dev sec d dr r l ds Hdev Hd Hl Hwf Hcap bs old v dl e m Hz Hbs Hdl)
    as (dl' & m' & Hdl' & E).
  eexists. split; [exact E|]. rewrite (alter_insert _ _ _ _ (addressed_lookup sec l _ _ Hl)).
  destruct Hwf as (Hi & Hsec & Hn). unfold arrays. cbn [port at_ drives]. split.
  - split; try done; simpl; [by rewrite length_insert|].
    apply Forall2_insert; [by apply addressed_matches|]. destruct Hmd as [Hata _]. split; [done|].
    simpl. intros x [= <-] _. simpl. rewrite length_insert. split; [|done].
    split; [done|]. simpl. rewrite length_insert. split; [by apply Forall_insert|done].
  - rewrite list_fmap_insert, addressed_arrays. f_equal. unfold array_of. simpl. by rewrite Hi.
Qed.

Lemma disk_beyond c dev a sec bs : chan_ok c → zget (arrays c) dev = Some (Some a) → Z.of_nat (length a) <= sec →
  disk_read dev sec c = Err AssertFail ∧ disk_write dev sec bs c = Err AssertFail.
Proof.
  intros Hok Ha Hs. destruct (array_disk c Hok dev a Ha) as (d & dr & r & Hd & _ & _ & _ & _ & _ & Hcap).
  destruct (chan_ok_at c Hok) as (ct & fl & base & q & l & v & dl & e & ds & m & ->). simpl in *.
  assert (select_sector dev sec (at_ ct fl base q l v Idle None dl e 0 ds m) = Err AssertFail) as E
    by (eapply select_sector_beyond; [done|lia]).
  unfold disk_read, disk_write. split; unfold mbind at 1, M_bind at 1; by rewrite E.
Qed.

(** The channel at power-on: idle, not held in reset, with well-formed drives. *)
Record powered_on (h : hw) : Prop := {
  on_work : work h = None;
  on_now : now h = Idle;
  on_ctl : has (r_ctl h) CTL_SRST = false;
  on_floating : floating h ≠ 0x81;
  on_delays : Forall (λ n, n < 3000)%nat (delays h);
  on_two : length (drives h) = 2%nat;
  on_drives : Forall (λ dr, slot_wf dr.1) (drives h)
}.

(** Identifying the drive of one position. *)
Lemma identify_position fl base q dev x0 x1 r0 r1 v dl e ds d m : dev_ok dev → length ds = 2%nat →
  Forall (λ n, n < 3000)%nat dl →
  slot_wf (if dev =? 1 then x1 else x0) → zget ds dev = Some d → is_ata d = holds_disk (if dev =? 1 then x1 else x0) →
  ∃ v' dl' e' d' m', Forall (λ n, n < 3000)%nat dl' ∧ disk_matches d' (if dev =? 1 then x1 else x0, r0) ∧
  (d ← get_disk dev; if is_ata d then identify_ata_device dev else mret ())
    (at_ 0 fl base q (bay x0 x1 r0 r1) v Idle None dl e 0 ds m) =
  Ok ((), at_ 0 fl base q (bay x0 x1 r0 r1) v' Idle None dl' e' 0 (<[Z.to_nat dev := d']> ds) m').
Proof.
  intros Hdev Hlen Hdl Hx Hd Ha. erewrite M_bind_step by (by apply get_disk_at). rewrite Ha.
  assert (ds !! Z.to_nat dev = Some d) as Hd' by (unfold zget in Hd; by destruct (dev <? 0)).
  destruct (holds_disk _) eqn:Hh.
  - destruct (if dev =? 1 then x1 else x0) as [dr|] eqn:Ex; [|done]. simpl in Hh. destruct (Hx Hh) as [Hwf Hid].
    destruct (identify_at fl base q dev (bay x0 x1 r0 r1) v dl e ds m d dr (if dev =? 1 then r1 else r0))
      as [m' E]; [done|done|done| |done|done|].
    { destruct Hdev as [-> | ->]; simpl in *; by subst. }
    eexists _, (drop 1 dl), true, _, m'. split; [by apply Forall_drop|]. split; [|exact E].
    split; [done|]. simpl. intros x [= <-] _. by split.
  - exists v, dl, e, d, m. split; [done|]. split.
    + split; [simpl; congruence|]. simpl. intros x Ex Hi. rewrite Ex in Hh. simpl in Hh. congruence.
    + by rewrite list_insert_id.
Qed.

Lemma init_channel_ok c chan_no : powered_on (port c) → level c = true → chan_no = 0 ∨ chan_no = 1 →
  ∃ c', init_channel chan_no c = Ok ((), c') ∧ chan_ok c' ∧ arrays c' = arrays c ∧ irq c' = 0x2e + chan_no.
Proof.
  intros [Hw Hn Hct Hfl Hdl H2 Hdr] Hlv Hno. destruct c as [[l v ct p w fl dl] base q e k ds lv m]; simpl in *; subst.
  destruct l as [|[x0 r0] [|[x1 r1] [|]]]; try done. clear H2. apply Forall_cons in Hdr as [Hx0 [Hx1 _]%Forall_cons].
  simpl in Hx0, Hx1. unfold init_channel. rewrite getS_step.
  set (b := if chan_no =? 0 then 0x1f0 else 0x170).
  rewrite (M_bind_step _ _ _ (b, 0x2e + chan_no) (mkChannel (mkHw [(x0, r0); (x1, r1)] v ct Idle None fl dl) base q e k ds true m))
    by (by destruct Hno as [-> | ->]).
  set (z := mkDisk false 0 0 0).
  rewrite (M_bind_step _ _ _ () (at_ ct fl b (0x2e + chan_no) (bay x0 x1 r0 r1) v Idle None dl false 0 [z; z] m)) by done.
  destruct (reset_channel_at fl b (0x2e + chan_no) Hfl ct x0 x1 r0 r1 v dl false 0 [z; z] m Hct Hdl)
    as (s0 & s1 & v1 & dl1 & m1 & Hdl1 & E1). rewrite (M_bind_step _ _ _ _ _ E1). clear E1.
  erewrite M_bind_step by (apply (check_device_type_at fl b _ Hfl 0); by left).
  rewrite (M_bind_step _ _ _ () (at_ 0 fl b (0x2e + chan_no) (bay x0 x1 (reset_regs x0 s0) (reset_regs x1 s1)) 0xb0 Idle None dl1
    false 0 [mkDisk (holds_disk x0) 0 0 0; mkDisk (holds_disk x1) 0 0 0] m1)).
  2: { erewrite M_bind_step by (apply (check_device_type_at fl b _ Hfl 1); by right). done. }
  set (t0 := reset_regs x0 s0). set (t1 := reset_regs x1 s1).
  destruct (identify_position fl b (0x2e + chan_no) 0 x0 x1 t0 t1 0xb0 dl1 false
    [mkDisk (holds_disk x0) 0 0 0; mkDisk (holds_disk x1) 0 0 0] (mkDisk (holds_disk x0) 0 0 0) m1)
    as (v2 & dl2 & e2 & d0 & m2 & Hdl2 & Hm0 & E2); try done; [by left|].
  apply M_bind_Ok in E2 as (d & c2 & Ed & E2). rewrite (M_bind_step _ _ _ _ _ Ed), (M_bind_step _ _ _ _ _ E2). clear Ed E2 d c2.
  destruct (identify_position fl b (0x2e + chan_no) 1 x0 x1 t0 t1 v2 dl2 e2
    [d0; mkDisk (holds_disk x1) 0 0 0] (mkDisk (holds_disk x1) 0 0 0) m2)
    as (v3 & dl3 & e3 & d1 & m3 & Hdl3 & Hm1 & E3); try done; [by right|].
  eexists. split; [exact E3|]. split; [|done].
  split; try done. change (Forall2 disk_matches [d0; d1] (bay x0 x1 t0 t1)).
  constructor; [exact Hm0|]. constructor; [exact Hm1|constructor].
Qed.

(** * Sequences of operations *)

Inductive disk_op := ReadSector (dev sec : Z) | WriteSector (dev sec : Z) (bs : list Z).

Definition driver_step (o : disk_op) : CM (list Z) :=
  match o with
  | ReadSector dev sec => disk_read dev sec
  | WriteSector dev sec bs => disk_write dev sec bs;; mret []
  end.
Fixpoint driver_run (ops : list disk_op) : CM (list (list Z)) :=
  match ops with
  | [] => mret []
  | o :: ops => r ← driver_step o; rs ← driver_run ops; mret (r :: rs)
  end.

(** The same on arrays, with the operations of the disk in memory that the
    buffer cache is run on. *)
Definition array_step (o : disk_op) : M (list (option Cache.ramdisk)) (list Z) :=
  match o with
  | ReadSector dev sec => λ a,
      x ← of_option (zget a dev ≫= id);
      bs ← Cache.disk_read (x : Cache.ramdisk) sec; Ok (bs, a)
  | WriteSector dev sec bs => λ a,
      x ← of_option (zget a dev ≫= id);
      if bool_decide (sector_wf bs) then
        x ← Cache.disk_write (x : Cache.ramdisk) sec bs; Ok ([], <[Z.to_nat dev := Some x]> a)
      else Err WildAccess
  end.
Fixpoint array_run (ops : list disk_op) : M (list (option Cache.ramdisk)) (list (list Z)) :=
  match ops with
  | [] => mret []
  | o :: ops => r ← array_step o; rs ← array_run ops; mret (r :: rs)
  end.

Lemma driver_step_ok o c r a' : chan_ok c → array_step o (arrays c) = Ok (r, a') →
  ∃ c', driver_step o c = Ok (r, c') ∧ chan_ok c' ∧ arrays c' = a'.
Proof.
  intros Hok. assert (∀ dev x, zget (arrays c) dev ≫= id = Some x → zget (arrays c) dev = Some (Some x)) as Hj.
  { intros dev x H. by destruct (zget (arrays c) dev) as [[y|]|]; simplify_eq/=. }
  destruct o as [dev sec|dev sec bs]; unfold array_step.
  - intros (x & Ex & H)%bind_Ok. destruct (zget _ dev ≫= id) as [y|] eqn:Ey; simplify_eq/=. apply Hj in Ey.
    apply bind_Ok in H as (bs & Eb & [= <- <-]). destruct (zget x sec) as [b|] eqn:Ez; simplify_eq/=.
    destruct (disk_read_ok c dev x sec b Hok Ey Ez) as (c' & E & Hok' & Ha). exists c'. splits; try done.
    destruct (array_disk c Hok dev x Ey) as (d & dr & r' & _ & _ & _ & _ & (_ & Hs & _) & <- & _).
    assert (sector_wf b) as [Hb _]. { unfold zget in Ez. destruct (sec <? 0); [done|]. by eapply lookup_Forall. }
    by rewrite <- Hb, resize_all.
  - intros (x & Ex & H)%bind_Ok. destruct (zget _ dev ≫= id) as [y|] eqn:Ey; simplify_eq/=. apply Hj in Ey.
    case_bool_decide as Hbs; [|done]. apply bind_Ok in H as (x' & Ew & [= <- <-]).
    unfold zset in Ew. destruct (_ && _) eqn:Hr; simplify_eq/=. apply andb_true_iff in Hr as [Hr1 Hr2].
    destruct (disk_write_ok c dev x sec bs Hok Ey) as (c' & E & Hok' & Ha); [lia|done|].
    exists c'. splits; try done. by rewrite (M_bind_step _ _ _ _ _ E).
Qed.

Lemma driver_run_ok ops c rs a' : chan_ok c → array_run ops (arrays c) = Ok (rs, a') →
  ∃ c', driver_run ops c = Ok (rs, c') ∧ chan_ok c' ∧ arrays c' = a'.
Proof.
  revert c rs. induction ops as [|o ops IH]; intros c rs Hok; cbn [array_run driver_run]; [intros [= <- <-]; by exists c|].
  intros (r & a1 & E1 & (rs1 & a2 & E2 & [= <- <-])%M_bind_Ok)%M_bind_Ok.
  destruct (driver_step_ok o c r a1 Hok E1) as (c1 & Ed & Hok1 & <-).
  destruct (IH c1 rs1 Hok1 E2) as (c2 & Er & Hok2 & Ha).
  exists c2. splits; try done. by rewrite (M_bind_step _ _ _ _ _ Ed), (M_bind_step _ _ _ _ _ Er).
Qed.

(** C14: The disk driver turns the registers and interrupts of an ATA channel into
    arrays of sectors.  From power-on, with any combination of disks, packet drives
    and empty positions and with drives that take any number of polls below the
    driver's limit to answer, detection ends with exactly the disks that are
    there; then every sequence of reads and writes of sectors that makes sense on
    two arrays returns what the arrays return and leaves the disks with the
    contents of the arrays, the other disk of the channel untouched.  A sector
    number beyond the capacity fails an assertion before any register is
    written. *)
Theorem disk_driver_refines_arrays (c : channel) (chan_no : Z) (Hon : powered_on (port c)) (Hlevel : level c = true)
  (Hno : chan_no = 0 ∨ chan_no = 1) :
  ∃ c0, init_channel chan_no c = Ok ((), c0) ∧ arrays c0 = arrays c ∧
    Forall2 (λ d dr, is_ata d = holds_disk dr.1) (devices c0) (drives (port c0)) ∧
    ∀ ops rs a, array_run ops (arrays c) = Ok (rs, a) →
      ∃ c', driver_run ops c0 = Ok (rs, c') ∧ arrays c' = a ∧
        ∀ dev x sec bs, zget a dev = Some (Some x) → Z.of_nat (length x) <= sec →
          disk_read dev sec c' = Err AssertFail ∧ disk_write dev sec bs c' = Err AssertFail.
Proof.
  destruct (init_channel_ok c chan_no Hon Hlevel Hno) as (c0 & Ei & Hok & Ha & _). exists c0. splits; try done.
  { eapply Forall2_impl; [exact (ok_disks c0 Hok)|]. by intros ? ? [? _]. }
  intros ops rs a Hrun. rewrite <- Ha in Hrun. destruct (driver_run_ok ops c0 rs a Hok Hrun) as (c' & Er & Hok' & <-).
  exists c'. splits; try done. intros dev x sec bs Hx Hs. by eapply disk_beyond.
Qed.

(** A packet drive and a disk of three sectors, on a slow channel. *)
Definition sample_identity : list Z := replicate 20 0 ++ [48; 49; 32; 50] ++ replicate 96 32 ++ [3] ++ replicate 391 0.
Definition sample_hw : hw :=
  mkHw [(Some (mkDrive false [] []), mkRegs 7 7 7 7 7);
        (Some (mkDrive true (replicate 3 (replicate 512 7)) sample_identity), mkRegs 9 9 9 9 9)]
    0 0 Idle None 0xff [5; 0; 2; 3; 2999]%nat.
Definition sample_channel : channel := mkChannel sample_hw 0 0 false 0 [] true [].

#[local] Instance drive_wf_dec d : Decision (drive_wf d).
Proof. unfold drive_wf, sector_wf, is_u8. apply _. Defined.
#[local] Instance slot_wf_dec x : Decision (slot_wf x).
Proof. unfold slot_wf, identity_wf, sector_wf, is_u8. destruct x; apply _. Defined.

Lemma sample_powered_on : powered_on sample_hw.
Proof.
  split; try done.
  - refine (bool_decide_eq_true_1 _ _). by vm_compute.
  - refine (bool_decide_eq_true_1 _ _). by vm_compute.
Qed.

Lemma disk_driver_refines_arrays_witness :
  ∃ c0, init_channel 0 sample_channel = Ok ((), c0) ∧ is_ata <$> devices c0 = [false; true] ∧
    ∃ c' : channel, driver_run [WriteSector 1 2 (replicate 512 9); ReadSector 1 2; ReadSector 1 0] c0 =
      Ok ([[]; replicate 512 9; replicate 512 7], c').
Proof.
  destruct (disk_driver_refines_arrays sample_channel 0 sample_powered_on eq_refl (or_introl eq_refl))
    as (c0 & Ei & Ha & Hd & Hrun).
  exists c0. split; [exact Ei|]. split.
  - assert (devices <$> (match init_channel 0 sample_channel with Ok (_, c) => Some c | Err _ => None end) =
      Some (devices c0)) as Hc by (by rewrite Ei).
    assert ((λ ds, is_ata <$> ds) <$> (devices <$> (match init_channel 0 sample_channel with Ok (_, c) => Some c | Err _ => None end)) =
      Some [false; true]) as Hc' by by vm_compute.
    rewrite Hc in Hc'. by injection Hc'.
  - destruct (array_run [WriteSector 1 2 (replicate 512 9); ReadSector 1 2; ReadSector 1 0] (arrays sample_channel))
      as [[rs a]|] eqn:E; [|by vm_compute in E].
    assert (rs = [[]; replicate 512 9; replicate 512 7]) as -> by (vm_compute in E; by injection E).
    destruct (Hrun _ _ _ E) as (c' & Er & _). by exists c'.
Defined.

(** [expecting_interrupt] is never reset: after the first command an interrupt
    that nobody asked for is counted as a completion, and the next write returns
    while the drive has not stored the sector yet. *)
Lemma spurious_interrupt_counted :
  ∃ bs c c', (init_channel 0;; disk_read 1 0) sample_channel = Ok (bs, c) ∧
    completion_wait (interrupt c) = 1 ∧
    disk_write 1 1 (replicate 512 9) (interrupt c) = Ok ((), c') ∧ arrays c' = arrays c.
Proof.
  assert (match (init_channel 0;; disk_read 1 0) sample_channel with
          | Ok (_, c) => (completion_wait (interrupt c) =? 1) &&
              match disk_write 1 1 (replicate 512 9) (interrupt c) with
              | Ok (_, c') => bool_decide (arrays c' = arrays c)
              | Err _ => false
              end
          | Err _ => false
          end = true) as H by by vm_compute.
  destruct ((init_channel 0;; disk_read 1 0) sample_channel) as [[bs c]|]; [|done].
  apply andb_true_iff in H as [H1 H2]. destruct (disk_write _ _ _ (interrupt c)) as [[[] c']|] eqn:E; [|done].
  exists bs, c, c'. splits; try done; [by apply Z.eqb_eq|by apply bool_decide_eq_true_1 in H2].
Qed.
