(* ===== verification/Random.v ===== *)
(** The RC4-based pseudo-random number generator (lib/random.c). *)
From S2P Require Import Prelude.

(** The static variables [s], [s_i], [s_j] and [inited]. *)
Record rng := mkRng { S_ : list Z; s_i : Z; s_j : Z; inited : bool }.

(** [swap_byte (s + a, s + b)]. *)
Definition swap_byte (s : list Z) (a b : Z) : outcome (list Z) :=
  t ← of_option (zget s a);
  v ← of_option (zget s b);
  s ← of_option (zset s a v);
  of_option (zset s b t).

(** Byte [k] of [seed] in memory order. *)
Definition seed_byte (seed k : Z) : Z := Z.land (Z.shiftr seed (8 * k)) 255.

Definition random_init (seed : Z) : outcome rng :=
  s ← for_up 256 0 (λ i s, of_option (zset s i (u8 i))) (replicate 256 0);
  '(s, _) ← for_up 256 0 (λ i '(s, j),
      si ← of_option (zget s i);
      let j := u8 (j + u8 (si + seed_byte seed (i mod 4))) in
      s ← swap_byte s i j; Ok (s, j)) (s, 0);
  Ok (mkRng s 0 0 true).

(** The body of the loop of [random_bytes]. *)
Definition random_byte (r : rng) : outcome (Z * rng) :=
  let i := u8 (s_i r + 1) in
  si ← of_option (zget (S_ r) i);
  let j := u8 (s_j r + si) in
  s ← swap_byte (S_ r) i j;
  a ← of_option (zget s i);
  b ← of_option (zget s j);
  v ← of_option (zget s (u8 (a + b)));
  Ok (v, mkRng s i j (inited r)).

Fixpoint random_bytes_loop (size : nat) (r : rng) : outcome (list Z * rng) :=
  match size with
  | O => Ok ([], r)
  | S size => '(v, r) ← random_byte r; '(vs, r) ← random_bytes_loop size r; Ok (v :: vs, r)
  end.

(** The bytes written to the buffer. *)
Definition random_bytes (size : Z) (r : rng) : outcome (list Z * rng) :=
  r ← (if negb (inited r) then random_init 0 else Ok r);
  random_bytes_loop (Z.to_nat size) r.

(** A little-endian [unsigned long]. *)
Definition random_ulong (r : rng) : outcome (Z * rng) :=
  '(bs, r) ← random_bytes 4 r;
  Ok (fold_right (λ b v, b + 256 * v) 0 bs, r).

(** * The state is a permutation of the bytes *)

Definition all_bytes : list Z := seqZ 0 256.
Definition rng_inv (r : rng) : Prop :=
  S_ r ≡ₚ all_bytes ∧ is_u8 (s_i r) ∧ is_u8 (s_j r) ∧ inited r = true.

Lemma perm_get s i : s ≡ₚ all_bytes → is_u8 i → ∃ v, zget s i = Some v ∧ is_u8 v.
Proof.
  intros Hp Hi. unfold is_u8 in *.
  destruct (zget_is_Some s i) as [v Hv].
  { rewrite (Permutation_length Hp). unfold all_bytes. rewrite length_seqZ. lia. }
  exists v. split; [done|]. assert (v ∈ s) as Hin.
  { unfold zget in Hv. destruct (i <? 0); [done|]. by eapply list_elem_of_lookup_2. }
  rewrite Hp in Hin. apply elem_of_seqZ in Hin. lia.
Qed.

Lemma shuffle_swap_byte_Ok s a b :
  s ≡ₚ all_bytes → is_u8 a → is_u8 b → ∃ s', swap_byte s a b = Ok s' ∧ s' ≡ₚ all_bytes.
Proof.
  intros Hp Ha Hb. destruct (perm_get s a Hp Ha) as (t & Ht & _).
  destruct (perm_get s b Hp Hb) as (v & Hv & _). unfold swap_byte. rewrite Ht, Hv.
  cbn [of_option mbind outcome_bind]. pose proof (zget_Some_range _ _ _ Ht).
  pose proof (zget_Some_range _ _ _ Hv).
  rewrite zset_Some by done. cbn [of_option mbind outcome_bind].
  rewrite zset_Some by (by rewrite length_insert). eexists. split; [reflexivity|].
  rewrite <- Hp. unfold zget in Ht, Hv. destruct (a <? 0), (b <? 0); try done.
  by apply Permutation_insert_swap.
Qed.

Lemma init_loop_Ok :
  for_up 256 0 (λ i s, of_option (zset s i (u8 i))) (replicate 256 0) = Ok all_bytes.
Proof. by vm_compute. Qed.

Lemma random_init_Ok seed : ∃ r, random_init seed = Ok r ∧ rng_inv r.
Proof.
  unfold random_init. erewrite bind_step by apply init_loop_Ok.
  destruct (for_up_inv (λ _ '(s, j), s ≡ₚ all_bytes ∧ is_u8 j)
    (λ i '(s, j), si ← of_option (zget s i);
      let j := u8 (j + u8 (si + seed_byte seed (i mod 4))) in
      s ← swap_byte s i j; Ok (s, j)) 256 0 (all_bytes, 0)) as ([s j] & E & Hs & Hj).
  - by split.
  - intros k [s j] Hk [Hs Hj]. assert (is_u8 k) as Hku by (unfold is_u8; lia).
    destruct (perm_get s k Hs Hku) as (v & Hv & _). rewrite Hv. cbn [of_option mbind outcome_bind].
    set (j' := u8 _). assert (is_u8 j') as Hj' by apply u8_range.
    destruct (shuffle_swap_byte_Ok s k j' Hs Hku Hj') as (s' & E & Hs'). rewrite E.
    exists (s', j'). split; [done|by split].
  - erewrite bind_step by exact E. eexists. split; [reflexivity|].
    unfold rng_inv; simpl. by repeat split.
Qed.

Lemma random_byte_Ok r :
  rng_inv r → ∃ v r', random_byte r = Ok (v, r') ∧ is_u8 v ∧ rng_inv r'.
Proof.
  intros (Hs & Hi & Hj & Hin). unfold random_byte. set (i := u8 _).
  assert (is_u8 i) as Hi' by apply u8_range.
  destruct (perm_get _ i Hs Hi') as (si & Hsi & _). rewrite Hsi. cbn [of_option mbind outcome_bind].
  set (j := u8 _). assert (is_u8 j) as Hj' by apply u8_range.
  destruct (shuffle_swap_byte_Ok _ i j Hs Hi' Hj') as (s' & E & Hs'). erewrite bind_step by exact E.
  destruct (perm_get _ i Hs' Hi') as (a & Ha & _), (perm_get _ j Hs' Hj') as (b & Hb & _).
  rewrite Ha, Hb. cbn [of_option mbind outcome_bind].
  assert (is_u8 (u8 (a + b))) as Hk by apply u8_range.
  destruct (perm_get _ _ Hs' Hk) as (v & Hv & Hvr). rewrite Hv. cbn [of_option mbind outcome_bind].
  eexists v, _. split; [reflexivity|]. unfold rng_inv. by splits.
Qed.

Lemma random_bytes_loop_Ok n r :
  rng_inv r → ∃ vs r', random_bytes_loop n r = Ok (vs, r') ∧ length vs = n ∧
    Forall is_u8 vs ∧ rng_inv r'.
Proof.
  revert r. induction n as [|n IH]; intros r Hr; cbn [random_bytes_loop].
  { exists [], r. by splits. }
  destruct (random_byte_Ok r Hr) as (v & r1 & E1 & Hv & Hr1).
  destruct (IH r1 Hr1) as (vs & r2 & E2 & Hl & Hvs & Hr2).
  erewrite bind_step by exact E1. cbv beta iota. erewrite bind_step by exact E2.
  eexists _, _. split; [reflexivity|]. splits; [simpl; by rewrite Hl|by constructor|done].
Qed.

(** The random number generator stays in bounds.  Seeded with any value,
    or used unseeded, [random_bytes] fills the buffer with exactly [size]
    bytes without any access outside the state array, the state array remains
    a permutation of the 256 byte values, and [random_ulong] is below 2^32. *)
Theorem random_in_bounds seed size r :
  0 <= size →
  (inited r = false ∨ rng_inv r) →
  (∃ r0, random_init seed = Ok r0 ∧ rng_inv r0) ∧
  (∃ vs r', random_bytes size r = Ok (vs, r') ∧ Z.of_nat (length vs) = size ∧
     Forall is_u8 vs ∧ rng_inv r') ∧
  (∃ v r', random_ulong r = Ok (v, r') ∧ is_u32 v ∧ rng_inv r').
Proof.
  intros Hsz Hr. split; [apply random_init_Ok|].
  assert (∃ r1, (if negb (inited r) then random_init 0 else Ok r) = Ok r1 ∧ rng_inv r1)
    as (r1 & E1 & Hr1).
  { destruct Hr as [Hf|Hr]; [rewrite Hf; apply random_init_Ok|].
    pose proof Hr as (_ & _ & _ & Hin). rewrite Hin. by exists r. }
  split.
  - destruct (random_bytes_loop_Ok (Z.to_nat size) r1 Hr1) as (vs & r' & E & Hl & Hv & Hr').
    exists vs, r'. unfold random_bytes. erewrite bind_step by exact E1. splits; try done. lia.
  - destruct (random_bytes_loop_Ok 4 r1 Hr1) as (vs & r' & E & Hl & Hv & Hr').
    destruct vs as [|a [|b [|c [|d [|? ?]]]]]; try done. unfold random_ulong.
    erewrite bind_step by (unfold random_bytes; erewrite bind_step by exact E1; exact E).
    eexists _, r'. split; [reflexivity|]. split; [|done].
    apply Forall_cons in Hv as [Ha Hv]. apply Forall_cons in Hv as [Hb Hv].
    apply Forall_cons in Hv as [Hc Hv]. apply Forall_cons in Hv as [Hd _].
    unfold is_u8, is_u32 in *. simpl. lia.
Qed.

Lemma random_in_bounds_witness :
  ∃ r0, random_init 42 = Ok r0 ∧
    ∃ vs r', random_bytes 3 (mkRng (replicate 256 0) 0 0 false) = Ok (vs, r') ∧ length vs = 3%nat.
Proof.
  destruct (random_in_bounds 42 3 (mkRng (replicate 256 0) 0 0 false))
    as ((r0 & E0 & _) & (vs & r' & E & Hl & _) & _); [lia|by left|].
  exists r0. split; [done|]. exists vs, r'. split; [done|]. lia.
Defined.
