(* ===== verification/Hash.v ===== *)
(** The chained hash table (lib/kernel/hash.c) used by the supplemental page
    table and others.

    An element is its address; the table's [hash] and [less] functions are
    parameters.  A bucket is the sequence of its elements: the list operations
    used on buckets are those whose effect on the sequence is proved for
    list.c ([list_push_front] conses, [list_remove] takes the element out of
    the bucket it is in).  Whether a [malloc] succeeds is an argument of the
    operations that allocate. *)
From S2P Require Import Prelude Mem KList KListOps.

Record hash := mkHash { elem_cnt : Z; bucket_cnt : Z; buckets : list (list Z) }.

Definition BEST_ELEMS_PER_BUCKET : Z := 2.

(** * Powers of two *)

Definition turn_off_least_1bit (x : Z) : Z := Z.land x (u32 (x - 1)).
Definition is_power_of_2 (x : Z) : bool := negb (x =? 0) && (turn_off_least_1bit x =? 0).

(** [while (!is_power_of_2 (x)) x = turn_off_least_1bit (x);] clears one of at
    most 32 bits per round. *)
Fixpoint power_loop (fuel : nat) (x : Z) : outcome Z :=
  match fuel with
  | O => Err OutOfFuel
  | S fuel => if is_power_of_2 x then Ok x else power_loop fuel (turn_off_least_1bit x)
  end.

(** * Hash functions *)

Definition FNV_32_PRIME : Z := 16777619.
Definition FNV_32_BASIS : Z := 2166136261.

Fixpoint hash_bytes_loop (n : nat) (buf h : Z) : MM Z :=
  match n with
  | O => mret h
  | S n => b ← Mem.load buf; hash_bytes_loop n (buf + 1) (Z.lxor (u32 (h * FNV_32_PRIME)) b)
  end.
Definition hash_bytes (buf size : Z) : MM Z :=
  check (negb (buf =? 0));; hash_bytes_loop (Z.to_nat size) buf FNV_32_BASIS.

Fixpoint hash_string_loop (fuel : nat) (s h : Z) : MM Z :=
  match fuel with
  | O => fail OutOfFuel
  | S fuel =>
      b ← Mem.load s;
      if b =? 0 then mret h else hash_string_loop fuel (s + 1) (Z.lxor (u32 (h * FNV_32_PRIME)) b)
  end.
Definition hash_string (s : Z) : MM Z :=
  check (negb (s =? 0));; m ← getS; hash_string_loop (S (size m)) s FNV_32_BASIS.

(** The bytes of an [int] in memory order; [hash_int] hashes its argument's
    stack slot. *)
Definition int_bytes (i : Z) : list Z := (λ k, Z.land (Z.shiftr (u32 i) (8 * k)) 255) <$> seqZ 0 4.
Definition hash_int (i : Z) : outcome Z :=
  '(h, _) ← hash_bytes 4096 4 (put_bytes 4096 (int_bytes i) ∅); Ok h.

(** The hash as a function of the bytes. *)
Definition fnv (bs : list Z) : Z :=
  fold_left (λ h b, Z.lxor (u32 (h * FNV_32_PRIME)) b) bs FNV_32_BASIS.

Lemma hash_bytes_Ok bs m p :
  0 < p → bytes_at m p bs → hash_bytes p (Z.of_nat (length bs)) m = Ok (fnv bs, m).
Proof.
  intros Hp Hb. unfold hash_bytes.
  erewrite M_bind_step by (apply check_true; destruct (Z.eqb_spec p 0); lia || done).
  rewrite Nat2Z.id. unfold fnv. generalize FNV_32_BASIS as h. clear Hp. revert p Hb.
  induction bs as [|b bs IH]; intros p Hb h; cbn [length hash_bytes_loop fold_left]; [done|].
  apply bytes_at_cons in Hb as [H0 Hb]. erewrite M_bind_step by (by apply mem_load_Ok). by apply IH.
Qed.

(** [hash_string] is [hash_bytes] of the characters, [hash_int] that of the
    four bytes of the integer. *)
Lemma hash_string_bytes s m p :
  0 < p → cstr m p s →
  hash_string p m = Ok (fnv s, m) ∧ hash_bytes p (Z.of_nat (length s)) m = Ok (fnv s, m).
Proof.
  intros Hp Hs. split; [|apply hash_bytes_Ok; [done|by apply cstr_bytes]]. unfold hash_string.
  erewrite M_bind_step by (apply check_true; destruct (Z.eqb_spec p 0); lia || done).
  erewrite M_bind_step by reflexivity. pose proof (cstr_size _ _ _ Hs) as Hf.
  assert (length s < S (size m))%nat as Hf' by lia. clear Hf Hp. revert Hf'.
  unfold fnv. generalize FNV_32_BASIS as h. generalize (S (size m)) as fuel. intros fuel. revert p fuel Hs.
  induction s as [|b s IH]; intros p [|fuel] Hs h Hf; simpl in Hf; try lia;
    cbn [hash_string_loop fold_left].
  - apply cstr_nil in Hs. by erewrite M_bind_step by (by apply mem_load_Ok).
  - apply cstr_cons in Hs as (H0 & Hb & Hs). erewrite M_bind_step by (by apply mem_load_Ok).
    destruct (Z.eqb_spec b 0); [lia|]. apply IH; done || lia.
Qed.

Lemma hash_int_bytes i : hash_int i = Ok (fnv (int_bytes i)).
Proof.
  unfold hash_int. change 4 with (Z.of_nat (length (int_bytes i))).
  by rewrite hash_bytes_Ok by (lia || apply put_bytes_at).
Qed.

Section Table.
Context (hash_fn : Z → Z) (less : Z → Z → bool).

(** * Buckets and elements *)

(** The index of the bucket [e] belongs in. *)
Definition find_bucket (h : hash) (e : Z) : Z := Z.land (hash_fn e) (u32 (bucket_cnt h - 1)).
Definition get_bucket (h : hash) (i : Z) : outcome (list Z) := of_option (zget (buckets h) i).
Definition set_bucket (h : hash) (i : Z) (b : list Z) : outcome hash :=
  bs ← of_option (zset (buckets h) i b); Ok (mkHash (elem_cnt h) (bucket_cnt h) bs).

(** Neither less than the other. *)
Definition same (a b : Z) : bool := negb (less a b) && negb (less b a).

Fixpoint find_elem (bucket : list Z) (e : Z) : option Z :=
  match bucket with
  | [] => None
  | hi :: bucket => if same hi e then Some hi else find_elem bucket e
  end.

Definition insert_elem (h : hash) (i e : Z) : outcome hash :=
  b ← get_bucket h i;
  set_bucket (mkHash (u32 (elem_cnt h + 1)) (bucket_cnt h) (buckets h)) i (e :: b).

(** [list_remove (&e->list_elem)]: out of whichever bucket holds it. *)
Fixpoint unlink (e : Z) (b : list Z) : list Z :=
  match b with [] => [] | x :: b => if x =? e then b else x :: unlink e b end.
Definition remove_elem (h : hash) (e : Z) : hash :=
  mkHash (u32 (elem_cnt h - 1)) (bucket_cnt h) (unlink e <$> buckets h).

(** * Resizing *)

(** The new bucket count for [n] elements. *)
Definition ideal_count (n : Z) : outcome Z :=
  let c := n / BEST_ELEMS_PER_BUCKET in
  power_loop 32 (if c <? 4 then 4 else c).

(** Move the elements of one old bucket, front to back, to the front of their
    new buckets. *)
Fixpoint move_bucket (es : list Z) (h : hash) : outcome hash :=
  match es with
  | [] => Ok h
  | e :: es => b ← get_bucket h (find_bucket h e);
               h ← set_bucket h (find_bucket h e) (e :: b); move_bucket es h
  end.
Fixpoint move_buckets (old : list (list Z)) (h : hash) : outcome hash :=
  match old with
  | [] => Ok h
  | b :: old => h ← move_bucket b h; move_buckets old h
  end.

Definition rehash (alloc : bool) (h : hash) : outcome hash :=
  new_bucket_cnt ← ideal_count (elem_cnt h);
  if new_bucket_cnt =? bucket_cnt h then Ok h
  else if negb alloc then Ok h
  else move_buckets (buckets h)
         (mkHash (elem_cnt h) new_bucket_cnt (replicate (Z.to_nat new_bucket_cnt) [])).

(** * Operations *)

(** With [destruct], the elements passed to the destructor, in order. *)
Definition hash_clear (destruct : bool) (h : hash) : list Z * hash :=
  (if destruct then concat (buckets h) else [],
   mkHash 0 (bucket_cnt h) ((λ _, []) <$> buckets h)).

Definition hash_init (alloc : bool) : option hash :=
  if alloc then Some (snd (hash_clear false (mkHash 0 4 (replicate 4 [])))) else None.

Definition hash_destroy (destruct : bool) (h : hash) : list Z :=
  if destruct then fst (hash_clear true h) else [].

Definition hash_insert (alloc : bool) (h : hash) (new : Z) : outcome (option Z * hash) :=
  let i := find_bucket h new in
  b ← get_bucket h i;
  let old := find_elem b new in
  h ← (match old with None => insert_elem h i new | Some _ => Ok h end);
  h ← rehash alloc h;
  Ok (old, h).

Definition hash_replace (alloc : bool) (h : hash) (new : Z) : outcome (option Z * hash) :=
  let i := find_bucket h new in
  b ← get_bucket h i;
  let old := find_elem b new in
  let h := match old with Some o => remove_elem h o | None => h end in
  h ← insert_elem h i new;
  h ← rehash alloc h;
  Ok (old, h).

Definition hash_find (h : hash) (e : Z) : outcome (option Z) :=
  b ← get_bucket h (find_bucket h e); Ok (find_elem b e).

Definition hash_delete (alloc : bool) (h : hash) (e : Z) : outcome (option Z * hash) :=
  b ← get_bucket h (find_bucket h e);
  match find_elem b e with
  | Some found => h ← rehash alloc (remove_elem h found); Ok (Some found, h)
  | None => Ok (None, h)
  end.

(** The elements the action is called on, in order. *)
Definition hash_apply (h : hash) : list Z := concat (buckets h).

Definition hash_size (h : hash) : Z := elem_cnt h.
Definition hash_empty (h : hash) : bool := elem_cnt h =? 0.

(** * Iteration *)

(** The iterator: the current bucket and the position of the current element
    in it (-1 for the list head), or the null element. *)
Record hash_iterator := mkIter { it_bucket : Z; it_elem : option Z }.

Definition hash_first (h : hash) : hash_iterator := mkIter 0 (Some (-1)).

(** The element pointer of the iterator. *)
Definition hash_cur (h : hash) (i : hash_iterator) : outcome (option Z) :=
  match it_elem i with
  | None => Ok None
  | Some k => b ← get_bucket h (it_bucket i); e ← of_option (zget b k); Ok (Some e)
  end.

(** [while (i->elem == list_end (i->bucket))], at position [k] of bucket [b]. *)
Fixpoint next_loop (fuel : nat) (h : hash) (b k : Z) : outcome hash_iterator :=
  match fuel with
  | O => Err OutOfFuel
  | S fuel =>
      es ← get_bucket h b;
      if k =? Z.of_nat (length es) then
        if bucket_cnt h <=? b + 1 then Ok (mkIter (b + 1) None)
        else next_loop fuel h (b + 1) 0
      else Ok (mkIter b (Some k))
  end.
Definition hash_next (h : hash) (i : hash_iterator) : outcome (option Z * hash_iterator) :=
  k ← of_option (it_elem i);
  i ← next_loop (S (Z.to_nat (bucket_cnt h))) h (it_bucket i) (k + 1);
  e ← hash_cur h i;
  Ok (e, i).

(** * Bucket counts *)

Lemma land_pred_pow2 k : 0 <= k → Z.land (2 ^ k) (2 ^ k - 1) = 0.
Proof.
  intros. rewrite Z.sub_1_r, <- Z.ones_equiv, Z.land_ones by done. by apply Z_mod_same_full.
Qed.

(** Clearing the lowest set bit keeps the highest one, unless it is the same. *)
Lemma turn_off_high x :
  0 < x < 4294967296 → x ≠ 2 ^ Z.log2 x →
  0 < turn_off_least_1bit x ∧ Z.log2 (turn_off_least_1bit x) = Z.log2 x.
Proof.
  intros Hx Hne. pose proof (Z.log2_spec x ltac:(lia)) as Hl. pose proof (Z.log2_nonneg x).
  unfold turn_off_least_1bit. rewrite u32_small by lia.
  assert (Z.log2 (x - 1) = Z.log2 x) as Hlp by (apply Z.log2_unique; lia).
  assert (Z.testbit (Z.land x (x - 1)) (Z.log2 x) = true) as Hbit.
  { rewrite Z.land_spec, Z.bit_log2 by lia. rewrite <- Hlp. apply Z.bit_log2. lia. }
  assert (0 <= Z.land x (x - 1)) by (apply Z.land_nonneg; lia).
  assert (Z.land x (x - 1) ≠ 0) by (intros E; by rewrite E, Z.testbit_0_l in Hbit).
  split; [lia|]. apply Z.log2_bits_unique; [done|]. intros m Hm.
  rewrite Z.land_spec, Z.bits_above_log2 by lia. done.
Qed.

Lemma land_mod a b n : 0 <= n → Z.land a b mod 2 ^ n = Z.land (a mod 2 ^ n) (b mod 2 ^ n).
Proof.
  intros. rewrite <- !Z.land_ones by done. apply Z.bits_inj'. intros m _. rewrite !Z.land_spec.
  destruct (Z.testbit a m), (Z.testbit b m), (Z.testbit (Z.ones n) m); done.
Qed.

(** ... and one more low bit is zero afterwards. *)
Lemma turn_off_low x j :
  0 < x < 4294967296 → 0 <= j → x mod 2 ^ j = 0 → turn_off_least_1bit x mod 2 ^ (j + 1) = 0.
Proof.
  intros Hx Hj Hm. unfold turn_off_least_1bit. rewrite u32_small, land_mod by lia.
  assert (0 < 2 ^ j) by (apply Z.pow_pos_nonneg; lia).
  rewrite Z.pow_add_r in * by lia. change (2 ^ 1) with 2 in *.
  pose proof (Z.div_mod x (2 ^ j) ltac:(lia)) as Hdm. rewrite Hm, Z.add_0_r in Hdm.
  set (q := x / 2 ^ j) in *. set (P := 2 ^ j) in *.
  pose proof (Z.div_mod q 2 ltac:(lia)) as Hq. pose proof (Z.mod_pos_bound q 2 ltac:(lia)).
  assert (q mod 2 = 0 ∨ q mod 2 = 1) as [E|E] by lia; rewrite E in Hq.
  - assert (x mod (P * 2) = 0) as ->; [|apply Z.land_0_l].
    rewrite Hdm, Hq. replace (P * (2 * (q / 2) + 0)) with (q / 2 * (P * 2)) by ring.
    apply Z_mod_mult.
  - assert (x mod (P * 2) = P) as ->.
    { rewrite Hdm, Hq. replace (P * (2 * (q / 2) + 1)) with (P + q / 2 * (P * 2)) by ring.
      rewrite Z_mod_plus_full. apply Z.mod_small. lia. }
    assert ((x - 1) mod (P * 2) = P - 1) as ->; [|by apply land_pred_pow2].
    rewrite Hdm, Hq. replace (P * (2 * (q / 2) + 1) - 1) with (P - 1 + q / 2 * (P * 2)) by ring.
    rewrite Z_mod_plus_full. apply Z.mod_small. lia.
Qed.

Lemma power_loop_ok fuel x j :
  0 < x → Z.log2 x <= 31 → 0 <= j <= Z.log2 x → x mod 2 ^ j = 0 →
  Z.log2 x - j < Z.of_nat fuel → power_loop fuel x = Ok (2 ^ Z.log2 x).
Proof.
  revert x j. induction fuel as [|fuel IH]; intros x j Hx Hk Hj Hm Hf; [lia|].
  pose proof (Z.log2_spec x Hx) as Hl. cbn [power_loop].
  assert (2 ^ Z.succ (Z.log2 x) <= 2 ^ 32) by (apply Z.pow_le_mono_r; lia).
  change (2 ^ 32) with 4294967296 in *.
  destruct (decide (x = 2 ^ Z.log2 x)) as [E|Hne].
  - assert (is_power_of_2 x = true) as ->; [|by rewrite <- E].
    unfold is_power_of_2, turn_off_least_1bit. rewrite u32_small by lia.
    rewrite E at 2 3. rewrite land_pred_pow2 by apply Z.log2_nonneg.
    destruct (Z.eqb_spec x 0); [lia|done].
  - destruct (turn_off_high x) as [Hpos Hlog]; [lia|done|].
    assert (is_power_of_2 x = false) as ->.
    { unfold is_power_of_2. destruct (Z.eqb_spec (turn_off_least_1bit x) 0); [lia|apply andb_false_r]. }
    destruct (decide (j = Z.log2 x)) as [->|].
    + assert (0 < 2 ^ Z.log2 x) by (apply Z.pow_pos_nonneg; lia).
      exfalso. apply Hne. apply Z.div_exact in Hm; [|lia].
      assert (0 < x / 2 ^ Z.log2 x) by (apply Z.div_str_pos; lia).
      rewrite Z.pow_succ_r in Hl by apply Z.log2_nonneg.
      set (q := x / 2 ^ Z.log2 x) in *. set (P := 2 ^ Z.log2 x) in *.
      assert (q < 2) by nia. assert (q = 1) as Hq by lia. rewrite Hq in Hm. lia.
    + rewrite <- Hlog. apply (IH _ (j + 1)); try (rewrite ?Hlog; lia).
      apply turn_off_low; done || lia.
Qed.

(** The bucket count for [n] elements: the largest power of two that is at
    most [n / 2], and at least 4. *)
Lemma ideal_count_ok n :
  0 <= n < 4294967296 →
  ∃ k, ideal_count n = Ok (2 ^ k) ∧ 2 <= k <= 31 ∧ n < 4 * 2 ^ k ∧ (4 < 2 ^ k → 2 * 2 ^ k <= n).
Proof.
  intros Hn. unfold ideal_count, BEST_ELEMS_PER_BUCKET.
  pose proof (Z.div_mod n 2 ltac:(lia)). pose proof (Z.mod_pos_bound n 2 ltac:(lia)).
  set (c := if n / 2 <? 4 then 4 else n / 2).
  assert (4 <= c < 2147483648 ∧ n <= 2 * c + 1 ∧ (4 < c → 2 * c <= n)) as (Hc & Hn2 & Hc4)
    by (unfold c; bcases; lia).
  exists (Z.log2 c). pose proof (Z.log2_spec c ltac:(lia)) as Hl.
  assert (2 <= Z.log2 c) by (apply Z.log2_le_pow2; lia).
  assert (Z.log2 c < 31) by (apply Z.log2_lt_pow2; lia).
  rewrite (power_loop_ok 32 c 0); [|lia|lia|lia|apply Z.mod_1_r|lia].
  rewrite Z.pow_succ_r in Hl by lia. splits; try done; try lia.
Qed.
(** * The table invariant *)

Context `{!StrictWeak less}.
(** What hash.h asks of the client's functions: equal elements hash alike. *)
Context (hash_compat : ∀ a b, same a b = true → hash_fn a = hash_fn b).

Lemma same_refl a : same a a = true.
Proof.
  unfold same. destruct (less a a) eqn:E; [|done]. pose proof (less_asym _ _ E). congruence.
Qed.
Lemma same_sym a b : same a b = same b a.
Proof. unfold same. apply andb_comm. Qed.
Lemma same_trans a b c : same a b = true → same b c = true → same a c = true.
Proof.
  unfold same. rewrite !andb_true_iff, !negb_true_iff. intros [H1 H2] [H3 H4]. split.
  - destruct (less a c) eqn:E; [|done]. destruct (less_split a c b E); congruence.
  - destruct (less c a) eqn:E; [|done]. destruct (less_split c a b E); congruence.
Qed.

Definition elems (h : hash) : list Z := concat (buckets h).

(** The buckets: a power of two of them, each element in the bucket of its
    hash. *)
Record shape (h : hash) : Prop := {
  shape_pow : ∃ k, 2 <= k <= 31 ∧ bucket_cnt h = 2 ^ k;
  shape_length : Z.of_nat (length (buckets h)) = bucket_cnt h;
  shape_placed i b e : buckets h !! i = Some b → e ∈ b → find_bucket h e = Z.of_nat i
}.

(** ... no two equal elements, and the element count. *)
Record hash_wf (h : hash) : Prop := {
  wf_shape : shape h;
  wf_nodup : NoDup (elems h);
  wf_distinct a b : a ∈ elems h → b ∈ elems h → same a b = true → a = b;
  wf_count : elem_cnt h = Z.of_nat (length (elems h)) ∧ elem_cnt h < 4294967296
}.

Lemma find_bucket_range h e : shape h → 0 <= find_bucket h e < bucket_cnt h.
Proof.
  intros [(k & Hk & E) _ _]. unfold find_bucket. rewrite E.
  assert (0 < 2 ^ k) by (apply Z.pow_pos_nonneg; lia).
  assert (2 ^ k <= 2 ^ 31) by (apply Z.pow_le_mono_r; lia). change (2 ^ 31) with 2147483648 in *.
  rewrite u32_small, Z.sub_1_r, <- Z.ones_equiv, Z.land_ones by lia. by apply Z.mod_pos_bound.
Qed.

Lemma get_bucket_Ok h e :
  shape h → ∃ b, get_bucket h (find_bucket h e) = Ok b ∧
    buckets h !! Z.to_nat (find_bucket h e) = Some b.
Proof.
  intros Hs. pose proof (find_bucket_range h e Hs) as Hr.
  destruct (zget_is_Some (buckets h) (find_bucket h e)) as [b Hb].
  { by rewrite (shape_length _ Hs). }
  exists b. unfold get_bucket. rewrite Hb. split; [done|].
  unfold zget in Hb. by destruct (find_bucket h e <? 0).
Qed.

Lemma elem_of_elems h e : e ∈ elems h ↔ ∃ i b, buckets h !! i = Some b ∧ e ∈ b.
Proof.
  unfold elems. rewrite list_elem_of_In, in_concat. split.
  - intros (b & Hb & He). apply list_elem_of_In, list_elem_of_lookup in Hb as [i Hi].
    exists i, b. by rewrite list_elem_of_In.
  - intros (i & b & Hi & He). exists b. split; [|by rewrite <- list_elem_of_In].
    apply list_elem_of_In. by eapply list_elem_of_lookup_2.
Qed.

Lemma find_elem_spec b e :
  match find_elem b e with
  | Some x => x ∈ b ∧ same x e = true
  | None => ∀ x, x ∈ b → same x e = false
  end.
Proof.
  induction b as [|hi b IH]; simpl; [intros x Hx; by apply elem_of_nil in Hx|].
  destruct (same hi e) eqn:E; [split; [by left|done]|].
  destruct (find_elem b e) as [x|].
  - destruct IH. split; [by right|done].
  - intros x [->|Hx]%elem_of_cons; auto.
Qed.

(** Searching the bucket is searching the table. *)
Lemma find_in_bucket h e b :
  shape h → buckets h !! Z.to_nat (find_bucket h e) = Some b →
  match find_elem b e with
  | Some x => x ∈ elems h ∧ same x e = true
  | None => ∀ x, x ∈ elems h → same x e = false
  end.
Proof.
  intros Hs Hb. pose proof (find_elem_spec b e) as Hf. destruct (find_elem b e) as [x|].
  - destruct Hf. split; [|done]. apply elem_of_elems. eauto.
  - intros x (i & b' & Hi & Hx)%elem_of_elems. destruct (same x e) eqn:E; [|done].
    pose proof (shape_placed _ Hs i b' x Hi Hx) as Hp.
    assert (find_bucket h x = find_bucket h e) as Hfe by (unfold find_bucket; by rewrite (hash_compat x e)).
    rewrite <- Hfe, Hp, Nat2Z.id in Hb. simplify_eq. rewrite <- E. by apply Hf.
Qed.

(** ** Pushing on the front of a bucket *)

Lemma concat_insert (bs : list (list Z)) i b e :
  bs !! i = Some b → concat (<[i := e :: b]> bs) ≡ₚ e :: concat bs.
Proof.
  intros Hb. rewrite (insert_take_drop _ _ _ (lookup_lt_Some _ _ _ Hb)).
  rewrite <- (take_drop_middle _ _ _ Hb) at 3. rewrite !concat_app. simpl.
  symmetry. apply Permutation_middle.
Qed.

Lemma push_Ok h e n :
  shape h →
  ∃ b h', get_bucket h (find_bucket h e) = Ok b ∧
    set_bucket (mkHash n (bucket_cnt h) (buckets h)) (find_bucket h e) (e :: b) = Ok h' ∧
    shape h' ∧ elems h' ≡ₚ e :: elems h ∧ elem_cnt h' = n ∧ bucket_cnt h' = bucket_cnt h.
Proof.
  intros Hs. destruct (get_bucket_Ok h e Hs) as (b & Eb & Hb). pose proof (find_bucket_range h e Hs) as Hr.
  pose proof (shape_length _ Hs) as Hl.
  exists b. eexists. split; [done|]. unfold set_bucket. simpl. rewrite zset_Some by lia.
  split; [reflexivity|]. splits; [|by apply concat_insert|done|done].
  split; simpl; [apply Hs|by rewrite length_insert|].
  intros i b' x. destruct (decide (i = Z.to_nat (find_bucket h e))) as [->|Hne].
  - rewrite list_lookup_insert_eq by (by eapply lookup_lt_Some). intros [= <-] [->|Hx]%elem_of_cons.
    + unfold find_bucket; simpl. fold (find_bucket h e). lia.
    + by eapply (shape_placed _ Hs).
  - rewrite list_lookup_insert_ne by done. apply (shape_placed _ Hs).
Qed.

(** ** Resizing keeps the elements *)

Lemma move_bucket_Ok es h :
  shape h → ∃ h', move_bucket es h = Ok h' ∧ shape h' ∧ elems h' ≡ₚ es ++ elems h ∧
    elem_cnt h' = elem_cnt h ∧ bucket_cnt h' = bucket_cnt h.
Proof.
  revert h. induction es as [|e es IH]; intros h Hs; [by exists h|]. cbn [move_bucket].
  destruct (push_Ok h e (elem_cnt h) Hs) as (b & h1 & Eb & E1 & Hs1 & Hp1 & Hc1 & Hb1).
  erewrite bind_step by exact Eb. destruct h as [ec bc bs]. simpl in *.
  erewrite bind_step by exact E1.
  destruct (IH h1 Hs1) as (h2 & E2 & Hs2 & Hp2 & Hc2 & Hb2). exists h2.
  splits; try done; try congruence. rewrite Hp2, Hp1. simpl. by rewrite Permutation_middle.
Qed.

Lemma move_buckets_Ok old h :
  shape h → ∃ h', move_buckets old h = Ok h' ∧ shape h' ∧ elems h' ≡ₚ concat old ++ elems h ∧
    elem_cnt h' = elem_cnt h ∧ bucket_cnt h' = bucket_cnt h.
Proof.
  revert h. induction old as [|b old IH]; intros h Hs; [by exists h|]. cbn [move_buckets].
  destruct (move_bucket_Ok b h Hs) as (h1 & E1 & Hs1 & Hp1 & Hc1 & Hb1).
  erewrite bind_step by exact E1.
  destruct (IH h1 Hs1) as (h2 & E2 & Hs2 & Hp2 & Hc2 & Hb2). exists h2.
  splits; try done; try congruence. rewrite Hp2, Hp1. simpl.
  by rewrite !app_assoc, (Permutation_app_comm (concat old)).
Qed.

Lemma empty_shape n k : 2 <= k <= 31 → shape (mkHash n (2 ^ k) (replicate (Z.to_nat (2 ^ k)) [])).
Proof.
  intros Hk. assert (0 < 2 ^ k) by (apply Z.pow_pos_nonneg; lia). split; simpl.
  - by exists k.
  - rewrite length_replicate. lia.
  - intros i b e [-> _]%lookup_replicate He. by apply elem_of_nil in He.
Qed.

Lemma concat_replicate_nil n : concat (replicate n (@nil Z)) = [].
Proof. by induction n. Qed.

Lemma rehash_Ok alloc h :
  shape h → 0 <= elem_cnt h < 4294967296 →
  ∃ h', rehash alloc h = Ok h' ∧ shape h' ∧ elems h' ≡ₚ elems h ∧ elem_cnt h' = elem_cnt h ∧
    (alloc = true → elem_cnt h' < 4 * bucket_cnt h' ∧ (4 < bucket_cnt h' → 2 * bucket_cnt h' <= elem_cnt h')).
Proof.
  intros Hs Hc. unfold rehash. destruct (ideal_count_ok (elem_cnt h) Hc) as (k & E & Hk & Hlt & Hmin).
  erewrite bind_step by exact E. destruct (Z.eqb_spec (2 ^ k) (bucket_cnt h)) as [Eb|].
  { exists h. by rewrite <- Eb. }
  destruct alloc; [|by exists h]. cbn [negb].
  destruct (move_buckets_Ok (buckets h) _ (empty_shape (elem_cnt h) k Hk))
    as (h' & E' & Hs' & Hp & Hc' & Hb'). exists h'. simpl in *. rewrite Hc', Hb'.
  splits; try done. rewrite Hp. unfold elems at 1; simpl. by rewrite concat_replicate_nil, app_nil_r.
Qed.

(** A table with the same elements, whatever its buckets. *)
Lemma wf_of_perm h es :
  shape h → elems h ≡ₚ es → NoDup es → (∀ a b, a ∈ es → b ∈ es → same a b = true → a = b) →
  elem_cnt h = Z.of_nat (length es) → elem_cnt h < 4294967296 → hash_wf h.
Proof.
  intros Hs Hp Hn Hd Hc Hr. split; [done|by rewrite Hp| |].
  - intros a b. rewrite Hp. apply Hd.
  - by rewrite Hp.
Qed.
(** ** Removal *)

Lemma unlink_not_in e b : e ∉ b → unlink e b = b.
Proof.
  induction b as [|x b IH]; simpl; [done|]. intros [Hx Hb]%not_elem_of_cons.
  destruct (Z.eqb_spec x e); [congruence|]. by rewrite IH.
Qed.
Lemma unlink_perm e b : e ∈ b → b ≡ₚ e :: unlink e b.
Proof.
  induction b as [|x b IH]; simpl; [intros He; by apply elem_of_nil in He|].
  intros He. destruct (Z.eqb_spec x e) as [->|Hne]; [done|].
  apply elem_of_cons in He as [->|He]; [done|]. rewrite (IH He) at 1. apply Permutation_swap.
Qed.
Lemma unlink_sub e b x : x ∈ unlink e b → x ∈ b.
Proof.
  destruct (decide (e ∈ b)) as [He|He]; [|by rewrite unlink_not_in].
  intros Hx. rewrite (unlink_perm e b He). by right.
Qed.

Lemma concat_unlink e (bs : list (list Z)) :
  NoDup (concat bs) → e ∈ concat bs → concat bs ≡ₚ e :: concat (unlink e <$> bs).
Proof.
  induction bs as [|b bs IH]; simpl; [intros _ He; by apply elem_of_nil in He|].
  intros (Hb & Hd & Hbs)%NoDup_app He. destruct (decide (e ∈ b)) as [Hin|Hout].
  - rewrite (unlink_perm e b Hin) at 1. simpl. f_equiv. f_equiv.
    assert (e ∉ concat bs) as Hn by eauto. clear -Hn.
    induction bs as [|b' bs IH]; simpl in *; [done|]. apply not_elem_of_app in Hn as [Hn1 Hn2].
    rewrite unlink_not_in by done. by rewrite <- IH.
  - apply elem_of_app in He as [He|He]; [done|]. rewrite unlink_not_in by done.
    rewrite (IH Hbs He) at 1. by rewrite Permutation_middle.
Qed.

Lemma remove_Ok h o :
  hash_wf h → o ∈ elems h →
  shape (remove_elem h o) ∧ elems h ≡ₚ o :: elems (remove_elem h o) ∧
  elem_cnt (remove_elem h o) = elem_cnt h - 1 ∧ 0 <= elem_cnt h - 1 ∧
  bucket_cnt (remove_elem h o) = bucket_cnt h.
Proof.
  intros [Hs Hn Hd [Hc Hr]] Ho.
  pose proof (concat_unlink o (buckets h) Hn Ho) as Hp. splits; try done.
  - split; simpl; [apply Hs|by rewrite length_fmap; apply Hs|].
    intros i b e Hi He. rewrite list_lookup_fmap in Hi. apply fmap_Some in Hi as (b' & Hb' & ->).
    apply unlink_sub in He. by eapply (shape_placed _ Hs).
  - simpl. apply Permutation_length in Hp. unfold elems in Hc. rewrite Hp in Hc. simpl in Hc.
    rewrite u32_small; lia.
  - apply Permutation_length in Hp. unfold elems in Hc. rewrite Hp in Hc. simpl in Hc. lia.
Qed.

(** * The operations on the set of elements *)

Lemma hash_find_Ok h e :
  hash_wf h → ∃ r, hash_find h e = Ok r ∧
    match r with
    | Some x => x ∈ elems h ∧ same x e = true
    | None => ∀ x, x ∈ elems h → same x e = false
    end.
Proof.
  intros Hw. destruct (get_bucket_Ok h e (wf_shape _ Hw)) as (b & Eb & Hb).
  exists (find_elem b e). unfold hash_find. erewrite bind_step by exact Eb. split; [done|].
  apply find_in_bucket; [apply Hw|done].
Qed.

(** Adding a new element to well-formed contents. *)
Lemma insert_distinct (es : list Z) e :
  (∀ a b, a ∈ es → b ∈ es → same a b = true → a = b) → (∀ x, x ∈ es → same x e = false) →
  NoDup es → NoDup (e :: es) ∧ ∀ a b, a ∈ e :: es → b ∈ e :: es → same a b = true → a = b.
Proof.
  intros Hd Hne Hn. split.
  - constructor; [|done]. intros He. specialize (Hne _ He). by rewrite same_refl in Hne.
  - intros a b [->|Ha]%elem_of_cons [->|Hb]%elem_of_cons Hab; try done; [| |by apply Hd].
    + rewrite same_sym, (Hne b Hb) in Hab. done.
    + by rewrite (Hne a Ha) in Hab.
Qed.

Lemma hash_insert_Ok alloc h e :
  hash_wf h → elem_cnt h + 1 < 4294967296 →
  ∃ r h', hash_insert alloc h e = Ok (r, h') ∧ hash_find h e = Ok r ∧ hash_wf h' ∧
    elems h' ≡ₚ match r with Some _ => elems h | None => e :: elems h end.
Proof.
  intros Hw Hc. pose proof (wf_shape _ Hw) as Hs. pose proof Hw as [_ Hn Hd [Hcnt Hr]].
  destruct (push_Ok h e (u32 (elem_cnt h + 1)) Hs) as (b & h1 & Eb & E1 & Hs1 & Hp1 & Hc1 & _).
  destruct (get_bucket_Ok h e Hs) as (b' & Eb' & Hb). rewrite Eb in Eb'. simplify_eq.
  pose proof (find_in_bucket h e b' Hs Hb) as Hf.
  assert (hash_find h e = Ok (find_elem b' e)) as Hfind
    by (unfold hash_find; by erewrite bind_step by exact Eb).
  rewrite u32_small in Hc1 by lia. unfold hash_insert. erewrite bind_step by exact Eb.
  exists (find_elem b' e). destruct (find_elem b' e) as [x|].
  - destruct (rehash_Ok alloc h Hs) as (h2 & E2 & Hs2 & Hp2 & Hc2 & _); [lia|].
    exists h2. cbn [mbind outcome_bind]. rewrite E2. splits; try done.
    eapply wf_of_perm; try done; lia.
  - destruct (rehash_Ok alloc h1 Hs1) as (h2 & E2 & Hs2 & Hp2 & Hc2 & _); [lia|].
    destruct (insert_distinct (elems h) e Hd Hf Hn) as [Hn' Hd'].
    exists h2. erewrite bind_step.
    2:{ unfold insert_elem. erewrite bind_step by exact Eb. exact E1. }
    erewrite bind_step by exact E2. splits; try done; [|by rewrite Hp2].
    eapply wf_of_perm; [done|by rewrite Hp2|done|done|simpl; lia|lia].
Qed.

Lemma hash_delete_Ok alloc h e :
  hash_wf h →
  ∃ r h', hash_delete alloc h e = Ok (r, h') ∧ hash_find h e = Ok r ∧ hash_wf h' ∧
    match r with Some x => elems h ≡ₚ x :: elems h' | None => h' = h end.
Proof.
  intros Hw. pose proof (wf_shape _ Hw) as Hs. pose proof Hw as [_ Hn Hd [Hcnt Hr]].
  destruct (get_bucket_Ok h e Hs) as (b & Eb & Hb). pose proof (find_in_bucket h e b Hs Hb) as Hf.
  assert (hash_find h e = Ok (find_elem b e)) as Hfind
    by (unfold hash_find; by erewrite bind_step by exact Eb).
  unfold hash_delete. erewrite bind_step by exact Eb. exists (find_elem b e).
  destruct (find_elem b e) as [x|]; [|by exists h]. destruct Hf as [Hx _].
  destruct (remove_Ok h x Hw Hx) as (Hs1 & Hp1 & Hc1 & Hpos & _).
  destruct (rehash_Ok alloc _ Hs1) as (h2 & E2 & Hs2 & Hp2 & Hc2 & _); [lia|].
  exists h2. erewrite bind_step by exact E2. splits; try done; [|by rewrite Hp2].
  rewrite Hp1 in Hn. apply NoDup_cons in Hn as [_ Hn].
  eapply wf_of_perm; [done|done|done| | |lia].
  - intros a c Ha Hc'. apply Hd; rewrite Hp1; by right.
  - rewrite Hc2, Hc1, Hcnt, (Permutation_length Hp1). simpl. lia.
Qed.

Lemma hash_replace_Ok alloc h e :
  hash_wf h → elem_cnt h + 1 < 4294967296 →
  ∃ r h', hash_replace alloc h e = Ok (r, h') ∧ hash_find h e = Ok r ∧ hash_wf h' ∧
    match r with
    | Some x => ∃ es, elems h ≡ₚ x :: es ∧ elems h' ≡ₚ e :: es
    | None => elems h' ≡ₚ e :: elems h
    end.
Proof.
  intros Hw Hc. pose proof (wf_shape _ Hw) as Hs. pose proof Hw as [_ Hn Hd [Hcnt Hr]].
  destruct (get_bucket_Ok h e Hs) as (b & Eb & Hb). pose proof (find_in_bucket h e b Hs Hb) as Hf.
  assert (hash_find h e = Ok (find_elem b e)) as Hfind
    by (unfold hash_find; by erewrite bind_step by exact Eb).
  unfold hash_replace. erewrite bind_step by exact Eb. exists (find_elem b e).
  set (h0 := match find_elem b e with Some o => remove_elem h o | None => h end).
  assert (shape h0 ∧ bucket_cnt h0 = bucket_cnt h ∧ 0 <= elem_cnt h0 <= elem_cnt h ∧
    elem_cnt h0 = Z.of_nat (length (elems h0)) ∧ NoDup (elems h0) ∧
    (∀ a, a ∈ elems h0 → a ∈ elems h ∧ same a e = false) ∧
    match find_elem b e with Some x => elems h ≡ₚ x :: elems h0 | None => h0 = h end)
    as (Hs0 & Hb0 & Hr0 & Hc0 & Hn0 & Hsub & Hx0).
  { unfold h0. destruct (find_elem b e) as [x|].
    - destruct Hf as [Hx Hxe]. destruct (remove_Ok h x Hw Hx) as (Hs1 & Hp1 & Hc1 & Hpos & Hb1).
      pose proof Hn as Hn'. rewrite Hp1 in Hn'. apply NoDup_cons in Hn' as [Hxn Hn'].
      splits; try done; try lia.
      + rewrite Hc1, Hcnt, (Permutation_length Hp1). simpl. lia.
      + intros a Ha. assert (a ∈ elems h) as Hah by (rewrite Hp1; by right). split; [done|].
        destruct (same a e) eqn:E; [|done]. exfalso.
        assert (a = x) as ->; [|done]. apply Hd; [done|done|].
        eapply same_trans; [exact E|]. by rewrite same_sym.
    - splits; try done; try lia. intros a Ha. auto. }
  destruct (push_Ok h0 e (u32 (elem_cnt h0 + 1)) Hs0) as (b1 & h1 & Eb1 & E1 & Hs1 & Hp1 & Hc1 & _).
  destruct (rehash_Ok alloc h1 Hs1) as (h2 & E2 & Hs2 & Hp2 & Hc2 & _); [rewrite Hc1; apply u32_range|].
  exists h2. assert (find_bucket h e = find_bucket h0 e) as Hfb by (unfold find_bucket; by rewrite Hb0).
  erewrite bind_step.
  2:{ rewrite Hfb. unfold insert_elem. erewrite bind_step by exact Eb1. exact E1. }
  erewrite bind_step by exact E2. rewrite u32_small in Hc1 by lia.
  destruct (insert_distinct (elems h0) e) as [Hn' Hd']; try done.
  { intros a c Ha Hc'. apply Hd; by apply Hsub. } { intros x Hx. by apply Hsub. }
  assert (elems h2 ≡ₚ e :: elems h0) as Hp by (by rewrite Hp2).
  splits; try done.
  - eapply wf_of_perm; [done|exact Hp|done|done|simpl; lia|lia].
  - destruct (find_elem b e) as [x|]; [by exists (elems h0)|]. by rewrite <- Hx0.
Qed.
(** C16: The hash table implements a set of distinct elements.  In a
    well-formed table, whether or not the allocations succeed: [hash_find]
    returns the element equal to the given one, if there is one;
    [hash_insert] adds the element unless an equal one is present, which it
    returns; [hash_replace] always adds it, taking out the equal one it
    returns; [hash_delete] takes out the equal one; all keep the table well
    formed, and [hash_size] counts the elements. *)
Theorem hash_table_correct alloc h e :
  hash_wf h → elem_cnt h + 1 < 4294967296 →
  ∃ r hi hr hd,
    hash_find h e = Ok r ∧
    hash_insert alloc h e = Ok (r, hi) ∧ hash_replace alloc h e = Ok (r, hr) ∧
    hash_delete alloc h e = Ok (r, hd) ∧
    hash_wf hi ∧ hash_wf hr ∧ hash_wf hd ∧ hash_size h = Z.of_nat (length (elems h)) ∧
    match r with
    | Some x => x ∈ elems h ∧ same x e = true ∧ elems hi ≡ₚ elems h ∧
                elems h ≡ₚ x :: elems hd ∧ elems hr ≡ₚ e :: elems hd
    | None => (∀ x, x ∈ elems h → same x e = false) ∧ elems hi ≡ₚ e :: elems h ∧
              elems hr ≡ₚ e :: elems h ∧ elems hd = elems h
    end.
Proof.
  intros Hw Hc. destruct (hash_find_Ok h e Hw) as (r & Ef & Hr).
  destruct (hash_insert_Ok alloc h e Hw Hc) as (r1 & hi & Ei & Ef1 & Hwi & Hpi).
  destruct (hash_replace_Ok alloc h e Hw Hc) as (r2 & hr & Er & Ef2 & Hwr & Hpr).
  destruct (hash_delete_Ok alloc h e Hw) as (r3 & hd & Ed & Ef3 & Hwd & Hpd).
  rewrite Ef in Ef1, Ef2, Ef3. simplify_eq. exists r1, hi, hr, hd.
  splits; try done; [apply (proj1 (wf_count _ Hw))|].
  destruct r1 as [x|].
  - destruct Hr as [Hx Hxe], Hpr as (es & H1 & H2). splits; try done.
    rewrite H2. f_equiv. apply (Permutation_cons_inv (a := x)). by rewrite <- H1.
  - subst hd. by splits.
Qed.

(** Resizing.  After an operation whose allocation succeeds the number of
    buckets is a power of two between 4 and 2^31 with fewer than four elements
    per bucket on average, and at least two when there are more than four
    buckets; the search for the power of two stops within its 32 rounds, and
    resizing neither loses nor duplicates an element, even when the
    allocation fails. *)
Theorem rehash_correct alloc h :
  hash_wf h →
  ∃ h', rehash alloc h = Ok h' ∧ hash_wf h' ∧ elems h' ≡ₚ elems h ∧
    (∃ k, 2 <= k <= 31 ∧ bucket_cnt h' = 2 ^ k) ∧
    (alloc = true → hash_size h' < 4 * bucket_cnt h' ∧
       (4 < bucket_cnt h' → 2 * bucket_cnt h' <= hash_size h')).
Proof.
  intros Hw. pose proof Hw as [Hs Hn Hd [Hcnt Hr]].
  destruct (rehash_Ok alloc h Hs) as (h' & E & Hs' & Hp & Hc & Hl); [lia|].
  exists h'. splits; try done; [|apply Hs']. eapply wf_of_perm; try done; lia.
Qed.

(** * Iteration *)

(** The iteration idiom of hash.c: [hash_first (&i, h); while (hash_next (&i))]. *)
Fixpoint iterate (fuel : nat) (h : hash) (i : hash_iterator) : outcome (list Z) :=
  match fuel with
  | O => Err OutOfFuel
  | S fuel =>
      '(e, i) ← hash_next h i;
      match e with
      | None => Ok []
      | Some e => es ← iterate fuel h i; Ok (e :: es)
      end
  end.

(** The elements from position [k] of bucket [b] on. *)
Definition remaining (h : hash) (b k : nat) : list Z :=
  drop k (default [] (buckets h !! b)) ++ concat (drop (S b) (buckets h)).

Lemma next_loop_Ok fuel h b k es :
  Z.of_nat (length (buckets h)) = bucket_cnt h →
  buckets h !! b = Some es → (k <= length es)%nat → (length (buckets h) - b < fuel)%nat →
  ∃ i, next_loop fuel h (Z.of_nat b) (Z.of_nat k) = Ok i ∧
    match remaining h b k with
    | [] => it_elem i = None
    | e :: rest => ∃ b' k' : nat, i = mkIter (Z.of_nat b') (Some (Z.of_nat k')) ∧
        hash_cur h i = Ok (Some e) ∧ rest = remaining h b' (S k') ∧
        ∃ es', buckets h !! b' = Some es' ∧ (S k' <= length es')%nat
    end.
Proof.
  intros Hlen. revert b k es. induction fuel as [|fuel IH]; intros b k es Hb Hk Hf; [lia|].
  cbn [next_loop]. pose proof (lookup_lt_Some _ _ _ Hb) as Hlt.
  erewrite bind_step.
  2:{ unfold get_bucket, zget. destruct (Z.ltb_spec (Z.of_nat b) 0); [lia|]. by rewrite Nat2Z.id, Hb. }
  unfold remaining at 1. rewrite Hb. change (default [] (Some es)) with es.
  destruct (Z.eqb_spec (Z.of_nat k) (Z.of_nat (length es))) as [E|Hne].
  - rewrite drop_ge by lia. cbn [app]. destruct (Z.leb_spec (bucket_cnt h) (Z.of_nat b + 1)).
    + eexists. split; [reflexivity|]. rewrite drop_ge by lia. done.
    + destruct (lookup_lt_is_Some_2 (buckets h) (S b)) as [es2 Hb2]; [lia|].
      replace (Z.of_nat b + 1) with (Z.of_nat (S b)) by lia.
      destruct (IH (S b) 0%nat es2 Hb2) as (i & Ei & Hi); [lia|lia|]. exists i.
      split; [exact Ei|]. unfold remaining in Hi at 1. rewrite Hb2 in Hi. change (default [] (Some es2)) with es2 in Hi.
      rewrite drop_0 in Hi. by rewrite (drop_S _ _ _ Hb2).
  - destruct (lookup_lt_is_Some_2 es k) as [e He]; [lia|].
    eexists. split; [reflexivity|]. rewrite (drop_S _ _ _ He). cbn [app].
    exists b, k. splits; try done; [| |exists es; split; [done|lia]].
    + unfold hash_cur; cbn [it_elem it_bucket]. unfold get_bucket, zget.
      destruct (Z.ltb_spec (Z.of_nat b) 0); [lia|]. destruct (Z.ltb_spec (Z.of_nat k) 0); [lia|].
      rewrite !Nat2Z.id, Hb. cbn [of_option mbind outcome_bind]. by rewrite He.
    + unfold remaining. by rewrite Hb.
Qed.

Lemma iterate_Ok fuel h b (k : nat) es p :
  Z.of_nat (length (buckets h)) = bucket_cnt h →
  buckets h !! b = Some es → (k <= length es)%nat → p = Z.of_nat k - 1 →
  (length (remaining h b k) < fuel)%nat →
  iterate fuel h (mkIter (Z.of_nat b) (Some p)) = Ok (remaining h b k).
Proof.
  intros Hlen. revert b k es p. induction fuel as [|fuel IH]; intros b k es p Hb Hk -> Hf; [lia|].
  cbn [iterate]. unfold hash_next. cbn [it_elem it_bucket of_option].
  pose proof (lookup_lt_Some _ _ _ Hb).
  destruct (next_loop_Ok (S (Z.to_nat (bucket_cnt h))) h b k es Hlen Hb Hk) as (i & Ei & Hi); [lia|].
  cbn [mbind outcome_bind]. rewrite Z.sub_add, Ei. cbn [mbind outcome_bind].
  destruct (remaining h b k) as [|e rest] eqn:Er.
  - unfold hash_cur. by rewrite Hi.
  - destruct Hi as (b' & k' & -> & Hcur & Hrest & es' & Hb' & Hk').
    rewrite Hcur. cbn [mbind outcome_bind]. rewrite Hrest.
    rewrite (IH b' (S k') es'); [done|done|done|lia|]. rewrite <- Hrest. simpl in Hf. lia.
Qed.

(** Iteration visits every element of a well-formed table exactly once,
    in the order in which [hash_apply] visits them, and stops after one more
    call than there are elements; the bucket array is never left. *)
Theorem hash_iteration_complete h :
  hash_wf h →
  iterate (S (Z.to_nat (hash_size h))) h (hash_first h) = Ok (hash_apply h) ∧
  hash_apply h ≡ₚ elems h ∧ NoDup (hash_apply h) ∧
  (hash_empty h = true ↔ hash_apply h = []).
Proof.
  intros Hw. pose proof Hw as [Hs Hn Hd [Hcnt Hr]]. destruct (shape_pow _ Hs) as (k & Hk & E).
  assert (0 < 2 ^ k) by (apply Z.pow_pos_nonneg; lia). pose proof (shape_length _ Hs).
  destruct (lookup_lt_is_Some_2 (buckets h) 0) as [es Hes]; [lia|].
  assert (remaining h 0 0 = elems h) as Hrem.
  { unfold remaining, elems. rewrite Hes. change (default [] (Some es)) with es. rewrite drop_0.
    rewrite <- (drop_0 (buckets h)) at 2. by rewrite (drop_S _ _ _ Hes). }
  splits; [|done|done|].
  - unfold hash_first. rewrite (iterate_Ok _ h 0 0 es); [by rewrite Hrem|done|done|lia|lia|].
    rewrite Hrem. unfold hash_size. lia.
  - unfold hash_empty, hash_apply. fold (elems h). rewrite Z.eqb_eq, Hcnt.
    destruct (elems h); simpl; [done|]. split; [lia|done].
Qed.
End Table.

(** * Concrete tables *)

(** Elements hashed and compared by their address. *)
Definition addr_less (a b : Z) : bool := a <? b.
#[global] Instance addr_less_order : StrictWeak addr_less.
Proof. apply (strict_weak_key (λ a, a)). Qed.

Lemma addr_hash_compat a b : same addr_less a b = true → u32 a = u32 b.
Proof.
  unfold same, addr_less. rewrite andb_true_iff, !negb_true_iff, !Z.ltb_ge. intros. f_equal. lia.
Qed.

(** A table of three elements. *)
Definition sample_table : hash :=
  mkHash 3 4 [[8]; [5]; []; [7]].

Lemma sample_table_wf : hash_wf u32 addr_less sample_table.
Proof.
  split.
  - split; simpl; [by exists 2|done|].
    intros [|[|[|[|i]]]] b e Hb He; simpl in Hb; simplify_eq;
      rewrite ?elem_of_cons, ?elem_of_nil in He; destruct_or?; subst; done.
  - simpl. unfold elems; simpl. repeat constructor; set_solver by lia.
  - intros a b _ _ Hab. unfold same, addr_less in Hab.
    apply andb_true_iff in Hab as [H1 H2]. apply negb_true_iff, Z.ltb_ge in H1, H2. lia.
  - done.
Qed.

Lemma hash_table_correct_witness :
  ∃ hi hd, hash_insert u32 addr_less true sample_table 12 = Ok (None, hi) ∧
    elems hi ≡ₚ [12; 8; 5; 7] ∧ hash_delete u32 addr_less true sample_table 12 = Ok (None, hd).
Proof.
  destruct (hash_table_correct u32 addr_less addr_hash_compat true sample_table 12
              sample_table_wf) as (r & hi & hr & hd & Ef & Ei & _ & Ed & _ & _ & _ & _ & Hr);
    [simpl; lia|].
  assert (r = None) as -> by (vm_compute in Ef; by injection Ef).
  exists hi, hd. split; [exact Ei|split; [apply Hr|exact Ed]].
Defined.

Lemma rehash_correct_witness :
  ∃ h', rehash u32 true sample_table = Ok h' ∧ elems h' ≡ₚ elems sample_table.
Proof.
  destruct (rehash_correct u32 addr_less true sample_table sample_table_wf)
    as (h' & E & _ & Hp & _).
  by exists h'.
Defined.

Lemma hash_iteration_witness :
  iterate 4 sample_table (hash_first sample_table) = Ok [8; 5; 7].
Proof. exact (proj1 (hash_iteration_complete u32 addr_less sample_table sample_table_wf)). Defined.
