(* ===== verification/FreeMap.v ===== *)
(** The free map (filesys/free-map.c): one bit per disk sector, kept in memory
    and mirrored in a file, and the interface by which the inode layer
    allocates sectors.

    The file is its bytes, in the order in which [bitmap_write] puts the
    elements of the bitmap there.  The files lie on top of this component, so
    what [file_write_at] returns is a parameter: the number of bytes it
    writes, from the start of the buffer. *)
From S2P Require Import Prelude Bitmap.

Definition FREE_MAP_SECTOR : Z := 0.
Definition ROOT_DIR_SECTOR : Z := 1.

(** [free_map_file]: null until the file is opened, and not reset when it is
    closed. *)
Inductive map_file := NoFile | OpenFile (bytes : list Z) | FreedFile.
(** [free_map] and [free_map_file]. *)
Record free_map := mkFreeMap { map : bitmap; free_map_file : map_file }.

(** What comes from above: the result of [file_write_at] on the free map's
    file, and whether the [calloc] of [release_inode_disk] succeeds. *)
Record environment := mkEnv { bytes_written : free_map → Z; release_calloc : bool }.

(** * The bitmap as bytes of a file *)

Definition elem_bytes (l : list Z) : list Z := concat (word_bytes <$> l).
Fixpoint bytes_elems (bs : list Z) : list Z :=
  match bs with
  | b0 :: b1 :: b2 :: b3 :: bs => bytes_word b0 b1 b2 b3 :: bytes_elems bs
  | _ => []
  end.

(** [file_read_at] gives at most [size] bytes from [ofs] on; [file_write_at]
    puts the first [n] bytes of a buffer of [size] bytes there. *)
Definition image_read (file : list Z) (size ofs : Z) : list Z := take (Z.to_nat size) (drop (Z.to_nat ofs) file).
Definition image_write (n : Z) (file buf : list Z) (size ofs : Z) : list Z :=
  let sent := take (Z.to_nat n) (take (Z.to_nat size) buf) in
  take (Z.to_nat ofs) file ++ sent ++ drop (Z.to_nat ofs + length sent) file.

Definition bitmap_file_size (b : bitmap) : Z := byte_cnt (bit_cnt b).

Definition bitmap_read (b : bitmap) (file : list Z) : outcome (bool * bitmap) :=
  if 0 <? bit_cnt b then
    let size := s32 (byte_cnt (bit_cnt b)) in
    let got := image_read file size 0 in
    let bs := bytes_elems (got ++ drop (length got) (elem_bytes (bits b))) in
    let i := elem_cnt (bit_cnt b) - 1 in
    e ← of_option (zget bs i);
    bs ← of_option (zset bs i (Z.land e (last_mask b)));
    Ok (Z.of_nat (length got) =? size, mkBitmap (bit_cnt b) bs)
  else Ok (true, b).

Section FreeMap.
Context (env : environment).

(** [bitmap_write (free_map, free_map_file)]; without a file the access goes
    through a null or dangling pointer. *)
Definition bitmap_write (st : free_map) : outcome (bool * free_map) :=
  match free_map_file st with
  | OpenFile file =>
      let size := s32 (byte_cnt (bit_cnt (map st))) in
      let n := bytes_written env st in
      Ok (n =? size, mkFreeMap (map st) (OpenFile (image_write n file (elem_bytes (bits (map st))) size 0)))
  | NoFile | FreedFile => Err WildAccess
  end.

(** [created] is the result of [bitmap_create (disk_size (filesys_disk))]. *)
Definition free_map_init (created : option bitmap) : outcome free_map :=
  match created with
  | None => Err KernelPanic
  | Some b => b ← bitmap_mark b FREE_MAP_SECTOR;
              b ← bitmap_mark b ROOT_DIR_SECTOR; Ok (mkFreeMap b NoFile)
  end.

(** The sector stored in [*sectorp], or [None] for failure. *)
Definition free_map_allocate (cnt : Z) (st : free_map) : outcome (option Z * free_map) :=
  '(sector, b) ← bitmap_scan_and_flip (map st) 0 cnt false;
  let st := mkFreeMap b (free_map_file st) in
  '(sector, st) ←
    (if negb (sector =? BITMAP_ERROR) then
       match free_map_file st with
       | NoFile => Ok (sector, st)
       | _ =>
           '(ok, st) ← bitmap_write st;
           if negb ok then
             b ← bitmap_set_multiple (map st) sector cnt false;
             Ok (BITMAP_ERROR, mkFreeMap b (free_map_file st))
           else Ok (sector, st)
       end
     else Ok (sector, st));
  Ok (if negb (sector =? BITMAP_ERROR) then Some sector else None, st).

Definition free_map_release (sector cnt : Z) (st : free_map) : outcome free_map :=
  all ← bitmap_all (map st) sector cnt;
  assert all (
  b ← bitmap_set_multiple (map st) sector cnt false;
  '(_, st) ← bitmap_write (mkFreeMap b (free_map_file st));
  Ok st).

(** [opened]: does [file_open (inode_open (FREE_MAP_SECTOR))] succeed;
    [file]: the bytes of the file. *)
Definition free_map_open (opened : bool) (file : list Z) (st : free_map) : outcome free_map :=
  if negb opened then Err KernelPanic
  else
    '(ok, b) ← bitmap_read (map st) file;
    if negb ok then Err KernelPanic else Ok (mkFreeMap b (OpenFile file)).

(** [file_close] does nothing for a null pointer. *)
Definition free_map_close (st : free_map) : outcome free_map :=
  match free_map_file st with
  | NoFile => Ok st
  | OpenFile _ => Ok (mkFreeMap (map st) FreedFile)
  | FreedFile => Err WildAccess
  end.

(** [created]: does [inode_create] succeed; its file is full of zeros. *)
Definition free_map_create (created opened : bool) (st : free_map) : outcome free_map :=
  if negb created then Err KernelPanic
  else if negb opened then Err KernelPanic
  else
    '(ok, st) ← bitmap_write (mkFreeMap (map st) (OpenFile (replicate (Z.to_nat (bitmap_file_size (map st))) 0)));
    if negb ok then Err KernelPanic else Ok st.

(** * The free map as a set of used sectors *)

Definition used (st : free_map) (s : Z) : bool := bget (map st) s.
Definition sector_count (st : free_map) : Z := bit_cnt (map st).

Record fm_inv (st : free_map) : Prop := {
  fm_wf : bitmap_wf (map st);
  fm_fits : sector_count st < 4294967264
}.

(** The file, if it is open, starts with the elements of the map. *)
Definition map_bytes (b : bitmap) : list Z := elem_bytes (take (Z.to_nat (elem_cnt (bit_cnt b))) (bits b)).
Definition mirrored (st : free_map) : Prop :=
  ∀ file, free_map_file st = OpenFile file → take (Z.to_nat (bitmap_file_size (map st))) file = map_bytes (map st).

(** [fill] on single bits. *)
Lemma used_fill (b b' : bitmap) (r c : nat) v s :
  bit_cnt b' = bit_cnt b → Z.of_nat (r + c) <= bit_cnt b → bits_of b' = fill r c v (bits_of b) →
  0 <= s < bit_cnt b →
  bget b' s = if (Z.of_nat r <=? s) && (s <? Z.of_nat (r + c)) then v else bget b s.
Proof.
  intros Hc Hr Hf Hs.
  assert (bits_of b' !! Z.to_nat s = fill r c v (bits_of b) !! Z.to_nat s) as E by by rewrite Hf.
  rewrite bits_of_lookup, Z2Nat.id, fill_lookup in E by (rewrite ?bits_of_length; lia).
  case_decide; [|rewrite bits_of_lookup in E by lia]; bcases; simpl; try lia; try congruence.
  all: rewrite Z2Nat.id in E by lia; congruence.
Qed.

Lemma bitmap_all_spec b s cnt :
  bitmap_wf b → 0 <= s → 0 <= cnt → s + cnt <= bit_cnt b →
  ∃ r, bitmap_all b s cnt = Ok r ∧ (r = true ↔ ∀ k, s <= k < s + cnt → bget b k = true).
Proof.
  intros Hw Hs Hc Hr. unfold bitmap_all.
  destruct (bitmap_contains_spec b s cnt false) as (c & E & Hiff); [done..|].
  rewrite E. cbn [mbind outcome_bind]. exists (negb c). split; [done|].
  destruct c; simpl.
  - split; [done|]. intros Hall. destruct (proj1 Hiff eq_refl) as (j & Hj & Hb).
    specialize (Hall j Hj). congruence.
  - split; [|done]. intros _ k Hk. destruct (bget b k) eqn:Eb; [done|].
    assert (false = true) by (apply Hiff; eauto). done.
Qed.

Lemma range_bits s cnt k :
  0 <= s → 0 <= cnt →
  (Z.of_nat (Z.to_nat s) <=? k) && (k <? Z.of_nat (Z.to_nat s + Z.to_nat cnt)) =
  (s <=? k) && (k <? s + cnt).
Proof. intros. f_equal; bcases; lia || done. Qed.

Lemma set_range_used (b : bitmap) s cnt v :
  bitmap_wf b → 0 <= s → 0 <= cnt → s + cnt <= bit_cnt b →
  ∃ b', bitmap_set_multiple b s cnt v = Ok b' ∧ bitmap_wf b' ∧ bit_cnt b' = bit_cnt b ∧
    ∀ k, 0 <= k < bit_cnt b →
      bget b' k = if (s <=? k) && (k <? s + cnt) then v else bget b k.
Proof.
  intros Hw Hs Hc Hr. destruct (bitmap_set_multiple_fill b s cnt v) as (b' & E & Hw' & Hc' & Hf); [done..|].
  exists b'. splits; try done. intros k Hk. rewrite <- range_bits by done.
  apply used_fill; try done. lia.
Qed.

Lemma fm_inv_mk b file : bitmap_wf b → bit_cnt b < 4294967264 → fm_inv (mkFreeMap b file).
Proof. by split. Qed.

(** The effect of an allocation on the used set, or its absence. *)
Definition allocated_run (st st' : free_map) (s cnt : Z) : Prop :=
  0 <= s ∧ s + cnt <= sector_count st ∧
  (∀ k, s <= k < s + cnt → used st k = false) ∧
  (∀ k, 0 <= k < sector_count st →
     used st' k = (s <=? k) && (k <? s + cnt) || used st k).
Definition same_used (st st' : free_map) : Prop :=
  ∀ k, 0 <= k < sector_count st → used st' k = used st k.

(** ** The bytes of a map *)

Lemma elem_bytes_length l : length (elem_bytes l) = (4 * length l)%nat.
Proof using. unfold elem_bytes. induction l as [|w l IH]; [done|]. cbn [concat fmap list_fmap] in *. rewrite length_app, IH. cbn [length word_bytes]. lia. Qed.
Lemma elem_bytes_take n l : take (4 * n) (elem_bytes l) = elem_bytes (take n l).
Proof using.
  revert n. induction l as [|w l IH]; intros [|n]; [done|by rewrite take_nil|done|].
  replace (4 * S n)%nat with (4 + 4 * n)%nat by lia. cbn [take elem_bytes concat fmap list_fmap word_bytes app Nat.add].
  unfold elem_bytes in IH. by rewrite IH.
Qed.
Lemma elem_bytes_drop n l : drop (4 * n) (elem_bytes l) = elem_bytes (drop n l).
Proof using.
  revert n. induction l as [|w l IH]; intros [|n]; [done|by rewrite drop_nil|done|].
  replace (4 * S n)%nat with (4 + 4 * n)%nat by lia. cbn [drop elem_bytes concat fmap list_fmap word_bytes app Nat.add].
  apply IH.
Qed.
Lemma bytes_elems_bytes l rest : Forall is_u32 l → bytes_elems (elem_bytes l ++ rest) = l ++ bytes_elems rest.
Proof using.
  induction 1 as [|w l Hw _ IH]; [done|]. cbn [elem_bytes concat fmap list_fmap word_bytes app bytes_elems].
  rewrite bytes_word_bytes by done. f_equal. exact IH.
Qed.

Lemma map_size b : bitmap_wf b →
  s32 (byte_cnt (bit_cnt b)) = 4 * elem_cnt (bit_cnt b) ∧ bitmap_file_size b = 4 * elem_cnt (bit_cnt b) ∧ 0 <= elem_cnt (bit_cnt b).
Proof using.
  intros (Hb & _). assert (elem_cnt (bit_cnt b) = (bit_cnt b + 31) / 32) as He.
  { unfold elem_cnt, ELEM_BITS. rewrite DIV_ROUND_UP_exact by lia. f_equal. lia. }
  assert (0 <= (bit_cnt b + 31) / 32 < 2 ^ 28) as Hr by (split; [apply Z.div_pos; lia|apply Z.div_lt_upper_bound; lia]).
  unfold bitmap_file_size, byte_cnt, sizeof_elem_type. rewrite He, u32_small, s32_small by lia. lia.
Qed.

(** A write that goes through brings the file up to date. *)
Lemma bitmap_write_ok st file : bitmap_wf (map st) → free_map_file st = OpenFile file →
  ∃ ok file', bitmap_write st = Ok (ok, mkFreeMap (map st) (OpenFile file')) ∧
    (ok = true ↔ bytes_written env st = bitmap_file_size (map st)) ∧
    (ok = true → mirrored (mkFreeMap (map st) (OpenFile file'))).
Proof using.
  intros Hw Hf. destruct (map_size (map st) Hw) as (Es & Eb & H0). unfold bitmap_write. rewrite Hf, Es. eexists _, _.
  split; [reflexivity|]. rewrite Eb. split; [apply Z.eqb_eq|]. intros Hn%Z.eqb_eq f' [= <-]. cbn [map].
  rewrite Hn, Eb. unfold image_write, map_bytes. change (Z.to_nat 0) with 0%nat. rewrite take_0, app_nil_l.
  destruct Hw as (_ & Hl & _). set (k := elem_cnt (bit_cnt (map st))) in *.
  replace (Z.to_nat (4 * k)) with (4 * Z.to_nat k)%nat by lia. rewrite take_take, Nat.min_id, elem_bytes_take.
  apply take_app_length'. rewrite elem_bytes_length, length_take. lia.
Qed.

(** A write of the map fails. *)
Definition write_fails (st : free_map) : Prop :=
  ∃ b, bit_cnt b = sector_count st ∧ bytes_written env (mkFreeMap b (free_map_file st)) ≠ bitmap_file_size b.
Definition still_open (st st' : free_map) : Prop :=
  match free_map_file st with
  | OpenFile _ => ∃ file, free_map_file st' = OpenFile file
  | f => free_map_file st' = f
  end.

Lemma free_map_allocate_ok cnt st :
  fm_inv st → free_map_file st ≠ FreedFile → 1 <= cnt →
  ∃ r st', free_map_allocate cnt st = Ok (r, st') ∧ fm_inv st' ∧
    sector_count st' = sector_count st ∧ still_open st st' ∧
    match r with
    | Some s => allocated_run st st' s cnt ∧ mirrored st'
    | None => same_used st st' ∧
        ((∀ s, 0 <= s → s + cnt <= sector_count st → ∃ k, s <= k < s + cnt ∧ used st k = true) ∨ write_fails st)
    end.
Proof.
  intros [Hw Hfit] Hnf Hcnt. unfold free_map_allocate, sector_count in *.
  destruct (bitmap_scan_and_flip_list (map st) cnt Hw) as
    [(r & b & E & Hr & Hwb & Hcb & Hrun & _ & Hf)|[E Hno]]; [lia| |].
  - erewrite bind_step by exact E. assert (∀ k, 0 <= k < bit_cnt (map st) →
      bget b k = (Z.of_nat r <=? k) && (k <? Z.of_nat r + cnt) || bget (map st) k) as Hset.
    { intros k Hk. rewrite (used_fill (map st) b r (Z.to_nat cnt) true) by (done || lia).
      replace (Z.of_nat (r + Z.to_nat cnt)) with (Z.of_nat r + cnt) by lia.
      by destruct ((Z.of_nat r <=? k) && (k <? Z.of_nat r + cnt)). }
    assert (∀ k, Z.of_nat r <= k < Z.of_nat r + cnt → bget (map st) k = false) as Hfree.
    { intros k Hk. apply run_of_lookup in Hrun as [_ Hrun]. specialize (Hrun (Z.to_nat k) ltac:(lia)).
      rewrite bits_of_lookup, Z2Nat.id in Hrun by lia. by injection Hrun. }
    assert ((Z.of_nat r =? BITMAP_ERROR) = false) as Hne.
    { unfold BITMAP_ERROR, SIZE_MAX. destruct (Z.eqb_spec (Z.of_nat r) 4294967295); [lia|done]. }
    cbv beta iota. rewrite Hne. cbn [negb free_map_file]. unfold still_open.
    destruct (free_map_file st) as [|file|] eqn:Ef; [| |done].
    + cbn [mbind outcome_bind]. rewrite Hne. eexists _, _. split; [reflexivity|]. cbn [map free_map_file negb].
      splits; [by apply fm_inv_mk; lia || done|done|done| |done].
      unfold allocated_run, used, sector_count. cbn [map]. splits; try done; lia.
    + destruct (bitmap_write_ok (mkFreeMap b (OpenFile file)) file Hwb eq_refl) as (ok & file' & Ew & Hok & Hm).
      erewrite (bind_step (bitmap_write _)) by exact Ew. cbv beta iota. destruct ok; cbn [negb map].
      * cbn [mbind outcome_bind]. rewrite Hne. eexists _, _. split; [reflexivity|]. cbn [map free_map_file negb].
        splits; [by apply fm_inv_mk; lia || done|done|by eexists| |by apply Hm].
        unfold allocated_run, used, sector_count. cbn [map]. splits; try done; lia.
      * destruct (set_range_used b (Z.of_nat r) cnt false) as (b' & E' & Hw' & Hc' & Hg);
          [done|lia|lia|lia|].
        erewrite bind_step by (erewrite bind_step by exact E'; reflexivity). cbv beta iota.
        rewrite Z.eqb_refl. eexists _, _. split; [reflexivity|]. cbn [map free_map_file negb].
        splits; [by apply fm_inv_mk; lia || done|lia|by eexists| |].
        -- intros k Hk. unfold used; cbn [map]. unfold sector_count in Hk. rewrite Hg by lia.
           rewrite Hset by lia. destruct ((Z.of_nat r <=? k) && (k <? Z.of_nat r + cnt)) eqn:Er; [|done].
           apply andb_true_iff in Er as [E1 E2]. rewrite Hfree by lia. done.
        -- right. exists b. rewrite Ef. split; [done|]. intros Hn. by apply Hok in Hn.
  - erewrite bind_step by exact E. cbv beta iota. rewrite Z.eqb_refl. cbn [negb mbind outcome_bind].
    rewrite Z.eqb_refl. eexists _, _. split; [reflexivity|]. destruct st as [b im]. cbn [map free_map_file negb] in *.
    splits; [by apply fm_inv_mk|done|unfold still_open; cbn [free_map_file]; destruct im; eauto|done|]. left. intros s Hs Hsc.
    destruct (decide (Exists (λ k, bget b k = true) (seqZ s cnt))) as [Hex|Hnex].
    + apply Exists_exists in Hex as (k & Hk & Hb). apply elem_of_seqZ in Hk. by exists k.
    + exfalso. apply (Hno (Z.to_nat s)). apply run_of_lookup. rewrite bits_of_length. split; [lia|].
      intros n Hn. rewrite bits_of_lookup by lia. f_equal.
      destruct (bget b (Z.of_nat n)) eqn:Eb; [|done]. exfalso. apply Hnex, Exists_exists.
      exists (Z.of_nat n). split; [apply elem_of_seqZ; lia|done].
Qed.

Lemma free_map_release_ok s cnt st file :
  fm_inv st → free_map_file st = OpenFile file → 0 <= s → 0 <= cnt → s + cnt <= sector_count st →
  (∀ k, s <= k < s + cnt → used st k = true) →
  ∃ st', free_map_release s cnt st = Ok st' ∧ fm_inv st' ∧ sector_count st' = sector_count st ∧ still_open st st' ∧
    (write_fails st ∨ mirrored st') ∧
    ∀ k, 0 <= k < sector_count st →
      used st' k = negb ((s <=? k) && (k <? s + cnt)) && used st k.
Proof.
  intros [Hw Hfit] Hf Hs Hc Hr Hall. unfold free_map_release, sector_count in *.
  destruct (bitmap_all_spec (map st) s cnt) as (r & E & Hiff); [done..|].
  erewrite bind_step by exact E. assert (r = true) as -> by by apply Hiff. cbn [assert].
  destruct (set_range_used (map st) s cnt false) as (b' & E' & Hw' & Hc' & Hg); [done..|].
  erewrite bind_step by exact E'. rewrite Hf.
  destruct (bitmap_write_ok (mkFreeMap b' (OpenFile file)) file Hw' eq_refl) as (ok & file' & Ew & Hok & Hm).
  erewrite bind_step by exact Ew. eexists. split; [reflexivity|]. unfold still_open. rewrite Hf. cbn [map free_map_file].
  splits; [by apply fm_inv_mk; lia || done|done|by eexists| |].
  - destruct ok; [right; by apply Hm|left]. exists b'. rewrite Hf. split; [done|]. intros Hn. by apply Hok in Hn.
  - intros k Hk. unfold used. cbn [map]. rewrite Hg by done. by destruct ((s <=? k) && (k <? s + cnt)).
Qed.

(** C26: The free map allocates free sectors only.  In a consistent free map,
    unless its file was closed, [free_map_allocate] either returns the start
    of a run of [cnt] sectors that were all free, marks exactly these used and
    brings the file up to date; or fails leaving every sector as it was,
    because no run is free or because the file was not written in full.
    [free_map_release] of a run within the disk, with the file open, frees
    exactly the run when all of it is in use, and brings the file up to date
    unless writing it fails; without an open file it goes through a null or
    dangling pointer; and if a sector of the run is free its assertion fails. *)
Theorem free_map_correct cnt s n st :
  fm_inv st → 1 <= cnt → 0 <= s → 0 <= n → s + n <= sector_count st →
  (free_map_file st ≠ FreedFile →
   ∃ r st', free_map_allocate cnt st = Ok (r, st') ∧ fm_inv st' ∧
     sector_count st' = sector_count st ∧ still_open st st' ∧
     match r with
     | Some s => allocated_run st st' s cnt ∧ mirrored st'
     | None => same_used st st' ∧
         ((∀ s, 0 <= s → s + cnt <= sector_count st → ∃ k, s <= k < s + cnt ∧ used st k = true) ∨ write_fails st)
     end) ∧
  ((∀ k, s <= k < s + n → used st k = true) →
   match free_map_file st with
   | OpenFile _ =>
       ∃ st', free_map_release s n st = Ok st' ∧ fm_inv st' ∧ sector_count st' = sector_count st ∧ still_open st st' ∧
         (write_fails st ∨ mirrored st') ∧
         ∀ k, 0 <= k < sector_count st → used st' k = negb ((s <=? k) && (k <? s + n)) && used st k
   | _ => free_map_release s n st = Err WildAccess
   end) ∧
  ((∃ k, s <= k < s + n ∧ used st k = false) → free_map_release s n st = Err AssertFail).
Proof.
  intros Hi Hc Hs Hn Hr. splits.
  - intros Hf. by apply free_map_allocate_ok.
  - intros Hall. destruct (free_map_file st) as [|file|] eqn:Ef; [|by eapply free_map_release_ok|];
      unfold free_map_release; pose proof (fm_wf st Hi) as Hw;
      (destruct (bitmap_all_spec (map st) s n) as (r & E & Hiff); [done..|]);
      (erewrite bind_step by exact E); (assert (r = true) as -> by by apply Hiff); cbn [assert];
      (destruct (set_range_used (map st) s n false) as (b' & E' & _); [done..|]);
      (erewrite bind_step by exact E'); by rewrite Ef.
  - intros (k & Hk & Hf). unfold free_map_release.
    destruct (bitmap_all_spec (map st) s n) as (r & E & Hiff); [apply Hi|done..|].
    erewrite bind_step by exact E. destruct r; [|done].
    unfold used in Hf. rewrite (proj1 Hiff eq_refl k Hk) in Hf. done.
Qed.

(** ** Persistence *)

Lemma last_mask_bit b k :
  0 <= bit_cnt b → 0 <= k < 32 → (bit_cnt b mod 32 = 0 ∨ k < bit_cnt b mod 32) →
  Z.testbit (last_mask b) k = true.
Proof.
  intros Hb Hk Hc. unfold last_mask, ELEM_BITS. pose proof (Z.mod_pos_bound (bit_cnt b) 32 ltac:(lia)).
  destruct (Z.eqb_spec (bit_cnt b mod 32) 0) as [E|Hne]; cbn [negb].
  - change (u32 (-1)) with (Z.ones 32). apply Z.ones_spec_low. lia.
  - rewrite Z.shiftl_mul_pow2, Z.mul_1_l by lia.
    assert (0 < 2 ^ (bit_cnt b mod 32)) by (apply Z.pow_pos_nonneg; lia).
    assert (2 ^ (bit_cnt b mod 32) < 2 ^ 32) by (apply Z.pow_lt_mono_r; lia).
    change (2 ^ 32) with 4294967296 in *.
    rewrite !u32_small by (rewrite ?u32_small; lia). rewrite Z.sub_1_r, <- Z.ones_equiv.
    apply Z.ones_spec_low. lia.
Qed.

Lemma bitmap_read_ok b b0 file :
  bitmap_wf b → bitmap_wf b0 → bit_cnt b0 = bit_cnt b →
  take (Z.to_nat (bitmap_file_size b0)) file = map_bytes b0 →
  ∃ b', bitmap_read b file = Ok (true, b') ∧ bit_cnt b' = bit_cnt b ∧
    ∀ k, 0 <= k < bit_cnt b → bget b' k = bget b0 k.
Proof.
  intros Hwf Hwf0 Hcnt Hfile. pose proof Hwf as (Hb & Hl & Hu). pose proof Hwf0 as (_ & Hl0 & Hu0).
  destruct (map_size b0 Hwf0) as (_ & Eb & _), (map_size b Hwf) as (Es & _ & H0). rewrite Hcnt in *. unfold bitmap_read.
  destruct (Z.ltb_spec 0 (bit_cnt b)) as [Hpos|]; [|exists b; splits; done || lia].
  assert (elem_cnt (bit_cnt b) = (bit_cnt b + 31) / 32) as He.
  { unfold elem_cnt, ELEM_BITS. rewrite DIV_ROUND_UP_exact by lia. f_equal. lia. }
  pose proof (Z.div_mod (bit_cnt b + 31) 32 ltac:(lia)). pose proof (Z.mod_pos_bound (bit_cnt b + 31) 32 ltac:(lia)).
  set (n := Z.to_nat (elem_cnt (bit_cnt b))) in *. set (image := take n (bits b0) ++ drop n (bits b)).
  assert (image_read file (4 * elem_cnt (bit_cnt b)) 0 = elem_bytes (take n (bits b0))) as Eg.
  { unfold image_read. change (Z.to_nat 0) with 0%nat. rewrite drop_0, <- Eb, Hfile. unfold map_bytes. by rewrite Hcnt. }
  assert (length (elem_bytes (take n (bits b0))) = (4 * n)%nat) as El by (rewrite elem_bytes_length, length_take; lia).
  rewrite Es, Eg, El, elem_bytes_drop, bytes_elems_bytes by by apply Forall_take.
  rewrite <- (app_nil_r (elem_bytes (drop n (bits b)))), bytes_elems_bytes by by apply Forall_drop.
  cbn [bytes_elems]. rewrite app_nil_r. fold image.
  assert (0 <= elem_cnt (bit_cnt b) - 1 < Z.of_nat (length image)) as Hrange
    by (unfold image; rewrite length_app, length_take, length_drop; lia).
  destruct (zget_is_Some image (elem_cnt (bit_cnt b) - 1) Hrange) as [e Ee].
  rewrite Ee. cbn [of_option mbind outcome_bind]. rewrite zset_Some by done.
  cbn [of_option mbind outcome_bind]. rewrite (proj2 (Z.eqb_eq (Z.of_nat (4 * n)) (4 * elem_cnt (bit_cnt b)))) by lia.
  eexists. splits; [reflexivity|done|].
  intros k Hk. pose proof (Z.div_mod k 32 ltac:(lia)). pose proof (Z.mod_pos_bound k 32 ltac:(lia)).
  assert (zget (bits b0) (k / 32) = zget image (k / 32)) as Ez.
  { unfold zget. destruct (k / 32 <? 0); [done|]. unfold image. rewrite lookup_app_l by (rewrite length_take; lia).
    by rewrite lookup_take_lt by lia. }
  unfold bget. cbn [bits]. rewrite zget_insert by done. rewrite Ez.
  destruct (Z.eqb_spec (elem_cnt (bit_cnt b) - 1) (k / 32)) as [E|]; [|done].
  rewrite <- E, Ee, Z.land_spec, last_mask_bit; [apply andb_true_r|lia|apply Z.mod_pos_bound; lia|].
  pose proof (Z.div_mod (bit_cnt b) 32 ltac:(lia)). pose proof (Z.mod_pos_bound (bit_cnt b) 32 ltac:(lia)).
  destruct (decide (bit_cnt b mod 32 = 0)); [by left|right].
  assert (bit_cnt b / 32 = k / 32); lia.
Qed.

Lemma mirrored_opens st st0 file : fm_inv st → fm_inv st0 → sector_count st0 = sector_count st →
  mirrored st → free_map_file st = OpenFile file →
  ∃ st2, free_map_open true file st0 = Ok st2 ∧ same_used st st2 ∧ sector_count st2 = sector_count st.
Proof.
  intros [Hw _] [Hw0 _] Hsc Hm Hf. unfold sector_count in *.
  destruct (bitmap_read_ok (map st0) (map st) file) as (b' & E & Hc & Hg); [done|done|done|by apply Hm|].
  eexists. unfold free_map_open. cbn [negb]. erewrite bind_step by exact E. cbv beta iota. cbn [negb].
  splits; [reflexivity| |cbn [map]; lia].
  intros k Hk. unfold used, sector_count in *. cbn [map]. by rewrite Hg by lia.
Qed.

(** C35: The free map survives a shutdown.  After an allocation that succeeded
    with the file open, or a write of the map that was not cut short, the
    bytes of the file, read by [free_map_open] over a freshly created map of
    the same size, give back exactly the same set of used sectors. *)
Theorem free_map_persists st st0 st1 file0 :
  fm_inv st → fm_inv st0 → sector_count st0 = sector_count st → free_map_file st = OpenFile file0 →
  bitmap_write st = Ok (true, st1) ∨ (∃ cnt s, 1 <= cnt ∧ free_map_allocate cnt st = Ok (Some s, st1)) →
  ∃ file st2, free_map_file st1 = OpenFile file ∧ free_map_open true file st0 = Ok st2 ∧
    same_used st1 st2 ∧ sector_count st2 = sector_count st.
Proof.
  intros Hi Hi0 Hsc Hf Hrun.
  assert (fm_inv st1 ∧ sector_count st1 = sector_count st ∧ mirrored st1 ∧ ∃ file, free_map_file st1 = OpenFile file)
    as (Hi1 & Hc1 & Hm & file & Hf1).
  { destruct Hrun as [E|(cnt & s & Hc & E)].
    - destruct (bitmap_write_ok st file0 (fm_wf st Hi) Hf) as (ok & file' & E' & _ & Hm). rewrite E in E'.
      injection E' as <- ->. splits; [apply fm_inv_mk; apply Hi|done|by apply Hm|by eexists].
    - destruct (free_map_allocate_ok cnt st Hi ltac:(by rewrite Hf) Hc) as (r & st' & E' & Hi' & Hc' & Ho & Hr).
      rewrite E in E'. injection E' as <- <-. unfold still_open in Ho. rewrite Hf in Ho. by destruct Hr. }
  destruct (mirrored_opens st1 st0 file) as (st2 & E & Hs & Hc); [done|done|congruence|done|done|].
  exists file, st2. splits; [done|done|done|congruence].
Qed.
End FreeMap.

(** * A concrete free map *)

Definition sample_map : free_map := mkFreeMap sample_bitmap (OpenFile (elem_bytes (bits sample_bitmap))).
Lemma sample_map_inv : fm_inv sample_map.
Proof. split; [apply sample_bitmap_wf|done]. Qed.
(** Writing is never cut short, and memory suffices. *)
Definition sample_env : environment := mkEnv (λ st, bitmap_file_size (map st)) true.

Lemma free_map_correct_witness :
  ∃ st', free_map_allocate sample_env 2 sample_map = Ok (Some 2, st') ∧ used st' 2 = true ∧
    free_map_release sample_env 0 3 sample_map = Err AssertFail.
Proof.
  destruct (free_map_correct sample_env 2 0 3 sample_map sample_map_inv ltac:(lia) ltac:(lia)
              ltac:(lia) ltac:(vm_compute; done)) as (Hal & _ & Hrel).
  destruct (Hal ltac:(done)) as (r & st' & E & _ & _ & _ & Hm).
  assert (r = Some 2) as ->.
  { assert (fst <$> (match free_map_allocate sample_env 2 sample_map with
                     | Ok a => Some a | Err _ => None end) = Some (Some 2)) as E' by by vm_compute.
    rewrite E in E'. by injection E'. }
  exists st'. split; [exact E|]. split.
  - destruct Hm as [(_ & _ & _ & Hu) _]. rewrite (Hu 2) by (vm_compute; done). reflexivity.
  - apply Hrel. exists 2. by vm_compute.
Defined.

Lemma free_map_persists_witness :
  ∃ file st2, free_map_open true file (mkFreeMap (mkBitmap 40 [0; 0]) NoFile) = Ok st2 ∧ used st2 1 = true ∧ used st2 2 = false.
Proof.
  destruct (free_map_persists sample_env sample_map (mkFreeMap (mkBitmap 40 [0; 0]) NoFile)
    (mkFreeMap sample_bitmap (OpenFile (elem_bytes (bits sample_bitmap)))) (elem_bytes (bits sample_bitmap)))
    as (file & st2 & _ & E & Hs & _).
  - exact sample_map_inv.
  - split; [|done]. split; [cbn; lia|]. split; [by vm_compute|by repeat constructor].
  - reflexivity.
  - reflexivity.
  - left. reflexivity.
  - exists file, st2. split; [exact E|]. rewrite (Hs 1) by by vm_compute. rewrite (Hs 2) by by vm_compute. split; reflexivity.
Defined.
