(* ===== verification/Block.v ===== *)
(** The interface between the buffer cache and the inode layer: reading and
    writing parts of sectors.  The inode layer's definitions and theorems are
    stated over this interface; [Cache] implements it. *)
From S2P Require Import Prelude Cache.

Class Block (S : Type) := {
  bc_read : S → Z → Z → Z → outcome (list Z * S);
  bc_write : S → Z → list Z → Z → outcome S;
  bc_release : S → Z → outcome S
}.

(** The promise: a store holds, for each of its sectors, 512 bytes
    ([block_at]); reads return parts of them and writes replace parts, each
    without effect on the other sectors. *)
Class BlockLaws (S : Type) `{Block S} := {
  block_inv : S → Prop;
  block_at : S → Z → option (list Z);
  block_at_length st s bs : block_inv st → block_at st s = Some bs → length bs = 512%nat;
  bc_read_ok st s bs size offset :
    block_inv st → block_at st s = Some bs → in_sector size offset = true →
    ∃ st', bc_read st s size offset = Ok (sub_bytes bs size offset, st') ∧ block_inv st' ∧
      ∀ k, block_at st' k = block_at st k;
  bc_write_ok st s bs src offset :
    block_inv st → block_at st s = Some bs → in_sector (Z.of_nat (length src)) offset = true →
    ∃ st', bc_write st s src offset = Ok st' ∧ block_inv st' ∧
      block_at st' s = Some (patch_bytes bs src offset) ∧
      ∀ k, k ≠ s → block_at st' k = block_at st k;
  bc_release_ok st s : block_inv st →
    ∃ st', bc_release st s = Ok st' ∧ block_inv st' ∧ ∀ k, block_at st' k = block_at st k
}.

(** * The buffer cache implements it *)

Section CacheBlock.
Context {D : Type} `{DiskLaws D}.

#[export] Instance cache_Block : Block (state D) := {
  bc_read := buffer_cache_read;
  bc_write := buffer_cache_write;
  bc_release st s := '(_, st) ← buffer_cache_release st s; Ok st
}.

Definition cache_at (st : state D) (s : Z) : option (list Z) :=
  if (0 <=? s) && (s <? capacity (filesys_disk st)) then
    match view st s with Ok bs => Some bs | Err _ => None end
  else None.

Lemma cache_at_Some st s bs :
  cache_at st s = Some bs ↔ 0 <= s < capacity (filesys_disk st) ∧ view st s = Ok bs.
Proof.
  unfold cache_at. bcases; simpl; try (split; [done|lia]). destruct (view st s); naive_solver lia.
Qed.

Lemma cache_at_same st st' : same_view st st' → ∀ k, cache_at st' k = cache_at st k.
Proof. intros [Hv Hc] k. unfold cache_at. by rewrite Hv, Hc. Qed.

Lemma view_length st s bs :
  cache_inv st → 0 <= s < capacity (filesys_disk st) → view st s = Ok bs → length bs = 512%nat.
Proof.
  intros Hi Hs Hv. destruct (holder_dec st s) as [(i & c & Hh)|Hn].
  - rewrite (view_holder st s i c Hi Hh) in Hv. simplify_eq. eapply inv_data; [done|apply Hh].
  - rewrite view_none in Hv by done. destruct (disk_read_ok (filesys_disk st) s Hs) as (bs' & E & Hl).
    congruence.
Qed.

#[export] Instance cache_BlockLaws : BlockLaws (state D).
Proof.
  refine {| block_inv := cache_inv; block_at := cache_at |}.
  - intros st s bs Hi [Hs Hv]%cache_at_Some. by eapply view_length.
  - intros st s bs size off Hi [Hs Hv]%cache_at_Some Hin.
    destruct (buffer_cache_read_ok st s size off Hi Hs Hin) as (bs' & st' & E & Hbs & Hi' & Hsame).
    rewrite Hv in Hbs. simplify_eq. exists st'. splits; try done. by apply cache_at_same.
  - intros st s bs src off Hi [Hs Hv]%cache_at_Some Hin.
    destruct (buffer_cache_write_ok st s src off Hi Hs Hin) as (bs' & st' & E & Hbs & Hi' & Hc & Hw & Ho).
    rewrite Hv in Hbs. simplify_eq. exists st'. splits; try done.
    + apply cache_at_Some. by rewrite Hc.
    + intros k Hk. unfold cache_at. by rewrite Hc, Ho.
  - intros st s Hi. destruct (buffer_cache_release_ok st s Hi) as (b & st' & E & Hi' & Hsame & _).
    exists st'. simpl. rewrite E. splits; try done. by apply cache_at_same.
Defined.
End CacheBlock.
