(* ===== verification/Inode.v ===== *)
(** The inode layer (filesys/inode.c, with PRJ4 and the linked inode
    structure): files as chains of on-disk inodes, each holding 123 direct
    sector numbers and the sector of the next one; the table of open inodes
    with its open and deny-write counts.

    Sector access goes through the interface [Block], sector allocation
    through the free map.  The lock around inode data and the outcome of
    [malloc]/[calloc] are handled as elsewhere: operations are atomic, and an
    allocation's outcome is an argument.  The open and deny-write counts are
    unbounded; as [int]s they would overflow at 2^31 references, more than
    memory can hold files. *)
From S2P Require Import Prelude Cache Block Bitmap FreeMap.

Definition INODE_MAGIC : Z := 1229868868.
Definition DIRECT_NO : Z := 123.

(** * On-disk inodes *)

(** [struct inode_disk]. *)
Record inode_disk := mkDisk {
  d_sector : Z; d_info : Z; d_length : Z; direct : list Z; indirect : Z; d_magic : Z }.

(** Its 512 bytes: 128 little-endian words. *)
Definition word_at (bs : list Z) (i : nat) : Z :=
  let b k := default 0 (bs !! (4 * i + k)%nat) in
  b 0%nat + 256 * b 1%nat + 65536 * b 2%nat + 16777216 * b 3%nat.

Definition encode (d : inode_disk) : list Z :=
  concat (word_bytes <$>
    ([u32 (d_sector d); u32 (d_info d); u32 (d_length d)] ++ direct d ++
     [indirect d; u32 (d_magic d)])).
Definition decode (bs : list Z) : inode_disk :=
  mkDisk (word_at bs 0) (word_at bs 1) (s32 (word_at bs 2))
         ((λ i, word_at bs (3 + i)) <$> seq 0 123) (word_at bs 126) (word_at bs 127).

Definition set_length (d : inode_disk) (l : Z) : inode_disk :=
  mkDisk (d_sector d) (d_info d) l (direct d) (indirect d) (d_magic d).
Definition set_indirect (d : inode_disk) (s : Z) : inode_disk :=
  mkDisk (d_sector d) (d_info d) (d_length d) (direct d) s (d_magic d).
Definition set_direct (d : inode_disk) (l : list Z) : inode_disk :=
  mkDisk (d_sector d) (d_info d) (d_length d) l (indirect d) (d_magic d).

Definition bytes_to_sectors (size : Z) : Z := DIV_ROUND_UP (u32 size) DISK_SECTOR_SIZE.

(** * In-memory inodes *)

Record inode := mkInode {
  sector : Z; open_cnt : Z; removed : bool; deny_write_cnt : Z; data : inode_disk }.

Definition inode_get_inumber (i : inode) : Z := sector i.
Definition inode_get_info (i : inode) : Z := d_info (data i).
Definition inode_is_directory (i : inode) : bool := negb (Z.land (d_info (data i)) 1 =? 0).
Definition inode_get_level (i : inode) : Z := Z.shiftr (d_info (data i)) 1.
Definition inode_set_level (old_info new_level : Z) : Z :=
  Z.lor old_info (u32 (Z.shiftl new_level 1)).
Definition inode_length (i : inode) : Z := d_length (data i).
Definition inode_open_cnt (i : inode) : Z := open_cnt i.

Definition with_data (i : inode) (d : inode_disk) : inode :=
  mkInode (sector i) (open_cnt i) (removed i) (deny_write_cnt i) d.

Section Inode.
Context {S : Type} `{Block S} (env : environment).

(** The state below open inodes: sectors and the free map. *)
Record dev := mkDev { store : S; fmap : free_map }.

Definition zeros : list Z := replicate 512 0.

Definition read_disk (st : S) (s : Z) : outcome (inode_disk * S) :=
  '(bs, st) ← bc_read st s DISK_SECTOR_SIZE 0; Ok (decode bs, st).
Definition write_disk (v : dev) (s : Z) (d : inode_disk) : outcome dev :=
  st ← bc_write (store v) s (encode d) 0; Ok (mkDev st (fmap v)).
Definition write_zeros (v : dev) (s : Z) : outcome dev :=
  st ← bc_write (store v) s zeros 0; Ok (mkDev st (fmap v)).
Definition alloc1 (v : dev) : outcome (option Z * dev) :=
  '(r, fm) ← free_map_allocate env 1 (fmap v); Ok (r, mkDev (store v) fm).
Definition release1 (v : dev) (s : Z) : outcome dev :=
  fm ← free_map_release env s 1 (fmap v); Ok (mkDev (store v) fm).

(** ** Allocation and release of sectors *)

(** [for (i = start_direct_idx; i < direct_alloc_num; i++)]: the result of
    [free_map_allocate] is not checked, so [direct[i]] keeps its old value on
    failure. *)
Fixpoint alloc_directs (n : nat) (i : Z) (d : inode_disk) (v : dev) : outcome (inode_disk * dev) :=
  match n with
  | O => Ok (d, v)
  | Datatypes.S n =>
      '(r, v) ← alloc1 v;
      d ← (match r with
           | Some s => l ← of_option (zset (direct d) i s); Ok (set_direct d l)
           | None => Ok d
           end);
      s ← of_option (zget (direct d) i);
      v ← write_zeros v s;
      alloc_directs n (i + 1) d v
  end.

(** One node of the chain: its on-disk inode is read, its fields set, and up to
    [DIRECT_NO] sectors allocated; the return value is the chain's remaining
    demand, with the sector of the next node ([None] when done).  An
    unallocated [new_indirect_sector] would be an uninitialised variable. *)
Definition allocate_node (sectors inode_sector length start_direct_idx info : Z) (v : dev)
  : outcome (option (Z * Z) * dev) :=
  '(d, st) ← read_disk (store v) inode_sector;
  let v := mkDev st (fmap v) in
  let d := mkDisk inode_sector info length (direct d) (indirect d) INODE_MAGIC in
  let direct_alloc_num :=
    if DIRECT_NO <? u32 (sectors + start_direct_idx) then DIRECT_NO
    else start_direct_idx + sectors in
  '(d, v) ← alloc_directs (Z.to_nat (direct_alloc_num - start_direct_idx)) start_direct_idx d v;
  let i := Z.max start_direct_idx direct_alloc_num in
  if 0 <? u32 (u32 (sectors - i) + start_direct_idx) then
    '(r, v) ← alloc1 v;
    match r with
    | None => Err WildAccess
    | Some new_indirect_sector =>
        v ← write_disk v inode_sector (set_indirect d new_indirect_sector);
        Ok (Some (u32 (u32 (sectors - i) + start_direct_idx), new_indirect_sector), v)
    end
  else
    v ← write_disk v inode_sector d; Ok (None, v).

(** [release_inode_disk]: the rest of the chain first.  A [calloc] that fails
    leaves a null buffer, which is read into. *)
Fixpoint release_directs (l : list Z) (v : dev) : outcome dev :=
  match l with
  | [] => Ok v
  | s :: l =>
      v ← release1 v s;
      st ← bc_release (store v) s;
      release_directs l (mkDev st (fmap v))
  end.
Fixpoint release_inode_disk (fuel : nat) (sectors inode_sector : Z) (v : dev) : outcome dev :=
  match fuel with
  | O => Err OutOfFuel
  | Datatypes.S fuel =>
      if negb (release_calloc env) then Err WildAccess else
      '(d, st) ← read_disk (store v) inode_sector;
      let v := mkDev st (fmap v) in
      let direct_alloc_num := if DIRECT_NO <? sectors then DIRECT_NO else sectors in
      v ← (if 0 <? sectors - direct_alloc_num then
             v ← release_inode_disk fuel (sectors - direct_alloc_num) (indirect d) v;
             v ← release1 v (indirect d);
             st ← bc_release (store v) (indirect d);
             Ok (mkDev st (fmap v))
           else Ok v);
      release_directs (take (Z.to_nat direct_alloc_num) (direct d)) v
  end.
(** Each node covers 123 sectors. *)
Definition chain_fuel (sectors : Z) : nat := Datatypes.S (Z.to_nat (sectors / DIRECT_NO)).

(** [allocate_inode_disk]; [calloc] says whether its [calloc] succeeds. *)
Fixpoint allocate_inode_disk (fuel : nat) (calloc : bool)
    (sectors inode_sector length start_direct_idx info origin_sector origin_sectors : Z) (v : dev)
  : outcome (bool * dev) :=
  match fuel with
  | O => Err OutOfFuel
  | Datatypes.S fuel =>
      if negb calloc then
        v ← release_inode_disk (chain_fuel (u32 (origin_sector - sectors)))
              (u32 (origin_sector - sectors)) origin_sector v;
        Ok (false, v)
      else
        '(r, v) ← allocate_node sectors inode_sector length start_direct_idx info v;
        match r with
        | Some (rest, next) =>
            allocate_inode_disk fuel calloc rest next length 0 info origin_sector origin_sectors v
        | None => Ok (true, v)
        end
  end.

Definition inode_create (calloc : bool) (sec length info : Z) (v : dev) : outcome (bool * dev) :=
  let sectors := bytes_to_sectors length in
  allocate_inode_disk (Datatypes.S (chain_fuel sectors)) calloc sectors sec length 0 info sec sectors v.

(** ** Reading *)

(** [for (mok = ...; mok > 0; mok--) buffer_cache_read (refer.indirect, &refer, ...)] *)
Fixpoint follow (n : nat) (d : inode_disk) (st : S) : outcome (inode_disk * S) :=
  match n with
  | O => Ok (d, st)
  | Datatypes.S n => '(d, st) ← read_disk st (indirect d); follow n d st
  end.

(** The number of bytes handled in one round. *)
Definition chunk_size (size sector_ofs : Z) : Z :=
  let read_bytes := if DISK_SECTOR_SIZE <? size then DISK_SECTOR_SIZE else size in
  if 0 <? sector_ofs then
    let read_bytes := DISK_SECTOR_SIZE - sector_ofs in
    if size <? read_bytes then size else read_bytes
  else read_bytes.

(** Each round but the first and the last handles a whole sector. *)
Definition io_fuel (size : Z) : nat := Z.to_nat (size / DISK_SECTOR_SIZE + 3).

Fixpoint read_loop (fuel : nat) (d : inode_disk) (direct_idx sector_ofs size : Z) (st : S)
  : outcome (list Z * S) :=
  match fuel with
  | O => Err OutOfFuel
  | Datatypes.S fuel =>
      if 0 <? size then
        sector_idx ← of_option (zget (direct d) direct_idx);
        if s32 sector_idx <? 0 then Ok ([], st)
        else
          let read_bytes := chunk_size size sector_ofs in
          if read_bytes <=? 0 then Ok ([], st)
          else
            '(bs, st) ← bc_read st sector_idx read_bytes sector_ofs;
            let direct_idx := direct_idx + 1 in
            '(d, direct_idx, st) ←
              (if DIRECT_NO <=? direct_idx then
                 '(d, st) ← read_disk st (indirect d); Ok (d, 0, st)
               else Ok (d, direct_idx, st));
            '(rest, st) ← read_loop fuel d direct_idx 0 (size - read_bytes) st;
            Ok (bs ++ rest, st)
      else Ok ([], st)
  end.

(** The bytes read; their number is the return value. *)
Definition inode_read_at (i : inode) (size offset : Z) (st : S) : outcome (list Z * S) :=
  let length := u32 (d_length (data i)) in
  let size := s32 (if u32 size <? u32 (length - offset) then size else u32 (length - offset)) in
  if length <=? u32 offset then Ok ([], st)
  else
    let direct_idx := offset / DISK_SECTOR_SIZE mod DIRECT_NO in
    '(d, st) ← follow (Z.to_nat (offset / (DISK_SECTOR_SIZE * DIRECT_NO))) (data i) st;
    read_loop (io_fuel size) d direct_idx (offset mod DISK_SECTOR_SIZE) size st.

(** ** Writing *)

Fixpoint write_loop (fuel : nat) (d : inode_disk) (direct_idx sector_ofs size : Z)
    (buffer : list Z) (st : S) : outcome (Z * S) :=
  match fuel with
  | O => Err OutOfFuel
  | Datatypes.S fuel =>
      if 0 <? size then
        sector_idx ← of_option (zget (direct d) direct_idx);
        if s32 sector_idx <? 0 then Ok (0, st)
        else
          let write_bytes := chunk_size size sector_ofs in
          if write_bytes <=? 0 then Ok (0, st)
          else
            st ← bc_write st sector_idx (take (Z.to_nat write_bytes) buffer) sector_ofs;
            let direct_idx := direct_idx + 1 in
            '(d, direct_idx, st) ←
              (if DIRECT_NO <=? direct_idx then
                 '(d, st) ← read_disk st (indirect d); Ok (d, 0, st)
               else Ok (d, direct_idx, st));
            '(n, st) ← write_loop fuel d direct_idx 0 (size - write_bytes)
                         (drop (Z.to_nat write_bytes) buffer) st;
            Ok (write_bytes + n, st)
      else Ok (0, st)
  end.

(** [while (start_direct_idx >= DIRECT_NO)]: the last node of the chain. *)
Fixpoint last_node (fuel : nat) (start_direct_idx prev : Z) (d : inode_disk) (st : S)
  : outcome (Z * Z * inode_disk * S) :=
  match fuel with
  | O => Err OutOfFuel
  | Datatypes.S fuel =>
      if DIRECT_NO <=? start_direct_idx then
        if negb (indirect d =? 0) then
          let prev := indirect d in
          '(d, st) ← read_disk st (indirect d);
          last_node fuel (start_direct_idx - DIRECT_NO) prev d st
        else last_node fuel (start_direct_idx - DIRECT_NO) prev d st
      else Ok (start_direct_idx, prev, d, st)
  end.

(** The block extending the file up to [offset + size] bytes; [None] stands for
    the early [return -1]. *)
Definition extend (calloc : bool) (i : inode) (size offset : Z) (v : dev)
  : outcome (option inode * dev) :=
  let len := d_length (data i) in
  let info := inode_get_info i in
  let start := (len + DISK_SECTOR_SIZE - 1) / DISK_SECTOR_SIZE in
  '(start, prev, d, st) ← last_node (Datatypes.S (Z.to_nat start)) start (d_sector (data i)) (data i) (store v);
  let v := mkDev st (fmap v) in
  '(prev, v) ←
    (if (start =? 0) && (0 <? len) then
       '(r, v) ← alloc1 v;
       match r with
       | None => Ok (None, v)
       | Some s => v ← write_disk v (d_sector d) (set_indirect d s); Ok (Some s, v)
       end
     else Ok (Some prev, v));
  match prev with
  | None => Ok (None, v)
  | Some prev =>
      let add_sector := u32 (bytes_to_sectors (offset + size) - bytes_to_sectors len) in
      '(ok, v) ←
        (if 0 <? add_sector then
           allocate_inode_disk (Datatypes.S (Datatypes.S (chain_fuel add_sector))) calloc add_sector prev
             (offset + size) start info prev add_sector v
         else Ok (true, v));
      if negb ok then v ← release1 v prev; Ok (None, v)
      else
        '(d, st) ← read_disk (store v) (d_sector (data i));
        let d := set_length d (offset + size) in
        v ← write_disk (mkDev st (fmap v)) (d_sector d) d;
        Ok (Some (with_data i d), v)
  end.

(** The return value, the inode (whose data the extension replaces) and the
    device.  [buffer] holds the [size] bytes to write. *)
Definition inode_write_at (calloc : bool) (i : inode) (buffer : list Z) (size offset : Z) (v : dev)
  : outcome (Z * inode * dev) :=
  '(r, v) ←
    (if (d_length (data i) <=? offset) && (0 <? size) then extend calloc i size offset v
     else Ok (Some i, v));
  match r with
  | None => Ok (-1, i, v)
  | Some i =>
      let direct_idx := offset / DISK_SECTOR_SIZE mod DIRECT_NO in
      '(d, st) ← follow (Z.to_nat (offset / (DISK_SECTOR_SIZE * DIRECT_NO))) (data i) (store v);
      if negb (deny_write_cnt i =? 0) then Ok (0, i, mkDev st (fmap v))
      else
        '(n, st) ← write_loop (io_fuel size) d direct_idx (offset mod DISK_SECTOR_SIZE) size buffer st;
        Ok (n, i, mkDev st (fmap v))
  end.
End Inode.
Arguments dev S : clear implicits.
