(* ===== verification/InodeData.v ===== *)
(** Theorems on file data in the inode layer: reading returns the bytes of the
    file's sectors, writing inside the file replaces exactly the given bytes,
    whatever the chain of on-disk inodes looks like. *)
From S2P Require Import Prelude Cache Block Bitmap FreeMap Inode.

(** * Chains of on-disk inodes *)

Section Chain.
Context (at_ : Z → option (list Z)).

(** The [k]-th node of the chain starting at [d]. *)
Fixpoint node (d : inode_disk) (k : nat) : option inode_disk :=
  match k with
  | O => Some d
  | Datatypes.S k => bs ← at_ (indirect d); node (decode bs) k
  end.

Lemma node_S d k : node d (S k) = nd ← node d k; bs ← at_ (indirect nd); Some (decode bs).
Proof.
  revert d. induction k as [|k IH]; intros d; [done|].
  cbn [node]. destruct (at_ (indirect d)) as [bs|]; simpl; [|done]. by rewrite <- IH.
Qed.

(** The data sectors [secs] of a file whose first node is [d]: sector [i] is in
    node [i / 123], all are on the disk, and the node after the last full one
    can be read. *)
Record layout (d : inode_disk) (secs : list Z) : Prop := {
  lay_entry i s : secs !! i = Some s →
    ∃ nd bs, node d (i / 123) = Some nd ∧ direct nd !! (i mod 123)%nat = Some s ∧
      0 <= s < 2147483648 ∧ at_ s = Some bs ∧ length bs = 512%nat;
  lay_node k : (k <= length secs / 123)%nat → ∃ nd, node d k = Some nd ∧ length (direct nd) = 123%nat
}.

(** The contents of the sectors, in order. *)
Definition blocks (secs : list Z) : list (list Z) := (λ s, default [] (at_ s)) <$> secs.
Definition file_data (secs : list Z) : list Z := concat (blocks secs).
End Chain.

(** Lists of full sectors. *)
Definition full (bss : list (list Z)) : Prop := Forall (λ bs, length bs = 512%nat) bss.

Lemma full_length bss : full bss → length (concat bss) = (512 * length bss)%nat.
Proof.
  induction 1 as [|bs bss Hl Hf IH]; [done|]. cbn [concat length]. rewrite length_app, Hl, IH. lia.
Qed.

Lemma concat_drop bss i bs ofs :
  full bss → bss !! i = Some bs → (ofs <= 512)%nat →
  drop (512 * i + ofs) (concat bss) = drop ofs bs ++ drop (512 * S i) (concat bss).
Proof.
  intros Hf Hi Ho. assert (length bs = 512%nat) as Hbs by (by eapply (lookup_Forall _ _ _ _ Hf)).
  assert (length (concat (take i bss)) = (512 * i)%nat) as Hl.
  { rewrite full_length by (by apply Forall_take).
    rewrite length_take, Nat.min_l; [done|]. apply lookup_lt_Some in Hi. lia. }
  rewrite <- (take_drop_middle _ _ _ Hi). rewrite !concat_app. cbn [concat].
  rewrite !drop_app, Hl.
  rewrite !(drop_ge (concat (take i bss))) by lia. cbn [app].
  replace (512 * i + ofs - 512 * i)%nat with ofs by lia.
  replace (512 * S i - 512 * i)%nat with 512%nat by lia.
  rewrite (drop_ge bs 512) by lia. rewrite Hbs. replace (ofs - 512)%nat with 0%nat by lia.
  replace (512 - 512)%nat with 0%nat by lia. by rewrite !drop_0.
Qed.

Lemma concat_insert_patch bss i bs ofs src :
  full bss → bss !! i = Some bs → (ofs + length src <= 512)%nat →
  concat (<[i := take ofs bs ++ src ++ drop (ofs + length src) bs]> bss) =
    take (512 * i + ofs) (concat bss) ++ src ++ drop (512 * i + ofs + length src) (concat bss).
Proof.
  intros Hf Hi Ho. assert (length bs = 512%nat) as Hbs by (by eapply (lookup_Forall _ _ _ _ Hf)).
  assert (length (concat (take i bss)) = (512 * i)%nat) as Hl.
  { rewrite full_length by (by apply Forall_take).
    rewrite length_take, Nat.min_l; [done|]. apply lookup_lt_Some in Hi. lia. }
  rewrite (insert_take_drop _ _ _ (lookup_lt_Some _ _ _ Hi)).
  rewrite <- (take_drop_middle _ _ _ Hi) at 3 4. rewrite !concat_app. cbn [concat].
  rewrite take_app, drop_app, Hl.
  rewrite (take_ge (concat _)), (drop_ge (concat _)) by lia. cbn [app].
  replace (512 * i + ofs - 512 * i)%nat with ofs by lia.
  replace (512 * i + ofs + length src - 512 * i)%nat with (ofs + length src)%nat by lia.
  rewrite take_app_le, drop_app_le by lia. by rewrite <- !app_assoc.
Qed.

Lemma blocks_full at_ d secs : layout at_ d secs → full (blocks at_ secs).
Proof.
  intros Hl. apply Forall_lookup. intros i bs Hi. unfold blocks in Hi.
  rewrite list_lookup_fmap in Hi. apply fmap_Some in Hi as (s & Hs & ->).
  destruct (lay_entry _ _ _ Hl i s Hs) as (nd & bs & _ & _ & _ & E & Hlen). by rewrite E.
Qed.

Lemma file_data_length at_ d secs :
  layout at_ d secs → length (file_data at_ secs) = (512 * length secs)%nat.
Proof.
  intros Hl. unfold file_data. rewrite full_length by (by eapply blocks_full).
  unfold blocks. by rewrite length_fmap.
Qed.

(** A chain does not depend on sectors that are not its nodes. *)
Lemma node_ext at1 at2 d k :
  (∀ j nd, (j < k)%nat → node at1 d j = Some nd → at2 (indirect nd) = at1 (indirect nd)) →
  node at2 d k = node at1 d k.
Proof.
  induction k as [|k IH]; intros He; [done|]. rewrite !node_S, IH by (intros j nd Hj; apply (He j); lia).
  destruct (node at1 d k) as [nd|] eqn:E; [|done]. simpl. by rewrite (He k nd) by (lia || done).
Qed.

Lemma layout_ext at1 at2 d secs : (∀ s, at2 s = at1 s) → layout at1 d secs → layout at2 d secs.
Proof.
  intros He Hl. assert (∀ k, node at2 d k = node at1 d k) as Hn by (intros; apply node_ext; auto).
  split.
  - intros i s Hs. rewrite Hn. setoid_rewrite He. by apply Hl.
  - intros k Hk. rewrite Hn. by apply Hl.
Qed.

Lemma file_data_ext at1 at2 secs :
  (∀ s, s ∈ secs → at2 s = at1 s) → file_data at2 secs = file_data at1 secs.
Proof.
  intros He. unfold file_data, blocks. f_equal. apply list_fmap_ext. intros i s Hs.
  rewrite He; [done|]. by eapply list_elem_of_lookup_2.
Qed.

(** * Reading *)

Section Data.
Context {S : Type} `{BlockLaws S}.

(** Two stores with the same sectors. *)
Definition same_blocks (st st' : S) : Prop := block_inv st' ∧ ∀ k, block_at st' k = block_at st k.

Lemma sub_bytes_all bs : length bs = 512%nat → sub_bytes bs DISK_SECTOR_SIZE 0 = bs.
Proof. intros. unfold sub_bytes, DISK_SECTOR_SIZE. simpl Z.to_nat. rewrite drop_0. by apply take_ge; lia. Qed.

Lemma read_disk_ok st s bs :
  block_inv st → block_at st s = Some bs →
  ∃ st', read_disk st s = Ok (decode bs, st') ∧ same_blocks st st'.
Proof.
  intros Hi Hb. destruct (bc_read_ok st s bs DISK_SECTOR_SIZE 0 Hi Hb) as (st' & E & Hi' & Hs); [done|].
  rewrite sub_bytes_all in E by (by apply (block_at_length st s)).
  exists st'. unfold read_disk. erewrite bind_step by exact E. done.
Qed.

Lemma follow_ok k d nd st :
  block_inv st → node (block_at st) d k = Some nd →
  ∃ st', follow k d st = Ok (nd, st') ∧ same_blocks st st'.
Proof.
  revert d st. induction k as [|k IH]; intros d st Hi Hn; cbn [node] in Hn.
  { simplify_eq. exists st. by repeat split. }
  apply bind_Some in Hn as (bs & Hb & Hn).
  destruct (read_disk_ok st _ bs Hi Hb) as (st1 & E1 & Hi1 & Hs1).
  destruct (IH (decode bs) st1 Hi1) as (st2 & E2 & Hi2 & Hs2).
  { rewrite <- Hn. apply node_ext. auto. }
  exists st2. cbn [follow]. erewrite bind_step by exact E1. split; [exact E2|].
  split; [done|]. intros. by rewrite Hs2.
Qed.

Lemma chunk_size_min size ofs :
  0 <= ofs < 512 → 0 <= size → chunk_size size ofs = Z.min size (512 - ofs).
Proof. intros. unfold chunk_size, DISK_SECTOR_SIZE. bcases; lia. Qed.

(** Moving on to the next entry, possibly in the next node. *)
Definition next_entry (d : inode_disk) (direct_idx : Z) (st : S) : outcome (inode_disk * Z * S) :=
  if DIRECT_NO <=? direct_idx then '(d, st) ← read_disk st (indirect d); Ok (d, 0, st)
  else Ok (d, direct_idx, st).

Lemma next_entry_ok d secs st i nd :
  block_inv st → layout (block_at st) d secs → (i < length secs)%nat →
  node (block_at st) d (i / 123) = Some nd →
  ∃ nd' st', next_entry nd (Z.of_nat (i mod 123) + 1) st =
      Ok (nd', Z.of_nat (Datatypes.S i mod 123), st') ∧
    node (block_at st) d (Datatypes.S i / 123) = Some nd' ∧ same_blocks st st'.
Proof.
  intros Hi Hl Hlt Hn. unfold next_entry, DIRECT_NO.
  pose proof (Nat.div_mod_eq i 123) as Hdm. pose proof (Nat.mod_upper_bound i 123 ltac:(lia)) as Hub.
  destruct (Z.leb_spec 123 (Z.of_nat (i mod 123) + 1)).
  - assert (Datatypes.S i = 123 * Datatypes.S (i / 123) + 0)%nat as HS by lia.
    assert (Datatypes.S i / 123 = Datatypes.S (i / 123))%nat as Hd by (symmetry; eapply Nat.div_unique; [|exact HS]; lia).
    assert (Datatypes.S i mod 123 = 0)%nat as Hm by (symmetry; eapply Nat.mod_unique; [|exact HS]; lia).
    destruct (lay_node _ _ _ Hl (Datatypes.S i / 123)) as (nd' & Hn' & _).
    { apply Nat.Div0.div_le_mono. lia. }
    pose proof Hn' as Hn2. rewrite Hd, node_S, Hn in Hn2. apply bind_Some in Hn2 as (nd0 & [= <-] & Hn2).
    apply bind_Some in Hn2 as (bs & Hb & [= <-]).
    destruct (read_disk_ok st _ bs Hi Hb) as (st' & E & Hs). exists (decode bs), st'.
    erewrite bind_step by exact E. rewrite Hm. done.
  - assert (Datatypes.S i = 123 * (i / 123) + Datatypes.S (i mod 123))%nat as HS by lia.
    assert (Datatypes.S i / 123 = i / 123)%nat as Hd by (symmetry; eapply Nat.div_unique; [|exact HS]; lia).
    assert (Datatypes.S i mod 123 = Datatypes.S (i mod 123))%nat as Hm by (symmetry; eapply Nat.mod_unique; [|exact HS]; lia).
    exists nd, st. rewrite Hd, Hm. splits; [do 3 f_equal; lia|done|by split].
Qed.

(** The read loop at entry [i], byte [ofs]: the remaining bytes of the file. *)
Lemma read_loop_ok fuel st d secs i nd ofs size :
  block_inv st → layout (block_at st) d secs → node (block_at st) d (i / 123) = Some nd →
  0 <= ofs < 512 → 0 <= size → 512 * Z.of_nat i + ofs + size <= 512 * Z.of_nat (length secs) →
  ofs + size <= 512 * (Z.of_nat fuel - 1) → 0 < Z.of_nat fuel →
  ∃ st', read_loop fuel nd (Z.of_nat (i mod 123)) ofs size st =
      Ok (take (Z.to_nat size) (drop (512 * i + Z.to_nat ofs) (file_data (block_at st) secs)), st') ∧
    same_blocks st st'.
Proof.
  revert st i nd ofs size. induction fuel as [|fuel IH];
    intros st i nd ofs size Hi Hl Hn Ho Hsz Htot Hf Hf0; [lia|].
  cbn [read_loop]. destruct (Z.ltb_spec 0 size).
  2:{ replace size with 0 by lia. exists st. by repeat split. }
  assert (i < length secs)%nat as Hlt by lia.
  destruct (lookup_lt_is_Some_2 secs i Hlt) as [s Hs].
  destruct (lay_entry _ _ _ Hl i s Hs) as (nd0 & bs & Hn0 & Hd & Hr & Hb & Hbl).
  rewrite Hn in Hn0. simplify_eq.
  erewrite bind_step.
  2:{ unfold zget. destruct (Z.ltb_spec (Z.of_nat (i mod 123)) 0); [lia|]. by rewrite Nat2Z.id, Hd. }
  rewrite s32_small by lia. destruct (Z.ltb_spec s 0); [lia|].
  rewrite chunk_size_min by lia. set (c := Z.min size (512 - ofs)).
  destruct (Z.leb_spec c 0); [lia|].
  destruct (bc_read_ok st s bs c ofs Hi Hb) as (st1 & E1 & Hi1 & Hs1);
    [apply in_sector_spec; lia|].
  erewrite bind_step by exact E1. cbv beta iota.
  assert (∀ k, node (block_at st1) d k = node (block_at st) d k) as Hnode by (intros; apply node_ext; auto).
  assert (layout (block_at st1) d secs) as Hl1 by (by eapply layout_ext).
  destruct (next_entry_ok d secs st1 i nd0) as (nd' & st2 & E2 & Hn2 & Hi2 & Hs2);
    [done|done|done|by rewrite Hnode|].
  unfold next_entry in E2. erewrite bind_step by exact E2. cbv beta iota.
  assert (∀ k, block_at st2 k = block_at st k) as Hs12 by (intros; by rewrite Hs2).
  destruct (IH st2 (Datatypes.S i) nd' 0 (size - c)) as (st3 & E3 & Hi3 & Hs3).
  - done.
  - by eapply layout_ext.
  - rewrite <- Hn2. apply node_ext. auto.
  - lia.
  - lia.
  - lia.
  - lia.
  - lia.
  - erewrite bind_step by exact E3. exists st3. split; [|split; [done|intros; by rewrite Hs3]].
    cbv beta iota. do 2 f_equal.
    assert (file_data (block_at st2) secs = file_data (block_at st) secs) as -> by (apply file_data_ext; auto).
    assert (blocks (block_at st) secs !! i = Some bs) as Hbi.
    { unfold blocks. rewrite list_lookup_fmap, Hs. simpl. by rewrite Hb. }
    unfold file_data. rewrite (concat_drop _ i bs (Z.to_nat ofs)) by (done || lia || by eapply blocks_full).
    rewrite take_app. unfold sub_bytes. rewrite Nat.add_0_r, length_drop, Hbl.
    rewrite <- (take_ge (drop (Z.to_nat ofs) bs) (512 - Z.to_nat ofs)) at 2 by (rewrite length_drop; lia).
    rewrite take_take. f_equal; f_equal; lia.
Qed.

(** Reading, at any offset. *)
Lemma inode_read_at_ok st i secs size offset :
  block_inv st → layout (block_at st) (data i) secs →
  0 <= inode_length i <= 512 * Z.of_nat (length secs) → inode_length i < 2147483648 →
  0 <= size < 2147483648 → 0 <= offset < 2147483648 →
  ∃ bs st', inode_read_at i size offset st = Ok (bs, st') ∧ same_blocks st st' ∧
    bs = take (Z.to_nat (Z.min size (inode_length i - offset)))
           (drop (Z.to_nat offset) (file_data (block_at st) secs)).
Proof.
  intros Hi Hl Hlen Hlm Hsz Ho. unfold inode_read_at, inode_length in *.
  rewrite (u32_small (d_length _)), (u32_small offset), (u32_small size) by lia.
  destruct (Z.leb_spec (d_length (data i)) offset) as [Hge|Hlt].
  { exists [], st. splits; [done|by split|].
    replace (Z.to_nat _) with 0%nat by lia. done. }
  rewrite u32_small by lia.
  set (n := s32 _). assert (n = Z.min size (d_length (data i) - offset)) as Hn.
  { unfold n. bcases; rewrite s32_small; lia. }
  pose proof (Z.div_mod offset 512 ltac:(lia)) as Hdm. pose proof (Z.mod_pos_bound offset 512 ltac:(lia)) as Hm.
  set (k := Z.to_nat (offset / 512)).
  assert (0 <= offset / 512) by (apply Z.div_pos; lia).
  assert (k <= length secs)%nat as Hk by lia.
  assert (Z.to_nat (offset / (DISK_SECTOR_SIZE * DIRECT_NO)) = k / 123)%nat as Hkd.
  { unfold DISK_SECTOR_SIZE, DIRECT_NO, k. rewrite <- Z.div_div, Z2Nat.inj_div by lia. done. }
  assert (offset / DISK_SECTOR_SIZE mod DIRECT_NO = Z.of_nat (k mod 123)) as Hkm.
  { unfold DISK_SECTOR_SIZE, DIRECT_NO, k. rewrite Nat2Z.inj_mod, Z2Nat.id by lia. done. }
  destruct (lay_node _ _ _ Hl (k / 123)) as (nd & Hnd & _); [by apply Nat.Div0.div_le_mono|].
  destruct (follow_ok (k / 123) (data i) nd st Hi Hnd) as (st1 & E1 & Hi1 & Hs1).
  rewrite Hkd. erewrite bind_step by exact E1. cbv beta iota. rewrite Hkm.
  pose proof (Z.div_mod n 512 ltac:(lia)). pose proof (Z.mod_pos_bound n 512 ltac:(lia)).
  destruct (read_loop_ok (io_fuel n) st1 (data i) secs k nd (offset mod 512) n) as (st2 & E2 & Hi2 & Hs2).
  - done.
  - by eapply layout_ext.
  - rewrite <- Hnd. apply node_ext. auto.
  - lia.
  - lia.
  - lia.
  - unfold io_fuel, DISK_SECTOR_SIZE. lia.
  - unfold io_fuel, DISK_SECTOR_SIZE. lia.
  - eexists _, st2. split; [exact E2|]. split; [split; [done|intros; by rewrite Hs2]|].
    rewrite Hn. f_equal. replace (512 * k + Z.to_nat (offset mod 512))%nat with (Z.to_nat offset) by lia.
    f_equal. apply file_data_ext. auto.
Qed.

(** * Writing inside the file *)

(** The links of the chain are not data sectors, and no sector is used twice. *)
Definition separate (at_ : Z → option (list Z)) (d : inode_disk) (secs : list Z) : Prop :=
  NoDup secs ∧
  ∀ k nd, (k < length secs / 123)%nat → node at_ d k = Some nd → indirect nd ∉ secs.

(** [data] with the bytes [src] at [pos]. *)
Definition overwrite (bytes src : list Z) (pos : nat) : list Z :=
  take pos bytes ++ src ++ drop (pos + length src) bytes.

Lemma overwrite_app bytes a b pos :
  (pos + length a + length b <= length bytes)%nat →
  overwrite (overwrite bytes a pos) b (pos + length a) = overwrite bytes (a ++ b) pos.
Proof.
  intros Hl. unfold overwrite. rewrite length_app.
  rewrite (app_assoc (take pos bytes) a) at 1. rewrite (app_assoc (take pos bytes) a) at 1.
  assert (length (take pos bytes ++ a) = pos + length a)%nat as Hla
    by (rewrite length_app, length_take; lia).
  rewrite take_app_length' by done. rewrite drop_app_ge by lia. rewrite Hla, drop_drop.
  rewrite <- !app_assoc. do 3 f_equal. f_equal. lia.
Qed.
Lemma overwrite_nil bytes pos : overwrite bytes [] pos = bytes.
Proof. unfold overwrite. simpl. by rewrite Nat.add_0_r, take_drop. Qed.

(** Writing part of one data sector. *)
Lemma write_entry_ok st d secs i s src ofs :
  block_inv st → layout (block_at st) d secs → separate (block_at st) d secs →
  secs !! i = Some s → 0 <= ofs → ofs + Z.of_nat (length src) <= 512 →
  ∃ st', bc_write st s src ofs = Ok st' ∧ block_inv st' ∧
    layout (block_at st') d secs ∧ separate (block_at st') d secs ∧
    (∀ k, (k <= length secs / 123)%nat → node (block_at st') d k = node (block_at st) d k) ∧
    (∀ k, k ∉ secs → block_at st' k = block_at st k) ∧
    file_data (block_at st') secs =
      overwrite (file_data (block_at st) secs) src (512 * i + Z.to_nat ofs).
Proof.
  intros Hi Hl [Hnd Hsep] Hs Ho Hlen.
  destruct (lay_entry _ _ _ Hl i s Hs) as (nd0 & bs & Hn0 & Hd & Hr & Hb & Hbl).
  destruct (bc_write_ok st s bs src ofs Hi Hb) as (st' & E & Hi' & Hw & Hother);
    [apply in_sector_spec; lia|].
  assert (s ∈ secs) as Hin by (by eapply list_elem_of_lookup_2).
  assert (∀ k, (k <= length secs / 123)%nat → node (block_at st') d k = node (block_at st) d k) as Hnode.
  { intros k Hk. apply node_ext. intros j nd Hj Hn. apply Hother. intros E'.
    apply (Hsep j nd); [lia|done|]. by rewrite E'. }
  assert (length (patch_bytes bs src ofs) = 512%nat) as Hpl by (by apply patch_bytes_length).
  assert (layout (block_at st') d secs) as Hl'.
  { split.
    - intros j s' Hs'. destruct (lay_entry _ _ _ Hl j s' Hs') as (nd1 & bs1 & Hn1 & Hd1 & Hr1 & Hb1 & Hbl1).
      assert (j / 123 <= length secs / 123)%nat
        by (apply Nat.Div0.div_le_mono; apply lookup_lt_Some in Hs'; lia).
      rewrite Hnode by done. destruct (decide (s' = s)) as [->|Hne].
      + exists nd1, (patch_bytes bs src ofs). destruct Hr1. by splits.
      + exists nd1, bs1. rewrite Hother by done. destruct Hr1. by splits.
    - intros k Hk. rewrite Hnode by done. by apply Hl. }
  exists st'. splits; try done.
  - split; [done|]. intros k nd Hk. rewrite Hnode by lia. by apply Hsep.
  - intros k Hk. apply Hother. by intros ->.
  - assert (blocks (block_at st') secs = <[i := patch_bytes bs src ofs]> (blocks (block_at st) secs)) as Hbl'.
    { apply list_eq. intros j. unfold blocks. destruct (decide (j = i)) as [->|Hne].
      - rewrite list_lookup_insert_eq by (rewrite length_fmap; by eapply lookup_lt_Some).
        rewrite list_lookup_fmap, Hs. simpl. by rewrite Hw.
      - rewrite list_lookup_insert_ne by done. rewrite !list_lookup_fmap.
        destruct (secs !! j) as [s'|] eqn:Hj; [|done]. simpl. rewrite Hother; [done|].
        intros ->. apply Hne. by eapply NoDup_lookup. }
    unfold file_data. rewrite Hbl'. unfold patch_bytes, overwrite.
    apply concat_insert_patch; [by eapply blocks_full| |lia].
    unfold blocks. rewrite list_lookup_fmap, Hs. simpl. by rewrite Hb.
Qed.

Lemma write_loop_ok fuel st d secs i nd ofs buf :
  block_inv st → layout (block_at st) d secs → separate (block_at st) d secs →
  node (block_at st) d (i / 123) = Some nd → 0 <= ofs < 512 →
  512 * Z.of_nat i + ofs + Z.of_nat (length buf) <= 512 * Z.of_nat (length secs) →
  ofs + Z.of_nat (length buf) <= 512 * (Z.of_nat fuel - 1) → 0 < Z.of_nat fuel →
  ∃ st', write_loop fuel nd (Z.of_nat (i mod 123)) ofs (Z.of_nat (length buf)) buf st =
      Ok (Z.of_nat (length buf), st') ∧
    block_inv st' ∧ layout (block_at st') d secs ∧ separate (block_at st') d secs ∧
    (∀ k, k ∉ secs → block_at st' k = block_at st k) ∧
    file_data (block_at st') secs =
      overwrite (file_data (block_at st) secs) buf (512 * i + Z.to_nat ofs).
Proof.
  revert st i nd ofs buf. induction fuel as [|fuel IH];
    intros st i nd ofs buf Hi Hl Hsep Hn Ho Htot Hf Hf0; [lia|].
  cbn [write_loop]. destruct (Z.ltb_spec 0 (Z.of_nat (length buf))).
  2:{ destruct buf; [|simpl in *; lia]. exists st. rewrite overwrite_nil. by splits. }
  assert (i < length secs)%nat as Hlt by lia.
  destruct (lookup_lt_is_Some_2 secs i Hlt) as [s Hs].
  destruct (lay_entry _ _ _ Hl i s Hs) as (nd0 & bs & Hn0 & Hd & Hr & Hb & Hbl).
  rewrite Hn in Hn0. simplify_eq.
  erewrite bind_step.
  2:{ unfold zget. destruct (Z.ltb_spec (Z.of_nat (i mod 123)) 0); [lia|]. by rewrite Nat2Z.id, Hd. }
  rewrite s32_small by lia. destruct (Z.ltb_spec s 0); [lia|].
  rewrite chunk_size_min by lia. set (c := Z.min _ (512 - ofs)).
  destruct (Z.leb_spec c 0); [lia|].
  set (hd := take (Z.to_nat c) buf). set (tl := drop (Z.to_nat c) buf).
  assert (Z.of_nat (length hd) = c) as Hhd by (unfold hd; rewrite length_take; lia).
  assert (Z.of_nat (length tl) = Z.of_nat (length buf) - c) as Htl by (unfold tl; rewrite length_drop; lia).
  destruct (write_entry_ok st d secs i s hd ofs) as (st1 & E1 & Hi1 & Hl1 & Hsep1 & Hnode & Hout & Hdata1);
    [done|done|done|done|lia|lia|].
  erewrite bind_step by exact E1. cbv beta iota.
  destruct (next_entry_ok d secs st1 i nd0) as (nd' & st2 & E2 & Hn2 & Hi2 & Hs2);
    [done|done|done|rewrite Hnode; [done|apply Nat.Div0.div_le_mono; lia]|].
  unfold next_entry in E2. erewrite bind_step by exact E2. cbv beta iota.
  rewrite <- Htl.
  assert (∀ k, node (block_at st2) d k = node (block_at st1) d k) as Hnode2 by (intros; apply node_ext; auto).
  destruct (IH st2 (Datatypes.S i) nd' 0 tl) as (st3 & E3 & Hi3 & Hl3 & Hsep3 & Hout3 & Hdata3).
  - done.
  - by eapply layout_ext.
  - destruct Hsep1 as [Hnd1 Hsep1]. split; [done|]. intros k nd Hk. rewrite Hnode2. by apply Hsep1.
  - by rewrite Hnode2.
  - lia.
  - lia.
  - lia.
  - lia.
  - erewrite bind_step by exact E3. exists st3. cbv beta iota. splits; try done.
    + do 2 f_equal. lia.
    + intros k Hk. rewrite Hout3, Hs2, Hout by done. done.
    + rewrite Hdata3, (file_data_ext (block_at st1)) by auto. rewrite Hdata1.
      assert (hd ++ tl = buf) as Hbuf by apply take_drop. rewrite <- Hbuf.
      destruct (decide (length tl = 0)%nat) as [E0|].
      * destruct tl; [|done]. rewrite overwrite_nil, app_nil_r. done.
      * rewrite <- overwrite_app by (erewrite file_data_length by exact Hl; lia).
        f_equal. lia.
Qed.

(** Writing inside the allocated sectors. *)
Lemma inode_write_at_ok env calloc v i secs buf offset :
  block_inv (store v) → layout (block_at (store v)) (data i) secs →
  separate (block_at (store v)) (data i) secs →
  0 <= offset < inode_length i → inode_length i < 2147483648 →
  offset + Z.of_nat (length buf) <= 512 * Z.of_nat (length secs) →
  ∃ n v', inode_write_at env calloc i buf (Z.of_nat (length buf)) offset v = Ok (n, i, v') ∧
    block_inv (store v') ∧ fmap v' = fmap v ∧
    (∀ k, k ∉ secs → block_at (store v') k = block_at (store v) k) ∧
    (deny_write_cnt i = 0 → n = Z.of_nat (length buf) ∧ layout (block_at (store v')) (data i) secs ∧
       file_data (block_at (store v')) secs =
         overwrite (file_data (block_at (store v)) secs) buf (Z.to_nat offset)) ∧
    (deny_write_cnt i ≠ 0 → n = 0 ∧ ∀ k, block_at (store v') k = block_at (store v) k).
Proof.
  intros Hi Hl Hsep Ho Hlm Htot. unfold inode_write_at, inode_length in *.
  destruct (Z.leb_spec (d_length (data i)) offset); [lia|]. cbn [andb mbind outcome_bind].
  pose proof (Z.div_mod offset 512 ltac:(lia)) as Hdm. pose proof (Z.mod_pos_bound offset 512 ltac:(lia)) as Hm.
  set (k := Z.to_nat (offset / 512)).
  assert (0 <= offset / 512) by (apply Z.div_pos; lia).
  assert (k <= length secs)%nat as Hk by lia.
  assert (Z.to_nat (offset / (DISK_SECTOR_SIZE * DIRECT_NO)) = k / 123)%nat as Hkd.
  { unfold DISK_SECTOR_SIZE, DIRECT_NO, k. rewrite <- Z.div_div, Z2Nat.inj_div by lia. done. }
  assert (offset / DISK_SECTOR_SIZE mod DIRECT_NO = Z.of_nat (k mod 123)) as Hkm.
  { unfold DISK_SECTOR_SIZE, DIRECT_NO, k. rewrite Nat2Z.inj_mod, Z2Nat.id by lia. done. }
  destruct (lay_node _ _ _ Hl (k / 123)) as (nd & Hnd & _); [by apply Nat.Div0.div_le_mono|].
  destruct (follow_ok (k / 123) (data i) nd (store v) Hi Hnd) as (st1 & E1 & Hi1 & Hs1).
  rewrite Hkd. erewrite bind_step by exact E1. cbv beta iota. rewrite Hkm.
  destruct (Z.eqb_spec (deny_write_cnt i) 0) as [Hden|Hden]; cbn [negb].
  - pose proof (Z.div_mod (Z.of_nat (length buf)) 512 ltac:(lia)).
    pose proof (Z.mod_pos_bound (Z.of_nat (length buf)) 512 ltac:(lia)).
    destruct (write_loop_ok (io_fuel (Z.of_nat (length buf))) st1 (data i) secs k nd (offset mod 512) buf)
      as (st2 & E2 & Hi2 & Hl2 & _ & Hout & Hdata).
    + done.
    + by eapply layout_ext.
    + destruct Hsep as [Hn1 Hsep]. split; [done|]. intros j nd' Hj. rewrite (node_ext (block_at (store v))) by auto.
      by apply Hsep.
    + rewrite <- Hnd. apply node_ext. auto.
    + lia.
    + lia.
    + unfold io_fuel, DISK_SECTOR_SIZE. lia.
    + unfold io_fuel, DISK_SECTOR_SIZE. lia.
    + erewrite bind_step by exact E2. eexists _, _. split; [reflexivity|]. cbn [store fmap].
      splits; try done.
      * intros j Hj. by rewrite Hout, Hs1.
      * intros _. splits; try done. rewrite Hdata, (file_data_ext (block_at (store v))) by auto.
        f_equal. lia.
  - eexists _, _. split; [reflexivity|]. cbn [store fmap]. by splits.
Qed.

(** C2: the bytes of a file.  At an offset inside the file, reading returns
    exactly the bytes of the file from there on, as many as were asked for and
    exist, through any number of inodes in the chain, and changes no sector;
    writing at such an offset a buffer that fits in the sectors that the file
    has replaces exactly the covered bytes and touches no sector outside the
    file and no bit of the free map, or, with writing denied, changes nothing
    and returns zero.  (Writes that start at or after the end, which extend
    the file first, are outside this theorem.) *)
Theorem inode_data_correct env calloc v i secs size offset buf
  (Hi : block_inv (store v)) (Hl : layout (block_at (store v)) (data i) secs)
  (Hsep : separate (block_at (store v)) (data i) secs)
  (Hlen : inode_length i <= 512 * Z.of_nat (length secs)) (Hlm : inode_length i < 2147483648)
  (Hsz : 0 <= size < 2147483648) (Ho : 0 <= offset < inode_length i)
  (Hb : offset + Z.of_nat (length buf) <= 512 * Z.of_nat (length secs)) :
  (∃ bs st', inode_read_at i size offset (store v) = Ok (bs, st') ∧ same_blocks (store v) st' ∧
     bs = take (Z.to_nat (Z.min size (inode_length i - offset)))
            (drop (Z.to_nat offset) (file_data (block_at (store v)) secs))) ∧
  (∃ n v', inode_write_at env calloc i buf (Z.of_nat (length buf)) offset v = Ok (n, i, v') ∧
     block_inv (store v') ∧ fmap v' = fmap v ∧
     (∀ k, k ∉ secs → block_at (store v') k = block_at (store v) k) ∧
     (deny_write_cnt i = 0 → n = Z.of_nat (length buf) ∧ layout (block_at (store v')) (data i) secs ∧
        file_data (block_at (store v')) secs =
          overwrite (file_data (block_at (store v)) secs) buf (Z.to_nat offset)) ∧
     (deny_write_cnt i ≠ 0 → n = 0 ∧ ∀ k, block_at (store v') k = block_at (store v) k)).
Proof.
  split; [apply inode_read_at_ok; try done; lia|]. by apply inode_write_at_ok.
Qed.
End Data.

(** * A concrete file *)

Definition sample_node : inode_disk :=
  mkDisk 4 0 700 ([5; 6] ++ replicate 121 0) 0 INODE_MAGIC.
Definition sample_inode : inode := mkInode 4 1 false 0 sample_node.
Definition sample_store : Cache.state ramdisk := buffer_cache_init (static_state sample_ramdisk).

Lemma sample_layout : layout (block_at sample_store) sample_node [5; 6].
Proof.
  split.
  - intros [|[|i]] s Hs; [| |by destruct i]; injection Hs as <-;
      exists sample_node, (replicate 512 7); splits; try done; try lia; by vm_compute.
  - intros k Hk. assert (k = 0%nat) as -> by (vm_compute in Hk; lia). by exists sample_node.
Qed.
Lemma sample_separate : separate (block_at sample_store) sample_node [5; 6].
Proof.
  split; [apply (bool_decide_eq_true (NoDup [5; 6])); by vm_compute|].
  intros k nd Hk. vm_compute in Hk. lia.
Qed.

Lemma inode_data_correct_witness :
  (∃ bs st', inode_read_at sample_inode 100 650 sample_store = Ok (bs, st') ∧ bs = replicate 50 7) ∧
  ∃ v', inode_write_at sample_env true sample_inode (replicate 20 9) 20 650
          (mkDev sample_store sample_map) = Ok (20, sample_inode, v') ∧
    file_data (block_at (store v')) [5; 6] = overwrite (replicate 1024 7) (replicate 20 9) 650.
Proof.
  destruct (inode_data_correct sample_env true (mkDev sample_store sample_map) sample_inode [5; 6] 100 650
              (replicate 20 9)) as [(bs & st' & E & _ & Hbs) (n & v' & E' & _ & _ & _ & Hw & _)].
  - apply buffer_cache_init_inv.
  - apply sample_layout.
  - apply sample_separate.
  - by vm_compute.
  - by vm_compute.
  - lia.
  - by vm_compute.
  - by vm_compute.
  - split.
    + exists bs, st'. split; [exact E|]. rewrite Hbs. by vm_compute.
    + destruct Hw as (-> & _ & Hd); [done|]. exists v'. split; [exact E'|]. rewrite Hd. f_equal.
Defined.

(** A denied write at the end of a file writes nothing and returns zero, but
    the file has become longer: the extension comes before the test. *)
Definition denied_inode : inode := mkInode 4 2 false 1 sample_node.
Definition denied_store : Cache.state ramdisk := buffer_cache_init (static_state (<[4%nat := encode sample_node]> sample_ramdisk)).
Lemma denied_write_extends :
  match inode_write_at sample_env true denied_inode (replicate 10 9) 10 700 (mkDev denied_store sample_map) with
  | Ok (n, i', _) => (n, inode_length denied_inode, inode_length i') = (0, 700, 710)
  | Err _ => False
  end.
Proof. vm_compute. reflexivity. Qed.
