(* ===== verification/InodeTable.v ===== *)
(** The table of open inodes (filesys/inode.c): opening, reopening, closing and
    removing inodes, and the deny-write counts.  An in-memory inode is a shared
    object, identified by its address in the heap [inodes]; [open_inodes] is
    the sequence of the kernel list of the same name. *)
From S2P Require Import Prelude Cache Block Bitmap FreeMap Inode.

Section Table.
Context {S : Type} `{Block S} (env : environment).

Record table := mkTable { device : dev S; inodes : gmap Z inode; open_inodes : list Z }.

Definition get_inode (t : table) (p : Z) : outcome inode := of_option (inodes t !! p).
Definition put_inode (t : table) (p : Z) (i : inode) : table :=
  mkTable (device t) (<[p := i]> (inodes t)) (open_inodes t).
Definition with_device (t : table) (v : dev S) : table := mkTable v (inodes t) (open_inodes t).

Definition with_open_cnt (i : inode) (n : Z) : inode :=
  mkInode (sector i) n (removed i) (deny_write_cnt i) (data i).
Definition with_deny (i : inode) (n : Z) : inode :=
  mkInode (sector i) (open_cnt i) (removed i) n (data i).

(** [inode_init]: the caches' initialisation is [buffer_cache_init]. *)
Definition inode_init (v : dev S) : table := mkTable v ∅ [].

Definition inode_reopen (p : option Z) (t : table) : outcome (option Z * table) :=
  match p with
  | None => Ok (None, t)
  | Some p => i ← get_inode t p; Ok (Some p, put_inode t p (with_open_cnt i (open_cnt i + 1)))
  end.

(** The loop over [open_inodes]: the first inode with the sector. *)
Fixpoint find_open (t : table) (l : list Z) (sec : Z) : outcome (option Z) :=
  match l with
  | [] => Ok None
  | p :: l => i ← get_inode t p; if sector i =? sec then Ok (Some p) else find_open t l sec
  end.

(** [alloc]: the block [malloc] returns. *)
Definition inode_open (alloc : option Z) (sec : Z) (t : table) : outcome (option Z * table) :=
  found ← find_open t (open_inodes t) sec;
  match found with
  | Some p => inode_reopen (Some p) t
  | None =>
      match alloc with
      | None => Ok (None, t)
      | Some p =>
          '(d, st) ← read_disk (store (device t)) sec;
          Ok (Some p, mkTable (mkDev st (fmap (device t)))
                        (<[p := mkInode sec 1 false 0 d]> (inodes t)) (p :: open_inodes t))
      end
  end.

Definition inode_close (p : option Z) (t : table) : outcome table :=
  match p with
  | None => Ok t
  | Some p =>
      i ← get_inode t p;
      let i := with_open_cnt i (open_cnt i - 1) in
      if open_cnt i =? 0 then
        let sector_no := bytes_to_sectors (d_length (data i)) in
        v ← (if removed i then
               v ← release_inode_disk env (chain_fuel sector_no) sector_no (sector i) (device t);
               release1 env v (sector i)
             else Ok (device t));
        Ok (mkTable v (delete p (inodes t)) (filter (λ q, q ≠ p) (open_inodes t)))
      else Ok (put_inode t p i)
  end.

Definition inode_remove (p : Z) (t : table) : outcome table :=
  i ← get_inode t p;
  Ok (put_inode t p (mkInode (sector i) (open_cnt i) true (deny_write_cnt i) (data i))).

Definition inode_deny_write (p : Z) (t : table) : outcome table :=
  i ← get_inode t p;
  let i := with_deny i (deny_write_cnt i + 1) in
  assert (deny_write_cnt i <=? open_cnt i) (Ok (put_inode t p i)).

Definition inode_allow_write (p : Z) (t : table) : outcome table :=
  i ← get_inode t p;
  assert (0 <? deny_write_cnt i) (
  assert (deny_write_cnt i <=? open_cnt i) (
  Ok (put_inode t p (with_deny i (deny_write_cnt i - 1))))).

(** Reading and writing through the table. *)
Definition table_read_at (p : Z) (size offset : Z) (t : table) : outcome (list Z * table) :=
  i ← get_inode t p;
  '(bs, st) ← inode_read_at i size offset (store (device t));
  Ok (bs, with_device t (mkDev st (fmap (device t)))).
Definition table_write_at (calloc : bool) (p : Z) (buffer : list Z) (size offset : Z) (t : table)
  : outcome (Z * table) :=
  i ← get_inode t p;
  '(n, i, v) ← inode_write_at env calloc i buffer size offset (device t);
  Ok (n, put_inode (with_device t v) p i).

(** * The invariant of the table *)

(** Open inodes exist, are open at least once and not denied more often than
    open, and there is one per sector; nothing else is in the heap. *)
Record table_inv (t : table) : Prop := {
  ti_nodup : NoDup (open_inodes t);
  ti_heap p : p ∈ open_inodes t ↔ is_Some (inodes t !! p);
  ti_counts p i : inodes t !! p = Some i → 1 <= open_cnt i ∧ 0 <= deny_write_cnt i <= open_cnt i;
  ti_sector p q i j : inodes t !! p = Some i → inodes t !! q = Some j → sector i = sector j → p = q
}.

Lemma find_open_spec t l sec :
  table_inv t → (∀ p, p ∈ l → p ∈ open_inodes t) →
  ∃ r, find_open t l sec = Ok r ∧
    match r with
    | Some p => p ∈ l ∧ ∃ i, inodes t !! p = Some i ∧ sector i = sec
    | None => ∀ p i, p ∈ l → inodes t !! p = Some i → sector i ≠ sec
    end.
Proof.
  intros Hi. induction l as [|p l IH]; intros Hsub; cbn [find_open].
  { exists None. split; [done|]. intros p i Hp. by apply elem_of_nil in Hp. }
  destruct (proj1 (ti_heap _ Hi p)) as [i Hp]; [apply Hsub; by left|].
  erewrite bind_step by (unfold get_inode; by rewrite Hp).
  destruct (Z.eqb_spec (sector i) sec) as [E|Hne].
  - exists (Some p). split; [done|]. split; [by left|]. eauto.
  - destruct IH as (r & Er & Hr); [intros; apply Hsub; by right|]. exists r. split; [done|].
    destruct r as [q|].
    + destruct Hr as [Hq Hi']. split; [by right|done].
    + intros q j [->|Hq]%elem_of_cons Hj; [congruence|]. by eapply Hr.
Qed.

(** Changing the counts of an open inode. *)
Lemma table_put_inv t p i i' :
  table_inv t → inodes t !! p = Some i → sector i' = sector i →
  1 <= open_cnt i' ∧ 0 <= deny_write_cnt i' <= open_cnt i' → table_inv (put_inode t p i').
Proof.
  intros Hi Hp Hs Hc. split; cbn [put_inode inodes open_inodes].
  - apply Hi.
  - intros q. rewrite (ti_heap _ Hi q), lookup_insert_is_Some'. split; [by right|].
    intros [<-|?]; [by eexists|done].
  - intros q j. destruct (decide (p = q)) as [<-|].
    + rewrite lookup_insert_eq. by intros [= <-].
    + rewrite lookup_insert_ne by done. apply Hi.
  - intros q r j k. destruct (decide (p = q)) as [<-|], (decide (p = r)) as [<-|];
      rewrite ?lookup_insert_eq, ?lookup_insert_ne by done; try done.
    + intros [= <-] Hr E. eapply (ti_sector _ Hi); [exact Hp|exact Hr|congruence].
    + intros Hq [= <-] E. eapply (ti_sector _ Hi); [exact Hq|exact Hp|congruence].
    + apply Hi.
Qed.

(** Removing one. *)
Lemma delete_inv t p v :
  table_inv t → table_inv (mkTable v (delete p (inodes t)) (filter (λ q, q ≠ p) (open_inodes t))).
Proof.
  intros Hi. split; cbn [inodes open_inodes].
  - apply NoDup_filter, Hi.
  - intros q. rewrite list_elem_of_filter, (ti_heap _ Hi q), lookup_delete_is_Some. naive_solver.
  - intros q i [_ Hq]%lookup_delete_Some. by eapply Hi.
  - intros q r j k [_ Hq]%lookup_delete_Some [_ Hr]%lookup_delete_Some. by eapply Hi.
Qed.

Lemma get_inode_Ok t p i : inodes t !! p = Some i → get_inode t p = Ok i.
Proof. unfold get_inode. by intros ->. Qed.

Lemma reopen_ok t p i :
  table_inv t → inodes t !! p = Some i →
  inode_reopen (Some p) t = Ok (Some p, put_inode t p (with_open_cnt i (open_cnt i + 1))) ∧
  table_inv (put_inode t p (with_open_cnt i (open_cnt i + 1))).
Proof.
  intros Hi Hp. split.
  - unfold inode_reopen. by erewrite bind_step by (by apply get_inode_Ok).
  - eapply table_put_inv; try done. simpl. destruct (ti_counts _ Hi p i Hp). lia.
Qed.

(** Closing one of several openers. *)
Lemma close_shared t p i :
  inodes t !! p = Some i → open_cnt i ≠ 1 →
  inode_close (Some p) t = Ok (put_inode t p (with_open_cnt i (open_cnt i - 1))).
Proof.
  intros Hp Hn. unfold inode_close. erewrite bind_step by (by apply get_inode_Ok).
  cbn [open_cnt with_open_cnt]. destruct (Z.eqb_spec (open_cnt i - 1) 0); [lia|done].
Qed.

(** Closing by the last opener of an inode that is not removed. *)
Lemma close_last t p i :
  inodes t !! p = Some i → open_cnt i = 1 → removed i = false →
  inode_close (Some p) t =
    Ok (mkTable (device t) (delete p (inodes t)) (filter (λ q, q ≠ p) (open_inodes t))).
Proof.
  intros Hp Hn Hr. unfold inode_close. erewrite bind_step by (by apply get_inode_Ok).
  cbn [open_cnt with_open_cnt removed]. rewrite Hn, Hr. done.
Qed.

Lemma filter_not_in (p : Z) (l : list Z) : p ∉ l → filter (λ q, q ≠ p) l = l.
Proof.
  intros Hp. induction l as [|x l IH]; [done|]. apply not_elem_of_cons in Hp as [Hx Hp].
  rewrite filter_cons_True by congruence. by rewrite IH.
Qed.

Lemma inode_open_ok `{!BlockLaws S} alloc sec bs t :
  table_inv t → block_inv (store (device t)) → block_at (store (device t)) sec = Some bs →
  (∀ p, alloc = Some p → inodes t !! p = None) →
  ∃ r t', inode_open alloc sec t = Ok (r, t') ∧ table_inv t' ∧
    match r with
    | None => alloc = None ∧ t' = t
    | Some p =>
        (∃ i, inodes t !! p = Some i ∧ sector i = sec ∧
              t' = put_inode t p (with_open_cnt i (open_cnt i + 1))) ∨
        (inodes t !! p = None ∧ (∀ q i, inodes t !! q = Some i → sector i ≠ sec) ∧
         inodes t' = <[p := mkInode sec 1 false 0 (decode bs)]> (inodes t) ∧
         open_inodes t' = p :: open_inodes t ∧
         ∀ k, block_at (store (device t')) k = block_at (store (device t)) k)
    end.
Proof.
  intros Hi Hb Hbs Hfresh. unfold inode_open.
  destruct (find_open_spec t (open_inodes t) sec Hi) as (r & Er & Hr); [done|].
  erewrite bind_step by exact Er. destruct r as [p|].
  - destruct Hr as (Hp & i & Hpi & Hs). destruct (reopen_ok t p i Hi Hpi) as [E Hi'].
    eexists _, _. split; [exact E|]. split; [done|]. left. eauto.
  - destruct alloc as [p|]; [|by exists None, t].
    specialize (Hfresh p eq_refl).
    destruct (bc_read_ok (store (device t)) sec bs DISK_SECTOR_SIZE 0 Hb Hbs) as (st' & E & Hi' & Hsame);
      [done|].
    assert (sub_bytes bs DISK_SECTOR_SIZE 0 = bs) as Hsub.
    { unfold sub_bytes, DISK_SECTOR_SIZE. simpl Z.to_nat. rewrite drop_0. apply take_ge.
      rewrite (block_at_length _ _ _ Hb Hbs). lia. }
    erewrite bind_step by (unfold read_disk; erewrite bind_step by exact E; reflexivity).
    rewrite Hsub. eexists _, _. split; [reflexivity|].
    assert (∀ q i, inodes t !! q = Some i → sector i ≠ sec) as Hnone.
    { intros q i Hq. eapply Hr; [|exact Hq]. apply (ti_heap _ Hi). eauto. }
    split; [|right; by splits].
    split; cbn [inodes open_inodes].
    + constructor; [|apply Hi]. rewrite (ti_heap _ Hi p), Hfresh. by intros [? ?].
    + intros q. rewrite elem_of_cons, (ti_heap _ Hi q), lookup_insert_is_Some'. naive_solver.
    + intros q i. destruct (decide (p = q)) as [<-|].
      * rewrite lookup_insert_eq. intros [= <-]. simpl. lia.
      * rewrite lookup_insert_ne by done. apply Hi.
    + intros q q' j k. destruct (decide (p = q)) as [<-|], (decide (p = q')) as [<-|];
        rewrite ?lookup_insert_eq, ?lookup_insert_ne by done; try done.
      * intros [= <-] Hq' E'. simpl in E'. by destruct (Hnone q' k Hq').
      * intros Hq [= <-] E'. simpl in E'. by destruct (Hnone q j Hq).
      * apply Hi.
Qed.

(** C27: One in-memory inode per sector.  Opening a sector returns the inode
    already open for it, with one more opener, or (given memory) a new inode
    read from the disk with one opener; no two open inodes ever share a
    sector, and closing the inode just opened brings the table back to what
    it was before. *)
Theorem inode_open_close `{!BlockLaws S} alloc sec bs t :
  table_inv t → block_inv (store (device t)) → block_at (store (device t)) sec = Some bs →
  (∀ p, alloc = Some p → inodes t !! p = None) →
  ∃ r t', inode_open alloc sec t = Ok (r, t') ∧ table_inv t' ∧
    (r = None → alloc = None ∧ t' = t) ∧
    (∀ p, r = Some p →
       (∃ i, inodes t' !! p = Some i ∧ sector i = sec ∧
          (∀ q j, inodes t !! q = Some j → sector j = sec → q = p ∧ open_cnt i = open_cnt j + 1) ∧
          ((∀ q j, inodes t !! q = Some j → sector j ≠ sec) →
             open_cnt i = 1 ∧ deny_write_cnt i = 0 ∧ data i = decode bs)) ∧
       ∃ t'', inode_close (Some p) t' = Ok t'' ∧ inodes t'' = inodes t ∧
         open_inodes t'' = open_inodes t).
Proof.
  intros Hi Hb Hbs Hfresh.
  destruct (inode_open_ok alloc sec bs t Hi Hb Hbs Hfresh) as (r & t' & E & Hi' & Hr).
  exists r, t'. splits; try done; [by intros ->|]. intros p ->.
  destruct Hr as [(i & Hp & Hs & ->)|(Hp & Hnone & Hin & Hop & _)].
  - destruct (ti_counts _ Hi p i Hp) as [Hc _]. split.
    + exists (with_open_cnt i (open_cnt i + 1)). cbn [put_inode inodes]. rewrite lookup_insert_eq.
      splits; try done.
      * intros q j Hq Hj. assert (q = p) as -> by (eapply (ti_sector _ Hi); [exact Hq|exact Hp|congruence]).
        simplify_eq. done.
      * intros Hno. by destruct (Hno p i Hp).
    + eexists. split; [eapply close_shared; [apply lookup_insert_eq|simpl; lia]|].
      split; [|done]. cbn [put_inode inodes].
      rewrite insert_insert_eq, insert_id; [done|]. rewrite Hp. destruct i as [se oc re dc da].
      unfold with_open_cnt; cbn. by replace (oc + 1 - 1) with oc by lia.
  - split.
    + eexists. rewrite Hin, lookup_insert_eq. split; [done|]. splits; try done.
      intros q j Hq Hj. by destruct (Hnone q j Hq).
    + eexists. split; [eapply close_last; [rewrite Hin; apply lookup_insert_eq|done|done]|].
      cbn [inodes open_inodes]. rewrite Hin, Hop. split.
      * by rewrite delete_insert_eq, delete_id.
      * rewrite filter_cons_False by tauto. apply filter_not_in.
        rewrite (ti_heap _ Hi p), Hp. by intros [? ?].
Qed.
End Table.

(** * A concrete table *)

Definition empty_table : table (S := Cache.state ramdisk) :=
  inode_init (mkDev (buffer_cache_init (static_state sample_ramdisk)) sample_map).

Lemma empty_table_inv : table_inv empty_table.
Proof.
  split; cbn.
  - constructor.
  - intros p. rewrite elem_of_nil, lookup_empty. split; [done|]. by intros [? ?].
  - intros p i. by rewrite lookup_empty.
  - intros p q i j. by rewrite lookup_empty.
Qed.

Lemma inode_open_close_witness :
  ∃ t', inode_open (Some 4096) 9 empty_table = Ok (Some 4096, t') ∧
    ∃ t'', inode_close sample_env (Some 4096) t' = Ok t'' ∧ inodes t'' = ∅.
Proof.
  destruct (inode_open_close sample_env (Some 4096) 9 (replicate 512 7) empty_table)
    as (r & t' & E & _ & Hnone & Hsome).
  - apply empty_table_inv.
  - apply buffer_cache_init_inv.
  - by vm_compute.
  - intros p _. apply lookup_empty.
  - destruct r as [p|]; [|by destruct (Hnone eq_refl)].
    assert (p = 4096) as -> by (vm_compute in E; congruence).
    exists t'. split; [exact E|]. destruct (Hsome 4096 eq_refl) as [_ (t'' & Ec & Hi & _)].
    exists t''. split; [exact Ec|exact Hi].
Defined.
