(* ===== verification/File.v ===== *)
(** Open files (filesys/file.c): a position and a deny-write flag over an open
    inode.  The theorems show that the counts kept in the inodes are exactly
    the numbers of open files referring to them, so the assertions on them
    cannot fail. *)
From S2P Require Import Prelude Cache Block Bitmap FreeMap Inode InodeTable.

(** [struct file], with the inode's address. *)
Record file := mkFile { f_inode : Z; pos : Z; deny_write : bool }.

Section File.
Context {S : Type} `{Block S} (env : environment).

(** The open inodes and the heap of open files. *)
Record fsys := mkFsys { tab : table (S := S); files : gmap Z file }.

Definition get_file (st : fsys) (f : Z) : outcome file := of_option (files st !! f).
Definition put_file (st : fsys) (a : Z) (f : file) : fsys := mkFsys (tab st) (<[a := f]> (files st)).
Definition with_tab (st : fsys) (t : table) : fsys := mkFsys t (files st).

(** [calloc]: the block returned for the new file. *)
Definition file_open (calloc : option Z) (inode : option Z) (st : fsys) : outcome (option Z * fsys) :=
  match inode, calloc with
  | Some p, Some a => Ok (Some a, put_file st a (mkFile p 0 false))
  | _, _ => t ← inode_close env inode (tab st); Ok (None, with_tab st t)
  end.

Definition file_reopen (calloc : option Z) (f : Z) (st : fsys) : outcome (option Z * fsys) :=
  fl ← get_file st f;
  '(p, t) ← inode_reopen (Some (f_inode fl)) (tab st);
  file_open calloc p (with_tab st t).

Definition file_deny_write (f : Z) (st : fsys) : outcome fsys :=
  fl ← get_file st f;
  if negb (deny_write fl) then
    t ← inode_deny_write (f_inode fl) (tab st);
    Ok (put_file (with_tab st t) f (mkFile (f_inode fl) (pos fl) true))
  else Ok st.

Definition file_allow_write (f : Z) (st : fsys) : outcome fsys :=
  fl ← get_file st f;
  if deny_write fl then
    t ← inode_allow_write (f_inode fl) (tab st);
    Ok (put_file (with_tab st t) f (mkFile (f_inode fl) (pos fl) false))
  else Ok st.

Definition file_close (f : option Z) (st : fsys) : outcome fsys :=
  match f with
  | None => Ok st
  | Some f =>
      st ← file_allow_write f st;
      fl ← get_file st f;
      t ← inode_close env (Some (f_inode fl)) (tab st);
      Ok (mkFsys t (delete f (files st)))
  end.

Definition file_get_inode (f : Z) (st : fsys) : outcome Z := fl ← get_file st f; Ok (f_inode fl).

(** The bytes read; their number is returned and added to the position. *)
Definition file_read (f size : Z) (st : fsys) : outcome (list Z * fsys) :=
  fl ← get_file st f;
  '(bs, t) ← table_read_at (f_inode fl) size (pos fl) (tab st);
  Ok (bs, put_file (with_tab st t) f
            (mkFile (f_inode fl) (s32 (pos fl + Z.of_nat (length bs))) (deny_write fl))).
Definition file_read_at (f size file_ofs : Z) (st : fsys) : outcome (list Z * fsys) :=
  fl ← get_file st f;
  '(bs, t) ← table_read_at (f_inode fl) size file_ofs (tab st);
  Ok (bs, with_tab st t).

(** A failed write returns -1, which is added to the position, too. *)
Definition file_write (calloc : bool) (f : Z) (buffer : list Z) (size : Z) (st : fsys)
  : outcome (Z * fsys) :=
  fl ← get_file st f;
  i ← get_inode (tab st) (f_inode fl);
  if inode_is_directory i then Ok (-1, st)
  else
    '(n, t) ← table_write_at env calloc (f_inode fl) buffer size (pos fl) (tab st);
    Ok (n, put_file (with_tab st t) f (mkFile (f_inode fl) (s32 (pos fl + n)) (deny_write fl))).
Definition file_write_at (calloc : bool) (f : Z) (buffer : list Z) (size file_ofs : Z) (st : fsys)
  : outcome (Z * fsys) :=
  fl ← get_file st f;
  '(n, t) ← table_write_at env calloc (f_inode fl) buffer size file_ofs (tab st);
  Ok (n, with_tab st t).

Definition file_length (f : Z) (st : fsys) : outcome Z :=
  fl ← get_file st f; i ← get_inode (tab st) (f_inode fl); Ok (inode_length i).
Definition file_seek (f new_pos : Z) (st : fsys) : outcome fsys :=
  fl ← get_file st f;
  assert (0 <=? new_pos) (Ok (put_file st f (mkFile (f_inode fl) new_pos (deny_write fl)))).
Definition file_tell (f : Z) (st : fsys) : outcome Z := fl ← get_file st f; Ok (pos fl).

(** * Reference counts *)

(** The number of open files satisfying [P]. *)
Definition count (fs : gmap Z file) (P : file → bool) : Z :=
  Z.of_nat (size (filter (λ kv, P kv.2 = true) fs)).

Lemma count_insert fs a f P :
  fs !! a = None → count (<[a := f]> fs) P = (if P f then 1 else 0) + count fs P.
Proof.
  intros Ha. unfold count. destruct (P f) eqn:E.
  - rewrite map_filter_insert_True by done. rewrite map_size_insert_None; [lia|].
    apply map_lookup_filter_None. by left.
  - rewrite map_filter_insert_False by (simpl; congruence). by rewrite delete_id.
Qed.

Lemma count_delete fs a f P :
  fs !! a = Some f → count fs P = (if P f then 1 else 0) + count (delete a fs) P.
Proof.
  intros Ha. rewrite <- (insert_delete_id fs a f Ha) at 1. apply count_insert, lookup_delete_eq.
Qed.

Lemma count_update fs a f f' P :
  fs !! a = Some f →
  count (<[a := f']> fs) P = count fs P - (if P f then 1 else 0) + (if P f' then 1 else 0).
Proof.
  intros Ha. rewrite (count_delete fs a f P Ha), <- insert_delete_eq, count_insert; [lia|].
  apply lookup_delete_eq.
Qed.

Lemma count_nonneg fs P : 0 <= count fs P.
Proof. unfold count. lia. Qed.

Lemma count_mono fs (P Q : file → bool) :
  (∀ f, P f = true → Q f = true) → count fs P <= count fs Q.
Proof.
  intros HPQ. induction fs as [|a f fs Ha IH] using map_ind.
  { unfold count. rewrite !map_filter_empty. lia. }
  rewrite !count_insert by done. pose proof (HPQ f) as H0. destruct (P f), (Q f); lia.
Qed.

Definition refers (p : Z) (f : file) : bool := f_inode f =? p.
Definition denies (p : Z) (f : file) : bool := (f_inode f =? p) && deny_write f.

(** Every open file refers to an open inode; an inode's open count is the
    number of files on it and of [others] (directories, and inodes being
    opened), its deny count the number of files denying writes to it. *)
Record file_inv (others : Z → Z) (st : fsys) : Prop := {
  fi_table : table_inv (tab st);
  fi_file a f : files st !! a = Some f → is_Some (inodes (tab st) !! f_inode f);
  fi_open p i : inodes (tab st) !! p = Some i → open_cnt i = count (files st) (refers p) + others p;
  fi_deny p i : inodes (tab st) !! p = Some i → deny_write_cnt i = count (files st) (denies p);
  fi_others p : 0 <= others p
}.

Lemma get_file_Ok st a f : files st !! a = Some f → get_file st a = Ok f.
Proof. unfold get_file. by intros ->. Qed.

(** Replacing an open inode and a file's flag together. *)
Lemma put_both_inv others st a f p i i' f' :
  file_inv others st → files st !! a = Some f → f_inode f = p → f_inode f' = p →
  inodes (tab st) !! p = Some i → sector i' = sector i → open_cnt i' = open_cnt i →
  deny_write_cnt i' = deny_write_cnt i - (if deny_write f then 1 else 0) + (if deny_write f' then 1 else 0) →
  file_inv others (put_file (with_tab st (put_inode (tab st) p i')) a f').
Proof.
  intros [Ht Hf Ho Hd Hoth] Ha Hfp Hfp' Hp Hs Hoc Hdc.
  assert (∀ q, count (<[a := f']> (files st)) (refers q) = count (files st) (refers q)) as Hcr.
  { intros q. rewrite (count_update _ a f) by done. unfold refers. rewrite Hfp, Hfp'. lia. }
  assert (∀ q, count (<[a := f']> (files st)) (denies q) =
     count (files st) (denies q) - (if (p =? q) && deny_write f then 1 else 0)
       + (if (p =? q) && deny_write f' then 1 else 0)) as Hcd.
  { intros q. rewrite (count_update _ a f) by done. unfold denies. by rewrite Hfp, Hfp'. }
  assert (deny_write_cnt i' = count (<[a := f']> (files st)) (denies p)) as Hd'.
  { rewrite Hdc, Hcd, (Hd p i Hp), Z.eqb_refl. done. }
  split; cbn [put_file with_tab tab files put_inode inodes].
  - eapply table_put_inv; try done. split; [rewrite Hoc; by apply (ti_counts _ Ht p i)|].
    rewrite Hd', Hoc, (Ho p i Hp), <- Hcr. split; [apply count_nonneg|].
    pose proof (count_mono (<[a := f']> (files st)) (denies p) (refers p)) as Hm.
    specialize (Hoth p). assert (∀ g, denies p g = true → refers p g = true) as Himp
      by (intros g; unfold denies, refers; by intros [? _]%andb_true_iff).
    specialize (Hm Himp). lia.
  - intros b g Hb. apply lookup_insert_is_Some'. destruct (decide (a = b)) as [<-|].
    + rewrite lookup_insert_eq in Hb. simplify_eq. by left.
    + rewrite lookup_insert_ne in Hb by done. right. by eapply Hf.
  - intros q j. rewrite Hcr. destruct (decide (p = q)) as [<-|].
    + rewrite lookup_insert_eq. intros [= <-]. rewrite Hoc. by apply Ho.
    + rewrite lookup_insert_ne by done. apply Ho.
  - intros q j. destruct (decide (p = q)) as [<-|].
    + rewrite lookup_insert_eq. by intros [= <-].
    + rewrite lookup_insert_ne by done. rewrite Hcd. destruct (Z.eqb_spec p q); [done|].
      simpl. intros Hj. rewrite (Hd q j Hj). lia.
  - done.
Qed.

Lemma file_deny_ok others st a f :
  file_inv others st → files st !! a = Some f →
  ∃ st', file_deny_write a st = Ok st' ∧ file_inv others st' ∧
    files st' = <[a := mkFile (f_inode f) (pos f) true]> (files st).
Proof.
  intros Hi Ha. unfold file_deny_write. erewrite bind_step by (by apply get_file_Ok).
  destruct (deny_write f) eqn:Ed; cbn [negb].
  { exists st. splits; try done. rewrite insert_id; [done|]. rewrite Ha. destruct f; simpl in *. by subst. }
  destruct (fi_file _ _ Hi a f Ha) as [i Hp]. unfold inode_deny_write.
  erewrite bind_step.
  2:{ erewrite bind_step by (by apply get_inode_Ok). rewrite assert_true; [reflexivity|].
      cbn [deny_write_cnt open_cnt with_deny]. apply Z.leb_le.
      rewrite (fi_deny _ _ Hi _ _ Hp), (fi_open _ _ Hi _ _ Hp).
      rewrite (count_delete _ a f (denies _) Ha), (count_delete _ a f (refers _) Ha).
      unfold denies at 1, refers at 1. rewrite Ed, Z.eqb_refl. simpl.
      pose proof (count_mono (delete a (files st)) (denies (f_inode f)) (refers (f_inode f))) as Hm.
      assert (∀ g, denies (f_inode f) g = true → refers (f_inode f) g = true) as Himp
        by (intros g; unfold denies, refers; by intros [? _]%andb_true_iff).
      specialize (Hm Himp). pose proof (fi_others _ _ Hi (f_inode f)). lia. }
  eexists. splits; [reflexivity| |done].
  eapply (put_both_inv others st a f); try done. simpl. rewrite Ed. lia.
Qed.

Lemma file_allow_ok others st a f :
  file_inv others st → files st !! a = Some f →
  ∃ st', file_allow_write a st = Ok st' ∧ file_inv others st' ∧
    files st' = <[a := mkFile (f_inode f) (pos f) false]> (files st).
Proof.
  intros Hi Ha. unfold file_allow_write. erewrite bind_step by (by apply get_file_Ok).
  destruct (deny_write f) eqn:Ed.
  2:{ exists st. splits; try done. rewrite insert_id; [done|]. rewrite Ha. destruct f; simpl in *. by subst. }
  destruct (fi_file _ _ Hi a f Ha) as [i Hp]. unfold inode_allow_write.
  pose proof (ti_counts _ (fi_table _ _ Hi) _ _ Hp) as [_ [_ Hle]].
  erewrite bind_step.
  2:{ erewrite bind_step by (by apply get_inode_Ok). rewrite assert_true.
      - rewrite assert_true; [reflexivity|]. by apply Z.leb_le.
      - apply Z.ltb_lt. rewrite (fi_deny _ _ Hi _ _ Hp), (count_delete _ a f _ Ha).
        unfold denies at 1. rewrite Ed, Z.eqb_refl. simpl.
        pose proof (count_nonneg (delete a (files st)) (denies (f_inode f))). lia. }
  eexists. splits; [reflexivity| |done].
  eapply (put_both_inv others st a f); try done. simpl. rewrite Ed. lia.
Qed.

(** References handed over: one more or one less of [others] at [p]. *)
Definition bump (others : Z → Z) (p d : Z) : Z → Z := λ q, if q =? p then others q + d else others q.

Lemma file_open_ok others st a p i :
  file_inv others st → inodes (tab st) !! p = Some i → 1 <= others p → files st !! a = None →
  ∃ st', file_open (Some a) (Some p) st = Ok (Some a, st') ∧ file_inv (bump others p (-1)) st' ∧
    files st' = <[a := mkFile p 0 false]> (files st).
Proof.
  intros [Ht Hf Ho Hd Hoth] Hp Hone Ha. eexists. split; [reflexivity|]. split; [|done].
  split; cbn [put_file tab files].
  - done.
  - intros b g. destruct (decide (a = b)) as [<-|].
    + rewrite lookup_insert_eq. intros [= <-]. simpl. eauto.
    + rewrite lookup_insert_ne by done. apply Hf.
  - intros q j Hq. rewrite count_insert by done. rewrite (Ho q j Hq). unfold refers at 2, bump. simpl.
    destruct (Z.eqb_spec p q), (Z.eqb_spec q p); lia.
  - intros q j Hq. rewrite count_insert by done. rewrite (Hd q j Hq). unfold denies at 2. simpl.
    by rewrite andb_false_r.
  - intros q. unfold bump. specialize (Hoth q). destruct (Z.eqb_spec q p); [subst; lia|lia].
Qed.

(** Closing the inode of a file that has just been taken off the heap. *)
Lemma file_close_ok others st a f st' :
  file_inv others st → files st !! a = Some f → file_close (Some a) st = Ok st' →
  file_inv others st' ∧ files st' = delete a (files st).
Proof.
  intros Hi Ha Hc. unfold file_close in Hc.
  destruct (file_allow_ok others st a f Hi Ha) as (st1 & E1 & Hi1 & Hf1). rewrite E1 in Hc.
  cbn [mbind outcome_bind] in Hc. set (f1 := mkFile (f_inode f) (pos f) false) in *.
  assert (files st1 !! a = Some f1) as Ha1 by (rewrite Hf1; apply lookup_insert_eq).
  rewrite (get_file_Ok _ _ _ Ha1) in Hc. cbn [mbind outcome_bind f1 f_inode] in Hc.
  destruct (fi_file _ _ Hi1 a f1 Ha1) as [i Hp]. cbn [f1 f_inode] in Hp.
  destruct Hi1 as [Ht Hf Ho Hd Hoth].
  assert (files st' = delete a (files st1)) as Hfs.
  { apply bind_Ok in Hc as (t & _ & [= <-]). done. }
  split; [|by rewrite Hfs, Hf1, delete_insert_eq].
  assert (∀ q, count (files st1) (refers q) = (if f_inode f =? q then 1 else 0) + count (delete a (files st1)) (refers q)) as Hcr
    by (intros q; by rewrite (count_delete _ a f1)).
  assert (∀ q, count (files st1) (denies q) = count (delete a (files st1)) (denies q)) as Hcd.
  { intros q. rewrite (count_delete _ a f1) by done. unfold denies at 1. simpl. by rewrite andb_false_r. }
  destruct (decide (open_cnt i = 1)) as [E|Hne].
  - (* last opener: no other file refers to the inode *)
    assert (others (f_inode f) = 0 ∧ count (delete a (files st1)) (refers (f_inode f)) = 0) as [_ Hz].
    { pose proof (Ho _ _ Hp) as Hoi. rewrite Hcr, Z.eqb_refl in Hoi.
      pose proof (count_nonneg (delete a (files st1)) (refers (f_inode f))). specialize (Hoth (f_inode f)). lia. }
    assert (∃ v, tab st' = mkTable v (delete (f_inode f) (inodes (tab st1)))
                   (filter (λ q, q ≠ f_inode f) (open_inodes (tab st1)))) as [v Htab].
    { apply bind_Ok in Hc as (t & Hcl & [= <-]). cbn [tab]. unfold inode_close in Hcl.
      rewrite (get_inode_Ok _ _ _ Hp) in Hcl. cbn [mbind outcome_bind open_cnt with_open_cnt] in Hcl.
      rewrite E in Hcl. simpl in Hcl. apply bind_Ok in Hcl as (v & _ & [= <-]). by exists v. }
    split; rewrite ?Htab, ?Hfs; cbn [inodes].
    + by apply delete_inv.
    + intros b g Hb. apply lookup_delete_is_Some. split.
      * intros Hbi. rewrite (count_delete _ b g) in Hz by done. unfold refers at 1 in Hz.
        rewrite Hbi, Z.eqb_refl in Hz.
        pose proof (count_nonneg (delete b (delete a (files st1))) (refers (f_inode f))). rewrite Hbi in *. lia.
      * apply lookup_delete_Some in Hb as [_ Hb]. by eapply Hf.
    + intros q j [Hq Hj]%lookup_delete_Some. rewrite (Ho q j Hj), Hcr.
      destruct (Z.eqb_spec (f_inode f) q); [done|lia].
    + intros q j [Hq Hj]%lookup_delete_Some. by rewrite (Hd q j Hj), Hcd.
    + done.
  - rewrite (close_shared env _ _ _ Hp Hne) in Hc. cbn [mbind outcome_bind] in Hc. injection Hc as <-.
    pose proof (ti_counts _ Ht _ _ Hp) as Hcnt.
    pose proof (Ho _ _ Hp) as Hoi. rewrite Hcr, Z.eqb_refl in Hoi.
    split; cbn [tab files put_inode inodes].
    + eapply table_put_inv; try done. cbn [with_open_cnt open_cnt deny_write_cnt].
      rewrite (Hd _ _ Hp), Hcd.
      pose proof (count_mono (delete a (files st1)) (denies (f_inode f)) (refers (f_inode f))) as Hm.
      assert (∀ g, denies (f_inode f) g = true → refers (f_inode f) g = true) as Himp
        by (intros g; unfold denies, refers; by intros [? _]%andb_true_iff).
      specialize (Hm Himp). specialize (Hoth (f_inode f)).
      pose proof (count_nonneg (delete a (files st1)) (denies (f_inode f))). lia.
    + intros b g [_ Hb]%lookup_delete_Some. apply lookup_insert_is_Some'. right. by eapply Hf.
    + intros q j. destruct (decide (f_inode f = q)) as [<-|].
      * rewrite lookup_insert_eq. intros [= <-]. simpl. lia.
      * rewrite lookup_insert_ne by done. intros Hj. rewrite (Ho q j Hj), Hcr.
        destruct (Z.eqb_spec (f_inode f) q); [done|lia].
    + intros q j. destruct (decide (f_inode f = q)) as [<-|].
      * rewrite lookup_insert_eq. intros [= <-]. simpl. by rewrite (Hd _ _ Hp), Hcd.
      * rewrite lookup_insert_ne by done. intros Hj. by rewrite (Hd q j Hj), Hcd.
    + done.
Qed.

Lemma allow_inode st a f st1 i1 : files st !! a = Some f → file_allow_write a st = Ok st1 →
  inodes (tab st1) !! f_inode f = Some i1 →
  ∃ i, inodes (tab st) !! f_inode f = Some i ∧ open_cnt i1 = open_cnt i ∧ removed i1 = removed i.
Proof.
  intros Ha E Hp1. unfold file_allow_write in E. rewrite (get_file_Ok _ _ _ Ha) in E. cbn [mbind outcome_bind] in E.
  destruct (deny_write f); [|injection E as <-; by exists i1].
  apply bind_Ok in E as (t & E & [= <-]). unfold inode_allow_write in E. apply bind_Ok in E as (i & Eg & E).
  unfold get_inode in Eg. destruct (inodes (tab st) !! f_inode f) as [i'|] eqn:Ei; [|done]. injection Eg as ->.
  destruct (0 <? deny_write_cnt i); [|done]. destruct (deny_write_cnt i <=? open_cnt i); [|done]. injection E as <-.
  cbn [put_file tab with_tab put_inode inodes] in Hp1. rewrite lookup_insert_eq in Hp1. injection Hp1 as <-. by exists i.
Qed.

(** Closing succeeds unless it has to give back the sectors of a removed file. *)
Lemma file_close_succeeds others st a f :
  file_inv others st → files st !! a = Some f →
  (∀ i, inodes (tab st) !! f_inode f = Some i → open_cnt i = 1 → removed i = false) →
  ∃ st', file_close (Some a) st = Ok st'.
Proof.
  intros Hi Ha Hr. unfold file_close. destruct (file_allow_ok others st a f Hi Ha) as (st1 & E1 & Hi1 & Hf1).
  erewrite bind_step by exact E1. set (f1 := mkFile (f_inode f) (pos f) false) in *.
  assert (files st1 !! a = Some f1) as Ha1 by (rewrite Hf1; apply lookup_insert_eq).
  erewrite bind_step by (by apply get_file_Ok). destruct (fi_file _ _ Hi1 a f1 Ha1) as [i1 Hp1]. cbn [f1 f_inode] in *.
  destruct (allow_inode st a f st1 i1 Ha E1 Hp1) as (i & Hp & Ho & Hrm).
  destruct (decide (open_cnt i1 = 1)) as [Eo|Hne].
  - erewrite bind_step by (eapply close_last; [exact Hp1|done|]; rewrite Hrm; apply Hr; [done|congruence]). by eexists.
  - erewrite bind_step by (by eapply close_shared). by eexists.
Qed.

(** C28: Reference counting.  Whenever the open and deny counts of the inodes
    are the numbers of open files (and other holders) referring to and denying
    writes to them: opening a file on a held inode takes over that reference;
    denying and allowing writes succeed without tripping their assertions, are
    idempotent per file, and keep the counts exact; closing a file succeeds,
    unless it is the last reference to a removed file, whose sectors have to
    be released, and whenever it returns it has given the file's denial and
    its reference back. *)
Theorem file_reference_counts others st a f :
  file_inv others st → files st !! a = Some f →
  (∃ st1, file_deny_write a st = Ok st1 ∧ file_inv others st1 ∧
     files st1 !! a = Some (mkFile (f_inode f) (pos f) true) ∧
     file_deny_write a st1 = Ok st1) ∧
  (∃ st1, file_allow_write a st = Ok st1 ∧ file_inv others st1 ∧
     files st1 !! a = Some (mkFile (f_inode f) (pos f) false) ∧
     file_allow_write a st1 = Ok st1) ∧
  (∀ b p i, inodes (tab st) !! p = Some i → 1 <= others p → files st !! b = None →
     ∃ st1, file_open (Some b) (Some p) st = Ok (Some b, st1) ∧
       file_inv (bump others p (-1)) st1) ∧
  ((∀ i, inodes (tab st) !! f_inode f = Some i → open_cnt i = 1 → removed i = false) →
     ∃ st1, file_close (Some a) st = Ok st1) ∧
  (∀ st1, file_close (Some a) st = Ok st1 →
     file_inv others st1 ∧ files st1 = delete a (files st)).
Proof.
  intros Hi Ha. splits.
  - destruct (file_deny_ok others st a f Hi Ha) as (st1 & E & Hi1 & Hf1). exists st1.
    assert (files st1 !! a = Some (mkFile (f_inode f) (pos f) true)) as Ha1 by (rewrite Hf1; apply lookup_insert_eq).
    splits; try done. unfold file_deny_write. by erewrite bind_step by (by apply get_file_Ok).
  - destruct (file_allow_ok others st a f Hi Ha) as (st1 & E & Hi1 & Hf1). exists st1.
    assert (files st1 !! a = Some (mkFile (f_inode f) (pos f) false)) as Ha1 by (rewrite Hf1; apply lookup_insert_eq).
    splits; try done. unfold file_allow_write. by erewrite bind_step by (by apply get_file_Ok).
  - intros b p i Hp Hone Hb. destruct (file_open_ok others st b p i Hi Hp Hone Hb) as (st1 & E & Hi1 & _). eauto.
  - by eapply file_close_succeeds.
  - intros st1 Hc. by eapply file_close_ok.
Qed.
End File.

(** * A concrete open file *)

Definition open_table : table (S := Cache.state ramdisk) :=
  mkTable (device empty_table) {[ 4096 := mkInode 9 1 false 0 (mkDisk 9 0 0 (replicate 123 0) 0 INODE_MAGIC) ]}
    [4096].
Definition one_file : fsys (S := Cache.state ramdisk) := mkFsys open_table {[ 64 := mkFile 4096 0 false ]}.

Lemma one_file_inv : file_inv (λ _, 0) one_file.
Proof.
  split; cbn.
  - split; cbn.
    + apply NoDup_singleton.
    + intros p. rewrite list_elem_of_singleton, lookup_singleton_is_Some. split; congruence.
    + intros p i [<- <-]%lookup_singleton_Some. simpl. lia.
    + intros p q i j [<- <-]%lookup_singleton_Some [<- <-]%lookup_singleton_Some. done.
  - intros a f [<- <-]%lookup_singleton_Some. simpl. rewrite lookup_singleton_eq. eauto.
  - intros p i [<- <-]%lookup_singleton_Some. by vm_compute.
  - intros p i [<- <-]%lookup_singleton_Some. by vm_compute.
  - done.
Qed.

Lemma file_reference_counts_witness :
  ∃ st1 st2, file_deny_write 64 one_file = Ok st1 ∧ file_deny_write 64 st1 = Ok st1 ∧
    file_close sample_env (Some 64) one_file = Ok st2 ∧ file_inv (λ _, 0) st2 ∧ files st2 !! 64 = None.
Proof.
  destruct (file_reference_counts sample_env (λ _, 0) one_file 64 (mkFile 4096 0 false) one_file_inv)
    as ((st1 & E & _ & _ & Eidem) & _ & _ & Hok & Hclose); [apply lookup_singleton_eq|].
  destruct Hok as [st2 E2]; [intros i Hi _; cbn in Hi; apply lookup_singleton_Some in Hi as [_ <-]; reflexivity|].
  destruct (Hclose st2 E2) as [Hi2 Hf2].
  exists st1, st2. split; [exact E|]. split; [exact Eidem|]. split; [exact E2|]. split; [exact Hi2|].
  rewrite Hf2. apply lookup_delete_eq.
Defined.
