(* ===== verification/Directory.v ===== *)
(** Directories (filesys/directory.c, with PRJ4): files made of fixed-size
    entries, each a name and the sector of an inode, with the operations that
    search, add, remove and list them.

    An entry is its 24 bytes, as it lies in the file.  Names are the
    characters before the terminating null.  The outcome of each memory
    allocation is an argument; a null pointer is [None]. *)
From S2P Require Import Prelude Cache Block Bitmap FreeMap Inode InodeTable.

Definition NAME_MAX : Z := 14.
Definition sizeof_dir_entry : Z := 24.

(** * Entries *)

(** [struct dir_entry]: inode_sector at 0, name at 4, in_use at 19, level at 20. *)
Abbreviation entry := (list Z).
Definition byte_of (e : entry) (k : nat) : Z := default 0 (e !! k).
Definition inode_sector (e : entry) : Z :=
  bytes_word (byte_of e 0) (byte_of e 1) (byte_of e 2) (byte_of e 3).
Definition in_use (e : entry) : bool := negb (byte_of e 19 =? 0).
(** The characters before the first null. *)
Fixpoint c_string (bs : list Z) : list Z :=
  match bs with
  | [] => []
  | c :: bs => if c =? 0 then [] else c :: c_string bs
  end.
Definition name_of (e : entry) : list Z := c_string (drop 4 e).

Definition set_byte (e : entry) (k : nat) (b : Z) : entry := <[k := b]> e.
Definition set_in_use (e : entry) (b : bool) : entry := set_byte e 19 (if b then 1 else 0).
Definition set_sector (e : entry) (s : Z) : entry := word_bytes s ++ drop 4 e.
(** [strlcpy (e.name, name, sizeof e.name)] for a name that fits. *)
Definition set_name (e : entry) (name : list Z) : entry :=
  take 4 e ++ name ++ [0] ++ drop (5 + length name) e.

(** [!strcmp (a, b)]. *)
Definition str_eq (a b : list Z) : bool := bool_decide (a = b).

(** * Operations *)

Section Directory.
Context {S : Type} `{Block S} (env : environment).

(** [struct dir]: the inode's address and the position of [dir_readdir]. *)
Record dir := mkDir { d_inode : Z; d_pos : Z }.

(** [inode_read_at (inode, &e, sizeof e, ofs)]: the number of bytes read, and
    [e] with them in place. *)
Definition read_entry (p ofs : Z) (e : entry) (t : table) : outcome (Z * entry * table) :=
  '(bs, t) ← table_read_at p sizeof_dir_entry ofs t;
  Ok (Z.of_nat (length bs), bs ++ drop (length bs) e, t).

(** Each round moves an entry further; the rounds end at the end of the file. *)
Definition scan_fuel (t : table (S := S)) (p : Z) : nat :=
  match inodes t !! p with
  | Some i => (Z.to_nat (inode_length i / sizeof_dir_entry) + 2)%nat
  | None => 1
  end.

(** [for (ofs = ...; inode_read_at (...) == sizeof e; ofs += sizeof e) if (stop (e)) break;]:
    the offset, the entry last read, and whether the loop stopped at an entry. *)
Fixpoint scan (fuel : nat) (stop : entry → bool) (p ofs : Z) (e : entry) (t : table)
  : outcome (bool * Z * entry * table) :=
  match fuel with
  | O => Err OutOfFuel
  | Datatypes.S fuel =>
      '(n, e, t) ← read_entry p ofs e t;
      if n =? sizeof_dir_entry then
        if stop e then Ok (true, ofs, e, t)
        else scan fuel stop p (s32 (ofs + sizeof_dir_entry)) e t
      else Ok (false, ofs, e, t)
  end.

(** [garbage]: the bytes of the local variable [e] before it is read. *)
Definition lookup (d : dir) (name : list Z) (garbage : entry) (t : table)
  : outcome (option (entry * Z) * table) :=
  '(found, ofs, e, t) ←
    scan (scan_fuel t (d_inode d)) (λ e, in_use e && str_eq name (name_of e)) (d_inode d) 0 garbage t;
  Ok (if (found : bool) then Some (e, ofs) else None, t).

Definition dir_lookup (alloc : option Z) (d : dir) (name : list Z) (garbage : entry) (t : table)
  : outcome (option Z * table) :=
  '(r, t) ← lookup d name garbage t;
  match r with
  | Some (e, _) => inode_open alloc (inode_sector e) t
  | None => Ok (None, t)
  end.

Definition dir_add (calloc : bool) (d : dir) (name : list Z) (sec : Z) (garbage : entry) (t : table)
  : outcome (bool * table) :=
  if (Z.of_nat (length name) =? 0) || (NAME_MAX <? Z.of_nat (length name)) then Ok (false, t)
  else
    '(r, t) ← lookup d name garbage t;
    match r with
    | Some _ => Ok (false, t)
    | None =>
        '(_, ofs, e, t) ←
          scan (scan_fuel t (d_inode d)) (λ e, negb (in_use e)) (d_inode d) 0 garbage t;
        let e := set_sector (set_name (set_in_use e true) name) sec in
        '(n, t) ← table_write_at env calloc (d_inode d) e sizeof_dir_entry ofs t;
        Ok (n =? sizeof_dir_entry, t)
    end.

Definition dir_is_empty (p : Z) (garbage : entry) (t : table) : outcome (bool * table) :=
  '(found, _, _, t) ← scan (scan_fuel t p) in_use p (2 * sizeof_dir_entry) garbage t;
  Ok (negb found, t).

(** The cleanup at [done]: [inode_close (inode)]. *)
Definition dir_remove (alloc : option Z) (calloc : bool) (current_dir : Z) (d : dir) (name : list Z)
    (garbage : entry) (t : table) : outcome (bool * table) :=
  '(r, t) ← lookup d name garbage t;
  match r with
  | None => Ok (false, t)
  | Some (e, ofs) =>
      '(p, t) ← inode_open alloc (inode_sector e) t;
      match p with
      | None => Ok (false, t)
      | Some p =>
          i ← get_inode t p;
          if inode_get_inumber i =? current_dir then
            t ← inode_close env (Some p) t; Ok (false, t)
          else
            '(busy, t) ← (if inode_is_directory i then
                            '(empty, t) ← dir_is_empty p garbage t; Ok (negb empty, t)
                          else Ok (false, t));
            if (busy : bool) then t ← inode_close env (Some p) t; Ok (false, t)
            else
              '(n, t) ← table_write_at env calloc (d_inode d) (set_in_use e false)
                          sizeof_dir_entry ofs t;
              if negb (n =? sizeof_dir_entry) then
                t ← inode_close env (Some p) t; Ok (false, t)
              else
                t ← inode_remove p t;
                t ← inode_close env (Some p) t;
                Ok (true, t)
      end
  end.

(** The name of the next entry in use, and the directory with its position
    behind that entry. *)
Definition dir_readdir (d : dir) (garbage : entry) (t : table) : outcome (option (list Z) * dir * table) :=
  '(found, ofs, e, t) ← scan (scan_fuel t (d_inode d)) in_use (d_inode d) (d_pos d) garbage t;
  if (found : bool)
  then Ok (Some (take (Z.to_nat NAME_MAX) (name_of e)), mkDir (d_inode d) (s32 (ofs + sizeof_dir_entry)), t)
  else Ok (None, mkDir (d_inode d) ofs, t).

(** [calloc]: does [calloc (1, sizeof *dir)] succeed. *)
Definition dir_open (calloc : bool) (inode : option Z) (t : table) : outcome (option dir * table) :=
  match inode with
  | Some p => if calloc then Ok (Some (mkDir p (2 * sizeof_dir_entry)), t)
              else t ← inode_close env (Some p) t; Ok (None, t)
  | None => Ok (None, t)
  end.
Definition dir_open_root (calloc : bool) (alloc : option Z) (t : table) : outcome (option dir * table) :=
  '(p, t) ← inode_open alloc ROOT_DIR_SECTOR t; dir_open calloc p t.
Definition dir_reopen (calloc : bool) (d : dir) (t : table) : outcome (option dir * table) :=
  '(p, t) ← inode_reopen (Some (d_inode d)) t; dir_open calloc p t.
Definition dir_close (d : option dir) (t : table) : outcome table :=
  match d with Some d => inode_close env (Some (d_inode d)) t | None => Ok t end.
Definition dir_get_inode (d : dir) : Z := d_inode d.

Definition dot : list Z := [46].
Definition dot_dot : list Z := [46; 46].

(** [a1], [a2]: the blocks for the inodes opened, [c1]..[c4]: the outcomes of
    the other allocations.  A null parent inode is dereferenced. *)
Definition dir_create (a1 a2 : option Z) (c1 c2 c3 c4 : bool) (sec parent entry_cnt : Z)
    (garbage : entry) (t : table) : outcome (bool * table) :=
  '(new_level, t) ←
    (if negb (sec =? ROOT_DIR_SECTOR) then
       '(p, t) ← inode_open a1 parent t;
       p' ← of_option p;
       i ← get_inode t p';
       t ← inode_close env p t;
       Ok (u32 (inode_get_level i + 1), t)
     else Ok (0, t));
  if 213 <? new_level then Ok (false, t)
  else
    '(ok, v) ← inode_create env c1 sec (u32 (entry_cnt * sizeof_dir_entry))
                 (inode_set_level 1 new_level) (device t);
    let t := with_device t v in
    if negb ok then Ok (false, t)
    else
      '(p, t) ← inode_open a2 sec t;
      '(d, t) ← dir_open c2 p t;
      match d with
      | None => Err AssertFail
      | Some d =>
          '(ok, t) ← dir_add c3 d dot sec garbage t;
          '(ok, t) ← (if (ok : bool) then dir_add c4 d dot_dot parent garbage t else Ok (false, t));
          t ← dir_close (Some d) t;
          Ok (ok, t)
      end.
End Directory.
