(* ===== verification/DirectoryMap.v ===== *)
(** A directory is a finite map from names to sectors: the operations of
    [Directory] look up, extend and list that map, over the bytes the inode
    layer keeps for the directory's file. *)
From S2P Require Import Prelude Cache Block Bitmap FreeMap Inode InodeData InodeTable Directory.

(** * Entries of a directory file *)

Definition entry_at (bytes : list Z) (k : nat) : entry := take 24 (drop (24 * k) bytes).
Definition entries (bytes : list Z) : list entry := entry_at bytes <$> seq 0 (length bytes / 24).

Lemma entries_length bytes : length (entries bytes) = (length bytes / 24)%nat.
Proof. unfold entries. by rewrite length_fmap, length_seq. Qed.

Lemma entries_lookup bytes k : (k < length bytes / 24)%nat → entries bytes !! k = Some (entry_at bytes k).
Proof. intros Hk. unfold entries. by rewrite list_lookup_fmap, lookup_seq_lt. Qed.

Lemma entry_at_length bytes k : (k < length bytes / 24)%nat → length (entry_at bytes k) = 24%nat.
Proof.
  intros Hk. pose proof (Nat.div_mod_eq (length bytes) 24). unfold entry_at. rewrite length_take, length_drop. lia.
Qed.

(** Overwriting one entry. *)
Lemma entries_overwrite bytes e j :
  length e = 24%nat → (j < length bytes / 24)%nat →
  length (overwrite bytes e (24 * j)) = length bytes ∧
  entries (overwrite bytes e (24 * j)) = <[j := e]> (entries bytes).
Proof.
  intros He Hj. pose proof (Nat.div_mod_eq (length bytes) 24).
  assert (length (overwrite bytes e (24 * j)) = length bytes) as Hl.
  { unfold overwrite. rewrite !length_app, length_take, length_drop. lia. }
  split; [done|]. apply list_eq. intros k.
  destruct (decide (k < length bytes / 24)%nat) as [Hk|Hk].
  2: { rewrite !lookup_ge_None_2; [done|rewrite length_insert, entries_length; lia|rewrite entries_length, Hl; lia]. }
  rewrite entries_lookup by by rewrite Hl.
  assert (∀ i, (i < 24)%nat → entry_at (overwrite bytes e (24 * j)) k !! i = overwrite bytes e (24 * j) !! (24 * k + i)%nat) as Hi.
  { intros i Hi. unfold entry_at. rewrite lookup_take_lt by done. apply lookup_drop. }
  destruct (decide (k = j)) as [->|Hne].
  - rewrite list_lookup_insert_eq by (rewrite entries_length; lia). f_equal. apply list_eq. intros i.
    destruct (decide (i < 24)%nat).
    2: { rewrite !lookup_ge_None_2; [done|lia|rewrite entry_at_length by (by rewrite Hl); lia]. }
    rewrite Hi by done. unfold overwrite. rewrite lookup_app_r by (rewrite length_take; lia).
    rewrite length_take, lookup_app_l by lia. f_equal. lia.
  - rewrite list_lookup_insert_ne, entries_lookup by done. f_equal. apply list_eq. intros i.
    destruct (decide (i < 24)%nat).
    2: { rewrite !lookup_ge_None_2; [done|rewrite entry_at_length by done; lia|rewrite entry_at_length by (by rewrite Hl); lia]. }
    rewrite Hi by done. unfold entry_at. rewrite lookup_take_lt, lookup_drop by done. unfold overwrite.
    destruct (decide (k < j)%nat).
    + rewrite lookup_app_l by (rewrite length_take; lia). by rewrite lookup_take_lt by lia.
    + rewrite lookup_app_r by (rewrite length_take; lia). rewrite length_take, lookup_app_r by lia.
      rewrite lookup_drop. f_equal. lia.
Qed.

(** * The map *)

Definition matches (name : list Z) (e : entry) : bool := in_use e && str_eq name (name_of e).

Fixpoint dir_map (es : list entry) (name : list Z) : option Z :=
  match es with
  | [] => None
  | e :: es => if matches name e then Some (inode_sector e) else dir_map es name
  end.

Lemma matches_name name e : matches name e = true ↔ in_use e = true ∧ name = name_of e.
Proof. unfold matches, str_eq. by rewrite andb_true_iff, bool_decide_eq_true. Qed.

Lemma dir_map_first es name j e :
  es !! j = Some e → matches name e = true →
  (∀ i e', (i < j)%nat → es !! i = Some e' → matches name e' = false) →
  dir_map es name = Some (inode_sector e).
Proof.
  revert j. induction es as [|e0 es IH]; intros j He Hm Hb; [done|]. destruct j as [|j]; simpl in *.
  - injection He as ->. by rewrite Hm.
  - rewrite (Hb 0%nat e0) by (done || lia). apply (IH j); [done..|]. intros i e' Hi. apply (Hb (S i)). lia.
Qed.

Lemma dir_map_none es name : (∀ e, e ∈ es → matches name e = false) → dir_map es name = None.
Proof.
  induction es as [|e0 es IH]; intros Hn; simpl; [done|]. rewrite Hn by left. apply IH. intros e He. apply Hn. by right.
Qed.

Lemma dir_map_none_inv es name e : dir_map es name = None → e ∈ es → matches name e = false.
Proof.
  induction es as [|e0 es IH]; simpl; intros Hn He; [by apply elem_of_nil in He|].
  destruct (matches name e0) eqn:E; [done|]. apply elem_of_cons in He as [->|He]; auto.
Qed.

(** Replacing an entry that does not match [name] by one that does not. *)
Lemma dir_map_insert_other es j e e' name :
  es !! j = Some e → matches name e = false → matches name e' = false →
  dir_map (<[j := e']> es) name = dir_map es name.
Proof.
  revert j. induction es as [|e0 es IH]; intros j He Hm Hm'; [done|]. destruct j as [|j]; simpl in *.
  - injection He as ->. by rewrite Hm, Hm'.
  - by rewrite (IH j).
Qed.

Lemma dir_map_insert_new es j e' name :
  (j < length es)%nat → dir_map es name = None → matches name e' = true →
  dir_map (<[j := e']> es) name = Some (inode_sector e').
Proof.
  intros Hj Hn Hm. apply (dir_map_first _ _ j); [by apply list_lookup_insert_eq|done|].
  intros i e Hi He. rewrite list_lookup_insert_ne in He by lia.
  eapply dir_map_none_inv; [done|]. by eapply list_elem_of_lookup_2.
Qed.

(** Names occur once among the entries in use. *)
Definition unique_names (es : list entry) : Prop :=
  ∀ i j e e', es !! i = Some e → es !! j = Some e' → in_use e = true → in_use e' = true →
    name_of e = name_of e' → i = j.

(** Erasing an entry removes its name, and only that. *)
Lemma dir_map_erase es j e e' name :
  unique_names es → es !! j = Some e → in_use e = true → in_use e' = false →
  dir_map (<[j := e']> es) name = if decide (name = name_of e) then None else dir_map es name.
Proof.
  intros Hu He Hi Hi'. assert (matches name e' = false) as Hm' by (unfold matches; by rewrite Hi').
  case_decide as Hd.
  - apply dir_map_none. intros x [k Hk]%list_elem_of_lookup_1. destruct (matches name x) eqn:Em; [|done].
    apply matches_name in Em as [Hx En].
    destruct (decide (k = j)) as [->|Hne].
    + rewrite list_lookup_insert_eq in Hk by by eapply lookup_lt_Some. injection Hk as <-. congruence.
    + rewrite list_lookup_insert_ne in Hk by done. destruct Hne. apply (Hu k j x e); congruence.
  - apply (dir_map_insert_other es j e); [done| |done]. destruct (matches name e) eqn:Em; [|done].
    by apply matches_name in Em as [_ ?].
Qed.

(** * The bytes of an open file *)

Lemma read_clip (all bytes : list Z) size ofs : 0 <= size → 0 <= ofs → bytes = take (length bytes) all →
  take (Z.to_nat (Z.min size (Z.of_nat (length bytes) - ofs))) (drop (Z.to_nat ofs) all) =
  take (Z.to_nat size) (drop (Z.to_nat ofs) bytes).
Proof.
  intros Hs Ho E. set (n := length bytes) in *. clearbody n. subst bytes.
  rewrite skipn_firstn_comm, take_take. f_equal. lia.
Qed.

Lemma take_overwrite (all buf : list Z) n o : (o + length buf <= n)%nat → (n <= length all)%nat →
  take n (overwrite all buf o) = overwrite (take n all) buf o.
Proof.
  intros Hn Hl. unfold overwrite. rewrite !take_app, take_take, length_take.
  rewrite (take_ge buf) by lia. rewrite skipn_firstn_comm, take_take.
  replace (Nat.min n o) with o by lia. replace (Nat.min o n) with o by lia. f_equal. f_equal. f_equal. lia.
Qed.

Lemma overwrite_length (bytes buf : list Z) o : (o + length buf <= length bytes)%nat →
  length (overwrite bytes buf o) = length bytes.
Proof. intros Hl. unfold overwrite. rewrite !length_app, length_take, length_drop. lia. Qed.

Section Map.
Context {S : Type} `{BlockLaws S} (env : environment).

(** The open inode [p] holds the bytes [bytes], and they may be written. *)
Definition file_at (t : table (S := S)) (p : Z) (bytes : list Z) : Prop :=
  ∃ i secs, inodes t !! p = Some i ∧ deny_write_cnt i = 0 ∧ block_inv (store (device t)) ∧
    layout (block_at (store (device t))) (data i) secs ∧
    separate (block_at (store (device t))) (data i) secs ∧
    inode_length i = Z.of_nat (length bytes) ∧ inode_length i < 2147483600 ∧
    inode_length i <= 512 * Z.of_nat (length secs) ∧
    bytes = take (length bytes) (file_data (block_at (store (device t))) secs).

(** Nothing but the device has changed. *)
Definition same_inodes (t t' : table (S := S)) : Prop :=
  inodes t' = inodes t ∧ open_inodes t' = open_inodes t.

Lemma file_read t p bytes size ofs :
  file_at t p bytes → 0 <= size < 2147483648 → 0 <= ofs < 2147483648 →
  ∃ t', table_read_at p size ofs t = Ok (take (Z.to_nat size) (drop (Z.to_nat ofs) bytes), t') ∧
    file_at t' p bytes ∧ same_inodes t t'.
Proof.
  intros (i & secs & Hi & Hd & Hb & Hl & Hsep & Hlen & Hlm & Hsec & Hby) Hs Ho.
  destruct (inode_read_at_ok (store (device t)) i secs size ofs) as (bs & st' & E & Hsame & Ebs); [done|done|lia..|].
  unfold table_read_at. rewrite (get_inode_Ok t p i Hi). cbn [mbind outcome_bind]. rewrite E. cbn [mbind outcome_bind].
  assert (bs = take (Z.to_nat size) (drop (Z.to_nat ofs) bytes)) as ->.
  { rewrite Ebs, Hlen. apply read_clip; lia || done. }
  eexists. split; [reflexivity|]. split; [|done]. destruct Hsame as [Hb' Hs'].
  exists i, secs. cbn [inodes device store with_device]. splits; try done.
  - eapply layout_ext; [|done]. intros k. by rewrite Hs'.
  - destruct Hsep as [Hnd Hsep]. split; [done|]. intros k nd Hk. rewrite (node_ext (block_at (store (device t)))) by auto.
    by apply Hsep.
  - rewrite Hby at 1. f_equal. apply file_data_ext. intros k. by rewrite Hs'.
Qed.

Lemma file_write calloc t p bytes buf ofs :
  file_at t p bytes → (0 < length buf)%nat → 0 <= ofs → ofs + Z.of_nat (length buf) <= Z.of_nat (length bytes) →
  ∃ t', table_write_at env calloc p buf (Z.of_nat (length buf)) ofs t = Ok (Z.of_nat (length buf), t') ∧
    file_at t' p (overwrite bytes buf (Z.to_nat ofs)) ∧ same_inodes t t'.
Proof.
  intros (i & secs & Hi & Hd & Hb & Hl & Hsep & Hlen & Hlm & Hsec & Hby) Hne Ho Hfit.
  destruct (inode_write_at_ok env calloc (device t) i secs buf ofs)
    as (n & v' & E & Hb' & Hfm & Hout & Hw & _); [done|done|done|lia|lia|lia|].
  destruct Hw as (-> & Hl' & Hdata); [done|].
  assert (length bytes <= length (file_data (block_at (store (device t))) secs))%nat as Hge.
  { rewrite Hby at 1. rewrite length_take. lia. }
  unfold table_write_at. rewrite (get_inode_Ok t p i Hi). cbn [mbind outcome_bind]. rewrite E. cbn [mbind outcome_bind].
  eexists. split; [reflexivity|]. split.
  2: { split; [|done]. cbn. by apply insert_id. }
  exists i, secs. cbn [inodes device store with_device put_inode]. rewrite lookup_insert_eq.
  rewrite overwrite_length by lia. splits; try done.
  - destruct Hsep as [Hnd Hsep]. split; [done|]. intros k nd Hk Hnode. apply (Hsep k); [done|].
    rewrite <- Hnode. symmetry. apply node_ext. intros j nd' Hj Hnd'. apply Hout. apply (Hsep j); [lia|done].
  - rewrite Hdata, take_overwrite by lia. by rewrite <- Hby.
Qed.

(** * Scanning the entries *)

Lemma read_entry_ok t p bytes k e :
  file_at t p bytes → length e = 24%nat → (k <= length bytes / 24)%nat → (length bytes mod 24 = 0)%nat →
  ∃ e' t', read_entry p (Z.of_nat (24 * k)) e t =
      Ok (if decide (k < length bytes / 24)%nat then 24 else 0, e', t') ∧
    length e' = 24%nat ∧ ((k < length bytes / 24)%nat → e' = entry_at bytes k) ∧
    file_at t' p bytes ∧ same_inodes t t'.
Proof.
  intros Hf He Hk Hm. pose proof (Nat.div_mod_eq (length bytes) 24) as Hdm.
  pose proof Hf as (i & secs & _ & _ & _ & _ & _ & Hlen & Hlm & _).
  destruct (file_read t p bytes 24 (Z.of_nat (24 * k)) Hf) as (t' & E & Hf' & Hs); [lia|lia|].
  unfold read_entry, sizeof_dir_entry. rewrite E. cbn [mbind outcome_bind]. rewrite Nat2Z.id.
  change (Z.to_nat 24) with 24%nat. fold (entry_at bytes k).
  case_decide as Hd.
  - pose proof (entry_at_length bytes k Hd) as Hl. rewrite Hl, drop_ge, app_nil_r by lia.
    eexists _, t'. splits; try done.
  - assert (entry_at bytes k = []) as -> by (unfold entry_at; rewrite drop_ge by lia; done).
    simpl. eexists _, t'. splits; try done.
Qed.

Lemma scan_ok fuel stop t p bytes k e :
  file_at t p bytes → length e = 24%nat → (k <= length bytes / 24)%nat → (length bytes mod 24 = 0)%nat →
  (length bytes / 24 - k < fuel)%nat →
  ∃ e' t', file_at t' p bytes ∧ same_inodes t t' ∧ length e' = 24%nat ∧
    ((∃ j, (k <= j)%nat ∧ entries bytes !! j = Some e' ∧ stop e' = true ∧
        (∀ i x, (k <= i < j)%nat → entries bytes !! i = Some x → stop x = false) ∧
        scan fuel stop p (Z.of_nat (24 * k)) e t = Ok (true, Z.of_nat (24 * j), e', t')) ∨
     ((∀ i x, (k <= i)%nat → entries bytes !! i = Some x → stop x = false) ∧
      scan fuel stop p (Z.of_nat (24 * k)) e t = Ok (false, Z.of_nat (length bytes), e', t'))).
Proof.
  revert t k e. induction fuel as [|fuel IH]; intros t k e Hf He Hk Hm Hfu; [lia|]. cbn [scan].
  pose proof (Nat.div_mod_eq (length bytes) 24) as Hdm.
  pose proof Hf as (i & secs & _ & _ & _ & _ & _ & Hlen & Hlm & _).
  destruct (read_entry_ok t p bytes k e Hf He Hk Hm) as (e1 & t1 & E & Hl1 & He1 & Hf1 & Hs1).
  rewrite E. cbn [mbind outcome_bind]. unfold sizeof_dir_entry. case_decide as Hd.
  - specialize (He1 Hd). cbn [Z.eqb Pos.eqb]. destruct (stop e1) eqn:Est.
    + exists e1, t1. splits; try done. left. exists k. splits; try done; [by rewrite entries_lookup, He1|lia].
    + rewrite s32_small by lia. replace (Z.of_nat (24 * k) + 24) with (Z.of_nat (24 * (Datatypes.S k))) by lia.
      destruct (IH t1 (Datatypes.S k) e1) as (e2 & t2 & Hf2 & Hs2 & Hl2 & Hr); [done|done|lia|done|lia|].
      exists e2, t2. splits; [done| |done|].
      { destruct Hs1, Hs2. split; congruence. }
      assert (∀ i x, i = k → entries bytes !! i = Some x → stop x = false) as Hk0.
      { intros j x -> Hx. rewrite entries_lookup in Hx by done. injection Hx as <-. by rewrite <- He1. }
      destruct Hr as [(j & ? & ? & ? & Hno & Es)|[Hno Es]]; [left|right].
      * exists j. splits; try done; [lia|]. intros j' x Hj'. destruct (decide (j' = k)) as [->|]; [by apply Hk0|].
        apply Hno. lia.
      * split; [|done]. intros j' x Hj'. destruct (decide (j' = k)) as [->|]; [by apply Hk0|]. apply Hno. lia.
  - cbn [Z.eqb]. exists e1, t1. splits; try done. right. split.
    + intros j x Hj Hx. apply lookup_lt_Some in Hx. rewrite entries_length in Hx. lia.
    + do 3 f_equal. f_equal. lia.
Qed.
End Map.
