(* ===== verification/DirectoryOps.v ===== *)
(** The directory operations implement a map from names to sectors. *)
From S2P Require Import Prelude Cache Block Bitmap FreeMap Inode InodeData InodeTable Directory DirectoryMap.

(** * Writing entries *)

Definition new_entry (e : entry) (name : list Z) (sec : Z) : entry :=
  set_sector (set_name (set_in_use e true) name) sec.

(** A name that fits an entry. *)
Definition valid_name (name : list Z) : Prop :=
  (1 <= length name <= 14)%nat ∧ Forall (λ c, c ≠ 0) name.

Lemma c_string_app name rest : Forall (λ c, c ≠ 0) name → c_string (name ++ 0 :: rest) = name.
Proof.
  induction 1 as [|c name Hc Hn IH]; [done|]. cbn [c_string app]. destruct (Z.eqb_spec c 0); [done|]. by rewrite IH.
Qed.

Lemma set_in_use_bytes e b : length e = 24%nat →
  length (set_in_use e b) = 24%nat ∧ byte_of (set_in_use e b) 19 = (if b then 1 else 0) ∧
  in_use (set_in_use e b) = b.
Proof.
  intros He. unfold set_in_use, set_byte, in_use, byte_of. rewrite length_insert.
  rewrite list_lookup_insert_eq by lia. by destruct b.
Qed.

Lemma new_entry_fields e name sec : length e = 24%nat → valid_name name → is_u32 sec →
  length (new_entry e name sec) = 24%nat ∧ in_use (new_entry e name sec) = true ∧
  name_of (new_entry e name sec) = name ∧ inode_sector (new_entry e name sec) = sec.
Proof.
  intros He [Hl Hn] Hs. destruct (set_in_use_bytes e true He) as (He1 & Hb & _).
  unfold new_entry. set (e1 := set_in_use e true) in *.
  assert (length (take 4 e1) = 4%nat) as Ht by (rewrite length_take; lia).
  assert (drop 4 (set_name e1 name) = name ++ [0] ++ drop (5 + length name) e1) as Hd.
  { unfold set_name. rewrite drop_app_length'; [done|lia]. }
  assert (length (set_name e1 name) = 24%nat) as Hln.
  { unfold set_name. rewrite !length_app, length_drop. simpl. lia. }
  assert (drop 4 (set_sector (set_name e1 name) sec) = name ++ [0] ++ drop (5 + length name) e1) as Hd2.
  { unfold set_sector. rewrite drop_app_length'; [done|]. done. }
  splits.
  - unfold set_sector. rewrite length_app, length_drop. simpl. lia.
  - unfold in_use, byte_of. replace (set_sector (set_name e1 name) sec !! 19%nat) with (e1 !! 19%nat).
    { unfold byte_of in Hb. by rewrite Hb. }
    change 19%nat with (4 + 15)%nat at 2. rewrite <- lookup_drop, Hd2.
    rewrite lookup_app_r by lia. rewrite lookup_app_r by (simpl; lia). rewrite lookup_drop. simpl. f_equal. lia.
  - unfold name_of. rewrite Hd2. by apply c_string_app.
  - unfold inode_sector, byte_of, set_sector. cbn [word_bytes app lookup list_lookup default].
    by apply bytes_word_bytes.
Qed.

Section Ops.
Context {S : Type} `{BlockLaws S} (env : environment).

(** A directory of the table, holding whole entries with unique names. *)
Record dir_at (t : table (S := S)) (p : Z) (bytes : list Z) : Prop := {
  da_file : file_at t p bytes;
  da_whole : (length bytes mod 24 = 0)%nat;
  da_unique : unique_names (entries bytes)
}.

Lemma scan_fuel_enough t p bytes : file_at t p bytes → (length bytes / 24 < scan_fuel t p)%nat.
Proof.
  intros (i & secs & Hi & _ & _ & _ & _ & Hlen & _). unfold scan_fuel. rewrite Hi, Hlen. unfold sizeof_dir_entry.
  rewrite Z2Nat.inj_div, Nat2Z.id by lia. change (Z.to_nat 24) with 24%nat. lia.
Qed.

(** The search finds the entry the map has for the name. *)
Lemma lookup_ok t d bytes name g : dir_at t (d_inode d) bytes → length g = 24%nat →
  ∃ r t', lookup d name g t = Ok (r, t') ∧ dir_at t' (d_inode d) bytes ∧ same_inodes t t' ∧
    match r with
    | Some (e, ofs) => ∃ j, entries bytes !! j = Some e ∧ ofs = Z.of_nat (24 * j) ∧ in_use e = true ∧
        name_of e = name ∧ dir_map (entries bytes) name = Some (inode_sector e)
    | None => dir_map (entries bytes) name = None
    end.
Proof.
  intros [Hf Hw Hu] Hg. unfold lookup. change 0 with (Z.of_nat (24 * 0)).
  destruct (scan_ok (scan_fuel t (d_inode d)) (λ e, in_use e && str_eq name (name_of e)) t (d_inode d) bytes 0 g)
    as (e & t' & Hf' & Hs & _ & Hr); [done|done|lia|done|pose proof (scan_fuel_enough t _ _ Hf); lia|].
  destruct Hr as [(j & _ & Hj & Hm & Hno & ->)|[Hno ->]]; cbn [mbind outcome_bind];
    eexists _, t'; (split; [reflexivity|]); (split; [by split|]); (split; [done|]).
  - fold (matches name e) in Hm. exists j. pose proof Hm as [? ?]%matches_name. splits; try done.
    apply (dir_map_first _ _ j); [done..|]. intros i x Hi Hx. apply (Hno i x); [lia|done].
  - apply dir_map_none. intros x [i Hx]%list_elem_of_lookup_1. apply (Hno i x); [lia|done].
Qed.

(** ** Adding a name *)

Lemma unique_insert es j e' : unique_names es →
  (∀ e, e ∈ es → matches (name_of e') e = false) → unique_names (<[j := e']> es).
Proof.
  intros Hu Hn i k x y Hx Hy Hux Huy En.
  assert (∀ i z, i ≠ j → <[j := e']> es !! i = Some z → in_use z = true → name_of z ≠ name_of e') as Hother.
  { intros i' z Hne Hz Hz' E. rewrite list_lookup_insert_ne in Hz by done.
    assert (matches (name_of e') z = true) as Hm by by apply matches_name.
    rewrite Hn in Hm; [done|]. by eapply list_elem_of_lookup_2. }
  destruct (decide (i = j)) as [->|Hi], (decide (k = j)) as [->|Hk]; try done.
  - apply list_lookup_insert_Some in Hx as [(_ & <- & _)|[? _]]; [|done]. exfalso. by apply (Hother k y).
  - apply list_lookup_insert_Some in Hy as [(_ & <- & _)|[? _]]; [|done]. exfalso. by apply (Hother i x).
  - rewrite list_lookup_insert_ne in Hx, Hy by done. by eapply Hu.
Qed.

Lemma dir_add_ok calloc t d bytes name sec g j :
  dir_at t (d_inode d) bytes → length g = 24%nat → valid_name name → is_u32 sec →
  dir_map (entries bytes) name = None →
  (∃ e, entries bytes !! j = Some e ∧ in_use e = false) →
  ∃ t' bytes', dir_add env calloc d name sec g t = Ok (true, t') ∧ dir_at t' (d_inode d) bytes' ∧
    same_inodes t t' ∧ length bytes' = length bytes ∧
    (∀ n, dir_map (entries bytes') n = if decide (n = name) then Some sec else dir_map (entries bytes) n).
Proof.
  intros Hd Hg Hn Hs Hnone (e0 & Hj & Hfree). unfold dir_add, NAME_MAX. pose proof (proj1 Hn).
  destruct (Z.eqb_spec (Z.of_nat (length name)) 0), (Z.ltb_spec 14 (Z.of_nat (length name))); try lia. cbn [orb].
  destruct (lookup_ok t d bytes name g Hd Hg) as (r & t1 & E & Hd1 & Hs1 & Hr). rewrite E. cbn [mbind outcome_bind].
  destruct r as [[e ofs]|]; [destruct Hr as (? & _ & _ & _ & _ & ?); congruence|].
  destruct (scan_ok (scan_fuel t1 (d_inode d)) (λ e, negb (in_use e)) t1 (d_inode d) bytes 0 g)
    as (e & t2 & Hf2 & Hs2 & Hle & Hr2); [apply Hd1|done|lia|apply Hd1|pose proof (scan_fuel_enough t1 _ _ (da_file _ _ _ Hd1)); lia|].
  change 0 with (Z.of_nat (24 * 0)).
  destruct Hr2 as [(k & _ & Hk & Hst & _ & E2)|[Hno _]].
  2: { specialize (Hno j e0 ltac:(lia) Hj). rewrite Hfree in Hno. done. }
  rewrite E2. cbn [mbind outcome_bind]. fold (new_entry e name sec).
  destruct (new_entry_fields e name sec Hle Hn Hs) as (Hln & Hu & Hnm & Hsec).
  pose proof (lookup_lt_Some _ _ _ Hk) as Hlt. rewrite entries_length in Hlt.
  pose proof (Nat.div_mod_eq (length bytes) 24).
  destruct (file_write env calloc t2 (d_inode d) bytes (new_entry e name sec) (Z.of_nat (24 * k)) Hf2)
    as (t3 & E3 & Hf3 & Hs3); [lia|lia|lia|].
  rewrite Hln in E3. unfold sizeof_dir_entry. change (Z.of_nat 24) with 24 in E3. rewrite E3. cbn [mbind outcome_bind].
  rewrite Nat2Z.id in Hf3. destruct (entries_overwrite bytes (new_entry e name sec) k Hln Hlt) as [Hl' He'].
  assert (∀ m x, x ∈ entries bytes → m = name → matches m x = false) as Hnm'.
  { intros m x Hx ->. by eapply dir_map_none_inv. }
  eexists t3, _. split; [reflexivity|]. splits.
  - split; [done|rewrite Hl'; apply Hd1|]. rewrite He'. apply unique_insert; [apply Hd1|].
    intros x Hx. rewrite Hnm. by apply Hnm'.
  - destruct Hs1, Hs2, Hs3. split; congruence.
  - done.
  - intros m. rewrite He'. apply negb_true_iff in Hst. case_decide as Hdn.
    + subst m. rewrite dir_map_insert_new; [by rewrite Hsec|by rewrite entries_length|done|].
      apply matches_name. by rewrite Hu, Hnm.
    + apply (dir_map_insert_other _ k e); [done|unfold matches; by rewrite Hst|].
      destruct (matches m (new_entry e name sec)) eqn:Em; [|done]. apply matches_name in Em as [_ Em]. congruence.
Qed.

(** ** Listing *)

Lemma dir_readdir_ok t d bytes k g :
  dir_at t (d_inode d) bytes → length g = 24%nat → d_pos d = Z.of_nat (24 * k) → (k <= length bytes / 24)%nat →
  ∃ r d' t', dir_readdir d g t = Ok (r, d', t') ∧ dir_at t' (d_inode d) bytes ∧ d_inode d' = d_inode d ∧
    match r with
    | Some name => ∃ j e, (k <= j)%nat ∧ entries bytes !! j = Some e ∧ in_use e = true ∧
        name = take 14 (name_of e) ∧ d_pos d' = Z.of_nat (24 * Datatypes.S j) ∧
        (∀ i x, (k <= i < j)%nat → entries bytes !! i = Some x → in_use x = false)
    | None => ∀ i x, (k <= i)%nat → entries bytes !! i = Some x → in_use x = false
    end.
Proof.
  intros [Hf Hw Hu] Hg Hp Hk. unfold dir_readdir. rewrite Hp.
  pose proof Hf as (i0 & secs & _ & _ & _ & _ & _ & Hlen & Hlm & _). pose proof (Nat.div_mod_eq (length bytes) 24).
  destruct (scan_ok (scan_fuel t (d_inode d)) in_use t (d_inode d) bytes k g)
    as (e & t' & Hf' & Hs & _ & Hr); [done|done|lia|done|pose proof (scan_fuel_enough t _ _ Hf); lia|].
  destruct Hr as [(j & Hj & He & Hm & Hno & ->)|[Hno ->]]; cbn [mbind outcome_bind];
    eexists _, _, t'; (split; [reflexivity|]); (split; [by split|]); (split; [done|]); [|done].
  pose proof (lookup_lt_Some _ _ _ He) as Hlt. rewrite entries_length in Hlt.
  exists j, e. splits; try done. cbn [d_pos]. unfold sizeof_dir_entry. rewrite s32_small; lia.
Qed.

Lemma dir_is_empty_ok t p bytes g :
  dir_at t p bytes → length g = 24%nat → (2 <= length bytes / 24)%nat →
  ∃ b t', dir_is_empty p g t = Ok (b, t') ∧ dir_at t' p bytes ∧
    (b = true ↔ ∀ i x, (2 <= i)%nat → entries bytes !! i = Some x → in_use x = false).
Proof.
  intros [Hf Hw Hu] Hg H2. unfold dir_is_empty. change (2 * sizeof_dir_entry) with (Z.of_nat (24 * 2)).
  destruct (scan_ok (scan_fuel t p) in_use t p bytes 2 g) as (e & t' & Hf' & Hs & _ & Hr);
    [done|done|lia|done|pose proof (scan_fuel_enough t _ _ Hf); lia|].
  destruct Hr as [(j & Hj & He & Hm & Hno & ->)|[Hno ->]]; cbn [mbind outcome_bind];
    eexists _, t'; (split; [reflexivity|]); (split; [by split|]); [|done].
  split; [done|]. intros Hall. rewrite (Hall j e Hj He) in Hm. done.
Qed.
End Ops.

(** * Properties *)

Section Props.
Context {S : Type} `{BlockLaws S} (env : environment).

(** C12: a directory is a map from names to sectors.  In a directory of whole
    entries with unique names, whose inode may be written and which has an
    unused entry, adding a valid name succeeds if the name is new, and then
    extends the map by it, and returns false and keeps the map if the name is
    there.  Searching for any name then gives what the map has for it.
    (A directory without an unused entry grows, which is outside this
    theorem.) *)
Theorem directory_add_lookup calloc t d bytes name sec g
  (Hd : dir_at t (d_inode d) bytes) (Hg : length g = 24%nat) (Hn : valid_name name) (Hs : is_u32 sec)
  (Hslot : ∃ e, e ∈ entries bytes ∧ in_use e = false) :
  ∃ b t' bytes', dir_add env calloc d name sec g t = Ok (b, t') ∧ dir_at t' (d_inode d) bytes' ∧
    b = bool_decide (dir_map (entries bytes) name = None) ∧
    (∀ n, dir_map (entries bytes') n =
       if decide (b = true ∧ n = name) then Some sec else dir_map (entries bytes) n) ∧
    (∀ n, ∃ r t'', lookup d n g t' = Ok (r, t'') ∧
       inode_sector ∘ fst <$> r = dir_map (entries bytes') n ∧ dir_at t'' (d_inode d) bytes').
Proof.
  assert (∀ t' bytes', dir_at t' (d_inode d) bytes' → ∀ n, ∃ r t'', lookup d n g t' = Ok (r, t'') ∧
    inode_sector ∘ fst <$> r = dir_map (entries bytes') n ∧ dir_at t'' (d_inode d) bytes') as Hlook.
  { intros t' bytes' Hd' n. destruct (lookup_ok t' d bytes' n g Hd' Hg) as (r & t'' & E & Hd'' & _ & Hr).
    exists r, t''. splits; try done. destruct r as [[e ofs]|]; [by destruct Hr as (_ & _ & _ & _ & _ & ->)|done]. }
  destruct (dir_map (entries bytes) name) as [s|] eqn:Em.
  - destruct (lookup_ok t d bytes name g Hd Hg) as (r & t1 & E & Hd1 & _ & Hr).
    destruct r as [[e ofs]|]; [|congruence]. exists false, t1, bytes. splits; try done.
    + unfold dir_add. destruct Hn as [Hl _]. unfold NAME_MAX.
      destruct (Z.eqb_spec (Z.of_nat (length name)) 0), (Z.ltb_spec 14 (Z.of_nat (length name))); try lia. cbn [orb].
      by rewrite E.
    + by apply Hlook.
  - destruct Hslot as (e & [j Hj]%list_elem_of_lookup_1 & Hfree).
    destruct (dir_add_ok env calloc t d bytes name sec g j) as (t' & bytes' & E & Hd' & _ & _ & Hm); eauto.
    exists true, t', bytes'. splits; try done; [|by apply Hlook].
    intros n. rewrite Hm. repeat case_decide; naive_solver.
Qed.

(** [dir_readdir] lists the directory: from a position at an entry it
    returns the next entry in use and moves behind it, skipping only unused
    entries, or reports the end when only unused ones are left; so repeated
    calls list every entry exactly once.  [dir_is_empty] says whether anything
    is left behind the entries for the directory itself and its parent. *)
Theorem directory_listing t d bytes k g
  (Hd : dir_at t (d_inode d) bytes) (Hg : length g = 24%nat) (Hp : d_pos d = Z.of_nat (24 * k))
  (Hk : (k <= length bytes / 24)%nat) (H2 : (2 <= length bytes / 24)%nat) :
  (∃ r d' t', dir_readdir d g t = Ok (r, d', t') ∧ dir_at t' (d_inode d) bytes ∧ d_inode d' = d_inode d ∧
     match r with
     | Some name => ∃ j e, (k <= j)%nat ∧ entries bytes !! j = Some e ∧ in_use e = true ∧
         name = take 14 (name_of e) ∧ d_pos d' = Z.of_nat (24 * Datatypes.S j) ∧
         (∀ i x, (k <= i < j)%nat → entries bytes !! i = Some x → in_use x = false)
     | None => ∀ i x, (k <= i)%nat → entries bytes !! i = Some x → in_use x = false
     end) ∧
  (∃ b t', dir_is_empty (d_inode d) g t = Ok (b, t') ∧ dir_at t' (d_inode d) bytes ∧
     (b = true ↔ ∀ i x, (2 <= i)%nat → entries bytes !! i = Some x → in_use x = false)).
Proof. split; [by apply (dir_readdir_ok t d bytes k g)|by apply dir_is_empty_ok]. Qed.
End Props.

(** * A concrete directory *)

(** A directory of sixteen unused entries in sector 5 of a blank disk. *)
Definition blank_ramdisk : ramdisk := replicate 8 (replicate 512 0).
Definition blank_store : Cache.state ramdisk := buffer_cache_init (static_state blank_ramdisk).
Definition sample_dir_disk : inode_disk := mkDisk 4 1 384 (5 :: replicate 122 0) 0 INODE_MAGIC.
Definition sample_dir_table : table :=
  mkTable (mkDev blank_store sample_map) {[4096 := mkInode 4 1 false 0 sample_dir_disk]} [4096].
Definition sample_dir : dir := mkDir 4096 48.

Lemma sample_dir_at : dir_at sample_dir_table (d_inode sample_dir) (replicate 384 0).
Proof.
  split; [|done|].
  - exists (mkInode 4 1 false 0 sample_dir_disk), [5]. splits; try done.
    + apply buffer_cache_init_inv.
    + split.
      * intros [|i] s Hs; [|by destruct i]. injection Hs as <-. exists sample_dir_disk, (replicate 512 0).
        splits; try done; try lia; by vm_compute.
      * intros k Hk. assert (k = 0%nat) as -> by (vm_compute in Hk; lia). by exists sample_dir_disk.
    + split; [apply NoDup_singleton|]. intros k nd Hk. vm_compute in Hk. lia.
  - intros i j e e' He. assert (in_use e = false) as Hf.
    { apply (lookup_Forall (λ e, in_use e = false) (entries (replicate 384 0)) i e); [|done]. by repeat constructor. }
    congruence.
Qed.

Lemma directory_add_lookup_witness :
  ∃ t' bytes', dir_add sample_env true sample_dir [97; 98] 7 (replicate 24 0) sample_dir_table = Ok (true, t') ∧
    dir_map (entries bytes') [97; 98] = Some 7.
Proof.
  destruct (directory_add_lookup sample_env true sample_dir_table sample_dir (replicate 384 0) [97; 98] 7
    (replicate 24 0) sample_dir_at) as (b & t' & bytes' & E & _ & Hb & Hm & _).
  - reflexivity.
  - split; [simpl; lia|]. by repeat constructor.
  - by unfold is_u32.
  - exists (replicate 24 0). split; [left|reflexivity].
  - assert (b = true) as -> by (rewrite Hb; by vm_compute). exists t', bytes'. split; [exact E|].
    rewrite (Hm [97; 98]). rewrite decide_True; [reflexivity|]. split; reflexivity.
Defined.

Lemma directory_listing_witness :
  ∃ d' t', dir_readdir sample_dir (replicate 24 0) sample_dir_table = Ok (None, d', t') ∧
    ∃ t'', dir_is_empty 4096 (replicate 24 0) sample_dir_table = Ok (true, t'').
Proof.
  destruct (directory_listing sample_dir_table sample_dir (replicate 384 0) 2 (replicate 24 0) sample_dir_at)
    as [(r & d' & t' & E & _ & _ & Hr) (b & t'' & E' & _ & Hb)]; [reflexivity|reflexivity|apply Nat.leb_le; reflexivity..|].
  assert (∀ i x, entries (replicate 384 0) !! i = Some x → in_use x = false) as Hf.
  { intros i x Hx. apply (lookup_Forall (λ e, in_use e = false) (entries (replicate 384 0)) i x); [|done]. by repeat constructor. }
  destruct r as [name|].
  - exfalso. destruct Hr as (j & e & _ & He & Hu & _). rewrite (Hf j e He) in Hu. discriminate Hu.
  - exists d', t'. split; [exact E|]. exists t''.
    assert (b = true) as -> by (apply Hb; intros i x _ Hx; by apply (Hf i x)). exact E'.
Defined.
