(* ===== verification/Word.v ===== *)
(** 32-bit words in byte-addressed memory, little-endian as on the i386: the
    pointers, counters and table entries that kernel code keeps in pages. *)
From S2P Require Import Prelude Mem.

Definition load32 (p : Z) : MM Z :=
  b0 ← load p; b1 ← load (p + 1); b2 ← load (p + 2); b3 ← load (p + 3);
  mret (bytes_word b0 b1 b2 b3).
Definition store32 (p w : Z) : MM () :=
  store p w;; store (p + 1) (Z.shiftr w 8);;
  store (p + 2) (Z.shiftr w 16);; store (p + 3) (Z.shiftr w 24).

(** The word at [p], as a total function of the memory. *)
Definition rd32 (m : mem) (p : Z) : Z :=
  let b k := default 0 (m !! (p + k)) in bytes_word (b 0) (b 1) (b 2) (b 3).
(** The memory with the word [w] at [p]. *)
Definition wr32 (p w : Z) (m : mem) : mem := put_bytes p (word_bytes w) m.

(** A memory of bytes. *)
Definition mem_bytes (m : mem) : Prop := map_Forall (λ _ v, is_u8 v) m.

Lemma load32_Ok m p : mapped m p 4 → load32 p m = Ok (rd32 m p, m).
Proof.
  intros H. unfold load32, rd32.
  destruct (H 0%nat) as [b0 H0], (H 1%nat) as [b1 H1], (H 2%nat) as [b2 H2],
    (H 3%nat) as [b3 H3]; try lia. change (Z.of_nat 0) with 0 in *.
  change (Z.of_nat 1) with 1 in *. change (Z.of_nat 2) with 2 in *.
  change (Z.of_nat 3) with 3 in *. rewrite Z.add_0_r in H0.
  do 4 mload. by rewrite Z.add_0_r, H0, H1, H2, H3.
Qed.

Lemma store32_Ok m p w : mapped m p 4 → store32 p w m = Ok ((), wr32 p w m).
Proof.
  intros H. unfold store32, wr32.
  assert (is_Some (m !! p)) as H0 by (rewrite <- (Z.add_0_r p); apply (H 0%nat); lia).
  assert (is_Some (m !! (p + 1))) as H1 by (apply (H 1%nat); lia).
  assert (is_Some (m !! (p + 2))) as H2 by (apply (H 2%nat); lia).
  assert (is_Some (m !! (p + 3))) as H3 by (apply (H 3%nat); lia).
  mstore. erewrite M_bind_step; [|apply store_Ok; rewrite lookup_insert_ne by lia; done].
  erewrite M_bind_step; [|apply store_Ok; rewrite !lookup_insert_ne by lia; done].
  rewrite store_Ok by (rewrite !lookup_insert_ne by lia; done).
  f_equal. f_equal. apply map_eq. intros a. unfold word_bytes. cbn [put_bytes].
  replace (p + 1 + 1) with (p + 2) by lia. replace (p + 2 + 1) with (p + 3) by lia.
  destruct (decide (a = p)), (decide (a = p + 1)), (decide (a = p + 2)), (decide (a = p + 3));
    subst; try lia; by simplify_map_eq by lia.
Qed.

Lemma mapped_sub m p n q k :
  mapped m p n → p <= q → q + Z.of_nat k <= p + Z.of_nat n → mapped m q k.
Proof.
  intros H ?? i Hi. replace (q + Z.of_nat i) with (p + Z.of_nat (Z.to_nat (q - p + Z.of_nat i))) by lia.
  apply H. lia.
Qed.

Lemma mapped_wr32 m p w q n : mapped m q n → mapped (wr32 p w m) q n.
Proof. apply mapped_put. Qed.

Lemma rd32_ext m m' p :
  (∀ a, p <= a < p + 4 → m' !! a = m !! a) → rd32 m' p = rd32 m p.
Proof. intros H. unfold rd32. by rewrite !H by lia. Qed.

Lemma rd32_put_ne m p bs q :
  q + 4 <= p ∨ p + Z.of_nat (length bs) <= q → rd32 (put_bytes p bs m) q = rd32 m q.
Proof. intros. apply rd32_ext. intros. apply put_bytes_ne. lia. Qed.

Lemma rd32_wr32 m p w : is_u32 w → rd32 (wr32 p w m) p = w.
Proof.
  intros Hw. unfold rd32, wr32. rewrite !put_bytes_lookup. cbn [length word_bytes].
  bcases; simpl; try lia. replace (p + 0 - p) with 0 by lia. replace (p + 1 - p) with 1 by lia.
  replace (p + 2 - p) with 2 by lia. replace (p + 3 - p) with 3 by lia. by apply bytes_word_bytes.
Qed.

Lemma rd32_wr32_ne m p w q : q + 4 <= p ∨ p + 4 <= q → rd32 (wr32 p w m) q = rd32 m q.
Proof. intros. by apply rd32_put_ne. Qed.

Lemma mem_bytes_put m p bs : mem_bytes m → Forall is_u8 bs → mem_bytes (put_bytes p bs m).
Proof.
  intros Hm Hbs a v. rewrite put_bytes_lookup. case_match; [|apply Hm].
  intros Hv. by eapply lookup_Forall in Hv.
Qed.

Lemma word_bytes_u8 w : Forall is_u8 (word_bytes w).
Proof. unfold word_bytes. repeat constructor; unfold is_u8; auto using u8_range; apply u8_range. Qed.

Lemma mem_bytes_wr32 m p w : mem_bytes m → mem_bytes (wr32 p w m).
Proof. intros. by apply mem_bytes_put, word_bytes_u8. Qed.

Lemma rd32_range m p : mem_bytes m → is_u32 (rd32 m p).
Proof.
  intros Hm. assert (∀ k, is_u8 (default 0 (m !! (p + k)))) as Hb.
  { intros k. destruct (m !! (p + k)) eqn:E; simpl; [by eapply Hm|unfold is_u8; lia]. }
  by apply bytes_word_range.
Qed.

(** A block of equal bytes. *)
Lemma rd32_zeros m p n q :
  p <= q → q + 4 <= p + Z.of_nat n → rd32 (put_bytes p (replicate n 0) m) q = 0.
Proof.
  intros. unfold rd32. rewrite !put_bytes_lookup, length_replicate.
  bcases; simpl; try lia. by rewrite !lookup_replicate_2 by lia.
Qed.
