(* ===== verification/Vaddr.v ===== *)
(** Virtual addresses and hardware page-table entries (threads/vaddr.h,
    threads/pte.h): the bit arithmetic both use, and its arithmetic reading. *)
From S2P Require Import Prelude.

Definition PGBITS : Z := 12.
Definition PGSIZE : Z := 4096.
Definition PGMASK : Z := 4095.
Definition PHYS_BASE : Z := 3221225472.

Definition pg_ofs (va : Z) : Z := Z.land va PGMASK.
Definition pg_no (va : Z) : Z := Z.shiftr va PGBITS.
Definition pg_round_up (va : Z) : Z := Z.land (u32 (va + PGSIZE - 1)) (u32 (Z.lnot PGMASK)).
Definition pg_round_down (va : Z) : Z := Z.land va (u32 (Z.lnot PGMASK)).
Definition is_user_vaddr (vaddr : Z) : bool := vaddr <? PHYS_BASE.
Definition is_kernel_vaddr (vaddr : Z) : bool := PHYS_BASE <=? vaddr.
Definition ptov (paddr : Z) : outcome Z :=
  assert (paddr <? PHYS_BASE) (Ok (u32 (paddr + PHYS_BASE))).
Definition vtop (vaddr : Z) : outcome Z :=
  assert (is_kernel_vaddr vaddr) (Ok (u32 (vaddr - PHYS_BASE))).

Definition PTSHIFT : Z := PGBITS.
Definition PTBITS : Z := 10.
Definition PTMASK : Z := 4190208.
Definition PDSHIFT : Z := PTSHIFT + PTBITS.
Definition pt_no (va : Z) : Z := Z.shiftr (Z.land va PTMASK) PTSHIFT.
Definition pd_no (va : Z) : Z := Z.shiftr va PDSHIFT.

Definition PTE_FLAGS : Z := 4095.
Definition PTE_ADDR : Z := 4294963200.
Definition PTE_P : Z := 1.
Definition PTE_W : Z := 2.
Definition PTE_U : Z := 4.
Definition PTE_S : Z := 8.
Definition PTE_A : Z := 32.
Definition PTE_D : Z := 64.

Definition pde_create (pt : Z) : outcome Z :=
  assert (pg_ofs pt =? 0)
  (vtop pt ≫= λ p, Ok (Z.lor (Z.lor (Z.lor p PTE_U) PTE_P) PTE_W)).
Definition pde_get_pt (pde : Z) : outcome Z :=
  assert (negb (Z.land pde PTE_P =? 0)) (ptov (Z.land pde PTE_ADDR)).
Definition pte_create_kernel (page : Z) (writable : bool) : outcome Z :=
  assert (pg_ofs page =? 0)
  (vtop page ≫= λ p, Ok (Z.lor (Z.lor p PTE_P) (if writable then PTE_W else 0))).
Definition pte_create_user (page : Z) (writable : bool) : outcome Z :=
  pte_create_kernel page writable ≫= λ p, Ok (Z.lor p PTE_U).
Definition pte_get_page (pte : Z) : outcome Z := ptov (Z.land pte PTE_ADDR).

(** * Arithmetic reading *)

Lemma pg_ofs_mod va : pg_ofs va = va mod 4096.
Proof. unfold pg_ofs. change PGMASK with (Z.ones 12). by rewrite Z.land_ones. Qed.

Lemma pg_no_div va : pg_no va = va / 4096.
Proof. unfold pg_no. by rewrite Z.shiftr_div_pow2. Qed.

Lemma pd_no_div va : pd_no va = va / 4194304.
Proof. unfold pd_no. by rewrite Z.shiftr_div_pow2. Qed.

(** Clearing the low [n] bits of a 32-bit word. *)
Lemma land_high_mask n x : 0 <= n <= 32 → is_u32 x →
  Z.land x (4294967296 - 2 ^ n) = x - x mod 2 ^ n.
Proof.
  intros Hn [Hx0 Hx]. assert (0 < 2 ^ n) by (apply Z.pow_pos_nonneg; lia).
  assert (Z.land x (4294967296 - 2 ^ n) = Z.ldiff x (Z.ones n)) as ->.
  { apply Z.bits_inj'. intros k Hk. rewrite Z.land_spec, Z.ldiff_spec.
    replace (4294967296 - 2 ^ n) with (Z.shiftl (Z.ones (32 - n)) n).
    2: { rewrite Z.shiftl_mul_pow2, Z.ones_equiv by lia. change 4294967296 with (2 ^ 32).
         replace (2 ^ 32) with (2 ^ (32 - n) * 2 ^ n) by (rewrite <- Z.pow_add_r by lia; f_equal; lia).
         lia. }
    destruct (Z.ltb_spec k n).
    - rewrite Z.shiftl_spec_low, Z.ones_spec_low by lia. by destruct (Z.testbit x k).
    - rewrite Z.shiftl_spec, (Z.ones_spec_high n k) by lia. simpl. rewrite andb_true_r.
      destruct (Z.ltb_spec k 32).
      + rewrite Z.ones_spec_low by lia. apply andb_true_r.
      + rewrite Z.ones_spec_high by lia. rewrite andb_false_r. symmetry.
        destruct (Z.eq_dec x 0) as [->|]; [apply Z.bits_0|]. apply Z.bits_above_log2; [lia|].
        apply Z.log2_lt_pow2; [lia|]. apply Z.lt_le_trans with (2 ^ 32); [lia|].
        apply Z.pow_le_mono_r; lia. }
  rewrite Z.ldiff_ones_r by lia. rewrite Z.shiftr_div_pow2, Z.shiftl_mul_pow2 by lia.
  pose proof (Z.div_mod x (2 ^ n)). lia.
Qed.

Lemma pg_round_down_sub va : is_u32 va → pg_round_down va = va - va mod 4096.
Proof.
  intros. unfold pg_round_down. change (u32 (Z.lnot PGMASK)) with (4294967296 - 2 ^ 12).
  by apply land_high_mask.
Qed.

Lemma pg_round_up_eq va : 0 <= va <= 4294963200 → pg_round_up va = (va + 4095) / 4096 * 4096.
Proof.
  intros. unfold pg_round_up, PGSIZE. rewrite (u32_small (va + 4096 - 1)) by lia.
  change (u32 (Z.lnot PGMASK)) with (4294967296 - 2 ^ 12).
  rewrite land_high_mask by (unfold is_u32; lia). change (2 ^ 12) with 4096.
  replace (va + 4096 - 1) with (va + 4095) by lia. pose proof (Z.div_mod (va + 4095) 4096). lia.
Qed.

(** Page directory and page table index, and page offset: the three fields of
    an address determine it. *)
Lemma pt_no_div va : is_u32 va → pt_no va = va / 4096 mod 1024.
Proof.
  intros Hva. unfold pt_no, PTSHIFT, PGBITS.
  assert (Z.land va PTMASK = Z.land (Z.land va (Z.ones 22)) (4294967296 - 2 ^ 12)) as ->.
  { rewrite <- Z.land_assoc. f_equal. }
  rewrite Z.land_ones by lia. rewrite land_high_mask; [|lia|].
  2: { unfold is_u32. pose proof (Z.mod_pos_bound va (2 ^ 22)). lia. }
  rewrite Z.shiftr_div_pow2 by lia. change (2 ^ 22) with (4096 * 1024). change (2 ^ 12) with 4096.
  rewrite Z.rem_mul_r by lia. set (r := va mod 4096). set (q := va / 4096 mod 1024).
  assert (0 <= r < 4096) by (apply Z.mod_pos_bound; lia).
  replace (r + 4096 * q) with (q * 4096 + r) by lia.
  rewrite Z.add_comm, Z.mod_add by lia. rewrite (Z.mod_small r) by lia.
  replace (r + q * 4096 - r) with (q * 4096) by lia. by rewrite Z.div_mul.
Qed.

Lemma page_indices va : is_u32 va → pd_no va * 1024 + pt_no va = pg_no va.
Proof.
  intros. rewrite pd_no_div, pt_no_div, pg_no_div by done.
  change 4194304 with (4096 * 1024). rewrite <- Z.div_div by lia.
  pose proof (Z.div_mod (va / 4096) 1024). lia.
Qed.

Lemma pd_no_range va : is_u32 va → 0 <= pd_no va < 1024.
Proof.
  intros [? ?]. rewrite pd_no_div. split; [apply Z.div_pos; lia|].
  apply Z.div_lt_upper_bound; lia.
Qed.
Lemma pt_no_range va : is_u32 va → 0 <= pt_no va < 1024.
Proof. intros. rewrite pt_no_div by done. apply Z.mod_pos_bound. lia. Qed.
