(* ===== verification/Palloc.v ===== *)
(** The page allocator (threads/palloc.c): two pools of page frames, each with
    a bitmap of the pages in use, over the bytes of kernel memory.

    The scan of [palloc_get_multiple] runs under the pool's lock and
    [palloc_free_multiple] only clears bits, each atomically, so the lock is
    left out.  The bitmap of a pool lives in pages before the pool's base, which no
    operation on the pool's pages touches; it is kept as a [bitmap]. *)
From S2P Require Import Prelude Mem Str Word Bitmap FreeMap Vaddr.

Definition PAL_ASSERT : Z := 1.
Definition PAL_ZERO : Z := 2.
Definition PAL_USER : Z := 4.

Record pool := mkPool { used_map : bitmap; base : Z }.
Record kmem := mkKmem { kernel_pool : pool; user_pool : pool; ram : mem }.
Abbreviation KM := (M kmem).

(** [&user_pool] or [&kernel_pool]. *)
Definition get_pool (user : bool) (s : kmem) : pool :=
  if user then user_pool s else kernel_pool s.
Definition set_map (user : bool) (b : bitmap) (s : kmem) : kmem :=
  if user then mkKmem (kernel_pool s) (mkPool b (base (user_pool s))) (ram s)
  else mkKmem (mkPool b (base (kernel_pool s))) (user_pool s) (ram s).
Definition set_ram (m : mem) (s : kmem) : kmem := mkKmem (kernel_pool s) (user_pool s) m.

(** Code that works on the memory only. *)
Definition on_ram {A} (f : MM A) : KM A :=
  λ s, '(a, m) ← f (ram s); Ok (a, set_ram m s).

Definition page_from_pool (p : pool) (page : Z) : bool :=
  let page_no := pg_no page in
  let start_page := pg_no (base p) in
  let end_page := u32 (start_page + bitmap_size (used_map p)) in
  (start_page <=? page_no) && (page_no <? end_page).

Definition palloc_get_multiple (flags page_cnt : Z) : KM Z :=
  let user := has flags PAL_USER in
  if page_cnt =? 0 then mret NULL
  else
    s ← getS;
    '(page_idx, b) ← pureM (bitmap_scan_and_flip (used_map (get_pool user s)) 0 page_cnt false);
    modS (set_map user b);;
    let pages := if negb (page_idx =? BITMAP_ERROR)
                 then u32 (base (get_pool user s) + u32 (PGSIZE * page_idx)) else NULL in
    (if negb (pages =? NULL) then
       if has flags PAL_ZERO
       then on_ram (memset pages 0 (u32 (PGSIZE * page_cnt)));; mret () else mret ()
     else if has flags PAL_ASSERT then fail KernelPanic else mret ());;
    mret pages.

Definition palloc_get_page (flags : Z) : KM Z := palloc_get_multiple flags 1.

(** The [NOT_REACHED] of a page of neither pool is a panic. *)
Definition palloc_free_multiple (pages page_cnt : Z) : KM () :=
  check (pg_ofs pages =? 0);;
  if (pages =? NULL) || (page_cnt =? 0) then mret ()
  else
    s ← getS;
    user ← (if page_from_pool (kernel_pool s) pages then mret false
            else if page_from_pool (user_pool s) pages then mret true
            else fail KernelPanic);
    let pool := get_pool user s in
    let page_idx := u32 (pg_no pages - pg_no (base pool)) in
    on_ram (memset pages 204 (u32 (PGSIZE * page_cnt)));;
    all ← pureM (bitmap_all (used_map pool) page_idx page_cnt);
    check all;;
    b ← pureM (bitmap_set_multiple (used_map pool) page_idx page_cnt false);
    modS (set_map user b).

Definition palloc_free_page (page : Z) : KM () := palloc_free_multiple page 1.

(** The words a bitmap of [n] elements finds in its buffer, after the header. *)
Definition buffer_words (m : mem) (buf : Z) (n : Z) : list Z :=
  (λ i, rd32 m (buf + sizeof_struct_bitmap + 4 * Z.of_nat i)) <$> seq 0 (Z.to_nat n).

Definition init_pool (m : mem) (base page_cnt : Z) : outcome pool :=
  let bm_pages := DIV_ROUND_UP (bitmap_buf_size page_cnt) PGSIZE in
  if page_cnt <? bm_pages then Err KernelPanic
  else
    let page_cnt := u32 (page_cnt - bm_pages) in
    b ← bitmap_create_in_buf page_cnt (buffer_words m base (elem_cnt page_cnt))
          (u32 (bm_pages * PGSIZE));
    Ok (mkPool b (u32 (base + u32 (bm_pages * PGSIZE)))).

(** [kernel_end] is the address of the linker's [_end]. *)
Definition palloc_init (kernel_end ram_pages user_page_limit : Z) (m : mem) : outcome kmem :=
  let free_start := pg_round_up kernel_end in
  free_end ← ptov (u32 (ram_pages * PGSIZE));
  let free_pages := u32 (free_end - free_start) / PGSIZE in
  let user_pages := free_pages / 2 in
  let user_pages := if user_page_limit <? user_pages then user_page_limit else user_pages in
  let kernel_pages := u32 (free_pages - user_pages) in
  k ← init_pool m free_start kernel_pages;
  u ← init_pool m (u32 (free_start + u32 (kernel_pages * PGSIZE))) user_pages;
  Ok (mkKmem k u m).

(** * Invariant *)

Definition pool_cnt (p : pool) : Z := bit_cnt (used_map p).
Definition pool_end (p : pool) : Z := base p + 4096 * pool_cnt p.

Record pool_ok (p : pool) (m : mem) : Prop := {
  po_wf : bitmap_wf (used_map p);
  po_aligned : base p mod 4096 = 0;
  po_kernel : PHYS_BASE <= base p;
  po_end : pool_end p <= 4294967296;
  po_mapped : mapped m (base p) (Z.to_nat (4096 * pool_cnt p))
}.

(** The pools are sound and do not overlap. *)
Record kmem_inv (s : kmem) : Prop := {
  ki_kernel : pool_ok (kernel_pool s) (ram s);
  ki_user : pool_ok (user_pool s) (ram s);
  ki_disjoint : pool_end (kernel_pool s) <= base (user_pool s);
  ki_bytes : mem_bytes (ram s)
}.

(** The page of index [k] of a pool, and whether the page at an address is one
    of the pool's pages and in use. *)
Definition page_at (p : pool) (k : Z) : Z := base p + 4096 * k.
Definition in_pool (p : pool) (a : Z) : bool := (base p <=? a) && (a <? pool_end p).
Definition in_use (p : pool) (page : Z) : bool :=
  in_pool p page && bget (used_map p) ((page - base p) / 4096).
Definition page_in_use (s : kmem) (page : Z) : bool :=
  in_use (kernel_pool s) page || in_use (user_pool s) page.

Lemma in_use_page_at p k : 0 <= k < pool_cnt p → in_use p (page_at p k) = bget (used_map p) k.
Proof.
  intros. unfold in_use, in_pool, pool_end, page_at.
  rewrite Z.add_simpl_l, (Z.mul_comm 4096 k), Z.div_mul by lia. by bcases; simpl; try lia.
Qed.

Lemma pool_ok_ram p m m' :
  pool_ok p m → (∀ q n, mapped m q n → mapped m' q n) → pool_ok p m'.
Proof. intros [] H. split; auto. Qed.

Lemma pool_ok_map p b m :
  pool_ok p m → bitmap_wf b → bit_cnt b = pool_cnt p → pool_ok (mkPool b (base p)) m.
Proof. unfold pool_cnt. intros [] ??. split; unfold pool_end, pool_cnt in *; simpl; rewrite ?H0; done. Qed.

Lemma get_pool_ok s user : kmem_inv s → pool_ok (get_pool user s) (ram s).
Proof. intros []. by destruct user. Qed.

Lemma kmem_inv_set_map s user b :
  kmem_inv s → bitmap_wf b → bit_cnt b = pool_cnt (get_pool user s) → kmem_inv (set_map user b s).
Proof.
  intros [] Hw Hc. destruct user; split; simpl in *; eauto using pool_ok_map;
    unfold pool_end, pool_cnt in *; simpl; rewrite ?Hc; done.
Qed.

Lemma kmem_inv_set_ram s p bs :
  kmem_inv s → Forall is_u8 bs → kmem_inv (set_ram (put_bytes p bs (ram s)) s).
Proof.
  intros [] Hbs. split; simpl; try done; try (by apply mem_bytes_put);
    (eapply pool_ok_ram; [done|]; intros; by apply mapped_put).
Qed.

Lemma replicate_u8 n v : is_u8 v → Forall is_u8 (replicate n v).
Proof. intros. by apply Forall_replicate. Qed.

Lemma pool_page_mapped p m r cnt :
  pool_ok p m → 0 <= r → 0 <= cnt → r + cnt <= pool_cnt p →
  mapped m (page_at p r) (Z.to_nat (4096 * cnt)).
Proof.
  intros [] ???. unfold page_at. eapply mapped_sub; [done|lia|].
  pose proof (proj1 po_wf0). rewrite !Z2Nat.id; unfold pool_cnt in *; lia.
Qed.

(** Claiming a run of bits, bit by bit. *)
Lemma scan_and_flip_bits b cnt :
  bitmap_wf b → 0 <= cnt →
  (∃ r b', bitmap_scan_and_flip b 0 cnt false = Ok (r, b') ∧ 0 <= r ∧ r + cnt <= bit_cnt b ∧
     run_at b r cnt false ∧ (∀ k, 0 <= k < r → ¬ run_at b k cnt false) ∧
     bitmap_wf b' ∧ bit_cnt b' = bit_cnt b ∧
     ∀ j, 0 <= j → bget b' j = (r <=? j) && (j <? r + cnt) || bget b j) ∨
  (bitmap_scan_and_flip b 0 cnt false = Ok (BITMAP_ERROR, b) ∧
   ∀ k, 0 <= k → k + cnt <= bit_cnt b → ¬ run_at b k cnt false).
Proof.
  intros Hw Hc. pose proof (proj1 Hw). unfold bitmap_scan_and_flip.
  destruct (bitmap_scan_spec b 0 cnt false) as [(r & E & ? & ? & Hr & Hk)|[E Hno]]; [done|lia|lia|left|right];
    rewrite E; cbn [mbind outcome_bind].
  2: by split.
  destruct (Z.eqb_spec r BITMAP_ERROR) as [->|_]; [unfold BITMAP_ERROR, SIZE_MAX in *; lia|].
  destruct (bitmap_set_multiple_put b r cnt (negb false)) as (b' & -> & Hw' & Hc' & Hg); [done|lia..|].
  exists r, b'. splits; done.
Qed.

(** [run_at] in terms of page addresses. *)
Lemma run_at_pages p k cnt :
  0 <= k → k + cnt <= pool_cnt p →
  run_at (used_map p) k cnt false ↔ ∀ i, 0 <= i < cnt → in_use p (page_at p (k + i)) = false.
Proof.
  intros. split.
  - intros Hr i Hi. rewrite in_use_page_at by lia. apply Hr. lia.
  - intros Hr j Hj. rewrite <- in_use_page_at by lia.
    replace j with (k + (j - k)) by lia. apply Hr. lia.
Qed.

(** Pages [k, k + cnt) of [p], as an address range. *)
Lemma page_range p k cnt a :
  (page_at p k <=? a) && (a <? page_at p k + 4096 * cnt) =
  (k <=? (a - base p) / 4096) && ((a - base p) / 4096 <? k + cnt).
Proof.
  unfold page_at. pose proof (Z.div_mod (a - base p) 4096). pose proof (Z.mod_pos_bound (a - base p) 4096).
  f_equal; bcases; done || lia.
Qed.

(** The state after the pages [k, k + cnt) of a pool have been claimed or
    given back. *)
Lemma in_use_set_map p b k cnt (v : bool) a :
  0 <= k → k + cnt <= pool_cnt p → bit_cnt b = pool_cnt p →
  (∀ j, 0 <= j → bget b j = if (k <=? j) && (j <? k + cnt) then v else bget (used_map p) j) →
  in_use (mkPool b (base p)) a =
    if (page_at p k <=? a) && (a <? page_at p k + 4096 * cnt) then v else in_use p a.
Proof.
  intros Hk Hc Hb Hg. rewrite page_range. unfold in_use, in_pool, pool_end, pool_cnt in *; simpl. rewrite Hb.
  destruct (Z.leb_spec (base p) a); simpl.
  2: { assert ((a - base p) / 4096 < 0) by (apply Z.div_lt_upper_bound; lia).
       by bcases; simpl; try lia. }
  rewrite Hg by (apply Z.div_pos; lia).
  pose proof (Z.div_mod (a - base p) 4096). pose proof (Z.mod_pos_bound (a - base p) 4096).
  by bcases; simpl; try lia.
Qed.

(** * Allocation *)

(** What a successful request for [cnt] pages gives: [cnt] consecutive pages of
    the pool, free before, the lowest such run, and in use afterwards. *)
Definition claims (s : kmem) (user : bool) (cnt pages : Z) (s' : kmem) : Prop :=
  let p := get_pool user s in
  pages mod 4096 = 0 ∧ base p <= pages ∧ pages + 4096 * cnt <= pool_end p ∧
  (∀ i, 0 <= i < cnt → in_use p (pages + 4096 * i) = false) ∧
  (∀ q, q mod 4096 = 0 → base p <= q < pages → ∃ i, 0 <= i < cnt ∧ in_use p (q + 4096 * i) = true) ∧
  (∀ a, page_in_use s' a = (pages <=? a) && (a <? pages + 4096 * cnt) || page_in_use s a).

(** No run of [cnt] free pages. *)
Definition exhausted (p : pool) (cnt : Z) : Prop :=
  ∀ q, q mod 4096 = 0 → base p <= q → q + 4096 * cnt <= pool_end p →
    ∃ i, 0 <= i < cnt ∧ in_use p (q + 4096 * i) = true.

(** A failed search through finitely many pages has a page in use to show. *)
Lemma not_run_witness p k cnt :
  0 <= k → 0 <= cnt → k + cnt <= pool_cnt p → bitmap_wf (used_map p) →
  ¬ run_at (used_map p) k cnt false → ∃ i, 0 <= i < cnt ∧ in_use p (page_at p (k + i)) = true.
Proof.
  intros ??? Hw Hno. destruct (bitmap_contains_spec (used_map p) k cnt true) as (c & _ & Hc); [done..|].
  destruct c.
  - destruct (proj1 Hc eq_refl) as (j & Hj & Hb). exists (j - k). split; [lia|].
    replace (k + (j - k)) with j by lia. by rewrite in_use_page_at by lia.
  - destruct Hno. intros j Hj. destruct (bget (used_map p) j) eqn:E; [|done].
    assert (false = true) by (apply Hc; eauto). done.
Qed.

(** An aligned address of a pool is the address of one of its pages. *)
Lemma aligned_page p q :
  base p mod 4096 = 0 → q mod 4096 = 0 → base p <= q → ∃ k, 0 <= k ∧ q = page_at p k.
Proof.
  intros Hb Hq Hle. exists ((q - base p) / 4096). split; [apply Z.div_pos; lia|].
  unfold page_at. pose proof (Z.div_mod (q - base p) 4096).
  rewrite Zminus_mod, Hb, Hq in *. change ((0 - 0) mod 4096) with 0 in *. lia.
Qed.

Lemma page_in_use_set_map s user b a :
  page_in_use (set_map user b s) a =
    in_use (mkPool b (base (get_pool user s))) a || in_use (get_pool (negb user) s) a.
Proof. unfold page_in_use. destruct user; simpl; [apply orb_comm|done]. Qed.

Lemma page_in_use_pools s user a :
  page_in_use s a = in_use (get_pool user s) a || in_use (get_pool (negb user) s) a.
Proof. unfold page_in_use. destruct user; simpl; [apply orb_comm|done]. Qed.

Lemma page_at_offset p r i : page_at p r + 4096 * i = page_at p (r + i).
Proof. unfold page_at. lia. Qed.

Lemma page_at_aligned p k : base p mod 4096 = 0 → page_at p k mod 4096 = 0.
Proof. intros Hb. unfold page_at. by rewrite Z.mul_comm, Z.mod_add by lia. Qed.

(** The bitmap search, in terms of pages. *)
Lemma scan_claims s user cnt :
  kmem_inv s → 0 < cnt →
  (∃ r b', bitmap_scan_and_flip (used_map (get_pool user s)) 0 cnt false = Ok (r, b') ∧
     0 <= r ∧ r + cnt <= pool_cnt (get_pool user s) ∧
     bit_cnt b' = pool_cnt (get_pool user s) ∧ kmem_inv (set_map user b' s) ∧
     claims s user cnt (page_at (get_pool user s) r) (set_map user b' s)) ∨
  (bitmap_scan_and_flip (used_map (get_pool user s)) 0 cnt false =
     Ok (BITMAP_ERROR, used_map (get_pool user s)) ∧ exhausted (get_pool user s) cnt).
Proof.
  intros Hi Hc. set (p := get_pool user s). pose proof (get_pool_ok s user Hi) as Hp. fold p in Hp.
  destruct (scan_and_flip_bits (used_map p) cnt) as
    [(r & b' & E & Hr & Hrc & Hrun & Hk & Hw & Hb & Hg)|[E Hno]]; [apply Hp|lia|left|right].
  - exists r, b'. splits; try done; [by apply kmem_inv_set_map|]. unfold claims. fold p.
    splits; [apply page_at_aligned, Hp|unfold page_at; lia|unfold page_at, pool_end, pool_cnt; lia| | |].
    + intros i Hi'. rewrite page_at_offset. by apply (run_at_pages p r cnt).
    + intros q Hq Hqr. destruct (aligned_page p q) as (k & Hk0 & ->); [apply Hp|done|lia|].
      unfold page_at in Hqr. destruct (not_run_witness p k cnt) as (i & ? & ?);
        [lia|lia|unfold pool_cnt; lia|apply Hp|apply Hk; lia|].
      exists i. by rewrite page_at_offset.
    + intros a. rewrite page_in_use_set_map, (page_in_use_pools s user). fold p.
      rewrite (in_use_set_map p b' r cnt true) by (done || (intros; rewrite Hg by done; by case_match)).
      by case_match.
  - split; [done|]. intros q Hq Hle Hend. destruct (aligned_page p q) as (k & Hk0 & ->); [apply Hp|done..|].
    unfold page_at, pool_end in Hend.
    destruct (not_run_witness p k cnt) as (i & ? & ?); [lia|lia|lia|apply Hp| |].
    + apply Hno; [done|unfold pool_cnt in *; lia].
    + exists i. by rewrite page_at_offset.
Qed.

Lemma ram_set_map s user b : ram (set_map user b s) = ram s.
Proof. by destruct user. Qed.
Lemma set_map_same s user : set_map user (used_map (get_pool user s)) s = s.
Proof. by destruct s as [[] [] ?], user. Qed.

Lemma page_at_u32 p m r : pool_ok p m → 0 <= r < pool_cnt p →
  u32 (base p + u32 (PGSIZE * r)) = page_at p r ∧ PHYS_BASE <= page_at p r < 4294967296.
Proof.
  intros [] Hr. unfold PGSIZE, page_at, pool_end, PHYS_BASE in *. rewrite u32_add_r. widths. lia.
Qed.

Lemma on_ram_Ok {A} (f : MM A) s a m : f (ram s) = Ok (a, m) → on_ram f s = Ok (a, set_ram m s).
Proof. unfold on_ram. by intros ->. Qed.

Lemma page_in_use_set_ram s m a : page_in_use (set_ram m s) a = page_in_use s a.
Proof. done. Qed.

(** The memory a request leaves: zeroed pages if it asked for them. *)
Definition zeroed (flags pages cnt : Z) (m : mem) : mem :=
  if has flags PAL_ZERO then put_bytes pages (replicate (Z.to_nat (4096 * cnt)) 0) m else m.

Lemma memset_pages s r cnt user v :
  kmem_inv s → 0 <= r → 0 < cnt → r + cnt <= pool_cnt (get_pool user s) →
  memset (page_at (get_pool user s) r) v (u32 (PGSIZE * cnt)) (ram s) =
    Ok (page_at (get_pool user s) r,
        put_bytes (page_at (get_pool user s) r) (replicate (Z.to_nat (4096 * cnt)) (u8 v)) (ram s)).
Proof.
  intros Hi ???. pose proof (get_pool_ok s user Hi) as Hp.
  destruct (page_at_u32 _ _ r Hp ltac:(lia)) as [_ ?]. destruct Hp as [? ? ? He ?].
  unfold PGSIZE, page_at, pool_end, PHYS_BASE in *. rewrite u32_small by lia.
  rewrite <- (Z2Nat.id (4096 * cnt)) at 1 by lia. apply memset_Ok; [lia|].
  eapply pool_page_mapped; [by apply get_pool_ok|lia..].
Qed.

(** The outcomes of a request for at least one page. *)
Lemma palloc_get_multiple_cases s flags cnt :
  kmem_inv s → 0 < cnt →
  (∃ pages s', palloc_get_multiple flags cnt s = Ok (pages, s') ∧ pages ≠ NULL ∧ kmem_inv s' ∧
     claims s (has flags PAL_USER) cnt pages s' ∧ ram s' = zeroed flags pages cnt (ram s)) ∨
  (exhausted (get_pool (has flags PAL_USER) s) cnt ∧
   palloc_get_multiple flags cnt s =
     if has flags PAL_ASSERT then Err KernelPanic else Ok (NULL, s)).
Proof.
  intros Hi Hc. unfold palloc_get_multiple. destruct (Z.eqb_spec cnt 0); [lia|]. set (user := has flags PAL_USER).
  rewrite getS_step. pose proof (get_pool_ok s user Hi) as Hp. pose proof (proj1 (po_wf _ _ Hp)) as Hn.
  destruct (scan_claims s user cnt Hi Hc) as [(r & b' & E & Hr & Hrc & Hb & Hi' & Hcl)|[E Hex]]; [left|right];
    erewrite pureM_step by exact E; cbv beta match; rewrite modS_step.
  - destruct (page_at_u32 _ _ r Hp) as [-> Hpg]; [lia|].
    destruct (Z.eqb_spec r BITMAP_ERROR) as [->|_]; [unfold pool_cnt, BITMAP_ERROR, SIZE_MAX in *; lia|].
    unfold PHYS_BASE in Hpg. cbn [negb]. set (pg := page_at (get_pool user s) r) in *.
    destruct (Z.eqb_spec pg NULL); [unfold NULL in *; lia|]. cbn [negb].
    unfold zeroed. destruct (has flags PAL_ZERO) eqn:Ez.
    + assert (pg = page_at (get_pool user (set_map user b' s)) r) as Epg by by destruct user.
      assert (pool_cnt (get_pool user (set_map user b' s)) = bit_cnt b') as Ecnt by by destruct user.
      exists pg, (set_ram (put_bytes pg (replicate (Z.to_nat (4096 * cnt)) (u8 0)) (ram s)) (set_map user b' s)).
      splits; [|done| |by destruct Hcl as (?&?&?&?&?&?)|done].
      * erewrite M_bind_step; [done|]. erewrite M_bind_step; [done|].
        erewrite on_ram_Ok; [done|]. rewrite Epg.
        rewrite memset_pages; [by rewrite ram_set_map|done|done|done|rewrite Ecnt; lia].
      * rewrite <- (ram_set_map s user b'). apply kmem_inv_set_ram; [done|]. by apply replicate_u8.
    + exists pg, (set_map user b' s). splits; try done. by destruct user.
  - split; [done|]. simpl. rewrite set_map_same. by destruct (has flags PAL_ASSERT).
Qed.

(** A request leaves the extent of the pools alone, and the other pool. *)
Lemma palloc_get_pool s flags cnt pages s1 user :
  kmem_inv s → 0 < cnt → palloc_get_multiple flags cnt s = Ok (pages, s1) →
  base (get_pool user s1) = base (get_pool user s) ∧
  pool_end (get_pool user s1) = pool_end (get_pool user s) ∧
  (user = negb (has flags PAL_USER) → get_pool user s1 = get_pool user s).
Proof.
  intros Hi Hc. unfold palloc_get_multiple. destruct (Z.eqb_spec cnt 0); [lia|]. rewrite getS_step.
  set (u := has flags PAL_USER). intros H. apply M_bind_Ok in H as ([idx b] & s' & E & H).
  unfold pureM in E. apply bind_Ok in E as (r & E & [= -> <-]). rewrite modS_step in H.
  assert (bit_cnt b = pool_cnt (get_pool u s)) as Hb.
  { destruct (scan_claims s u cnt Hi Hc) as [(r' & b2 & E2 & _ & _ & Hb & _)|[E2 _]];
      rewrite E in E2; by simplify_eq. }
  assert (base (get_pool user (set_map u b s)) = base (get_pool user s) ∧
          pool_end (get_pool user (set_map u b s)) = pool_end (get_pool user s) ∧
          (user = negb u → get_pool user (set_map u b s) = get_pool user s)) as Hs.
  { destruct u, user; simpl; unfold pool_end, pool_cnt in *; simpl in *; rewrite ?Hb; done. }
  apply M_bind_Ok in H as ([] & s2 & H & Er). injection Er as _ <-.
  match type of H with context [negb (?pg =? NULL)] => destruct (negb (pg =? NULL)) end.
  2: { destruct (has flags PAL_ASSERT); [done|by injection H as <-]. }
  destruct (has flags PAL_ZERO); [|by injection H as <-].
  apply M_bind_Ok in H as (? & s3 & H & Er). injection Er as <-. unfold on_ram in H.
  apply bind_Ok in H as ([? m] & _ & Er). injection Er as _ <-. by destruct user.
Qed.

Lemma in_pool_other s user a :
  kmem_inv s → in_pool (get_pool user s) a = true → in_pool (get_pool (negb user) s) a = false.
Proof.
  intros [[Hwk _ _ _] [Hwu _ _ _] Hd _] H. pose proof (proj1 Hwk). pose proof (proj1 Hwu).
  unfold in_pool, pool_end, pool_cnt in *.
  destruct user; simpl in *; bcases; simpl in *; try done; lia.
Qed.

(** Every byte of a claimed run was free. *)
Lemma claimed_was_free s user cnt pages s' a :
  kmem_inv s → claims s user cnt pages s' → pages <= a < pages + 4096 * cnt → page_in_use s a = false.
Proof.
  intros Hi (Ha & Hlo & Hhi & Hfree & _) Hr. set (p := get_pool user s) in *.
  pose proof (get_pool_ok s user Hi) as Hp. fold p in Hp.
  destruct (aligned_page p pages) as (r & ? & ->); [apply Hp|done..|].
  rewrite (page_in_use_pools s user). fold p.
  assert (in_pool p a = true) as Hin by (unfold in_pool, page_at, pool_end in *; bcases; simpl; lia || done).
  unfold in_use at 2. rewrite in_pool_other by done. simpl. rewrite orb_false_r.
  unfold page_at in Hr. specialize (Hfree ((a - base p) / 4096 - r)).
  pose proof (Z.div_mod (a - base p) 4096). pose proof (Z.mod_pos_bound (a - base p) 4096).
  unfold page_at, pool_end in Hlo, Hhi. rewrite page_at_offset, in_use_page_at in Hfree by lia.
  unfold in_use. rewrite Hin. simpl. rewrite <- Hfree by lia. f_equal. lia.
Qed.

(** What a request for [cnt] pages without [PAL_ASSERT] gives a client: pages
    of the pool that were free, or a null pointer. *)
Definition got_pages (s : kmem) (flags cnt pg : Z) (s' : kmem) : Prop :=
  let u := has flags PAL_USER in
  pg ≠ NULL ∧ kmem_inv s' ∧ pg mod 4096 = 0 ∧
  (∀ a, pg <= a < pg + 4096 * cnt → in_pool (get_pool u s) a = true ∧ in_use (get_pool u s) a = false) ∧
  (∀ a, in_use (get_pool u s') a = (pg <=? a) && (a <? pg + 4096 * cnt) || in_use (get_pool u s) a) ∧
  get_pool (negb u) s' = get_pool (negb u) s ∧ ram s' = zeroed flags pg cnt (ram s).

Lemma in_use_page_in_use s user a :
  kmem_inv s → in_pool (get_pool user s) a = true → in_use (get_pool user s) a = page_in_use s a.
Proof.
  intros Hi Ha. rewrite (page_in_use_pools s user). unfold in_use at 3.
  by rewrite in_pool_other, orb_false_r by done.
Qed.

Lemma palloc_got_pages s flags cnt :
  kmem_inv s → has flags PAL_ASSERT = false → 0 < cnt →
  (∃ pg s', palloc_get_multiple flags cnt s = Ok (pg, s') ∧ got_pages s flags cnt pg s') ∨
  palloc_get_multiple flags cnt s = Ok (NULL, s).
Proof.
  intros Hi Hf Hc.
  destruct (palloc_get_multiple_cases s flags cnt Hi Hc) as [(pg & s' & E & Hn & Hi' & Hcl & Hr)|[_ E]];
    [left|right; by rewrite E, Hf].
  exists pg, s'. split; [done|]. set (u := has flags PAL_USER) in *.
  destruct (palloc_get_pool s flags cnt pg s' u Hi Hc E) as (Hb & He & _).
  destruct (palloc_get_pool s flags cnt pg s' (negb u) Hi Hc E) as (_ & _ & Ho).
  pose proof Hcl as (Ha & Hlo & Hhi & _ & _ & Huse). unfold got_pages. fold u. splits; try done.
  - intros a Hpa. assert (in_pool (get_pool u s) a = true) as Hin by (unfold in_pool; bcases; simpl; done || lia).
    split; [done|]. rewrite in_use_page_in_use by done. by eapply claimed_was_free.
  - intros a. destruct (in_pool (get_pool u s) a) eqn:Ein.
    + rewrite !in_use_page_in_use; [|done|done|done|unfold in_pool in *; by rewrite Hb, He]. apply Huse.
    + unfold in_use. assert (in_pool (get_pool u s') a = false) as -> by (unfold in_pool in *; by rewrite Hb, He).
      rewrite Ein. unfold in_pool in Ein. bcases; simpl in *; done || lia.
  - by apply Ho.
Qed.

(** The same for a single page. *)
Definition got_page (s : kmem) (flags pg : Z) (s' : kmem) : Prop :=
  let u := has flags PAL_USER in
  pg ≠ NULL ∧ kmem_inv s' ∧ pg mod 4096 = 0 ∧ in_pool (get_pool u s) pg = true ∧
  in_use (get_pool u s) pg = false ∧
  (∀ a, in_use (get_pool u s') a = (pg <=? a) && (a <? pg + 4096) || in_use (get_pool u s) a) ∧
  get_pool (negb u) s' = get_pool (negb u) s ∧ ram s' = zeroed flags pg 1 (ram s).

Lemma palloc_get_page_cases s flags :
  kmem_inv s → has flags PAL_ASSERT = false →
  (∃ pg s', palloc_get_page flags s = Ok (pg, s') ∧ got_page s flags pg s') ∨
  palloc_get_page flags s = Ok (NULL, s).
Proof.
  intros Hi Hf. unfold palloc_get_page.
  destruct (palloc_got_pages s flags 1 Hi Hf ltac:(lia)) as [(pg & s' & E & Hg)|E]; [left|by right].
  exists pg, s'. split; [done|]. destruct Hg as (? & ? & ? & Hfree & ? & ? & ?).
  destruct (Hfree pg ltac:(lia)). unfold got_page. splits; done.
Qed.

(** No page is returned only if none is free. *)
Lemma palloc_get_page_none s flags s' : kmem_inv s → palloc_get_page flags s = Ok (NULL, s') →
  exhausted (get_pool (has flags PAL_USER) s) 1.
Proof.
  intros Hk E. unfold palloc_get_page in E.
  destruct (palloc_get_multiple_cases s flags 1 Hk ltac:(lia)) as [(pg & k2 & E2 & Hn & _)|[Hex _]]; [|done].
  rewrite E in E2. by injection E2 as <- <-.
Qed.

(** A page of the kernel pool that is in use. *)
Definition kernel_page (s : kmem) (pg : Z) : Prop :=
  pg mod 4096 = 0 ∧ in_use (kernel_pool s) pg = true.

Lemma kernel_page_facts s pg : kmem_inv s → kernel_page s pg →
  pg mod 4096 = 0 ∧ PHYS_BASE <= pg ∧ pg + 4096 <= 4294967296 ∧ mapped (ram s) pg (Z.to_nat 4096).
Proof.
  intros [Hk _ _ _] [Ha Hu]. unfold in_use, in_pool in Hu.
  apply andb_true_iff in Hu as [Hin _]. apply andb_true_iff in Hin as [Hlo%Z.leb_le Hhi%Z.ltb_lt].
  destruct (aligned_page (kernel_pool s) pg) as (k & ? & ->); [apply Hk|done..|].
  unfold page_at, pool_end in Hhi. assert (k < pool_cnt (kernel_pool s)) by lia.
  pose proof (pool_page_mapped _ _ k 1 Hk ltac:(lia) ltac:(lia) ltac:(lia)) as Hm.
  destruct Hk as [_ _ Hb He _]. unfold page_at, pool_end, PHYS_BASE in *. splits; try done; lia.
Qed.

(** Words of different pages, or different words of a page, do not overlap. *)
Lemma words_apart p q i j :
  p mod 4096 = 0 → q mod 4096 = 0 → 0 <= i < 1024 → 0 <= j < 1024 → p ≠ q ∨ i ≠ j →
  q + 4 * j + 4 <= p + 4 * i ∨ p + 4 * i + 4 <= q + 4 * j.
Proof.
  intros Hp Hq Hi Hj Hne. pose proof (Z.div_mod p 4096). pose proof (Z.div_mod q 4096).
  destruct (Z.eq_dec p q) as [->|]; lia.
Qed.

(** * Release *)

Lemma page_from_pool_in p m page :
  pool_ok p m → 0 <= page → page_from_pool p page = in_pool p page.
Proof.
  intros [Hw Ha Hk He _] Hpg. pose proof (proj1 Hw).
  unfold page_from_pool, in_pool, pool_end, pool_cnt, bitmap_size, PHYS_BASE in *.
  rewrite !pg_no_div. pose proof (Z.div_mod (base p) 4096). pose proof (Z.div_mod page 4096).
  pose proof (Z.mod_pos_bound page 4096).
  rewrite u32_small by lia.
  f_equal; bcases; done || lia.
Qed.

(** The pool a page of a pool is found in. *)
Lemma find_pool s user page :
  kmem_inv s → in_pool (get_pool user s) page = true → 0 <= page →
  (if page_from_pool (kernel_pool s) page then mret false
   else if page_from_pool (user_pool s) page then mret true
   else fail KernelPanic) s = Ok (user, s).
Proof.
  intros Hi Hp Hpg. pose proof (in_pool_other s user page Hi Hp) as Ho.
  erewrite !page_from_pool_in by (apply Hi || done). destruct user; simpl in *; by rewrite Hp, ?Ho.
Qed.

Lemma page_idx_at p m r : pool_ok p m → 0 <= r < pool_cnt p →
  u32 (pg_no (page_at p r) - pg_no (base p)) = r.
Proof.
  intros [] Hr. rewrite !pg_no_div. unfold page_at, pool_end, PHYS_BASE in *.
  rewrite (Z.mul_comm 4096 r), Z.div_add by lia. rewrite Z.add_simpl_l. by rewrite u32_small by lia.
Qed.

(** Releasing pages [r, r + cnt) of a pool. *)
Lemma free_pages s user r cnt :
  kmem_inv s → 0 <= r → 0 < cnt → r + cnt <= pool_cnt (get_pool user s) →
  let p := get_pool user s in
  ∃ all b', bitmap_all (used_map p) r cnt = Ok all ∧
    (all = true ↔ ∀ i, 0 <= i < cnt → in_use p (page_at p r + 4096 * i) = true) ∧
    bitmap_set_multiple (used_map p) r cnt false = Ok b' ∧
    bitmap_wf b' ∧ bit_cnt b' = pool_cnt p ∧
    palloc_free_multiple (page_at p r) cnt s =
      if all then Ok ((), set_map user b' (set_ram (put_bytes (page_at p r)
                        (replicate (Z.to_nat (4096 * cnt)) 204) (ram s)) s))
      else Err AssertFail.
Proof.
  intros Hi Hr Hc Hrc p. pose proof (get_pool_ok s user Hi) as Hp. fold p in Hp, Hrc.
  destruct (page_at_u32 p _ r Hp ltac:(lia)) as [_ Hpg]. unfold PHYS_BASE in Hpg.
  destruct (bitmap_all_spec (used_map p) r cnt) as (all & Ea & Hall); [apply Hp|lia|lia|done|].
  destruct (bitmap_set_multiple_put (used_map p) r cnt false) as (b' & Eb & Hw & Hb & _);
    [apply Hp|lia|lia|done|].
  exists all, b'. splits; try done.
  { rewrite Hall. split.
    - intros H i Hi'. rewrite page_at_offset, in_use_page_at by lia. apply H. lia.
    - intros H k Hk. rewrite <- in_use_page_at by lia. replace k with (r + (k - r)) by lia.
      rewrite <- page_at_offset. apply H. lia. }
  unfold palloc_free_multiple. erewrite M_bind_step.
  2: { apply check_true, Z.eqb_eq. rewrite pg_ofs_mod. apply page_at_aligned, Hp. }
  destruct (Z.eqb_spec (page_at p r) NULL); [unfold NULL in *; lia|].
  destruct (Z.eqb_spec cnt 0); [lia|]. cbn [orb]. rewrite getS_step.
  erewrite M_bind_step.
  2: { apply (find_pool s user); [done| |lia]. unfold in_pool. fold p.
       unfold page_at, pool_end in *. bcases; simpl; try done; lia. }
  fold p. erewrite page_idx_at by (done || lia).
  erewrite M_bind_step by (apply on_ram_Ok; by apply memset_pages).
  erewrite pureM_step by exact Ea. destruct all; [|done].
  erewrite M_bind_step by by apply check_true. by erewrite pureM_step by exact Eb.
Qed.

(** The outcomes of a request to release pages of a pool. *)
Lemma palloc_free_multiple_cases s user pages cnt :
  kmem_inv s → 0 < cnt → pages mod 4096 = 0 → base (get_pool user s) <= pages →
  pages + 4096 * cnt <= pool_end (get_pool user s) →
  ((∀ i, 0 <= i < cnt → page_in_use s (pages + 4096 * i) = true) →
   ∃ s', palloc_free_multiple pages cnt s = Ok ((), s') ∧ kmem_inv s' ∧
     (∀ a, page_in_use s' a = negb ((pages <=? a) && (a <? pages + 4096 * cnt)) && page_in_use s a) ∧
     ram s' = put_bytes pages (replicate (Z.to_nat (4096 * cnt)) 204) (ram s)) ∧
  ((∃ i, 0 <= i < cnt ∧ page_in_use s (pages + 4096 * i) = false) →
   palloc_free_multiple pages cnt s = Err AssertFail).
Proof.
  intros Hi Hc Ha Hlo Hhi. set (p := get_pool user s) in *. pose proof (get_pool_ok s user Hi) as Hp. fold p in Hp.
  destruct (aligned_page p pages) as (r & Hr & ->); [apply Hp|done..|].
  unfold page_at, pool_end in Hhi. assert (r + cnt <= pool_cnt p) as Hrc by lia.
  assert (∀ a, base p <= a < pool_end p → page_in_use s a = in_use p a) as Hin.
  { intros a Hpa. rewrite (page_in_use_pools s user). fold p. unfold in_use at 2.
    rewrite (in_pool_other s user a); [apply orb_false_r|done|]. fold p. unfold in_pool. bcases; simpl; lia || done. }
  destruct (free_pages s user r cnt Hi Hr Hc Hrc) as (all & b' & _ & Hall & Eb & Hw & Hb & E).
  fold p in Hall, Eb, Hb, E. rewrite E.
  assert (∀ i, 0 <= i < cnt → page_in_use s (page_at p r + 4096 * i) = in_use p (page_at p r + 4096 * i)) as Hin'.
  { intros. apply Hin. unfold page_at, pool_end. lia. }
  split.
  - intros H. assert (all = true) as -> by (apply Hall; intros; by rewrite <- Hin', H).
    eexists. splits; [done| | |by rewrite ram_set_map].
    + apply kmem_inv_set_map; [|done|by rewrite Hb; destruct user].
      apply kmem_inv_set_ram; [done|]. by apply replicate_u8.
    + intros a. rewrite page_in_use_set_map.
      assert (∀ u m, get_pool u (set_ram m s) = get_pool u s) as Hgp by by intros [].
      rewrite !Hgp, (page_in_use_pools s user). fold p.
      rewrite (in_use_set_map p b' r cnt false); [|done|done|done|].
      2: { destruct (bitmap_set_multiple_put (used_map p) r cnt false) as (b2 & E2 & _ & _ & Hg);
             [apply Hp|lia|lia|done|]. rewrite Eb in E2. by simplify_eq. }
      case_match eqn:Erange; [|done]. simpl. unfold in_use. rewrite (in_pool_other s user a); [done..|].
      fold p. apply andb_true_iff in Erange as [?%Z.leb_le ?%Z.ltb_lt]. unfold in_pool, page_at, pool_end in *.
      bcases; simpl; done || lia.
  - intros (i & Hi' & Hf). destruct all; [|done].
    rewrite Hin' in Hf by done. rewrite (proj1 Hall eq_refl i Hi') in Hf. done.
Qed.

(** Releasing pages of a pool, for a client. *)
Lemma palloc_free_pool s user pg cnt :
  let p := get_pool user s in
  kmem_inv s → 0 < cnt → pg mod 4096 = 0 →
  (∀ i, 0 <= i < cnt → in_use p (pg + 4096 * i) = true) →
  ∃ s', palloc_free_multiple pg cnt s = Ok ((), s') ∧ kmem_inv s' ∧
    base (get_pool user s') = base p ∧ pool_end (get_pool user s') = pool_end p ∧
    (∀ a, in_use (get_pool user s') a = negb ((pg <=? a) && (a <? pg + 4096 * cnt)) && in_use p a) ∧
    get_pool (negb user) s' = get_pool (negb user) s ∧
    ram s' = put_bytes pg (replicate (Z.to_nat (4096 * cnt)) 204) (ram s).
Proof.
  intros p Hi Hc Ha Huse. pose proof (get_pool_ok s user Hi) as Hp. fold p in Hp.
  assert (∀ i, 0 <= i < cnt → in_pool p (pg + 4096 * i) = true) as Hin.
  { intros i Hi'. specialize (Huse i Hi'). by apply andb_true_iff in Huse as [? _]. }
  assert (base p <= pg ∧ pg + 4096 * (cnt - 1) < pool_end p) as [Hlo Hhi].
  { pose proof (Hin 0 ltac:(lia)) as H0. pose proof (Hin (cnt - 1) ltac:(lia)) as H1.
    unfold in_pool in H0, H1. apply andb_true_iff in H0 as [?%Z.leb_le _].
    apply andb_true_iff in H1 as [_ ?%Z.ltb_lt]. lia. }
  destruct (aligned_page p pg) as (r & Hr & ->); [apply Hp|done..|].
  assert (r + cnt <= pool_cnt p) as Hrc by (unfold page_at, pool_end in Hhi; lia).
  destruct (free_pages s user r cnt Hi Hr Hc Hrc) as (all & b' & _ & Hall & Eb & Hw & Hb & E).
  fold p in Hall, Eb, Hb, E. assert (all = true) as -> by by apply Hall.
  set (m := put_bytes (page_at p r) (replicate (Z.to_nat (4096 * cnt)) 204) (ram s)) in *.
  eexists. split; [exact E|].
  assert (get_pool user (set_map user b' (set_ram m s)) = mkPool b' (base p)) as Eg by (unfold p; by destruct user).
  rewrite !Eg. splits.
  - apply kmem_inv_set_map; [|done|unfold p in Hb; by destruct user].
    apply kmem_inv_set_ram; [done|]. by apply replicate_u8.
  - done.
  - unfold pool_end, pool_cnt in *. simpl. by rewrite Hb.
  - intros a. rewrite (in_use_set_map p b' r cnt false); [|done|done|done|].
    2: { destruct (bitmap_set_multiple_put (used_map p) r cnt false) as (b2 & E2 & _ & _ & Hg);
           [apply Hp|lia|lia|done|]. rewrite Eb in E2. by simplify_eq. }
    by case_match.
  - by destruct user.
  - by destruct user.
Qed.

Lemma palloc_free_kernel s pg cnt :
  kmem_inv s → 0 < cnt → pg mod 4096 = 0 →
  (∀ i, 0 <= i < cnt → in_use (kernel_pool s) (pg + 4096 * i) = true) →
  ∃ s', palloc_free_multiple pg cnt s = Ok ((), s') ∧ kmem_inv s' ∧
    (∀ a, in_use (kernel_pool s') a =
       negb ((pg <=? a) && (a <? pg + 4096 * cnt)) && in_use (kernel_pool s) a) ∧
    user_pool s' = user_pool s ∧
    ram s' = put_bytes pg (replicate (Z.to_nat (4096 * cnt)) 204) (ram s).
Proof.
  intros Hi Hc Ha Huse. destruct (palloc_free_pool s false pg cnt Hi Hc Ha Huse) as (s' & ? & ? & _ & _ & ? & ? & ?).
  by exists s'.
Qed.

(** * Initialization *)

Lemma elem_cnt_ceil n : 0 <= n <= 1048576 → elem_cnt n = (n + 31) / 32.
Proof. intros. unfold elem_cnt, ELEM_BITS. rewrite DIV_ROUND_UP_exact by lia. f_equal. lia. Qed.

Lemma buf_size_eq n : 0 <= n <= 1048576 → bitmap_buf_size n = 8 + 4 * ((n + 31) / 32).
Proof.
  intros. unfold bitmap_buf_size, byte_cnt, sizeof_struct_bitmap, sizeof_elem_type.
  rewrite elem_cnt_ceil by done. assert (0 <= (n + 31) / 32 <= 32768 + 1).
  { split; [apply Z.div_pos; lia|]. apply Z.div_le_upper_bound; lia. }
  by widths.
Qed.

Lemma rd_words_wf m buf n cnt :
  mem_bytes m → 0 <= cnt <= 1048576 → n = elem_cnt cnt → bitmap_wf (mkBitmap cnt (buffer_words m buf n)).
Proof.
  intros Hm Hc ->. assert (0 <= elem_cnt cnt) by (rewrite elem_cnt_ceil by done; apply Z.div_pos; lia).
  split; simpl; [lia|]. split.
  - unfold buffer_words. rewrite length_fmap, length_seq. rewrite Z2Nat.id by done.
    rewrite elem_cnt_ceil by done. done.
  - apply Forall_fmap, Forall_forall. intros i _. by apply rd32_range.
Qed.

(** A pool of [n] pages from [b0] on gives up its first pages to the bitmap
    and starts with the rest of them free. *)
Lemma init_pool_Ok m b0 n :
  mem_bytes m → 1 <= n → b0 mod 4096 = 0 → PHYS_BASE <= b0 → b0 + 4096 * n < 4294967296 →
  mapped m b0 (Z.to_nat (4096 * n)) →
  ∃ p, init_pool m b0 n = Ok p ∧ pool_ok p m ∧ b0 < base p ∧ pool_end p = b0 + 4096 * n ∧
    ∀ a, in_use p a = false.
Proof.
  intros Hm Hn Ha Hk He Hmap. unfold init_pool, PHYS_BASE in *. rewrite buf_size_eq by lia.
  set (z := 8 + 4 * ((n + 31) / 32)).
  assert (8 <= z <= 8 + 4 * n) as Hz.
  { unfold z. assert (0 <= (n + 31) / 32 <= n); [|lia].
    split; [apply Z.div_pos; lia|apply Z.div_le_upper_bound; lia]. }
  rewrite DIV_ROUND_UP_exact by (unfold PGSIZE; lia). unfold PGSIZE.
  set (bm := (z + 4096 - 1) / 4096).
  assert (1 <= bm <= n) as Hbm.
  { unfold bm. split; [apply Z.div_le_lower_bound; lia|apply Z.lt_succ_r, Z.div_lt_upper_bound; lia]. }
  assert (z <= bm * 4096) as Hzb.
  { unfold bm. pose proof (Z.div_mod (z + 4096 - 1) 4096). pose proof (Z.mod_pos_bound (z + 4096 - 1) 4096). lia. }
  destruct (Z.ltb_spec n bm); [lia|]. rewrite !(u32_small (n - bm)), !(u32_small (bm * 4096)), (u32_small (b0 + _)) by lia.
  unfold bitmap_create_in_buf, bitmap_set_all, bitmap_size. cbn [bit_cnt].
  rewrite assert_true.
  2: { apply Z.leb_le. rewrite buf_size_eq by lia.
       assert ((n - bm + 31) / 32 <= (n + 31) / 32) by (apply Z.div_le_mono; lia). unfold z in Hzb. lia. }
  pose proof (rd_words_wf m b0 _ (n - bm) Hm ltac:(lia) eq_refl) as Hw.
  destruct (bitmap_set_multiple_put _ 0 (n - bm) false Hw) as (b' & E & Hw' & Hc' & Hg); simpl; [lia..|].
  rewrite E. cbn [mbind outcome_bind]. eexists. simpl in Hc'. split; [done|].
  unfold pool_end, pool_cnt; simpl. rewrite Hc'. splits; [|lia|lia|].
  - split; unfold pool_end, pool_cnt, PHYS_BASE; simpl; rewrite ?Hc'; try done; try lia.
    + by rewrite Z.mod_add.
    + eapply mapped_sub; [exact Hmap|lia|lia].
  - intros a. unfold in_use, in_pool, pool_end, pool_cnt; simpl. rewrite Hc'.
    destruct (Z.leb_spec (b0 + bm * 4096) a), (Z.ltb_spec a (b0 + bm * 4096 + 4096 * (n - bm))); simpl; try done.
    rewrite Hg by (apply Z.div_pos; lia).
    assert ((a - (b0 + bm * 4096)) / 4096 < n - bm) by (apply Z.div_lt_upper_bound; lia).
    assert (0 <= (a - (b0 + bm * 4096)) / 4096) by (apply Z.div_pos; lia). by bcases; simpl; try lia.
Qed.

(** [palloc_init] splits the memory between the end of the kernel and the
    end of RAM into two sound, disjoint pools with every page free; the user
    pool gets half of it, at most [user_page_limit] pages. *)
Lemma palloc_init_correct kernel_end ram_pages limit m
  (Hk : PHYS_BASE <= kernel_end) (Hram : 0 <= ram_pages <= 262143)
  (Hfree : kernel_end + 4096 * 3 <= PHYS_BASE + ram_pages * 4096) (Hlim : 1 <= limit)
  (Hm : mem_bytes m) (Hmap : ∀ a, kernel_end <= a < PHYS_BASE + ram_pages * 4096 → is_Some (m !! a)) :
  ∃ s, palloc_init kernel_end ram_pages limit m = Ok s ∧ kmem_inv s ∧ ram s = m ∧
    (∀ a, page_in_use s a = false) ∧
    kernel_end < base (kernel_pool s) ∧ pool_end (user_pool s) = PHYS_BASE + ram_pages * 4096 ∧
    pool_cnt (user_pool s) < limit.
Proof.
  unfold palloc_init, PHYS_BASE in *. rewrite pg_round_up_eq by lia.
  set (fs := (kernel_end + 4095) / 4096 * 4096).
  assert (kernel_end <= fs < kernel_end + 4096 ∧ fs mod 4096 = 0) as [Hfs Hfs0].
  { unfold fs. pose proof (Z.div_mod (kernel_end + 4095) 4096).
    pose proof (Z.mod_pos_bound (kernel_end + 4095) 4096). rewrite Z.mod_mul by lia. lia. }
  unfold ptov, PGSIZE, PHYS_BASE. rewrite (u32_small (ram_pages * 4096)) by lia.
  rewrite assert_true by (apply Z.ltb_lt; lia). rewrite u32_small by lia. cbn [mbind outcome_bind].
  rewrite (u32_small (_ - fs)) by lia. set (fp := (ram_pages * 4096 + 3221225472 - fs) / 4096).
  assert (4096 * fp = ram_pages * 4096 + 3221225472 - fs) as Hfp.
  { unfold fp. assert ((ram_pages * 4096 + 3221225472 - fs) mod 4096 = 0); [|pose proof (Z.div_mod (ram_pages * 4096 + 3221225472 - fs) 4096); lia].
    replace (ram_pages * 4096 + 3221225472 - fs) with (- fs + (ram_pages + 786432) * 4096) by lia.
    rewrite Z.mod_add by lia. by apply Z.mod_opp_l_z. }
  set (up := if limit <? fp / 2 then limit else fp / 2).
  assert (1 <= up <= fp / 2 ∧ up <= limit) as [Hup Hlim'].
  { unfold up. assert (1 <= fp / 2) by (apply Z.div_le_lower_bound; lia). bcases; lia. }
  assert (up + up <= fp) by (pose proof (Z.div_mod fp 2); pose proof (Z.mod_pos_bound fp 2); lia).
  rewrite (u32_small (fp - up)), (u32_small (_ * 4096)), (u32_small (fs + _)) by lia.
  assert (∀ b n, fs <= b → 0 <= n → b + 4096 * n <= fs + 4096 * fp → mapped m b (Z.to_nat (4096 * n))) as Hmp.
  { intros b n ??? i Hi. apply Hmap. lia. }
  destruct (init_pool_Ok m fs (fp - up)) as (k & -> & Hpk & Hbk & Hek & Hfk);
    [done|lia|done|unfold PHYS_BASE; lia|lia|apply Hmp; lia|].
  cbn [mbind outcome_bind].
  destruct (init_pool_Ok m (fs + (fp - up) * 4096) up) as (u & -> & Hpu & Hbu & Heu & Hfu);
    [done|lia|by rewrite Z.mod_add|unfold PHYS_BASE; lia|lia|apply Hmp; lia|].
  eexists. split; [done|]. simpl. splits; try done; try lia.
  - split; simpl; try done. lia.
  - intros a. unfold page_in_use; simpl. by rewrite Hfk, Hfu.
  - unfold pool_end in Heu. lia.
Qed.

(** * The allocator *)

(** C20: a request for pages takes the lowest run of free pages of its pool,
    zeroes it if asked, and changes nothing else; with no such run it returns
    a null pointer, or panics if the caller asked for that; a request for no
    pages returns a null pointer. *)
Theorem palloc_get_multiple_correct s flags cnt (Hi : kmem_inv s) (Hc : 0 <= cnt) :
  (cnt = 0 ∧ palloc_get_multiple flags cnt s = Ok (NULL, s)) ∨
  (∃ pages s', palloc_get_multiple flags cnt s = Ok (pages, s') ∧ pages ≠ NULL ∧ kmem_inv s' ∧
     claims s (has flags PAL_USER) cnt pages s' ∧ ram s' = zeroed flags pages cnt (ram s)) ∨
  (exhausted (get_pool (has flags PAL_USER) s) cnt ∧
   palloc_get_multiple flags cnt s =
     if has flags PAL_ASSERT then Err KernelPanic else Ok (NULL, s)).
Proof.
  destruct (Z.eq_dec cnt 0) as [->|]; [by left|right].
  apply palloc_get_multiple_cases; [done|lia].
Qed.

(** Pages obtained by a request can be released, and the release undoes
    the request: exactly the same pages are in use as before it. *)
Theorem palloc_get_free_roundtrip s flags cnt pages s1
  (Hi : kmem_inv s) (Hc : 0 < cnt) (Hpg : pages ≠ NULL)
  (Hget : palloc_get_multiple flags cnt s = Ok (pages, s1)) :
  ∃ s2, palloc_free_multiple pages cnt s1 = Ok ((), s2) ∧ kmem_inv s2 ∧
    (∀ a, page_in_use s2 a = page_in_use s a) ∧
    (∀ a, a < pages ∨ pages + 4096 * cnt <= a → ram s2 !! a = ram s !! a).
Proof.
  destruct (palloc_get_multiple_cases s flags cnt Hi Hc)
    as [(p & s' & E & _ & Hi1 & Hcl & Hram)|[_ E]];
    rewrite Hget in E; [|by destruct (has flags PAL_ASSERT); simplify_eq]. injection E as <- <-.
  pose proof Hcl as (Ha & Hlo & Hhi & Hfree & _ & Huse). set (user := has flags PAL_USER) in *.
  assert (base (get_pool user s1) = base (get_pool user s) ∧ pool_end (get_pool user s1) = pool_end (get_pool user s))
    as [Hb He].
  { by edestruct (palloc_get_pool s flags cnt pages s1 user) as (? & ? & _). }
  destruct (palloc_free_multiple_cases s1 user pages cnt Hi1 Hc) as [Hok _]; [done|lia|lia|].
  destruct Hok as (s2 & E2 & Hi2 & Hu2 & Hr2).
  { intros i Hi'. rewrite Huse. bcases; simpl; done || lia. }
  exists s2. splits; [done|done| |].
  - intros a. rewrite Hu2, Huse. destruct ((pages <=? a) && (a <? pages + 4096 * cnt)) eqn:Er; simpl; [|done].
    apply andb_true_iff in Er as [?%Z.leb_le ?%Z.ltb_lt]. symmetry. by eapply claimed_was_free.
  - intros a Hd. rewrite Hr2, put_bytes_ne by (rewrite length_replicate; lia).
    rewrite Hram. unfold zeroed. case_match; [|done]. rewrite put_bytes_ne by (rewrite length_replicate; lia). done.
Qed.

(** The other requests to release pages: an address that is not a page's
    fails an assertion, a page of neither pool panics, a run of a pool's pages
    of which one is not in use (a double free) fails an assertion, and a null
    pointer or a count of zero does nothing. *)
Theorem palloc_free_multiple_errors s pages cnt (Hi : kmem_inv s) (Hpg : is_u32 pages) :
  (pages mod 4096 ≠ 0 → palloc_free_multiple pages cnt s = Err AssertFail) ∧
  (pages mod 4096 = 0 → pages = NULL ∨ cnt = 0 → palloc_free_multiple pages cnt s = Ok ((), s)) ∧
  (pages mod 4096 = 0 → pages ≠ NULL → cnt ≠ 0 →
   in_pool (kernel_pool s) pages = false → in_pool (user_pool s) pages = false →
   palloc_free_multiple pages cnt s = Err KernelPanic) ∧
  (∀ user i, pages mod 4096 = 0 → base (get_pool user s) <= pages →
   pages + 4096 * cnt <= pool_end (get_pool user s) →
   0 <= i < cnt → page_in_use s (pages + 4096 * i) = false →
   palloc_free_multiple pages cnt s = Err AssertFail).
Proof.
  splits; [unfold palloc_free_multiple..|].
  - intros H. unfold mbind, M_bind, check. rewrite pg_ofs_mod. by destruct (Z.eqb_spec (pages mod 4096) 0).
  - intros H Hz. erewrite M_bind_step by (apply check_true, Z.eqb_eq; by rewrite pg_ofs_mod).
    destruct Hz as [->| ->]; [done|]. by rewrite orb_true_r.
  - intros H Hn Hc Hk Hu. erewrite M_bind_step by (apply check_true, Z.eqb_eq; by rewrite pg_ofs_mod).
    destruct (Z.eqb_spec pages NULL), (Z.eqb_spec cnt 0); try done. cbn [orb]. rewrite getS_step.
    unfold is_u32 in *. erewrite !page_from_pool_in by (apply Hi || lia). by rewrite Hk, Hu.
  - intros user i Ha Hlo Hhi Hr Hf. eapply (palloc_free_multiple_cases s user); [done|lia|done..|by exists i].
Qed.

(** A kernel pool of three pages, the first in use, below a user pool of two. *)
Definition sample_kmem : kmem :=
  mkKmem (mkPool (mkBitmap 3 [1]) 3222274048) (mkPool (mkBitmap 2 [0]) 3222286336)
         (put_bytes 3222274048 (replicate (Z.to_nat 20480) 0) ∅).

Lemma sample_kmem_inv : kmem_inv sample_kmem.
Proof.
  assert (∀ q n, 3222274048 <= q → q + Z.of_nat n <= 3222294528 → mapped (ram sample_kmem) q n) as Hm.
  { intros q n ??. apply (mapped_sub _ 3222274048 (Z.to_nat 20480)); [|done|lia].
    rewrite <- (length_replicate (Z.to_nat 20480) 0) at 1. apply bytes_at_mapped, put_bytes_at. }
  split.
  - split; [|done..|by apply Hm]. split; [simpl; lia|]. split; [by vm_compute|]. by repeat constructor.
  - split; [|done..|by apply Hm]. split; [simpl; lia|]. split; [by vm_compute|]. by repeat constructor.
  - done.
  - apply mem_bytes_put; [apply map_Forall_empty|]. by apply replicate_u8.
Qed.

(** The page a call returns. *)
Definition result {A S} (r : outcome (A * S)) : option A :=
  match r with Ok (a, _) => Some a | Err _ => None end.

Lemma palloc_get_multiple_witness :
  result (palloc_get_multiple 0 3 sample_kmem) = Some NULL ∧
  palloc_get_multiple PAL_ASSERT 3 sample_kmem = Err KernelPanic ∧
  ∃ pages s', palloc_get_multiple PAL_ZERO 2 sample_kmem = Ok (pages, s') ∧ pages = 3222278144 ∧
    claims sample_kmem false 2 pages s'.
Proof.
  split; [by vm_compute|]. split; [by vm_compute|].
  assert (result (palloc_get_multiple PAL_ZERO 2 sample_kmem) = Some 3222278144) as E by by vm_compute.
  destruct (palloc_get_multiple_correct sample_kmem PAL_ZERO 2 sample_kmem_inv ltac:(lia))
    as [[? _]|[(pages & s' & E' & _ & _ & H & _)|[_ E']]]; [lia| |]; rewrite E' in E.
  - injection E as ->. eauto.
  - discriminate E.
Defined.

Lemma palloc_get_free_roundtrip_witness :
  ∃ s1, palloc_get_multiple PAL_USER 2 sample_kmem = Ok (3222286336, s1) ∧
    ∃ s2, palloc_free_multiple 3222286336 2 s1 = Ok ((), s2) ∧
      (∀ a, page_in_use s2 a = page_in_use sample_kmem a).
Proof.
  eexists. assert (palloc_get_multiple PAL_USER 2 sample_kmem =
    Ok (3222286336, set_map true (mkBitmap 2 [3]) sample_kmem)) as E.
  { reflexivity. }
  split; [exact E|].
  destruct (palloc_get_free_roundtrip sample_kmem PAL_USER 2 3222286336 _ sample_kmem_inv
    ltac:(lia) ltac:(discriminate) E) as (s2 & E2 & _ & H & _). eauto.
Defined.

Lemma palloc_free_multiple_errors_witness :
  palloc_free_multiple 3222274049 1 sample_kmem = Err AssertFail ∧
  palloc_free_multiple 3222269952 1 sample_kmem = Err KernelPanic ∧
  palloc_free_multiple 3222274048 2 sample_kmem = Err AssertFail.
Proof.
  splits.
  - apply (palloc_free_multiple_errors sample_kmem 3222274049 1 sample_kmem_inv); [by unfold is_u32|by vm_compute].
  - apply (palloc_free_multiple_errors sample_kmem 3222269952 1 sample_kmem_inv);
      [by unfold is_u32|by vm_compute..].
  - apply (palloc_free_multiple_errors sample_kmem 3222274048 2 sample_kmem_inv)
      with (user := false) (i := 1); by vm_compute.
Defined.
