(* ===== verification/Pagedir.v ===== *)
(** Page directories (userprog/pagedir.c): the two-level page tables of the
    i386, kept in pages of kernel memory obtained from the page allocator.

    Of the processor the model keeps the page directory base register and the
    translation lookaside buffer, which loading that register empties. *)
From S2P Require Import Prelude Mem Str Word Bitmap FreeMap Vaddr Palloc.

Record mmu := mkMmu { km : kmem; base_page_dir : Z; cr3 : Z; tlb : gmap Z Z }.
Abbreviation PM := (M mmu).

Definition set_km (k : kmem) (s : mmu) : mmu := mkMmu k (base_page_dir s) (cr3 s) (tlb s).
Definition on_km {A} (f : KM A) : PM A := λ s, '(a, k) ← f (km s); Ok (a, set_km k s).
Definition ld (p : Z) : PM Z := on_km (on_ram (load32 p)).
Definition st (p w : Z) : PM () := on_km (on_ram (store32 p w)).

(** [movl cr3] loads and reads the base register. *)
Definition load_cr3 (w : Z) : PM () := modS (λ s, mkMmu (km s) (base_page_dir s) w ∅).
Definition active_pd : PM Z := s ← getS; pureM (ptov (cr3 s)).

Definition pagedir_activate (pd : Z) : PM () :=
  s ← getS;
  let pd := if pd =? NULL then base_page_dir s else pd in
  w ← pureM (vtop pd);
  load_cr3 w.

Definition invalidate_pagedir (pd : Z) : PM () :=
  a ← active_pd;
  if a =? pd then pagedir_activate pd else mret ().

Definition pagedir_create : PM Z :=
  s ← getS;
  pd ← on_km (palloc_get_page 0);
  (if negb (pd =? NULL) then on_km (on_ram (memcpy pd (base_page_dir s) PGSIZE));; mret () else mret ());;
  mret pd.

(** Is there a page table behind [*pde], creating one if requested? *)
Definition ensure_table (pde : Z) (create : bool) : PM bool :=
  e ← ld pde;
  if e =? 0 then
    if create then
      pt ← on_km (palloc_get_page PAL_ZERO);
      if pt =? NULL then mret false
      else w ← pureM (pde_create pt); st pde w;; mret true
    else mret false
  else mret true.

Definition lookup_page (pd vaddr : Z) (create : bool) : PM Z :=
  check (negb (pd =? NULL));;
  check (negb create || is_user_vaddr vaddr);;
  let pde := u32 (pd + 4 * pd_no vaddr) in
  found ← ensure_table pde create;
  if (found : bool) then
    e ← ld pde;
    pt ← pureM (pde_get_pt e);
    mret (u32 (pt + 4 * pt_no vaddr))
  else mret NULL.

(** [ram_pages]: the pages of physical memory (threads/init.c). *)
Definition pagedir_set_page (ram_pages : Z) (pd upage kpage : Z) (writable : bool) : PM bool :=
  check (pg_ofs upage =? 0);;
  check (pg_ofs kpage =? 0);;
  check (is_user_vaddr upage);;
  p ← pureM (vtop kpage);
  check (Z.shiftr p PTSHIFT <? ram_pages);;
  s ← getS;
  check (negb (pd =? base_page_dir s));;
  pte ← lookup_page pd upage true;
  if negb (pte =? NULL) then
    e ← ld pte;
    check (Z.land e PTE_P =? 0);;
    w ← pureM (pte_create_user kpage writable);
    st pte w;;
    mret true
  else mret false.

(** [pte != NULL && ( *pte & flag) != 0]. *)
Definition test_flag (pd vpage flag : Z) : PM bool :=
  pte ← lookup_page pd vpage false;
  if negb (pte =? NULL) then e ← ld pte; mret (has e flag) else mret false.
(** [*pte |= flag], or [*pte &= ~flag] followed by an invalidation. *)
Definition assign_flag (pd vpage flag : Z) (value : bool) : PM () :=
  pte ← lookup_page pd vpage false;
  if negb (pte =? NULL) then
    e ← ld pte;
    if value then st pte (Z.lor e flag)
    else st pte (Z.land e (u32 (Z.lnot flag)));; invalidate_pagedir pd
  else mret ().

Definition pagedir_is_dirty (pd vpage : Z) : PM bool := test_flag pd vpage PTE_D.
Definition pagedir_set_dirty (pd vpage : Z) (dirty : bool) : PM () := assign_flag pd vpage PTE_D dirty.
Definition pagedir_is_stack (pd vpage : Z) : PM bool := test_flag pd vpage PTE_S.
Definition pagedir_set_stack (pd vpage : Z) (dirty : bool) : PM () := assign_flag pd vpage PTE_S dirty.
Definition pagedir_is_writable (pd vpage : Z) : PM bool := test_flag pd vpage PTE_W.
Definition pagedir_is_accessed (pd vpage : Z) : PM bool := test_flag pd vpage PTE_A.
Definition pagedir_set_accessed (pd vpage : Z) (accessed : bool) : PM () :=
  assign_flag pd vpage PTE_A accessed.

Definition pagedir_get_page (pd uaddr : Z) : PM Z :=
  check (is_user_vaddr uaddr);;
  pte ← lookup_page pd uaddr false;
  pagedir_set_accessed pd uaddr true;;
  if negb (pte =? NULL) then
    e ← ld pte;
    if has e PTE_P then k ← pureM (pte_get_page e); mret (u32 (k + pg_ofs uaddr)) else mret NULL
  else mret NULL.

Definition pagedir_clear_page (pd upage : Z) : PM () :=
  check (pg_ofs upage =? 0);;
  check (is_user_vaddr upage);;
  pte ← lookup_page pd upage false;
  if negb (pte =? NULL) then
    e ← ld pte;
    if has e PTE_P then st pte (Z.land e (u32 (Z.lnot PTE_P)));; invalidate_pagedir pd else mret ()
  else mret ().

(** The loops of [pagedir_destroy], over the entries of a table from [pte] on
    and of the directory from [pde] on. *)
Fixpoint free_entries (n : nat) (pte : Z) : PM () :=
  match n with
  | O => mret ()
  | S n =>
      e ← ld pte;
      (if has e PTE_P then k ← pureM (pte_get_page e); on_km (palloc_free_page k) else mret ());;
      free_entries n (pte + 4)
  end.
Fixpoint free_tables (n : nat) (pde : Z) : PM () :=
  match n with
  | O => mret ()
  | S n =>
      e ← ld pde;
      (if has e PTE_P then
         pt ← pureM (pde_get_pt e);
         free_entries (Z.to_nat (PGSIZE / 4)) pt;;
         on_km (palloc_free_page pt)
       else mret ());;
      free_tables n (pde + 4)
  end.
Definition pagedir_destroy (pd : Z) : PM () :=
  if pd =? NULL then mret ()
  else
    s ← getS;
    check (negb (pd =? base_page_dir s));;
    free_tables (Z.to_nat (pd_no PHYS_BASE)) pd;;
    on_km (palloc_free_page pd).
