(* ===== verification/PagedirInv.v ===== *)
(** The invariant of page directories, and what a page directory stands for:
    a function from virtual pages to page-table entries, zero where nothing
    was ever mapped. *)
From S2P Require Import Prelude Mem Str Word Bitmap FreeMap Vaddr Palloc Pagedir.

(** * Bit arithmetic of entries *)

Lemma lor_low p x : p mod 4096 = 0 → 0 <= x < 4096 → Z.lor p x = p + x.
Proof.
  intros Hp Hx. assert (Z.land p x = 0) as Hl.
  { apply Z.bits_inj'. intros k Hk. rewrite Z.land_spec, Z.bits_0.
    destruct (Z.ltb_spec k 12).
    - assert (p = Z.shiftl (p / 4096) 12) as ->.
      { rewrite Z.shiftl_mul_pow2 by lia. pose proof (Z.div_mod p 4096). lia. }
      by rewrite Z.shiftl_spec_low.
    - rewrite (Z.bits_above_log2 x); [apply andb_false_r|lia|].
      destruct (Z.eq_dec x 0) as [->|]; [simpl; lia|]. apply Z.log2_lt_pow2; [lia|].
      apply Z.lt_le_trans with (2 ^ 12); [lia|]. by apply Z.pow_le_mono_r. }
  rewrite Z.add_nocarry_lxor by done. by rewrite Z.lxor_lor.
Qed.

Lemma lor_u32 a b : is_u32 a → is_u32 b → is_u32 (Z.lor a b).
Proof.
  rewrite !is_u32_testbit. intros [? Ha] [? Hb]. split; [by apply Z.lor_nonneg|].
  intros k Hk. by rewrite Z.lor_spec, Ha, Hb.
Qed.

Lemma land_u32 a b : is_u32 a → 0 <= b → is_u32 (Z.land a b).
Proof.
  rewrite !is_u32_testbit. intros [? Ha] ?. split; [apply Z.land_nonneg; lia|].
  intros k Hk. by rewrite Z.land_spec, Ha.
Qed.

(** A page-table page, as a directory entry. *)
Definition pde_of (pt : Z) : Z := pt - PHYS_BASE + 7.
Definition pt_of (e : Z) : Z := PHYS_BASE + (e - e mod 4096).

Lemma aligned_sub pt : pt mod 4096 = 0 → (pt - PHYS_BASE) mod 4096 = 0.
Proof. intros. unfold PHYS_BASE. change 3221225472 with (786432 * 4096). by rewrite <- Z.add_opp_r, <- Z.mul_opp_l, Z.mod_add. Qed.

Lemma pt_of_pde pt : pt mod 4096 = 0 → pt_of (pde_of pt) = pt.
Proof.
  intros H%aligned_sub. unfold pt_of, pde_of. rewrite Z.add_mod, H by lia.
  change ((0 + 7 mod 4096) mod 4096) with 7. unfold PHYS_BASE. lia.
Qed.

Lemma pde_create_Ok pt : pt mod 4096 = 0 → PHYS_BASE <= pt < 4294967296 → pde_create pt = Ok (pde_of pt).
Proof.
  intros Ha Hr. unfold pde_create, vtop, is_kernel_vaddr. rewrite pg_ofs_mod.
  rewrite assert_true by by apply Z.eqb_eq. rewrite assert_true by (apply Z.leb_le; lia).
  cbn [mbind outcome_bind]. rewrite u32_small by (unfold PHYS_BASE in *; lia).
  rewrite <- !Z.lor_assoc. change (Z.lor PTE_U (Z.lor PTE_P PTE_W)) with 7.
  rewrite lor_low by (lia || by apply aligned_sub). done.
Qed.

Lemma pde_get_pt_Ok pt : pt mod 4096 = 0 → PHYS_BASE <= pt < 4294967296 → pde_get_pt (pde_of pt) = Ok pt.
Proof.
  intros Ha Hr. pose proof (aligned_sub pt Ha) as Hs. unfold pde_get_pt, pde_of.
  assert (is_u32 (pt - PHYS_BASE + 7)).
  { unfold is_u32, PHYS_BASE in *. assert (pt <= 4294967296 - 4096); [|lia].
    pose proof (Z.div_mod pt 4096). lia. }
  rewrite assert_true.
  2: { apply negb_true_iff, Z.eqb_neq. change PTE_P with (Z.ones 1). rewrite Z.land_ones by lia.
       change (2 ^ 1) with 2. rewrite Z.add_mod by lia.
       replace (pt - PHYS_BASE) with ((pt - PHYS_BASE) / 4096 * 2048 * 2)
         by (pose proof (Z.div_mod (pt - PHYS_BASE) 4096); lia).
       by rewrite Z.mod_mul by lia. }
  change PTE_ADDR with (4294967296 - 2 ^ 12). rewrite land_high_mask by (done || lia).
  change (2 ^ 12) with 4096. rewrite Z.add_mod, Hs by lia. change ((0 + 7 mod 4096) mod 4096) with 7.
  unfold ptov. rewrite assert_true by (apply Z.ltb_lt; unfold PHYS_BASE in *; lia).
  f_equal. unfold PHYS_BASE in *. rewrite u32_small; lia.
Qed.

(** * Accessors *)

Definition mram (s : mmu) : mem := ram (km s).
Definition set_word (p w : Z) (s : mmu) : mmu := set_km (set_ram (wr32 p w (mram s)) (km s)) s.

Lemma ld_Ok s p : mapped (mram s) p 4 → ld p s = Ok (rd32 (mram s) p, s).
Proof.
  intros H. unfold ld, on_km, on_ram. fold (mram s). rewrite load32_Ok by done. by destruct s as [[] ? ? ?].
Qed.
Lemma st_Ok s p w : mapped (mram s) p 4 → st p w s = Ok ((), set_word p w s).
Proof. intros H. unfold st, on_km, on_ram. fold (mram s). by rewrite store32_Ok. Qed.

Lemma mram_set_word s p w : mram (set_word p w s) = wr32 p w (mram s).
Proof. done. Qed.

(** * Invariant *)

(** A page of kernel memory that is in use. *)
Definition kpage (s : mmu) (pg : Z) : Prop := kernel_page (km s) pg.

Definition pde_at (s : mmu) (pd i : Z) : Z := rd32 (mram s) (pd + 4 * i).

(** [pds] are the live page directories.  Their user entries lead to distinct
    pages used as page tables, which are none of the directories; their kernel
    entries are those of [base_page_dir], which maps no user page. *)
Record mm_ok (s : mmu) (pds : gset Z) : Prop := {
  mo_inv : kmem_inv (km s);
  mo_pd : ∀ pd, pd ∈ pds → kpage s pd;
  mo_base : base_page_dir s ∈ pds;
  mo_none : ∀ i, 0 <= i < 768 → pde_at s (base_page_dir s) i = 0;
  mo_pt : ∀ pd i, pd ∈ pds → 0 <= i < 768 → pde_at s pd i ≠ 0 →
    ∃ pt, pde_at s pd i = pde_of pt ∧ kpage s pt ∧ pt ∉ pds;
  mo_inj : ∀ pd1 i1 pd2 i2, pd1 ∈ pds → pd2 ∈ pds → 0 <= i1 < 768 → 0 <= i2 < 768 →
    pde_at s pd1 i1 ≠ 0 → pde_at s pd1 i1 = pde_at s pd2 i2 → pd1 = pd2 ∧ i1 = i2;
  mo_kernel : ∀ pd i, pd ∈ pds → 768 <= i < 1024 → pde_at s pd i = pde_at s (base_page_dir s) i
}.

(** * Abstract view *)

Definition pte_slot (s : mmu) (pd va : Z) : option Z :=
  let e := pde_at s pd (pd_no va) in if e =? 0 then None else Some (pt_of e + 4 * pt_no va).
Definition pte_of (s : mmu) (pd va : Z) : Z :=
  match pte_slot s pd va with Some a => rd32 (mram s) a | None => 0 end.

(** A user virtual address. *)
Definition uaddr (va : Z) : Prop := 0 <= va < PHYS_BASE.

Lemma uaddr_u32 va : uaddr va → is_u32 va.
Proof. unfold uaddr, is_u32, PHYS_BASE. lia. Qed.
Lemma pd_no_user va : uaddr va → 0 <= pd_no va < 768.
Proof.
  intros [? ?]. unfold PHYS_BASE in *. rewrite pd_no_div.
  split; [apply Z.div_pos; lia|apply Z.div_lt_upper_bound; lia].
Qed.
Lemma pt_no_user va : uaddr va → 0 <= pt_no va < 1024.
Proof. intros. by apply pt_no_range, uaddr_u32. Qed.
Lemma same_page va va' : uaddr va → uaddr va' →
  (pg_no va = pg_no va') ↔ (pd_no va = pd_no va' ∧ pt_no va = pt_no va').
Proof.
  intros H H'. pose proof (page_indices va (uaddr_u32 _ H)). pose proof (page_indices va' (uaddr_u32 _ H')).
  pose proof (pt_no_user _ H). pose proof (pt_no_user _ H'). lia.
Qed.

Lemma kpage_facts s pg : kmem_inv (km s) → kpage s pg →
  pg mod 4096 = 0 ∧ PHYS_BASE <= pg ∧ pg + 4096 <= 4294967296 ∧ mapped (mram s) pg (Z.to_nat 4096).
Proof. apply kernel_page_facts. Qed.

Lemma kpage_word s pg i : kmem_inv (km s) → kpage s pg → 0 <= i < 1024 → mapped (mram s) (pg + 4 * i) 4.
Proof.
  intros Hi Hp Hr. destruct (kpage_facts s pg Hi Hp) as (_ & _ & _ & Hm).
  eapply mapped_sub; [exact Hm|lia|lia].
Qed.

(** The memory of user programs, which no operation on page tables touches. *)
Definition user_same (s s' : mmu) : Prop :=
  user_pool (km s') = user_pool (km s) ∧
  ∀ a, in_pool (user_pool (km s)) a = true → mram s' !! a = mram s !! a.

Lemma user_same_refl s : user_same s s.
Proof. done. Qed.
Lemma user_same_trans s s' s'' : user_same s s' → user_same s' s'' → user_same s s''.
Proof. intros [E H] [E' H']. split; [congruence|]. intros a Ha. rewrite H', H; [done|done|by rewrite E]. Qed.

(** Kernel pages lie below the user pool. *)
Lemma kpage_below s pg a : kmem_inv (km s) → kpage s pg → in_pool (user_pool (km s)) a = true → pg + 4096 <= a.
Proof.
  intros Hi [Hal Hu]. unfold in_use, in_pool in *.
  apply andb_true_iff in Hu as [Hin _]. apply andb_true_iff in Hin as [Hlo%Z.leb_le Hhi%Z.ltb_lt].
  intros Ha%andb_true_iff. destruct Ha as [Ha%Z.leb_le _]. pose proof (ki_disjoint _ Hi) as Hd.
  destruct (ki_kernel _ Hi) as [_ Hb _ _ _]. destruct (aligned_page (kernel_pool (km s)) pg Hb Hal Hlo) as (k & ? & ->).
  unfold page_at, pool_end in *. lia.
Qed.

(** A write to a page of the kernel pool. *)
Lemma set_word_user s pg i w : kmem_inv (km s) → kpage s pg → 0 <= i < 1024 → user_same s (set_word (pg + 4 * i) w s).
Proof.
  intros Hi Hk Hr. split; [done|]. intros a Ha. rewrite mram_set_word. unfold wr32. apply put_bytes_ne.
  pose proof (kpage_below s pg a Hi Hk Ha). change (Z.of_nat (length (word_bytes w))) with 4. lia.
Qed.

Lemma pages_apart p q j :
  p mod 4096 = 0 → q mod 4096 = 0 → 0 <= j < 1024 → p ≠ q →
  q + 4 * j + 4 <= p ∨ p + 4096 <= q + 4 * j.
Proof. intros. pose proof (Z.div_mod p 4096). pose proof (Z.div_mod q 4096). lia. Qed.

Section Inv.
Context (s : mmu) (pds : gset Z) (Hok : mm_ok s pds).

Lemma pd_facts pd : pd ∈ pds → pd mod 4096 = 0 ∧ PHYS_BASE <= pd ∧ pd + 4096 <= 4294967296.
Proof. intros Hpd. destruct (kpage_facts s pd) as (? & ? & ? & _); [apply Hok|by apply Hok|done]. Qed.

(** The slot of an address lies in a page table of its own directory. *)
Lemma slot_table pd va a : pd ∈ pds → uaddr va → pte_slot s pd va = Some a →
  ∃ pt, pde_at s pd (pd_no va) = pde_of pt ∧ kpage s pt ∧ (pt ∉ pds) ∧ a = pt + 4 * pt_no va.
Proof.
  intros Hpd Hva. unfold pte_slot. destruct (Z.eqb_spec (pde_at s pd (pd_no va)) 0) as [|Hnz]; [done|].
  intros [= <-]. destruct (mo_pt _ _ Hok pd (pd_no va)) as (pt & E & Hk & Hn); [done|by apply pd_no_user|done|].
  exists pt. splits; try done. rewrite E, pt_of_pde by apply Hk. done.
Qed.

Lemma slot_mapped pd va a : pd ∈ pds → uaddr va → pte_slot s pd va = Some a →
  mapped (mram s) a 4 ∧ 0 < a.
Proof.
  intros Hpd Hva Ha. destruct (slot_table pd va a) as (pt & _ & Hk & _ & ->); [done..|].
  pose proof (pt_no_user va Hva). split; [apply kpage_word; [apply Hok|done|done]|].
  destruct (kpage_facts s pt) as (_ & ? & _); [apply Hok|done|]. unfold PHYS_BASE in *. lia.
Qed.

Lemma pde_mapped pd va : pd ∈ pds → uaddr va →
  u32 (pd + 4 * pd_no va) = pd + 4 * pd_no va ∧ mapped (mram s) (pd + 4 * pd_no va) 4.
Proof.
  intros Hpd Hva. pose proof (pd_no_user va Hva). destruct (pd_facts pd Hpd) as (_ & ? & ?).
  split; [unfold PHYS_BASE in *; by rewrite u32_small by lia|].
  apply kpage_word; [apply Hok|by apply Hok|lia].
Qed.

Lemma pde_nonzero_slot pd va : uaddr va → pde_at s pd (pd_no va) ≠ 0 →
  is_Some (pte_slot s pd va).
Proof. intros Hva Hnz. unfold pte_slot. destruct (Z.eqb_spec (pde_at s pd (pd_no va)) 0); eauto; done. Qed.

End Inv.
