(* ===== verification/PagedirOps.v ===== *)
(** Page directories refine functions from pages to entries: each operation of
    userprog/pagedir.c is a read or a point update of the function [pte_of] of
    its directory, leaves every other directory alone, and keeps the
    translation lookaside buffer coherent. *)
From S2P Require Import Prelude Mem Str Word Bitmap FreeMap Vaddr Palloc Pagedir PagedirInv.

(** * Writing an entry *)

Section Write.
Context (s : mmu) (pds : gset Z) (Hok : mm_ok s pds).
Context (pd va a w : Z) (Hpd : pd ∈ pds) (Hva : uaddr va) (Ha : pte_slot s pd va = Some a) (Hw : is_u32 w).

Lemma write_pde pd' i : pd' ∈ pds → 0 <= i < 1024 → pde_at (set_word a w s) pd' i = pde_at s pd' i.
Proof.
  intros Hpd' Hi. destruct (slot_table s pds Hok pd va a Hpd Hva Ha) as (pt & _ & Hk & Hn & ->).
  unfold pde_at. rewrite mram_set_word. apply rd32_wr32_ne.
  apply words_apart; [apply Hk|by apply (pd_facts s pds Hok)|by apply pt_no_user|done|].
  left. intros ->. done.
Qed.

Lemma write_slot pd' va' : pd' ∈ pds → uaddr va' →
  pte_slot (set_word a w s) pd' va' = pte_slot s pd' va'.
Proof. intros ? H%pd_no_user. unfold pte_slot. by rewrite write_pde by (done || lia). Qed.

Lemma write_ok : mm_ok (set_word a w s) pds.
Proof.
  destruct Hok as [Hi Hp Hb Hn Hpt Hinj Hk]. split.
  - apply kmem_inv_set_ram; [done|apply word_bytes_u8].
  - done.
  - done.
  - intros i Hr. simpl. rewrite write_pde by (done || lia). by apply Hn.
  - intros pd' i Hpd' Hr. rewrite write_pde by (done || lia). by apply Hpt.
  - intros pd1 i1 pd2 i2 ????. rewrite !write_pde by (done || lia). by apply Hinj.
  - intros pd' i Hpd' Hr. simpl. rewrite !write_pde by (done || lia). by apply Hk.
Qed.

Lemma write_user : user_same s (set_word a w s).
Proof.
  destruct (slot_table s pds Hok pd va a Hpd Hva Ha) as (pt & _ & Hk & _ & ->).
  apply set_word_user; [apply Hok|done|by apply pt_no_user].
Qed.

Lemma write_pte pd' va' : pd' ∈ pds → uaddr va' →
  pte_of (set_word a w s) pd' va' =
    if decide (pd' = pd ∧ pg_no va' = pg_no va) then w else pte_of s pd' va'.
Proof.
  intros Hpd' Hva'. unfold pte_of. rewrite write_slot by done. rewrite mram_set_word.
  destruct (slot_table s pds Hok pd va a Hpd Hva Ha) as (pt & Ept & Hk & Hn & Ea).
  case_decide as Hd.
  - destruct Hd as [-> [Hd1 Hd2]%same_page]; [|done..]. unfold pte_slot in *. rewrite Hd1, Hd2, Ha.
    by apply rd32_wr32.
  - destruct (pte_slot s pd' va') as [a'|] eqn:Ha'; [|done].
    destruct (slot_table s pds Hok pd' va' a' Hpd' Hva' Ha') as (pt' & Ept' & Hk' & Hn' & Ea').
    subst a a'. apply rd32_wr32_ne. apply words_apart; [apply Hk|apply Hk'|by apply pt_no_user..|].
    destruct (decide (pt = pt')) as [<-|]; [|by left]. right. intros Hpte. apply Hd.
    destruct (mo_inj _ _ Hok pd' (pd_no va') pd (pd_no va)) as [-> Hpde];
      [done|done|by apply pd_no_user..| |congruence|].
    { rewrite Ept'. unfold pde_of. destruct (kpage_facts s pt) as (_ & ? & _); [apply Hok|done|lia]. }
    split; [done|]. apply same_page; [done..|]. split; congruence.
Qed.

End Write.

(** * Looking up an entry *)

Section Lookup.
Context (s : mmu) (pds : gset Z) (Hok : mm_ok s pds) (pd va : Z) (Hpd : pd ∈ pds) (Hva : uaddr va).

Lemma ensure_table_present create : pde_at s pd (pd_no va) ≠ 0 →
  ensure_table (pd + 4 * pd_no va) create s = Ok (true, s).
Proof.
  intros Hnz. unfold ensure_table. destruct (pde_mapped s pds Hok pd va) as [_ Hm]; [done..|].
  rewrite (M_bind_step _ _ _ _ _ (ld_Ok _ _ Hm)). fold (pde_at s pd (pd_no va)).
  by destruct (Z.eqb_spec (pde_at s pd (pd_no va)) 0).
Qed.

Lemma lookup_checks create {B} (k : PM B) :
  (check (negb (pd =? NULL));; check (negb create || is_user_vaddr va);; k) s = k s.
Proof.
  destruct (pd_facts s pds Hok pd Hpd) as (_ & ? & _). unfold PHYS_BASE in *.
  rewrite (M_bind_step _ _ _ _ _ (check_true _ _ (proj2 (negb_true_iff _) (proj2 (Z.eqb_neq pd NULL) ltac:(unfold NULL; lia))))).
  rewrite (M_bind_step _ _ s () s); [done|]. apply check_true. unfold is_user_vaddr.
  rewrite (proj2 (Z.ltb_lt va PHYS_BASE)) by apply Hva. apply orb_true_r.
Qed.

(** The last step of [lookup_page]: the address of the entry in its table. *)
Lemma lookup_tail a :
  pte_slot s pd va = Some a →
  (e ← ld (pd + 4 * pd_no va); pt ← pureM (pde_get_pt e); mret (u32 (pt + 4 * pt_no va))) s = Ok (a, s).
Proof.
  intros Ha. destruct (pde_mapped s pds Hok pd va) as [_ Hm]; [done..|].
  rewrite (M_bind_step _ _ _ _ _ (ld_Ok _ _ Hm)). fold (pde_at s pd (pd_no va)).
  destruct (slot_table s pds Hok pd va a) as (pt & Ept & Hk & _ & ->); [done..|].
  destruct (kpage_facts s pt) as (? & ? & ? & _); [apply Hok|done|]. rewrite Ept.
  rewrite (pureM_step _ _ _ _ (pde_get_pt_Ok pt ltac:(done) ltac:(lia))).
  pose proof (pt_no_user va Hva). unfold PHYS_BASE in *. by rewrite u32_small by lia.
Qed.

Lemma lookup_page_find : lookup_page pd va false s = Ok (default NULL (pte_slot s pd va), s).
Proof.
  unfold lookup_page. rewrite (lookup_checks false).
  destruct (pde_mapped s pds Hok pd va) as [-> Hm]; [done..|].
  destruct (Z.eqb_spec (pde_at s pd (pd_no va)) 0) as [Hz|Hnz].
  - erewrite M_bind_step.
    2: { unfold ensure_table. rewrite (M_bind_step _ _ _ _ _ (ld_Ok _ _ Hm)).
         fold (pde_at s pd (pd_no va)). by rewrite Hz. }
    unfold pte_slot. by rewrite Hz.
  - rewrite (M_bind_step _ _ _ _ _ (ensure_table_present false Hnz)).
    destruct (pde_nonzero_slot s pd va Hva Hnz) as [a Ha]. rewrite Ha. by apply lookup_tail.
Qed.

End Lookup.

(** * A page obtained from the kernel pool *)

Section Alloc.
Context (s : mmu) (pds : gset Z) (Hok : mm_ok s pds).
Context (flags pg : Z) (k : kmem) (Hu : has flags PAL_USER = false) (Hg : got_page (km s) flags pg k).

Lemma got_in_use a : in_use (kernel_pool k) a = (pg <=? a) && (a <? pg + 4096) || in_use (kernel_pool (km s)) a.
Proof. destruct Hg as (_ & _ & _ & _ & _ & H & _). by rewrite Hu in H. Qed.

Lemma got_aligned : pg mod 4096 = 0.
Proof. by destruct Hg as (_ & _ & ? & _). Qed.

Lemma got_fresh pg' : kpage s pg' → pg' ≠ pg.
Proof. intros [_ H] ->. destruct Hg as (_ & _ & _ & _ & Hf & _). rewrite Hu in Hf. simpl in Hf. congruence. Qed.

Lemma got_kpage pg' : kpage s pg' → kpage (set_km k s) pg'.
Proof. intros [Ha H]. split; [done|]. simpl. by rewrite got_in_use, H, orb_true_r. Qed.

Lemma got_new : kpage (set_km k s) pg.
Proof. split; [apply got_aligned|]. simpl. rewrite got_in_use. bcases; simpl; done || lia. Qed.

Lemma got_inv : kmem_inv (km (set_km k s)).
Proof. by destruct Hg as (_ & ? & _). Qed.

Lemma got_user : user_same s (set_km k s).
Proof.
  pose proof got_new as Hn. pose proof got_inv as Hi. destruct Hg as (_ & _ & _ & _ & _ & _ & Ho & Hr).
  rewrite Hu in Ho. simpl in Ho. split; [exact Ho|]. intros a Ha. rewrite <- Ho in Ha.
  pose proof (kpage_below _ _ _ Hi Hn Ha). unfold mram. simpl. rewrite Hr. unfold zeroed. case_match; [|done].
  apply put_bytes_ne. rewrite length_replicate. lia.
Qed.

Lemma got_rd p i : p mod 4096 = 0 → p ≠ pg → 0 <= i < 1024 →
  rd32 (mram (set_km k s)) (p + 4 * i) = rd32 (mram s) (p + 4 * i).
Proof.
  intros Hp Hne Hi. destruct Hg as (_ & _ & Ha & _ & _ & _ & _ & Hr). unfold mram; simpl. rewrite Hr.
  unfold zeroed. case_match; [|done]. apply rd32_put_ne. rewrite length_replicate.
  pose proof (pages_apart pg p i Ha Hp Hi ltac:(done)). lia.
Qed.

Lemma got_pde pd i : pd ∈ pds → 0 <= i < 1024 → pde_at (set_km k s) pd i = pde_at s pd i.
Proof.
  intros Hpd Hi. pose proof (mo_pd _ _ Hok pd Hpd) as Hk. apply got_rd; [apply Hk|by apply got_fresh|done].
Qed.

Lemma got_ok : mm_ok (set_km k s) pds.
Proof.
  destruct Hok as [Hi Hp Hb Hn Hpt Hinj Hke]. split.
  - apply got_inv.
  - intros pd Hpd. by apply got_kpage, Hp.
  - done.
  - intros i Hr. simpl. rewrite got_pde by (done || lia). by apply Hn.
  - intros pd i Hpd Hr. rewrite got_pde by (done || lia). intros Hnz.
    destruct (Hpt pd i Hpd Hr Hnz) as (pt & ? & ? & ?). exists pt. splits; try done. by apply got_kpage.
  - intros pd1 i1 pd2 i2 ????. rewrite !got_pde by (done || lia). by apply Hinj.
  - intros pd i Hpd Hr. simpl. rewrite !got_pde by (done || lia). by apply Hke.
Qed.

Lemma got_pte pd va : pd ∈ pds → uaddr va → pte_of (set_km k s) pd va = pte_of s pd va.
Proof.
  intros Hpd Hva. pose proof (pd_no_user va Hva). unfold pte_of.
  assert (pte_slot (set_km k s) pd va = pte_slot s pd va) as ->.
  { unfold pte_slot. by rewrite got_pde by (done || lia). }
  destruct (pte_slot s pd va) as [a|] eqn:Ea; [|done].
  destruct (slot_table s pds Hok pd va a) as (pt & _ & Hk & _ & ->); [done..|].
  apply got_rd; [apply Hk|by apply got_fresh|by apply pt_no_user].
Qed.

End Alloc.

(** * Installing a page table *)

Section NewTable.
Context (s : mmu) (pds : gset Z) (Hok : mm_ok s pds) (pd va : Z) (Hpd : pd ∈ pds) (Hva : uaddr va).
Context (Hnb : pd ≠ base_page_dir s) (Hz : pde_at s pd (pd_no va) = 0).
Context (pg : Z) (k : kmem) (Hg : got_page (km s) PAL_ZERO pg k).

Let s1 := set_km k s.
Let s2 := set_word (pd + 4 * pd_no va) (pde_of pg) s1.

Lemma new_table_fresh pg' : kpage s pg' → pg' ≠ pg.
Proof. by apply (got_fresh s PAL_ZERO pg k). Qed.

Lemma new_pde pd' i : pd' ∈ pds → 0 <= i < 1024 →
  pde_at s2 pd' i = if decide (pd' = pd ∧ i = pd_no va) then pde_of pg else pde_at s pd' i.
Proof.
  intros Hpd' Hi. unfold s2, pde_at. rewrite mram_set_word. case_decide as Hd.
  - destruct Hd as [-> ->]. apply rd32_wr32.
    destruct (kpage_facts s1 pg) as (_ & ? & ? & _); [by apply (got_inv s PAL_ZERO pg)|by apply (got_new s PAL_ZERO)|].
    unfold pde_of, is_u32, PHYS_BASE in *. lia.
  - rewrite rd32_wr32_ne; [by apply (got_pde s pds Hok PAL_ZERO pg)|].
    pose proof (pd_no_user va Hva).
    apply words_apart; [by apply (pd_facts s pds Hok)|by apply (pd_facts s pds Hok)|lia|done|].
    destruct (decide (pd' = pd)), (decide (i = pd_no va)); subst; auto.
Qed.

Lemma new_table_ok : mm_ok s2 pds.
Proof.
  assert (kmem_inv k) as Hik by by apply (got_inv s PAL_ZERO pg).
  assert (kpage s1 pg) as Hpg by by apply (got_new s PAL_ZERO).
  assert (∀ pg', kpage s pg' → kpage s2 pg') as Hkp by (intros pg' ?; change (kpage s1 pg'); by apply (got_kpage s PAL_ZERO pg)).
  assert (∀ pd', pd' ∈ pds → pd' ≠ pg) as Hnd by (intros; by apply new_table_fresh, Hok).
  assert (pde_of pg ≠ 0) as Hnz.
  { destruct (kpage_facts s1 pg) as (_ & ? & _); [done..|]. unfold pde_of. lia. }
  assert (∀ pd' i, pd' ∈ pds → 0 <= i < 768 → pde_at s pd' i ≠ pde_of pg) as Hother.
  { intros pd' i Hpd' Hi E. destruct (mo_pt _ _ Hok pd' i) as (pt & E' & Hk & _); [done..|congruence|].
    apply (new_table_fresh pt Hk). unfold pde_of in *. lia. }
  destruct Hok as [Hi Hp Hb Hn Hpt Hinj Hke]. split.
  - apply kmem_inv_set_ram; [done|apply word_bytes_u8].
  - intros pd' Hpd'. by apply Hkp, Hp.
  - done.
  - intros i Hr. simpl. rewrite new_pde by (done || lia). case_decide as Hd; [by destruct Hd; subst|by apply Hn].
  - intros pd' i Hpd' Hr. rewrite new_pde by (done || lia). case_decide as Hd; intros Hnz'.
    + exists pg. splits; [done|done|]. intros Hin. by apply (Hnd pg Hin).
    + destruct (Hpt pd' i Hpd' Hr Hnz') as (pt & ? & ? & ?). exists pt. splits; try done. by apply Hkp.
  - intros pd1 i1 pd2 i2 H1 H2 Hi1 Hi2. rewrite !new_pde by (done || lia).
    do 2 case_decide; intros Hnz1 Heq; try (destruct_and!; by subst).
    + exfalso. by apply (Hother pd2 i2).
    + exfalso. by apply (Hother pd1 i1).
    + by apply Hinj.
  - intros pd' i Hpd' Hr. simpl. pose proof (pd_no_user va Hva). rewrite !new_pde by (done || lia).
    do 2 (case_decide; [destruct_and!; lia|]). by apply Hke.
Qed.

Lemma new_table_user : user_same s s2.
Proof.
  apply user_same_trans with s1; [by apply (got_user s PAL_ZERO pg)|]. pose proof (pd_no_user va Hva).
  apply set_word_user; [by apply (got_inv s PAL_ZERO pg)|apply (got_kpage s PAL_ZERO pg); [done..|by apply Hok]|lia].
Qed.

Lemma new_table_slot : is_Some (pte_slot s2 pd va).
Proof.
  apply pde_nonzero_slot; [done|]. rewrite new_pde by (done || (pose proof (pd_no_user va Hva); lia)).
  rewrite decide_True by done.
  destruct (kpage_facts s1 pg) as (_ & ? & _); [by apply (got_inv s PAL_ZERO pg)|by apply (got_new s PAL_ZERO)|].
  unfold pde_of. lia.
Qed.

(** A new page table maps nothing. *)
Lemma new_table_pte pd' va' : pd' ∈ pds → uaddr va' → pte_of s2 pd' va' = pte_of s pd' va'.
Proof.
  intros Hpd' Hva'. pose proof (pd_no_user va' Hva'). pose proof (pt_no_user va' Hva').
  pose proof (pd_facts s pds Hok pd Hpd) as (Hpa & _). pose proof (pd_no_user va Hva).
  unfold pte_of at 1, pte_slot. rewrite new_pde by (done || lia). case_decide as Hd.
  - destruct Hd as [-> E]. unfold pte_of, pte_slot. rewrite E, Hz.
    destruct (Z.eqb_spec (pde_of pg) 0); [done|]. rewrite pt_of_pde by by apply (got_aligned s PAL_ZERO pg k).
    change (rd32 (mram s2) (pg + 4 * pt_no va') = 0). unfold s2. rewrite mram_set_word, rd32_wr32_ne.
    2: { apply words_apart; [done|by apply (got_aligned s PAL_ZERO pg k)|lia|done|].
         left. by apply new_table_fresh, Hok. }
    destruct Hg as (_ & _ & _ & _ & _ & _ & _ & Hr). unfold mram; simpl. rewrite Hr. unfold zeroed.
    change (has PAL_ZERO PAL_ZERO) with true. cbv iota. apply rd32_zeros; lia.
  - fold (pte_slot s pd' va'). rewrite <- (got_pte s pds Hok PAL_ZERO pg k) by done.
    unfold pte_of. assert (pte_slot s1 pd' va' = pte_slot s pd' va') as E1.
    { unfold pte_slot. by rewrite (got_pde s pds Hok PAL_ZERO pg k) by (done || lia). }
    fold s1. rewrite E1. destruct (pte_slot s pd' va') as [a|] eqn:Ea; [|done].
    destruct (slot_table s pds Hok pd' va' a) as (pt & _ & Hk & Hn & ->); [done..|].
    unfold s2. rewrite mram_set_word. apply rd32_wr32_ne.
    apply words_apart; [done|apply Hk|lia|done|]. left. by intros ->.
Qed.

End NewTable.

(** * Operations as updates of the abstract view *)

(** The entry of the page of [va] in [pd] becomes [w]; no other entry of any
    directory changes. *)
Definition updates (pds : gset Z) (pd va w : Z) (s s' : mmu) : Prop :=
  ∀ pd' va', pd' ∈ pds → uaddr va' →
    pte_of s' pd' va' = if decide (pd' = pd ∧ pg_no va' = pg_no va) then w else pte_of s pd' va'.
Definition same_view (pds : gset Z) (s s' : mmu) : Prop :=
  ∀ pd' va', pd' ∈ pds → uaddr va' → pte_of s' pd' va' = pte_of s pd' va'.
Definition same_cpu (s s' : mmu) : Prop :=
  base_page_dir s' = base_page_dir s ∧ cr3 s' = cr3 s ∧ tlb s' = tlb s.

Lemma on_km_Ok {A} (f : KM A) s a k : f (km s) = Ok (a, k) → on_km f s = Ok (a, set_km k s).
Proof. unfold on_km. by intros ->. Qed.

Lemma set_km_same s : set_km (km s) s = s.
Proof. by destruct s. Qed.

(** There is no page table for the address and no page for one. *)
Definition no_table (s : mmu) (pd va : Z) : Prop := pde_at s pd (pd_no va) = 0 ∧ exhausted (kernel_pool (km s)) 1.

Lemma lookup_page_create s pds pd va :
  mm_ok s pds → pd ∈ pds → pd ≠ base_page_dir s → uaddr va →
  (∃ a s', lookup_page pd va true s = Ok (a, s') ∧ mm_ok s' pds ∧ pte_slot s' pd va = Some a ∧
     same_view pds s s' ∧ same_cpu s s' ∧ user_same s s') ∨
  (lookup_page pd va true s = Ok (NULL, s) ∧ no_table s pd va).
Proof.
  intros Hok Hpd Hnb Hva. unfold lookup_page. rewrite (lookup_checks s pds Hok pd va Hpd Hva true).
  destruct (pde_mapped s pds Hok pd va Hpd Hva) as [-> Hm].
  destruct (Z.eqb_spec (pde_at s pd (pd_no va)) 0) as [Hz|Hnz].
  2: { left. destruct (pde_nonzero_slot s pd va Hva Hnz) as [a Ha]. exists a, s.
       rewrite (M_bind_step _ _ _ _ _ (ensure_table_present s pds Hok pd va Hpd Hva true Hnz)).
       splits; try done. by apply (lookup_tail s pds). }
  assert (ensure_table (pd + 4 * pd_no va) true s =
    (pt ← on_km (palloc_get_page PAL_ZERO);
     if pt =? NULL then mret false
     else w ← pureM (pde_create pt); st (pd + 4 * pd_no va) w;; mret true) s) as Ee.
  { unfold ensure_table. rewrite (M_bind_step _ _ _ _ _ (ld_Ok _ _ Hm)).
    fold (pde_at s pd (pd_no va)). by rewrite Hz. }
  destruct (palloc_get_page_cases (km s) PAL_ZERO (mo_inv _ _ Hok) eq_refl) as [(pg & k & E & Hg)|E]; [left|right].
  - set (s2 := set_word (pd + 4 * pd_no va) (pde_of pg) (set_km k s)).
    assert (mm_ok s2 pds) as Hok2 by by apply new_table_ok.
    destruct (new_table_slot s pds Hok pd va Hpd Hva pg k Hg) as [a Ha]. fold s2 in Ha.
    exists a, s2. splits; [|done|done|intros pd' va' ??; by apply (new_table_pte s pds)|done|by apply (new_table_user s pds)].
    rewrite (M_bind_step _ _ _ true s2).
    2: { rewrite Ee. rewrite (M_bind_step _ _ _ _ _ (on_km_Ok _ _ _ _ E)). pose proof Hg as (Hn & _).
         destruct (Z.eqb_spec pg NULL); [done|].
         destruct (kpage_facts (set_km k s) pg) as (? & ? & ? & _);
           [by apply (got_inv s PAL_ZERO pg)|by apply (got_new s PAL_ZERO)|].
         rewrite (pureM_step _ _ _ _ (pde_create_Ok pg ltac:(done) ltac:(lia))).
         assert (mm_ok (set_km k s) pds) as Hok1 by by apply (got_ok s pds Hok PAL_ZERO pg).
         rewrite (M_bind_step _ _ _ _ _ (st_Ok _ _ _ (proj2 (pde_mapped _ pds Hok1 pd va Hpd Hva)))). done. }
    by apply (lookup_tail s2 pds).
  - split; [|split; [done|exact (palloc_get_page_none _ _ _ (mo_inv _ _ Hok) E)]].
    rewrite (M_bind_step _ _ _ false s); [done|]. rewrite Ee. rewrite (M_bind_step _ _ _ _ _ (on_km_Ok _ _ _ _ E)).
    simpl. by rewrite set_km_same.
Qed.

(** ** Flags of an entry *)

Lemma slot_nonnull s pds pd va a : mm_ok s pds → pd ∈ pds → uaddr va → pte_slot s pd va = Some a →
  (a =? NULL) = false.
Proof. intros Hok Hpd Hva Ha. apply Z.eqb_neq. destruct (slot_mapped s pds Hok pd va a Hpd Hva Ha). unfold NULL. lia. Qed.

(** Programs that look up an entry and go on from its slot. *)
Lemma lookup_then {B} s pds pd va (f : Z → PM B) :
  mm_ok s pds → pd ∈ pds → uaddr va →
  (lookup_page pd va false ≫= f) s = f (default NULL (pte_slot s pd va)) s.
Proof. intros Hok Hpd Hva. apply M_bind_step. by eapply lookup_page_find. Qed.

Lemma ld_slot {B} s pds pd va a (f : Z → PM B) :
  mm_ok s pds → pd ∈ pds → uaddr va → pte_slot s pd va = Some a →
  (ld a ≫= f) s = f (pte_of s pd va) s.
Proof.
  intros Hok Hpd Hva Ha. rewrite (M_bind_step _ _ _ _ _ (ld_Ok _ _ (proj1 (slot_mapped s pds Hok pd va a Hpd Hva Ha)))).
  unfold pte_of. by rewrite Ha.
Qed.

Lemma st_slot s pds pd va a w :
  mm_ok s pds → pd ∈ pds → uaddr va → pte_slot s pd va = Some a → is_u32 w →
  st a w s = Ok ((), set_word a w s) ∧ mm_ok (set_word a w s) pds ∧
  updates pds pd va w s (set_word a w s) ∧ user_same s (set_word a w s).
Proof.
  intros Hok Hpd Hva Ha Hw. splits.
  - apply st_Ok. by eapply slot_mapped.
  - by eapply write_ok.
  - intros pd' va' ??. by eapply write_pte.
  - by eapply write_user.
Qed.

Lemma pte_u32 s pds pd va : mm_ok s pds → is_u32 (pte_of s pd va).
Proof.
  intros Hok. unfold pte_of. destruct (pte_slot s pd va); [|unfold is_u32; lia].
  apply rd32_range, Hok.
Qed.

Lemma test_flag_Ok s pds pd va flag : mm_ok s pds → pd ∈ pds → uaddr va →
  test_flag pd va flag s = Ok (has (pte_of s pd va) flag, s).
Proof.
  intros Hok Hpd Hva. unfold test_flag. rewrite (lookup_then s pds) by done.
  destruct (pte_slot s pd va) as [a|] eqn:Ea; simpl.
  - rewrite (slot_nonnull s pds pd va) by done. simpl. by rewrite (ld_slot s pds pd va).
  - unfold pte_of. rewrite Ea. unfold has. by rewrite Z.land_0_l.
Qed.

(** ** The base register and the lookaside buffer *)

Definition active (s : mmu) : Z := PHYS_BASE + cr3 s.
Definition flush (s : mmu) : mmu := mkMmu (km s) (base_page_dir s) (cr3 s) ∅.

Lemma invalidate_Ok s pds pd : mm_ok s pds → active s ∈ pds →
  invalidate_pagedir pd s = Ok ((), if active s =? pd then flush s else s).
Proof.
  intros Hok Ha. destruct (pd_facts s pds Hok (active s) Ha) as (_ & ? & ?).
  unfold invalidate_pagedir, active_pd, active, PHYS_BASE in *.
  assert (ptov (cr3 s) = Ok (3221225472 + cr3 s)) as E.
  { unfold ptov, PHYS_BASE. rewrite assert_true by (apply Z.ltb_lt; lia). rewrite u32_small; [f_equal|]; lia. }
  erewrite M_bind_step. 2: { rewrite getS_step. unfold pureM. rewrite E. done. }
  destruct (Z.eqb_spec (3221225472 + cr3 s) pd) as [<-|]; [|done].
  unfold pagedir_activate. rewrite getS_step.
  destruct (Z.eqb_spec (3221225472 + cr3 s) NULL); [unfold NULL in *; lia|].
  assert (vtop (3221225472 + cr3 s) = Ok (cr3 s)) as E2.
  { unfold vtop, is_kernel_vaddr, PHYS_BASE. rewrite assert_true by (apply Z.leb_le; lia).
    rewrite u32_small; [f_equal|]; lia. }
  by rewrite (pureM_step _ _ _ _ E2).
Qed.

(** The bits of an entry that decide what an access does: frame, presence,
    write and user permission. *)
Definition visible (e : Z) : Z := Z.land e 4294963207.

(** The processor sets the accessed and dirty bits in memory only if its copy
    of the entry does not have them: what the copy has, memory must have. *)
Definition marks (e e' : Z) : Prop :=
  (has e PTE_A = true → has e' PTE_A = true) ∧ (has e PTE_D = true → has e' PTE_D = true).

(** Every cached translation of a user page is the one of the active page
    directory. *)
Definition coherent (s : mmu) : Prop :=
  ∀ v e, tlb s !! v = Some e →
    uaddr (v * 4096) ∧ has e PTE_P = true ∧ visible (pte_of s (active s) (v * 4096)) = visible e ∧
    marks e (pte_of s (active s) (v * 4096)).

(** The state of the memory management unit and the page directories. *)
Record mmu_inv (s : mmu) (pds : gset Z) : Prop := {
  mi_mm : mm_ok s pds; mi_active : active s ∈ pds; mi_tlb : coherent s }.
