(* ===== verification/PagedirSafety.v ===== *)
(** Correctness of the page directory operations, against the abstract view:
    mapping and translation agree, directories are isolated from each other,
    and the lookaside buffer never holds a stale translation. *)
From S2P Require Import Prelude Mem Str Word Bitmap FreeMap Vaddr Palloc Pagedir PagedirInv PagedirOps.

(** * Coherence *)

Lemma has_visible e : has e PTE_P = has (visible e) PTE_P.
Proof. unfold has, visible. by rewrite <- Z.land_assoc. Qed.

Lemma visible_lor e flag : Z.land flag 4294963207 = 0 → visible (Z.lor e flag) = visible e.
Proof. intros H. unfold visible. by rewrite Z.land_lor_distr_l, H, Z.lor_0_r. Qed.

Lemma page_base_pg_no v : pg_no (v * 4096) = v.
Proof. by rewrite pg_no_div, Z.div_mul. Qed.

Lemma marks_refl e : marks e e.
Proof. by split. Qed.
Lemma marks_trans e e' e'' : marks e e' → marks e' e'' → marks e e''.
Proof. intros [? ?] [? ?]. split; auto. Qed.
Lemma marks_lor e flag : marks e (Z.lor e flag).
Proof.
  assert (∀ f, has e f = true → has (Z.lor e flag) f = true) as Hf; [|split; apply Hf].
  intros f. unfold has. rewrite Z.land_lor_distr_l. intros Hn%negb_true_iff%Z.eqb_neq.
  apply negb_true_iff, Z.eqb_neq. intros [Hz _]%Z.lor_eq_0_iff. done.
Qed.

(** An update is harmless to the buffer if the buffer is empty afterwards, the
    directory is not the active one, the entry keeps its visible bits and
    loses no mark, or it was not present before. *)
Lemma coherent_update s s' pds pd va w :
  mmu_inv s pds → updates pds pd va w s s' → cr3 s' = cr3 s →
  (tlb s' = ∅ ∨
   tlb s' = tlb s ∧
   (pd = active s → visible w = visible (pte_of s pd va) ∧ marks (pte_of s pd va) w ∨ has (pte_of s pd va) PTE_P = false)) →
  uaddr va → coherent s'.
Proof.
  intros [Hok Ha Hc] Hu Hcr Ht Hva v e Hv.
  destruct Ht as [Ht|[Ht Hvis]]; rewrite Ht in Hv; [by rewrite lookup_empty in Hv|].
  destruct (Hc v e Hv) as (Huv & Hp & Hve & Hme). split; [done|]. split; [done|].
  assert (active s' = active s) as -> by (unfold active; by rewrite Hcr).
  rewrite Hu by done. case_decide as Hd; [|done]. destruct Hd as [Hpd Hpg]. symmetry in Hpd.
  assert (pte_of s (active s) (v * 4096) = pte_of s pd va) as Heq.
  { unfold pte_of, pte_slot. apply same_page in Hpg as [H1 H2]; [|done..]. by rewrite Hpd, H1, H2. }
  rewrite Heq in Hve, Hme. destruct (Hvis Hpd) as [[-> Hm]|Hnp]; [split; [done|by eapply marks_trans]|].
  rewrite has_visible, <- Hve, <- has_visible, Hnp in Hp. done.
Qed.

Lemma same_view_updates pds s s' pd va : same_view pds s s' → uaddr va → pd ∈ pds →
  updates pds pd va (pte_of s pd va) s s'.
Proof.
  intros H Hva Hpd pd' va' ??. rewrite H by done. case_decide as Hd; [|done]. destruct Hd as [-> Hp].
  unfold pte_of, pte_slot. apply same_page in Hp as [E1 E2]; [|done..]. by rewrite E1, E2.
Qed.

(** Two updates of the same entry. *)
Lemma updates_trans pds pd va w w' s s' s'' :
  updates pds pd va w s s' → updates pds pd va w' s' s'' → updates pds pd va w' s s''.
Proof. intros H1 H2 pd' va' ??. rewrite H2, H1 by done. by case_decide. Qed.

(** * Flags *)

(** The entry of [va], changed by [f] if its page table exists. *)
Definition changed (s : mmu) (pd va : Z) (f : Z → Z) : Z :=
  match pte_slot s pd va with Some _ => f (pte_of s pd va) | None => 0 end.

Definition flag_value (flag : Z) (value : bool) (e : Z) : Z :=
  if value then Z.lor e flag else Z.land e (u32 (Z.lnot flag)).

Lemma flag_value_u32 flag value e : is_u32 e → is_u32 flag → is_u32 (flag_value flag value e).
Proof.
  intros. unfold flag_value. destruct value; [by apply lor_u32|apply land_u32; [done|apply u32_range]].
Qed.

(** What an operation on one entry leaves behind. *)
Record entry_step (pds : gset Z) (pd va w : Z) (s s' : mmu) : Prop := {
  es_ok : mm_ok s' pds;
  es_updates : updates pds pd va w s s';
  es_base : base_page_dir s' = base_page_dir s;
  es_cr3 : cr3 s' = cr3 s;
  es_user : user_same s s'
}.

Lemma no_slot_step s pds pd va : mm_ok s pds → pd ∈ pds → uaddr va → pte_slot s pd va = None →
  entry_step pds pd va 0 s s.
Proof.
  intros Hok Hpd Hva Hn. split; try done. replace 0 with (pte_of s pd va) by (unfold pte_of; by rewrite Hn).
  by apply same_view_updates.
Qed.

Lemma invalidate_step s pds pd va w s' : 
  mmu_inv s pds → entry_step pds pd va w s s' →
  ∃ s'', invalidate_pagedir pd s' = Ok ((), s'') ∧ entry_step pds pd va w s s'' ∧
    tlb s'' = if active s =? pd then ∅ else tlb s'.
Proof.
  intros [Hok Ha _] [Hok' Hu Hb Hc Hus]. assert (active s' = active s) as Ea by (unfold active; by rewrite Hc).
  rewrite (invalidate_Ok s' pds) by (by rewrite ?Ea). rewrite Ea. eexists. split; [done|].
  destruct (active s =? pd); split; try done. by split; destruct Hok'.
Qed.

Lemma assign_flag_Ok s pds pd va flag value :
  mmu_inv s pds → pd ∈ pds → uaddr va → is_u32 flag →
  ∃ s', assign_flag pd va flag value s = Ok ((), s') ∧
    entry_step pds pd va (changed s pd va (flag_value flag value)) s s' ∧
    (tlb s' = ∅ ∨ tlb s' = tlb s ∧ (value = false → pd = active s → pte_slot s pd va = None)).
Proof.
  intros Hinv Hpd Hva Hf. pose proof (mi_mm _ _ Hinv) as Hok.
  unfold assign_flag, changed. rewrite (lookup_then s pds) by done.
  destruct (pte_slot s pd va) as [a|] eqn:Ea; simpl.
  2: { eexists. split; [done|]. split; [by apply no_slot_step|by right]. }
  rewrite (slot_nonnull s pds pd va) by done. simpl. rewrite (ld_slot s pds pd va) by done.
  pose proof (flag_value_u32 flag value _ (pte_u32 s pds pd va Hok) Hf) as Hw. unfold flag_value in *.
  destruct (st_slot s pds pd va a _ Hok Hpd Hva Ea Hw) as (Est & Hok' & Hu & Hus).
  destruct value.
  - eexists. rewrite Est. split; [done|]. split; [by split|by right].
  - rewrite (M_bind_step _ _ _ _ _ Est).
    destruct (invalidate_step s pds pd va _ _ Hinv (Build_entry_step pds pd va _ s _ Hok' Hu eq_refl eq_refl Hus))
      as (s' & E & Hs & Ht). exists s'. splits; try done.
    destruct (Z.eqb_spec (active s) pd); [by left|right]. split; [done|]. intros _ ->. done.
Qed.

(** Flags that the processor does not look at when it translates. *)
Lemma assign_flag_inv s pds pd va flag value s' :
  mmu_inv s pds → pd ∈ pds → uaddr va → is_u32 flag → Z.land flag 4294963207 = 0 →
  assign_flag pd va flag value s = Ok ((), s') → mmu_inv s' pds.
Proof.
  intros Hinv Hpd Hva Hf Hz. destruct (assign_flag_Ok s pds pd va flag value) as (s1 & -> & Hs & Ht); [done..|].
  intros [= <-]. split; [apply Hs|unfold active; rewrite (es_cr3 _ _ _ _ _ _ Hs); apply Hinv|].
  apply (coherent_update s s1 pds pd va (changed s pd va (flag_value flag value))); [done|apply Hs|apply Hs| |done].
  destruct Ht as [Ht|[Ht Hn]]; [by left|right]. split; [done|]. intros Ha. unfold changed.
  destruct (pte_slot s pd va) as [a|] eqn:Ea.
  - destruct value; [left; split; [by apply visible_lor|apply marks_lor]|]. by specialize (Hn eq_refl Ha).
  - left. unfold pte_of. rewrite Ea. split; [done|apply marks_refl].
Qed.

(** * Mapping a page *)

Definition user_entry (kpage : Z) (writable : bool) : Z :=
  kpage - PHYS_BASE + (if writable then 7 else 5).
(** A frame that can be mapped: a page of physical memory, by its kernel
    virtual address. *)
Definition frame_addr (ram_pages kpage : Z) : Prop :=
  kpage mod 4096 = 0 ∧ PHYS_BASE <= kpage ∧ kpage + 4096 <= PHYS_BASE + ram_pages * 4096 ∧
  kpage + 4096 <= 4294967296.

Lemma pte_create_user_Ok kpage writable : kpage mod 4096 = 0 → PHYS_BASE <= kpage < 4294967296 →
  pte_create_user kpage writable = Ok (user_entry kpage writable).
Proof.
  intros Ha Hr. unfold pte_create_user, pte_create_kernel, vtop, is_kernel_vaddr. rewrite pg_ofs_mod.
  rewrite assert_true by by apply Z.eqb_eq. rewrite assert_true by (apply Z.leb_le; lia).
  cbn [mbind outcome_bind]. rewrite u32_small by (unfold PHYS_BASE in *; lia). f_equal.
  rewrite <- !Z.lor_assoc. unfold user_entry. by destruct writable; rewrite <- lor_low by (lia || by apply aligned_sub).
Qed.

Lemma set_page_checks {B} ram_pages pd upage kpage s (k : PM B) :
  upage mod 4096 = 0 → uaddr upage → frame_addr ram_pages kpage → pd ≠ base_page_dir s →
  (check (pg_ofs upage =? 0);; check (pg_ofs kpage =? 0);; check (is_user_vaddr upage);;
   p ← pureM (vtop kpage); check (Z.shiftr p PTSHIFT <? ram_pages);;
   s ← getS; check (negb (pd =? base_page_dir s));; k) s = k s.
Proof.
  intros Hu [? ?] (Hk & Hk0 & Hk1 & Hk2) Hb. rewrite !pg_ofs_mod, Hu, Hk. unfold PHYS_BASE in *.
  do 2 (rewrite (M_bind_step _ _ s () s) by done).
  rewrite (M_bind_step _ _ s () s) by (apply check_true; unfold is_user_vaddr; apply Z.ltb_lt; unfold PHYS_BASE; lia).
  unfold vtop, is_kernel_vaddr, PHYS_BASE. rewrite assert_true by (apply Z.leb_le; lia).
  rewrite u32_small by lia. rewrite (pureM_step _ _ _ _ eq_refl).
  rewrite (M_bind_step _ _ s () s).
  2: { apply check_true, Z.ltb_lt. rewrite Z.shiftr_div_pow2 by done. change (2 ^ PTSHIFT) with 4096.
       apply Z.div_lt_upper_bound; lia. }
  rewrite getS_step. rewrite (M_bind_step _ _ s () s); [done|].
  apply check_true, negb_true_iff. by apply Z.eqb_neq.
Qed.

(** Mapping a page that is not mapped. *)
Lemma pagedir_set_page_cases ram_pages s pds pd upage kpage writable :
  mmu_inv s pds → pd ∈ pds → pd ≠ base_page_dir s → upage mod 4096 = 0 → uaddr upage →
  frame_addr ram_pages kpage → has (pte_of s pd upage) PTE_P = false →
  (∃ s', pagedir_set_page ram_pages pd upage kpage writable s = Ok (true, s') ∧
     entry_step pds pd upage (user_entry kpage writable) s s' ∧ tlb s' = tlb s ∧ mmu_inv s' pds) ∨
  (pagedir_set_page ram_pages pd upage kpage writable s = Ok (false, s) ∧ no_table s pd upage).
Proof.
  intros Hinv Hpd Hb Hu Hva Hfr Hnp. pose proof (mi_mm _ _ Hinv) as Hok.
  unfold pagedir_set_page. rewrite set_page_checks by done.
  destruct (lookup_page_create s pds pd upage Hok Hpd Hb Hva) as [(a & s1 & E & Hok1 & Ha & Hview & Hcpu & Hus)|[E Hno]];
    [left|right; split; [by rewrite (M_bind_step _ _ _ _ _ E)|done]].
  rewrite (M_bind_step _ _ _ _ _ E). rewrite (slot_nonnull s1 pds pd upage) by done. cbn [negb].
  rewrite (ld_slot s1 pds pd upage) by done. rewrite Hview by done.
  destruct Hfr as (Hk & Hk0 & Hk1 & Hk2).
  rewrite (M_bind_step _ _ s1 () s1) by (apply check_true; by apply negb_false_iff).
  rewrite (pureM_step _ _ _ _ (pte_create_user_Ok kpage writable Hk ltac:(lia))).
  assert (is_u32 (user_entry kpage writable)) as Hw.
  { unfold is_u32, user_entry, PHYS_BASE in *. destruct writable; lia. }
  destruct (st_slot s1 pds pd upage a _ Hok1 Hpd Hva Ha Hw) as (Est & Hok' & Hup & Hus').
  rewrite (M_bind_step _ _ _ _ _ Est). eexists. split; [done|].
  assert (entry_step pds pd upage (user_entry kpage writable) s (set_word a (user_entry kpage writable) s1)) as Hs.
  { split; [done| |apply Hcpu|apply Hcpu|by eapply user_same_trans]. eapply updates_trans; [by apply same_view_updates|done]. }
  split; [done|]. split; [apply Hcpu|]. split; [done|unfold active; rewrite (es_cr3 _ _ _ _ _ _ Hs); apply Hinv|].
  eapply coherent_update; [done|apply Hs|apply Hs| |done]. right. split; [apply Hcpu|auto].
Qed.

(** * Translating an address *)

Definition frame (e : Z) : Z := Z.land e PTE_ADDR.
(** The kernel address behind a user address. *)
Definition translate (s : mmu) (pd va : Z) : option Z :=
  let e := pte_of s pd va in
  if has e PTE_P then Some (PHYS_BASE + frame e + va mod 4096) else None.

Lemma flag_value_low flag e : Z.land flag 4294963207 = 0 →
  has (Z.lor e flag) PTE_P = has e PTE_P ∧ frame (Z.lor e flag) = frame e.
Proof.
  intros Hz. pose proof (visible_lor e flag Hz) as Hv. split.
  - by rewrite has_visible, Hv, <- has_visible.
  - assert (∀ x, frame x = Z.land (visible x) PTE_ADDR) as Hf.
    { intros x. unfold frame, visible. by rewrite <- Z.land_assoc. }
    by rewrite !Hf, Hv.
Qed.

(** [pagedir_get_page] returns the translation and marks the entry accessed. *)
Lemma pagedir_get_page_Ok s pds pd va :
  mmu_inv s pds → pd ∈ pds → uaddr va → (has (pte_of s pd va) PTE_P = true → frame (pte_of s pd va) + 4096 <= 1073741824) →
  ∃ s', pagedir_get_page pd va s = Ok (default NULL (translate s pd va), s') ∧
    entry_step pds pd va (changed s pd va (flag_value PTE_A true)) s s' ∧ mmu_inv s' pds.
Proof.
  intros Hinv Hpd Hva Hfr. pose proof (mi_mm _ _ Hinv) as Hok. unfold pagedir_get_page.
  rewrite (M_bind_step _ _ s () s) by (apply check_true, Z.ltb_lt, Hva).
  rewrite (lookup_then s pds) by done.
  destruct (assign_flag_Ok s pds pd va PTE_A true Hinv Hpd Hva ltac:(by unfold is_u32)) as (s' & E & Hs & _).
  unfold pagedir_set_accessed. rewrite (M_bind_step _ _ _ _ _ E).
  assert (mmu_inv s' pds) as Hinv'.
  { apply (assign_flag_inv s pds pd va PTE_A true); [done|done|done| |done|done]. by unfold is_u32. }
  exists s'. split; [|done]. unfold translate, changed in *.
  destruct (pte_slot s pd va) as [a|] eqn:Ea; simpl.
  2: { unfold pte_of. by rewrite Ea. }
  rewrite (slot_nonnull s pds pd va) by done. simpl.
  assert (pte_slot s' pd va = Some a) as Ea'.
  { unfold assign_flag in E. rewrite (lookup_then s pds) in E by done. rewrite Ea in E. simpl in E.
    rewrite (slot_nonnull s pds pd va) in E by done. simpl in E. rewrite (ld_slot s pds pd va) in E by done.
    destruct (st_slot s pds pd va a (Z.lor (pte_of s pd va) PTE_A)) as (E2 & _); [done..| |].
    { apply lor_u32; [by eapply pte_u32|by unfold is_u32]. }
    rewrite E2 in E. injection E as <-. by rewrite (write_slot s pds Hok pd va a) by done. }
  rewrite (ld_slot s' pds pd va) by (done || apply Hinv'). rewrite (es_updates _ _ _ _ _ _ Hs) by done.
  rewrite decide_True by done. destruct (flag_value_low PTE_A (pte_of s pd va) eq_refl) as [Hp Hf].
  unfold flag_value. rewrite Hp. destruct (has (pte_of s pd va) PTE_P); [specialize (Hfr eq_refl)|done].
  unfold pte_get_page. fold (frame (Z.lor (pte_of s pd va) PTE_A)). rewrite Hf.
  assert (0 <= frame (pte_of s pd va)) by (apply Z.land_nonneg; right; done).
  unfold ptov. rewrite assert_true by (apply Z.ltb_lt; unfold PHYS_BASE; lia).
  rewrite (pureM_step _ _ _ _ eq_refl). unfold PHYS_BASE in *. rewrite pg_ofs_mod.
  pose proof (Z.mod_pos_bound va 4096 ltac:(lia)). rewrite u32_add_l. rewrite u32_small by lia.
  replace (3221225472 + frame (pte_of s pd va) + va mod 4096) with (frame (pte_of s pd va) + 3221225472 + va mod 4096) by lia. done.
Qed.

(** * Unmapping a page *)

Definition clear_present (e : Z) : Z :=
  if has e PTE_P then Z.land e (u32 (Z.lnot PTE_P)) else e.

Lemma pagedir_clear_page_Ok s pds pd upage :
  mmu_inv s pds → pd ∈ pds → upage mod 4096 = 0 → uaddr upage →
  ∃ s', pagedir_clear_page pd upage s = Ok ((), s') ∧
    entry_step pds pd upage (changed s pd upage clear_present) s s' ∧ mmu_inv s' pds.
Proof.
  intros Hinv Hpd Hu Hva. pose proof (mi_mm _ _ Hinv) as Hok. unfold pagedir_clear_page.
  rewrite (M_bind_step _ _ s () s) by (rewrite pg_ofs_mod, Hu; done).
  rewrite (M_bind_step _ _ s () s) by (apply check_true, Z.ltb_lt, Hva).
  rewrite (lookup_then s pds) by done. unfold changed.
  destruct (pte_slot s pd upage) as [a|] eqn:Ea; simpl.
  2: { eexists. split; [done|]. split; [by apply no_slot_step|done]. }
  rewrite (slot_nonnull s pds pd upage) by done. simpl. rewrite (ld_slot s pds pd upage) by done.
  unfold clear_present. destruct (has (pte_of s pd upage) PTE_P).
  2: { eexists. split; [done|]. split; [|done]. split; try done. by apply same_view_updates. }
  assert (is_u32 (Z.land (pte_of s pd upage) (u32 (Z.lnot PTE_P)))) as Hw.
  { apply land_u32; [by eapply pte_u32|apply u32_range]. }
  destruct (st_slot s pds pd upage a _ Hok Hpd Hva Ea Hw) as (Est & Hok' & Hup & Hus).
  rewrite (M_bind_step _ _ _ _ _ Est).
  destruct (invalidate_step s pds pd upage _ _ Hinv (Build_entry_step pds pd upage _ s _ Hok' Hup eq_refl eq_refl Hus))
    as (s' & E & Hs & Ht). exists s'. splits; [done..|].
  split; [apply Hs|unfold active; rewrite (es_cr3 _ _ _ _ _ _ Hs); apply Hinv|].
  eapply coherent_update; [done|apply Hs|apply Hs| |done].
  destruct (Z.eqb_spec (active s) pd); [by left|right]. split; [done|]. by intros ->.
Qed.

(** * Switching directories *)

Lemma pagedir_activate_Ok s pds pd :
  mmu_inv s pds → pd = NULL ∨ pd ∈ pds →
  ∃ s', pagedir_activate pd s = Ok ((), s') ∧ mmu_inv s' pds ∧ same_view pds s s' ∧
    active s' = (if pd =? NULL then base_page_dir s else pd) ∧ tlb s' = ∅.
Proof.
  intros [Hok Ha Hc] Hpd. unfold pagedir_activate. rewrite getS_step.
  set (d := if pd =? NULL then base_page_dir s else pd).
  assert (d ∈ pds) as Hd.
  { unfold d. destruct (Z.eqb_spec pd NULL); [apply Hok|]. by destruct Hpd. }
  destruct (pd_facts s pds Hok d Hd) as (_ & ? & ?).
  assert (vtop d = Ok (d - PHYS_BASE)) as E.
  { unfold vtop, is_kernel_vaddr, PHYS_BASE in *. rewrite assert_true by (apply Z.leb_le; lia).
    rewrite u32_small; [done|lia]. }
  rewrite (pureM_step _ _ _ _ E). eexists. split; [done|].
  assert (active (mkMmu (km s) (base_page_dir s) (d - PHYS_BASE) ∅) = d) as Hac by (unfold active; simpl; lia).
  splits; try done. split; [by destruct Hok; split|by rewrite Hac|].
  intros v e Hv. simpl in Hv. by rewrite lookup_empty in Hv.
Qed.

(** * A new directory *)

Definition page_bytes (m : mem) (p : Z) : list Z :=
  (λ i, default 0 (m !! (p + Z.of_nat i))) <$> seq 0 (Z.to_nat 4096).

Arguments page_bytes : simpl never.

Lemma page_bytes_at m p : mapped m p (Z.to_nat 4096) → bytes_at m p (page_bytes m p).
Proof.
  intros Hm i b Hi. unfold page_bytes in Hi. rewrite list_lookup_fmap in Hi.
  destruct (seq 0 (Z.to_nat 4096) !! i) as [j|] eqn:Ej; [|done]. simpl in Hi.
  apply lookup_seq in Ej as [-> Hj]. injection Hi as <-. destruct (Hm i Hj) as [v Hv]. simpl. by rewrite Hv.
Qed.

Lemma page_bytes_length m p : length (page_bytes m p) = Z.to_nat 4096.
Proof. unfold page_bytes. by rewrite length_fmap, length_seq. Qed.

Lemma page_bytes_u8 m p : mem_bytes m → Forall is_u8 (page_bytes m p).
Proof.
  intros Hm. apply Forall_fmap, Forall_forall. intros i _. simpl.
  destruct (m !! (p + Z.of_nat i)) eqn:E; simpl; [by eapply Hm|by unfold is_u8].
Qed.

Lemma rd32_copied m p q i : 0 <= i < 1024 →
  rd32 (put_bytes q (page_bytes m p) m) (q + 4 * i) = rd32 m (p + 4 * i).
Proof.
  intros Hi. assert (∀ j, 0 <= j < 4096 →
    put_bytes q (page_bytes m p) m !! (q + j) = Some (default 0 (m !! (p + j)))) as Hl.
  { intros j Hj. rewrite put_bytes_lookup, page_bytes_length. bcases; simpl; try lia.
    replace (q + j - q) with j by lia. unfold page_bytes. rewrite list_lookup_fmap, lookup_seq_lt by lia.
    simpl. by rewrite Z2Nat.id by lia. }
  unfold rd32. rewrite <- !Z.add_assoc. rewrite !Hl by lia. done.
Qed.

Section Create.
Context (s : mmu) (pds : gset Z) (Hinv : mmu_inv s pds) (pg : Z) (k : kmem) (Hg : got_page (km s) 0 pg k).

Let s1 := set_km k s.
Let bs := page_bytes (mram s1) (base_page_dir s).
Let s2 := set_km (set_ram (put_bytes pg bs (mram s1)) k) s.
Let Hok : mm_ok s pds := mi_mm _ _ Hinv.
Let Hok1 : mm_ok s1 pds := got_ok s pds Hok 0 pg k eq_refl Hg.

Lemma create_fresh pg' : kpage s pg' → pg' ≠ pg.
Proof. by apply (got_fresh s 0 pg k). Qed.

Lemma create_rd p i : p mod 4096 = 0 → p ≠ pg → 0 <= i < 1024 →
  rd32 (mram s2) (p + 4 * i) = rd32 (mram s) (p + 4 * i).
Proof.
  intros Hp Hne Hi. rewrite <- (got_rd s 0 pg k Hg) by done.
  change (mram s2) with (put_bytes pg bs (mram s1)). apply rd32_put_ne. unfold bs. rewrite page_bytes_length.
  pose proof (pages_apart pg p i (got_aligned s 0 pg k Hg)). lia.
Qed.

Lemma create_pde pd i : pd ∈ pds → 0 <= i < 1024 → pde_at s2 pd i = pde_at s pd i.
Proof.
  intros Hpd Hi. apply create_rd; [by apply (pd_facts s pds Hok)|by apply create_fresh, Hok|done].
Qed.

Lemma create_pde_new i : 0 <= i < 1024 → pde_at s2 pg i = pde_at s (base_page_dir s) i.
Proof.
  intros Hi. unfold pde_at. change (mram s2) with (put_bytes pg bs (mram s1)). unfold bs.
  rewrite rd32_copied by done. apply (got_rd s 0 pg k Hg); [|apply create_fresh, Hok, Hok|done].
  apply (pd_facts s pds Hok), Hok.
Qed.

Lemma create_kpage pg' : kpage s pg' → kpage s2 pg'.
Proof. intros H. exact (got_kpage s 0 pg k eq_refl Hg pg' H). Qed.

Lemma create_view : same_view pds s s2.
Proof.
  intros pd va Hpd Hva. pose proof (pd_no_user va Hva). unfold pte_of.
  assert (pte_slot s2 pd va = pte_slot s pd va) as -> by (unfold pte_slot; by rewrite create_pde by (done || lia)).
  destruct (pte_slot s pd va) as [a|] eqn:Ea; [|done].
  destruct (slot_table s pds Hok pd va a Hpd Hva Ea) as (pt & _ & Hk & _ & ->).
  apply create_rd; [apply Hk|by apply create_fresh|by apply pt_no_user].
Qed.

Lemma create_mm_ok : mm_ok s2 ({[pg]} ∪ pds).
Proof.
  pose proof create_pde as Hpde. pose proof create_pde_new as Hpde'.
  destruct Hok as [Hi Hp Hb Hn Hpt Hinj Hke]. split.
  - apply (kmem_inv_set_ram k); [apply Hok1|]. apply page_bytes_u8, Hok1.
  - intros pd [->%elem_of_singleton|Hpd]%elem_of_union; [exact (got_new s 0 pg k eq_refl Hg)|].
    by apply create_kpage, Hp.
  - by apply elem_of_union_r.
  - intros i Hr. change (base_page_dir s2) with (base_page_dir s). rewrite Hpde by (done || lia). by apply Hn.
  - intros pd i [->%elem_of_singleton|Hpd]%elem_of_union Hr; [by rewrite Hpde', Hn by lia|].
    rewrite Hpde by (done || lia). intros Hnz. destruct (Hpt pd i Hpd Hr Hnz) as (pt & ? & Hk & ?).
    exists pt. splits; [done|by apply create_kpage|]. pose proof (create_fresh pt Hk).
    by intros [?%elem_of_singleton|?]%elem_of_union.
  - intros pd1 i1 pd2 i2 [->%elem_of_singleton|H1]%elem_of_union [->%elem_of_singleton|H2]%elem_of_union Hi1 Hi2.
    + by rewrite Hpde', Hn by lia.
    + by rewrite Hpde', Hn by lia.
    + rewrite Hpde, Hpde', Hn by (done || lia). done.
    + rewrite !Hpde by (done || lia). by apply Hinj.
  - intros pd i [->%elem_of_singleton|Hpd]%elem_of_union Hr; change (base_page_dir s2) with (base_page_dir s);
      rewrite ?Hpde', !Hpde by (done || lia); [done|]. by apply Hke.
Qed.

Lemma create_run : on_km (palloc_get_page 0) s = Ok (pg, s1) → pagedir_create s = Ok (pg, s2).
Proof.
  intros E. unfold pagedir_create. rewrite getS_step. rewrite (M_bind_step _ _ _ _ _ E).
  destruct (Z.eqb_spec pg NULL); [by destruct Hg|]. cbn [negb].
  rewrite (M_bind_step _ _ _ () s2); [done|]. rewrite (M_bind_step _ _ _ pg s2); [done|].
  apply (on_km_Ok _ s1), on_ram_Ok.
  destruct (kpage_facts s1 pg (mo_inv _ _ Hok1) (got_new s 0 pg k eq_refl Hg)) as (Hga & Hg0 & Hg1 & Hgm).
  destruct (kpage_facts s1 (base_page_dir s) (mo_inv _ _ Hok1) (mo_pd _ _ Hok1 _ (mo_base _ _ Hok1)))
    as (Hba & Hb0 & Hb1 & Hbm).
  assert (base_page_dir s ≠ pg) by apply create_fresh, Hok, Hok.
  replace PGSIZE with (Z.of_nat (length bs)) by (unfold bs; by rewrite page_bytes_length).
  unfold PHYS_BASE in *. pose proof (Z.div_mod pg 4096). pose proof (Z.div_mod (base_page_dir s) 4096).
  apply memcpy_Ok; [lia|lia|by apply page_bytes_at|apply page_bytes_u8, Hok1|unfold bs; by rewrite page_bytes_length|].
  unfold bs. rewrite page_bytes_length. lia.
Qed.

End Create.

(** [pagedir_create]: a new directory without user mappings, or none. *)
Lemma pagedir_create_cases s pds :
  mmu_inv s pds →
  (∃ pd s', pagedir_create s = Ok (pd, s') ∧ pd ≠ NULL ∧ (pd ∉ pds) ∧ mmu_inv s' ({[pd]} ∪ pds) ∧
     same_view pds s s' ∧ (∀ va, uaddr va → pte_of s' pd va = 0)) ∨
  pagedir_create s = Ok (NULL, s).
Proof.
  intros Hinv. pose proof Hinv as [Hok Ha Hc].
  destruct (palloc_get_page_cases (km s) 0 (mo_inv _ _ Hok) eq_refl) as [(pg & k & E & Hg)|E].
  2: { right. unfold pagedir_create. rewrite getS_step.
       rewrite (M_bind_step _ _ _ _ _ (on_km_Ok _ _ _ _ E)). simpl. by rewrite set_km_same. }
  left. pose proof (create_view s pds Hinv pg k Hg) as Hview.
  eexists pg, _. splits; [apply (create_run s pds Hinv pg k Hg); by apply on_km_Ok|by destruct Hg| | |exact Hview|].
  - intros Hin. by apply (create_fresh s pg k Hg pg); [apply Hok|].
  - split; [by apply create_mm_ok|by apply elem_of_union_r|].
    intros v e Hv. destruct (Hc v e Hv) as (Huv & ? & ? & ?). split; [done|].
    pose proof (Hview (active s) (v * 4096) Ha Huv) as Ep.
    match goal with |- context [pte_of ?x ?a (v * 4096)] => change a with (active s) end. by rewrite Ep.
  - intros va Hva. pose proof (pd_no_user va Hva). unfold pte_of, pte_slot.
    by rewrite (create_pde_new s pds Hinv pg k Hg), (mo_none _ _ Hok) by lia.
Qed.

Lemma user_page_offset upage o : upage mod 4096 = 0 → uaddr upage → 0 <= o < 4096 →
  uaddr (upage + o) ∧ pg_no (upage + o) = pg_no upage ∧ (upage + o) mod 4096 = o.
Proof.
  unfold uaddr, PHYS_BASE. intros Hu Hva Ho. rewrite !pg_no_div. pose proof (Z.div_mod upage 4096).
  replace (upage + o) with (o + upage / 4096 * 4096) by lia.
  rewrite Z.div_add, Z.mod_add, (Z.div_small o), (Z.mod_small o) by lia. lia.
Qed.

Lemma user_entry_fields ram_pages kpage writable : frame_addr ram_pages kpage →
  has (user_entry kpage writable) PTE_P = true ∧ frame (user_entry kpage writable) = kpage - PHYS_BASE ∧
  has (user_entry kpage writable) PTE_W = writable.
Proof.
  intros (Ha & H0 & _ & H1). pose proof (aligned_sub kpage Ha) as Hs. unfold user_entry.
  set (x := kpage - PHYS_BASE) in *. assert (0 <= x < 4294963200) by (unfold x, PHYS_BASE in *; lia).
  assert (∀ f m, 0 <= f < 4096 → 0 <= m < 4096 → Z.land (x + f) m = Z.land f m) as Hlow.
  { intros f m ??. rewrite <- lor_low by done. rewrite Z.land_lor_distr_l.
    assert (Z.land x m = 0) as ->; [|done].
    pose proof (lor_low x m Hs ltac:(done)). pose proof (Z.add_lor_land x m). lia. }
  unfold has, frame. splits.
  - rewrite Hlow by (destruct writable; done). by destruct writable.
  - change PTE_ADDR with (4294967296 - 2 ^ 12).
    rewrite land_high_mask by (lia || unfold is_u32; destruct writable; lia). change (2 ^ 12) with 4096.
    rewrite Z.add_mod, Hs by lia. destruct writable; [change ((0 + 7 mod 4096) mod 4096) with 7|change ((0 + 5 mod 4096) mod 4096) with 5]; lia.
  - rewrite Hlow by (destruct writable; done). by destruct writable.
Qed.

(** * Properties *)

(** C21: mapping a page.  If the page is not mapped, [pagedir_set_page]
    installs the mapping: every address of the page then translates into the
    frame, with the write permission asked for, and every other page of every
    directory keeps its entry.  It fails, and changes nothing, only if the
    directory has no page table for the address and no page of the kernel pool
    is free. *)
Theorem pagedir_set_get ram_pages s pds pd upage kpage writable
  (Hinv : mmu_inv s pds) (Hpd : pd ∈ pds) (Hb : pd ≠ base_page_dir s)
  (Hu : upage mod 4096 = 0) (Hva : uaddr upage) (Hfr : frame_addr ram_pages kpage)
  (Hnp : has (pte_of s pd upage) PTE_P = false) :
  (∃ s', pagedir_set_page ram_pages pd upage kpage writable s = Ok (true, s') ∧ mmu_inv s' pds ∧
     (∀ o, 0 <= o < 4096 → ∃ s'', pagedir_get_page pd (upage + o) s' = Ok (kpage + o, s'')) ∧
     pagedir_is_writable pd upage s' = Ok (writable, s') ∧
     (∀ pd' va, pd' ∈ pds → uaddr va → pd' ≠ pd ∨ pg_no va ≠ pg_no upage →
        pte_of s' pd' va = pte_of s pd' va)) ∨
  (pagedir_set_page ram_pages pd upage kpage writable s = Ok (false, s) ∧
   pde_at s pd (pd_no upage) = 0 ∧ exhausted (kernel_pool (km s)) 1).
Proof.
  destruct (pagedir_set_page_cases ram_pages s pds pd upage kpage writable)
    as [(s' & E & Hs & _ & Hinv')|E]; try done; [left|by right].
  exists s'. splits; try done.
  - intros o Ho. destruct (user_page_offset upage o Hu Hva Ho) as (Hvo & Hpg & Hm).
    assert (pte_of s' pd (upage + o) = user_entry kpage writable) as Ee.
    { rewrite (es_updates _ _ _ _ _ _ Hs) by done. by rewrite decide_True by done. }
    destruct (user_entry_fields ram_pages kpage writable Hfr) as (Hp & Hf & _).
    destruct (pagedir_get_page_Ok s' pds pd (upage + o) Hinv' Hpd Hvo) as (s'' & -> & _).
    { intros _. rewrite Ee, Hf. destruct Hfr as (_ & _ & _ & ?). unfold PHYS_BASE. lia. }
    exists s''. unfold translate. rewrite Ee, Hp, Hf, Hm. simpl. do 2 f_equal. lia.
  - unfold pagedir_is_writable. rewrite (test_flag_Ok s' pds) by (done || apply Hinv').
    rewrite (es_updates _ _ _ _ _ _ Hs) by done. rewrite decide_True by done.
    by destruct (user_entry_fields ram_pages kpage writable Hfr) as (_ & _ & ->).
  - intros pd' va Hpd' Hva' Hd. rewrite (es_updates _ _ _ _ _ _ Hs) by done.
    rewrite decide_False; [done|]. intros [-> ?]. by destruct Hd.
Qed.
