(* ===== verification/PagedirSteps.v ===== *)
(** Sequences of page directory operations, interleaved with the processor
    filling its lookaside buffer: no cached translation ever goes stale. *)
From S2P Require Import Prelude Mem Str Word Bitmap FreeMap Vaddr Palloc Pagedir PagedirInv PagedirOps PagedirSafety.

Inductive pd_op :=
  | SetPage (pd upage kpage : Z) (writable : bool)
  | GetPage (pd uaddr : Z)
  | ClearPage (pd upage : Z)
  | SetDirty (pd vpage : Z) (dirty : bool)
  | SetStack (pd vpage : Z) (stack : bool)
  | SetAccessed (pd vpage : Z) (accessed : bool)
  | Activate (pd : Z).

Section Steps.
Context (ram_pages : Z).

Definition run_op (o : pd_op) : PM () :=
  match o with
  | SetPage pd u k w => pagedir_set_page ram_pages pd u k w;; mret ()
  | GetPage pd va => pagedir_get_page pd va;; mret ()
  | ClearPage pd u => pagedir_clear_page pd u
  | SetDirty pd va b => pagedir_set_dirty pd va b
  | SetStack pd va b => pagedir_set_stack pd va b
  | SetAccessed pd va b => pagedir_set_accessed pd va b
  | Activate pd => pagedir_activate pd
  end.

(** Calls the rest of the kernel may make: on live directories, for user pages. *)
Definition op_ok (pds : gset Z) (s : mmu) (o : pd_op) : Prop :=
  match o with
  | SetPage pd u k _ => pd ∈ pds ∧ pd ≠ base_page_dir s ∧ u mod 4096 = 0 ∧ uaddr u ∧
      frame_addr ram_pages k ∧ has (pte_of s pd u) PTE_P = false
  | GetPage pd va => pd ∈ pds ∧ uaddr va ∧ frame (pte_of s pd va) + 4096 <= 1073741824
  | ClearPage pd u => pd ∈ pds ∧ u mod 4096 = 0 ∧ uaddr u
  | SetDirty pd va _ | SetStack pd va _ | SetAccessed pd va _ => pd ∈ pds ∧ uaddr va
  | Activate pd => pd = NULL ∨ pd ∈ pds
  end.

(** The processor may set the accessed or the dirty bit of an entry of the
    active directory, and cache the translation of a present user page with no
    more marks than the entry has. *)
Definition cache (v e : Z) (s : mmu) : mmu := mkMmu (km s) (base_page_dir s) (cr3 s) (<[v := e]> (tlb s)).

Inductive mmu_step : mmu * gset Z → mmu * gset Z → Prop :=
  | step_op o s s' pds : op_ok pds s o → run_op o s = Ok ((), s') → mmu_step (s, pds) (s', pds)
  | step_create s s' pds pd : pagedir_create s = Ok (pd, s') → pd ≠ NULL →
      mmu_step (s, pds) (s', {[pd]} ∪ pds)
  | step_cache s pds v e : uaddr (v * 4096) → has e PTE_P = true →
      visible (pte_of s (active s) (v * 4096)) = visible e → marks e (pte_of s (active s) (v * 4096)) →
      mmu_step (s, pds) (cache v e s, pds)
  | step_mark s s' pds va flag : uaddr va → flag = PTE_A ∨ flag = PTE_D →
      assign_flag (active s) va flag true s = Ok ((), s') → mmu_step (s, pds) (s', pds).

Lemma run_op_Ok o s pds : mmu_inv s pds → op_ok pds s o →
  ∃ s', run_op o s = Ok ((), s') ∧ mmu_inv s' pds.
Proof.
  intros Hinv. destruct o as [pd u k w|pd va|pd u|pd va b|pd va b|pd va b|pd]; simpl.
  - intros (? & ? & ? & ? & ? & ?).
    destruct (pagedir_set_page_cases ram_pages s pds pd u k w) as [(s' & E & _ & _ & ?)|[E _]]; try done;
      rewrite (M_bind_step _ _ _ _ _ E); eauto.
  - intros (? & ? & ?). destruct (pagedir_get_page_Ok s pds pd va) as (s' & E & _ & ?); try done.
    rewrite (M_bind_step _ _ _ _ _ E). eauto.
  - intros (? & ? & ?). destruct (pagedir_clear_page_Ok s pds pd u) as (s' & E & _ & ?); eauto.
  - intros [? ?]. destruct (assign_flag_Ok s pds pd va PTE_D b) as (s' & E & _); [done..|by unfold is_u32|].
    exists s'. split; [done|]. eapply (assign_flag_inv s pds pd va PTE_D b); (done || by unfold is_u32).
  - intros [? ?]. destruct (assign_flag_Ok s pds pd va PTE_S b) as (s' & E & _); [done..|by unfold is_u32|].
    exists s'. split; [done|]. eapply (assign_flag_inv s pds pd va PTE_S b); (done || by unfold is_u32).
  - intros [? ?]. destruct (assign_flag_Ok s pds pd va PTE_A b) as (s' & E & _); [done..|by unfold is_u32|].
    exists s'. split; [done|]. eapply (assign_flag_inv s pds pd va PTE_A b); (done || by unfold is_u32).
  - intros Hpd. destruct (pagedir_activate_Ok s pds pd Hinv Hpd) as (s' & E & ? & _). eauto.
Qed.

Lemma mmu_step_inv c c' : mmu_step c c' → mmu_inv c.1 c.2 → mmu_inv c'.1 c'.2.
Proof.
  intros Hst. destruct Hst as [o s s' pds Hop E|s s' pds pd E Hn|s pds v e Hv Hp He Hm|s s' pds va flag Hva Hf E]; simpl; intros Hinv.
  - destruct (run_op_Ok o s pds Hinv Hop) as (s2 & E2 & ?). rewrite E in E2. by injection E2 as <-.
  - destruct (pagedir_create_cases s pds Hinv) as [(pd2 & s2 & E2 & _ & _ & ? & _)|E2];
      rewrite E in E2; injection E2 as ? ?; by subst.
  - destruct Hinv as [Hok Ha Hc]. split; [by destruct Hok; split|done|].
    intros v' e'. simpl. destruct (decide (v' = v)) as [->|].
    + rewrite lookup_insert_eq. by intros [= <-].
    + rewrite lookup_insert_ne by done. apply Hc.
  - eapply (assign_flag_inv s pds (active s) va flag true); [done|apply Hinv|done| | |done]; by destruct Hf as [-> | ->].
Qed.

Lemma mmu_steps_inv c c' : rtc mmu_step c c' → mmu_inv c.1 c.2 → mmu_inv c'.1 c'.2.
Proof. induction 1; [done|]. intros H1. eauto using mmu_step_inv. Qed.

(** C4: from a sound state, whatever sequence of calls that create, map, look
    up, unmap, mark and activate page directories runs (for user pages of live
    directories; a directory is not destroyed), and whatever the processor
    marks and caches in between, every cached translation is the one the active
    page directory gives: same frame, same presence, same permissions; and no
    cached entry has an accessed or dirty bit that the entry in memory has
    lost, so that no later access goes unrecorded. *)
Theorem tlb_never_stale s pds s' pds' v e
  (Hinv : mmu_inv s pds) (Hrun : rtc mmu_step (s, pds) (s', pds')) (Hv : tlb s' !! v = Some e) :
  translate s' (active s') (v * 4096) = Some (PHYS_BASE + frame e) ∧
  has (pte_of s' (active s') (v * 4096)) PTE_W = has e PTE_W ∧
  has (pte_of s' (active s') (v * 4096)) PTE_U = has e PTE_U ∧
  (has e PTE_A = true → has (pte_of s' (active s') (v * 4096)) PTE_A = true) ∧
  (has e PTE_D = true → has (pte_of s' (active s') (v * 4096)) PTE_D = true).
Proof.
  destruct (mmu_steps_inv _ _ Hrun Hinv) as [Hok Ha Hc]. simpl in *.
  destruct (Hc v e Hv) as (Hva & Hp & Hvis & HmA & HmD).
  assert (∀ m, Z.land 4294963207 m = m →
    Z.land (pte_of s' (active s') (v * 4096)) m = Z.land e m) as Hm.
  { intros m E. assert (∀ x, Z.land x m = Z.land (visible x) m) as Hx.
    { intros x. unfold visible. by rewrite <- Z.land_assoc, E. }
    by rewrite (Hx (pte_of _ _ _)), Hvis, <- Hx. }
  unfold translate, has, frame in *. rewrite !Hm by done. rewrite Hp, Z.mod_mul by lia.
  splits; try done. f_equal. lia.
Qed.

End Steps.

(** * A concrete state *)

(** Five zeroed kernel pages, the base page directory and another in use, and
    two user frames. *)
Definition sample_ram : mem := put_bytes 3222274048 (replicate (Z.to_nat 28672) 0) ∅.
Definition sample_pages : kmem :=
  mkKmem (mkPool (mkBitmap 5 [3]) 3222274048) (mkPool (mkBitmap 2 [3]) 3222294528) sample_ram.
Definition sample_mmu : mmu := mkMmu sample_pages 3222274048 1048576 ∅.
Definition sample_pds : gset Z := {[3222274048; 3222278144]}.

Lemma sample_ram_mapped q n : 3222274048 <= q → q + Z.of_nat n <= 3222302720 → mapped sample_ram q n.
Proof.
  intros. apply (mapped_sub _ 3222274048 (Z.to_nat 28672)); [|done|lia].
  rewrite <- (length_replicate (Z.to_nat 28672) 0) at 1. apply bytes_at_mapped, put_bytes_at.
Qed.
Lemma sample_ram_zero q : 3222274048 <= q → q + 4 <= 3222302720 → rd32 sample_ram q = 0.
Proof. intros. apply rd32_zeros; lia. Qed.
Lemma sample_ram_bytes : mem_bytes sample_ram.
Proof. apply mem_bytes_put; [apply map_Forall_empty|]. by apply replicate_u8. Qed.
Opaque sample_ram.

Lemma sample_pages_inv : kmem_inv sample_pages.
Proof.
  split; simpl; [| |done|apply sample_ram_bytes].
  - split; [|done..|apply sample_ram_mapped; [done|by vm_compute]]. split; [simpl; lia|]. split; [by vm_compute|]. by repeat constructor.
  - split; [|done..|apply sample_ram_mapped; [done|by vm_compute]]. split; [simpl; lia|]. split; [by vm_compute|]. by repeat constructor.
Qed.

Lemma sample_pds_elem pd : pd ∈ sample_pds → pd = 3222274048 ∨ pd = 3222278144.
Proof. unfold sample_pds. set_solver. Qed.

Lemma sample_pde pd i : pd ∈ sample_pds → 0 <= i < 1024 → pde_at sample_mmu pd i = 0.
Proof.
  intros Hpd Hi. unfold pde_at. change (mram sample_mmu) with sample_ram.
  destruct (sample_pds_elem pd Hpd) as [->| ->]; apply sample_ram_zero; lia.
Qed.

Lemma sample_mmu_inv : mmu_inv sample_mmu sample_pds.
Proof.
  assert (3222274048 ∈ sample_pds) as Hb by by apply elem_of_union_l, elem_of_singleton.
  pose proof sample_pde as Hz.
  split; [|done|intros v e Hv; simpl in Hv; by rewrite lookup_empty in Hv]. split.
  - apply sample_pages_inv.
  - intros pd [->| ->]%sample_pds_elem; by split.
  - done.
  - intros i Hi. apply Hz; [done|lia].
  - intros pd i Hpd Hi Hnz. destruct Hnz. apply Hz; [done|lia].
  - intros pd1 i1 pd2 i2 H1 ? Hi1 ? Hnz. destruct Hnz. apply Hz; [done|lia].
  - intros pd i Hpd Hi. rewrite !Hz; done || lia.
Qed.

Lemma sample_pte pd va : pd ∈ sample_pds → uaddr va → pte_of sample_mmu pd va = 0.
Proof. intros Hpd Hva. pose proof (pd_no_user va Hva). unfold pte_of, pte_slot. by rewrite sample_pde by (done || lia). Qed.

Lemma sample_pd_in : 3222278144 ∈ sample_pds.
Proof. by apply elem_of_union_r, elem_of_singleton. Qed.
Lemma sample_uaddr : uaddr 134512640.
Proof. by split. Qed.
Lemma sample_frame : frame_addr 2048 3222294528.
Proof. by split. Qed.

(** The first mapping of a page in the second directory succeeds. *)
Lemma sample_set_page :
  ∃ s', pagedir_set_page 2048 3222278144 134512640 3222294528 true sample_mmu = Ok (true, s') ∧
    mmu_inv s' sample_pds ∧ pte_of s' 3222278144 134512640 = user_entry 3222294528 true ∧ active s' = 3222274048.
Proof.
  assert (result (pagedir_set_page 2048 3222278144 134512640 3222294528 true sample_mmu) = Some true) as E
    by by vm_compute.
  destruct (pagedir_set_page_cases 2048 sample_mmu sample_pds 3222278144 134512640 3222294528 true
    sample_mmu_inv sample_pd_in ltac:(done) ltac:(done) sample_uaddr sample_frame) as [(s' & E' & Hs & _ & Hi)|[E' _]].
  - rewrite sample_pte; [done|apply sample_pd_in|apply sample_uaddr].
  - exists s'. splits; [done|done| |].
    + rewrite (es_updates _ _ _ _ _ _ Hs) by (apply sample_pd_in || apply sample_uaddr).
      rewrite decide_True; [reflexivity|split; reflexivity].
    + unfold active. by rewrite (es_cr3 _ _ _ _ _ _ Hs).
  - rewrite E' in E. discriminate E.
Qed.

Lemma pagedir_set_get_witness :
  ∃ s', pagedir_set_page 2048 3222278144 134512640 3222294528 true sample_mmu = Ok (true, s') ∧
    pagedir_is_writable 3222278144 134512640 s' = Ok (true, s').
Proof.
  destruct (pagedir_set_get 2048 sample_mmu sample_pds 3222278144 134512640 3222294528 true
    sample_mmu_inv sample_pd_in ltac:(done) ltac:(done) sample_uaddr sample_frame) as [(s' & E & _ & _ & Hw & _)|[_ [_ Hex]]].
  - rewrite sample_pte; [reflexivity|apply sample_pd_in|apply sample_uaddr].
  - exists s'. split; [exact E|exact Hw].
  - exfalso. destruct (Hex 3222282240) as (i & Hi & Hu); [reflexivity|done|by vm_compute|].
    replace i with 0 in Hu by lia. discriminate Hu.
Defined.

Lemma tlb_never_stale_witness :
  ∃ s' e, rtc (mmu_step 2048) (sample_mmu, sample_pds) (s', sample_pds) ∧ tlb s' !! 32840 = Some e ∧
    translate s' (active s') (32840 * 4096) = Some (PHYS_BASE + frame e).
Proof.
  destruct sample_set_page as (s1 & E1 & Hi1 & He & _).
  destruct (pagedir_activate_Ok s1 sample_pds 3222278144 Hi1 (or_intror sample_pd_in)) as (s2 & E2 & Hi2 & Hv & Ha & _).
  set (e := user_entry 3222294528 true). exists (cache 32840 e s2), e.
  assert (rtc (mmu_step 2048) (sample_mmu, sample_pds) (cache 32840 e s2, sample_pds)) as Hrun.
  { apply rtc_l with (s1, sample_pds).
    { apply (step_op _ (SetPage 3222278144 134512640 3222294528 true)).
      - refine (conj sample_pd_in (conj _ (conj eq_refl (conj sample_uaddr (conj sample_frame _))))); [discriminate|].
        rewrite sample_pte; [reflexivity|apply sample_pd_in|apply sample_uaddr].
      - unfold run_op. rewrite (M_bind_step _ _ _ _ _ E1). reflexivity. }
    apply rtc_l with (s2, sample_pds).
    { apply (step_op _ (Activate 3222278144)); [right; apply sample_pd_in|exact E2]. }
    apply rtc_once, step_cache; [by split|reflexivity| |]; rewrite Ha; change (32840 * 4096) with 134512640;
      cbn [Z.eqb NULL]; (rewrite Hv by (apply sample_pd_in || apply sample_uaddr)); rewrite He; [reflexivity|apply marks_refl]. }
  assert (tlb (cache 32840 e s2) !! 32840 = Some e) as Ht by apply lookup_insert_eq.
  split; [exact Hrun|]. split; [exact Ht|].
  exact (proj1 (tlb_never_stale 2048 sample_mmu sample_pds _ sample_pds 32840 e sample_mmu_inv Hrun Ht)).
Defined.
