(* ===== verification/Frame.v ===== *)
(** The frame table and the swap table (vm/swap.c): the frames of user pages in
    the order in which the clock algorithm looks at them, and the slots of the
    swap disk.

    [frame_lock] makes each operation on the frame table atomic.  [swap_lock]
    is the current thread's view of it, since [swap_table_scan_and_flip] returns
    with the lock held.  A frame element is known by its address. *)
From S2P Require Import Prelude Mem Str Word Bitmap FreeMap Vaddr Palloc Pagedir PagedirInv PagedirOps PagedirSafety PagedirSteps.

Record frame_elem := mkFrame { pd_thread : Z; fe_pd : Z; fe_vaddr : Z }.
Record vm := mkVm {
  vm_mmu : mmu;
  frames : gmap Z frame_elem;
  frame_table : list Z;
  swap_table : option bitmap;
  swap_lock : bool
}.
Abbreviation VM := (M vm).

Definition set_mmu (u : mmu) (s : vm) : vm := mkVm u (frames s) (frame_table s) (swap_table s) (swap_lock s).
Definition set_table (l : list Z) (s : vm) : vm := mkVm (vm_mmu s) (frames s) l (swap_table s) (swap_lock s).
Definition set_swap (b : option bitmap) (s : vm) : vm := mkVm (vm_mmu s) (frames s) (frame_table s) b (swap_lock s).
Definition set_swap_lock (h : bool) (s : vm) : vm := mkVm (vm_mmu s) (frames s) (frame_table s) (swap_table s) h.
Definition on_mmu {A} (f : PM A) : VM A := λ s, '(a, u) ← f (vm_mmu s); Ok (a, set_mmu u s).

(** * Swap slots *)

(** [lock_acquire] asserts that the thread does not hold the lock already, and
    [lock_release] that it does. *)
Definition swap_lock_acquire : VM () :=
  s ← getS; check (negb (swap_lock s));; modS (set_swap_lock true).
Definition swap_lock_release : VM () :=
  s ← getS; check (swap_lock s);; modS (set_swap_lock false).

(** [sectors] is the size of the swap disk; a slot is eight sectors. *)
Definition swap_table_bitmap_init (hdr : bool) (store : option (list Z)) (sectors : Z) : VM () :=
  b ← pureM (bitmap_create hdr store (sectors / 8));
  modS (λ s, set_swap_lock false (set_swap b s)).
Definition get_swap_table : VM bitmap := s ← getS; pureM (of_option (swap_table s)).
Definition swap_table_bitmap_set (idx : Z) (toset : bool) : VM () :=
  swap_lock_acquire;;
  b ← get_swap_table;
  b ← pureM (bitmap_set b idx toset);
  modS (set_swap (Some b));;
  swap_lock_release.
Definition swap_table_scan_and_flip : VM Z :=
  swap_lock_acquire;;
  b ← get_swap_table;
  '(ans, b) ← pureM (bitmap_scan_and_flip b 0 1 false);
  modS (set_swap (Some b));;
  mret ans.

(** * Frames *)

Definition frame_table_init : VM () := modS (set_table []).
Definition frame_table_push_back (e : Z) : VM () := modS (λ s, set_table (frame_table s ++ [e]) s).
Definition frame_table_size : VM Z := s ← getS; mret (Z.of_nat (length (frame_table s))).
(** [list_pop_front] asserts that the list is not empty. *)
Definition frame_table_pop_front : VM Z :=
  s ← getS;
  match frame_table s with
  | [] => fail AssertFail
  | e :: l => modS (set_table l);; mret e
  end.
Definition get_frame (e : Z) : VM frame_elem := s ← getS; pureM (of_option (frames s !! e)).

(** [while (pagedir_is_accessed (...) || pagedir_is_stack (...))]. *)
Fixpoint victim_loop (fuel : nat) (e : Z) : VM Z :=
  match fuel with
  | O => fail OutOfFuel
  | S fuel =>
      totest ← get_frame e;
      accessed ← on_mmu (pagedir_is_accessed (fe_pd totest) (fe_vaddr totest));
      hot ← (if (accessed : bool) then mret true
             else on_mmu (pagedir_is_stack (fe_pd totest) (fe_vaddr totest)));
      if (hot : bool) then
        on_mmu (pagedir_set_accessed (fe_pd totest) (fe_vaddr totest) false);;
        frame_table_push_back e;;
        e ← frame_table_pop_front;
        victim_loop fuel e
      else mret e
  end.

(** [None] for the null pointer.  Two rounds of the clock are enough unless
    every frame is a stack page. *)
Definition frame_table_find_victim : VM (option Z) :=
  s ← getS;
  prev_size ← frame_table_size;
  match frame_table s with
  | [] => mret None
  | _ :: _ =>
      e ← frame_table_pop_front;
      e ← victim_loop (2 * length (frame_table s) + 1) e;
      totest ← get_frame e;
      next_size ← frame_table_size;
      check (is_kernel_vaddr e);;
      check (is_user_vaddr (fe_vaddr totest));;
      check (next_size =? u32 (prev_size - 1));;
      check (negb (pd_thread totest =? NULL));;
      mret (Some e)
  end.

Definition free_frame (e : Z) (s : vm) : vm :=
  mkVm (vm_mmu s) (delete e (frames s)) (frame_table s) (swap_table s) (swap_lock s).

(** [while (elem_pointer != list_end (&frame_table))] over the elements still
    to be visited; [keep] collects those that stay. *)
Fixpoint delete_loop (pd : Z) (todo keep : list Z) : VM () :=
  match todo with
  | [] => modS (set_table keep)
  | e :: todo =>
      i ← get_frame e;
      if fe_pd i =? pd then modS (free_frame e);; delete_loop pd todo keep
      else delete_loop pd todo (keep ++ [e])
  end.
Definition frame_table_delete (pd : Z) : VM () := s ← getS; delete_loop pd (frame_table s) [].

Fixpoint elem_delete_loop (target_addr target_pd : Z) (todo keep : list Z) : VM () :=
  match todo with
  | [] => modS (set_table keep)
  | e :: todo =>
      i ← get_frame e;
      if (fe_vaddr i =? target_addr) && (fe_pd i =? target_pd) then
        k ← on_mmu (pagedir_get_page (fe_pd i) (fe_vaddr i));
        on_mmu (on_km (palloc_free_page k));;
        on_mmu (pagedir_clear_page (fe_pd i) (fe_vaddr i));;
        modS (free_frame e);;
        elem_delete_loop target_addr target_pd todo keep
      else elem_delete_loop target_addr target_pd todo (keep ++ [e])
  end.
Definition frame_elem_delete (target_addr target_pd : Z) : VM () :=
  s ← getS; elem_delete_loop target_addr target_pd (frame_table s) [].

(** * Invariant *)

Definition page_of (f : frame_elem) : Z * Z := (fe_pd f, pg_no (fe_vaddr f)).

(** Every frame in the table is a user page of a known directory, belongs to a
    thread, and no two are the same page; there are fewer than 2^32. *)
Record vm_inv (s : vm) (pds : gset Z) : Prop := {
  vi_mmu : mmu_inv (vm_mmu s) pds;
  vi_nodup : NoDup (frame_table s);
  vi_size : Z.of_nat (length (frame_table s)) < 4294967296;
  vi_frames : ∀ e, e ∈ frame_table s → ∃ f, frames s !! e = Some f ∧ fe_pd f ∈ pds ∧ uaddr (fe_vaddr f) ∧
                PHYS_BASE <= e ∧ pd_thread f ≠ NULL;
  vi_distinct : ∀ e e' f f', e ∈ frame_table s → e' ∈ frame_table s → frames s !! e = Some f →
                  frames s !! e' = Some f' → page_of f = page_of f' → e = e'
}.

(** The bits the clock looks at. *)
Definition bit (flag : Z) (s : vm) (e : Z) : bool :=
  match frames s !! e with
  | Some f => has (pte_of (vm_mmu s) (fe_pd f) (fe_vaddr f)) flag
  | None => false
  end.
Definition hot (s : vm) (e : Z) : bool := bit PTE_A s e || bit PTE_S s e.

(** [set_new_dirty_page] (vm/page.c): the page of the stack pointer is marked as
    the stack page; the result is the thread's new [user_esp]. *)
Definition set_new_dirty_page (new_esp pagedir user_esp : Z) : PM Z :=
  if negb (user_esp =? new_esp) && is_user_vaddr new_esp then
    pagedir_set_stack pagedir (pg_round_down user_esp) false;;
    pagedir_set_stack pagedir (pg_round_down new_esp) true;;
    mret new_esp
  else mret user_esp.
