(* ===== verification/FrameClock.v ===== *)
(** The clock algorithm of the frame table: it finds a victim within two
    rounds if some frame is not a stack page, gives every page that was used
    a second chance, and otherwise never stops. *)
From S2P Require Import Prelude Mem Str Word Bitmap FreeMap Vaddr Palloc Pagedir PagedirInv PagedirOps PagedirSafety PagedirSteps Frame.

Definition not_accessed (w : Z) : Z := Z.land w (u32 (Z.lnot PTE_A)).
(** An entry the clock may have passed. *)
Definition aged (w w' : Z) : Prop := w' = w ∨ w' = not_accessed w.

Lemma not_accessed_bits w :
  has (not_accessed w) PTE_A = false ∧ has (not_accessed w) PTE_S = has w PTE_S.
Proof. unfold has, not_accessed. rewrite <- !Z.land_assoc. split; [|done]. by rewrite Z.land_0_r. Qed.
Lemma not_accessed_idem w : not_accessed (not_accessed w) = not_accessed w.
Proof. unfold not_accessed. by rewrite <- Z.land_assoc. Qed.
Lemma aged_trans w w' w'' : aged w w' → aged w' w'' → aged w w''.
Proof. intros [-> | ->] [-> | ->]; unfold aged; rewrite ?not_accessed_idem; auto. Qed.

Lemma size_step {B} (f : Z → VM B) s : (frame_table_size ≫= f) s = f (Z.of_nat (length (frame_table s))) s.
Proof. done. Qed.
Lemma pop_step {B} (f : Z → VM B) s e T : frame_table s = e :: T →
  (frame_table_pop_front ≫= f) s = f e (set_table T s).
Proof. intros E. unfold frame_table_pop_front, mbind, M_bind, getS. by rewrite E. Qed.
Lemma get_frame_Ok s e f : frames s !! e = Some f → get_frame e s = Ok (f, s).
Proof. intros Hf. unfold get_frame. rewrite getS_step. unfold pureM. by rewrite Hf. Qed.

Section Clock.
Context (pds : gset Z).

(** The state while the clock looks at [e]: the table without it is sound. *)
Definition looking (s : vm) (e : Z) : Prop := vm_inv (set_table (e :: frame_table s) s) pds.

(** What passing the frames [P] does: nothing but clearing their accessed
    bits. *)
Record passed (P : list Z) (s s' : vm) : Prop := {
  pa_frames : frames s' = frames s;
  pa_swap : swap_table s' = swap_table s ∧ swap_lock s' = swap_lock s;
  pa_user : user_same (vm_mmu s) (vm_mmu s') ∧ base_page_dir (vm_mmu s') = base_page_dir (vm_mmu s);
  pa_view : ∀ pd va, pd ∈ pds → uaddr va → aged (pte_of (vm_mmu s) pd va) (pte_of (vm_mmu s') pd va)
}.

Lemma looking_frame s e x : looking s e → x ∈ e :: frame_table s →
  ∃ f, frames s !! x = Some f ∧ fe_pd f ∈ pds ∧ uaddr (fe_vaddr f) ∧ PHYS_BASE <= x ∧ pd_thread f ≠ NULL.
Proof using. intros [_ _ _ H _] Hx. exact (H x Hx). Qed.

(** The test of the loop. *)
Lemma test_hot s e k : looking s e →
  victim_loop (S k) e s =
    if hot s e then
      (totest ← get_frame e;
       on_mmu (pagedir_set_accessed (fe_pd totest) (fe_vaddr totest) false);;
       frame_table_push_back e;; e ← frame_table_pop_front; victim_loop k e) s
    else Ok (e, s).
Proof using.
  intros Hl. destruct (looking_frame s e e Hl ltac:(left)) as (f & Hf & Hpd & Hva & _).
  destruct Hl as [[Hmm _ _] _ _ _ _]. cbn [vm_mmu set_table] in Hmm.
  assert (get_frame e s = Ok (f, s)) as Eg by by apply get_frame_Ok.
  assert (∀ flag, on_mmu (test_flag (fe_pd f) (fe_vaddr f) flag) s = Ok (bit flag s e, s)) as Et.
  { intros flag. unfold on_mmu. rewrite (test_flag_Ok _ pds) by done. unfold bit. rewrite Hf. by destruct s. }
  cbn [victim_loop]. erewrite M_bind_step by exact Eg. unfold pagedir_is_accessed, pagedir_is_stack.
  erewrite M_bind_step by exact (Et PTE_A). unfold hot. destruct (bit PTE_A s e); cbn [orb].
  - erewrite M_bind_step by reflexivity. cbn beta iota. symmetry. by erewrite M_bind_step by exact Eg.
  - erewrite M_bind_step by exact (Et PTE_S). destruct (bit PTE_S s e); [|done].
    symmetry. by erewrite M_bind_step by exact Eg.
Qed.

(** Passing a hot frame. *)
Lemma pass_one s e k e' T' : looking s e → hot s e = true → frame_table s ++ [e] = e' :: T' →
  ∃ s', victim_loop (S k) e s = victim_loop k e' s' ∧ frame_table s' = T' ∧ looking s' e' ∧ passed [e] s s' ∧
    ∀ x, x ∈ e :: frame_table s →
      bit PTE_A s' x = bit PTE_A s x && negb (x =? e) ∧ bit PTE_S s' x = bit PTE_S s x.
Proof using.
  intros Hl Hh HT. rewrite test_hot, Hh by done.
  destruct (looking_frame s e e Hl ltac:(left)) as (f & Hf & Hpd & Hva & _).
  pose proof (vi_mmu _ _ Hl) as Hinv. cbn [vm_mmu set_table] in Hinv.
  assert (get_frame e s = Ok (f, s)) as Eg by by apply get_frame_Ok.
  erewrite M_bind_step by exact Eg.
  destruct (assign_flag_Ok (vm_mmu s) pds (fe_pd f) (fe_vaddr f) PTE_A false Hinv Hpd Hva ltac:(by unfold is_u32))
    as (u & Eu & Hu & _).
  pose proof (assign_flag_inv _ pds _ _ PTE_A false u Hinv Hpd Hva ltac:(by unfold is_u32) eq_refl Eu) as Hinv'.
  erewrite M_bind_step by (unfold on_mmu, pagedir_set_accessed; rewrite Eu; reflexivity).
  unfold frame_table_push_back. rewrite modS_step. cbn [frame_table set_mmu set_table].
  erewrite pop_step by exact HT. eexists. split; [reflexivity|]. split; [done|].
  assert (∀ pd va, pd ∈ pds → uaddr va → pte_of u pd va =
    if decide (pd = fe_pd f ∧ pg_no va = pg_no (fe_vaddr f)) then not_accessed (pte_of (vm_mmu s) pd va)
    else pte_of (vm_mmu s) pd va) as Hview.
  { intros pd va Hpd' Hva'. rewrite (es_updates _ _ _ _ _ _ Hu pd va Hpd' Hva').
    case_decide as Hd; [|done]. destruct Hd as [-> Hpg]. unfold changed.
    assert (pte_slot (vm_mmu s) (fe_pd f) va = pte_slot (vm_mmu s) (fe_pd f) (fe_vaddr f)) as Es.
    { unfold pte_slot. apply same_page in Hpg as [-> ->]; done. }
    unfold pte_of. rewrite Es. by destruct (pte_slot (vm_mmu s) (fe_pd f) (fe_vaddr f)). }
  assert (∀ x, x ∈ e' :: T' ↔ x ∈ e :: frame_table s) as Hperm by (intros x; rewrite <- HT; set_solver).
  splits.
  - split; cbn [vm_mmu set_table set_mmu frame_table frames].
    + done.
    + rewrite <- HT. pose proof (vi_nodup _ _ Hl) as Hnd. cbn [frame_table set_table] in Hnd.
      rewrite <- Permutation_cons_append. exact Hnd.
    + rewrite <- HT. pose proof (vi_size _ _ Hl) as Hsz. cbn [frame_table set_table] in Hsz.
      rewrite <- Permutation_cons_append. exact Hsz.
    + intros x Hx. apply Hperm in Hx. exact (looking_frame s e x Hl Hx).
    + intros x y fx fy Hx Hy. apply Hperm in Hx, Hy. exact (vi_distinct _ _ Hl x y fx fy Hx Hy).
  - split; [done|done|by split; apply Hu|]. intros pd va Hpd' Hva'. cbn [vm_mmu set_table set_mmu]. rewrite Hview by done.
    unfold aged. case_decide; auto.
  - intros x Hx. destruct (looking_frame s e x Hl Hx) as (fx & Hfx & Hpdx & Hvax & _).
    unfold bit. cbn [vm_mmu set_table set_mmu frames]. rewrite Hfx, Hview by done.
    destruct (not_accessed_bits (pte_of (vm_mmu s) (fe_pd fx) (fe_vaddr fx))) as [Ha Hs].
    case_decide as Hd.
    + assert (x = e) as ->.
      { apply (vi_distinct _ _ Hl x e fx f Hx ltac:(left) Hfx Hf). unfold page_of. destruct Hd as [-> ->]. done. }
      by rewrite Ha, Hs, Z.eqb_refl, andb_false_r.
    + destruct (Z.eqb_spec x e) as [->|]; [|by rewrite andb_true_r]. rewrite Hf in Hfx. simplify_eq. by destruct Hd.
Qed.

Lemma passed_trans P Q s s' s'' : passed P s s' → passed Q s' s'' → passed (P ++ Q) s s''.
Proof using.
  intros [Hf [Hs Hl] [Hu Hb] Hv] [Hf' [Hs' Hl'] [Hu' Hb'] Hv']. split; [by rewrite Hf'|by rewrite Hs', Hl'| |].
  { split; [by eapply user_same_trans|congruence]. }
  intros. eapply aged_trans; [by apply Hv|by apply Hv'].
Qed.

(** Passing a sequence of distinct hot frames. *)
Lemma pass_all P s e Q k : looking s e → NoDup P → e :: frame_table s = P ++ Q → Forall (λ x, hot s x = true) P →
  ∃ s' e', victim_loop (length P + k) e s = victim_loop k e' s' ∧ e' :: frame_table s' = Q ++ P ∧
    looking s' e' ∧ passed P s s' ∧
    ∀ x, x ∈ e :: frame_table s →
      bit PTE_A s' x = bit PTE_A s x && bool_decide (x ∉ P) ∧ bit PTE_S s' x = bit PTE_S s x.
Proof using.
  revert s e Q. induction P as [|p P IH]; intros s e Q Hl Hnd HT Hh.
  { exists s, e. rewrite app_nil_r. splits; try done.
    - split; try done. by left.
    - intros x _. rewrite bool_decide_true by set_solver. by rewrite andb_true_r. }
  injection HT as <- HT. apply NoDup_cons in Hnd as [Hnp Hnd]. apply Forall_cons in Hh as [Hh HP].
  destruct (frame_table s ++ [e]) as [|e' T'] eqn:E; [by destruct (frame_table s)|].
  destruct (pass_one s e (length P + k) e' T' Hl Hh E) as (s1 & E1 & HT1 & Hl1 & Hp1 & Hb1).
  assert (e' :: frame_table s1 = P ++ (Q ++ [e])) as HT1'.
  { rewrite HT1, <- E, HT. by rewrite app_assoc. }
  assert (∀ x, x ∈ e :: frame_table s ↔ x ∈ e' :: frame_table s1) as Hperm
    by (intros x; rewrite HT1, <- E; set_solver).
  destruct (IH s1 e' (Q ++ [e]) Hl1 Hnd HT1') as (s2 & e2 & E2 & HT2 & Hl2 & Hp2 & Hb2).
  { rewrite Forall_forall in *. intros x Hx. specialize (HP x Hx). unfold hot in *.
    destruct (Hb1 x) as [-> ->]; [rewrite HT; set_solver|].
    destruct (Z.eqb_spec x e) as [->|]; [done|]. by rewrite andb_true_r. }
  exists s2, e2. splits.
  - cbn [length Nat.add]. by rewrite E1.
  - by rewrite HT2, <- app_assoc.
  - done.
  - by apply (passed_trans [e]  P s s1 s2).
  - intros x Hx. destruct (Hb2 x ltac:(by apply Hperm)) as [-> ->]. destruct (Hb1 x Hx) as [-> ->].
    split; [|done]. rewrite <- andb_assoc. f_equal. destruct (Z.eqb_spec x e) as [->|]; simpl.
    + rewrite bool_decide_false; set_solver.
    + apply bool_decide_ext. set_solver.
Qed.

(** A frame that is not hot is returned at once. *)
Lemma take_cold s e k : looking s e → hot s e = false → victim_loop (S k) e s = Ok (e, s).
Proof using. intros Hl Hc. by rewrite test_hot, Hc. Qed.

(** The first element of a list that fails a test. *)
Lemma first_failing (t : Z → bool) l :
  Forall (λ x, t x = true) l ∨ ∃ A v B, l = A ++ v :: B ∧ Forall (λ x, t x = true) A ∧ t v = false.
Proof using.
  induction l as [|x l [IH|(A & v & B & -> & HA & Hv)]]; [by left| |].
  - destruct (t x) eqn:E; [left; by constructor|right]. by exists [], x, l.
  - right. destruct (t x) eqn:E; [exists (x :: A), v, B; by repeat constructor|by exists [], x, (A ++ v :: B)].
Qed.

(** The victim: the first frame in clock order that is neither accessed nor
    a stack page, or, if all are, the first that is no stack page. *)
Definition chosen (s : vm) (A : list Z) (v : Z) (B : list Z) : Prop :=
  bit PTE_S s v = false ∧
  ((bit PTE_A s v = false ∧ Forall (λ x, hot s x = true) A) ∨
   (Forall (λ x, hot s x = true) (A ++ v :: B) ∧ Forall (λ x, bit PTE_S s x = true) A)).

Lemma victim_found s e : looking s e →
  let L := e :: frame_table s in
  (∃ x, x ∈ L ∧ bit PTE_S s x = false) →
  ∃ v A B s' P, L = A ++ v :: B ∧ chosen s A v B ∧ victim_loop (2 * length L + 1) e s = Ok (v, s') ∧
    v :: frame_table s' = v :: B ++ A ∧ looking s' v ∧ passed P s s'.
Proof using.
  intros Hl L (x0 & Hx0 & Hs0). pose proof (vi_nodup _ _ Hl) as Hnd. cbn [frame_table set_table] in Hnd. fold L in Hnd.
  destruct (first_failing (hot s) L) as [Hall|(A & v & B & HL & HA & Hv)].
  - destruct (pass_all L s e [] (length L + 1) Hl Hnd ltac:(by rewrite app_nil_r) Hall) as (s1 & e1 & E1 & HT1 & Hl1 & Hp1 & Hb1).
    cbn [app] in HT1.
    destruct (first_failing (bit PTE_S s) L) as [Hst|(A & v & B & HL & HA & Hv)].
    { rewrite Forall_forall in Hst. by rewrite Hst in Hs0. }
    assert (∀ x, x ∈ L → hot s1 x = bit PTE_S s x) as Hhot1.
    { intros x Hx. unfold hot. destruct (Hb1 x Hx) as [-> ->]. by rewrite bool_decide_false, andb_false_r by set_solver. }
    destruct (pass_all A s1 e1 (v :: B) (S (length B + 1)) Hl1) as (s2 & e2 & E2 & HT2 & Hl2 & Hp2 & Hb2).
    { rewrite HL in Hnd. by apply NoDup_app in Hnd as [? _]. }
    { by rewrite HT1. }
    { rewrite Forall_forall in *. intros x Hx. rewrite Hhot1; [auto|rewrite HL; set_solver]. }
    cbn [app] in HT2. injection HT2 as -> HT2.
    assert (v ∈ L) as HvL by (rewrite HL; set_solver).
    exists v, A, B, s2, (L ++ A). splits; try done.
    + split; [done|]. right. by rewrite <- HL.
    + replace (2 * length L + 1)%nat with (length L + (length L + 1))%nat by lia. rewrite E1.
      replace (length L + 1)%nat with (length A + S (length B + 1))%nat by (rewrite HL, length_app; simpl; lia).
      rewrite E2. apply take_cold; [done|]. unfold hot.
      destruct (Hb2 v) as [-> ->]; [by rewrite HT1|]. destruct (Hb1 v HvL) as [-> ->].
      by rewrite Hv, (bool_decide_false (v ∉ L)), andb_false_r by set_solver.
    + by rewrite HT2.
    + by eapply passed_trans.
  - destruct (pass_all A s e (v :: B) (S (length L + length B + 1)) Hl) as (s1 & e1 & E1 & HT1 & Hl1 & Hp1 & Hb1).
    { rewrite HL in Hnd. by apply NoDup_app in Hnd as [? _]. }
    { done. }
    { done. }
    cbn [app] in HT1. injection HT1 as -> HT1.
    assert (v ∈ L) as HvL by (rewrite HL; set_solver).
    apply orb_false_iff in Hv as [Hva Hvs].
    exists v, A, B, s1, A. splits; try done.
    + split; [done|]. by left.
    + replace (2 * length L + 1)%nat with (length A + S (length L + length B + 1))%nat
        by (rewrite HL, length_app; simpl; lia).
      rewrite E1. apply take_cold; [done|]. unfold hot. destruct (Hb1 v HvL) as [-> ->]. by rewrite Hva, Hvs.
    + by rewrite HT1.
Qed.

(** With stack pages only, no number of rounds is enough. *)
Lemma stack_pages_loop fuel s e : looking s e → Forall (λ x, bit PTE_S s x = true) (e :: frame_table s) →
  victim_loop fuel e s = Err OutOfFuel.
Proof using.
  revert s e. induction fuel as [|fuel IH]; intros s e Hl Hst; [done|].
  destruct (frame_table s ++ [e]) as [|e' T'] eqn:E; [by destruct (frame_table s)|].
  assert (hot s e = true) as Hh.
  { apply Forall_cons in Hst as [He _]. unfold hot. by rewrite He, orb_true_r. }
  destruct (pass_one s e fuel e' T' Hl Hh E) as (s1 & -> & HT1 & Hl1 & _ & Hb1). apply IH; [done|].
  rewrite Forall_forall in *. intros x Hx. rewrite HT1, <- E in Hx. destruct (Hb1 x) as [_ ->]; [set_solver|].
  apply Hst. set_solver.
Qed.
End Clock.

Lemma looking_start s pds e T : vm_inv s pds → frame_table s = e :: T → looking pds (set_table T s) e.
Proof.
  intros Hinv E. unfold looking. cbn [set_table frame_table frames vm_mmu swap_table swap_lock]. rewrite <- E. by destruct s.
Qed.

(** The whole of [frame_table_find_victim], in a table with a frame that is no
    stack page. *)
Lemma find_victim_Ok s pds : vm_inv s pds → (∃ x, x ∈ frame_table s ∧ bit PTE_S s x = false) →
  ∃ v A B s' P, frame_table s = A ++ v :: B ∧ chosen s A v B ∧ frame_table_find_victim s = Ok (Some v, s') ∧
    vm_inv s' pds ∧ frame_table s' = B ++ A ∧ passed pds P s s'.
Proof.
  intros Hinv Hx. destruct (frame_table s) as [|e T] eqn:E; [destruct Hx as (x & Hx & _); by apply elem_of_nil in Hx|].
  destruct (victim_found pds (set_table T s) e (looking_start s pds e T Hinv E) Hx)
    as (v & A & B & s' & P & HL & Hch & Ev & HT & Hl & Hp).
  exists v, A, B, s', P. injection HT as HT. cbn [frame_table set_table] in HL. splits; try done.
  - unfold frame_table_find_victim. rewrite getS_step, size_step, E. rewrite (pop_step _ s e T E).
    erewrite M_bind_step by exact Ev.
    destruct (looking_frame pds s' v v Hl ltac:(left)) as (f & Hf & _ & Hva & Hk & Hth).
    erewrite M_bind_step by by apply get_frame_Ok. rewrite size_step.
    rewrite (M_bind_step _ _ s' () s') by (apply check_true, Z.leb_le; done).
    rewrite (M_bind_step _ _ s' () s') by (apply check_true, Z.ltb_lt, Hva).
    rewrite (M_bind_step _ _ s' () s').
    2: { apply check_true, Z.eqb_eq. rewrite HT. apply (f_equal length) in HL. rewrite length_app in *.
         pose proof (vi_size _ _ Hinv) as Hsz. rewrite E in Hsz. cbn [length] in *. rewrite u32_small by lia. lia. }
    rewrite (M_bind_step _ _ s' () s') by (apply check_true; by destruct (Z.eqb_spec (pd_thread f) NULL)).
    done.
  - destruct Hl as [H1 H2 Hz H3 H4]. cbn [frame_table set_table frames vm_mmu] in *. split; try done.
    + by apply NoDup_cons in H2 as [_ ?].
    + cbn [length] in Hz. lia.
    + intros x Hx'. apply H3. by right.
    + intros x y fx fy Hx' Hy'. apply H4; by right.
  - by destruct Hp; split.
Qed.

(** C11: the clock terminates and is fair.  In a table in which some frame is
    not a stack page, [frame_table_find_victim] returns within two rounds the
    first frame in clock order that is neither accessed nor a stack page or,
    if every frame is hot, the first that is no stack page; it takes the
    victim out, rotates the others, and changes no page table entry but for
    accessed bits.  A table of stack pages only makes it loop forever; an
    empty one gives the null pointer. *)
Theorem find_victim_correct s pds (Hinv : vm_inv s pds) :
  (frame_table s = [] → frame_table_find_victim s = Ok (None, s)) ∧
  ((∃ x, x ∈ frame_table s ∧ bit PTE_S s x = false) →
   ∃ v A B s', frame_table s = A ++ v :: B ∧ chosen s A v B ∧
     frame_table_find_victim s = Ok (Some v, s') ∧ vm_inv s' pds ∧ frame_table s' = B ++ A ∧
     ∀ pd va, pd ∈ pds → uaddr va → aged (pte_of (vm_mmu s) pd va) (pte_of (vm_mmu s') pd va)) ∧
  (∀ fuel e T, frame_table s = e :: T → Forall (λ x, bit PTE_S s x = true) (frame_table s) →
   victim_loop fuel e (set_table T s) = Err OutOfFuel).
Proof.
  splits.
  - intros E. unfold frame_table_find_victim. rewrite getS_step. by rewrite E.
  - intros Hx. destruct (find_victim_Ok s pds Hinv Hx) as (v & A & B & s' & P & HL & Hch & E & Hi & HT & Hp).
    exists v, A, B, s'. splits; try done. apply Hp.
  - intros fuel e T E Hst. apply (stack_pages_loop pds); [by apply looking_start|]. cbn [frame_table set_table]. by rewrite <- E.
Qed.

(** * Two frames of untouched pages *)

Definition sample_frames : gmap Z frame_elem :=
  {[3223322624 := mkFrame 3222290432 3222278144 134512640;
    3223322656 := mkFrame 3222290432 3222278144 134516736]}.
Definition sample_vm : vm := mkVm sample_mmu sample_frames [3223322624; 3223322656] None false.

Lemma sample_frame_at e : e ∈ frame_table sample_vm →
  (e = 3223322624 ∧ frames sample_vm !! e = Some (mkFrame 3222290432 3222278144 134512640)) ∨
  (e = 3223322656 ∧ frames sample_vm !! e = Some (mkFrame 3222290432 3222278144 134516736)).
Proof.
  cbn [frame_table sample_vm]. rewrite !elem_of_cons, elem_of_nil.
  intros [-> |[-> |[]]]; [left|right]; (split; [done|]); reflexivity.
Qed.

Lemma sample_vm_inv : vm_inv sample_vm sample_pds.
Proof.
  split.
  - exact sample_mmu_inv.
  - cbn [frame_table sample_vm]. apply NoDup_cons. split; [|apply NoDup_singleton].
    rewrite elem_of_cons, elem_of_nil. lia.
  - done.
  - intros e He. destruct (sample_frame_at e He) as [[-> Hf]|[-> Hf]]; eexists; (split; [exact Hf|]);
      cbn [fe_pd fe_vaddr pd_thread]; (split; [apply sample_pd_in|]); by split.
  - intros e e' f f' He He' Hf Hf'.
    destruct (sample_frame_at e He) as [[-> H]|[-> H]], (sample_frame_at e' He') as [[-> H']|[-> H']];
      rewrite H in Hf; rewrite H' in Hf'; injection Hf as <-; injection Hf' as <-; done.
Qed.

Lemma sample_bit flag e : e ∈ frame_table sample_vm → bit flag sample_vm e = false.
Proof.
  intros He. unfold bit. destruct (sample_frame_at e He) as [[-> ->]|[-> ->]]; cbn [fe_pd fe_vaddr vm_mmu sample_vm];
    (rewrite sample_pte; [by unfold has; rewrite Z.land_0_l|apply sample_pd_in|by split]).
Qed.

Lemma find_victim_correct_witness :
  ∃ v A B s', frame_table sample_vm = A ++ v :: B ∧
    frame_table_find_victim sample_vm = Ok (Some v, s') ∧ frame_table s' = B ++ A.
Proof.
  destruct (find_victim_correct sample_vm sample_pds sample_vm_inv) as (_ & H & _).
  destruct H as (v & A & B & s' & HL & _ & E & _ & HT & _).
  - exists 3223322624. split; [left|]. apply sample_bit. left.
  - exists v, A, B, s'. exact (conj HL (conj E HT)).
Defined.
