(* ===== verification/Page.v ===== *)
(** The supplementary page table (vm/page.c): the hash table in which a process
    finds, for each of its pages, where the contents are.

    A page is known by its address; [pages] holds those that are allocated.
    The lock of the table makes the operations atomic; [malloc]'s result is an
    argument.  The thread whose table it is is not modelled here, nor the
    assertion that the argument of the operations is a thread. *)
From S2P Require Import Prelude Mem Str KList KListOps Hash Vaddr.

Record page := mkPage {
  load_vaddr : Z; file_of : Z; load_filepos : Z; load_read_bytes : Z; load_zero_bytes : Z;
  writable : bool; swap_outed : bool; mmaped : bool; swap_index : Z
}.
Record spt := mkSpt { pages : gmap Z page; supplementary_page_table : hash }.

Definition vaddr_of (ps : gmap Z page) (e : Z) : Z :=
  match ps !! e with Some p => load_vaddr p | None => 0 end.

(** [hash_bytes (&p->load_vaddr, sizeof p->load_vaddr)] *)
Definition page_hash (ps : gmap Z page) (e : Z) : Z := fnv (word_bytes (vaddr_of ps e)).
Definition page_less (ps : gmap Z page) (a b : Z) : bool := vaddr_of ps a <? vaddr_of ps b.

(** A page just allocated, of which only [load_vaddr] is set; [g] is what the
    block held before. *)
Definition set_vaddr (va : Z) (g : page) : page :=
  mkPage va (file_of g) (load_filepos g) (load_read_bytes g) (load_zero_bytes g) (writable g)
    (swap_outed g) (mmaped g) (swap_index g).

Definition find_page (s : spt) (p address : Z) (g : page) : outcome (option Z) :=
  let ps := <[p := set_vaddr (pg_round_down address) g]> (pages s) in
  hash_find (page_hash ps) (page_less ps) (supplementary_page_table s) p.

(** The block for the key is freed before returning. *)
Definition page_lookup (malloc : option Z) (g : page) (address : Z) (s : spt) : outcome (option Z) :=
  match malloc with
  | None => Ok None
  | Some p => find_page s p address g
  end.

Definition page_swap_out_index (malloc : option Z) (g : page) (realloc : bool) (address : Z)
    (new_swap_outed : bool) (new_index : Z) (s : spt) : outcome (bool * spt) :=
  assert (negb (hash_empty (supplementary_page_table s)))
  match malloc with
  | None => Ok (false, s)
  | Some p =>
      e ← find_page s p address g;
      match e with
      | Some prev =>
          prev_p ← of_option (pages s !! prev);
          let new_p := mkPage (pg_round_down address) (file_of prev_p) (load_filepos prev_p)
                         (load_read_bytes prev_p) (load_zero_bytes prev_p) (writable prev_p)
                         new_swap_outed (mmaped prev_p) new_index in
          let ps := <[p := new_p]> (pages s) in
          '(_, h) ← hash_replace (page_hash ps) (page_less ps) realloc (supplementary_page_table s) p;
          Ok (true, mkSpt (delete prev ps) h)
      | None => Ok (false, s)
      end
  end.

(** [remove_page], the destructor passed to [hash_destroy]. *)
Definition remove_page (target : Z) (ps : gmap Z page) : gmap Z page := delete target ps.

(** * The table as a map from page addresses *)

#[export] Instance page_less_order ps : StrictWeak (page_less ps).
Proof. apply (strict_weak_key (vaddr_of ps)). Qed.

Lemma same_vaddr ps a b : same (page_less ps) a b = true ↔ vaddr_of ps a = vaddr_of ps b.
Proof. unfold same, page_less. rewrite andb_true_iff, !negb_true_iff, !Z.ltb_ge. lia. Qed.
Lemma page_hash_compat ps a b : same (page_less ps) a b = true → page_hash ps a = page_hash ps b.
Proof. rewrite same_vaddr. unfold page_hash. by intros ->. Qed.

(** Well-formedness looks at the pages in the table only. *)
Lemma hash_wf_ext ps ps' h : (∀ e, e ∈ elems h → vaddr_of ps' e = vaddr_of ps e) →
  hash_wf (page_hash ps) (page_less ps) h → hash_wf (page_hash ps') (page_less ps') h.
Proof.
  intros He [[Hp Hl Hb] Hn Hd Hc]. split; [split; try done|done| |done].
  - intros i b e Hi Hin. unfold find_bucket, page_hash in *. rewrite He.
    + by apply (Hb i b e).
    + apply elem_of_elems. eauto.
  - intros a b Ha Hb'. rewrite same_vaddr, !He by done. rewrite <- same_vaddr. by apply Hd.
Qed.

Record spt_inv (s : spt) : Prop := {
  si_wf : hash_wf (page_hash (pages s)) (page_less (pages s)) (supplementary_page_table s);
  si_pages : ∀ e, e ∈ elems (supplementary_page_table s) → is_Some (pages s !! e);
  si_room : elem_cnt (supplementary_page_table s) + 1 < 4294967296
}.

(** The table has [p] for the page at [v]. *)
Definition maps (s : spt) (v : Z) (p : page) : Prop :=
  ∃ e, e ∈ elems (supplementary_page_table s) ∧ pages s !! e = Some p ∧ load_vaddr p = v.

Lemma vaddr_fresh ps p x e : ps !! p = None → is_Some (ps !! e) → vaddr_of (<[p := x]> ps) e = vaddr_of ps e.
Proof. intros Hp [y Hy]. unfold vaddr_of. rewrite lookup_insert_ne; [done|]. by intros ->; congruence. Qed.
Lemma vaddr_new ps p x : vaddr_of (<[p := x]> ps) p = load_vaddr x.
Proof. unfold vaddr_of. by rewrite lookup_insert_eq. Qed.

Section Lookup.
Context (s : spt) (Hs : spt_inv s) (p : Z) (Hp : pages s !! p = None).
Abbreviation h := (supplementary_page_table s).

(** The table is sound with a new page beside it. *)
Lemma with_page_wf x : hash_wf (page_hash (<[p := x]> (pages s))) (page_less (<[p := x]> (pages s))) h.
Proof using Hs Hp.
  apply hash_wf_ext with (pages s); [|apply Hs]. intros e He. apply vaddr_fresh; [done|by apply Hs].
Qed.

Lemma same_key x e : e ∈ elems h →
  same (page_less (<[p := x]> (pages s))) e p = true ↔ ∃ y, pages s !! e = Some y ∧ load_vaddr y = load_vaddr x.
Proof using Hs Hp.
  intros He. rewrite same_vaddr, vaddr_new. destruct (si_pages s Hs e He) as [y Hy].
  rewrite vaddr_fresh by eauto. unfold vaddr_of. rewrite Hy. naive_solver.
Qed.

(** Searching with a new page as the key. *)
Lemma find_with x : ∃ r,
  hash_find (page_hash (<[p := x]> (pages s))) (page_less (<[p := x]> (pages s))) h p = Ok r ∧
  match r with
  | Some e => e ∈ elems h ∧ ∃ y, pages s !! e = Some y ∧ load_vaddr y = load_vaddr x
  | None => ∀ y, ¬ maps s (load_vaddr x) y
  end.
Proof using Hs Hp.
  destruct (hash_find_Ok _ _ (page_hash_compat (<[p := x]> (pages s))) h p (with_page_wf x)) as (r & E & Hr).
  exists r. split; [done|]. destruct r as [e|].
  - destruct Hr as [He Hsm]. split; [done|]. by apply same_key.
  - intros y (e & He & Hy & Hv). specialize (Hr e He).
    assert (same (page_less (<[p := x]> (pages s))) e p = true); [|congruence]. apply same_key; eauto.
Qed.

(** Two pages of the table with the same address are the same. *)
Lemma maps_unique e e' y y' : e ∈ elems h → e' ∈ elems h → pages s !! e = Some y → pages s !! e' = Some y' →
  load_vaddr y = load_vaddr y' → e = e'.
Proof using Hs.
  intros He He' Hy Hy' Hv. apply (wf_distinct _ _ _ (si_wf s Hs)); [done..|].
  apply same_vaddr. unfold vaddr_of. by rewrite Hy, Hy'.
Qed.

(** Putting a new page in the place of the one with its address. *)
Lemma replace_with realloc x e y : e ∈ elems h → pages s !! e = Some y → load_vaddr y = load_vaddr x →
  ∃ h', hash_replace (page_hash (<[p := x]> (pages s))) (page_less (<[p := x]> (pages s))) realloc h p = Ok (Some e, h') ∧
    let s' := mkSpt (delete e (<[p := x]> (pages s))) h' in
    spt_inv s' ∧ ∀ u z, maps s' u z ↔ (u = load_vaddr x ∧ z = x) ∨ (u ≠ load_vaddr x ∧ maps s u z).
Proof using Hs Hp.
  intros He Hy Hv. set (ps := <[p := x]> (pages s)).
  destruct (hash_replace_Ok _ _ (page_hash_compat ps) realloc h p (with_page_wf x) (si_room s Hs))
    as (r & h' & E & Ef & Hw & Hr).
  destruct (find_with x) as (r' & Ef' & Hr'). fold ps in Ef'. rewrite Ef in Ef'. injection Ef' as <-.
  destruct r as [e0|].
  2: { destruct (Hr' y). by exists e. }
  assert (e0 = e) as ->.
  { destruct Hr' as (He0 & y0 & Hy0 & Hv0). apply (maps_unique e0 e y0 y); congruence. }
  destruct Hr as (es & Hes & Hes'). exists h'. split; [done|]. cbv zeta.
  pose proof (wf_nodup _ _ _ (si_wf s Hs)) as Hnd. rewrite Hes in Hnd. apply NoDup_cons in Hnd as [Hnin Hnd].
  assert (∀ a, a ∈ es → a ∈ elems h) as Hsub by (intros; rewrite Hes; by right).
  assert (p ∉ elems h) as Hpn by (intros H%(si_pages s Hs); destruct H; congruence).
  assert (e ≠ p) as Hep by (intros ->; done).
  assert (∀ a, a ∈ elems h' → delete e ps !! a = ps !! a) as Hdel.
  { intros a Ha. rewrite Hes', elem_of_cons in Ha. apply lookup_delete_ne. destruct Ha as [-> |Ha]; [done|].
    by intros ->. }
  assert (∀ a, a ∈ es → ps !! a = pages s !! a) as Hps.
  { intros a Ha. apply lookup_insert_ne. intros <-. auto. }
  splits.
  - split; cbn [pages supplementary_page_table].
    + apply hash_wf_ext with ps; [|done]. intros a Ha. unfold vaddr_of. by rewrite Hdel.
    + intros a Ha. rewrite Hdel by done. rewrite Hes', elem_of_cons in Ha. destruct Ha as [-> |Ha].
      * unfold ps. rewrite lookup_insert_eq. eauto.
      * rewrite Hps by done. apply Hs, Hsub, Ha.
    + pose proof (si_room s Hs) as Hroom.
      rewrite (proj1 (wf_count _ _ _ (si_wf s Hs))), Hes in Hroom.
      rewrite (proj1 (wf_count _ _ _ Hw)), Hes'. done.
  - intros u z. unfold maps. cbn [pages supplementary_page_table]. split.
    + intros (a & Ha & Hz & Hu). rewrite Hdel in Hz by done. rewrite Hes', elem_of_cons in Ha.
      destruct Ha as [-> |Ha].
      * left. unfold ps in Hz. rewrite lookup_insert_eq in Hz. by simplify_eq.
      * right. rewrite Hps in Hz by done. split; [|exists a; auto]. intros ->. apply Hnin.
        replace e with a; [done|]. apply (maps_unique a e z y); auto. congruence.
    + intros [[-> ->]|[Hne (a & Ha & Hz & Hu)]].
      * exists p. assert (p ∈ elems h') as Hin by (rewrite Hes'; left). splits; [done| |done].
        rewrite Hdel by done. apply lookup_insert_eq.
      * assert (a ∈ es) as Hae.
        { rewrite Hes, elem_of_cons in Ha. destruct Ha as [-> |]; [|done]. congruence. }
        assert (a ∈ elems h') as Hin by (rewrite Hes'; by right).
        exists a. splits; [done| |done]. rewrite Hdel, Hps by done. done.
Qed.
End Lookup.

(** C23: the supplementary page table is a map from page addresses.  When
    [malloc] finds memory for the key, [page_lookup] finds the page of the address
    if the table has one, and returns null if it has none; and
    [page_swap_out_index], on a table that is not empty, replaces the swap state
    of the page and changes nothing else, or reports that there is none.  When
    [malloc] fails, [page_lookup] returns null although the page may exist, and
    [page_swap_out_index] reports failure and changes nothing. *)
Theorem page_table_correct s malloc g realloc address out idx
  (Hs : spt_inv s) (Hm : ∀ p, malloc = Some p → pages s !! p = None) :
  let v := pg_round_down address in
  (∃ r, page_lookup malloc g address s = Ok r ∧
     match r with
     | Some e => ∃ p, e ∈ elems (supplementary_page_table s) ∧ pages s !! e = Some p ∧ load_vaddr p = v
     | None => malloc = None ∨ ∀ p, ¬ maps s v p
     end) ∧
  (elem_cnt (supplementary_page_table s) ≠ 0 →
   ∃ ok s', page_swap_out_index malloc g realloc address out idx s = Ok (ok, s') ∧ spt_inv s' ∧
     if (ok : bool) then
       ∃ p, maps s v p ∧
         let p' := mkPage v (file_of p) (load_filepos p) (load_read_bytes p) (load_zero_bytes p) (writable p)
                     out (mmaped p) idx in
         ∀ u q, maps s' u q ↔ (u = v ∧ q = p') ∨ (u ≠ v ∧ maps s u q)
     else s' = s ∧ (malloc = None ∨ ∀ p, ¬ maps s v p)) ∧
  (malloc = None →
   page_lookup malloc g address s = Ok None ∧
   (elem_cnt (supplementary_page_table s) ≠ 0 →
    page_swap_out_index malloc g realloc address out idx s = Ok (false, s))).
Proof.
  intros v. destruct malloc as [p|]; simpl.
  2: { unfold page_swap_out_index, hash_empty.
       split; [exists None; by split; [|left]|]. split.
       - intros Hne. exists false, s.
         rewrite assert_true by by destruct (Z.eqb_spec (elem_cnt (supplementary_page_table s)) 0).
         by splits; [| | |left].
       - intros _. split; [done|]. intros Hne.
         by rewrite assert_true by by destruct (Z.eqb_spec (elem_cnt (supplementary_page_table s)) 0). }
  specialize (Hm p eq_refl). destruct (find_with s Hs p Hm (set_vaddr v g)) as (r & Ef & Hr). split; [|split; [|done]].
  - exists r. split; [done|]. destruct r as [e|]; [|by right]. destruct Hr as (He & y & Hy & Hv). eauto.
  - intros Hne. unfold page_swap_out_index, hash_empty.
    rewrite assert_true by by destruct (Z.eqb_spec (elem_cnt (supplementary_page_table s)) 0).
    unfold find_page. fold v. erewrite bind_step by exact Ef. destruct r as [e|].
    2: { exists false, s. by splits; [| | |right]. }
    destruct Hr as (He & y & Hy & Hv). erewrite bind_step by (rewrite Hy; reflexivity).
    set (x := mkPage v _ _ _ _ _ _ _ _).
    destruct (replace_with s Hs p Hm realloc x e y He Hy Hv) as (h' & Er & Hs' & Hmaps).
    erewrite bind_step by exact Er.
    eexists true, _. split; [reflexivity|]. split; [exact Hs'|]. exists y. split; [by exists e|]. exact Hmaps.
Qed.

(** * A table of two pages *)

Definition blank_page (va : Z) : page := mkPage va 0 0 0 4096 true false false 0.
Definition sample_ps : gmap Z page := {[512 := blank_page 134512640; 576 := blank_page 134516736]}.
Definition sample_spt : spt := mkSpt sample_ps (mkHash 2 4 [[]; [512; 576]; []; []]).

Lemma sample_spt_inv : spt_inv sample_spt.
Proof.
  assert (∀ e, e ∈ elems (supplementary_page_table sample_spt) → e = 512 ∨ e = 576) as Hel.
  { intros e. unfold elems. simpl. rewrite !elem_of_cons, elem_of_nil. tauto. }
  split; [split; [split| | |]| |].
  - by exists 2.
  - done.
  - intros [|[|[|[|i]]]] b e Hb He; simpl in Hb; simplify_eq; rewrite ?elem_of_cons, ?elem_of_nil in He;
      destruct_or?; subst; by vm_compute.
  - unfold elems. simpl. apply NoDup_cons. split; [|apply NoDup_singleton]. rewrite elem_of_cons, elem_of_nil. lia.
  - intros a b Ha Hb Hab. apply same_vaddr in Hab. destruct (Hel a Ha) as [-> | ->], (Hel b Hb) as [-> | ->]; done.
  - done.
  - intros e He. destruct (Hel e He) as [-> | ->]; by eexists.
  - done.
Qed.

Lemma page_table_correct_witness :
  page_lookup (Some 640) (blank_page 0) 134512700 sample_spt = Ok (Some 512) ∧
  page_lookup (Some 640) (blank_page 0) 4096 sample_spt = Ok None ∧
  ∃ s', page_swap_out_index (Some 640) (blank_page 0) true 134516800 true 9 sample_spt = Ok (true, s') ∧ spt_inv s'.
Proof.
  split; [reflexivity|]. split; [reflexivity|].
  assert (∀ p, Some 640 = Some p → pages sample_spt !! p = None) as Hm by (intros p [= <-]; reflexivity).
  destruct (page_table_correct sample_spt (Some 640) (blank_page 0) true 134516800 true 9 sample_spt_inv Hm)
    as (_ & H & _). destruct (H ltac:(discriminate)) as (ok & s' & E & Hs & _).
  assert (ok = true) as ->.
  { assert (match page_swap_out_index (Some 640) (blank_page 0) true 134516800 true 9 sample_spt with
            | Ok (b, _) => b | Err _ => false end = true) as E' by (vm_compute; reflexivity).
    rewrite E in E'. exact E'. }
  exists s'. exact (conj E Hs).
Defined.
