(* ===== verification/Elf.v ===== *)
(** Loading of executables ([load], [validate_segment] and [load_segment] of
    userprog/process.c): the checks on an ELF file's headers and the entries that
    its segments get in the supplementary page table.

    The file is its contents, as [file_read] delivers them.  The page table is the
    map from addresses to pages that Page.v shows the hash table to be;
    [buckets] tells whether [hash_init] found memory for its buckets, a result
    that [load] does not look at, and the [budget] is the number of pages for
    which [malloc] still finds memory. *)
From S2P Require Import Prelude Vaddr Page.

(** * Headers *)

Definition half (bs : list Z) (i : nat) : Z :=
  default 0 (bs !! i) + 256 * default 0 (bs !! S i).
Definition word (bs : list Z) (i : nat) : Z :=
  bytes_word (default 0 (bs !! i)) (default 0 (bs !! S i)) (default 0 (bs !! S (S i))) (default 0 (bs !! S (S (S i)))).

Record Elf32_Ehdr := mkEhdr {
  e_ident : list Z; e_type : Z; e_machine : Z; e_version : Z; e_entry : Z; e_phoff : Z;
  e_shoff : Z; e_flags : Z; e_ehsize : Z; e_phentsize : Z; e_phnum : Z;
  e_shentsize : Z; e_shnum : Z; e_shstrndx : Z
}.
Definition sizeof_Ehdr : nat := 52.
Definition ehdr_of (bs : list Z) : Elf32_Ehdr :=
  mkEhdr (take 16 bs) (half bs 16) (half bs 18) (word bs 20) (word bs 24) (word bs 28) (word bs 32) (word bs 36)
    (half bs 40) (half bs 42) (half bs 44) (half bs 46) (half bs 48) (half bs 50).

Record Elf32_Phdr := mkPhdr {
  p_type : Z; p_offset : Z; p_vaddr : Z; p_paddr : Z; p_filesz : Z; p_memsz : Z; p_flags : Z; p_align : Z
}.
Definition sizeof_Phdr : nat := 32.
Definition phdr_of (bs : list Z) : Elf32_Phdr :=
  mkPhdr (word bs 0) (word bs 4) (word bs 8) (word bs 12) (word bs 16) (word bs 20) (word bs 24) (word bs 28).

Definition PT_NULL : Z := 0.
Definition PT_LOAD : Z := 1.
Definition PT_DYNAMIC : Z := 2.
Definition PT_INTERP : Z := 3.
Definition PT_NOTE : Z := 4.
Definition PT_SHLIB : Z := 5.
Definition PT_PHDR : Z := 6.
Definition PT_STACK : Z := 0x6474e551.
Definition PF_W : Z := 2.

(** [file_read] of [n] bytes at [ofs]: what there is of them. *)
Definition read_at (file : list Z) (ofs : Z) (n : nat) : list Z := take n (drop (Z.to_nat ofs) file).
Definition length_of (file : list Z) : Z := Z.of_nat (length file).

(** <<\177ELF\1\1\1>> *)
Definition ident : list Z := [127; 69; 76; 70; 1; 1; 1].
Definition header_ok (e : Elf32_Ehdr) : bool :=
  bool_decide (take 7 (e_ident e) = ident) && (e_type e =? 2) && (e_machine e =? 3) && (e_version e =? 1)
  && (e_phentsize e =? Z.of_nat sizeof_Phdr) && (e_phnum e <=? 1024).

(** * Segments *)

Definition validate_segment (phdr : Elf32_Phdr) (file : list Z) : bool :=
  if negb (Z.land (p_offset phdr) PGMASK =? Z.land (p_vaddr phdr) PGMASK) then false
  else if length_of file <? p_offset phdr then false
  else if p_memsz phdr <? p_filesz phdr then false
  else if p_memsz phdr =? 0 then false
  else if negb (is_user_vaddr (p_vaddr phdr)) then false
  else if negb (is_user_vaddr (u32 (p_vaddr phdr + p_memsz phdr))) then false
  else if u32 (p_vaddr phdr + p_memsz phdr) <? p_vaddr phdr then false
  else negb (p_vaddr phdr <? PGSIZE).

Abbreviation spages := (gmap Z page).
(** The entry that [load_segment] makes for a page. *)
Definition file_page (f ofs upage read zero : Z) (w : bool) : page := mkPage upage f ofs read zero w false false 0.

(** [while (read_bytes > 0 || zero_bytes > 0)]; [None] for a result of [false].
    The [off_t] [ofs] becomes the [uint32_t] [load_filepos]; without buckets,
    [hash_replace] goes through a null pointer. *)
Fixpoint segment_loop (fuel : nat) (buckets : bool) (budget : nat) (f ofs upage read_bytes zero_bytes : Z) (w : bool) (t : spages) : outcome (option (nat * spages)) :=
  match fuel with
  | O => Err OutOfFuel
  | S fuel =>
      if (0 <? read_bytes) || (0 <? zero_bytes) then
        let page_read_bytes := if read_bytes <? PGSIZE then read_bytes else PGSIZE in
        let page_zero_bytes := PGSIZE - page_read_bytes in
        match budget with
        | O => Ok None
        | S budget =>
            if negb buckets then Err WildAccess else
            let t := <[upage := file_page f (u32 ofs) upage page_read_bytes page_zero_bytes w]> t in
            segment_loop fuel buckets budget f (s32 (ofs + page_read_bytes)) (u32 (upage + PGSIZE))
              (u32 (read_bytes - page_read_bytes)) (u32 (zero_bytes - page_zero_bytes)) w t
        end
      else Ok (Some (budget, t))
  end.
(** A page takes [PGSIZE] off the sum of the two counters. *)
Definition segment_fuel (read_bytes zero_bytes : Z) : nat := S (Z.to_nat ((read_bytes + zero_bytes) / PGSIZE)).
Definition load_segment (buckets : bool) (budget : nat) (f ofs upage read_bytes zero_bytes : Z) (w : bool) (t : spages) : outcome (option (nat * spages)) :=
  assert (u32 (read_bytes + zero_bytes) mod PGSIZE =? 0) (
  assert (pg_ofs upage =? 0) (
  assert (Z.rem ofs PGSIZE =? 0) (
  segment_loop (segment_fuel read_bytes zero_bytes) buckets budget f ofs upage read_bytes zero_bytes w t))).

(** The case of [PT_LOAD]. *)
Definition load_phdr (buckets : bool) (budget : nat) (f : Z) (file : list Z) (phdr : Elf32_Phdr) (t : spages) : outcome (option (nat * spages)) :=
  if validate_segment phdr file then
    let w := has (p_flags phdr) PF_W in
    let file_page := Z.land (p_offset phdr) (u32 (Z.lnot PGMASK)) in
    let mem_page := Z.land (p_vaddr phdr) (u32 (Z.lnot PGMASK)) in
    let page_offset := Z.land (p_vaddr phdr) PGMASK in
    let '(read_bytes, zero_bytes) :=
      if 0 <? p_filesz phdr then
        let read_bytes := u32 (page_offset + p_filesz phdr) in
        (read_bytes, u32 (ROUND_UP (u32 (page_offset + p_memsz phdr)) PGSIZE - read_bytes))
      else (0, ROUND_UP (u32 (page_offset + p_memsz phdr)) PGSIZE) in
    load_segment buckets budget f (s32 file_page) mem_page read_bytes zero_bytes w t
  else Ok None.

(** [for (i = 0; i < ehdr.e_phnum; i++)] *)
Fixpoint phdr_loop (n : nat) (buckets : bool) (budget : nat) (f : Z) (file : list Z) (file_ofs : Z) (t : spages) : outcome (option (nat * spages)) :=
  match n with
  | O => Ok (Some (budget, t))
  | S n =>
      if (file_ofs <? 0) || (length_of file <? file_ofs) then Ok None
      else
        let bs := read_at file file_ofs sizeof_Phdr in
        if negb (length bs =? sizeof_Phdr)%nat then Ok None
        else
          let file_ofs := s32 (file_ofs + Z.of_nat sizeof_Phdr) in
          let phdr := phdr_of bs in
          if (p_type phdr =? PT_DYNAMIC) || (p_type phdr =? PT_INTERP) || (p_type phdr =? PT_SHLIB) then Ok None
          else if p_type phdr =? PT_LOAD then
            r ← load_phdr buckets budget f file phdr t;
            match r with
            | None => Ok None
            | Some (budget, t) => phdr_loop n buckets budget f file file_ofs t
            end
          else phdr_loop n buckets budget f file file_ofs t
  end.

(** From the executable that [filesys_open] found to the entry point and the
    process's page table; the stack is set up next. *)
Definition load (buckets : bool) (budget : nat) (f : Z) (file : list Z) : outcome (option (Z * spages)) :=
  let bs := read_at file 0 sizeof_Ehdr in
  if negb (length bs =? sizeof_Ehdr)%nat then Ok None
  else
    let ehdr := ehdr_of bs in
    if negb (header_ok ehdr) then Ok None
    else
      r ← phdr_loop (Z.to_nat (e_phnum ehdr)) buckets budget f file (s32 (e_phoff ehdr)) ∅;
      match r with
      | None => Ok None
      | Some (_, t) => Ok (Some (e_entry ehdr, t))
      end.

(** * What a page table describes *)

(** The byte at the address [a]: from the file at an offset, or zero. *)
Inductive source := FromFile (ofs : Z) | Zero.
Definition source_of (t : spages) (a : Z) : option source :=
  (λ p, let i := a - load_vaddr p in
        if i <? load_read_bytes p then FromFile (load_filepos p + i) else Zero)
  <$> t !! (a - a mod PGSIZE).

(** * Segments *)

Lemma u32_s32_add a b : u32 (s32 a + b) = u32 (a + b).
Proof.
  unfold u32, s32. replace ((a + 2147483648) mod 4294967296 - 2147483648 + b)
    with ((a + 2147483648) mod 4294967296 + (b - 2147483648)) by lia.
  rewrite Zplus_mod_idemp_l. f_equal. lia.
Qed.

(** The page of a segment at [va]: the segment starts at [upage], its first [read]
    bytes come from the file from [ofs] on. *)
Definition seg_page (f ofs upage read va : Z) (w : bool) : page :=
  let r := Z.max 0 (Z.min PGSIZE (read - (va - upage))) in
  file_page f (u32 (ofs + Z.min read (va - upage))) va r (PGSIZE - r) w.
Definition in_segment (upage n va : Z) : bool := (upage <=? va) && (va <? upage + PGSIZE * n) && (va mod PGSIZE =? 0).

Lemma segment_loop_spec n fuel budget f ofs upage read zero w t :
  (n < fuel)%nat → read + zero = PGSIZE * Z.of_nat n → 0 <= read → 0 <= zero → is_s32 ofs →
  upage mod PGSIZE = 0 → 0 <= upage → upage + PGSIZE * Z.of_nat n <= PHYS_BASE →
  if (n <=? budget)%nat then
    ∃ t', segment_loop fuel true budget f ofs upage read zero w t = Ok (Some ((budget - n)%nat, t')) ∧
      ∀ va, t' !! va = if in_segment upage (Z.of_nat n) va then Some (seg_page f ofs upage read va w) else t !! va
  else segment_loop fuel true budget f ofs upage read zero w t = Ok None.
Proof.
  unfold PGSIZE, PHYS_BASE. revert fuel budget ofs upage read zero t.
  induction n as [|n IH]; intros [|fuel] budget ofs upage read zero t Hf Hsum Hr Hz Ho Hu H0 Hend; try lia; cbn [segment_loop].
  { replace read with 0 by lia. replace zero with 0 by lia. cbn. rewrite Nat.sub_0_r. eexists. split; [done|].
    intros va. unfold in_segment, PGSIZE. destruct (Z.leb_spec upage va), (Z.ltb_spec va (upage + 4096 * Z.of_nat 0)); try done; lia. }
  assert ((0 <? read) || (0 <? zero) = true) as -> by (destruct (Z.ltb_spec 0 read), (Z.ltb_spec 0 zero); done || lia).
  unfold PGSIZE. set (pr := if read <? 4096 then read else 4096).
  assert (0 <= pr <= 4096 ∧ pr <= read ∧ pr = Z.min read 4096 ∧ 4096 - pr <= zero) as (? & ? & Hpr & ?)
    by (unfold pr; destruct (Z.ltb_spec read 4096); lia).
  clearbody pr. destruct budget as [|budget]; [done|]. cbn [negb].
  rewrite (u32_small (upage + 4096)), (u32_small (read - pr)), (u32_small (zero - (4096 - pr))) by lia.
  set (t1 := <[_ := _]> t).
  specialize (IH fuel budget (s32 (ofs + pr)) (upage + 4096) (read - pr) (zero - (4096 - pr)) t1).
  assert ((n <=? budget) = (S n <=? S budget))%nat as Eb by done. rewrite <- Eb.
  destruct (n <=? budget)%nat.
  - destruct IH as (t' & E & Ht'); [lia|lia|lia|lia|apply s32_range|rewrite <- Hu; Z.to_euclidean_division_equations; lia|lia|lia|].
    exists t'. split; [exact E|]. intros va. rewrite Ht'. unfold in_segment, PGSIZE, t1 in *.
    destruct (Z.eqb_spec (va mod 4096) 0) as [Hva|Hva]; [rewrite !andb_true_r|rewrite !andb_false_r; apply lookup_insert_ne; intros ->; done].
    assert (va = upage ∨ va < upage ∨ upage + 4096 <= va) as Hcase by (Z.to_euclidean_division_equations; lia).
    destruct (decide (va = upage)) as [->|Hne].
    + destruct (Z.leb_spec (upage + 4096) upage), (Z.leb_spec upage upage), (Z.ltb_spec upage (upage + 4096 * Z.of_nat (S n))); try lia.
      cbn [andb]. rewrite lookup_insert_eq. unfold seg_page, PGSIZE. rewrite Z.sub_diag.
      rewrite (Z.min_r read 0), Z.add_0_r by lia. f_equal.
      replace (Z.max 0 (Z.min 4096 (read - 0))) with pr by lia. done.
    + rewrite lookup_insert_ne by done.
      destruct (Z.leb_spec (upage + 4096) va), (Z.leb_spec upage va), (Z.ltb_spec va (upage + 4096 + 4096 * Z.of_nat n)),
        (Z.ltb_spec va (upage + 4096 * Z.of_nat (S n))); cbn [andb]; try done; try lia.
      f_equal. unfold seg_page, PGSIZE. rewrite u32_s32_add.
      replace (ofs + pr + Z.min (read - pr) (va - (upage + 4096))) with (ofs + Z.min read (va - upage)) by lia.
      by replace (Z.max 0 (Z.min 4096 (read - pr - (va - (upage + 4096))))) with (Z.max 0 (Z.min 4096 (read - (va - upage)))) by lia.
  - apply IH; [lia|lia|lia|lia|apply s32_range|rewrite <- Hu; Z.to_euclidean_division_equations; lia|lia|lia].
Qed.

Record phdr_u32 (ph : Elf32_Phdr) : Prop := {
  pu_offset : is_u32 (p_offset ph);
  pu_vaddr : is_u32 (p_vaddr ph);
  pu_filesz : is_u32 (p_filesz ph);
  pu_memsz : is_u32 (p_memsz ph)
}.
Lemma word_u32 bs i : Forall is_u8 bs → is_u32 (word bs i).
Proof.
  intros H. assert (∀ j, is_u8 (default 0 (bs !! j))) as Hj.
  { intros j. destruct (bs !! j) eqn:E; cbn; [by eapply lookup_Forall|unfold is_u8; lia]. }
  by apply bytes_word_range.
Qed.
Lemma phdr_of_u32 bs : Forall is_u8 bs → phdr_u32 (phdr_of bs).
Proof. intros H. split; by apply word_u32. Qed.

(** What the checks establish: the segment lies in the file and, without wrapping
    around, in the user address space above page 0. *)
Lemma validate_segment_spec ph file : phdr_u32 ph → validate_segment ph file = true →
  p_offset ph mod 4096 = p_vaddr ph mod 4096 ∧ p_offset ph <= length_of file ∧ p_filesz ph <= p_memsz ph ∧
  0 < p_memsz ph ∧ PGSIZE <= p_vaddr ph ∧ p_vaddr ph + p_memsz ph < PHYS_BASE.
Proof.
  intros [Ho Hv Hf Hm]. unfold validate_segment, is_user_vaddr, is_u32 in *.
  fold (pg_ofs (p_offset ph)) (pg_ofs (p_vaddr ph)). rewrite !pg_ofs_mod.
  unfold u32. repeat case_match; try done. intros H'. unfold PHYS_BASE, PGSIZE in *.
  rewrite ?negb_true_iff, ?negb_false_iff, ?Z.eqb_eq, ?Z.ltb_ge, ?Z.ltb_lt, ?Z.eqb_neq in *.
  Z.to_euclidean_division_equations; lia.
Qed.

(** The pages, the bytes to read and the place in the file of a segment. *)
Definition seg_start (ph : Elf32_Phdr) : Z := p_vaddr ph - p_vaddr ph mod 4096.
Definition seg_pages (ph : Elf32_Phdr) : Z := (p_vaddr ph mod 4096 + p_memsz ph + 4095) / 4096.
Definition seg_read (ph : Elf32_Phdr) : Z := if 0 <? p_filesz ph then p_vaddr ph mod 4096 + p_filesz ph else 0.
Definition seg_ofs (ph : Elf32_Phdr) : Z := p_offset ph - p_offset ph mod 4096.

(** Where a valid segment lies. *)
Record seg_layout (ph : Elf32_Phdr) : Prop := {
  sl_read : 0 <= seg_read ph <= 4096 * seg_pages ph;
  sl_pages : 0 < seg_pages ph;
  sl_end : seg_start ph + 4096 * seg_pages ph <= PHYS_BASE;
  sl_start : seg_start ph mod PGSIZE = 0 ∧ 0 <= seg_start ph;
  sl_ofs : is_s32 (seg_ofs ph) ∧ seg_ofs ph mod 4096 = 0 ∧ 0 <= seg_ofs ph
}.
Lemma valid_layout ph file : phdr_u32 ph → length_of file < 2147483648 → validate_segment ph file = true → seg_layout ph.
Proof.
  intros Hu Hlen Hv. destruct (validate_segment_spec ph file Hu Hv) as (Ho & Hin & Hfm & Hm & Hlo & Hhi).
  destruct Hu as [Uo Uv Uf Um]. unfold is_u32, PGSIZE, PHYS_BASE in *. split.
  - unfold seg_read, seg_pages. destruct (Z.ltb_spec 0 (p_filesz ph)); Z.to_euclidean_division_equations; lia.
  - unfold seg_pages. Z.to_euclidean_division_equations; lia.
  - unfold seg_start, seg_pages, PHYS_BASE. Z.to_euclidean_division_equations; lia.
  - unfold seg_start, PGSIZE. Z.to_euclidean_division_equations; lia.
  - unfold seg_ofs, is_s32. Z.to_euclidean_division_equations; lia.
Qed.
(** A valid segment passes the assertions of [load_segment]. *)
Lemma load_phdr_loop buckets budget f file ph t :
  phdr_u32 ph → length_of file < 2147483648 → validate_segment ph file = true →
  load_phdr buckets budget f file ph t =
  segment_loop (S (Z.to_nat (seg_pages ph))) buckets budget f (seg_ofs ph) (seg_start ph) (seg_read ph)
    (4096 * seg_pages ph - seg_read ph) (has (p_flags ph) PF_W) t.
Proof.
  intros Hu Hlen Hv. destruct (valid_layout ph file Hu Hlen Hv) as [Hr Hp Hend [Hal Hs0] (Hos & Hoa & Ho0)].
  destruct (validate_segment_spec ph file Hu Hv) as (Ho & Hin & Hfm & Hm & Hlo & Hhi).
  destruct Hu as [Uo Uv Uf Um]. unfold load_phdr. rewrite Hv. cbv zeta.
  fold (pg_round_down (p_offset ph)) (pg_round_down (p_vaddr ph)) (pg_ofs (p_vaddr ph)).
  rewrite !pg_round_down_sub, pg_ofs_mod by done. fold (seg_ofs ph) (seg_start ph).
  unfold is_u32, PGSIZE, PHYS_BASE in *.
  assert (ROUND_UP (u32 (p_vaddr ph mod 4096 + p_memsz ph)) 4096 = 4096 * seg_pages ph) as Er.
  { pose proof (Z.mod_pos_bound (p_vaddr ph) 4096 ltac:(lia)). unfold ROUND_UP, seg_pages.
    rewrite u32_sub_l, (u32_small (p_vaddr ph mod 4096 + p_memsz ph)), (u32_small (_ - 1)) by lia.
    rewrite u32_small by (Z.to_euclidean_division_equations; lia). Z.to_euclidean_division_equations; lia. }
  assert ((if 0 <? p_filesz ph then
      (u32 (p_vaddr ph mod 4096 + p_filesz ph), u32 (ROUND_UP (u32 (p_vaddr ph mod 4096 + p_memsz ph)) 4096 - u32 (p_vaddr ph mod 4096 + p_filesz ph)))
    else (0, ROUND_UP (u32 (p_vaddr ph mod 4096 + p_memsz ph)) 4096)) =
    (seg_read ph, 4096 * seg_pages ph - seg_read ph)) as ->.
  { rewrite Er. unfold seg_read. pose proof (Z.mod_pos_bound (p_vaddr ph) 4096 ltac:(lia)).
    unfold seg_read in Hr. destruct (Z.ltb_spec 0 (p_filesz ph)); [|by rewrite Z.sub_0_r].
    rewrite (u32_small (p_vaddr ph mod 4096 + p_filesz ph)), u32_small by lia. done. }
  cbv iota beta. unfold load_segment, PGSIZE. rewrite (s32_small (seg_ofs ph)) by (unfold is_s32 in Hos; lia).
  replace (seg_read ph + (4096 * seg_pages ph - seg_read ph)) with (seg_pages ph * 4096) by lia.
  rewrite !assert_true; [|apply Z.eqb_eq..].
  2:{ rewrite Z.rem_mod_nonneg by lia. done. }
  2:{ by rewrite pg_ofs_mod. }
  2:{ rewrite u32_small by lia. apply Z.mod_mul. lia. }
  unfold segment_fuel, PGSIZE. replace (seg_read ph + (4096 * seg_pages ph - seg_read ph)) with (seg_pages ph * 4096) by lia.
  rewrite Z.div_mul by lia. done.
Qed.

Lemma load_phdr_spec budget f file ph t :
  phdr_u32 ph → length_of file < 2147483648 → validate_segment ph file = true →
  if (Z.to_nat (seg_pages ph) <=? budget)%nat then
    ∃ t', load_phdr true budget f file ph t = Ok (Some ((budget - Z.to_nat (seg_pages ph))%nat, t')) ∧
      ∀ va, t' !! va = if in_segment (seg_start ph) (seg_pages ph) va
        then Some (seg_page f (seg_ofs ph) (seg_start ph) (seg_read ph) va (has (p_flags ph) PF_W)) else t !! va
  else load_phdr true budget f file ph t = Ok None.
Proof.
  intros Hu Hlen Hv. destruct (valid_layout ph file Hu Hlen Hv) as [Hr Hp Hend [Hal Hs0] (Hos & _)].
  rewrite load_phdr_loop by done.
  pose proof (segment_loop_spec (Z.to_nat (seg_pages ph)) (S (Z.to_nat (seg_pages ph)))
    budget f (seg_ofs ph) (seg_start ph) (seg_read ph) (4096 * seg_pages ph - seg_read ph) (has (p_flags ph) PF_W) t) as H.
  rewrite Z2Nat.id in H by lia. apply H; unfold PGSIZE; try done; lia.
Qed.

Lemma u32_page_offset a b i : b mod 4096 = 0 → 0 <= i < 4096 → a = b + i → u32 b + i = u32 a.
Proof. intros Hb Hi ->. unfold u32. Z.to_euclidean_division_equations; lia. Qed.

(** Where the bytes of a loaded segment come from. *)
Lemma seg_page_source f ph va w : p_offset ph mod 4096 = p_vaddr ph mod 4096 → is_u32 (p_vaddr ph) →
  0 <= p_offset ph → 0 <= p_filesz ph → p_vaddr ph <= va →
  let p := seg_page f (seg_ofs ph) (seg_start ph) (seg_read ph) (va - va mod PGSIZE) w in
  (if va - load_vaddr p <? load_read_bytes p then FromFile (load_filepos p + (va - load_vaddr p)) else Zero) =
  if va <? p_vaddr ph + p_filesz ph then FromFile (u32 (p_offset ph + (va - p_vaddr ph))) else Zero.
Proof.
  intros Ho Hv H0 Hf Hva. unfold seg_page, file_page, PGSIZE, is_u32 in *.
  cbn [load_vaddr load_read_bytes load_filepos].
  assert (0 <= seg_ofs ph ∧ seg_start ph <= va - va mod 4096) as [Hofs Hst].
  { unfold seg_ofs, seg_start. Z.to_euclidean_division_equations; lia. }
  pose proof (Z.mod_pos_bound va 4096 ltac:(lia)) as Hm.
  assert (seg_ofs ph - seg_start ph = p_offset ph - p_vaddr ph) as Hd by (unfold seg_ofs, seg_start; lia).
  set (d := va - va mod 4096 - seg_start ph) in *.
  assert (va - (va - va mod 4096) = va - seg_start ph - d) as -> by lia.
  unfold seg_read. destruct (Z.ltb_spec 0 (p_filesz ph)) as [Hpos|Hpos].
  - assert (p_vaddr ph mod 4096 + p_filesz ph = p_vaddr ph + p_filesz ph - seg_start ph) as -> by (unfold seg_start; lia).
    destruct (Z.ltb_spec va (p_vaddr ph + p_filesz ph)), (Z.ltb_spec (va - seg_start ph - d)
      (Z.max 0 (Z.min 4096 (p_vaddr ph + p_filesz ph - seg_start ph - d)))); try lia; [|done].
    rewrite Z.min_r by lia. f_equal. apply (u32_page_offset _ (seg_ofs ph + d)); [|lia..].
    unfold d, seg_start, seg_ofs. Z.to_euclidean_division_equations; lia.
  - destruct (Z.ltb_spec va (p_vaddr ph + p_filesz ph)); [lia|].
    destruct (Z.ltb_spec (va - seg_start ph - d) (Z.max 0 (Z.min 4096 (0 - d)))); [lia|done].
Qed.

(** A page that [load_segment] enters, apart from its place in the file. *)
Definition user_page (va : Z) (p : page) : Prop :=
  load_vaddr p = va ∧ va mod PGSIZE = 0 ∧ PGSIZE <= va < PHYS_BASE ∧
  0 <= load_read_bytes p <= PGSIZE ∧ load_read_bytes p + load_zero_bytes p = PGSIZE ∧ swap_outed p = false.
Definition user_pages (t : spages) : Prop := ∀ va p, t !! va = Some p → user_page va p.

Lemma load_phdr_total budget f file ph t : phdr_u32 ph → length_of file < 2147483648 → user_pages t →
  load_phdr true budget f file ph t = Ok None ∨
  ∃ b' t', load_phdr true budget f file ph t = Ok (Some (b', t')) ∧ user_pages t'.
Proof.
  intros Hu Hl Ht. destruct (validate_segment ph file) eqn:Hv; [|left; unfold load_phdr; by rewrite Hv].
  pose proof (load_phdr_spec budget f file ph t Hu Hl Hv) as H. destruct (_ <=? budget)%nat; [|by left].
  destruct H as (t' & E & Ht'). right. eexists _, t'. split; [done|]. intros va p. rewrite Ht'.
  destruct (in_segment _ _ va) eqn:Hin; [|apply Ht]. intros [= <-].
  destruct (validate_segment_spec ph file Hu Hv) as (_ & _ & _ & _ & Hlo & Hhi).
  unfold in_segment in Hin. apply andb_prop in Hin as [[H1%Z.leb_le H2%Z.ltb_lt]%andb_prop H3%Z.eqb_eq].
  unfold user_page, seg_page, file_page, PGSIZE, PHYS_BASE, seg_start, seg_pages in *. cbn.
  splits; try done; Z.to_euclidean_division_equations; lia.
Qed.

Lemma phdr_loop_total n budget f file ofs t :
  Forall is_u8 file → length_of file < 2147483648 → user_pages t →
  phdr_loop n true budget f file ofs t = Ok None ∨
  ∃ b' t', phdr_loop n true budget f file ofs t = Ok (Some (b', t')) ∧ user_pages t'.
Proof.
  intros Hb Hl. revert budget ofs t. induction n as [|n IH]; intros budget ofs t Ht; cbn [phdr_loop]; [right; eauto|].
  destruct (_ || _); [by left|]. destruct (negb _); [by left|]. cbv zeta.
  set (ph := phdr_of _). assert (phdr_u32 ph) as Hu by (apply phdr_of_u32, Forall_take, Forall_drop, Hb).
  destruct (_ || _); [by left|]. destruct (p_type ph =? PT_LOAD); [|by apply IH].
  destruct (load_phdr_total budget f file ph t Hu Hl Ht) as [->|(b' & t' & -> & Ht')]; [by left|]. cbn. by apply IH.
Qed.

(** When [hash_init] failed, the first page of a segment makes [load] go through
    a null pointer. *)
Lemma load_phdr_no_buckets budget f file ph t :
  phdr_u32 ph → length_of file < 2147483648 → validate_segment ph file = true →
  load_phdr false (S budget) f file ph t = Err WildAccess.
Proof.
  intros Hu Hl Hv. rewrite load_phdr_loop by done. destruct (valid_layout ph file Hu Hl Hv) as [Hr Hp _ _ _].
  cbn [segment_loop]. by destruct (Z.ltb_spec 0 (seg_read ph)), (Z.ltb_spec 0 (4096 * seg_pages ph - seg_read ph)); try lia.
Qed.

(** C10: the loader against any executable whatsoever, well-formed or hostile,
    once [hash_init] has made the page table: it returns (no assertion fails, no
    loop runs on), and a page table it accepts holds only page-aligned pages of
    the user address space above page 0.  For a segment that passes
    [validate_segment], [load] maps all its pages if there is memory for them and
    refuses it otherwise; afterwards each byte of the segment comes from its place
    in the file, modulo 2^32, or is zero past [p_filesz], and the pages outside
    the segment are as they were.  A place in a file is below 2^31, so that the
    remainder matters only for bytes past the end of the file, which
    [validate_segment] lets a header ask for.  If [hash_init] failed, a valid
    segment is a wild access. *)
Theorem executable_loaded file f : Forall is_u8 file → length_of file < 2147483648 →
  (∀ budget, load true budget f file = Ok None ∨
     ∃ entry t, load true budget f file = Ok (Some (entry, t)) ∧ user_pages t) ∧
  ∀ budget ph t, phdr_u32 ph → validate_segment ph file = true →
     (if (Z.to_nat (seg_pages ph) <=? budget)%nat then
       ∃ t', load_phdr true budget f file ph t = Ok (Some ((budget - Z.to_nat (seg_pages ph))%nat, t')) ∧
         (∀ a, p_vaddr ph <= a < p_vaddr ph + p_memsz ph →
            source_of t' a =
            Some (if a <? p_vaddr ph + p_filesz ph then FromFile (u32 (p_offset ph + (a - p_vaddr ph))) else Zero)) ∧
         (∀ va, in_segment (seg_start ph) (seg_pages ph) va = false → t' !! va = t !! va)
     else load_phdr true budget f file ph t = Ok None) ∧
     load_phdr false (S budget) f file ph t = Err WildAccess.
Proof.
  intros Hb Hl. split.
  - intros budget. unfold load. destruct (negb _); [by left|]. cbv zeta. destruct (negb _); [by left|].
    destruct (phdr_loop_total (Z.to_nat (e_phnum (ehdr_of (read_at file 0 sizeof_Ehdr)))) budget f file
      (s32 (e_phoff (ehdr_of (read_at file 0 sizeof_Ehdr)))) ∅ Hb Hl) as [->|(b' & t' & -> & Ht')]; [done|by left|].
    right. cbn. eauto.
  - intros budget ph t Hu Hv. split; [|by apply load_phdr_no_buckets]. pose proof (load_phdr_spec budget f file ph t Hu Hl Hv) as H.
    destruct (_ <=? budget)%nat; [|done]. destruct H as (t' & E & Ht'). exists t'. split; [done|].
    destruct (validate_segment_spec ph file Hu Hv) as (Ho & _ & Hfm & _). destruct Hu as [Uo Uv Uf Um].
    split; [|intros va Hva; by rewrite Ht', Hva].
    intros a Ha. unfold source_of. rewrite Ht'.
    assert (in_segment (seg_start ph) (seg_pages ph) (a - a mod PGSIZE) = true) as ->.
    { unfold in_segment, seg_start, seg_pages, PGSIZE. rewrite !andb_true_iff, Z.leb_le, Z.ltb_lt, Z.eqb_eq.
      Z.to_euclidean_division_equations; lia. }
    cbn [fmap option_fmap option_map]. f_equal. apply seg_page_source; (done || unfold is_u32 in *; lia).
Qed.

(** A small executable: a header, one program header, and a segment of 0x60 bytes
    of which the program gets 0x2000. *)
Definition u16_bytes (z : Z) : list Z := [u8 z; u8 (Z.shiftr z 8)].
Definition sample_phdr : list Z := concat (word_bytes <$> [1; 0; 0x8048000; 0; 0x60; 0x2000; 5; 0x1000]).
Definition sample_elf : list Z :=
  ident ++ replicate 9 0 ++ u16_bytes 2 ++ u16_bytes 3 ++ word_bytes 1 ++ word_bytes 0x8048054 ++ word_bytes 52 ++
  word_bytes 0 ++ word_bytes 0 ++ u16_bytes 52 ++ u16_bytes 32 ++ u16_bytes 1 ++ replicate 6 0 ++ sample_phdr ++ replicate 44 144.
Lemma executable_loaded_witness :
  (∃ t, load true 8 1 sample_elf = Ok (Some (0x8048054, t)) ∧ user_pages t) ∧
  ∃ t', load_phdr true 8 1 sample_elf (phdr_of sample_phdr) ∅ = Ok (Some (6%nat, t')) ∧
    source_of t' 0x8048054 = Some (FromFile 0x54) ∧ source_of t' 0x8049fff = Some Zero ∧ t' !! 0x804a000 = None.
Proof.
  destruct (executable_loaded sample_elf 1) as [Hload Hseg].
  - apply Forall_forall. intros b Hb. assert (forallb (λ b, (0 <=? b) && (b <? 256)) sample_elf = true) as H by (vm_compute; reflexivity).
    rewrite List.forallb_forall in H. apply list_elem_of_In, H in Hb. apply andb_prop in Hb as [H0%Z.leb_le H1%Z.ltb_lt]. exact (conj H0 H1).
  - vm_compute. reflexivity.
  - split.
    + destruct (Hload 8%nat) as [E|(e & t & E & Ht)].
      * assert (is_ok (r ← load true 8 1 sample_elf; of_option r) = true) as H by (vm_compute; reflexivity). rewrite E in H. discriminate H.
      * exists t. split; [|exact Ht]. rewrite E. do 3 f_equal.
        assert ((λ r, match r with Ok (Some (e, _)) => e | _ => 0 end) (load true 8 1 sample_elf) = 0x8048054) as H by (vm_compute; reflexivity).
        rewrite E in H. exact H.
    + pose proof (Hseg 8%nat (phdr_of sample_phdr) ∅) as H.
      assert (phdr_u32 (phdr_of sample_phdr)) as Hu by (split; vm_compute; split; congruence).
      specialize (H Hu ltac:(vm_compute; reflexivity)).
      destruct H as [(t' & E & Hs & Ho) _]. exists t'. split; [exact E|].
      split; [exact (Hs 0x8048054 ltac:(vm_compute; split; congruence))|].
      split; [exact (Hs 0x8049fff ltac:(vm_compute; split; congruence))|exact (Ho 0x804a000 ltac:(vm_compute; reflexivity))].
Defined.
