(* ===== verification/Args.v ===== *)
(** The arguments of a user program (the second half of [setup_stack],
    userprog/process.c): the words of the command line are copied to the top of
    the user stack, followed by their addresses, [argv], [argc] and a place for a
    return address.

    The memory holds the stack page at its user addresses below [ebp] and, above,
    the kernel pages that the code works with: the command line at [arg], the page
    of collected addresses at [pts], and the literal [delim] of one blank. *)
From S2P Require Import Prelude Mem Str StrSearch StrToken Word.

(** [if ( *esp < ebp - 0x1000)], where [ebp] is an [int *]. *)
Definition too_low (ebp esp : Z) : bool := esp <? u32 (ebp - 0x1000 * 4).
(** [tmp = (int) (strlen (s) + 4) / 4; tmp *= 4;] *)
Definition arg_space (len : Z) : Z := s32 (Z.quot (s32 (u32 (len + 4))) 4 * 4).

(** One argument; [None] for the early return of [false]. *)
Definition push_arg (ebp pts s esp argc : Z) : MM (option (Z * Z)) :=
  len ← strlen s;
  let esp := u32 (esp - arg_space len) in
  if too_low ebp esp then mret None
  else
    len ← strlen s;
    memcpy esp s (u32 (len + 1));;
    store32 (pts + 4 * argc) esp;;
    mret (Some (esp, argc + 1)).

(** The loop over [strtok_r], from the token that the last call returned. *)
Fixpoint arg_loop (fuel : nat) (ebp pts delim token save esp argc : Z) : MM (option (Z * Z)) :=
  match fuel with
  | O => fail OutOfFuel
  | S fuel =>
      if token =? NULL then mret (Some (esp, argc))
      else
        r ← push_arg ebp pts token esp argc;
        match r with
        | None => mret None
        | Some (esp, argc) =>
            '(token, save) ← strtok_r NULL delim save;
            arg_loop fuel ebp pts delim token save esp argc
        end
  end.
Definition push_words (ebp pts delim arg : Z) : MM (option (Z * Z)) :=
  blank ← strchr arg 32;
  if blank =? NULL then push_arg ebp pts arg ebp 0
  else with_fuel (λ n, '(token, save) ← strtok_r arg delim 0; arg_loop n ebp pts delim token save ebp 0).

(** The addresses of the arguments, [argv], [argc] and the return address. *)
Definition push_vector (ebp pts esp argc : Z) : MM (option Z) :=
  let esp := u32 (esp - 4) in
  let esp := u32 (esp - argc * 4) in
  if too_low ebp esp then mret None
  else
    memcpy esp pts (argc * 4);;
    let tmpp := esp in
    let esp := u32 (esp - 4) in
    if too_low ebp esp then mret None
    else
      store32 esp tmpp;;
      let esp := u32 (esp - 4) in
      if too_low ebp esp then mret None
      else
        store32 esp argc;;
        let esp := u32 (esp - 4) in
        if too_low ebp esp then mret None else mret (Some esp).

(** The stack pointer that the program starts with. *)
Definition push_arguments (ebp pts delim arg : Z) : MM (option Z) :=
  r ← push_words ebp pts delim arg;
  match r with
  | None => mret None
  | Some (esp, argc) => push_vector ebp pts esp argc
  end.

(** * The layout *)

(** The space of a string, with its terminator, in whole words. *)
Definition space (w : list Z) : Z := (Z.of_nat (length w) + 4) / 4 * 4.
Fixpoint spaces (ws : list (list Z)) : Z := match ws with [] => 0 | w :: ws => space w + spaces ws end.
(** Where the strings go, from the address [e] downwards. *)
Fixpoint places (e : Z) (ws : list (list Z)) : list Z :=
  match ws with [] => [] | w :: ws => (e - space w) :: places (e - space w) ws end.
(** The arguments of a command line. *)
Definition arguments (s : list Z) : list (list Z) := if inb s 32 then words (inb [32]) s else [s].
(** The bytes that the arguments take on the stack. *)
Definition frame_size (ws : list (list Z)) : Z := spaces ws + 4 * (Z.of_nat (length ws) + 1) + 12.
Definition pointers (l : list Z) : list Z := concat (word_bytes <$> l).

Lemma space_bounds w : 0 < space w ∧ Z.of_nat (length w) + 1 <= space w ∧ space w mod 4 = 0.
Proof. unfold space. Z.to_euclidean_division_equations; lia. Qed.
Lemma spaces_nonneg ws : 0 <= spaces ws.
Proof. induction ws as [|w ws IH]; cbn; [lia|]. pose proof (space_bounds w). lia. Qed.
Lemma spaces_aligned ws : spaces ws mod 4 = 0.
Proof.
  induction ws as [|w ws IH]; cbn [spaces]; [done|].
  pose proof (space_bounds w). Z.to_euclidean_division_equations; lia.
Qed.
Lemma places_end e ws i x w : places e ws !! i = Some x → ws !! i = Some w → x + Z.of_nat (length w) < e.
Proof.
  revert e i. induction ws as [|y ws IH]; intros e [|i]; cbn; try done.
  - intros [= <-] [= ->]. pose proof (space_bounds w). lia.
  - intros H1 H2. pose proof (IH _ _ H1 H2). pose proof (space_bounds y). lia.
Qed.
Lemma length_places e ws : length (places e ws) = length ws.
Proof. revert e. induction ws as [|w ws IH]; intros e; cbn; [done|]. by rewrite IH. Qed.
Lemma places_range e ws : Forall (λ a, e - spaces ws <= a < e) (places e ws).
Proof.
  revert e. induction ws as [|w ws IH]; intros e; cbn [places spaces]; [done|].
  pose proof (space_bounds w). pose proof (spaces_nonneg ws). constructor; [lia|].
  eapply Forall_impl; [apply IH|]. intros a Ha. cbn in Ha. lia.
Qed.
Lemma length_pointers l : length (pointers l) = (4 * length l)%nat.
Proof. unfold pointers. induction l as [|a l IH]; [done|]. cbn [fmap list_fmap concat].
  rewrite length_app. cbn [fmap list_fmap] in IH. rewrite IH. cbn [length word_bytes]. lia. Qed.
Lemma pointers_u8 l : Forall is_u8 (pointers l).
Proof. unfold pointers. induction l as [|a l IH]; [done|]. cbn [concat fmap list_fmap]. by apply Forall_app_2; [apply word_bytes_u8|]. Qed.

(** A word among pointers. *)
Lemma rd32_bytes m p w : bytes_at m p (word_bytes w) → is_u32 w → rd32 m p = w.
Proof.
  intros Hb Hw. rewrite <- (rd32_wr32 m p w Hw). unfold wr32. by rewrite put_bytes_same.
Qed.
Lemma rd32_pointers m p l i a : bytes_at m p (pointers l) → l !! i = Some a → is_u32 a → rd32 m (p + 4 * Z.of_nat i) = a.
Proof.
  revert p i. induction l as [|x l IH]; intros p i Hb Hi Ha; [done|].
  apply bytes_at_app in Hb as [Hx Hl]. destruct i as [|i]; cbn in Hi.
  - simplify_eq. rewrite Z.add_0_r. by apply rd32_bytes.
  - replace (p + 4 * Z.of_nat (S i)) with (p + Z.of_nat (length (word_bytes x)) + 4 * Z.of_nat i) by (cbn; lia).
    by apply IH.
Qed.

Section args.
Context (ebp pts delim : Z).
Context (Hebp : 0x5000 <= ebp < 4294967296) (Hpts : ebp <= pts) (Hdelim : ebp <= delim).

(** What the code needs of the memory. *)
Record env (m : mem) : Prop := {
  env_delim : cstr m delim [32];
  env_stack : mapped m (ebp - 4096) 4096;
  env_pts : mapped m pts 4096
}.
Definition grows (m m' : mem) : Prop := ∀ a, is_Some (m !! a) → is_Some (m' !! a).
Lemma grows_put m p bs : grows m (put_bytes p bs m).
Proof using.
  intros a Ha. rewrite put_bytes_lookup. case_match eqn:E; [|done]. apply lookup_lt_is_Some_2. bcases; cbn in E; (done || lia).
Qed.
Lemma grows_mapped m m' p n : grows m m' → mapped m p n → mapped m' p n.
Proof using. intros Hg H i Hi. apply Hg, H. lia. Qed.

Lemma not_too_low e : ebp - 4096 <= e → too_low ebp e = false.
Proof using Hebp. intros. unfold too_low. rewrite u32_small by lia. apply Z.ltb_ge. lia. Qed.
Lemma arg_space_eq w : Z.of_nat (length w) < 4096 → arg_space (Z.of_nat (length w)) = space w.
Proof using.
  intros. unfold arg_space, space. rewrite u32_small, (s32_small (_ + 4)) by lia.
  rewrite Z.quot_div_nonneg by lia. rewrite s32_small by (Z.to_euclidean_division_equations; lia). done.
Qed.

(** One argument on the stack and in the collected addresses. *)
Lemma push_arg_Ok m w s e k :
  env m → ebp <= s → cstr m s w → ebp - 4096 <= e - space w → e <= ebp → 0 <= k < 1024 →
  push_arg ebp pts s e k m =
    Ok (Some (e - space w, k + 1), wr32 (pts + 4 * k) (e - space w) (put_bytes (e - space w) (w ++ [0]) m)).
Proof using Hebp Hpts.
  intros [_ Hst Hpt] Hs Hw Hlo He Hk. pose proof (space_bounds w) as (Hs0 & Hsl & _). unfold push_arg.
  erewrite M_bind_step by (apply strlen_Ok; [lia|done|lia]). rewrite arg_space_eq by lia.
  rewrite u32_small, not_too_low by lia.
  erewrite M_bind_step by (apply strlen_Ok; [lia|done|lia]). rewrite u32_small by lia.
  assert (Z.of_nat (length w) + 1 = Z.of_nat (length (w ++ [0]))) as El by (rewrite length_app; cbn; lia).
  destruct (Hw) as [Hch Hb]. erewrite M_bind_step.
  2:{ rewrite El. apply memcpy_Ok; [lia|lia|done| | |lia].
      - apply Forall_app_2; [eapply Forall_impl; [exact Hch|]; unfold is_u8; cbn; lia|repeat constructor; unfold is_u8; lia].
      - eapply mapped_sub; [exact Hst|lia|]. rewrite <- El. lia. }
  erewrite M_bind_step.
  2:{ apply store32_Ok. apply mapped_put. eapply mapped_sub; [exact Hpt|lia|cbn; lia]. }
  done.
Qed.

(** The delimiters are not in the page of addresses. *)
Context (Hdp : delim + 1 < pts ∨ pts + 4096 <= delim).
Definition apart (p n : Z) : Prop :=
  ebp <= p ∧ (delim + 1 < p ∨ p + n < delim) ∧ (p + n < pts ∨ pts + 4096 <= p).

(** The strings [ws] are in place below [e], their addresses at index [k]. *)
Definition placed (m : mem) (e k : Z) (ws : list (list Z)) : Prop :=
  Forall2 (cstr m) (places e ws) ws ∧ bytes_at m (pts + 4 * k) (pointers (places e ws)).
(** Nothing changed but the command line at [p], the stack below [e] and the
    addresses from index [k] on. *)
Definition only (p n e k : Z) (ws : list (list Z)) (m m' : mem) : Prop :=
  ∀ a, ¬ p <= a <= p + n → ¬ e - spaces ws <= a < e →
    ¬ pts + 4 * k <= a < pts + 4 * (k + Z.of_nat (length ws)) → m' !! a = m !! a.

Lemma cstr_frame m m' p s : cstr m p s → (∀ a, p <= a <= p + Z.of_nat (length s) → m' !! a = m !! a) → cstr m' p s.
Proof using. intros H He. eapply cstr_same_bytes; [exact H|]. intros. apply He. lia. Qed.
Lemma bytes_frame m m' p bs : bytes_at m p bs → (∀ a, p <= a < p + Z.of_nat (length bs) → m' !! a = m !! a) → bytes_at m' p bs.
Proof using. intros H He i b Hi. rewrite He; [by apply H|]. apply lookup_lt_Some in Hi. lia. Qed.

(** Memory after one argument. *)
Lemma push_arg_frame m w e k : 0 <= k → e <= ebp → Forall (λ c, 0 < c < 256) w →
  let m2 := wr32 (pts + 4 * k) (e - space w) (put_bytes (e - space w) (w ++ [0]) m) in
  grows m m2 ∧ cstr m2 (e - space w) w ∧ bytes_at m2 (pts + 4 * k) (word_bytes (e - space w)) ∧
  (∀ a, ¬ e - space w <= a < e → ¬ pts + 4 * k <= a < pts + 4 * k + 4 → m2 !! a = m !! a).
Proof using All.
  intros Hk He Hw m2. pose proof (space_bounds w) as (Hs0 & Hsl & _).
  assert (length (w ++ [0]) = S (length w)) as El by (rewrite length_app; cbn; lia).
  splits.
  - intros a Ha. by apply grows_put, grows_put.
  - split; [done|]. apply bytes_at_put_ne; [apply put_bytes_at|]. rewrite El. lia.
  - apply put_bytes_at.
  - intros a Ha Hp. unfold m2, wr32. rewrite put_bytes_ne by (cbn [length word_bytes]; lia). apply put_bytes_ne. lia.
Qed.

Lemma env_frame m m' p n e k : env m → apart p n → grows m m' → e <= ebp → 0 <= k →
  (∀ a, ¬ p <= a <= p + n → a >= ebp → ¬ pts <= a < pts + 4096 → m' !! a = m !! a) → env m'.
Proof using All.
  intros [Hd Hs Hp] (Hpe & Hap & _) Hg He Hk Hf. split.
  - eapply cstr_frame; [exact Hd|]. cbn [length]. intros. apply Hf; lia.
  - by eapply grows_mapped.
  - by eapply grows_mapped.
Qed.

Lemma arg_loop_Ok fuel s m p arg save e k :
  (if arg =? NULL then save else arg) = p → env m → cstr m p s → apart p (Z.of_nat (length s)) →
  (length s < fuel)%nat → e <= ebp → ebp - 4096 <= e - spaces (words (inb [32]) s) →
  0 <= k → k + Z.of_nat (length (words (inb [32]) s)) <= 1024 →
  ∃ m', ('(t, sv) ← strtok_r arg delim save; arg_loop fuel ebp pts delim t sv e k) m =
      Ok (Some (e - spaces (words (inb [32]) s), k + Z.of_nat (length (words (inb [32]) s))), m') ∧
    placed m' e k (words (inb [32]) s) ∧ only p (Z.of_nat (length s)) e k (words (inb [32]) s) m m' ∧ grows m m'.
Proof using All.
  revert s m p arg save e k. induction fuel as [|fuel IH]; intros s m p arg save e k Harg Henv Hs Hap Hf He Hlo Hk Hc; [lia|].
  destruct (Hap) as (Hpe & Hpd & Hpp).
  destruct (strtok_r_next delim [32] ltac:(lia) s m p arg save Harg ltac:(lia) (env_delim _ Henv) Hs)
    as [[Ew E]|(q & tok & sv & rest & m1 & E & Ew & Hq & Hl & Hsv & Hend & Htok & Hrest & Hg1 & Hm1)].
  { rewrite Ew in *. exists m. erewrite M_bind_step by exact E. cbn [arg_loop spaces length Z.of_nat].
    rewrite Z.sub_0_r, Z.add_0_r. splits; [done|split; [constructor|apply bytes_at_nil]|by intros a|by intros a]. }
  rewrite Ew in *. cbn [spaces length] in *. pose proof (space_bounds tok). pose proof (spaces_nonneg (words (inb [32]) rest)).
  assert (env m1) as Henv1 by (eapply (env_frame m m1 p _ e k); [done|done|done|done|done|]; intros; apply Hm1; lia).
  erewrite M_bind_step by exact E. cbn [arg_loop]. destruct (Z.eqb_spec q NULL) as [->|_]; [unfold NULL in Hq; lia|].
  erewrite M_bind_step by (apply push_arg_Ok; [done|lia|done|lia|lia|lia]).
  destruct (push_arg_frame m1 tok e k Hk He (proj1 Htok)) as (Hg2 & Hc2 & Hb2 & Hf2).
  set (m2 := wr32 _ _ _) in *.
  assert (env m2) as Henv2.
  { eapply (env_frame m1 m2 p _ e k); [done|exact Hap|done|done|done|]. intros a _ Ha Hpa. apply Hf2; lia. }
  destruct (IH rest m2 sv NULL sv (e - space tok) (k + 1)) as (m' & E' & [Hp1 Hp2] & Honly & Hg); [done|done| | |lia|lia|lia|lia|lia|].
  { eapply cstr_frame; [exact Hrest|]. intros a Ha. apply Hf2; lia. }
  { unfold apart. lia. }
  exists m'. replace (e - space tok - spaces (words (inb [32]) rest)) with (e - (space tok + spaces (words (inb [32]) rest))) in E' by lia.
  replace (k + 1 + Z.of_nat (length (words (inb [32]) rest))) with (k + Z.of_nat (S (length (words (inb [32]) rest)))) in E' by lia.
  unfold only in Honly. splits; [done| |..].
  - cbn [placed places]. split; cbn [places].
    + constructor; [|done]. eapply cstr_frame; [exact Hc2|]. intros a Ha. apply Honly; lia.
    + unfold pointers. cbn [fmap list_fmap concat]. apply bytes_at_app. split.
      * eapply bytes_frame; [exact Hb2|]. cbn [length word_bytes]. intros a Ha. apply Honly; lia.
      * replace (pts + 4 * k + Z.of_nat (length (word_bytes (e - space tok)))) with (pts + 4 * (k + 1)) by (cbn [length word_bytes]; lia). done.
  - intros a Ha1 Ha2 Ha3. rewrite Honly by (cbn [spaces length] in *; lia). cbn [spaces length] in *. rewrite Hf2, Hm1 by lia. done.
  - intros a Ha. by apply Hg, Hg2, Hg1.
Qed.

Lemma push_words_Ok s m arg :
  env m → cstr m arg s → apart arg (Z.of_nat (length s)) →
  spaces (arguments s) <= 4096 → Z.of_nat (length (arguments s)) <= 1024 →
  ∃ m', push_words ebp pts delim arg m = Ok (Some (ebp - spaces (arguments s), Z.of_nat (length (arguments s))), m') ∧
    placed m' ebp 0 (arguments s) ∧ only arg (Z.of_nat (length s)) ebp 0 (arguments s) m m' ∧ grows m m'.
Proof using All.
  intros Henv Hs Hap Hsp Hcnt. destruct (Hap) as (Hae & _). unfold push_words, arguments in *.
  destruct (strchr_in s m arg 32) as (r & E & Hr); [lia|done|lia|].
  erewrite M_bind_step by exact E. rewrite Hr, inb_app0 by done. destruct (inb s 32); cbn [negb].
  - destruct (arg_loop_Ok (S (size m)) s m arg arg 0 ebp 0) as (m' & E' & H); try done; try lia.
    { destruct (Z.eqb_spec arg NULL); [unfold NULL in *; lia|done]. }
    { pose proof (cstr_size _ _ _ Hs). lia. }
    exists m'. split; [exact E'|done].
  - cbn [spaces] in Hsp. pose proof (space_bounds s) as (? & ? & _).
    destruct (push_arg_frame m s ebp 0 ltac:(lia) ltac:(lia) (proj1 Hs)) as (Hg & Hc & Hb & Hf).
    eexists. rewrite (push_arg_Ok m s arg ebp 0) by (done || lia). split; [cbn [spaces length]; do 4 f_equal; lia|].
    splits; [split| |done].
    + constructor; [done|constructor].
    + unfold pointers. cbn [places fmap list_fmap concat]. by rewrite app_nil_r.
    + intros a Ha1 Ha2 Ha3. cbn [spaces length] in *. apply Hf; lia.
Qed.

Lemma push_vector_Ok m e l : let k := Z.of_nat (length l) in let esp := e - 4 * k - 16 in
  env m → bytes_at m pts (pointers l) → e <= ebp → ebp - 4096 <= esp → k <= 1024 →
  ∃ m', push_vector ebp pts e k m = Ok (Some esp, m') ∧
    bytes_at m' (esp + 12) (pointers l) ∧ rd32 m' (esp + 8) = esp + 12 ∧ rd32 m' (esp + 4) = k ∧
    (∀ a, ¬ esp + 4 <= a < e - 4 → m' !! a = m !! a).
Proof using All.
  intros k esp [_ Hst _] Hb He Hlo Hk. pose proof (length_pointers l) as Hlen. unfold push_vector.
  rewrite (u32_small (e - 4)), (u32_small (e - 4 - k * 4)), not_too_low by lia.
  assert (e - 4 - k * 4 = esp + 12) as -> by lia.
  erewrite M_bind_step.
  2:{ replace (k * 4) with (Z.of_nat (length (pointers l))) by lia.
      apply memcpy_Ok; [lia|lia|done|apply pointers_u8|eapply mapped_sub; [exact Hst|lia|lia]|lia]. }
  set (m1 := put_bytes _ _ m). cbv zeta.
  rewrite (u32_small (esp + 12 - 4)), not_too_low by lia.
  erewrite M_bind_step by (apply store32_Ok, mapped_put; eapply mapped_sub; [exact Hst|lia|lia]).
  rewrite (u32_small (esp + 12 - 4 - 4)), not_too_low by lia.
  erewrite M_bind_step by (apply store32_Ok, mapped_put, mapped_put; eapply mapped_sub; [exact Hst|lia|lia]).
  rewrite (u32_small (esp + 12 - 4 - 4 - 4)), not_too_low by lia.
  replace (esp + 12 - 4 - 4 - 4) with esp by lia. replace (esp + 12 - 4 - 4) with (esp + 4) by lia.
  replace (esp + 12 - 4) with (esp + 8) by lia. eexists. split; [done|]. splits.
  - apply bytes_at_put_ne; [|cbn [length word_bytes]; lia]. apply bytes_at_put_ne; [apply put_bytes_at|cbn [length word_bytes]; lia].
  - rewrite rd32_wr32_ne by lia. apply rd32_wr32. unfold is_u32. lia.
  - apply rd32_wr32. unfold is_u32. lia.
  - intros a Ha. unfold wr32. rewrite !put_bytes_ne by (cbn [length word_bytes]; lia). apply put_bytes_ne. lia.
Qed.
End args.

(** C18: the start-up stack of a user program.  For a command line that fits, the
    words of which are the arguments, on a zeroed stack page: [push_arguments]
    succeeds, and the program finds above its stack pointer the number of its
    arguments, then the address of the vector that follows, whose entries point to
    the arguments as terminated strings, in order, within the stack page, and whose
    last entry is null; the stack pointer is aligned, and nothing outside the stack
    page, the command line and the page of addresses is changed. *)
Theorem arguments_pushed m ebp pts delim arg s :
  0x5000 <= ebp < 4294967296 → ebp mod 4 = 0 → ebp <= pts → ebp <= delim → ebp <= arg →
  delim + 1 < pts ∨ pts + 4096 <= delim →
  delim + 1 < arg ∨ arg + Z.of_nat (length s) < delim →
  arg + Z.of_nat (length s) < pts ∨ pts + 4096 <= arg →
  cstr m arg s → cstr m delim [32] → mapped m pts 4096 → bytes_at m (ebp - 4096) (replicate 4096 0) →
  frame_size (arguments s) <= 4096 →
  let argv := arguments s in let argc := Z.of_nat (length argv) in let esp := ebp - frame_size argv in
  ∃ m', push_arguments ebp pts delim arg m = Ok (Some esp, m') ∧
    esp mod 4 = 0 ∧ rd32 m' (esp + 4) = argc ∧ rd32 m' (esp + 8) = esp + 12 ∧
    (∀ i w, argv !! i = Some w →
      let a := rd32 m' (esp + 12 + 4 * Z.of_nat i) in cstr m' a w ∧ esp < a ∧ a + Z.of_nat (length w) < ebp) ∧
    rd32 m' (esp + 12 + 4 * argc) = 0 ∧
    (∀ a, ¬ ebp - 4096 <= a < ebp → ¬ arg <= a <= arg + Z.of_nat (length s) → ¬ pts <= a < pts + 4096 → m' !! a = m !! a).
Proof.
  intros Hebp Hal Hpts Hdelim Harg Hdp Hda Hap Hs Hd Hpm Hz Hfit argv argc esp.
  fold argv in Hfit. unfold frame_size in *. fold argc in Hfit. pose proof (spaces_nonneg argv) as Hsp.
  assert (env ebp pts delim m) as Henv.
  { split; [done| |done]. apply bytes_at_mapped in Hz. by rewrite length_replicate in Hz. }
  destruct (push_words_Ok ebp pts delim Hebp Hpts Hdelim Hdp s m arg) as (m1 & E1 & [Hstr Hptr] & Honly & Hg);
    [done|done|by split|fold argv; lia|fold argv argc; lia|]. fold argv argc in E1, Hstr, Hptr, Honly.
  rewrite Z.mul_0_r, Z.add_0_r in Hptr.
  assert (env ebp pts delim m1) as Henv1.
  { destruct Henv as [? ? ?]. split; [|by eapply grows_mapped..].
    eapply cstr_frame; [eassumption|]. cbn [length]. intros a Ha. apply Honly; fold argc; lia. }
  assert (length (places ebp argv) = length argv) as Elen by apply length_places.
  destruct (push_vector_Ok ebp pts delim Hebp Hpts Hdelim Hdp m1 (ebp - spaces argv) (places ebp argv))
    as (m' & E2 & Hb & Ha & Hc & Hf); [done|done|lia|rewrite Elen; fold argc; lia|rewrite Elen; fold argc; lia|].
  rewrite Elen in *. fold argc in E2, Hb, Ha, Hc, Hf.
  replace (ebp - spaces argv - 4 * argc - 16) with esp in * by lia.
  exists m'. unfold push_arguments. erewrite M_bind_step by exact E1. splits; [exact E2| |done|done| | |].
  - pose proof (spaces_aligned argv).
    unfold esp. Z.to_euclidean_division_equations; lia.
  - intros i w Hi. destruct (Forall2_lookup_r _ _ _ _ _ Hstr Hi) as (x & Hx & Hw).
    pose proof (lookup_Forall _ _ _ _ (places_range ebp argv) Hx) as Hr. cbn in Hr.
    pose proof (lookup_lt_Some _ _ _ Hi) as Hlt.
    rewrite (rd32_pointers _ _ _ _ _ Hb Hx) by (unfold is_u32; lia).
    pose proof (places_end _ _ _ _ _ Hx Hi).
    splits; [|lia|done]. eapply cstr_frame; [exact Hw|]. intros b Hbr. apply Hf. lia.
  - rewrite (rd32_ext m m'); [|intros b Hbr; rewrite Hf by lia; apply Honly; fold argc; lia].
    rewrite <- (put_bytes_same m (ebp - 4096) (replicate 4096 0) Hz). apply rd32_zeros; lia.
  - intros b Hb1 Hb2 Hb3. rewrite Hf by lia. apply Honly; fold argc; lia.
Qed.

(** A stack page, the page of addresses above it, the delimiters and a command
    line. *)
Definition sample_stack (s : list Z) : mem :=
  put_bytes 24580 (s ++ [0]) (put_bytes 24576 [32; 0]
    (put_bytes 20480 (replicate 4096 0) (put_bytes 16384 (replicate 4096 0) ∅))).
Lemma sample_stack_ok s : Forall (λ c, 0 < c < 256) s →
  cstr (sample_stack s) 24580 s ∧ cstr (sample_stack s) 24576 [32] ∧ mapped (sample_stack s) 20480 4096 ∧
  bytes_at (sample_stack s) 16384 (replicate 4096 0).
Proof.
  intros Hs. unfold sample_stack. splits.
  - split; [done|apply put_bytes_at].
  - split; [repeat constructor; lia|]. apply bytes_at_put_ne; [apply put_bytes_at|cbn; lia].
  - apply mapped_put, mapped_put. pose proof (bytes_at_mapped _ _ _ (put_bytes_at (put_bytes 16384 (replicate 4096 0) ∅) 20480 (replicate 4096 0))) as H.
    by rewrite length_replicate in H.
  - do 3 (apply bytes_at_put_ne; [|rewrite ?length_replicate; cbn [length]; lia]). apply put_bytes_at.
Qed.

(** <<ls -l>> *)
Definition command : list Z := [108; 115; 32; 45; 108].
Lemma arguments_pushed_witness : ∃ m',
  push_arguments 20480 20480 24576 24580 (sample_stack command) = Ok (Some 20448, m') ∧
  rd32 m' 20452 = 2 ∧ rd32 m' 20456 = 20460 ∧
  cstr m' (rd32 m' 20460) [108; 115] ∧ cstr m' (rd32 m' 20464) [45; 108] ∧ rd32 m' 20468 = 0.
Proof.
  destruct (sample_stack_ok command) as (Ha & Hd & Hp & Hz); [repeat constructor; lia|].
  destruct (arguments_pushed (sample_stack command) 20480 20480 24576 24580 command)
    as (m' & E & _ & Hc & Hv & Hw & Hn & _);
    [lia|reflexivity|lia|lia|lia|right; lia|left; lia|right; lia|exact Ha|exact Hd|exact Hp|exact Hz|vm_compute; intros [=]|].
  exists m'. split; [exact E|]. split; [exact Hc|]. split; [exact Hv|].
  split; [exact (proj1 (Hw 0%nat [108; 115] eq_refl))|]. split; [exact (proj1 (Hw 1%nat [45; 108] eq_refl))|exact Hn].
Defined.

(** The limit is four pages instead of one, since [ebp] points to integers: a word
    of 4090 characters passes the checks, and the code writes below the page. *)
Lemma argument_limit_too_large :
  frame_size (arguments (replicate (Z.to_nat 4090) 97)) = 4112 ∧
  push_arguments 20480 20480 24576 24580 (sample_stack (replicate (Z.to_nat 4090) 97)) = Err WildAccess.
Proof. split; vm_compute; reflexivity. Qed.
