(* ===== verification/Process.v ===== *)
(** Creation, waiting and exit of processes (process_execute, start_process,
    process_wait and process_kill of userprog/process.c, and the exit system call
    of userprog/syscall.c): the protocol between a parent and its children.

    Threads are known by the addresses of their structures, which are reused when
    a thread is gone, and by their thread ids, which are not.  A thread's [pc]
    says where it stands in these functions.  Every wait for a lock or a semaphore
    starts a new step; a critical section that cannot block is one step, taken
    when the lock is free, and [list_lock] is held across steps by
    [process_execute] only.  Outcomes of allocations, the result of [load] and
    what a user program asks for are choices of the environment.  The resources
    that [process_kill] takes down are counted ([torn]); they are the subject of
    other files.

    A thread that returns from its own [process_kill], having raised its
    semaphore, is not gone: it runs on in [process_exit] and [thread_exit], and
    its structure stays valid until the scheduler frees its page.  Such threads
    are [leaving]; they only have the step to their end before them, but others
    may come first, and an address is reused only after it. *)
From S2P Require Import Prelude.

Definition NULL : Z := 0.

(** [struct child_elem] (threads/thread.h), with the value of its semaphore. *)
Record child_elem := mkElem { child_tid : Z; exit_status : Z; ce_sema : Z; tchild : Z }.

(** Where [process_kill] stands with a target.  [cs] is its [child_sema], [i] the
    element in hand and [next] the cursor of its loop. *)
Inductive kstage :=
  | KParent
  | KOwn (cs : option Z)
  | KDown (cs : option Z) (i : Z) (next : option Z)
  | KAgain (cs : option Z) (i : Z) (next : option Z)
  | KTear (cs : option Z)
  | KUp (cs : option Z).

Inductive pc :=
  | User
  | Creating
  | Created (tid : Z)
  | Finishing (tid : Z)
  | Loading
  | Loaded (success : bool)
  | Waiting (i : Z)
  | Collect (i : Z)
  | Killing (calls : list (Z * kstage)).

Record proc := mkProc {
  tid : Z;
  tparent : Z;
  child_success : bool;
  ttmpchild : Z;
  creation_sema : Z;
  list_lock : bool;
  child_list : list Z;
  torn : nat;
  at_pc : pc
}.

(** What happened, newest first; kept for the statements only. *)
Inductive event :=
  | Execed (parent child : Z)
  | Exited (child status : Z)
  | Ended (child : Z)
  | Waited (parent child status : Z) (found : bool).

Record system := mkState {
  procs : gmap Z proc;
  leaving : gmap Z proc;
  elems : gmap Z child_elem;
  next_tid : Z;
  history : list event
}.

Definition set_pc (x : pc) (p : proc) : proc :=
  mkProc (tid p) (tparent p) (child_success p) (ttmpchild p) (creation_sema p) (list_lock p) (child_list p) (torn p) x.
Definition set_success (b : bool) (p : proc) : proc :=
  mkProc (tid p) (tparent p) b (ttmpchild p) (creation_sema p) (list_lock p) (child_list p) (torn p) (at_pc p).
Definition set_ttmpchild (t : Z) (p : proc) : proc :=
  mkProc (tid p) (tparent p) (child_success p) t (creation_sema p) (list_lock p) (child_list p) (torn p) (at_pc p).
Definition set_creation (v : Z) (p : proc) : proc :=
  mkProc (tid p) (tparent p) (child_success p) (ttmpchild p) v (list_lock p) (child_list p) (torn p) (at_pc p).
Definition set_lock (b : bool) (p : proc) : proc :=
  mkProc (tid p) (tparent p) (child_success p) (ttmpchild p) (creation_sema p) b (child_list p) (torn p) (at_pc p).
Definition set_children (l : list Z) (p : proc) : proc :=
  mkProc (tid p) (tparent p) (child_success p) (ttmpchild p) (creation_sema p) (list_lock p) l (torn p) (at_pc p).
Definition tear (p : proc) : proc :=
  mkProc (tid p) (tparent p) (child_success p) (ttmpchild p) (creation_sema p) (list_lock p) (child_list p) (S (torn p)) (at_pc p).
Definition set_status (v : Z) (e : child_elem) : child_elem := mkElem (child_tid e) v (ce_sema e) (tchild e).
Definition set_sema (v : Z) (e : child_elem) : child_elem := mkElem (child_tid e) (exit_status e) v (tchild e).

Definition put (t : Z) (p : proc) (s : system) : system :=
  mkState (<[t := p]> (procs s)) (leaving s) (elems s) (next_tid s) (history s).
Definition put_elem (i : Z) (e : child_elem) (s : system) : system :=
  mkState (procs s) (leaving s) (<[i := e]> (elems s)) (next_tid s) (history s).
Definition free_elem (i : Z) (s : system) : system :=
  mkState (procs s) (leaving s) (delete i (elems s)) (next_tid s) (history s).
Definition log (e : event) (s : system) : system :=
  mkState (procs s) (leaving s) (elems s) (next_tid s) (e :: history s).
(** A thread that returns from [process_kill], and its end. *)
Definition leave (t : Z) (p : proc) (s : system) : system :=
  mkState (delete t (procs s)) (<[t := p]> (leaving s)) (elems s) (next_tid s) (history s).
Definition end_thread (t : Z) (s : system) : system :=
  mkState (procs s) (delete t (leaving s)) (elems s) (next_tid s) (history s).
(** The thread structure at an address, and its update. *)
Definition thread_of (s : system) (t : Z) : option proc :=
  match procs s !! t with Some p => Some p | None => leaving s !! t end.
Definition put_thread (t : Z) (p : proc) (s : system) : system :=
  match procs s !! t with
  | Some _ => put t p s
  | None => mkState (procs s) (<[t := p]> (leaving s)) (elems s) (next_tid s) (history s)
  end.
Definition get (t : Z) (s : system) : outcome proc := of_option (thread_of s t).
Definition get_elem (i : Z) (s : system) : outcome child_elem := of_option (elems s !! i).

(** [init_thread] and [allocate_tid] for the new thread at [a]. *)
Definition init_process (parent : Z) (s : system) : proc := mkProc (next_tid s) parent false NULL 0 false [] 0 Loading.
Definition new_process (a parent : Z) (s : system) : system :=
  mkState (<[a := init_process parent s]> (procs s)) (leaving s) (elems s) (next_tid s + 1) (history s).

(** [find_child] (threads/thread.c), and the search of [process_kill], which does
    not stop at the first match. *)
Fixpoint find_child (tid : Z) (es : gmap Z child_elem) (l : list Z) : outcome (option Z) :=
  match l with
  | [] => Ok None
  | i :: l => e ← of_option (es !! i); if child_tid e =? tid then Ok (Some i) else find_child tid es l
  end.
Fixpoint find_last (tid : Z) (es : gmap Z child_elem) (l : list Z) (found : option Z) : outcome (option Z) :=
  match l with
  | [] => Ok found
  | i :: l => e ← of_option (es !! i); find_last tid es l (if child_tid e =? tid then Some i else found)
  end.
(** [list_next] and [list_remove] on the sequence of elements. *)
Fixpoint next_elem (i : Z) (l : list Z) : option Z :=
  match l with
  | [] => None
  | j :: l => if j =? i then head l else next_elem i l
  end.
Fixpoint drop_elem (i : Z) (l : list Z) : list Z :=
  match l with
  | [] => []
  | j :: l => if j =? i then l else j :: drop_elem i l
  end.

Inductive choice :=
  | DoExec | DoWait (tid : Z) | DoExit (status : Z) | DoKilled
  | CreateOk (a : Z) | CreateFail
  | LoadResult (success : bool)
  | Alloc (c_elem : option Z) (second : bool)
  | Go.

(** A blocked thread makes no step. *)
Definition step_result : Type := outcome (option system).
Definition blocked : step_result := Ok None.
Definition stepped (s : system) : step_result := Ok (Some s).

(** ** process_execute *)

(** From its start to the acquisition of the lock. *)
Definition execute_start (t : Z) (p : proc) (s : system) : step_result :=
  let p := set_success false p in
  if list_lock p then blocked else stepped (put t (set_pc Creating (set_lock true p)) s).
(** [thread_create], which fails when there is no page. *)
Definition execute_create (t : Z) (p : proc) (page : option Z) (s : system) : step_result :=
  match page with
  | None => stepped (put t (set_pc (Created (-1)) p) s)
  | Some a =>
      if bool_decide (is_Some (thread_of s a)) || (a =? NULL) then blocked
      else stepped (put t (set_pc (Created (next_tid s)) p) (new_process a t s))
  end.
(** [sema_down (&tcurrent->creation_sema)] *)
Definition execute_down (t : Z) (p : proc) (tid : Z) (s : system) : step_result :=
  if creation_sema p =? 0 then blocked
  else stepped (put t (set_pc (Finishing tid) (set_creation (u32 (creation_sema p - 1)) p)) s).
(** The rest, with the outcomes of the two allocations. *)
Definition execute_return (t : Z) (p : proc) (s : system) : step_result :=
  stepped (put t (set_pc User (set_lock false p)) s).
Definition execute_finish (t : Z) (p : proc) (tid0 : Z) (c_elem : option Z) (second : bool) (s : system) : step_result :=
  if negb (child_success p) || (tid0 =? -1) then execute_return t p s
  else
    match c_elem with
    | None => execute_return t p s
    | Some i =>
        if bool_decide (is_Some (elems s !! i)) then blocked
        else if (negb (ttmpchild p =? NULL)) && negb second then execute_return t p s
        else if negb (ttmpchild p =? NULL) && negb (bool_decide (is_Some (thread_of s (ttmpchild p)))) then Err AssertFail
        else
          let p' := set_children (child_list p ++ [i]) (set_ttmpchild NULL p) in
          let e := mkElem tid0 (-1) 0 (ttmpchild p) in
          stepped (log (Execed (tid p) tid0) (put_elem i e (put t (set_pc User (set_lock false p')) s)))
    end.

(** ** start_process *)

Definition start_report (t : Z) (p : proc) (success : bool) (s : system) : step_result :=
  parent ← get (tparent p) s;
  let s := put_thread (tparent p) (set_ttmpchild t (set_success success parent)) s in
  p ← get t s;
  stepped (put t (set_pc (Loaded success) p) s).
Definition start_up (t : Z) (p : proc) (success : bool) (s : system) : step_result :=
  parent ← get (tparent p) s;
  let s := put_thread (tparent p) (set_creation (u32 (creation_sema parent + 1)) parent) s in
  p ← get t s;
  stepped (put t (set_pc (if success then User else Killing [(t, KParent)]) p) s).

(** ** process_wait *)

Definition wait_start (t : Z) (p : proc) (child : Z) (s : system) : step_result :=
  if list_lock p then blocked
  else
    i ← find_child child (elems s) (child_list p);
    match i with
    | None => stepped (log (Waited (tid p) child (-1) false) s)
    | Some i => stepped (put t (set_pc (Waiting i) p) s)
    end.
Definition wait_down (t : Z) (p : proc) (i : Z) (s : system) : step_result :=
  e ← get_elem i s;
  if ce_sema e =? 0 then blocked
  else stepped (put t (set_pc (Collect i) p) (put_elem i (set_sema (u32 (ce_sema e - 1)) e) s)).
Definition wait_collect (t : Z) (p : proc) (i : Z) (s : system) : step_result :=
  if list_lock p then blocked
  else
    e ← get_elem i s;
    stepped (log (Waited (tid p) (child_tid e) (exit_status e) true)
      (free_elem i (put t (set_pc User (set_children (drop_elem i (child_list p)) p)) s))).

(** ** The exit system call *)

Definition sys_exit (t : Z) (p : proc) (status : Z) (s : system) : step_result :=
  parent ← get (tparent p) s;
  if list_lock parent then blocked
  else
    t_elem ← find_child (tid p) (elems s) (child_list parent);
    match t_elem with
    | None => Err WildAccess
    | Some i =>
        e ← get_elem i s;
        stepped (log (Exited (tid p) status)
          (put t (set_pc (Killing [(t, KParent)]) p) (put_elem i (set_status status e) s)))
    end.

(** ** process_kill *)

(** Thread [t] goes on with the calls [fs]; when none is left it has taken
    itself down and leaves. *)
Definition calls (t : Z) (fs : list (Z * kstage)) (s : system) : step_result :=
  p ← get t s;
  match fs with
  | [] => stepped (log (Ended (tid p)) (leave t p s))
  | _ => stepped (put t (set_pc (Killing fs) p) s)
  end.
(** The head of the loop over the children of the target [x]. *)
Definition kill_loop (t x : Z) (cs cursor : option Z) (fs : list (Z * kstage)) (s : system) : step_result :=
  q ← get x s;
  match cursor with
  | None => calls t ((x, KTear cs) :: fs) s
  | Some i =>
      e ← get_elem i s;
      let fs := (x, KDown cs i (next_elem i (child_list q))) :: fs in
      calls t (if bool_decide (is_Some (thread_of s (tchild e))) then (tchild e, KParent) :: fs else fs) s
  end.
Definition kill_step (t x : Z) (k : kstage) (fs : list (Z * kstage)) (s : system) : step_result :=
  q ← get x s;
  match k with
  | KParent =>
      parent ← get (tparent q) s;
      if tid parent =? tid q then calls t ((x, KOwn None) :: fs) s
      else if list_lock parent then blocked
      else cs ← find_last (tid q) (elems s) (child_list parent) None; calls t ((x, KOwn cs) :: fs) s
  | KOwn cs => if list_lock q then blocked else kill_loop t x cs (head (child_list q)) fs s
  | KDown cs i next =>
      e ← get_elem i s;
      if ce_sema e =? 0 then blocked
      else calls t ((x, KAgain cs i next) :: fs) (put_elem i (set_sema (u32 (ce_sema e - 1)) e) s)
  | KAgain cs i next =>
      if list_lock q then blocked
      else
        e ← get_elem i s;
        kill_loop t x cs next fs (free_elem i (put_thread x (set_children (drop_elem i (child_list q)) q) s))
  | KTear cs => calls t ((x, KUp cs) :: fs) (put_thread x (tear q) s)
  | KUp cs =>
      match cs with
      | None => calls t fs s
      | Some i => e ← get_elem i s; calls t fs (put_elem i (set_sema (u32 (ce_sema e + 1)) e) s)
      end
  end.

(** * One step of thread [t] *)

Definition step_thread (t : Z) (ch : choice) (s : system) : step_result :=
  match procs s !! t, leaving s !! t with
  | None, None => Err WildAccess
  | None, Some _ => match ch with Go => stepped (end_thread t s) | _ => blocked end
  | Some p, _ =>
  match at_pc p, ch with
  | User, DoExec => execute_start t p s
  | User, DoWait child => wait_start t p child s
  | User, DoExit status => sys_exit t p status s
  | User, DoKilled => stepped (put t (set_pc (Killing [(t, KParent)]) p) s)
  | Creating, CreateOk a => execute_create t p (Some a) s
  | Creating, CreateFail => execute_create t p None s
  | Created tid, Go => execute_down t p tid s
  | Finishing tid, Alloc c_elem second => execute_finish t p tid c_elem second s
  | Loading, LoadResult success => start_report t p success s
  | Loaded success, Go => start_up t p success s
  | Waiting i, Go => wait_down t p i s
  | Collect i, Go => wait_collect t p i s
  | Killing ((x, k) :: fs), Go => kill_step t x k fs s
  | _, _ => blocked
  end
  end.

(** The initial thread is its own parent. *)
Definition main_thread : proc := mkProc 1 1 false NULL 0 false [] 0 User.
Definition boot : system := mkState {[ 1 := main_thread ]} ∅ ∅ 2 [].

Fixpoint run (l : list (Z * choice)) (s : system) : outcome (option system) :=
  match l with
  | [] => Ok (Some s)
  | (t, ch) :: l => r ← step_thread t ch s; match r with None => Ok None | Some s => run l s end
  end.
