(* ===== verification/ProcessInv.v ===== *)
(** The invariant of the process protocol, for executions in which a process
    exits after its children have exited and been waited for, and memory
    suffices.  The other executions are in ProcessSafety. *)
From S2P Require Import Prelude Process.

(** * Disciplined executions *)

Definition childless (t : Z) (s : system) : Prop :=
  ∀ c q, procs s !! c = Some q → tparent q = t → c = t.
Definition may_exit (t : Z) (s : system) : Prop :=
  childless t s ∧ ∀ p, procs s !! t = Some p → child_list p = [].
Definition allowed (t : Z) (ch : choice) (s : system) : Prop :=
  match ch with
  | DoExit _ => may_exit t s ∧ ∀ p, procs s !! t = Some p → tparent p ≠ t
  | DoKilled => may_exit t s
  | CreateFail => False
  | Alloc c_elem second => is_Some c_elem ∧ second = true
  | _ => True
  end.
Definition pstep (s s' : system) : Prop :=
  ∃ t ch, allowed t ch s ∧ step_thread t ch s = Ok (Some s').

(** * History *)

(** The status with which a process exited. *)
Fixpoint status_of (h : list event) (c : Z) : Z :=
  match h with
  | [] => -1
  | Exited c' v :: h => if c' =? c then v else status_of h c
  | _ :: h => status_of h c
  end.
Definition subject (e : event) : Z :=
  match e with Execed _ c | Exited c _ | Ended c | Waited _ c _ _ => c end.

(** * Invariant *)

(** The parent is creating the child [c], and the child has reported. *)
Definition busy (pp : proc) (c : Z) : Prop := at_pc pp = Created c ∨ at_pc pp = Finishing c.
Definition handed (pp : proc) (c : Z) : Prop :=
  (at_pc pp = Created c ∧ creation_sema pp = 1) ∨ at_pc pp = Finishing c.
Definition has_elem (E : gmap Z child_elem) (pp : proc) (c : Z) : Prop :=
  ∃ i e, i ∈ child_list pp ∧ E !! i = Some e ∧ child_tid e = c.

(** Stages of [process_kill] of the thread itself without children. *)
Definition kill_stage (cs : option Z) (k : kstage) : Prop := k = KParent ∨ k = KOwn cs ∨ k = KTear cs ∨ k = KUp cs.
Definition started (t : Z) (cs : option Z) (x : pc) : Prop :=
  match x with
  | Loading | Loaded _ => False
  | Killing fs => ∃ k, fs = [(t, k)] ∧ kill_stage cs k
  | _ => True
  end.
Definition early (t : Z) (x : pc) : Prop :=
  match x with
  | Loading | Loaded _ => False
  | Killing fs => fs = [(t, KParent)]
  | _ => True
  end.

(** How a process stands with its parent. *)
Inductive link (E : gmap Z child_elem) (h : list event) (t : Z) (p pp : proc) : Prop :=
  | LLoading : at_pc p = Loading → at_pc pp = Created (tid p) → creation_sema pp = 0 →
      ¬ has_elem E pp (tid p) → status_of h (tid p) = -1 → link E h t p pp
  | LLoaded b : at_pc p = Loaded b → at_pc pp = Created (tid p) → creation_sema pp = 0 →
      child_success pp = b → ttmpchild pp = t →
      ¬ has_elem E pp (tid p) → status_of h (tid p) = -1 → link E h t p pp
  | LPending : early t (at_pc p) → handed pp (tid p) → child_success pp = true → ttmpchild pp = t →
      ¬ has_elem E pp (tid p) → status_of h (tid p) = -1 → link E h t p pp
  | LFailed k : at_pc p = Killing [(t, k)] → kill_stage None k → ¬ has_elem E pp (tid p) →
      (busy pp (tid p) → k = KParent ∧ handed pp (tid p) ∧ child_success pp = false) → link E h t p pp
  | LReg i e : i ∈ child_list pp → E !! i = Some e → child_tid e = tid p →
      started t (Some i) (at_pc p) → ¬ busy pp (tid p) → link E h t p pp.

Definition locked (x : pc) : bool := match x with Creating | Created _ | Finishing _ => true | _ => false end.

(** The element [i] of the child list of [p]. *)
Definition elem_ok (s : system) (t : Z) (p : proc) (i : Z) (e : child_elem) : Prop :=
  0 < child_tid e < next_tid s ∧ exit_status e = status_of (history s) (child_tid e) ∧
  ((∃ c q, procs s !! c = Some q ∧ tid q = child_tid e ∧ tparent q = t ∧ c ≠ t ∧ ce_sema e = 0 ∧ at_pc p ≠ Collect i) ∨
   (Ended (child_tid e) ∈ history s ∧
    ((ce_sema e = 1 ∧ at_pc p ≠ Collect i) ∨ (ce_sema e = 0 ∧ at_pc p = Collect i)))).

(** Threads that have not started a program, or that have left it. *)
Definition lonely (x : pc) : Prop := match x with Loading | Loaded _ | Killing _ => True | _ => False end.

Record proc_ok (s : system) (t : Z) (p : proc) : Prop := {
  po_tid : 0 < tid p < next_tid s ∧ Ended (tid p) ∉ history s;
  po_link : ∃ pp, procs s !! tparent p = Some pp ∧ (tparent p ≠ t → link (elems s) (history s) t p pp);
  po_root : tparent p = t → started t None (at_pc p);
  po_lock : list_lock p = locked (at_pc p);
  po_creation : creation_sema p = 0 ∨ (creation_sema p = 1 ∧ ∃ c, at_pc p = Created c);
  po_kill : lonely (at_pc p) → child_list p = [] ∧ childless t s;
  po_wait : ∀ i, at_pc p = Waiting i ∨ at_pc p = Collect i → i ∈ child_list p;
  po_busy : ∀ c, busy p c → ∃ c' q, procs s !! c' = Some q ∧ tid q = c ∧ tparent q = t ∧ c' ≠ t;
  po_elems : ∀ i, i ∈ child_list p → ∃ e, elems s !! i = Some e ∧ elem_ok s t p i e;
  po_nodup : NoDup (child_list p)
}.

(** How often a process was waited for. *)
Fixpoint collected (h : list event) (c : Z) : nat :=
  match h with
  | [] => 0
  | Waited _ c' _ true :: h => ((if (c' =? c)%Z then 1 else 0) + collected h c)%nat
  | _ :: h => collected h c
  end.

Record inv (s : system) : Prop := {
  inv_procs : ∀ t p, procs s !! t = Some p → proc_ok s t p;
  inv_null : procs s !! NULL = None;
  inv_next : 0 < next_tid s;
  inv_tids : ∀ t1 t2 p1 p2, procs s !! t1 = Some p1 → procs s !! t2 = Some p2 → tid p1 = tid p2 → t1 = t2;
  inv_owner : ∀ t1 t2 p1 p2 i, procs s !! t1 = Some p1 → procs s !! t2 = Some p2 →
    i ∈ child_list p1 → i ∈ child_list p2 → t1 = t2;
  inv_distinct : ∀ t1 t2 p1 p2 i j e f, procs s !! t1 = Some p1 → procs s !! t2 = Some p2 →
    i ∈ child_list p1 → j ∈ child_list p2 → elems s !! i = Some e → elems s !! j = Some f →
    child_tid e = child_tid f → i = j;
  inv_past : ∀ e, e ∈ history s → match e with Waited _ _ _ false => True | _ => subject e < next_tid s end;
  inv_waited : ∀ a c v, Waited a c v true ∈ history s →
    Ended c ∈ history s ∧ v = status_of (history s) c ∧ collected (history s) c = 1%nat ∧
    ∀ t p, procs s !! t = Some p → ¬ has_elem (elems s) p c
}.

(** * Changes that keep threads, lists and elements *)

(** The part of a process that only creation, collection and death change. *)
Definition skel (p : proc) : Z * Z * list Z := (tid p, tparent p, child_list p).

Lemma has_elem_same E E' pp pp' c : child_list pp' = child_list pp →
  (∀ i, child_tid <$> E' !! i = child_tid <$> E !! i) → has_elem E' pp' c → has_elem E pp c.
Proof.
  intros Hl HE (i & e & Hi & He & Hc). specialize (HE i). rewrite He in HE.
  destruct (E !! i) as [e0|] eqn:E0; [|done]. exists i, e0. simplify_eq/=. rewrite <- Hl. naive_solver.
Qed.

(** New events about processes that are alive, or about waiting in vain. *)
Definition harmless (s : system) (e : event) : Prop :=
  match e with
  | Exited c _ => ∃ t p, procs s !! t = Some p ∧ tid p = c
  | Waited _ _ _ false => True
  | _ => False
  end.

Lemma status_of_harmless s e c : inv s → harmless s e → Ended c ∈ history s → status_of (e :: history s) c = status_of (history s) c.
Proof.
  intros Hi He Hd. destruct e as [| c' v| |a c' v []]; try done. simpl.
  destruct (Z.eqb_spec c' c) as [->|]; [|done]. destruct He as (t & p & Hp & <-).
  by destruct (po_tid _ _ _ (inv_procs _ Hi _ _ Hp)).
Qed.

Section Frame.
Context (s s' : system) (Hi : inv s).
Context (Hnext : next_tid s' = next_tid s).
Context (Hskel : ∀ t, skel <$> procs s' !! t = skel <$> procs s !! t).
Context (Helems : ∀ i, child_tid <$> elems s' !! i = child_tid <$> elems s !! i).
Context (Hhist : history s' = history s ∨ ∃ e, harmless s e ∧ history s' = e :: history s).

Lemma frame_back t p' : procs s' !! t = Some p' →
  ∃ p, procs s !! t = Some p ∧ tid p = tid p' ∧ tparent p = tparent p' ∧ child_list p = child_list p'.
Proof.
  intros E. specialize (Hskel t). rewrite E in Hskel. destruct (procs s !! t) as [p|]; [|done].
  exists p. unfold skel in Hskel. simplify_eq/=. done.
Qed.
Lemma frame_forth t p : procs s !! t = Some p →
  ∃ p', procs s' !! t = Some p' ∧ tid p' = tid p ∧ tparent p' = tparent p ∧ child_list p' = child_list p.
Proof.
  intros E. specialize (Hskel t). rewrite E in Hskel. destruct (procs s' !! t) as [p'|]; [|done].
  exists p'. unfold skel in Hskel. simplify_eq/=. done.
Qed.
Lemma frame_elem i e' : elems s' !! i = Some e' → ∃ e, elems s !! i = Some e ∧ child_tid e = child_tid e'.
Proof. intros E. specialize (Helems i). rewrite E in Helems. destruct (elems s !! i) eqn:?; simplify_eq/=. by eauto. Qed.
Lemma frame_events e : (∀ v, e ≠ Exited (subject e) v) → (match e with Waited _ _ _ false => False | _ => True end) →
  e ∈ history s' ↔ e ∈ history s.
Proof.
  intros H1 H2. destruct Hhist as [-> | (e0 & H0 & ->)]; [done|]. rewrite elem_of_cons.
  split; [intros [-> | ?]; [|done]|by right]. destruct e0 as [|c v| |? ? ? []]; try done. by destruct (H1 v).
Qed.
Lemma frame_childless t : childless t s' ↔ childless t s.
Proof.
  unfold childless. split; intros H c q Hq Ht.
  - destruct (frame_forth _ _ Hq) as (q' & ? & ? & ? & ?). eapply H; [done|congruence].
  - destruct (frame_back _ _ Hq) as (q' & ? & ? & ? & ?). eapply H; [done|congruence].
Qed.

(** What remains to be shown of each process. *)
Record keeps (t : Z) (p p' : proc) : Prop := {
  k_link : ∀ pp pp', procs s !! tparent p = Some pp → procs s' !! tparent p = Some pp' → tparent p ≠ t →
    link (elems s) (history s) t p pp → link (elems s') (history s') t p' pp';
  k_root : tparent p = t → started t None (at_pc p');
  k_lock : list_lock p' = locked (at_pc p');
  k_creation : creation_sema p' = 0 ∨ (creation_sema p' = 1 ∧ ∃ c, at_pc p' = Created c);
  k_kill : lonely (at_pc p') → child_list p = [] ∧ childless t s;
  k_wait : ∀ i, at_pc p' = Waiting i ∨ at_pc p' = Collect i → i ∈ child_list p;
  k_busy : ∀ c, busy p' c → busy p c;
  k_elems : ∀ i e e', i ∈ child_list p → elems s !! i = Some e → elems s' !! i = Some e' →
    elem_ok s t p i e → elem_ok s' t p' i e'
}.
Context (Hkeep : ∀ t p p', procs s !! t = Some p → procs s' !! t = Some p' → keeps t p p').

Lemma frame_proc t p' : procs s' !! t = Some p' → proc_ok s' t p'.
Proof.
  intros Hp'. destruct (frame_back _ _ Hp') as (p & Hp & Et & Ep & El).
  destruct (inv_procs _ Hi _ _ Hp) as [T (pp & Hpp & L) R K C Ki W B E N].
  destruct (Hkeep _ _ _ Hp Hp') as [kL kR kK kC kKi kW kB kE]. split.
  - rewrite <- Et, Hnext. destruct T as [T1 T2]. split; [done|]. by rewrite frame_events.
  - destruct (frame_forth _ _ Hpp) as (pp' & Hpp' & _). exists pp'. rewrite <- Ep. split; [done|].
    intros Hne. eapply kL; eauto.
  - rewrite <- Ep. done.
  - done.
  - done.
  - intros Hlo. rewrite <- El, frame_childless. by apply kKi.
  - intros i Hi'. rewrite <- El. by apply kW.
  - intros c Hc. destruct (B c (kB c Hc)) as (c' & q & Hq & Eq & Ept & Hne).
    destruct (frame_forth _ _ Hq) as (q' & Hq' & ? & ? & ?). exists c', q'. splits; congruence.
  - intros i Hin. rewrite <- El in Hin. destruct (E i Hin) as (e & He & Hok).
    pose proof (Helems i) as Hc. rewrite He in Hc. destruct (elems s' !! i) as [e'|] eqn:He'; [|done].
    exists e'. split; [done|]. by eapply kE.
  - by rewrite <- El.
Qed.

Lemma frame_inv : inv s'.
Proof.
  split.
  - exact frame_proc.
  - pose proof (Hskel NULL) as H. rewrite (inv_null _ Hi) in H. by destruct (procs s' !! NULL).
  - rewrite Hnext. apply (inv_next _ Hi).
  - intros t1 t2 p1 p2 H1 H2 Heq. destruct (frame_back _ _ H1) as (q1 & ? & ? & _). destruct (frame_back _ _ H2) as (q2 & ? & ? & _).
    eapply (inv_tids _ Hi); eauto. congruence.
  - intros t1 t2 p1 p2 i H1 H2 I1 I2. destruct (frame_back _ _ H1) as (q1 & ? & _ & _ & L1).
    destruct (frame_back _ _ H2) as (q2 & ? & _ & _ & L2). rewrite <- L1 in I1. rewrite <- L2 in I2. by eapply (inv_owner _ Hi).
  - intros t1 t2 p1 p2 i j e f H1 H2 I1 I2 Ee Ef Heq. destruct (frame_back _ _ H1) as (q1 & ? & _ & _ & L1).
    destruct (frame_back _ _ H2) as (q2 & ? & _ & _ & L2). rewrite <- L1 in I1. rewrite <- L2 in I2.
    destruct (frame_elem _ _ Ee) as (e0 & ? & ?). destruct (frame_elem _ _ Ef) as (f0 & ? & ?).
    eapply (inv_distinct _ Hi t1 t2 q1 q2 i j e0 f0); eauto. congruence.
  - intros e He. rewrite Hnext. destruct Hhist as [Eh | (e0 & H0 & Eh)]; rewrite Eh in He; [by apply (inv_past _ Hi)|].
    apply elem_of_cons in He as [-> | He]; [|by apply (inv_past _ Hi)].
    destruct e0 as [|c v| |? ? ? []]; try done. destruct H0 as (t & p & Hp & <-).
    by destruct (po_tid _ _ _ (inv_procs _ Hi _ _ Hp)) as [[_ ?] _].
  - intros a c v Hw. rewrite frame_events in Hw by done. destruct (inv_waited _ Hi a c v Hw) as (Hd & Hv & Hc & Hn).
    rewrite frame_events by done. splits; [done| | |].
    + destruct Hhist as [-> | (e0 & H0 & ->)]; [done|]. by rewrite (status_of_harmless s).
    + destruct Hhist as [-> | (e0 & H0 & ->)]; [done|]. by destruct e0 as [| | |? ? ? []].
    + intros t p' Hp' Hh. destruct (frame_back _ _ Hp') as (p & Hp & _ & _ & El). apply (Hn t p Hp).
      by eapply has_elem_same; [|exact Helems|exact Hh].
Qed.
End Frame.

(** * One process moves on *)

Lemma elem_ok_same s s' t p p' i e :
  next_tid s' = next_tid s → (∀ t, skel <$> procs s' !! t = skel <$> procs s !! t) → history s' = history s →
  (at_pc p' = Collect i ↔ at_pc p = Collect i) → elem_ok s t p i e → elem_ok s' t p' i e.
Proof.
  intros Hn Hs Hh Hc (Hr & Hst & H). unfold elem_ok. rewrite Hn, Hh. split; [done|split; [done|]].
  destruct H as [(c & q & Hq & Et & Ep & Hne & Hse & Hpc) | (Hd & H)]; [left|right; naive_solver].
  destruct (frame_forth s s' Hs _ _ Hq) as (q' & Hq' & ? & ? & _). exists c, q'. splits; try congruence. naive_solver.
Qed.

Lemma put_skel t p p' s : procs s !! t = Some p → skel p' = skel p →
  ∀ t0, skel <$> procs (put t p' s) !! t0 = skel <$> procs s !! t0.
Proof.
  intros Hp Hsk t0. simpl. destruct (decide (t0 = t)) as [->|Hne]; [by rewrite lookup_insert_eq, Hp; simpl; rewrite Hsk|].
  by rewrite lookup_insert_ne.
Qed.

(** The obligations on the process itself. *)
Record moves (s : system) (t : Z) (p p' : proc) : Prop := {
  m_skel : skel p' = skel p;
  m_root : tparent p = t → started t None (at_pc p) → started t None (at_pc p');
  m_lock : list_lock p' = locked (at_pc p');
  m_creation : creation_sema p' = 0 ∨ (creation_sema p' = 1 ∧ ∃ c, at_pc p' = Created c);
  m_kill : lonely (at_pc p') → child_list p = [] ∧ childless t s;
  m_wait : ∀ i, at_pc p' = Waiting i ∨ at_pc p' = Collect i → i ∈ child_list p;
  m_busy : ∀ c, busy p' c → busy p c;
  m_collect : ∀ i, i ∈ child_list p → (at_pc p' = Collect i ↔ at_pc p = Collect i)
}.

Lemma move_inv s t p p' : inv s → procs s !! t = Some p → moves s t p p' →
  (∀ pp, tparent p ≠ t → procs s !! tparent p = Some pp → link (elems s) (history s) t p pp →
     link (elems s) (history s) t p' pp) →
  (∀ c q, procs s !! c = Some q → tparent q = t → c ≠ t → link (elems s) (history s) c q p →
     link (elems s) (history s) c q p') →
  inv (put t p' s).
Proof.
  intros Hi Hp [Hsk R K C Ki W B Co] Hself Hch. pose proof (put_skel t p p' s Hp Hsk) as Hskel. clear Hsk.
  apply (frame_inv s); [done|done|done|done|by left|]. intros t0 q q' Hq Hq'.
  pose proof (inv_procs _ Hi _ _ Hq) as [_ _ R0 K0 C0 Ki0 W0 B0 _ _]. simpl in Hq'.
  destruct (decide (t0 = t)) as [->|Hnt].
  - rewrite Hp in Hq. rewrite lookup_insert_eq in Hq'. injection Hq as ->. injection Hq' as ->. split; try done.
    + intros pp pp' Hpp Hpp' Hne HL. simpl in *. rewrite lookup_insert_ne, Hpp in Hpp' by done. simplify_eq. by apply Hself.
    + intros Ht. apply R; [done|by apply R0].
    + intros i e e' Hin He He' Hok. simpl in He'. rewrite He in He'. injection He' as ->.
      by apply (elem_ok_same s _ t q); [done|exact Hskel|done|apply Co|].
  - rewrite lookup_insert_ne, Hq in Hq' by done. injection Hq' as ->. split; try done.
    + intros pp pp' Hpp Hpp' Hne HL. simpl in *. destruct (decide (tparent q' = t)) as [Ht|Ht].
      * rewrite Ht in Hpp, Hpp'. rewrite lookup_insert_eq in Hpp'. rewrite Hp in Hpp. simplify_eq. by eapply Hch.
      * rewrite lookup_insert_ne, Hpp in Hpp' by done. by simplify_eq.
    + intros i e e' Hin He He' Hok. simpl in He'. rewrite He in He'. injection He' as ->.
      by apply (elem_ok_same s _ t0 q').
Qed.
