(* ===== verification/ProcessSteps.v ===== *)
(** Every step of the process protocol keeps the invariant and faults nowhere, in
    executions in which processes exit after their children. *)
From S2P Require Import Prelude Process ProcessInv.

Definition good (r : step_result) : Prop := ∃ o, r = Ok o ∧ ∀ s, o = Some s → inv s.

Lemma good_blocked : good blocked.
Proof. by exists None. Qed.
Lemma good_stepped s : inv s → good (stepped s).
Proof. intros. exists (Some s). split; [done|]. by intros ? [= <-]. Qed.
#[export] Hint Resolve good_blocked good_stepped : core.

Lemma get_ok t p s : procs s !! t = Some p → get t s = Ok p.
Proof. unfold get, thread_of. by intros ->. Qed.
Lemma put_thread_ok t p p' s : procs s !! t = Some p → put_thread t p' s = put t p' s.
Proof. unfold put_thread. by intros ->. Qed.
Lemma get_elem_ok i e s : elems s !! i = Some e → get_elem i s = Ok e.
Proof. unfold get_elem. by intros ->. Qed.

(** * Links *)

(** A parent that is not creating the child. *)
Lemma link_parent E h c q p p' : child_list p' = child_list p → ¬ busy p (tid q) → ¬ busy p' (tid q) →
  link E h c q p → link E h c q p'.
Proof.
  intros Hl Hb Hb' [].
  - destruct Hb. by left.
  - destruct Hb. by left.
  - destruct Hb. unfold busy, handed in *. naive_solver.
  - eapply LFailed; [done|done| |done]. unfold has_elem in *. by rewrite Hl.
  - eapply LReg; try done. by rewrite Hl.
Qed.

(** A process that is neither loading nor being killed. *)
Definition ordinary (x : pc) : Prop := match x with Loading | Loaded _ | Killing _ => False | _ => True end.

Lemma early_started t x cs : early t x → started t cs x.
Proof. destruct x; try done. simpl. intros ->. exists KParent. split; [done|by left]. Qed.

Lemma link_self E h t p p' pp : tid p' = tid p → ordinary (at_pc p) → early t (at_pc p') →
  link E h t p pp → link E h t p' pp.
Proof.
  intros Ht Ho He [H1|b H1|H1|k H1|i e H1]; rewrite ?H1 in Ho; try done.
  - by apply LPending; rewrite ?Ht.
  - eapply LReg; rewrite ?Ht; try done. by apply early_started.
Qed.

(** From one stage of [process_kill] to the next. *)
Lemma link_next E h t p p' pp k k' : tid p' = tid p → at_pc p = Killing [(t, k)] → at_pc p' = Killing [(t, k')] →
  k ≠ KParent → (∀ cs, kill_stage cs k → kill_stage cs k') → link E h t p pp → link E h t p' pp.
Proof.
  intros Ht Hk Hk' Hne Hst [H1|b H1|H1|k0 H1 H2 H3 H4|i e H1 H2 H3 H4 H5]; rewrite ?Hk in *; try done.
  - simpl in H1. congruence.
  - injection H1 as <-. eapply LFailed; rewrite ?Ht; [done|by apply Hst|done|]. intros Hb. by destruct (H4 Hb).
  - eapply LReg; rewrite ?Ht; try done. rewrite Hk'. destruct H4 as (k1 & [= <-] & Hs). exists k'. by auto.
Qed.

(** Changes that a link does not see. *)
Lemma link_same E h t p p' pp : tid p' = tid p → at_pc p' = at_pc p → link E h t p pp → link E h t p' pp.
Proof.
  intros Ht Hpc [|b| |k|i e].
  - apply LLoading; rewrite ?Ht, ?Hpc; done.
  - apply (LLoaded _ _ _ _ _ b); rewrite ?Ht, ?Hpc; done.
  - apply LPending; rewrite ?Ht, ?Hpc; done.
  - apply (LFailed _ _ _ _ _ k); rewrite ?Ht, ?Hpc; done.
  - apply (LReg _ _ _ _ _ i e); rewrite ?Ht, ?Hpc; done.
Qed.
Lemma link_env E E' h h' t p pp : (∀ i, child_tid <$> E' !! i = child_tid <$> E !! i) →
  status_of h' (tid p) = status_of h (tid p) → link E h t p pp → link E' h' t p pp.
Proof.
  intros HE Hs. assert (∀ c, has_elem E' pp c → has_elem E pp c) as Hh by (intros c; by eapply has_elem_same).
  intros [|b| |k|i e].
  - apply LLoading; rewrite ?Hs; auto.
  - apply (LLoaded _ _ _ _ _ b); rewrite ?Hs; auto.
  - apply LPending; rewrite ?Hs; auto.
  - apply (LFailed _ _ _ _ _ k); auto.
  - pose proof (HE i) as Hi. destruct (E !! i) as [e1|] eqn:Ee; [|done]. destruct (E' !! i) as [e2|] eqn:Ee'; [|done].
    simplify_eq/=. eapply LReg; eauto. congruence.
Qed.

(** * Searching a child list *)

Lemma find_child_ok c E l : (∀ i, i ∈ l → is_Some (E !! i)) → ∃ r, find_child c E l = Ok r ∧
  match r with
  | Some i => i ∈ l ∧ ∃ e, E !! i = Some e ∧ child_tid e = c
  | None => ∀ i e, i ∈ l → E !! i = Some e → child_tid e ≠ c
  end.
Proof.
  induction l as [|i l IH]; intros Hl; simpl; [exists None; split; [done|]; by intros i e ?%elem_of_nil|].
  destruct (Hl i) as [e He]; [by left|]. rewrite He. simpl. destruct (Z.eqb_spec (child_tid e) c) as [Hc|Hc].
  - exists (Some i). split; [done|]. split; [by left|by eauto].
  - destruct IH as (r & -> & Hr); [intros; apply Hl; by right|]. exists r. split; [done|]. destruct r as [j|].
    + destruct Hr as [? ?]. split; [by right|done].
    + intros j f [-> | Hj]%elem_of_cons Hf; [congruence|by eapply Hr].
Qed.

Lemma find_last_ok c E l r0 : (∀ i, i ∈ l → is_Some (E !! i)) → ∃ r, find_last c E l r0 = Ok r ∧
  match r with
  | Some i => r0 = Some i ∨ (i ∈ l ∧ ∃ e, E !! i = Some e ∧ child_tid e = c)
  | None => r0 = None
  end ∧ (is_Some r0 ∨ (∃ i e, i ∈ l ∧ E !! i = Some e ∧ child_tid e = c) → is_Some r).
Proof.
  revert r0. induction l as [|i l IH]; intros r0 Hl; simpl.
  { exists r0. split; [done|]. split; [destruct r0; auto|]. intros [?|(i & e & ?%elem_of_nil & _)]; done. }
  destruct (Hl i) as [e He]; [by left|]. rewrite He. simpl.
  destruct (IH (if child_tid e =? c then Some i else r0)) as (r & Er & H1 & H2); [intros; apply Hl; by right|].
  exists r. split; [exact Er|]. destruct (Z.eqb_spec (child_tid e) c) as [Hc|Hc]; split.
  - destruct r as [j|]; [|done]. destruct H1 as [[= <-] | [? ?]]; right; (split; [by constructor|by eauto]).
  - intros _. apply H2. by left.
  - destruct r as [j|]; [|done]. destruct H1 as [? | [? ?]]; [by left|right]. split; [by right|done].
  - intros [? | (j & f & [-> | Hj]%elem_of_cons & Hf & Hcf)]; [apply H2; by left|congruence|]. apply H2. right. eauto.
Qed.

Section Step.
Context (s : system) (t : Z) (p : proc) (Hi : inv s) (Hp : procs s !! t = Some p).

Lemma not_busy c : list_lock p = false → ¬ busy p c.
Proof.
  pose proof (po_lock _ _ _ (inv_procs _ Hi _ _ Hp)) as Hl. intros E [H|H]; rewrite E, H in Hl; done.
Qed.

(** ** Steps of one process *)

(** Moving on in an ordinary way. *)
Lemma move_ok p' : skel p' = skel p → ordinary (at_pc p) → early t (at_pc p') → list_lock p' = locked (at_pc p') →
  creation_sema p' = 0 → (lonely (at_pc p') → may_exit t s) →
  (∀ i, at_pc p' = Waiting i → i ∈ child_list p) → (∀ i, at_pc p' ≠ Collect i) → (∀ i, at_pc p ≠ Collect i) →
  (∀ c, ¬ busy p c) → (∀ c, ¬ busy p' c) → inv (put t p' s).
Proof.
  intros Hsk Ho He Hl Hc Hk Hw Hn Hn0 Hb Hb'. assert (tid p' = tid p ∧ child_list p' = child_list p) as [Et El]
    by (unfold skel in Hsk; by simplify_eq).
  apply (move_inv s t p); [done|done| | |].
  - split; try done.
    + intros _ _. by apply early_started.
    + by left.
    + intros Hlo. destruct (Hk Hlo) as [H1 H2]. split; [by apply H2|done].
    + intros i [H|H]; [by apply Hw|by destruct (Hn i)].
    + intros c Hbc. by destruct (Hb' c).
    + intros i _. split; intros H; [by destruct (Hn i)|by destruct (Hn0 i)].
  - intros pp _ _ L. by eapply link_self.
  - intros c q _ _ _ L. by eapply link_parent.
Qed.

Lemma execute_start_ok : at_pc p = User → good (execute_start t p s).
Proof.
  intros Hu. pose proof (inv_procs _ Hi _ _ Hp) as [_ _ _ K C _ _ _ _ _]. unfold execute_start. simpl.
  rewrite K, Hu. simpl. apply good_stepped, move_ok; try done; simpl; rewrite ?Hu; try done.
  - destruct C as [C | (_ & c & C)]; [done|congruence].
  - intros c. apply not_busy. by rewrite K, Hu.
  - intros c [H|H]; done.
Qed.

Lemma killed_ok : at_pc p = User → may_exit t s → inv (put t (set_pc (Killing [(t, KParent)]) p) s).
Proof.
  intros Hu Hm. pose proof (inv_procs _ Hi _ _ Hp) as [_ _ _ K C _ _ _ _ _].
  apply move_ok; try done; simpl; rewrite ?Hu; try done.
  - by rewrite K, Hu.
  - destruct C as [C | (_ & c & C)]; [done|congruence].
  - intros c. apply not_busy. by rewrite K, Hu.
  - intros c [H|H]; done.
Qed.

Lemma list_elems q c : procs s !! c = Some q → ∀ i, i ∈ child_list q → is_Some (elems s !! i).
Proof. intros Hq i Hin. destruct (po_elems _ _ _ (inv_procs _ Hi _ _ Hq) i Hin) as (e & -> & _). done. Qed.

Lemma wait_start_ok c : at_pc p = User → good (wait_start t p c s).
Proof.
  intros Hu. pose proof (inv_procs _ Hi _ _ Hp) as [_ _ _ K C _ _ _ _ _]. unfold wait_start.
  rewrite K, Hu. simpl. destruct (find_child_ok c (elems s) (child_list p) (list_elems _ _ Hp)) as ([i|] & -> & Hr); simpl.
  - apply good_stepped, move_ok; try done; simpl; rewrite ?Hu; try done.
    + by rewrite K, Hu.
    + destruct C as [C | (_ & x & C)]; [done|congruence].
    + intros j [= <-]. by destruct Hr.
    + intros x. apply not_busy. by rewrite K, Hu.
    + intros x [H|H]; done.
  - apply good_stepped. apply (frame_inv s); try done.
    + right. by exists (Waited (tid p) c (-1) false).
    + intros t0 q q' Hq Hq'. simpl in Hq'. rewrite Hq in Hq'. injection Hq' as <-.
      destruct (inv_procs _ Hi _ _ Hq) as [_ _ R0 K0 C0 Ki0 W0 B0 _ _]. split; try done.
      * intros pp pp' Hpp Hpp' _ L. simpl in Hpp'. rewrite Hpp in Hpp'. injection Hpp' as <-. by apply (link_env (elems s) _ (history s)).
      * intros i e e' Hin He He' (H1 & H2 & H3). simpl in He'. rewrite He in He'. injection He' as <-.
        split; [done|]. split; [done|]. destruct H3 as [H3|[H3 H4]]; [by left|right]. split; [by right|done].
Qed.

(** ** Creation *)

Lemma execute_down_ok c : at_pc p = Created c → good (execute_down t p c s).
Proof.
  intros Hc. pose proof (inv_procs _ Hi _ _ Hp) as [_ _ _ K C _ _ _ _ _]. unfold execute_down.
  destruct (Z.eqb_spec (creation_sema p) 0) as [H0|H0]; [apply good_blocked|].
  assert (creation_sema p = 1) as H1 by (destruct C as [? | [? _]]; lia). rewrite H1. apply good_stepped.
  apply (move_inv s t p); [done|done| | |].
  - split; simpl; try done.
    + by rewrite K, Hc.
    + by left.
    + intros i [H|H]; done.
    + intros x [H|H]; simplify_eq/=. by left.
    + intros i _. by rewrite Hc.
  - intros pp _ _ L. eapply link_self; [|by rewrite Hc| |exact L]; done.
  - intros c0 q Hq Hq' Hne L. destruct L as [L1 L2 L3|b L1 L2 L3|L1 L2 L3 L4 L5 L6|k L1 L2 L3 L4|i e L1 L2 L3 L4 L5].
    + lia.
    + lia.
    + apply LPending; try done. right. destruct L2 as [[L2 _]|L2]; simpl; congruence.
    + eapply LFailed; [done|done|done|]. intros [Hb|Hb]; simplify_eq/=.
      destruct (L4 (or_introl Hc)) as (Hk & Hh & Hf). splits; try done. by right.
    + eapply LReg; try done. intros [Hb|Hb]; simplify_eq/=. apply L5. by left.
Qed.
End Step.

(** A change of a process that leaves where it stands. *)
Lemma touch_inv s t p p' : inv s → procs s !! t = Some p → skel p' = skel p → at_pc p' = at_pc p →
  list_lock p' = list_lock p → creation_sema p' = creation_sema p →
  (∀ c q, procs s !! c = Some q → tparent q = t → c ≠ t → link (elems s) (history s) c q p →
     link (elems s) (history s) c q p') → inv (put t p' s).
Proof.
  intros Hi Hp Hsk Hpc Hl Hc Hch. pose proof (inv_procs _ Hi _ _ Hp) as [_ _ R K C Ki W B _ _].
  apply (move_inv s t p); [done|done| |intros pp _ _ L|done].
  - split; rewrite ?Hpc, ?Hl, ?Hc; try done. unfold busy. by rewrite Hpc.
  - apply (link_same _ _ _ p); [unfold skel in Hsk; by simplify_eq|done|done].
Qed.

Section Start.
Context (s : system) (t : Z) (p : proc) (Hi : inv s) (Hp : procs s !! t = Some p).

(** A loading process has a parent that waits for it. *)
Lemma loading_parent b : at_pc p = Loading ∨ at_pc p = Loaded b → ∃ pp, procs s !! tparent p = Some pp ∧ tparent p ≠ t ∧
  at_pc pp = Created (tid p) ∧ creation_sema pp = 0 ∧ link (elems s) (history s) t p pp.
Proof.
  intros Hpc. destruct (inv_procs _ Hi _ _ Hp) as [_ (pp & Hpp & L) R _ _ _ _ _ _ _].
  destruct (decide (tparent p = t)) as [Ht|Ht].
  { specialize (R Ht). by destruct Hpc as [H|H]; rewrite H in R. }
  exists pp. specialize (L Ht). splits; try done;
    destruct L as [L1 L2 L3|b' L1 L2 L3|L1|k L1|i e L1 L2 L3 L4]; try done;
    destruct Hpc as [Hx|Hx]; try (rewrite Hx in L1; done); rewrite Hx in L4; done.
Qed.

(** The other children of that parent do not notice. *)
Lemma other_children c q pp pp' : procs s !! tparent p = Some pp → at_pc pp = Created (tid p) →
  procs s !! c = Some q → c ≠ t → child_list pp' = child_list pp → at_pc pp' = at_pc pp →
  link (elems s) (history s) c q pp → link (elems s) (history s) c q pp'.
Proof.
  intros Hpp Hc Hq Hne Hl Hpc. assert (tid q ≠ tid p) by (intros E; by apply Hne, (inv_tids _ Hi _ _ q p)).
  apply link_parent; [done| |]; unfold busy; rewrite ?Hpc, Hc; naive_solver.
Qed.

Lemma start_report_ok b : at_pc p = Loading → good (start_report t p b s).
Proof.
  intros Hpc. destruct (loading_parent false) as (pp & Hpp & Ht & Hc & H0 & L); [by left|]. unfold start_report.
  rewrite (get_ok _ _ _ Hpp). cbn [mbind outcome_bind]. rewrite (put_thread_ok _ _ _ _ Hpp).
  assert (inv (put (tparent p) (set_ttmpchild t (set_success b pp)) s)) as Hi1.
  { apply (touch_inv s _ pp); try done. intros c q Hq Hq' Hne Lq. destruct (decide (c = t)) as [->|Hct].
    - rewrite Hp in Hq. injection Hq as <-. destruct Lq as [L1 L2 L3 L4 L5|b' L1|L1|k L1|i e L1 L2 L3 L4]; try congruence.
      + by apply LLoading.
      + by rewrite Hpc in L1.
      + by rewrite Hpc in L4.
    - by apply (other_children c q pp). }
  set (s1 := put _ _ s) in *. assert (procs s1 !! t = Some p) as Hp1 by (simpl; by rewrite lookup_insert_ne).
  assert (procs s1 !! tparent p = Some (set_ttmpchild t (set_success b pp))) as Hpp1 by (simpl; by rewrite lookup_insert_eq).
  rewrite (get_ok _ _ _ Hp1). cbn [mbind outcome_bind]. apply good_stepped.
  pose proof (inv_procs _ Hi1 _ _ Hp1) as [_ _ _ K C Ki _ _ _ _].
  apply (move_inv s1 t p); [done|done| | |].
  - split; simpl; try done.
    + by rewrite K, Hpc.
    + destruct C as [C | (_ & x & C)]; [by left|congruence].
    + intros _. apply Ki. by rewrite Hpc.
    + intros i [H|H]; done.
    + intros x [H|H]; done.
    + intros i _. by rewrite Hpc.
  - intros pp0 _ Hpp0 L0. rewrite Hpp1 in Hpp0. injection Hpp0 as <-.
    destruct L0 as [L1 L2 L3 L4 L5|b' L1|L1|k L1|i e L1 L2 L3 L4]; try congruence.
    + by apply (LLoaded _ _ _ _ _ b).
    + by rewrite Hpc in L1.
    + by rewrite Hpc in L4.
  - intros c q _ _ _ Lq. apply (link_parent _ _ c q p); try done; intros [H|H]; simpl in H; congruence.
Qed.

Lemma start_up_ok b : at_pc p = Loaded b → good (start_up t p b s).
Proof.
  intros Hpc. destruct (loading_parent b) as (pp & Hpp & Ht & Hc & H0 & L); [by right|]. unfold start_up.
  rewrite (get_ok _ _ _ Hpp). cbn [mbind outcome_bind]. rewrite (put_thread_ok _ _ _ _ Hpp), H0. change (u32 (0 + 1)) with 1.
  set (s1 := put _ _ s). assert (procs s1 !! t = Some p) as Hp1 by (simpl; by rewrite lookup_insert_ne).
  rewrite (get_ok _ _ _ Hp1). cbn [mbind outcome_bind]. apply good_stepped.
  set (x := if b then User else Killing [(t, KParent)]).
  assert (early t x) as Hx by (subst x; by destruct b).
  assert (∀ q, ¬ busy (set_pc x p) q) as Hxb by (intros q [H|H]; subst x; by destruct b).
  assert (∀ t1, skel <$> procs (put t (set_pc x p) s1) !! t1 = skel <$> procs s !! t1) as Hsk.
  { intros t1. rewrite (put_skel t p) by done. by apply (put_skel _ pp). }
  apply (frame_inv s); [done|done|done|done|by left|]. intros t0 q q' Hq Hq'. pose proof (inv_procs _ Hi _ _ Hq) as [_ _ R0 K0 C0 Ki0 W0 B0 _ _]. simpl in Hq'.
  assert (∀ i e e', elems s !! i = Some e → elems s !! i = Some e' → (at_pc q' = Collect i ↔ at_pc q = Collect i) →
    elem_ok s t0 q i e → elem_ok (put t (set_pc x p) s1) t0 q' i e') as Hel.
  { intros i e e' He He' Hcol Hok. rewrite He in He'. injection He' as <-. by apply (elem_ok_same s _ t0 q). }
  destruct (decide (t0 = t)) as [->|Hnt].
  { rewrite lookup_insert_eq in Hq'. rewrite Hp in Hq. injection Hq as <-. injection Hq' as <-. split; simpl; try done.
    - intros pp0 pp1 Hpp0 Hpp1 _ _. rewrite lookup_insert_ne, lookup_insert_eq in Hpp1 by done. injection Hpp1 as <-.
      destruct L as [L1|b' L1 L2 L3 L4 L5 L6 L7|L1|k L1|i e L1 L2 L3 L4]; try congruence.
      + rewrite Hpc in L1. injection L1 as <-. subst x. destruct b.
        * apply LPending; try done. by left.
        * apply (LFailed _ _ _ _ _ KParent); try done; [by left|]. intros _. splits; try done. by left.
      + by rewrite Hpc in L1.
      + by rewrite Hpc in L4.
    - rewrite K0, Hpc. subst x. by destruct b.
    - destruct C0 as [C0 | (_ & y & C0)]; [by left|congruence].
    - intros _. by apply Ki0; rewrite Hpc.
    - intros i [H|H]; subst x; by destruct b.
    - intros c Hbc. by destruct (Hxb c).
    - intros i e e' Hin He He' Hok. apply (Hel i e e'); try done. simpl. rewrite Hpc. subst x. by destruct b. }
  rewrite lookup_insert_ne in Hq' by done. destruct (decide (t0 = tparent p)) as [->|Hntp].
  { rewrite lookup_insert_eq in Hq'. rewrite Hpp in Hq. injection Hq as <-. injection Hq' as <-. split; simpl; try done.
    - intros pp0 pp1 Hpp0 Hpp1 Hne L0. apply (link_same _ _ _ pp); try done.
      destruct (decide (tparent pp = t)) as [Htt|Htt].
      + exfalso. apply Ht. destruct (inv_procs _ Hi _ _ Hp) as [_ _ _ _ _ Ki _ _ _ _].
        destruct Ki as [_ Hcl]; [by rewrite Hpc|]. by apply (Hcl _ pp).
      + rewrite !lookup_insert_ne in Hpp1 by done. rewrite Hpp0 in Hpp1. by injection Hpp1 as <-.
    - right. split; [done|]. by exists (tid p).
    - intros i e e' Hin He He' Hok. by apply (Hel i e e'). }
  rewrite lookup_insert_ne, Hq in Hq' by done. injection Hq' as <-. split; try done.
  - intros pp0 pp1 Hpp0 Hpp1 Hne L0. simpl in Hpp1. destruct (decide (tparent q = t)) as [Htt|Htt].
    + rewrite Htt in Hpp0, Hpp1. rewrite lookup_insert_eq in Hpp1. rewrite Hp in Hpp0. injection Hpp0 as <-. injection Hpp1 as <-.
      apply (link_parent _ _ _ _ p); try done. intros [H|H]; congruence.
    + rewrite lookup_insert_ne in Hpp1 by done. destruct (decide (tparent q = tparent p)) as [Hqp|Hqp].
      * rewrite Hqp in Hpp0, Hpp1. rewrite lookup_insert_eq in Hpp1. rewrite Hpp in Hpp0. injection Hpp0 as <-. injection Hpp1 as <-.
        by apply (other_children t0 q pp).
      * rewrite lookup_insert_ne, Hpp0 in Hpp1 by done. by injection Hpp1 as <-.
  - intros i e e' Hin He He' Hok. by apply (Hel i e e').
Qed.
End Start.

(** * A process and an element *)

Lemma elem_tids E i e e' : E !! i = Some e → child_tid e' = child_tid e →
  ∀ j, child_tid <$> (<[i := e']> E : gmap Z child_elem) !! j = child_tid <$> E !! j.
Proof.
  intros He Hc j. destruct (decide (j = i)) as [->|]; [by rewrite lookup_insert_eq, He; simpl; rewrite Hc|].
  by rewrite lookup_insert_ne.
Qed.

Section Update.
Context (s : system) (t : Z) (p p' : proc) (i : Z) (e e' : child_elem) (h : list event).
Let s' := mkState (<[t := p']> (procs s)) (leaving s) (<[i := e']> (elems s)) (next_tid s) h.
Context (Hi : inv s) (Hp : procs s !! t = Some p) (He : elems s !! i = Some e) (Hc : child_tid e' = child_tid e).
Context (Hh : h = history s ∨ ∃ x, harmless s x ∧ h = x :: history s).
Context (Hsk : skel p' = skel p) (R : tparent p = t → started t None (at_pc p) → started t None (at_pc p')).
Context (K : list_lock p' = locked (at_pc p')) (C : creation_sema p' = 0).
Context (Ki : lonely (at_pc p') → child_list p = [] ∧ childless t s).
Context (W : ∀ j, at_pc p' = Waiting j ∨ at_pc p' = Collect j → j ∈ child_list p).
Context (B : ∀ c, ¬ busy p c) (B' : ∀ c, ¬ busy p' c).
Context (Hself : ∀ pp, tparent p ≠ t → procs s !! tparent p = Some pp → link (elems s) (history s) t p pp →
  link (elems s') h t p' pp).
Context (Hst : ∀ c q, procs s !! c = Some q → c ≠ t → status_of h (tid q) = status_of (history s) (tid q)).
Context (Hel : ∀ t0 q j f, procs s !! t0 = Some q → j ∈ child_list q → elems s !! j = Some f → elem_ok s t0 q j f →
  elem_ok s' t0 (if decide (t0 = t) then p' else q) j (if decide (j = i) then e' else f)).

Lemma update_inv : inv s'.
Proof.
  apply (frame_inv s); [done|done|by apply (put_skel t p)|by apply (elem_tids _ _ e)|done|].
  intros t0 q q' Hq Hq'. pose proof (inv_procs _ Hi _ _ Hq) as [_ _ R0 K0 C0 Ki0 W0 B0 _ _].
  assert (q' = if decide (t0 = t) then p' else q) as ->.
  { simpl in Hq'. destruct (decide (t0 = t)) as [->|]; [rewrite lookup_insert_eq in Hq'|rewrite lookup_insert_ne, Hq in Hq' by done];
      by injection Hq'. }
  assert (∀ j f f', j ∈ child_list q → elems s !! j = Some f → elems s' !! j = Some f' → elem_ok s t0 q j f →
    elem_ok s' t0 (if decide (t0 = t) then p' else q) j f') as Hel'.
  { intros j f f' Hj Hf Hf' Hok. specialize (Hel t0 q j f Hq Hj Hf Hok). simpl in Hf'.
    destruct (decide (j = i)) as [->|]; [rewrite lookup_insert_eq in Hf'|rewrite lookup_insert_ne, Hf in Hf' by done];
      injection Hf' as <-; done. }
  destruct (decide (t0 = t)) as [->|Hnt].
  - rewrite Hp in Hq. injection Hq as <-. split; try done.
    + intros pp pp' Hpp Hpp' Hne L. simpl in Hpp'. rewrite lookup_insert_ne, Hpp in Hpp' by done. injection Hpp' as <-. by apply Hself.
    + intros Ht. apply R; [done|by apply R0].
    + by left.
    + intros c Hbc. by destruct (B' c).
  - split; try done. intros pp pp' Hpp Hpp' Hne L. simpl in *.
    apply (link_env (elems s) _ (history s)); [by apply (elem_tids _ _ e)|by eapply Hst|].
    destruct (decide (tparent q = t)) as [Ht|Ht].
    + rewrite Ht in Hpp, Hpp'. rewrite lookup_insert_eq in Hpp'. rewrite Hp in Hpp. injection Hpp as <-. injection Hpp' as <-.
      apply (link_parent _ _ _ _ p); try done. unfold skel in Hsk. by simplify_eq.
    + rewrite lookup_insert_ne, Hpp in Hpp' by done. by injection Hpp' as <-.
Qed.
End Update.

Section StepElem.
Context (s : system) (t : Z) (p : proc) (Hi : inv s) (Hp : procs s !! t = Some p).

Lemma alive_not_died c q : procs s !! c = Some q → Ended (tid q) ∉ history s.
Proof. intros Hq. by destruct (po_tid _ _ _ (inv_procs _ Hi _ _ Hq)). Qed.

Lemma wait_down_ok i : at_pc p = Waiting i → good (wait_down t p i s).
Proof.
  intros Hw. pose proof (inv_procs _ Hi _ _ Hp) as [_ _ _ K C _ W _ E _]. unfold wait_down.
  assert (i ∈ child_list p) as Hin by (apply W; by left). destruct (E i Hin) as (e & He & Hok).
  rewrite (get_elem_ok _ _ _ He). cbn [mbind outcome_bind].
  destruct (Z.eqb_spec (ce_sema e) 0) as [H0|H0]; [apply good_blocked|]. apply good_stepped.
  destruct Hok as (Hr & Hs & [(c & q & _ & _ & _ & _ & H1 & _) | (Hd & [[H1 _]|[H1 _]])]); try lia.
  rewrite H1. change (u32 (1 - 1)) with 0. apply (update_inv s t p _ i e); try done; simpl.
  - by left.
  - by rewrite K, Hw.
  - destruct C as [C | (_ & x & C)]; [done|congruence].
  - intros j [Hj|Hj]; by simplify_eq.
  - intros c. apply (not_busy s t p); [done|done|]. by rewrite K, Hw.
  - intros c [H|H]; done.
  - intros pp _ _ L. apply (link_env (elems s) _ (history s)); [by apply (elem_tids _ _ e)|done|].
    apply (link_self _ _ _ p); try done. by rewrite Hw.
  - intros t0 q j f Hq Hj Hf Hok. destruct (decide (j = i)) as [->|Hji].
    + rewrite (inv_owner _ Hi t0 t q p i) by done. rewrite decide_True by done. rewrite He in Hf. injection Hf as <-.
      split; [done|]. split; [done|]. right. split; [done|]. by right.
    + destruct (decide (t0 = t)) as [->|Ht0].
      * rewrite Hp in Hq. injection Hq as <-. apply (elem_ok_same s _ t p); try done; [by apply (put_skel t p)|].
        simpl. rewrite Hw. naive_solver.
      * apply (elem_ok_same s _ t0 q); try done. by apply (put_skel t p).
Qed.

Lemma sys_exit_ok v : at_pc p = User → may_exit t s → tparent p ≠ t → good (sys_exit t p v s).
Proof.
  intros Hu [Hcl Hnil] Hne. pose proof (inv_procs _ Hi _ _ Hp) as [T (pp & Hpp & L) _ K C _ _ _ _ _]. specialize (L Hne).
  unfold sys_exit. rewrite (get_ok _ _ _ Hpp). cbn [mbind outcome_bind]. destruct (list_lock pp) eqn:Hlk; [apply good_blocked|].
  assert (∃ i e, i ∈ child_list pp ∧ elems s !! i = Some e ∧ child_tid e = tid p) as Hreg.
  { pose proof (not_busy s _ pp Hi Hpp (tid p) Hlk) as Hb.
    destruct L as [L1|b L1|L1 L2|k L1|i e L1 L2 L3]; [congruence|congruence| |congruence|by eauto].
    destruct Hb. unfold busy. destruct L2 as [[? _]|?]; auto. }
  destruct (find_child_ok (tid p) (elems s) (child_list pp) (list_elems s Hi _ _ Hpp)) as ([i|] & -> & Hr).
  2: { destruct Hreg as (i & e & Hin & He & Hc). by destruct (Hr i e). }
  destruct Hr as (Hin & e & He & Hc). cbn [mbind outcome_bind]. rewrite (get_elem_ok _ _ _ He). cbn [mbind outcome_bind].
  apply good_stepped. apply (update_inv s t p _ i e); try done; simpl.
  - right. exists (Exited (tid p) v). split; [by exists t, p|done].
  - by rewrite K, Hu.
  - destruct C as [C | (_ & x & C)]; [done|congruence].
  - intros _. split; [by apply Hnil|done].
  - intros j [Hj|Hj]; done.
  - intros c. apply (not_busy s t p); [done|done|]. by rewrite K, Hu.
  - intros c [H|H]; done.
  - intros pp0 _ Hpp0 _. rewrite Hpp in Hpp0. injection Hpp0 as <-.
    apply (LReg _ _ _ _ _ i (set_status v e)); simpl; try done; [by rewrite lookup_insert_eq| |].
    + exists KParent. split; [done|by left].
    + by apply (not_busy s (tparent p)).
  - intros c q Hq Hct. destruct (Z.eqb_spec (tid p) (tid q)) as [Et|]; [|done]. destruct Hct. by apply (inv_tids _ Hi _ _ q p).
  - intros t0 q j f Hq Hj Hf (Hr & Hs & Hok).
    assert ((if decide (j = i) then set_status v e else f) = if decide (j = i) then set_status v f else f) as ->.
    { destruct (decide (j = i)) as [->|]; [|done]. rewrite He in Hf. by injection Hf as ->. }
    assert (child_tid f = tid p ↔ j = i) as Hji.
    { split; [|intros ->; congruence]. intros Hf'. apply (inv_distinct _ Hi t0 (tparent p) q pp j i f e); congruence. }
    unfold elem_ok. simpl. destruct (decide (j = i)) as [->|Hne']; simpl.
    + split; [done|]. rewrite (proj2 Hji eq_refl), Z.eqb_refl. split; [done|].
      assert (t0 = tparent p) as -> by (by apply (inv_owner _ Hi _ _ q pp i)). rewrite decide_False by done. rewrite Hpp in Hq. injection Hq as <-.
      left. destruct Hok as [(c & r & Hr1 & Hr2 & Hr3 & Hr4 & Hr5 & Hr6)|[Hd _]].
      * exists t, (set_pc (Killing [(t, KParent)]) p). rewrite lookup_insert_eq. splits; try done.
      * rewrite (proj2 Hji eq_refl) in Hd. by destruct T.
    + split; [done|]. split; [destruct (Z.eqb_spec (tid p) (child_tid f)); [naive_solver|done]|].
      destruct Hok as [(c & r & Hr1 & Hr2 & Hr3 & Hr4 & Hr5 & Hr6)|[Hd Hse]].
      * left. exists c, (if decide (c = t) then set_pc (Killing [(t, KParent)]) p else r).
        splits; try done.
        -- destruct (decide (c = t)) as [->|]; [by rewrite lookup_insert_eq|by rewrite lookup_insert_ne].
        -- destruct (decide (c = t)) as [->|]; [|done]. rewrite Hp in Hr1. injection Hr1 as ->. done.
        -- destruct (decide (c = t)) as [->|]; [|done]. rewrite Hp in Hr1. injection Hr1 as ->. done.
        -- destruct (decide (t0 = t)) as [->|]; [done|done].
      * right. split; [by right|]. destruct (decide (t0 = t)) as [->|]; [|done]. simpl.
        rewrite Hp in Hq. injection Hq as <-. rewrite Hu in Hse. naive_solver.
Qed.
End StepElem.

(** * process_kill *)

Section Kill.
Context (s : system) (t : Z) (p : proc) (Hi : inv s) (Hp : procs s !! t = Some p).

Lemma calls_put f fs : calls t (f :: fs) s = stepped (put t (set_pc (Killing (f :: fs)) p) s).
Proof. unfold calls. by rewrite (get_ok _ _ _ Hp). Qed.

(** A stage without effect on other processes. *)
Lemma kill_move k k' : at_pc p = Killing [(t, k)] →
  (tparent p = t → kill_stage None k → kill_stage None k') →
  (∀ pp, tparent p ≠ t → procs s !! tparent p = Some pp → link (elems s) (history s) t p pp →
     link (elems s) (history s) t (set_pc (Killing [(t, k')]) p) pp) →
  inv (put t (set_pc (Killing [(t, k')]) p) s).
Proof.
  intros Hk Hroot Hself. pose proof (inv_procs _ Hi _ _ Hp) as [_ _ R K C Ki _ _ _ _].
  destruct Ki as [Hnil Hcl]; [by rewrite Hk|]. apply (move_inv s t p); [done|done| |done|].
  - split; simpl; try done.
    + intros Ht _. specialize (R Ht). rewrite Hk in R. destruct R as (k0 & [= <-] & Hs). exists k'. by auto.
    + by rewrite K, Hk.
    + destruct C as [C | (_ & x & C)]; [by left|congruence].
    + intros i [H|H]; done.
    + intros c [H|H]; done.
    + intros i _. by rewrite Hk.
  - intros c q Hq Hqt Hne. by destruct (Hcl c q Hq Hqt).
Qed.

Lemma kill_parent_ok : at_pc p = Killing [(t, KParent)] → good (kill_step t t KParent [] s).
Proof.
  intros Hk. pose proof (inv_procs _ Hi _ _ Hp) as [_ (pp & Hpp & L) R _ _ _ _ _ _ _]. unfold kill_step.
  rewrite (get_ok _ _ _ Hp). cbn [mbind outcome_bind]. rewrite (get_ok _ _ _ Hpp). cbn [mbind outcome_bind].
  destruct (Z.eqb_spec (tid pp) (tid p)) as [Et|Et].
  - rewrite calls_put. apply good_stepped, (kill_move KParent); [done|intros _ _; by right; left|].
    intros pp0 Hne. destruct Hne. by apply (inv_tids _ Hi _ _ pp p).
  - assert (tparent p ≠ t) as Hne by (intros Ht; rewrite Ht, Hp in Hpp; by injection Hpp as <-).
    specialize (L Hne). destruct (list_lock pp) eqn:Hlk; [apply good_blocked|].
    pose proof (not_busy s _ pp Hi Hpp (tid p) Hlk) as Hb.
    destruct (find_last_ok (tid p) (elems s) (child_list pp) None (list_elems s Hi _ _ Hpp)) as (cs & -> & H1 & H2).
    cbn [mbind outcome_bind]. rewrite calls_put. apply good_stepped, (kill_move KParent); [done|done|].
    intros pp0 _ Hpp0 _. rewrite Hpp in Hpp0. injection Hpp0 as <-.
    destruct L as [L1|b L1|L1 L2|k L1 L2 L3 L4|i e L1 L2 L3 L4 L5]; [congruence|congruence| | |].
    + destruct Hb. unfold busy. destruct L2 as [[? _]|?]; auto.
    + destruct cs as [j|].
      * destruct H1 as [?|(Hj & f & Hf & Hc)]; [done|]. destruct L3. by exists j, f.
      * apply (LFailed _ _ _ _ _ (KOwn None)); try done. by right; left.
    + destruct cs as [j|]; [|by destruct H2 as [? ?]; [right; exists i, e; done|done]].
      destruct H1 as [?|(Hj & f & Hf & Hc)]; [done|].
      assert (i = j) as <- by (apply (inv_distinct _ Hi _ _ pp pp i j e f Hpp Hpp); congruence).
      apply (LReg _ _ _ _ _ i e); try done. exists (KOwn (Some i)). split; [done|]. by right; left.
Qed.

Lemma kill_own_ok cs : at_pc p = Killing [(t, KOwn cs)] → good (kill_step t t (KOwn cs) [] s).
Proof.
  intros Hk. pose proof (inv_procs _ Hi _ _ Hp) as [_ _ _ K _ Ki _ _ _ _]. destruct Ki as [Hnil Hcl]; [by rewrite Hk|].
  unfold kill_step. rewrite (get_ok _ _ _ Hp). cbn [mbind outcome_bind]. rewrite K, Hk. simpl. rewrite Hnil. simpl.
  unfold kill_loop. rewrite (get_ok _ _ _ Hp). cbn [mbind outcome_bind]. rewrite calls_put.
  assert (∀ x, kill_stage x (KOwn cs) → kill_stage x (KTear cs)) as Hst.
  { intros x [?|[[= ->]|[?|?]]]; try done. by do 2 right; left. }
  apply good_stepped, (kill_move (KOwn cs)); [done|by auto|]. intros pp _ _ L. by eapply link_next; [| | | | |exact L].
Qed.
End Kill.

Lemma kill_tear_ok s t p cs : inv s → procs s !! t = Some p → at_pc p = Killing [(t, KTear cs)] →
  good (kill_step t t (KTear cs) [] s).
Proof.
  intros Hi Hp Hk. unfold kill_step. rewrite (get_ok _ _ _ Hp). cbn [mbind outcome_bind]. rewrite (put_thread_ok _ _ _ _ Hp).
  assert (inv (put t (tear p) s)) as Hi1.
  { apply (touch_inv s t p); try done. intros c q Hq Hqt Hne.
    destruct (po_kill _ _ _ (inv_procs _ Hi _ _ Hp)) as [_ Hcl]; [by rewrite Hk|]. by destruct (Hcl c q Hq Hqt). }
  set (s1 := put t (tear p) s) in *. assert (procs s1 !! t = Some (tear p)) as Hp1 by (simpl; by rewrite lookup_insert_eq).
  rewrite (calls_put s1 t (tear p) Hp1). apply good_stepped.
  assert (∀ x, kill_stage x (KTear cs) → kill_stage x (KUp cs)) as Hst.
  { intros x [?|[?|[[= ->]|?]]]; try done. by do 3 right. }
  apply (kill_move s1 t (tear p) Hi1 Hp1 (KTear cs)); [done|by auto|].
  intros pp _ _ L. by eapply link_next; [| | | | |exact L].
Qed.
