(* ===== verification/ProcessLife.v ===== *)
(** The steps of the process protocol that create and free threads and
    elements. *)
From S2P Require Import Prelude Process ProcessInv ProcessSteps.

(** * Generic facts *)

Lemma elem_of_drop_elem i j l : NoDup l → j ∈ drop_elem i l ↔ j ∈ l ∧ j ≠ i.
Proof.
  induction l as [|x l IH]; intros Hd; simpl; [rewrite elem_of_nil; naive_solver|].
  apply NoDup_cons in Hd as [Hx Hd]. destruct (Z.eqb_spec x i) as [->|Hne]; rewrite !elem_of_cons, ?IH by done; naive_solver.
Qed.
Lemma NoDup_drop_elem i l : NoDup l → NoDup (drop_elem i l).
Proof.
  induction l as [|x l IH]; intros Hd; simpl; [done|]. pose proof Hd as [Hx Hd']%NoDup_cons.
  destruct (Z.eqb_spec x i) as [->|Hne]; [done|]. constructor; [|by apply IH]. rewrite elem_of_drop_elem by done. naive_solver.
Qed.

Lemma status_fresh h n : (∀ e, e ∈ h → match e with Waited _ _ _ false => True | _ => subject e < n end) → status_of h n = -1.
Proof.
  induction h as [|e h IH]; intros Hh; [done|]. assert (status_of h n = -1) as E by (apply IH; intros; apply Hh; by right).
  specialize (Hh e ltac:(by left)). destruct e; simpl in *; try done. destruct (Z.eqb_spec child n); [lia|done].
Qed.

Lemma collected_event h c : collected h c ≠ 0%nat → ∃ a v, Waited a c v true ∈ h.
Proof.
  induction h as [|e h IH]; simpl; [done|]. intros Hc.
  destruct e as [| | |a c' v []]; try (destruct IH as (a0 & v0 & ?); [done|]; exists a0, v0; by right).
  destruct (Z.eqb_spec c' c) as [->|]; [exists a, v; by left|]. destruct IH as (a0 & v0 & ?); [done|]. exists a0, v0. by right.
Qed.

(** An element stays as it is while processes come and others move. *)
Lemma elem_ok_mono s s' t p p' i e : next_tid s <= next_tid s' →
  (∀ c q, procs s !! c = Some q → tid q = child_tid e → ∃ q', procs s' !! c = Some q' ∧ tid q' = tid q ∧ tparent q' = tparent q) →
  status_of (history s') (child_tid e) = status_of (history s) (child_tid e) →
  (∀ x, Ended x ∈ history s → Ended x ∈ history s') →
  (at_pc p' = Collect i ↔ at_pc p = Collect i) → elem_ok s t p i e → elem_ok s' t p' i e.
Proof.
  intros Hn Hs Hst Hd Hc (Hr & Hst0 & H). split; [lia|]. split; [by rewrite Hst|].
  destruct H as [(c & q & Hq & Et & Ep & Hne & Hse & Hpc) | (Hdd & H)]; [left|right; split; [by apply Hd|naive_solver]].
  destruct (Hs _ _ Hq Et) as (q' & Hq' & ? & ?). exists c, q'. splits; try congruence. naive_solver.
Qed.

(** * Creation of a thread *)

Section Create.
Context (s : system) (t a : Z) (p : proc) (Hi : inv s) (Hp : procs s !! t = Some p) (Hpc : at_pc p = Creating).
Context (Ha : procs s !! a = None) (Ha0 : a ≠ NULL).
Let n := init_process t s.
Let p' := set_pc (Created (next_tid s)) p.
Let s' := put t p' (new_process a t s).

Lemma create_ne : a ≠ t.
Proof. intros ->. congruence. Qed.

Lemma create_lookup c q : procs s' !! c = Some q ↔
  (c = t ∧ q = p') ∨ (c = a ∧ q = n) ∨ (c ≠ t ∧ procs s !! c = Some q).
Proof.
  pose proof create_ne. simpl. destruct (decide (c = t)) as [->|Ht].
  { rewrite lookup_insert_eq. naive_solver. }
  rewrite lookup_insert_ne by done. destruct (decide (c = a)) as [->|Hca].
  - rewrite lookup_insert_eq. fold n. naive_solver.
  - rewrite lookup_insert_ne by done. naive_solver.
Qed.

Lemma create_forth c q : procs s !! c = Some q → ∃ q', procs s' !! c = Some q' ∧ tid q' = tid q ∧ tparent q' = tparent q.
Proof.
  intros Hq. destruct (decide (c = t)) as [->|Hne].
  - exists p'. rewrite create_lookup. rewrite Hp in Hq. injection Hq as <-. split; [by left|done].
  - exists q. rewrite create_lookup. split; [by right; right|done].
Qed.

Lemma create_elems t0 q q' : procs s !! t0 = Some q → child_list q' = child_list q → (∀ i, at_pc q' = Collect i ↔ at_pc q = Collect i) →
  ∀ i, i ∈ child_list q' → ∃ e, elems s' !! i = Some e ∧ elem_ok s' t0 q' i e.
Proof.
  intros Hq Hl Hc i Hin. rewrite Hl in Hin. destruct (po_elems _ _ _ (inv_procs _ Hi _ _ Hq) i Hin) as (e & He & Hok).
  exists e. split; [done|]. apply (elem_ok_mono s _ t0 q); try done; [simpl; lia|]. intros c r Hr _. by apply create_forth.
Qed.

Lemma create_childless t0 : t0 ≠ t → childless t0 s → childless t0 s'.
Proof.
  intros Hne Hcl c q Hq Ht. apply create_lookup in Hq as [[-> ->]|[[-> ->]|[Hct Hq]]]; [|done|by eapply Hcl].
  apply (Hcl _ p); done.
Qed.

Lemma create_procs t0 q : procs s' !! t0 = Some q → proc_ok s' t0 q.
Proof.
  pose proof create_ne as Hat. intros Hq. apply create_lookup in Hq as [[-> ->]|[[-> ->]|[Hne Hq]]].
  - destruct (inv_procs _ Hi _ _ Hp) as [T (pp & Hpp & L) R K C Ki W B E N].
    split; simpl; try done.
    + destruct T. split; [lia|done].
    + destruct (decide (tparent p = t)) as [Ht|Ht].
      * exists p'. rewrite Ht, lookup_insert_eq. done.
      * exists pp. rewrite lookup_insert_ne, lookup_insert_ne by (congruence || done). split; [done|]. intros _.
        apply (link_self _ _ _ p); try done; [by rewrite Hpc|by apply L].
    + by rewrite K, Hpc.
    + destruct C as [C|(_ & c & C)]; [by left|congruence].
    + intros i [H|H]; done.
    + intros c [[= <-]|H]; [|done]. exists a, n. splits; try done. apply create_lookup. by right; left.
    + apply (create_elems t p p'); try done. simpl. by rewrite Hpc.
  - pose proof (inv_next _ Hi) as Hpos. split; simpl; try done.
    + split; [lia|]. intros Hd. apply (inv_past _ Hi) in Hd. simpl in Hd. lia.
    + exists p'. rewrite lookup_insert_eq. split; [done|]. intros _. apply LLoading; simpl; try done.
      * destruct (po_creation _ _ _ (inv_procs _ Hi _ _ Hp)) as [?|(_ & c & ?)]; [done|congruence].
      * intros (i & e & Hin & He & Hc). destruct (po_elems _ _ _ (inv_procs _ Hi _ _ Hp) i Hin) as (e' & He' & (? & _)).
        rewrite He in He'. injection He' as <-. lia.
      * apply status_fresh, (inv_past _ Hi).
    + by left.
    + intros _. split; [done|]. intros c r Hr Hrt. apply create_lookup in Hr as [[-> ->]|[[-> ->]|[Hct Hr]]]; [|done|].
      * exfalso. destruct (po_link _ _ _ (inv_procs _ Hi _ _ Hp)) as (pp & Hpp & _). simpl in Hrt. congruence.
      * exfalso. destruct (po_link _ _ _ (inv_procs _ Hi _ _ Hr)) as (pp & Hpp & _). congruence.
    + intros i [H|H]; done.
    + intros c [H|H]; done.
    + by intros i ?%elem_of_nil.
    + constructor.
  - destruct (inv_procs _ Hi _ _ Hq) as [T (pp & Hpp & L) R K C Ki W B E N]. split; try done.
    + simpl. destruct T. split; [lia|done].
    + destruct (decide (tparent q = t)) as [Ht|Ht].
      * exists p'. rewrite Ht in Hpp, L |- *. rewrite Hp in Hpp. injection Hpp as <-. simpl. rewrite lookup_insert_eq.
        split; [done|]. intros Hne'. apply (link_parent _ _ _ _ p); try done; [| |by apply L].
        -- intros [H|H]; congruence.
        -- intros [H|H]; simpl in H; [|done]. injection H as H. destruct T. lia.
      * exists pp. simpl. rewrite lookup_insert_ne, lookup_insert_ne by (congruence || done). by split.
    + intros Hlo. destruct (Ki Hlo) as [? ?]. split; [done|]. by apply create_childless.
    + intros c Hb. destruct (B c Hb) as (c' & r & Hr & H1 & H2 & H3). destruct (create_forth _ _ Hr) as (r' & Hr' & ? & ?).
      exists c', r'. splits; congruence.
    + by apply (create_elems t0 q).
Qed.

Lemma create_inv : inv s'.
Proof.
  pose proof create_ne as Hat. pose proof (inv_null _ Hi) as H0. split.
  - exact create_procs.
  - simpl. rewrite lookup_insert_ne, lookup_insert_ne; [done|done|congruence].
  - simpl. pose proof (inv_next _ Hi). lia.
  - intros t1 t2 p1 p2 H1 H2 Et. apply create_lookup in H1, H2.
    assert (∀ c q, procs s !! c = Some q → tid q ≠ next_tid s) as Hlt.
    { intros c q Hq E. destruct (po_tid _ _ _ (inv_procs _ Hi _ _ Hq)). lia. }
    destruct H1 as [[-> ->]|[[-> ->]|[N1 H1]]], H2 as [[-> ->]|[[-> ->]|[N2 H2]]]; try done; simpl in Et.
    + by destruct (Hlt _ _ Hp).
    + by apply (inv_tids _ Hi _ _ p p2).
    + by destruct (Hlt _ _ Hp).
    + by destruct (Hlt _ _ H2).
    + by apply (inv_tids _ Hi _ _ p1 p).
    + by destruct (Hlt _ _ H1).
    + by apply (inv_tids _ Hi _ _ p1 p2).
  - intros t1 t2 p1 p2 i H1 H2 I1 I2. apply create_lookup in H1, H2.
    destruct H1 as [[-> ->]|[[-> ->]|[N1 H1]]], H2 as [[-> ->]|[[-> ->]|[N2 H2]]]; try done; simpl in *;
      try (by apply elem_of_nil in I1); try (by apply elem_of_nil in I2); by eapply (inv_owner _ Hi).
  - intros t1 t2 p1 p2 i j e f H1 H2 I1 I2 Ee Ef Ec. apply create_lookup in H1, H2.
    destruct H1 as [[-> ->]|[[-> ->]|[N1 H1]]], H2 as [[-> ->]|[[-> ->]|[N2 H2]]]; simpl in *;
      try (by apply elem_of_nil in I1); try (by apply elem_of_nil in I2).
    + exact (inv_distinct _ Hi _ _ _ _ i j e f Hp Hp I1 I2 Ee Ef Ec).
    + exact (inv_distinct _ Hi _ _ _ _ i j e f Hp H2 I1 I2 Ee Ef Ec).
    + exact (inv_distinct _ Hi _ _ _ _ i j e f H1 Hp I1 I2 Ee Ef Ec).
    + exact (inv_distinct _ Hi _ _ _ _ i j e f H1 H2 I1 I2 Ee Ef Ec).
  - intros e He. apply (inv_past _ Hi) in He. simpl. destruct e as [| | |? ? ? []]; simpl in *; lia.
  - intros x c v Hw. destruct (inv_waited _ Hi x c v Hw) as (H1 & H2 & H3 & H4). splits; try done.
    intros t0 q Hq Hh. apply create_lookup in Hq as [[-> ->]|[[-> ->]|[N Hq]]].
    + by apply (H4 t p).
    + destruct Hh as (i & e & Hin & _). by apply elem_of_nil in Hin.
    + by apply (H4 t0 q).
Qed.
End Create.

(** * The end of process_execute *)

Section Finish.
Context (s : system) (t i : Z) (p : proc) (c : Z) (Hi : inv s) (Hp : procs s !! t = Some p) (Hpc : at_pc p = Finishing c).

(** The child that was created. *)
Lemma finishing_child : ∃ k q, procs s !! k = Some q ∧ tid q = c ∧ tparent q = t ∧ k ≠ t ∧ k ≠ NULL ∧
  ((child_success p = true ∧ ttmpchild p = k ∧ early k (at_pc q) ∧ ¬ has_elem (elems s) p c ∧ status_of (history s) c = -1) ∨
   (child_success p = false ∧ at_pc q = Killing [(k, KParent)] ∧ ¬ has_elem (elems s) p c)).
Proof.
  destruct (po_busy _ _ _ (inv_procs _ Hi _ _ Hp) c) as (k & q & Hq & Et & Ep & Hne); [by right|].
  exists k, q. destruct (po_link _ _ _ (inv_procs _ Hi _ _ Hq)) as (pp & Hpp & L). rewrite Ep, Hp in Hpp. injection Hpp as <-.
  assert (k ≠ NULL) as Hk. { intros ->. rewrite (inv_null _ Hi) in Hq. done. } subst c.
  destruct (L ltac:(congruence)) as [L1 L2|b L1 L2|L1 L2 L3 L4 L5 L6|k0 L1 L2 L3 L4|j e L1 L2 L3 L4 L5]; try congruence.
  - splits; try done. by left.
  - destruct (L4 (or_intror Hpc)) as (-> & _ & Hf). splits; try done. by right.
  - destruct L5. by right.
Qed.

Lemma finish_failed : child_success p = false → inv (put t (set_pc User (set_lock false p)) s).
Proof.
  intros Hf. pose proof (inv_procs _ Hi _ _ Hp) as [_ _ _ K C _ _ _ _ _].
  apply (move_inv s t p); [done|done| | |].
  - split; simpl; try done.
    + destruct C as [C|(_ & x & C)]; [by left|congruence].
    + intros j [H|H]; done.
    + intros x [H|H]; done.
    + intros j _. by rewrite Hpc.
  - intros pp _ _ L. apply (link_self _ _ _ p); try done. by rewrite Hpc.
  - intros k q Hq Hqt Hne L. destruct (decide (tid q = c)) as [Hc|Hc].
    + subst c. destruct L as [L1 L2|b L1 L2|L1 L2 L3|k0 L1 L2 L3 L4|j e L1 L2 L3 L4 L5]; try congruence.
      * apply (LFailed _ _ _ _ _ k0); try done. intros [H|H]; done.
      * destruct L5. by right.
    + apply (link_parent _ _ _ _ p); try done; intros [H|H]; simpl in H; congruence.
Qed.

Context (Hs : child_success p = true) (Hfresh : elems s !! i = None).
Let e := mkElem c (-1) 0 (ttmpchild p).
Let p' := set_pc User (set_lock false (set_children (child_list p ++ [i]) (set_ttmpchild NULL p))).
Let s' := log (Execed (tid p) c) (put_elem i e (put t p' s)).

Lemma finish_lookup k q : procs s' !! k = Some q ↔ (k = t ∧ q = p') ∨ (k ≠ t ∧ procs s !! k = Some q).
Proof.
  simpl. destruct (decide (k = t)) as [->|]; [rewrite lookup_insert_eq; naive_solver|].
  rewrite lookup_insert_ne by done. naive_solver.
Qed.

(** No list mentions the new element yet. *)
Lemma finish_unused k q : procs s !! k = Some q → i ∉ child_list q.
Proof.
  intros Hq Hin. destruct (po_elems _ _ _ (inv_procs _ Hi _ _ Hq) i Hin) as (f & Hf & _). congruence.
Qed.

Lemma finish_has_elem k q x : procs s !! k = Some q → has_elem (elems s') q x → has_elem (elems s) q x.
Proof.
  intros Hq (j & f & Hj & Hf & Hx). exists j, f. splits; try done. simpl in Hf.
  rewrite lookup_insert_ne in Hf; [done|]. intros <-. by apply (finish_unused k q).
Qed.

Lemma finish_forth k q : procs s !! k = Some q → ∃ q', procs s' !! k = Some q' ∧ tid q' = tid q ∧ tparent q' = tparent q.
Proof.
  intros Hq. destruct (decide (k = t)) as [->|Hne].
  - exists p'. rewrite finish_lookup. rewrite Hp in Hq. injection Hq as <-. split; [by left|done].
  - exists q. rewrite finish_lookup. split; [by right|done].
Qed.

Lemma finish_elem t0 q q' j : procs s !! t0 = Some q → j ∈ child_list q → (at_pc q' = Collect j ↔ at_pc q = Collect j) →
  ∃ f, elems s' !! j = Some f ∧ elem_ok s' t0 q' j f.
Proof.
  intros Hq Hin Hc. destruct (po_elems _ _ _ (inv_procs _ Hi _ _ Hq) j Hin) as (f & Hf & Hok).
  exists f. simpl. rewrite lookup_insert_ne by (intros <-; by apply (finish_unused t0 q)). split; [done|].
  apply (elem_ok_mono s _ t0 q); try done; [|by right]. intros k r Hr _. by apply finish_forth.
Qed.

(** Links to parents other than [t], and to [t]. *)
Lemma finish_link_other k q pp x : procs s !! x = Some pp →
  link (elems s) (history s) k q pp → link (elems s') (history s') k q pp.
Proof.
  intros Hpp. assert (∀ c, ¬ has_elem (elems s) pp c → ¬ has_elem (elems s') pp c) as Hh
    by (intros ? Hn ?; by eapply Hn, finish_has_elem).
  intros [|b| |k0|j f L1 L2].
  - apply LLoading; auto.
  - apply (LLoaded _ _ _ _ _ b); auto.
  - apply LPending; auto.
  - apply (LFailed _ _ _ _ _ k0); auto.
  - apply (LReg _ _ _ _ _ j f); try done. simpl. rewrite lookup_insert_ne; [done|]. intros <-. by apply (finish_unused x pp).
Qed.

Lemma finish_link_child k q : procs s !! k = Some q → tparent q = t → k ≠ t →
  link (elems s) (history s) k q p → link (elems s') (history s') k q p'.
Proof.
  intros Hq Hqt Hne L. destruct (decide (tid q = c)) as [Hc|Hc].
  - subst c. assert (early k (at_pc q)) as He.
    { destruct L as [L1 L2|b L1 L2|L1|k0 L1 L2 L3 L4|j f L1 L2 L3 L4 L5]; try congruence.
      - destruct (L4 (or_intror Hpc)) as (_ & _ & ?). congruence.
      - destruct L5. by right. }
    apply (LReg _ _ _ _ _ i e); simpl; [apply elem_of_app; right; by left|by rewrite lookup_insert_eq|done|by apply early_started|].
    intros [H|H]; done.
  - assert (¬ has_elem (elems s) p (tid q) → ¬ has_elem (elems s') p' (tid q)) as Hh.
    { intros Hn (j & f & Hj & Hf & Hx). simpl in *. apply elem_of_app in Hj as [Hj|Hj].
      - rewrite lookup_insert_ne in Hf by (intros <-; by apply (finish_unused t p)). apply Hn. by exists j, f.
      - apply list_elem_of_singleton in Hj as ->. rewrite lookup_insert_eq in Hf. injection Hf as <-. by apply Hc. }
    destruct L as [L1 L2|b L1 L2|L1 [[L2 _]|L2]|k0 L1 L2 L3 L4|j f L1 L2 L3 L4 L5]; try congruence.
    + apply (LFailed _ _ _ _ _ k0); auto. intros [H|H]; done.
    + apply (LReg _ _ _ _ _ j f); try done; simpl; [apply elem_of_app; by left| |intros [H|H]; done].
      rewrite lookup_insert_ne; [done|]. intros <-. by apply (finish_unused t p).
Qed.

Lemma finish_procs t0 q : procs s' !! t0 = Some q → proc_ok s' t0 q.
Proof.
  destruct finishing_child as (k & r & Hr & Hrc & Hrt & Hkt & _ & Hcase). intros Hq.
  assert (∀ x, Ended x ∈ history s' ↔ Ended x ∈ history s) as Hd.
  { intros x. simpl. rewrite elem_of_cons. naive_solver. }
  apply finish_lookup in Hq as [[-> ->]|[Hne Hq]].
  - destruct (inv_procs _ Hi _ _ Hp) as [T (pp & Hpp & L) R K C Ki W B E N].
    split; simpl; try done.
    + destruct T as [? T]. split; [done|]. intros Hx. by apply Hd in Hx.
    + destruct (decide (tparent p = t)) as [Ht|Ht].
      * exists p'. by rewrite Ht, lookup_insert_eq.
      * exists pp. rewrite lookup_insert_ne by done. split; [done|]. intros _.
        apply (finish_link_other _ _ _ (tparent p)); [done|]. apply (link_self _ _ _ p); try done; [by rewrite Hpc|by apply L].
    + destruct C as [C|(_ & x & C)]; [by left|congruence].
    + intros j [H|H]; done.
    + intros x [H|H]; done.
    + intros j [Hj|Hj]%elem_of_app; [apply (finish_elem t p); try done; by rewrite Hpc|].
      apply list_elem_of_singleton in Hj as ->. exists e. rewrite lookup_insert_eq. split; [done|].
      destruct Hcase as [(_ & _ & _ & _ & Hst)|(Hf & _)]; [|congruence].
      destruct (po_tid _ _ _ (inv_procs _ Hi _ _ Hr)) as [Hrng _]. rewrite Hrc in Hrng.
      split; [done|]. split; [done|]. left. destruct (finish_forth _ _ Hr) as (r' & Hr' & ? & ?).
      exists k, r'. splits; try done; simpl; congruence.
    + apply NoDup_app. splits; [done| |apply NoDup_singleton].
      intros j Hj ->%list_elem_of_singleton. by apply (finish_unused t p).
  - destruct (inv_procs _ Hi _ _ Hq) as [T (pp & Hpp & L) R K C Ki W B E N]. split; try done.
    + destruct T as [? T]. split; [done|]. intros Hx. by apply Hd in Hx.
    + destruct (decide (tparent q = t)) as [Ht|Ht].
      * exists p'. rewrite Ht in Hpp, L |- *. rewrite Hp in Hpp. injection Hpp as <-. simpl. rewrite lookup_insert_eq.
        split; [done|]. intros Hne'. apply finish_link_child; try done. by apply L.
      * exists pp. simpl. rewrite lookup_insert_ne by done. split; [done|]. intros Hne'.
        apply (finish_link_other _ _ _ (tparent q)); [done|by apply L].
    + intros Hlo. destruct (Ki Hlo) as [? Hcl]. split; [done|]. intros x y Hy Hyt.
      apply finish_lookup in Hy as [[-> ->]|[Hxt Hy]]; [by apply (Hcl _ p)|by apply (Hcl _ y)].
    + intros x Hb. destruct (B x Hb) as (c' & y & Hy & H1 & H2 & H3). destruct (finish_forth _ _ Hy) as (y' & Hy' & ? & ?).
      exists c', y'. splits; congruence.
    + intros j Hj. by apply (finish_elem t0 q).
Qed.

(** A list of the new state, with its old process. *)
Lemma finish_list x q j : procs s' !! x = Some q → j ∈ child_list q →
  ∃ q0, procs s !! x = Some q0 ∧ (j ∈ child_list q0 ∨ (x = t ∧ j = i)).
Proof.
  intros Hq Hj. apply finish_lookup in Hq as [[-> ->]|[Hne Hq]]; [|exists q; by auto]. exists p. split; [done|].
  simpl in Hj. apply elem_of_app in Hj as [?|?%list_elem_of_singleton]; auto.
Qed.

(** No element has the tid of the new child yet. *)
Lemma finish_new x q j f : procs s !! x = Some q → j ∈ child_list q → elems s !! j = Some f → child_tid f ≠ c.
Proof.
  destruct finishing_child as (k & r & Hr & Hrc & Hrt & Hkt & _ & Hcase).
  destruct Hcase as [(_ & _ & _ & Hno & _)|(Hf & _)]; [|congruence].
  intros Hq Hj Hf Hc. destruct (po_elems _ _ _ (inv_procs _ Hi _ _ Hq) j Hj) as (f' & Hf' & (_ & _ & Hok)).
  rewrite Hf in Hf'. injection Hf' as <-. destruct Hok as [(y & w & Hw & H1 & H2 & H3 & _)|[Hd _]].
  - assert (y = k) as -> by (apply (inv_tids _ Hi _ _ w r); congruence). rewrite Hr in Hw. injection Hw as <-.
    rewrite Hrt in H2. subst x. rewrite Hp in Hq. injection Hq as <-. apply Hno. by exists j, f.
  - destruct (po_tid _ _ _ (inv_procs _ Hi _ _ Hr)) as [_ Hnd]. apply Hnd. congruence.
Qed.

Lemma finish_inv : inv s'.
Proof.
  destruct finishing_child as (k & r & Hr & Hrc & Hrt & Hkt & _ & Hcase).
  split.
  - exact finish_procs.
  - simpl. pose proof (inv_null _ Hi). rewrite lookup_insert_ne; [done|congruence].
  - apply (inv_next _ Hi).
  - intros t1 t2 p1 p2 H1 H2 Et.
    assert (∀ x q, procs s' !! x = Some q → ∃ q0, procs s !! x = Some q0 ∧ tid q0 = tid q) as Ho.
    { intros x q Hq. apply finish_lookup in Hq as [[-> ->]|[Hne Hq]]; eauto. }
    destruct (Ho _ _ H1) as (q1 & ? & ?), (Ho _ _ H2) as (q2 & ? & ?). apply (inv_tids _ Hi _ _ q1 q2); congruence.
  - intros t1 t2 p1 p2 j H1 H2 I1 I2. destruct (finish_list _ _ _ H1 I1) as (q1 & Q1 & J1), (finish_list _ _ _ H2 I2) as (q2 & Q2 & J2).
    destruct J1 as [J1|[-> ->]], J2 as [J2|[-> J2]]; try done.
    + by apply (inv_owner _ Hi _ _ q1 q2 j).
    + subst j. by destruct (finish_unused t1 q1).
    + by destruct (finish_unused t2 q2).
  - intros t1 t2 p1 p2 j1 j2 e1 e2 H1 H2 I1 I2 E1 E2 Ec.
    destruct (finish_list _ _ _ H1 I1) as (q1 & Q1 & J1), (finish_list _ _ _ H2 I2) as (q2 & Q2 & J2). simpl in E1, E2.
    destruct J1 as [J1|[-> ->]], J2 as [J2|[-> ->]]; try done.
    + rewrite lookup_insert_ne in E1 by (intros <-; by apply (finish_unused t1 q1)).
      rewrite lookup_insert_ne in E2 by (intros <-; by apply (finish_unused t2 q2)).
      exact (inv_distinct _ Hi _ _ _ _ j1 j2 e1 e2 Q1 Q2 J1 J2 E1 E2 Ec).
    + rewrite lookup_insert_ne in E1 by (intros <-; by apply (finish_unused t1 q1)).
      rewrite lookup_insert_eq in E2. injection E2 as <-. by destruct (finish_new _ _ _ _ Q1 J1 E1).
    + rewrite lookup_insert_ne in E2 by (intros <-; by apply (finish_unused t2 q2)).
      rewrite lookup_insert_eq in E1. injection E1 as <-. by destruct (finish_new _ _ _ _ Q2 J2 E2).
  - intros x Hx. simpl in Hx. apply elem_of_cons in Hx as [->|Hx]; [|by apply (inv_past _ Hi)]. simpl.
    destruct (po_tid _ _ _ (inv_procs _ Hi _ _ Hr)). lia.
  - intros x y v Hw. simpl in Hw. apply elem_of_cons in Hw as [?|Hw]; [done|].
    destruct (inv_waited _ Hi x y v Hw) as (H1 & H2 & H3 & H4). splits; try done; [by right|].
    intros t0 q Hq (j & f & Hj & Hf & Hy). destruct (finish_list _ _ _ Hq Hj) as (q0 & Q0 & [J|[-> ->]]); simpl in Hf.
    + rewrite lookup_insert_ne in Hf by (intros <-; by apply (finish_unused t0 q0)). apply (H4 t0 q0 Q0). by exists j, f.
    + rewrite lookup_insert_eq in Hf. injection Hf as <-. simpl in Hy. subst y.
      destruct (po_tid _ _ _ (inv_procs _ Hi _ _ Hr)) as [_ Hnd]. apply Hnd. by rewrite Hrc.
Qed.
End Finish.

(** * The end of process_wait *)

Section Collect.
Context (s : system) (t i : Z) (p : proc) (e : child_elem) (Hi : inv s) (Hp : procs s !! t = Some p).
Context (Hpc : at_pc p = Collect i) (He : elems s !! i = Some e).
Let c := child_tid e.
Let p' := set_pc User (set_children (drop_elem i (child_list p)) p).
Let s' := log (Waited (tid p) c (exit_status e) true) (free_elem i (put t p' s)).

Lemma collect_in : i ∈ child_list p.
Proof. apply (po_wait _ _ _ (inv_procs _ Hi _ _ Hp)). by right. Qed.

Lemma collect_died : Ended c ∈ history s ∧ exit_status e = status_of (history s) c.
Proof.
  destruct (po_elems _ _ _ (inv_procs _ Hi _ _ Hp) i collect_in) as (f & Hf & _ & Hst & Hok).
  rewrite He in Hf. injection Hf as <-. destruct Hok as [(k & q & _ & _ & _ & _ & _ & Hn)|[Hd _]]; done.
Qed.

Lemma collect_dead k q : procs s !! k = Some q → tid q ≠ c.
Proof.
  intros Hq E. destruct (po_tid _ _ _ (inv_procs _ Hi _ _ Hq)) as [_ Hn]. apply Hn. rewrite E. apply collect_died.
Qed.

Lemma collect_lookup k q : procs s' !! k = Some q ↔ (k = t ∧ q = p') ∨ (k ≠ t ∧ procs s !! k = Some q).
Proof.
  simpl. destruct (decide (k = t)) as [->|]; [rewrite lookup_insert_eq; naive_solver|].
  rewrite lookup_insert_ne by done. naive_solver.
Qed.

Lemma collect_forth k q : procs s !! k = Some q → ∃ q', procs s' !! k = Some q' ∧ tid q' = tid q ∧ tparent q' = tparent q.
Proof.
  intros Hq. destruct (decide (k = t)) as [->|Hne].
  - exists p'. rewrite collect_lookup. rewrite Hp in Hq. injection Hq as <-. split; [by left|done].
  - exists q. rewrite collect_lookup. split; [by right|done].
Qed.

(** Lists of the new state are parts of the old ones, without [i]. *)
Lemma collect_list k q j : procs s' !! k = Some q → j ∈ child_list q →
  ∃ q0, procs s !! k = Some q0 ∧ tid q0 = tid q ∧ j ∈ child_list q0 ∧ j ≠ i.
Proof.
  pose proof (po_nodup _ _ _ (inv_procs _ Hi _ _ Hp)) as Hnd.
  intros Hq Hj. apply collect_lookup in Hq as [[-> ->]|[Hne Hq]].
  - exists p. simpl in Hj. rewrite elem_of_drop_elem in Hj by done. naive_solver.
  - exists q. splits; try done. intros ->. apply Hne. by apply (inv_owner _ Hi _ _ q p i Hq Hp Hj collect_in).
Qed.

Lemma collect_has_elem k q q0 x : procs s' !! k = Some q → procs s !! k = Some q0 →
  has_elem (elems s') q x → has_elem (elems s) q0 x.
Proof.
  intros Hq Hq0 (j & f & Hj & Hf & Hx). destruct (collect_list _ _ _ Hq Hj) as (q1 & Hq1 & _ & Hj1 & Hji).
  rewrite Hq0 in Hq1. injection Hq1 as <-. exists j, f. splits; try done. simpl in Hf. by rewrite lookup_delete_ne in Hf.
Qed.

Lemma collect_link k q pp pp' x : procs s !! k = Some q → procs s !! x = Some pp → procs s' !! x = Some pp' →
  link (elems s) (history s) k q pp → link (elems s') (history s') k q pp'.
Proof.
  intros Hq Hpp Hpp' L.
  assert (∀ y, ¬ has_elem (elems s) pp y → ¬ has_elem (elems s') pp' y) as Hh
    by (intros y Hn Hy; by eapply Hn, collect_has_elem).
  pose proof Hpp' as Hcase. apply collect_lookup in Hcase as [[-> ->]|[Hne Hpp2]].
  - rewrite Hp in Hpp. injection Hpp as <-.
    destruct L as [L1 L2|b L1 L2|L1 [[L2 _]|L2]|k0 L1 L2 L3 L4|j f L1 L2 L3 L4 L5]; try congruence.
    + apply (LFailed _ _ _ _ _ k0); auto. intros [H|H]; done.
    + assert (j ≠ i) as Hji. { intros ->. rewrite He in L2. injection L2 as <-. by apply (collect_dead k q). }
      apply (LReg _ _ _ _ _ j f); try done; simpl; [|by rewrite lookup_delete_ne|intros [H|H]; done].
      apply elem_of_drop_elem; [apply (po_nodup _ _ _ (inv_procs _ Hi _ _ Hp))|done].
  - rewrite Hpp in Hpp2. injection Hpp2 as <-. destruct L as [|b| |k0|j f L1 L2 L3 L4 L5].
    + apply LLoading; auto.
    + apply (LLoaded _ _ _ _ _ b); auto.
    + apply LPending; auto.
    + apply (LFailed _ _ _ _ _ k0); auto.
    + apply (LReg _ _ _ _ _ j f); try done. simpl. rewrite lookup_delete_ne; [done|]. intros <-.
      rewrite He in L2. injection L2 as <-. by apply (collect_dead k q).
Qed.

Lemma collect_elem t0 q q' j : procs s !! t0 = Some q → j ∈ child_list q → j ≠ i →
  (at_pc q' = Collect j ↔ at_pc q = Collect j) → ∃ f, elems s' !! j = Some f ∧ elem_ok s' t0 q' j f.
Proof.
  intros Hq Hin Hji Hc. destruct (po_elems _ _ _ (inv_procs _ Hi _ _ Hq) j Hin) as (f & Hf & Hok).
  exists f. simpl. rewrite lookup_delete_ne by done. split; [done|].
  apply (elem_ok_mono s _ t0 q); try done; [|by right]. intros k r Hr _. by apply collect_forth.
Qed.

Lemma collect_procs t0 q : procs s' !! t0 = Some q → proc_ok s' t0 q.
Proof.
  assert (∀ x, Ended x ∈ history s' ↔ Ended x ∈ history s) as Hd.
  { intros x. simpl. rewrite elem_of_cons. naive_solver. }
  intros Hq. pose proof Hq as Hcase. apply collect_lookup in Hcase as [[-> ->]|[Hne Hq0]].
  - destruct (inv_procs _ Hi _ _ Hp) as [T (pp & Hpp & L) R K C Ki W B E N].
    split; simpl; try done.
    + destruct T as [? T]. split; [done|]. intros Hx. by apply Hd in Hx.
    + destruct (decide (tparent p = t)) as [Ht|Ht].
      * exists p'. by rewrite Ht, lookup_insert_eq.
      * exists pp. rewrite lookup_insert_ne by done. split; [done|]. intros _.
        apply (link_self _ _ _ p); try done; [by rewrite Hpc|].
        apply (collect_link t p pp pp (tparent p)); try done; [|by apply L]. apply collect_lookup. by right.
    + by rewrite K, Hpc.
    + destruct C as [C|(_ & x & C)]; [by left|congruence].
    + intros j [H|H]; done.
    + intros x [H|H]; done.
    + intros j Hj. rewrite elem_of_drop_elem in Hj by done. destruct Hj as [Hj Hji].
      apply (collect_elem t p); try done. rewrite Hpc. simpl. naive_solver.
    + by apply NoDup_drop_elem.
  - destruct (inv_procs _ Hi _ _ Hq0) as [T (pp & Hpp & L) R K C Ki W B E N]. split; try done.
    + destruct T as [? T]. split; [done|]. intros Hx. by apply Hd in Hx.
    + assert (∃ pp', procs s' !! tparent q = Some pp') as [pp' Hpp']
        by (destruct (collect_forth _ _ Hpp) as (pp' & ? & _); eauto).
      exists pp'. split; [done|]. intros Hne'. apply (collect_link t0 q pp pp' (tparent q)); try done. by apply L.
    + intros Hlo. destruct (Ki Hlo) as [? Hcl]. split; [done|]. intros x y Hy Hyt.
      apply collect_lookup in Hy as [[-> ->]|[Hxt Hy]]; [by apply (Hcl _ p)|by apply (Hcl _ y)].
    + intros x Hb. destruct (B x Hb) as (c' & y & Hy & H1 & H2 & H3). destruct (collect_forth _ _ Hy) as (y' & Hy' & ? & ?).
      exists c', y'. splits; congruence.
    + intros j Hj. apply (collect_elem t0 q); try done. intros ->. apply Hne.
      by apply (inv_owner _ Hi _ _ q p i Hq0 Hp Hj collect_in).
Qed.

Lemma collect_once : collected (history s) c = 0%nat.
Proof.
  destruct (decide (collected (history s) c = 0%nat)) as [|Hn]; [done|]. exfalso.
  apply collected_event in Hn as (a & v & Hw). destruct (inv_waited _ Hi a c v Hw) as (_ & _ & _ & Hno).
  apply (Hno t p Hp). exists i, e. splits; try done. apply collect_in.
Qed.

Lemma collect_inv : inv s'.
Proof.
  split.
  - exact collect_procs.
  - simpl. pose proof (inv_null _ Hi). rewrite lookup_insert_ne; [done|congruence].
  - apply (inv_next _ Hi).
  - intros t1 t2 p1 p2 H1 H2 Et.
    assert (∀ x q, procs s' !! x = Some q → ∃ q0, procs s !! x = Some q0 ∧ tid q0 = tid q) as Ho.
    { intros x q Hq. apply collect_lookup in Hq as [[-> ->]|[Hne Hq]]; eauto. }
    destruct (Ho _ _ H1) as (q1 & ? & ?), (Ho _ _ H2) as (q2 & ? & ?). apply (inv_tids _ Hi _ _ q1 q2); congruence.
  - intros t1 t2 p1 p2 j H1 H2 I1 I2. destruct (collect_list _ _ _ H1 I1) as (q1 & Q1 & _ & J1 & _).
    destruct (collect_list _ _ _ H2 I2) as (q2 & Q2 & _ & J2 & _). by apply (inv_owner _ Hi _ _ q1 q2 j).
  - intros t1 t2 p1 p2 j1 j2 e1 e2 H1 H2 I1 I2 E1 E2 Ec. destruct (collect_list _ _ _ H1 I1) as (q1 & Q1 & _ & J1 & N1).
    destruct (collect_list _ _ _ H2 I2) as (q2 & Q2 & _ & J2 & N2). simpl in E1, E2. rewrite lookup_delete_ne in E1, E2 by done.
    exact (inv_distinct _ Hi _ _ _ _ j1 j2 e1 e2 Q1 Q2 J1 J2 E1 E2 Ec).
  - intros x Hx. simpl in Hx. apply elem_of_cons in Hx as [->|Hx]; [|by apply (inv_past _ Hi)]. simpl.
    pose proof (proj1 collect_died) as Hd. by apply (inv_past _ Hi) in Hd.
  - intros x y v Hw. simpl in Hw. destruct collect_died as [Hd Hst].
    assert (∀ t0 q, procs s' !! t0 = Some q → ¬ has_elem (elems s') q c) as Hgone.
    { intros t0 q Hq (j & f & Hj & Hf & Hy). destruct (collect_list _ _ _ Hq Hj) as (q0 & Q0 & _ & J & Hji).
      simpl in Hf. rewrite lookup_delete_ne in Hf by done. apply Hji.
      exact (inv_distinct _ Hi _ _ _ _ j i f e Q0 Hp J collect_in Hf He Hy). }
    apply elem_of_cons in Hw as [Hw|Hw].
    + injection Hw as -> -> ->. splits; try done; [by right|]. simpl. rewrite Z.eqb_refl. by rewrite collect_once.
    + destruct (inv_waited _ Hi x y v Hw) as (H1 & H2 & H3 & H4).
      assert (y ≠ c) as Hyc. { intros ->. rewrite collect_once in H3. done. }
      splits; try done; [by right| |].
      * simpl. destruct (Z.eqb_spec c y); [congruence|done].
      * intros t0 q Hq Hh. pose proof Hq as Hcase. apply collect_lookup in Hcase as [[-> ->]|[Hne Hq0]].
        -- by apply (H4 t p Hp), (collect_has_elem t p').
        -- by apply (H4 t0 q Hq0), (collect_has_elem t0 q).
Qed.
End Collect.

(** * Death *)

Lemma alter_insert_lookup (f : child_elem → child_elem) (E : gmap Z child_elem) i e : E !! i = Some e → alter f i E = <[i := f e]> E.
Proof. intros He. apply map_eq. intros j. destruct (decide (j = i)) as [->|].
  - by rewrite lookup_alter_eq, lookup_insert_eq, He.
  - by rewrite lookup_alter_ne, lookup_insert_ne.
Qed.

Section Die.
Context (s : system) (t : Z) (p : proc) (cs : option Z) (Hi : inv s) (Hp : procs s !! t = Some p).
Context (Hpc : at_pc p = Killing [(t, KUp cs)]).

(** What the semaphore to be raised is. *)
Lemma die_sema : match cs with
  | Some i => ∃ pp e, tparent p ≠ t ∧ procs s !! tparent p = Some pp ∧ i ∈ child_list pp ∧ elems s !! i = Some e ∧ child_tid e = tid p
  | None => tparent p = t ∨ ∃ pp, procs s !! tparent p = Some pp ∧ ¬ has_elem (elems s) pp (tid p)
  end ∧ ∀ pp, procs s !! tparent p = Some pp → tparent p ≠ t → ¬ busy pp (tid p).
Proof.
  destruct (inv_procs _ Hi _ _ Hp) as [_ (pp & Hpp & L) R _ _ _ _ _ _ _].
  destruct (decide (tparent p = t)) as [Ht|Ht].
  - split; [|done]. specialize (R Ht). rewrite Hpc in R. destruct R as (k & [= <-] & [?|[?|[?|[= ->]]]]); try done. by left.
  - destruct (L Ht) as [L1|b L1|L1|k L1 L2 L3 L4|i e L1 L2 L3 L4 L5]; try congruence.
    + rewrite Hpc in L1. simpl in L1. congruence.
    + rewrite Hpc in L1. injection L1 as <-. destruct L2 as [?|[?|[?|[= ->]]]]; try done. split; [right; eauto|].
      intros pp0 Hpp0 _ Hb. rewrite Hpp in Hpp0. injection Hpp0 as <-. by destruct (L4 Hb).
    + rewrite Hpc in L4. destruct L4 as (k & [= <-] & [?|[?|[?|[= ->]]]]); try done. split; [by exists pp, e|].
      intros pp0 Hpp0 _. rewrite Hpp in Hpp0. by injection Hpp0 as <-.
Qed.

(** The elements after [sema_up]. *)
Definition raised (E : gmap Z child_elem) : gmap Z child_elem :=
  match cs with Some i => alter (λ e, set_sema (u32 (ce_sema e + 1)) e) i E | None => E end.
Let s' := mkState (delete t (procs s)) (<[t := p]> (leaving s)) (raised (elems s)) (next_tid s) (Ended (tid p) :: history s).

Lemma raised_tids i : child_tid <$> raised (elems s) !! i = child_tid <$> elems s !! i.
Proof.
  unfold raised. destruct cs as [j|]; [|done]. destruct (decide (i = j)) as [->|].
  - rewrite lookup_alter_eq. by destruct (elems s !! j).
  - by rewrite lookup_alter_ne.
Qed.

Lemma die_lookup k q : procs s' !! k = Some q ↔ k ≠ t ∧ procs s !! k = Some q.
Proof. simpl. rewrite lookup_delete_Some. naive_solver. Qed.

Lemma die_childless : child_list p = [] ∧ childless t s.
Proof. apply (po_kill _ _ _ (inv_procs _ Hi _ _ Hp)). by rewrite Hpc. Qed.

Lemma die_elem t0 q j f : procs s !! t0 = Some q → t0 ≠ t → j ∈ child_list q → elems s !! j = Some f → elem_ok s t0 q j f →
  ∃ f', raised (elems s) !! j = Some f' ∧ elem_ok s' t0 q j f'.
Proof.
  intros Hq Hne Hj Hf (Hr & Hst & Hok). destruct (decide (child_tid f = tid p)) as [Hc|Hc].
  - (* the element of the dying process *)
    destruct Hok as [(k & w & Hw & H1 & H2 & H3 & H4 & H5)|[Hd _]].
    2: { destruct (po_tid _ _ _ (inv_procs _ Hi _ _ Hp)) as [_ Hn]. destruct Hn. congruence. }
    assert (k = t) as -> by (apply (inv_tids _ Hi _ _ w p); congruence). rewrite Hp in Hw. injection Hw as <-.
    destruct die_sema as [Hcs _]. unfold raised. destruct cs as [i|].
    + destruct Hcs as (pp & e & _ & Hpp & Hin & He & Hce).
      assert (j = i) as -> by (apply (inv_distinct _ Hi _ _ q pp j i f e Hq Hpp Hj Hin Hf He); congruence).
      rewrite lookup_alter_eq, Hf. eexists. split; [done|]. split; [done|]. split; [done|].
      right. simpl. rewrite Hc. split; [by left|]. left. rewrite H4. done.
    + destruct Hcs as [Hcs|(pp & Hpp & Hno)]; [congruence|]. destruct Hno.
      rewrite H2, Hq in Hpp. injection Hpp as <-. by exists j, f.
  - exists f. split.
    + destruct die_sema as [Hcs _]. unfold raised. destruct cs as [i|]; [|done]. rewrite lookup_alter_ne; [done|]. intros ->.
      destruct Hcs as (pp & e & _ & _ & _ & He & Hce). congruence.
    + apply (elem_ok_mono s _ t0 q); try done; [|by right].
      intros k w Hw Hwt. exists w. split; [|done]. apply die_lookup. split; [|done]. intros ->. congruence.
Qed.

Lemma die_inv : inv s'.
Proof.
  destruct die_childless as [_ Hcl]. split.
  - intros t0 q Hq. apply die_lookup in Hq as [Hne Hq].
    destruct (inv_procs _ Hi _ _ Hq) as [T (pp & Hpp & L) R K C Ki W B E N]. split; try done.
    + destruct T as [? T]. split; [done|]. simpl. rewrite elem_of_cons. intros [[= Et]|?]; [|done].
      apply Hne. by apply (inv_tids _ Hi _ _ q p).
    + exists pp. split.
      * apply die_lookup. split; [|done]. intros Ht. apply Hne. by apply (Hcl _ q).
      * intros Ht. apply (link_env (elems s) _ (history s)); [exact raised_tids|done|by apply L].
    + intros Hlo. destruct (Ki Hlo) as [? Hcl0]. split; [done|]. intros x y Hy. apply die_lookup in Hy as [_ Hy]. by apply Hcl0.
    + intros c Hb. destruct (B c Hb) as (k & w & Hw & H1 & H2 & H3). exists k, w. splits; try done.
      apply die_lookup. split; [|done]. intros ->. rewrite Hp in Hw. injection Hw as <-.
      destruct die_sema as [_ Hnb]. apply (Hnb q); [by rewrite H2|congruence|by rewrite H1].
    + intros j Hj. destruct (E j Hj) as (f & Hf & Hok). by apply (die_elem t0 q j f).
  - simpl. rewrite lookup_delete_None. right. apply (inv_null _ Hi).
  - apply (inv_next _ Hi).
  - intros t1 t2 p1 p2 [_ H1]%die_lookup [_ H2]%die_lookup. by apply (inv_tids _ Hi).
  - intros t1 t2 p1 p2 i [_ H1]%die_lookup [_ H2]%die_lookup. by apply (inv_owner _ Hi).
  - intros t1 t2 p1 p2 i j e f [_ H1]%die_lookup [_ H2]%die_lookup I1 I2 Ee Ef Ec. simpl in Ee, Ef.
    pose proof (raised_tids i) as Ri. pose proof (raised_tids j) as Rj. rewrite Ee in Ri. rewrite Ef in Rj.
    destruct (elems s !! i) as [e0|] eqn:E0; [|done]. destruct (elems s !! j) as [f0|] eqn:F0; [|done].
    injection Ri as Ri. injection Rj as Rj.
    apply (inv_distinct _ Hi _ _ _ _ i j e0 f0 H1 H2 I1 I2 E0 F0). congruence.
  - intros x Hx. simpl in Hx. apply elem_of_cons in Hx as [->|Hx]; [|by apply (inv_past _ Hi)]. simpl.
    destruct (po_tid _ _ _ (inv_procs _ Hi _ _ Hp)). lia.
  - intros x y v Hw. simpl in Hw. apply elem_of_cons in Hw as [?|Hw]; [done|].
    destruct (inv_waited _ Hi x y v Hw) as (H1 & H2 & H3 & H4). splits; try done; [by right|].
    intros t0 q [_ Hq]%die_lookup Hh. apply (H4 t0 q Hq). by eapply has_elem_same; [|exact raised_tids|exact Hh].
Qed.

Lemma kill_up_ok : good (kill_step t t (KUp cs) [] s).
Proof.
  unfold kill_step. rewrite (get_ok _ _ _ Hp). cbn [mbind outcome_bind]. pose proof die_inv as Hinv.
  destruct die_sema as [Hcs _]. unfold s', raised in Hinv. destruct cs as [i|].
  - destruct Hcs as (pp & e & _ & _ & _ & He & _). rewrite (get_elem_ok _ _ _ He). cbn [mbind outcome_bind].
    unfold calls. rewrite (get_ok t p) by done. cbn [mbind outcome_bind]. apply good_stepped.
    unfold log, leave, put_elem; simpl. rewrite (alter_insert_lookup _ _ _ _ He) in Hinv. done.
  - unfold calls. rewrite (get_ok t p) by done. cbn [mbind outcome_bind]. by apply good_stepped.
Qed.
End Die.
