(* ===== verification/ProcessSafety.v ===== *)
(** The process protocol over all executions: what it guarantees when a process
    exits only after it has waited for all its children, so that the loop of
    [process_kill] over the children has nothing to do, and what goes wrong
    otherwise. *)
From S2P Require Import Prelude Process ProcessInv ProcessSteps ProcessLife.










(** * Concrete executions *)

(** Process [t] creates a child at [a] with the element [i]. *)
Definition spawn (t a i : Z) : list (Z * choice) :=
  [(t, DoExec); (t, CreateOk a); (a, LoadResult true); (a, Go); (t, Go); (t, Alloc (Some i) true)].
Definition exits (t v : Z) : list (Z * choice) := [(t, DoExit v); (t, Go); (t, Go); (t, Go); (t, Go); (t, Go)].





(** * Executions outside the discipline *)

Lemma run_ends l (P : system → bool) :
  match run l boot with Ok (Some s) => P s | _ => false end = true → ∃ s, run l boot = Ok (Some s) ∧ P s = true.
Proof. destruct (run l boot) as [[s|]|]; [by exists s|done|done]. Qed.
(** The next step of [t] touches memory that is not there. *)
Definition faults (t : Z) (ch : choice) (s : system) : bool :=
  match step_thread t ch s with Err WildAccess => true | _ => false end.
Lemma faults_ok t ch s : faults t ch s = true → step_thread t ch s = Err WildAccess.
Proof. unfold faults. destruct (step_thread t ch s) as [|[]]; done. Qed.
(** A running process whose resources are gone. *)
Definition torn_down (t parent : Z) (s : system) : bool :=
  match procs s !! t with
  | Some q => match at_pc q with User => (tparent q =? parent) && (torn q =? 1)%nat | _ => false end
  | None => false
  end.
Lemma torn_down_ok t parent s : torn_down t parent s = true →
  ∃ q, procs s !! t = Some q ∧ tparent q = parent ∧ at_pc q = User ∧ torn q = 1%nat.
Proof.
  unfold torn_down. destruct (procs s !! t) as [q|]; [|done]. destruct (at_pc q) eqn:E; try done.
  intros [H1%Z.eqb_eq H2%Nat.eqb_eq]%andb_true_iff. by exists q.
Qed.

(** When [thread_create] fails, [process_execute] waits for a child that does not
    exist, holding its lock. *)
Lemma create_failure_hangs : ∃ s, run [(1, DoExec); (1, CreateFail)] boot = Ok (Some s) ∧
  ∀ ch, step_thread 1 ch s = blocked.
Proof.
  eexists. split; [by vm_compute|]. intros []; by vm_compute.
Qed.

(** When the element cannot be allocated, the child runs although the parent was
    told -1, and its exit follows a null pointer. *)
Lemma unrecorded_child_faults : ∃ s,
  run [(1, DoExec); (1, CreateOk 2); (2, LoadResult true); (2, Go); (1, Go); (1, Alloc None true)] boot = Ok (Some s) ∧
  step_thread 2 (DoExit 0) s = Err WildAccess.
Proof.
  match goal with |- ∃ s, run ?l boot = _ ∧ _ =>
    destruct (run_ends l (faults 2 (DoExit 0))) as (s & E & H%faults_ok); [by vm_compute|] end.
  exists s. exact (conj E H).
Qed.

(** A child whose program could not be loaded may run after its parent is gone. *)
Lemma failed_child_outlives_parent : ∃ s,
  run (spawn 1 2 100 ++ [(2, DoExec); (2, CreateOk 3); (3, LoadResult false); (3, Go); (2, Go); (2, Alloc None true)]
       ++ exits 2 0) boot = Ok (Some s) ∧
  step_thread 3 Go s = Err WildAccess.
Proof.
  match goal with |- ∃ s, run ?l boot = _ ∧ _ =>
    destruct (run_ends l (faults 3 Go)) as (s & E & H%faults_ok); [by vm_compute|] end.
  exists s. exact (conj E H).
Qed.

(** A parent that exits first takes down its living child, which then uses the
    parent's freed structure. *)
Definition parent_first : list (Z * choice) :=
  spawn 1 2 100 ++ spawn 2 3 101 ++ (2, DoExit 0) :: replicate 11 (2, Go).
Lemma living_child_torn_down :
  (∃ s q, run parent_first boot = Ok (Some s) ∧ procs s !! 3 = Some q ∧ tparent q = 2 ∧ at_pc q = User ∧ torn q = 1%nat) ∧
  (∃ s, run (parent_first ++ [(3, DoKilled)]) boot = Ok (Some s) ∧ step_thread 3 Go s = Err WildAccess).
Proof.
  split.
  - destruct (run_ends parent_first (torn_down 3 2)) as (s & E & (q & H)%torn_down_ok); [by vm_compute|]. exists s, q. exact (conj E H).
  - destruct (run_ends (parent_first ++ [(3, DoKilled)]) (faults 3 Go)) as (s & E & H%faults_ok); [by vm_compute|]. exists s. exact (conj E H).
Qed.

(** A dead child that was not waited for: its address may belong to a stranger by
    the time the parent exits, and the stranger is taken down. *)
Lemma stranger_torn_down : ∃ s q,
  run (spawn 1 2 100 ++ spawn 2 3 101 ++ exits 3 0 ++ spawn 1 3 102 ++ (2, DoExit 0) :: replicate 6 (2, Go)) boot = Ok (Some s) ∧
  procs s !! 3 = Some q ∧ tparent q = 1 ∧ at_pc q = User ∧ torn q = 1%nat.
Proof.
  match goal with |- ∃ s q, run ?l boot = _ ∧ _ =>
    destruct (run_ends l (torn_down 3 1)) as (s & E & (q & H)%torn_down_ok); [by vm_compute|] end.
  exists s, q. exact (conj E H).
Qed.
