(* ===== verification/Malloc.v ===== *)
(** The block allocator (threads/malloc.c): requests are rounded up to a
    power of two and served from arenas, pages cut into blocks of one size;
    requests too big for an arena get pages of their own.

    Arena headers are words in memory.  The list of free blocks of a
    descriptor is the sequence of their addresses; its links, which the code
    keeps in the free blocks themselves, are not in the model's memory.  The
    pointer to the descriptor of index [i] is the number [i + 1].  Each
    descriptor's lock makes the operations on it atomic. *)
From S2P Require Import Prelude Mem Str Word Bitmap FreeMap Vaddr Palloc.

Record desc := mkDesc { block_size : Z; blocks_per_arena : Z; free_list : list Z }.
Record heap := mkHeap { hk : kmem; descs : list desc }.
Abbreviation HM := (M heap).

Definition ARENA_MAGIC : Z := 2589232877.
Definition sizeof_arena : Z := 12.

Definition set_hk (k : kmem) (h : heap) : heap := mkHeap k (descs h).
Definition on_hk {A} (f : KM A) : HM A := λ h, '(a, k) ← f (hk h); Ok (a, set_hk k h).
Definition ldw (p : Z) : HM Z := on_hk (on_ram (load32 p)).
Definition stw (p w : Z) : HM () := on_hk (on_ram (store32 p w)).

(** Fields of [struct arena] and of the descriptor it points to. *)
Definition a_magic (a : Z) : HM Z := ldw a.
Definition a_desc (a : Z) : HM Z := ldw (a + 4).
Definition a_free_cnt (a : Z) : HM Z := ldw (a + 8).
Definition set_free_cnt (a n : Z) : HM () := stw (a + 8) n.
Definition get_desc (d : Z) : HM desc := h ← getS; pureM (of_option (zget (descs h) (d - 1))).
Definition put_desc (d : Z) (x : desc) : HM () :=
  h ← getS; ds ← pureM (of_option (zset (descs h) (d - 1) x)); putS (mkHeap (hk h) ds).
Definition set_free_list (x : desc) (l : list Z) : desc := mkDesc (block_size x) (blocks_per_arena x) l.

(** [for (block_size = 16; block_size < PGSIZE / 2; block_size *= 2)]; the
    sizes are powers of two, so eleven rounds are more than enough. *)
Fixpoint init_loop (fuel : nat) (bs : Z) (ds : list desc) : outcome (list desc) :=
  match fuel with
  | O => Err OutOfFuel
  | S fuel =>
      if bs <? PGSIZE / 2 then
        assert (Z.of_nat (length ds) + 1 <=? 10)
          (init_loop fuel (u32 (bs * 2)) (ds ++ [mkDesc bs ((PGSIZE - sizeof_arena) / bs) []]))
      else Ok ds
  end.
Definition malloc_init : outcome (list desc) := init_loop 11 16 [].

(** [for (d = descs; d < descs + desc_cnt; d++)]: the index of the first
    descriptor with large enough blocks, or the number of descriptors. *)
Fixpoint find_desc (ds : list desc) (size : Z) (i : Z) : Z :=
  match ds with
  | [] => i
  | d :: ds => if size <=? block_size d then i else find_desc ds size (i + 1)
  end.

Definition block_to_arena (b : Z) : HM Z :=
  let a := pg_round_down b in
  check (negb (a =? NULL));;
  magic ← a_magic a;
  check (magic =? ARENA_MAGIC);;
  d ← a_desc a;
  (if d =? NULL then mret ()
   else x ← get_desc d; check (u32 (pg_ofs b - sizeof_arena) mod block_size x =? 0));;
  check (negb (d =? NULL) || (pg_ofs b =? sizeof_arena));;
  mret a.

Definition arena_to_block (a idx : Z) : HM Z :=
  check (negb (a =? NULL));;
  magic ← a_magic a;
  check (magic =? ARENA_MAGIC);;
  d ← a_desc a;
  x ← get_desc d;
  check (idx <? blocks_per_arena x);;
  mret (u32 (a + sizeof_arena + u32 (idx * block_size x))).

(** [for (i = 0; i < d->blocks_per_arena; i++) list_push_back (...)]. *)
Fixpoint push_blocks (n : nat) (a d i : Z) : HM () :=
  match n with
  | O => mret ()
  | S n =>
      b ← arena_to_block a i;
      x ← get_desc d;
      put_desc d (set_free_list x (free_list x ++ [b]));;
      push_blocks n a d (i + 1)
  end.

Definition init_arena (a d n : Z) : HM () :=
  stw a ARENA_MAGIC;; stw (a + 4) d;; stw (a + 8) n.

(** A descriptor whose free list is empty gets a new arena; the result says
    whether there is memory for it. *)
Definition refill (d : Z) : HM bool :=
  x ← get_desc d;
  match free_list x with
  | _ :: _ => mret true
  | [] =>
      a ← on_hk (palloc_get_page 0);
      if a =? NULL then mret false
      else
        init_arena a d (blocks_per_arena x);;
        push_blocks (Z.to_nat (blocks_per_arena x)) a d 0;;
        mret true
  end.

(** [list_pop_front] on an empty list fails an assertion. *)
Definition pop_block (d : Z) : HM Z :=
  x ← get_desc d;
  match free_list x with
  | [] => fail AssertFail
  | b :: l => put_desc d (set_free_list x l);; mret b
  end.

Definition malloc (size : Z) : HM Z :=
  if size =? 0 then mret NULL
  else
    h ← getS;
    let d := find_desc (descs h) size 0 in
    if d =? Z.of_nat (length (descs h)) then
      let page_cnt := DIV_ROUND_UP (u32 (size + sizeof_arena)) PGSIZE in
      a ← on_hk (palloc_get_multiple 0 page_cnt);
      if a =? NULL then mret NULL
      else init_arena a NULL page_cnt;; mret (u32 (a + sizeof_arena))
    else
      ok ← refill (d + 1);
      if (ok : bool) then
        b ← pop_block (d + 1);
        a ← block_to_arena b;
        n ← a_free_cnt a;
        set_free_cnt a (u32 (n - 1));;
        mret b
      else mret NULL.

Definition calloc (a b : Z) : HM Z :=
  let size := u32 (a * b) in
  if (size <? a) || (size <? b) then mret NULL
  else
    p ← malloc size;
    (if negb (p =? NULL) then on_hk (on_ram (memset p 0 size));; mret () else mret ());;
    mret p.

(** The static function [block_size]. *)
Definition size_of_block (block : Z) : HM Z :=
  a ← block_to_arena block;
  d ← a_desc a;
  if negb (d =? NULL) then x ← get_desc d; mret (block_size x)
  else n ← a_free_cnt a; mret (u32 (PGSIZE * n - pg_ofs block)).

(** [list_remove] of a block that is in the list. *)
Definition remove_block (d b : Z) : HM () :=
  x ← get_desc d;
  if decide (b ∈ free_list x) then put_desc d (set_free_list x (filter (λ c, c ≠ b) (free_list x)))
  else fail WildAccess.
Fixpoint remove_blocks (n : nat) (a d i : Z) : HM () :=
  match n with
  | O => mret ()
  | S n => b ← arena_to_block a i; remove_block d b;; remove_blocks n a d (i + 1)
  end.

Definition free (p : Z) : HM () :=
  if p =? NULL then mret ()
  else
    a ← block_to_arena p;
    d ← a_desc a;
    if negb (d =? NULL) then
      x ← get_desc d;
      on_hk (on_ram (memset p 204 (block_size x)));;
      put_desc d (set_free_list x (p :: free_list x));;
      n ← a_free_cnt a;
      let n := u32 (n + 1) in
      set_free_cnt a n;;
      if blocks_per_arena x <=? n then
        check (n =? blocks_per_arena x);;
        remove_blocks (Z.to_nat (blocks_per_arena x)) a d 0;;
        on_hk (palloc_free_page a)
      else mret ()
    else
      n ← a_free_cnt a;
      on_hk (palloc_free_multiple a n).

Definition realloc (old_block new_size : Z) : HM Z :=
  if new_size =? 0 then free old_block;; mret NULL
  else
    new_block ← malloc new_size;
    (if negb (old_block =? NULL) && negb (new_block =? NULL) then
       old_size ← size_of_block old_block;
       let min_size := if new_size <? old_size then new_size else old_size in
       on_hk (on_ram (memcpy new_block old_block min_size));;
       free old_block
     else mret ());;
    mret new_block.
