(* ===== verification/MallocInv.v ===== *)
(** The invariant of the block allocator: which pages are arenas or big
    blocks, and that headers and free lists describe them. *)
From S2P Require Import Prelude Mem Str Word Bitmap FreeMap Vaddr Palloc Malloc.

Definition hram (h : heap) : mem := ram (hk h).

Lemma filter_all {A} (P : A → Prop) `{∀ x, Decision (P x)} (l : list A) : (∀ x, x ∈ l → P x) → filter P l = l.
Proof.
  induction l as [|y l IH]; intros Hl; [done|]. rewrite filter_cons_True by (apply Hl; left).
  f_equal. apply IH. intros x Hx. apply Hl. by right.
Qed.

(** * Descriptors *)

(** Block size and blocks per arena of the seven descriptors. *)
Definition desc_table : list (Z * Z) :=
  [(16, 255); (32, 127); (64, 63); (128, 31); (256, 15); (512, 7); (1024, 3)].
Definition desc_shape (x : desc) : Z * Z := (block_size x, blocks_per_arena x).

Lemma malloc_init_shape :
  ∃ ds, malloc_init = Ok ds ∧ desc_shape <$> ds = desc_table ∧ Forall (λ x, free_list x = []) ds.
Proof. eexists. split; [reflexivity|]. split; [reflexivity|]. by repeat constructor. Qed.

(** What the table gives about a descriptor. *)
Record desc_ok (x : desc) : Prop := {
  do_size : 16 <= block_size x <= 1024;
  do_cnt : 1 <= blocks_per_arena x <= 255;
  do_fit : block_size x * blocks_per_arena x <= 4084 }.

Lemma shape_desc_ok ds i x : desc_shape <$> ds = desc_table → zget ds i = Some x → desc_ok x.
Proof.
  intros Ht Hx. unfold zget in Hx. destruct (i <? 0); [done|].
  assert (desc_table !! Z.to_nat i = Some (desc_shape x)) as Hl.
  { rewrite <- Ht. by rewrite list_lookup_fmap, Hx. }
  apply list_elem_of_lookup_2 in Hl. unfold desc_table in Hl. repeat rewrite elem_of_cons in Hl.
  rewrite elem_of_nil in Hl. unfold desc_shape in Hl.
  destruct_or!; try done; injection Hl as E1 E2; split; lia.
Qed.

(** The heap with the free list of descriptor [d] replaced. *)
Definition with_free (h : heap) (d : Z) (x : desc) (l : list Z) : heap :=
  mkHeap (hk h) (<[Z.to_nat (d - 1) := set_free_list x l]> (descs h)).

Lemma get_desc_step {B} h d x (f : desc → HM B) : zget (descs h) (d - 1) = Some x →
  (get_desc d ≫= f) h = f x h.
Proof. intros E. apply M_bind_step. unfold get_desc. rewrite getS_step. unfold pureM. by rewrite E. Qed.

Lemma put_desc_Ok h d x l : zget (descs h) (d - 1) = Some x →
  put_desc d (set_free_list x l) h = Ok ((), with_free h d x l).
Proof.
  intros E. unfold put_desc. rewrite getS_step. unfold pureM, mbind, M_bind.
  by rewrite zset_Some by by eapply zget_Some_range.
Qed.

Lemma with_free_get h d x l d' : zget (descs h) (d - 1) = Some x →
  zget (descs (with_free h d x l)) (d' - 1) =
    if d =? d' then Some (set_free_list x l) else zget (descs h) (d' - 1).
Proof.
  intros E. apply zget_Some_range in E. simpl. rewrite zget_insert by done. by bcases; try lia.
Qed.

Lemma with_free_twice h d x l l' : zget (descs h) (d - 1) = Some x →
  with_free (with_free h d x l) d (set_free_list x l) l' = with_free h d x l'.
Proof. intros E. unfold with_free; simpl. by rewrite list_insert_insert_eq. Qed.

Lemma with_free_shape h d x l : zget (descs h) (d - 1) = Some x →
  desc_shape <$> descs (with_free h d x l) = desc_shape <$> descs h.
Proof.
  intros E. simpl. rewrite list_fmap_insert. apply list_insert_id. unfold zget in E.
  destruct (d - 1 <? 0); [done|]. by rewrite list_lookup_fmap, E.
Qed.

(** * Words of the heap *)

Definition set_hw (p w : Z) (h : heap) : heap := set_hk (set_ram (wr32 p w (hram h)) (hk h)) h.

Lemma ldw_step {B} h p (f : Z → HM B) : mapped (hram h) p 4 → (ldw p ≫= f) h = f (rd32 (hram h) p) h.
Proof.
  intros Hm. apply M_bind_step. unfold ldw, on_hk, on_ram. fold (hram h). rewrite load32_Ok by done.
  by destruct h as [[] ?].
Qed.
Lemma stw_Ok h p w : mapped (hram h) p 4 → stw p w h = Ok ((), set_hw p w h).
Proof. intros Hm. unfold stw, on_hk, on_ram. fold (hram h). by rewrite store32_Ok. Qed.
Lemma on_hk_Ok {A} (f : KM A) h a k : f (hk h) = Ok (a, k) → on_hk f h = Ok (a, set_hk k h).
Proof. unfold on_hk. by intros ->. Qed.

(** * Blocks of an arena *)

Definition block_at (a bs idx : Z) : Z := a + 12 + idx * bs.
Definition arena_of (b : Z) : Z := b - b mod 4096.
(** The free blocks of an arena. *)
Definition free_in (a : Z) (l : list Z) : list Z := filter (λ b, arena_of b = a) l.

Lemma block_at_in x a idx : desc_ok x → 0 <= idx < blocks_per_arena x →
  a + 12 <= block_at a (block_size x) idx ∧ block_at a (block_size x) idx + block_size x <= a + 4096.
Proof. intros [] Hi. unfold block_at. nia. Qed.

Lemma block_offset x idx : desc_ok x → 0 <= idx < blocks_per_arena x → 0 <= idx * block_size x <= 4084.
Proof. intros [] Hi. nia. Qed.

Lemma arena_of_in a b : a mod 4096 = 0 → a <= b < a + 4096 → arena_of b = a ∧ b mod 4096 = b - a.
Proof.
  intros Ha Hb. unfold arena_of. assert (b mod 4096 = b - a) as ->; [|lia].
  pose proof (Z.div_mod a 4096). rewrite <- (Z.mod_small (b - a) 4096) by lia.
  replace (b - a) with (b + (- (a / 4096)) * 4096) by lia. by rewrite Z.mod_add.
Qed.

Lemma block_arena x a idx : desc_ok x → a mod 4096 = 0 → 0 <= idx < blocks_per_arena x →
  arena_of (block_at a (block_size x) idx) = a ∧
  block_at a (block_size x) idx mod 4096 = 12 + idx * block_size x.
Proof.
  intros Hx Ha Hi. pose proof (block_at_in x a idx Hx Hi). pose proof (do_size _ Hx).
  destruct (arena_of_in a (block_at a (block_size x) idx) Ha) as [-> ->]; [lia|].
  split; [done|]. unfold block_at. lia.
Qed.

Lemma block_at_inj x a idx idx' : desc_ok x →
  block_at a (block_size x) idx = block_at a (block_size x) idx' → idx = idx'.
Proof. intros [] E. unfold block_at in E. nia. Qed.

Lemma block_at_apart x a i j : desc_ok x →
  block_at a (block_size x) i ≠ block_at a (block_size x) j →
  block_at a (block_size x) i + block_size x <= block_at a (block_size x) j ∨
  block_at a (block_size x) j + block_size x <= block_at a (block_size x) i.
Proof.
  intros [? _ _] Hne. unfold block_at in *. set (s := block_size x) in *.
  destruct (Z.lt_trichotomy i j) as [Hl|[->|Hl]]; [left|done|right].
  - assert ((i + 1) * s <= j * s) by (apply Z.mul_le_mono_nonneg_r; lia). lia.
  - assert ((j + 1) * s <= i * s) by (apply Z.mul_le_mono_nonneg_r; lia). lia.
Qed.

(** * Headers *)

(** The page [a] is an arena of descriptor [d], which is [x]. *)
Record arena_hdr (h : heap) (a d : Z) (x : desc) : Prop := {
  ah_page : kernel_page (hk h) a;
  ah_magic : rd32 (hram h) a = ARENA_MAGIC;
  ah_desc : rd32 (hram h) (a + 4) = d;
  ah_d : 1 <= d;
  ah_get : zget (descs h) (d - 1) = Some x;
  ah_ok : desc_ok x }.

Lemma header_mapped k a o : kmem_inv k → kernel_page k a → 0 <= o <= 8 → mapped (ram k) (a + o) 4.
Proof.
  intros Hi Hp Ho. destruct (kernel_page_facts k a Hi Hp) as (_ & _ & _ & Hm).
  eapply mapped_sub; [exact Hm|lia|lia].
Qed.

Lemma block_to_arena_Ok h a d x idx :
  kmem_inv (hk h) → arena_hdr h a d x → 0 <= idx < blocks_per_arena x →
  block_to_arena (block_at a (block_size x) idx) h = Ok (a, h).
Proof.
  intros Hi [Hp Hm Hd Hd1 Hx Hok] Hidx. destruct (kernel_page_facts _ _ Hi Hp) as (Ha & H0 & H1 & _).
  pose proof (block_at_in x a idx Hok Hidx) as [Hb0 Hb1]. pose proof (do_size _ Hok).
  destruct (block_arena x a idx Hok Ha Hidx) as [Har Hmod]. unfold PHYS_BASE in *.
  unfold block_to_arena. rewrite pg_round_down_sub by (unfold is_u32; lia).
  fold (arena_of (block_at a (block_size x) idx)). rewrite Har.
  rewrite (M_bind_step _ _ h () h) by (apply check_true, negb_true_iff, Z.eqb_neq; unfold NULL; lia).
  unfold a_magic. rewrite ldw_step by (rewrite <- (Z.add_0_r a); by apply header_mapped).
  rewrite (M_bind_step _ _ h () h) by (apply check_true; by apply Z.eqb_eq).
  unfold a_desc. rewrite ldw_step by by apply header_mapped. rewrite Hd.
  destruct (Z.eqb_spec d NULL); [unfold NULL in *; lia|].
  rewrite (M_bind_step _ _ h () h).
  2: { rewrite (get_desc_step _ _ x) by done. apply check_true, Z.eqb_eq. unfold sizeof_arena.
       rewrite pg_ofs_mod, Hmod. replace (12 + idx * block_size x - 12) with (idx * block_size x) by lia.
       rewrite u32_small by (pose proof (block_offset x idx Hok Hidx); lia). apply Z.mod_mul. lia. }
  by rewrite (M_bind_step _ _ h () h).
Qed.

Lemma arena_to_block_Ok h a d x idx :
  kmem_inv (hk h) → arena_hdr h a d x → 0 <= idx < blocks_per_arena x →
  arena_to_block a idx h = Ok (block_at a (block_size x) idx, h).
Proof.
  intros Hi [Hp Hm Hd Hd1 Hx Hok] Hidx. destruct (kernel_page_facts _ _ Hi Hp) as (Ha & H0 & H1 & _).
  pose proof (block_at_in x a idx Hok Hidx) as [Hb0 Hb1]. pose proof (do_size _ Hok). unfold PHYS_BASE in *.
  unfold arena_to_block, a_magic, a_desc.
  rewrite (M_bind_step _ _ h () h) by (apply check_true, negb_true_iff, Z.eqb_neq; unfold NULL; lia).
  rewrite ldw_step by (rewrite <- (Z.add_0_r a); by apply header_mapped).
  rewrite (M_bind_step _ _ h () h) by (apply check_true; by apply Z.eqb_eq).
  rewrite ldw_step by by apply header_mapped. rewrite Hd. rewrite (get_desc_step _ _ x) by done.
  rewrite (M_bind_step _ _ h () h) by (apply check_true, Z.ltb_lt; lia).
  pose proof (block_offset x idx Hok Hidx). unfold block_at, sizeof_arena in *. rewrite (u32_small (idx * _)) by lia. by rewrite u32_small by lia.
Qed.

Lemma arena_hdr_with_free h a d x l : arena_hdr h a d x → arena_hdr (with_free h d x l) a d (set_free_list x l).
Proof.
  intros [? ? ? ? Hx []]. split; try done. rewrite with_free_get by done. by rewrite Z.eqb_refl.
Qed.

(** The blocks [i, i + n) of an arena. *)
Definition blocks (a bs i : Z) (n : nat) : list Z := block_at a bs <$> seqZ i (Z.of_nat n).

Lemma blocks_S a bs i n : blocks a bs i (S n) = block_at a bs i :: blocks a bs (i + 1) n.
Proof.
  unfold blocks. rewrite seqZ_cons by lia. cbn [fmap list_fmap]. f_equal. f_equal. f_equal; lia.
Qed.

Lemma push_blocks_Ok n h a d x i :
  kmem_inv (hk h) → arena_hdr h a d x → 0 <= i → i + Z.of_nat n <= blocks_per_arena x →
  push_blocks n a d i h = Ok ((), with_free h d x (free_list x ++ blocks a (block_size x) i n)).
Proof.
  revert h x i. induction n as [|n IH]; intros h x i Hi Hh H0 Hn; cbn [push_blocks].
  - unfold blocks; simpl. rewrite app_nil_r. unfold with_free, mret, M_ret.
    rewrite list_insert_id; [by destruct h|]. pose proof (ah_get _ _ _ _ Hh) as Hx. unfold zget in Hx.
    destruct (d - 1 <? 0); [done|]. rewrite Hx. by destruct x.
  - rewrite (M_bind_step _ _ _ _ _ (arena_to_block_Ok h a d x i Hi Hh ltac:(lia))).
    pose proof (ah_get _ _ _ _ Hh) as Hx. rewrite (get_desc_step _ _ x) by done.
    rewrite (M_bind_step _ _ _ _ _ (put_desc_Ok h d x _ Hx)).
    rewrite (IH _ (set_free_list x (free_list x ++ [block_at a (block_size x) i])));
      [|done|by apply arena_hdr_with_free|lia|simpl; lia].
    rewrite with_free_twice by done. simpl. by rewrite <- app_assoc, blocks_S.
Qed.

Lemma remove_blocks_Ok n h a d x i :
  kmem_inv (hk h) → arena_hdr h a d x → 0 <= i → i + Z.of_nat n <= blocks_per_arena x →
  (∀ b, b ∈ blocks a (block_size x) i n → b ∈ free_list x) →
  remove_blocks n a d i h =
    Ok ((), with_free h d x (filter (λ b, b ∉ blocks a (block_size x) i n) (free_list x))).
Proof.
  revert h x i. induction n as [|n IH]; intros h x i Hi Hh H0 Hn Hin; cbn [remove_blocks].
  - unfold with_free, mret, M_ret. rewrite filter_all by (intros; apply not_elem_of_nil).
    rewrite list_insert_id; [by destruct h|]. pose proof (ah_get _ _ _ _ Hh) as Hx. unfold zget in Hx.
    destruct (d - 1 <? 0); [done|]. rewrite Hx. by destruct x.
  - rewrite (M_bind_step _ _ _ _ _ (arena_to_block_Ok h a d x i Hi Hh ltac:(lia))).
    pose proof (ah_get _ _ _ _ Hh) as Hx. unfold remove_block.
    set (b0 := block_at a (block_size x) i). rewrite blocks_S in Hin. fold b0 in Hin.
    rewrite (M_bind_step _ _ h () (with_free h d x (filter (λ c, c ≠ b0) (free_list x)))).
    2: { rewrite (get_desc_step _ _ x) by done. rewrite decide_True by (apply Hin; left). by apply put_desc_Ok. }
    rewrite (IH _ (set_free_list x (filter (λ c, c ≠ b0) (free_list x))));
      [|done|by apply arena_hdr_with_free|lia|simpl; lia|].
    + rewrite with_free_twice by done. simpl. rewrite list_filter_filter. do 3 f_equal.
      apply list_filter_iff. intros b. rewrite blocks_S, not_elem_of_cons. fold b0. tauto.
    + simpl. intros b Hb. apply list_elem_of_filter. split; [|apply Hin; by right].
      intros ->. unfold blocks in Hb. apply list_elem_of_fmap in Hb as (j & E & Hj).
      apply elem_of_seqZ in Hj. apply (block_at_inj x) in E; [lia|apply Hh].
Qed.
