(* ===== verification/MallocOps.v ===== *)
(** The steps of [malloc] and [free] on the invariant: taking a block from a
    free list, adding and removing an arena, adding and removing a big
    block. *)
From S2P Require Import Prelude Mem Str Word Bitmap FreeMap Vaddr Palloc Malloc MallocInv.

(** * Invariant *)

(** [ar] maps the arenas to the number of their descriptor, [big] the big
    blocks to their number of pages; a span is a run of pages of either. *)
Definition span (ar big : gmap Z Z) (a n : Z) : Prop :=
  (n = 1 ∧ is_Some (ar !! a)) ∨ big !! a = Some n.

(** A member of a free list: a block of an arena of the descriptor. *)
Definition block_of (ar : gmap Z Z) (d : Z) (x : desc) (b : Z) : Prop :=
  ∃ a idx, ar !! a = Some d ∧ 0 <= idx < blocks_per_arena x ∧ b = block_at a (block_size x) idx.

Record heap_inv (h : heap) (ar big : gmap Z Z) : Prop := {
  hi_km : kmem_inv (hk h);
  hi_shape : desc_shape <$> descs h = desc_table;
  hi_free : ∀ d x, zget (descs h) (d - 1) = Some x →
    NoDup (free_list x) ∧ ∀ b, b ∈ free_list x → block_of ar d x b;
  hi_arena : ∀ a d, ar !! a = Some d → ∃ x, arena_hdr h a d x ∧
    rd32 (hram h) (a + 8) = Z.of_nat (length (free_in a (free_list x)));
  hi_big : ∀ a n, big !! a = Some n →
    rd32 (hram h) a = ARENA_MAGIC ∧ rd32 (hram h) (a + 4) = NULL ∧ rd32 (hram h) (a + 8) = n;
  hi_pages : ∀ a n, span ar big a n → 0 < n ∧ a mod 4096 = 0 ∧
    ∀ i, 0 <= i < n → in_use (kernel_pool (hk h)) (a + 4096 * i) = true;
  hi_excl : ∀ a, is_Some (ar !! a) → big !! a = None;
  hi_disj : ∀ a n a' n', span ar big a n → span ar big a' n' → a ≠ a' →
    a + 4096 * n <= a' ∨ a' + 4096 * n' <= a
}.

(** The blocks handed out and not freed, with their sizes. *)
Definition live (h : heap) (ar big : gmap Z Z) (b sz : Z) : Prop :=
  (∃ d x, zget (descs h) (d - 1) = Some x ∧ block_of ar d x b ∧ (b ∉ free_list x) ∧ sz = block_size x) ∨
  (∃ a n, big !! a = Some n ∧ b = a + 12 ∧ sz = 4096 * n - 12).

Lemma span_ar ar big a d : ar !! a = Some d → span ar big a 1.
Proof. intros E. left. split; [done|by exists d]. Qed.

Section Inv.
Context (h : heap) (ar big : gmap Z Z) (Hinv : heap_inv h ar big).

Lemma desc_facts d x : zget (descs h) (d - 1) = Some x → desc_ok x.
Proof. eapply shape_desc_ok, Hinv. Qed.

Lemma span_page a n : span ar big a n → kernel_page (hk h) a.
Proof.
  intros Hs. destruct (hi_pages _ _ _ Hinv a n Hs) as (Hn & Ha & Hu). split; [done|].
  specialize (Hu 0 ltac:(lia)). by rewrite Z.add_0_r in Hu.
Qed.

Lemma span_unique a n n' : span ar big a n → span ar big a n' → n = n'.
Proof.
  intros [[-> Ha]|Ha] [[-> Ha']|Ha']; try done; try congruence.
  - pose proof (hi_excl _ _ _ Hinv a Ha). congruence.
  - pose proof (hi_excl _ _ _ Hinv a Ha'). congruence.
Qed.

(** A span is a run of addresses in use. *)
Lemma span_in_use a n c : span ar big a n → a <= c < a + 4096 * n → in_use (kernel_pool (hk h)) c = true.
Proof.
  intros Hs Hc. destruct (hi_pages _ _ _ Hinv a n Hs) as (Hn & Ha & Hu).
  pose proof (ki_kernel _ (hi_km _ _ _ Hinv)) as Hk.
  pose proof (Z.div_mod (c - a) 4096). pose proof (Z.mod_pos_bound (c - a) 4096).
  specialize (Hu ((c - a) / 4096) ltac:(lia)). unfold in_use, in_pool in *.
  apply andb_true_iff in Hu as [Hin Hb]. apply andb_true_iff in Hin as [?%Z.leb_le ?%Z.ltb_lt].
  set (p := kernel_pool (hk h)) in *. pose proof (po_aligned _ _ Hk) as Hba.
  assert ((c - base p) / 4096 = (a + 4096 * ((c - a) / 4096) - base p) / 4096) as Eq.
  { pose proof (Z.div_mod a 4096). pose proof (Z.div_mod (base p) 4096).
    replace (c - base p) with ((c - a) mod 4096 + (a / 4096 + (c - a) / 4096 - base p / 4096) * 4096) by lia.
    replace (a + 4096 * ((c - a) / 4096) - base p) with (0 + (a / 4096 + (c - a) / 4096 - base p / 4096) * 4096) by lia.
    rewrite !Z.div_add by lia. rewrite (Z.div_small ((c - a) mod 4096)) by lia. done. }
  rewrite Eq, Hb, andb_true_r. unfold pool_end in *. pose proof (Z.div_mod a 4096).
  pose proof (Z.div_mod (base p) 4096). bcases; simpl; done || lia.
Qed.

Lemma header_facts a n o : span ar big a n → 0 <= o <= 8 → mapped (hram h) (a + o) 4.
Proof. intros Hs Ho. apply header_mapped; [apply Hinv|by eapply span_page|done]. Qed.

(** Headers of two spans do not overlap. *)
Lemma headers_apart a n a' n' i j : span ar big a n → span ar big a' n' → 0 <= i < 3 → 0 <= j < 3 →
  a ≠ a' ∨ i ≠ j → a' + 4 * j + 4 <= a + 4 * i ∨ a + 4 * i + 4 <= a' + 4 * j.
Proof.
  intros Hs Hs' Hi Hj Hne. destruct (span_page a n Hs) as [Ha _], (span_page a' n' Hs') as [Ha' _].
  apply words_apart; done || lia.
Qed.

Lemma arena_hdr_at a d x : ar !! a = Some d → zget (descs h) (d - 1) = Some x → arena_hdr h a d x.
Proof.
  intros Ha Hx. destruct (hi_arena _ _ _ Hinv a d Ha) as (x' & Hh & _).
  pose proof (ah_get _ _ _ _ Hh) as Hx'. by replace x with x' by congruence.
Qed.

Lemma block_of_facts d x b : zget (descs h) (d - 1) = Some x → block_of ar d x b →
  ar !! arena_of b = Some d ∧ ∃ idx, 0 <= idx < blocks_per_arena x ∧ b = block_at (arena_of b) (block_size x) idx.
Proof.
  intros Hx (a & idx & Ha & Hi & ->).
  destruct (span_page a 1 (span_ar ar big a d Ha)) as [Hal _].
  destruct (block_arena x a idx (desc_facts d x Hx) Hal Hi) as [-> _]. eauto.
Qed.

(** ** Changing a free list and the count of an arena *)

Lemma set_count_inv a d x l n :
  ar !! a = Some d → zget (descs h) (d - 1) = Some x →
  NoDup l → (∀ b, b ∈ l → block_of ar d x b) →
  (∀ a', a' ≠ a → free_in a' l = free_in a' (free_list x)) →
  n = Z.of_nat (length (free_in a l)) → n <= 255 →
  heap_inv (set_hw (a + 8) n (with_free h d x l)) ar big.
Proof.
  intros Ha Hx Hnd Hl Hother -> Hn. set (h' := set_hw _ _ _).
  assert (∀ d', zget (descs h') (d' - 1) = if d =? d' then Some (set_free_list x l) else zget (descs h) (d' - 1)) as Hg.
  { intros d'. exact (with_free_get h d x l d' Hx). }
  assert (∀ a' n' j, span ar big a' n' → 0 <= j < 3 → a' ≠ a ∨ j ≠ 2 → rd32 (hram h') (a' + 4 * j) = rd32 (hram h) (a' + 4 * j)) as Hrd.
  { intros a' n' j Hs Hj Hne. apply rd32_wr32_ne. replace (a + 8) with (a + 4 * 2) by lia.
    apply (headers_apart a 1 a' n'); [by eapply span_ar|done|lia|done|]. destruct Hne; auto. }
  destruct Hinv as [Hk Hsh Hfr Har Hbig Hpg Hex Hdj]. split.
  - apply kmem_inv_set_ram; [done|apply word_bytes_u8].
  - rewrite <- Hsh. exact (with_free_shape h d x l Hx).
  - intros d' x'. rewrite Hg. destruct (Z.eqb_spec d d') as [<-|]; [intros [= <-]; by split|apply Hfr].
  - intros a' d' Ha'. destruct (Har a' d' Ha') as (x' & [Hp Hm Hd Hd1 Hx' Hok'] & Hc).
    assert (arena_hdr h' a' d' (if d =? d' then set_free_list x l else x')) as Hh'.
    { split; [done| | |done| |].
      - rewrite <- Hm. pose proof (Hrd a' 1 0). rewrite Z.add_0_r in *. apply H; [by eapply span_ar|lia|by right].
      - rewrite <- Hd. apply (Hrd a' 1 1); [by eapply span_ar|lia|by right].
      - rewrite Hg. by destruct (d =? d').
      - destruct (Z.eqb_spec d d') as [<-|]; [|done]. rewrite Hx in Hx'. by simplify_eq; destruct Hok'. }
    eexists. split; [exact Hh'|]. destruct (decide (a' = a)) as [->|Hne].
    + rewrite Ha in Ha'. injection Ha' as <-. rewrite Z.eqb_refl. apply rd32_wr32. unfold is_u32; simpl; lia.
    + change (a' + 8) with (a' + 4 * 2) in *. rewrite (Hrd a' 1 2); [|by eapply span_ar|lia|by left]. rewrite Hc.
      destruct (Z.eqb_spec d d') as [<-|]; [|done]. rewrite Hx in Hx'. injection Hx' as <-. simpl. by rewrite Hother.
  - intros a' n' Hb. destruct (Hbig a' n' Hb) as (<- & <- & Hc). pose proof (Hrd a' n') as Hr.
    assert (a' ≠ a) as Hne by (intros ->; pose proof (Hex a (mk_is_Some _ _ Ha)); congruence).
    pose proof (Hr 0) as H0. rewrite Z.add_0_r in H0.
    assert (span ar big a' n') as Hs by by right.
    splits; [apply H0|apply (Hr 1)|rewrite <- Hc; apply (Hr 2)]; (done || lia || by left).
  - done.
  - done.
  - done.
Qed.

End Inv.

(** * Writing a header *)

Definition set_hdr (a d n : Z) (h : heap) : heap :=
  set_hw (a + 8) n (set_hw (a + 4) d (set_hw a ARENA_MAGIC h)).

Lemma set_hdr_words h a d n : is_u32 d → is_u32 n →
  rd32 (hram (set_hdr a d n h)) a = ARENA_MAGIC ∧ rd32 (hram (set_hdr a d n h)) (a + 4) = d ∧
  rd32 (hram (set_hdr a d n h)) (a + 8) = n.
Proof.
  intros Hd Hn. unfold set_hdr, set_hw, hram. cbn [hk ram set_hk set_ram]. splits.
  - rewrite (rd32_wr32_ne _ (a + 8)), (rd32_wr32_ne _ (a + 4)) by lia. by apply rd32_wr32.
  - rewrite (rd32_wr32_ne _ (a + 8)) by lia. by apply rd32_wr32.
  - by apply rd32_wr32.
Qed.

Lemma set_hdr_lookup h a d n c : c < a ∨ a + 12 <= c → hram (set_hdr a d n h) !! c = hram h !! c.
Proof.
  intros Hc. unfold set_hdr, set_hw, hram. cbn [hk ram set_hk set_ram]. unfold wr32.
  by rewrite !put_bytes_ne by (cbn [word_bytes length]; lia).
Qed.

Lemma set_hdr_rd h a d n p : p + 4 <= a ∨ a + 12 <= p → rd32 (hram (set_hdr a d n h)) p = rd32 (hram h) p.
Proof. intros Hp. apply rd32_ext. intros c Hc. apply set_hdr_lookup. lia. Qed.

Lemma set_hdr_km h a d n : kmem_inv (hk h) → kmem_inv (hk (set_hdr a d n h)).
Proof. intros Hi. repeat (apply kmem_inv_set_ram; [|apply word_bytes_u8]). done. Qed.

Lemma init_arena_Ok h a d n : kmem_inv (hk h) → kernel_page (hk h) a →
  init_arena a d n h = Ok ((), set_hdr a d n h).
Proof.
  intros Hi Hp. unfold init_arena.
  rewrite (M_bind_step _ _ _ _ _ (stw_Ok h a _ ltac:(rewrite <- (Z.add_0_r a); by apply header_mapped))).
  assert (mapped (hram (set_hw a ARENA_MAGIC h)) (a + 4) 4) as H4 by (apply mapped_wr32; by apply header_mapped).
  rewrite (M_bind_step _ _ _ _ _ (stw_Ok _ _ d H4)).
  apply stw_Ok. do 2 apply mapped_wr32. by apply header_mapped.
Qed.

(** * Adding and removing spans *)

Section Spans.
Context (h : heap) (ar big : gmap Z Z) (Hinv : heap_inv h ar big).

Lemma ram_inv k :
  kmem_inv k → kernel_pool k = kernel_pool (hk h) →
  (∀ a n j, span ar big a n → 0 <= j < 3 → rd32 (ram k) (a + 4 * j) = rd32 (hram h) (a + 4 * j)) →
  heap_inv (set_hk k h) ar big.
Proof.
  intros Hk Hp Hrd. destruct Hinv as [_ Hsh Hfr Har Hbig Hpg Hex Hdj].
  assert (∀ a n, span ar big a n → rd32 (ram k) a = rd32 (hram h) a ∧
    rd32 (ram k) (a + 4) = rd32 (hram h) (a + 4) ∧ rd32 (ram k) (a + 8) = rd32 (hram h) (a + 8)) as Hw.
  { intros a n Hs. pose proof (Hrd a n 0 Hs) as H0. rewrite Z.add_0_r in H0.
    splits; [apply H0|apply (Hrd a n 1)|apply (Hrd a n 2)]; done || lia. }
  split; try done.
  - intros a d Ha. destruct (Har a d Ha) as (x & [[Hal Hu] Hm Hd Hd1 Hx Hok] & Hc).
    destruct (Hw a 1 (span_ar ar big a d Ha)) as (E0 & E1 & E2). exists x. unfold hram; simpl.
    split; [|by rewrite E2]. split; unfold hram; simpl; try done; [|by rewrite E0|by rewrite E1].
    split; [done|]. by rewrite Hp.
  - intros a n Hb. destruct (Hw a n (or_intror Hb)) as (E0 & E1 & E2). unfold hram; simpl. rewrite E0, E1, E2. by apply Hbig.
  - intros a n Hs. simpl. rewrite Hp. by apply Hpg.
Qed.

(** ** New pages *)

Section Add.
Context (cnt pg : Z) (k : kmem) (Hc : 0 < cnt) (Hg : got_pages (hk h) 0 cnt pg k).

Lemma fresh_span a n : span ar big a n → a + 4096 * n <= pg ∨ pg + 4096 * cnt <= a.
Proof.
  intros Hs. destruct Hg as (_ & _ & _ & Hf & _).
  destruct (hi_pages _ _ _ Hinv a n Hs) as (Hn & _ & _).
  destruct (Z_le_gt_dec (a + 4096 * n) pg); [by left|].
  destruct (Z_le_gt_dec (pg + 4096 * cnt) a); [by right|]. exfalso.
  destruct (Hf (Z.max a pg) ltac:(lia)) as [_ E].
  pose proof (span_in_use h ar big Hinv a n (Z.max a pg) Hs ltac:(lia)) as E'.
  change (get_pool (has 0 PAL_USER) (hk h)) with (kernel_pool (hk h)) in E. congruence.
Qed.

Lemma arena_page_in_use a : in_use (kernel_pool k) a =
  (pg <=? a) && (a <? pg + 4096 * cnt) || in_use (kernel_pool (hk h)) a.
Proof. destruct Hg as (_ & _ & _ & _ & H & _). apply H. Qed.

Lemma got_page_at : kernel_page k pg.
Proof.
  split; [by destruct Hg as (_ & _ & ? & _)|]. rewrite arena_page_in_use. bcases; simpl; done || lia.
Qed.

Lemma got_ram : ram k = hram h.
Proof. by destruct Hg as (_ & _ & _ & _ & _ & _ & ?). Qed.

(** Old headers are not touched by the header of the new pages. *)
Lemma add_rd d n a m j : span ar big a m → 0 <= j < 3 →
  rd32 (hram (set_hdr pg d n (set_hk k h))) (a + 4 * j) = rd32 (hram h) (a + 4 * j).
Proof.
  intros Hs Hj. destruct (hi_pages _ _ _ Hinv a m Hs) as (? & _ & _). pose proof (fresh_span a m Hs).
  rewrite set_hdr_rd by lia. unfold hram; simpl. by rewrite got_ram.
Qed.

Lemma add_rd3 d n a m : span ar big a m → let h' := set_hdr pg d n (set_hk k h) in
  rd32 (hram h') a = rd32 (hram h) a ∧ rd32 (hram h') (a + 4) = rd32 (hram h) (a + 4) ∧
  rd32 (hram h') (a + 8) = rd32 (hram h) (a + 8).
Proof.
  intros Hs h'. pose proof (add_rd d n a m 0 Hs) as H0. rewrite Z.add_0_r in H0.
  splits; [apply H0|apply (add_rd d n a m 1 Hs)|apply (add_rd d n a m 2 Hs)]; lia.
Qed.

Lemma add_in_use a : in_use (kernel_pool (hk h)) a = true → in_use (kernel_pool k) a = true.
Proof. intros E. by rewrite arena_page_in_use, E, orb_true_r. Qed.

Lemma new_page_in_use i : 0 <= i < cnt → in_use (kernel_pool k) (pg + 4096 * i) = true.
Proof. intros Hi. rewrite arena_page_in_use. bcases; simpl; done || lia. Qed.

Lemma fresh_ar : ar !! pg = None ∧ big !! pg = None.
Proof.
  assert (∀ n, ¬ span ar big pg n) as Hn.
  { intros n Hs. destruct (hi_pages _ _ _ Hinv pg n Hs) as (? & _ & _). pose proof (fresh_span pg n Hs). lia. }
  split.
  - destruct (ar !! pg) eqn:E; [|done]. destruct (Hn 1). by eapply span_ar.
  - destruct (big !! pg) as [n|] eqn:E; [|done]. destruct (Hn n). by right.
Qed.

(** Disjointness with one more span. *)
Lemma add_disj (P : Z → Z → Prop) :
  (∀ a n, P a n → span ar big a n ∨ (a = pg ∧ n = cnt)) →
  ∀ a n a' n', P a n → P a' n' → a ≠ a' → a + 4096 * n <= a' ∨ a' + 4096 * n' <= a.
Proof.
  intros HP a n a' n' H1%HP H2%HP Hne.
  destruct H1 as [H1|[-> ->]], H2 as [H2|[-> ->]]; try done.
  - by apply (hi_disj _ _ _ Hinv).
  - by apply fresh_span.
  - apply fresh_span in H2. lia.
Qed.

End Add.
End Spans.
