(* ===== verification/MallocSafety.v ===== *)
(** Correctness of [malloc] and [free] (threads/malloc.c): blocks handed out
    are large enough, disjoint from all others, and keep their contents;
    freeing a block takes back that block only. *)
From S2P Require Import Prelude Mem Str Word Bitmap FreeMap Vaddr Palloc Malloc MallocInv MallocOps.

(** * The blocks of one arena *)

Lemma blocks_elem a bs n b : b ∈ blocks a bs 0 n ↔ ∃ idx, 0 <= idx < Z.of_nat n ∧ b = block_at a bs idx.
Proof.
  unfold blocks. rewrite list_elem_of_fmap. split.
  - intros (i & -> & Hi%elem_of_seqZ). exists i. split; [lia|done].
  - intros (i & Hi & ->). exists i. split; [done|]. apply elem_of_seqZ. lia.
Qed.

Lemma blocks_NoDup x a n : desc_ok x → NoDup (blocks a (block_size x) 0 n).
Proof.
  intros Hx. apply NoDup_fmap_2_strong; [|apply NoDup_seqZ]. intros i j _ _ E. by eapply block_at_inj.
Qed.

Lemma free_in_blocks x a a' : desc_ok x → a mod 4096 = 0 →
  free_in a' (blocks a (block_size x) 0 (Z.to_nat (blocks_per_arena x))) =
    if decide (a' = a) then blocks a (block_size x) 0 (Z.to_nat (blocks_per_arena x)) else [].
Proof.
  intros Hx Ha. assert (∀ b, b ∈ blocks a (block_size x) 0 (Z.to_nat (blocks_per_arena x)) → arena_of b = a) as Hb.
  { intros b (idx & Hi & ->)%blocks_elem. pose proof (do_cnt _ Hx). apply block_arena; [done..|lia]. }
  unfold free_in. case_decide as Hd.
  - subst. by apply filter_all.
  - destruct (filter _ _) as [|b l] eqn:E; [done|]. exfalso.
    assert (b ∈ b :: l) as Hin by left. rewrite <- E in Hin. apply list_elem_of_filter in Hin as [Hab Hin].
    rewrite Hb in Hab by done. by subst.
Qed.

Section Arena.
Context (h : heap) (ar big : gmap Z Z) (Hinv : heap_inv h ar big).
Context (d : Z) (x : desc) (Hx : zget (descs h) (d - 1) = Some x) (Hd : 1 <= d <= 7).

Let Hok : desc_ok x := desc_facts h ar big Hinv d x Hx.

(** The free blocks of an arena are among its blocks. *)
Lemma free_in_count a l : NoDup l → (∀ b, b ∈ l → block_of ar d x b) →
  Z.of_nat (length (free_in a l)) <= blocks_per_arena x ∧
  (Z.of_nat (length (free_in a l)) = blocks_per_arena x → a mod 4096 = 0 →
   ∀ b, b ∈ blocks a (block_size x) 0 (Z.to_nat (blocks_per_arena x)) → b ∈ l).
Proof.
  intros Hnd Hl. pose proof (do_cnt _ Hok).
  set (bl := blocks a (block_size x) 0 (Z.to_nat (blocks_per_arena x))).
  assert (length bl = Z.to_nat (blocks_per_arena x)) as Hlen.
  { unfold bl, blocks. rewrite length_fmap, length_seqZ. lia. }
  assert (free_in a l ⊆+ bl) as Hsub.
  { apply NoDup_submseteq; [by apply NoDup_filter|]. intros b [Ha Hb]%list_elem_of_filter.
    destruct (block_of_facts h ar big Hinv d x b Hx (Hl b Hb)) as (_ & idx & Hi & E). rewrite E, Ha.
    apply blocks_elem. exists idx. split; [lia|done]. }
  pose proof (submseteq_length _ _ Hsub) as Hle. split; [lia|]. intros Heq _ b Hb.
  assert (free_in a l ≡ₚ bl) as Hp by (apply submseteq_length_Permutation; [done|lia]).
  rewrite <- Hp in Hb. by apply list_elem_of_filter in Hb as [_ ?].
Qed.

(** ** A new arena *)

Context (Hempty : free_list x = []) (pg : Z) (k : kmem) (Hg : got_pages (hk h) 0 1 pg k).

Let fresh := blocks pg (block_size x) 0 (Z.to_nat (blocks_per_arena x)).
Let h1 := set_hdr pg d (blocks_per_arena x) (set_hk k h).
Let h2 := with_free h1 d x fresh.

Lemma new_arena_page : kernel_page (hk h2) pg.
Proof. exact (got_page_at h 1 pg k ltac:(lia) Hg). Qed.

Lemma new_arena_hdr : arena_hdr h1 pg d x.
Proof.
  pose proof (do_cnt _ Hok).
  destruct (set_hdr_words (set_hk k h) pg d (blocks_per_arena x)) as (H0 & H4 & H8);
    [unfold is_u32; lia|unfold is_u32; lia|].
  split; try done; try lia. apply new_arena_page.
Qed.

Lemma new_arena_fresh : ar !! pg = None ∧ big !! pg = None.
Proof. exact (fresh_ar h ar big Hinv 1 pg k ltac:(lia) Hg). Qed.

Lemma block_of_insert d' x' b : block_of ar d' x' b → block_of (<[pg := d]> ar) d' x' b.
Proof.
  intros (a & idx & Ha & Hi). exists a, idx. split; [|done].
  rewrite lookup_insert_ne; [done|]. intros <-. destruct new_arena_fresh. congruence.
Qed.

Lemma new_arena_desc d' : zget (descs h2) (d' - 1) =
  if d =? d' then Some (set_free_list x fresh) else zget (descs h) (d' - 1).
Proof. exact (with_free_get h1 d x fresh d' Hx). Qed.

Lemma new_arena_inv : heap_inv h2 (<[pg := d]> ar) big.
Proof.
  pose proof new_arena_page as [Hal _]. pose proof new_arena_fresh as [Hna Hnb]. pose proof (do_cnt _ Hok).
  assert (∀ a n, span (<[pg := d]> ar) big a n → span ar big a n ∨ (a = pg ∧ n = 1)) as Hspan.
  { intros a n [[-> Ha]|Hb]; [|by left; right]. destruct (decide (a = pg)) as [->|]; [by right|].
    left. left. by rewrite lookup_insert_ne in Ha. }
  destruct (set_hdr_words (set_hk k h) pg d (blocks_per_arena x)) as (H0 & H4 & H8); [unfold is_u32; lia..|].
  split.
  - apply set_hdr_km. by destruct Hg as (_ & ? & _).
  - rewrite <- (hi_shape _ _ _ Hinv). exact (with_free_shape h1 d x fresh Hx).
  - intros d' x'. rewrite new_arena_desc. destruct (Z.eqb_spec d d') as [<-|].
    + intros [= <-]. split; [by apply blocks_NoDup|]. intros b (idx & Hi & ->)%blocks_elem.
      exists pg, idx. rewrite lookup_insert_eq. simpl. splits; try done; lia.
    + intros Hx'. destruct (hi_free _ _ _ Hinv d' x' Hx') as [? Hb]. split; [done|].
      intros b Hin. by apply block_of_insert, Hb.
  - intros a d' Ha. destruct (decide (a = pg)) as [->|Hne].
    + rewrite lookup_insert_eq in Ha. injection Ha as <-. exists (set_free_list x fresh).
      split; [by apply arena_hdr_with_free, new_arena_hdr|].
      simpl. unfold fresh. rewrite free_in_blocks, decide_True by done.
      unfold blocks. rewrite length_fmap, length_seqZ, Nat2Z.id, Z2Nat.id by lia. exact H8.
    + rewrite lookup_insert_ne in Ha by done. destruct (hi_arena _ _ _ Hinv a d' Ha) as (x' & [[? Hu] Hm Hdd ? Hx' ?] & Hc).
      destruct (add_rd3 h ar big Hinv 1 pg k Z.lt_0_1 Hg d (blocks_per_arena x) a 1 (span_ar ar big a d' Ha)) as (E0 & E1 & E2).
      fold h1 in E0, E1, E2. exists (if d =? d' then set_free_list x fresh else x'). split.
      * split; try done; [|by rewrite <- Hm|by rewrite <- Hdd|rewrite new_arena_desc; by destruct (d =? d')|].
        -- split; [done|]. by apply (add_in_use h 1 pg k Hg).
        -- destruct (Z.eqb_spec d d'); [|done]. by destruct Hok.
      * change (hram h2) with (hram h1). rewrite E2, Hc. destruct (Z.eqb_spec d d') as [<-|]; [|done].
        rewrite Hx in Hx'. injection Hx' as <-. rewrite Hempty. simpl. unfold fresh.
        by rewrite free_in_blocks, decide_False.
  - intros a n Hb. destruct (add_rd3 h ar big Hinv 1 pg k Z.lt_0_1 Hg d (blocks_per_arena x) a n (or_intror Hb)) as (E0 & E1 & E2).
    fold h1 in E0, E1, E2. change (hram h2) with (hram h1). rewrite E0, E1, E2. by apply (hi_big _ _ _ Hinv).
  - intros a n [Hs|[-> ->]]%Hspan.
    + destruct (hi_pages _ _ _ Hinv a n Hs) as (? & ? & Hu). splits; try done. intros i Hi.
      by apply (add_in_use h 1 pg k Hg), Hu.
    + splits; [done|done|]. intros i Hi. by apply (new_page_in_use h 1 pg k Z.lt_0_1 Hg).
  - intros a [d' Ha]. destruct (decide (a = pg)) as [->|]; [done|].
    rewrite lookup_insert_ne in Ha by done. by apply (hi_excl _ _ _ Hinv).
  - by apply (add_disj h ar big Hinv 1 pg k).
Qed.

Lemma new_arena_live b sz : live h2 (<[pg := d]> ar) big b sz ↔ live h ar big b sz.
Proof.
  pose proof new_arena_page as [Hal _]. pose proof (do_cnt _ Hok). unfold live.
  apply or_iff_compat_r. split; intros (d' & x' & Hx' & Hb & Hn & ->).
  - rewrite new_arena_desc in Hx'. destruct Hb as (a & idx & Ha & Hi & ->).
    destruct (decide (a = pg)) as [->|Hne].
    + rewrite lookup_insert_eq in Ha. injection Ha as <-. rewrite Z.eqb_refl in Hx'. injection Hx' as <-.
      destruct Hn. apply blocks_elem. exists idx. simpl in *. split; [lia|done].
    + rewrite lookup_insert_ne in Ha by done. destruct (Z.eqb_spec d d') as [<-|].
      * injection Hx' as <-. exists d, x. splits; try done; [by exists a, idx|]. rewrite Hempty. apply not_elem_of_nil.
      * exists d', x'. splits; try done. by exists a, idx.
  - destruct (Z.eqb_spec d d') as [<-|Hne].
    + rewrite Hx in Hx'. injection Hx' as <-. exists d, (set_free_list x fresh).
      rewrite new_arena_desc, Z.eqb_refl. splits; [done|by apply block_of_insert| |done].
      simpl. intros (idx & Hi & ->)%blocks_elem. destruct Hb as (a & idx' & Ha & Hi' & E).
      assert (a = pg) as ->; [|destruct new_arena_fresh; congruence].
      destruct (span_page h ar big Hinv a 1 (span_ar ar big a d Ha)) as [Haa _].
      destruct (block_arena x a idx' Hok Haa Hi') as [<- _]. rewrite <- E. apply block_arena; [done..|lia].
    + exists d', x'. rewrite new_arena_desc. destruct (Z.eqb_spec d d'); [done|]. splits; try done.
      by apply block_of_insert.
Qed.

End Arena.

(** * Big blocks *)

Section Big.
Context (h : heap) (ar big : gmap Z Z) (Hinv : heap_inv h ar big).
Context (cnt pg : Z) (k : kmem) (Hc : 0 < cnt) (Hu : is_u32 cnt) (Hg : got_pages (hk h) 0 cnt pg k).

Let h1 := set_hdr pg NULL cnt (set_hk k h).

Lemma new_big_inv : heap_inv h1 ar (<[pg := cnt]> big).
Proof.
  destruct (fresh_ar h ar big Hinv cnt pg k Hc Hg) as [Hna Hnb].
  assert (∀ a n, span ar (<[pg := cnt]> big) a n → span ar big a n ∨ (a = pg ∧ n = cnt)) as Hspan.
  { intros a n [[-> Ha]|Hb]; [by left; left|]. destruct (decide (a = pg)) as [->|].
    - rewrite lookup_insert_eq in Hb. injection Hb as <-. by right.
    - left. right. by rewrite lookup_insert_ne in Hb. }
  destruct (set_hdr_words (set_hk k h) pg NULL cnt) as (H0 & H4 & H8); [by unfold is_u32|done|].
  split.
  - apply set_hdr_km. by destruct Hg as (_ & ? & _).
  - apply Hinv.
  - exact (hi_free _ _ _ Hinv).
  - intros a d Ha. destruct (hi_arena _ _ _ Hinv a d Ha) as (x & [[? Hup] Hm Hdd ? Hx ?] & Hcc).
    destruct (add_rd3 h ar big Hinv cnt pg k Hc Hg NULL cnt a 1 (span_ar ar big a d Ha)) as (E0 & E1 & E2).
    exists x. split; [|by rewrite <- Hcc]. split; try done; [|by rewrite <- Hm|by rewrite <- Hdd].
    split; [done|]. by apply (add_in_use h cnt pg k Hg).
  - intros a n Hb. destruct (decide (a = pg)) as [->|].
    + rewrite lookup_insert_eq in Hb. injection Hb as <-. done.
    + rewrite lookup_insert_ne in Hb by done.
      destruct (add_rd3 h ar big Hinv cnt pg k Hc Hg NULL cnt a n (or_intror Hb)) as (E0 & E1 & E2).
      unfold h1. rewrite E0, E1, E2. by apply (hi_big _ _ _ Hinv).
  - intros a n [Hs|[-> ->]]%Hspan.
    + destruct (hi_pages _ _ _ Hinv a n Hs) as (? & ? & Hup). splits; try done. intros i Hi.
      by apply (add_in_use h cnt pg k Hg), Hup.
    + splits; [done|by destruct Hg as (_ & _ & ? & _)|]. intros i Hi. by apply (new_page_in_use h cnt pg k Hc Hg).
  - intros a Ha. rewrite lookup_insert_ne; [by apply (hi_excl _ _ _ Hinv)|].
    intros <-. destruct Ha as [d Ha]. congruence.
  - by apply (add_disj h ar big Hinv cnt pg k).
Qed.

Lemma new_big_live b sz :
  live h1 ar (<[pg := cnt]> big) b sz ↔ live h ar big b sz ∨ (b = pg + 12 ∧ sz = 4096 * cnt - 12).
Proof.
  destruct (fresh_ar h ar big Hinv cnt pg k Hc Hg) as [Hna Hnb]. unfold live. split.
  - intros [H|(a & n & Ha & -> & ->)]; [by left; left|]. destruct (decide (a = pg)) as [->|].
    + rewrite lookup_insert_eq in Ha. injection Ha as <-. by right.
    + rewrite lookup_insert_ne in Ha by done. left. right. eauto.
  - intros [[H|(a & n & Ha & -> & ->)]|[-> ->]]; [by left| |].
    + right. exists a, n. rewrite lookup_insert_ne; [done|]. intros <-. congruence.
    + right. exists pg, cnt. by rewrite lookup_insert_eq.
Qed.

End Big.

(** * Returning a span to the page allocator *)

Section Del.
Context (h : heap) (ar big : gmap Z Z) (Hinv : heap_inv h ar big).
Context (a0 n0 : Z) (Hs0 : span ar big a0 n0) (k : kmem) (ds : list desc) (ar' big' : gmap Z Z).
Context (Hk : kmem_inv k)
  (Huse : ∀ a, in_use (kernel_pool k) a =
     negb ((a0 <=? a) && (a <? a0 + 4096 * n0)) && in_use (kernel_pool (hk h)) a)
  (Hram : ram k = put_bytes a0 (replicate (Z.to_nat (4096 * n0)) 204) (hram h)).
Context (Hsh : desc_shape <$> ds = desc_table)
  (Hfree : ∀ d x, zget ds (d - 1) = Some x → NoDup (free_list x) ∧ ∀ b, b ∈ free_list x → block_of ar' d x b)
  (Hin : ∀ d x, zget (descs h) (d - 1) = Some x → ∃ x', zget ds (d - 1) = Some x' ∧
     ∀ a, a ≠ a0 → free_in a (free_list x') = free_in a (free_list x))
  (Har : ∀ a d, ar' !! a = Some d ↔ ar !! a = Some d ∧ a ≠ a0)
  (Hbig : ∀ a n, big' !! a = Some n ↔ big !! a = Some n ∧ a ≠ a0).

Lemma del_span a n : span ar' big' a n → span ar big a n ∧ a ≠ a0.
Proof.
  intros [[-> [d Ha]]|Hb].
  - apply Har in Ha as [Ha Hne]. split; [by eapply span_ar|done].
  - apply Hbig in Hb as [Hb Hne]. split; [by right|done].
Qed.

Lemma del_apart a n : span ar' big' a n → a + 4096 * n <= a0 ∨ a0 + 4096 * n0 <= a.
Proof. intros [Hs Hne]%del_span. by apply (hi_disj _ _ _ Hinv). Qed.

Lemma del_lookup c : c < a0 ∨ a0 + 4096 * n0 <= c → ram k !! c = hram h !! c.
Proof.
  destruct (hi_pages _ _ _ Hinv a0 n0 Hs0) as (? & _ & _). intros Hcc.
  rewrite Hram, put_bytes_ne; [done|]. rewrite length_replicate. lia.
Qed.

Lemma del_rd a n o : span ar' big' a n → 0 <= o <= 8 → rd32 (ram k) (a + o) = rd32 (hram h) (a + o).
Proof.
  intros Hs Ho. pose proof (del_apart a n Hs). apply del_span in Hs as [Hs _].
  destruct (hi_pages _ _ _ Hinv a n Hs) as (? & _ & _).
  apply rd32_ext. intros c Hcc. apply del_lookup. lia.
Qed.

Lemma del_rd0 a n : span ar' big' a n → rd32 (ram k) a = rd32 (hram h) a.
Proof. intros Hs. pose proof (del_rd a n 0 Hs ltac:(lia)) as E. by rewrite Z.add_0_r in E. Qed.

Lemma del_inv : heap_inv (mkHeap k ds) ar' big'.
Proof.
  split; try done.
  - intros a d Ha'. pose proof Ha' as [Ha Hne]%Har. pose proof (span_ar ar' big' a d Ha') as Hs.
    destruct (hi_arena _ _ _ Hinv a d Ha) as (x & [Hpg Hm Hdd ? Hx ?] & Hcc).
    destruct (Hin d x Hx) as (x' & Hx' & Hfi). exists x'. unfold hram; simpl.
    split; [|by rewrite (del_rd a 1), Hcc, Hfi by (done || lia)].
    split; unfold hram; simpl; try done.
    + destruct Hpg as [? Hu]. split; [done|]. simpl. rewrite Huse, Hu, andb_true_r. pose proof (del_apart a 1 Hs).
      destruct (hi_pages _ _ _ Hinv a0 n0 Hs0) as (? & _ & _). bcases; simpl; done || lia.
    + by rewrite (del_rd0 a 1).
    + by rewrite (del_rd a 1) by (done || lia).
    + by eapply shape_desc_ok.
  - intros a n Hb'. pose proof (or_intror Hb' : span ar' big' a n) as Hs. pose proof Hb' as [Hb _]%Hbig.
    unfold hram; simpl. rewrite (del_rd0 a n), !(del_rd a n) by (done || lia). by apply (hi_big _ _ _ Hinv).
  - intros a n Hs'. pose proof Hs' as [Hs Hne]%del_span. pose proof (del_apart a n Hs').
    destruct (hi_pages _ _ _ Hinv a n Hs) as (? & ? & Hu). splits; try done. intros i Hi. simpl.
    rewrite Huse, Hu, andb_true_r by done. destruct (hi_pages _ _ _ Hinv a0 n0 Hs0) as (? & _ & _).
    bcases; simpl; done || lia.
  - intros a [d Ha]. apply Har in Ha as [Ha _]. destruct (big' !! a) as [n|] eqn:E; [|done].
    apply Hbig in E as [E _]. pose proof (hi_excl _ _ _ Hinv a (mk_is_Some _ _ Ha)). congruence.
  - intros a n a' n' [Hs _]%del_span [Hs' _]%del_span. by apply (hi_disj _ _ _ Hinv).
Qed.

End Del.
