(* ===== verification/MallocCorrect.v ===== *)
(** [malloc], [calloc], [realloc] and [free] against the set of live blocks. *)
From S2P Require Import Prelude Mem Str Word Bitmap FreeMap Vaddr Palloc Malloc MallocInv MallocOps MallocSafety.

(** The bytes of live blocks are the same in both heaps. *)
Definition keeps (L : Z → Z → Prop) (h h' : heap) : Prop :=
  ∀ b sz c, L b sz → b <= c < b + sz → hram h' !! c = hram h !! c.

Section Live.
Context (h : heap) (ar big : gmap Z Z) (Hinv : heap_inv h ar big).

(** A live block lies in a span, behind its header. *)
Lemma live_span b sz : live h ar big b sz →
  ∃ a n, span ar big a n ∧ a + 12 <= b ∧ b + sz <= a + 4096 * n ∧ 0 < sz ∧ arena_of b = a.
Proof.
  intros [(d & x & Hx & Hb & _ & ->)|(a & n & Ha & -> & ->)].
  - pose proof (desc_facts h ar big Hinv d x Hx) as Hok. destruct Hb as (a & idx & Ha & Hi & ->).
    exists a, 1. pose proof (block_at_in x a idx Hok Hi). pose proof (do_size _ Hok).
    destruct (span_page h ar big Hinv a 1 (span_ar ar big a d Ha)) as [Hal _].
    destruct (block_arena x a idx Hok Hal Hi) as [-> _]. splits; try lia. by eapply span_ar.
  - exists a, n. pose proof (or_intror Ha : span ar big a n) as Hs.
    destruct (hi_pages _ _ _ Hinv a n Hs) as (? & Hal & _).
    destruct (arena_of_in a (a + 12) Hal) as [-> _]; [lia|]. splits; done || lia.
Qed.

(** Different live blocks do not overlap. *)
Lemma live_disjoint b sz b' sz' : live h ar big b sz → live h ar big b' sz' → b ≠ b' →
  b + sz <= b' ∨ b' + sz' <= b.
Proof.
  intros HL HL' Hne. destruct (live_span b sz HL) as (a & n & Hs & ? & ? & ? & Hb).
  destruct (live_span b' sz' HL') as (a' & n' & Hs' & ? & ? & ? & Hb').
  destruct (decide (a = a')) as [<-|Hna]; [|pose proof (hi_disj _ _ _ Hinv a n a' n' Hs Hs' Hna); lia].
  destruct HL as [(d & x & Hx & (a1 & idx & Ha & Hi & E) & _ & ->)|(a1 & n1 & Ha & -> & ->)],
    HL' as [(d' & x' & Hx' & (a1' & idx' & Ha' & Hi' & E') & _ & ->)|(a1' & n1' & Ha' & -> & ->)].
  - destruct (block_of_facts h ar big Hinv d x b Hx) as (Ea & _); [by exists a1, idx|].
    destruct (block_of_facts h ar big Hinv d' x' b' Hx') as (Ea' & _); [by exists a1', idx'|].
    rewrite Hb in Ea. rewrite Hb' in Ea'. assert (d = d') as <- by congruence.
    rewrite Hx in Hx'. injection Hx' as <-. pose proof (desc_facts h ar big Hinv d x Hx) as Hok.
    destruct (span_page h ar big Hinv a1 1 (span_ar ar big a1 d Ha)) as [Hal _].
    destruct (span_page h ar big Hinv a1' 1 (span_ar ar big a1' d Ha')) as [Hal' _].
    destruct (block_arena x a1 idx Hok Hal Hi) as [Eb _]. destruct (block_arena x a1' idx' Hok Hal' Hi') as [Eb' _].
    rewrite <- E in Eb. rewrite <- E' in Eb'. assert (a1 = a1') as <- by congruence.
    subst b b'. by apply block_at_apart.
  - exfalso. destruct (block_of_facts h ar big Hinv d x b Hx) as (Ea & _); [by exists a1, idx|].
    destruct (arena_of_in a1' (a1' + 12)) as [Eb _]; [by apply (hi_pages _ _ _ Hinv a1' n1' (or_intror Ha'))|lia|].
    rewrite Hb in Ea. pose proof (hi_excl _ _ _ Hinv a (mk_is_Some _ _ Ea)). congruence.
  - exfalso. destruct (block_of_facts h ar big Hinv d' x' b' Hx') as (Ea & _); [by exists a1', idx'|].
    destruct (arena_of_in a1 (a1 + 12)) as [Eb _]; [by apply (hi_pages _ _ _ Hinv a1 n1 (or_intror Ha))|lia|].
    rewrite Hb' in Ea. pose proof (hi_excl _ _ _ Hinv a (mk_is_Some _ _ Ea)). congruence.
  - destruct (arena_of_in a1 (a1 + 12)) as [Eb _]; [by apply (hi_pages _ _ _ Hinv a1 n1 (or_intror Ha))|lia|].
    destruct (arena_of_in a1' (a1' + 12)) as [Eb' _]; [by apply (hi_pages _ _ _ Hinv a1' n1' (or_intror Ha'))|lia|].
    congruence.
Qed.

(** Writes to headers, and to a span that holds no live block, keep live
    blocks. *)
Lemma keeps_header h' a n :
  span ar big a n → (∀ c, c < a ∨ a + 12 <= c → hram h' !! c = hram h !! c) → keeps (live h ar big) h h'.
Proof.
  intros Hs Hc b sz c HL Hr. destruct (live_span b sz HL) as (a' & n' & Hs' & ? & ? & ? & _). apply Hc.
  destruct (decide (a' = a)) as [->|Hne]; [lia|].
  pose proof (hi_disj _ _ _ Hinv a' n' a n Hs' Hs Hne).
  destruct (hi_pages _ _ _ Hinv a n Hs) as (? & _ & _). lia.
Qed.

(** A free block is not live. *)
Lemma free_not_live d x b sz : zget (descs h) (d - 1) = Some x → b ∈ free_list x → ¬ live h ar big b sz.
Proof.
  intros Hx Hb. destruct (hi_free _ _ _ Hinv d x Hx) as [_ Hbl].
  destruct (block_of_facts h ar big Hinv d x b Hx (Hbl b Hb)) as (Ea & _).
  intros [(d' & x' & Hx' & Hbo & Hn & _)|(a & n & Ha & -> & _)].
  - destruct (block_of_facts h ar big Hinv d' x' b Hx' Hbo) as (Ea' & _). assert (d = d') as <- by congruence.
    rewrite Hx in Hx'. injection Hx' as <-. done.
  - destruct (arena_of_in a (a + 12)) as [Eb _]; [by apply (hi_pages _ _ _ Hinv a n (or_intror Ha))|lia|].
    rewrite Eb in Ea. pose proof (hi_excl _ _ _ Hinv a (mk_is_Some _ _ Ea)). congruence.
Qed.

End Live.

(** * Taking a block *)

Definition take (d : Z) : HM Z :=
  b ← pop_block d; a ← block_to_arena b; n ← a_free_cnt a; set_free_cnt a (u32 (n - 1));; mret b.

Lemma take_Ok h ar big d x b l :
  heap_inv h ar big → zget (descs h) (d - 1) = Some x → free_list x = b :: l →
  ∃ h', take d h = Ok (b, h') ∧ heap_inv h' ar big ∧
    (∀ b' sz, live h' ar big b' sz ↔ live h ar big b' sz ∨ (b' = b ∧ sz = block_size x)) ∧
    keeps (live h ar big) h h'.
Proof.
  intros Hinv Hx Hl. destruct (hi_free _ _ _ Hinv d x Hx) as [Hnd Hbl]. rewrite Hl in Hnd, Hbl.
  apply NoDup_cons in Hnd as [Hnin Hnd].
  assert (block_of ar d x b) as Hb by (apply Hbl; left).
  destruct (block_of_facts h ar big Hinv d x b Hx Hb) as (Ha & idx & Hi & Eb). set (a := arena_of b) in *.
  pose proof (arena_hdr_at h ar big Hinv a d x Ha Hx) as Hh.
  destruct (hi_arena _ _ _ Hinv a d Ha) as (x' & Hh' & Hcnt).
  assert (x' = x) as -> by (pose proof (ah_get _ _ _ _ Hh'); congruence).
  assert (length (free_in a (free_list x)) = S (length (free_in a l))) as Hlen.
  { rewrite Hl. unfold free_in. by rewrite filter_cons_True. }
  destruct (free_in_count h ar big Hinv d x Hx a (free_list x)) as [Hle _]; [by rewrite Hl; constructor|by rewrite Hl|].
  pose proof (do_cnt _ (desc_facts h ar big Hinv d x Hx)).
  set (n := Z.of_nat (length (free_in a l))). set (h1 := with_free h d x l).
  assert (arena_hdr h1 a d (set_free_list x l)) as Hh1 by by apply arena_hdr_with_free.
  exists (set_hw (a + 8) n h1). splits.
  - unfold take. rewrite (M_bind_step _ _ h b h1).
    2: { unfold pop_block. rewrite (get_desc_step _ _ x) by done. rewrite Hl.
         by rewrite (M_bind_step _ _ _ _ _ (put_desc_Ok h d x l Hx)). }
    rewrite (M_bind_step _ _ h1 a h1).
    2: { rewrite Eb. by apply (block_to_arena_Ok h1 a d (set_free_list x l)); [apply Hinv| |]. }
    unfold a_free_cnt. rewrite ldw_step by (apply (header_facts h ar big Hinv a 1); [by eapply span_ar|lia]).
    change (hram h1) with (hram h). rewrite Hcnt, Hlen.
    unfold set_free_cnt. replace (u32 (Z.of_nat (S (length (free_in a l))) - 1)) with n by (rewrite u32_small; unfold n; lia).
    rewrite (M_bind_step _ _ h1 () (set_hw (a + 8) n h1)); [done|].
    apply stw_Ok. apply (header_facts h ar big Hinv a 1); [by eapply span_ar|lia].
  - eapply set_count_inv; try done; [|intros a' Hne|unfold n; lia].
    + intros b' Hb'. apply Hbl. by right.
    + rewrite Hl. unfold free_in. by rewrite filter_cons_False.
  - intros b' sz. pose proof (with_free_get h d x l) as Hg. unfold live.
    change (descs (set_hw (a + 8) n h1)) with (descs h1). split.
    + intros [(d' & x' & Hx' & Hbo & Hn & ->)|H']; [|by left; right]. unfold h1 in Hx'. rewrite Hg in Hx' by done.
      destruct (Z.eqb_spec d d') as [<-|]; [|by left; left; eauto 10]. injection Hx' as <-. simpl in *.
      destruct (decide (b' = b)) as [->|Hne]; [by right|]. left. left. exists d, x. splits; try done.
      rewrite Hl. by apply not_elem_of_cons.
    + intros [[(d' & x' & Hx' & Hbo & Hn & ->)|H']|[-> ->]]; [|by right|].
      * left. exists d', (if d =? d' then set_free_list x l else x'). unfold h1. rewrite Hg by done.
        destruct (Z.eqb_spec d d') as [<-|]; [|done]. rewrite Hx in Hx'. injection Hx' as <-. splits; try done.
        rewrite Hl in Hn. by apply not_elem_of_cons in Hn as [_ ?].
      * left. exists d, (set_free_list x l). unfold h1. rewrite Hg, Z.eqb_refl by done. splits; done.
  - apply (keeps_header h ar big Hinv _ a 1); [by eapply span_ar|]. intros c Hc.
    unfold hram; simpl. apply put_bytes_ne. simpl. lia.
Qed.

(** * Refilling a descriptor *)

Lemma set_hk_same h : set_hk (hk h) h = h.
Proof. by destruct h. Qed.

Lemma refill_cases h ar big d x :
  heap_inv h ar big → 1 <= d <= 7 → zget (descs h) (d - 1) = Some x →
  (∃ h' ar' x', refill d h = Ok (true, h') ∧ heap_inv h' ar' big ∧
     zget (descs h') (d - 1) = Some x' ∧ block_size x' = block_size x ∧ free_list x' ≠ [] ∧
     (∀ b sz, live h' ar' big b sz ↔ live h ar big b sz) ∧ keeps (live h ar big) h h') ∨
  refill d h = Ok (false, h).
Proof.
  intros Hinv Hd Hx. unfold refill, palloc_get_page. rewrite (get_desc_step _ _ x) by done.
  destruct (free_list x) as [|b l] eqn:Hl.
  2: { left. exists h, ar, x. splits; try done. by rewrite Hl. }
  destruct (palloc_got_pages (hk h) 0 1 (hi_km _ _ _ Hinv) eq_refl ltac:(lia)) as [(pg & k & E & Hg)|E].
  2: { right. rewrite (M_bind_step _ _ h NULL h); [done|].
       rewrite (on_hk_Ok _ _ _ _ E). by rewrite set_hk_same. }
  left. pose proof (desc_facts h ar big Hinv d x Hx) as Hok. pose proof (do_cnt _ Hok).
  pose proof (new_arena_hdr h ar big Hinv d x Hx Hd pg k Hg) as Hh1.
  set (h1 := set_hdr pg d (blocks_per_arena x) (set_hk k h)) in *.
  set (fresh := blocks pg (block_size x) 0 (Z.to_nat (blocks_per_arena x))).
  exists (with_free h1 d x fresh), (<[pg := d]> ar), (set_free_list x fresh). splits.
  - rewrite (M_bind_step _ _ _ _ _ (on_hk_Ok _ _ _ _ E)).
    destruct (Z.eqb_spec pg NULL) as [Hn|_]; [by destruct Hg|].
    rewrite (M_bind_step _ _ _ _ _ (init_arena_Ok (set_hk k h) pg d (blocks_per_arena x)
      ltac:(by destruct Hg as (_ & ? & _)) (got_page_at h 1 pg k ltac:(lia) Hg))).
    fold h1. rewrite (M_bind_step _ _ h1 () (with_free h1 d x fresh)); [done|].
    rewrite (push_blocks_Ok _ h1 pg d x 0); [by rewrite Hl| |done|lia|lia].
    apply set_hdr_km. by destruct Hg as (_ & ? & _).
  - by apply new_arena_inv.
  - rewrite (with_free_get h1 d x fresh d Hx). by rewrite Z.eqb_refl.
  - done.
  - simpl. unfold fresh. destruct (Z.to_nat (blocks_per_arena x)) eqn:En; [lia|]. by rewrite blocks_S.
  - intros b sz. by apply new_arena_live.
  - intros b sz c HL Hc. destruct (live_span h ar big Hinv b sz HL) as (a & n & Hs & ? & ? & ? & _).
    pose proof (fresh_span h ar big Hinv 1 pg k Z.lt_0_1 Hg a n Hs).
    change (hram (with_free h1 d x fresh)) with (hram h1). unfold h1. rewrite set_hdr_lookup by lia.
    unfold hram; simpl. by rewrite (got_ram h 1 pg k Hg).
Qed.

(** * Choosing a descriptor *)

Lemma find_desc_spec ds size i :
  i <= find_desc ds size i <= i + Z.of_nat (length ds) ∧
  (find_desc ds size i < i + Z.of_nat (length ds) →
   ∃ x, zget ds (find_desc ds size i - i) = Some x ∧ size <= block_size x).
Proof.
  revert i. induction ds as [|d ds IH]; intros i; cbn [find_desc length]; [lia|].
  destruct (Z.leb_spec size (block_size d)).
  - split; [lia|]. intros _. exists d. by rewrite Z.sub_diag.
  - destruct (IH (i + 1)) as [Hr Hx]. split; [lia|]. intros Hlt. destruct Hx as (x & Hx & ?); [lia|].
    exists x. split; [|done]. rewrite <- Hx. unfold zget. bcases; try lia.
    by replace (Z.to_nat (find_desc ds size (i + 1) - i)) with (S (Z.to_nat (find_desc ds size (i + 1) - (i + 1)))) by lia.
Qed.

Lemma descs_length h ar big : heap_inv h ar big → Z.of_nat (length (descs h)) = 7.
Proof. intros Hinv. rewrite <- (length_fmap desc_shape), (hi_shape _ _ _ Hinv). done. Qed.

(** * Allocation *)

(** The result of a successful allocation: a block that was not live, of at
    least the size asked for; all other live blocks stay, with their
    contents. *)
Definition allocated (h : heap) (ar big : gmap Z Z) (size b : Z) (h' : heap) : Prop :=
  ∃ ar' big' sz, heap_inv h' ar' big' ∧ size <= sz ∧ b ≠ NULL ∧
    (∀ sz', ¬ live h ar big b sz') ∧
    (∀ b' sz', live h' ar' big' b' sz' ↔ live h ar big b' sz' ∨ (b' = b ∧ sz' = sz)) ∧
    keeps (live h ar big) h h'.

Lemma live_nonnull h ar big b sz : heap_inv h ar big → live h ar big b sz → b ≠ NULL.
Proof.
  intros Hinv HL. destruct (live_span h ar big Hinv b sz HL) as (a & n & Hs & ? & _).
  destruct (kernel_page_facts _ _ (hi_km _ _ _ Hinv) (span_page h ar big Hinv a n Hs)) as (_ & ? & _).
  unfold NULL, PHYS_BASE in *. lia.
Qed.

Lemma malloc_big h ar big size :
  heap_inv h ar big → 0 < size → size + 4108 <= 4294967296 →
  let cnt := DIV_ROUND_UP (u32 (size + sizeof_arena)) PGSIZE in
  (∃ b h', (a ← on_hk (palloc_get_multiple 0 cnt);
            if a =? NULL then mret NULL else init_arena a NULL cnt;; mret (u32 (a + sizeof_arena))) h = Ok (b, h') ∧
     allocated h ar big size b h') ∨
  (a ← on_hk (palloc_get_multiple 0 cnt);
   if a =? NULL then mret NULL else init_arena a NULL cnt;; mret (u32 (a + sizeof_arena))) h = Ok (NULL, h).
Proof.
  intros Hinv H0 H1 cnt. unfold sizeof_arena, PGSIZE in *.
  assert (0 < cnt ∧ size + 12 <= 4096 * cnt ∧ is_u32 cnt) as (Hc & Hsz & Hu).
  { unfold cnt. rewrite u32_small by lia. rewrite DIV_ROUND_UP_exact by lia.
    pose proof (Z.div_mod (size + 12 + 4096 - 1) 4096). pose proof (Z.mod_pos_bound (size + 12 + 4096 - 1) 4096).
    unfold is_u32. lia. }
  destruct (palloc_got_pages (hk h) 0 cnt (hi_km _ _ _ Hinv) eq_refl Hc) as [(pg & k & E & Hg)|E].
  2: { right. rewrite (M_bind_step _ _ h NULL h); [done|]. rewrite (on_hk_Ok _ _ _ _ E). by rewrite set_hk_same. }
  left. pose proof (got_page_at h cnt pg k Hc Hg) as Hpg.
  destruct (kernel_page_facts k pg ltac:(by destruct Hg as (_ & ? & _)) Hpg) as (Hal & Hlo & Hhi & _).
  unfold PHYS_BASE in *. exists (pg + 12), (set_hdr pg NULL cnt (set_hk k h)). split.
  - rewrite (M_bind_step _ _ _ _ _ (on_hk_Ok _ _ _ _ E)).
    destruct (Z.eqb_spec pg NULL) as [Hn|_]; [by destruct Hg|].
    rewrite (M_bind_step _ _ _ _ _ (init_arena_Ok (set_hk k h) pg NULL cnt ltac:(by destruct Hg as (_ & ? & _)) Hpg)).
    by rewrite u32_small by lia.
  - exists ar, (<[pg := cnt]> big), (4096 * cnt - 12). splits; [by apply new_big_inv|lia|unfold NULL; lia| | |].
    + intros sz' HL. destruct (live_span h ar big Hinv _ _ HL) as (a & n & Hs & _ & _ & _ & Ea).
      destruct (arena_of_in pg (pg + 12) Hal) as [Ea' _]; [lia|].
      destruct (hi_pages _ _ _ Hinv a n Hs) as (? & _ & _).
      pose proof (fresh_span h ar big Hinv cnt pg k Hc Hg a n Hs). lia.
    + intros b' sz'. by apply new_big_live.
    + intros b sz c HL Hcc. destruct (live_span h ar big Hinv b sz HL) as (a & n & Hs & ? & ? & ? & _).
      pose proof (fresh_span h ar big Hinv cnt pg k Hc Hg a n Hs). rewrite set_hdr_lookup by lia.
      unfold hram; simpl. by rewrite (got_ram h cnt pg k Hg).
Qed.

Lemma malloc_cases h ar big size :
  heap_inv h ar big → 0 < size → size + 4108 <= 4294967296 →
  (∃ b h', malloc size h = Ok (b, h') ∧ allocated h ar big size b h') ∨ malloc size h = Ok (NULL, h).
Proof.
  intros Hinv H0 H1. unfold malloc. destruct (Z.eqb_spec size 0); [lia|]. rewrite getS_step.
  pose proof (descs_length h ar big Hinv) as Hlen. rewrite Hlen.
  destruct (find_desc_spec (descs h) size 0) as [Hr Hx]. rewrite Hlen in *.
  set (d := find_desc (descs h) size 0) in *. destruct (Z.eqb_spec d 7) as [_|Hd]; [by apply malloc_big|].
  destruct Hx as (x & Hx & Hsz); [lia|]. rewrite Z.sub_0_r in Hx. replace d with (d + 1 - 1) in Hx by lia.
  destruct (refill_cases h ar big (d + 1) x Hinv ltac:(lia) Hx) as
    [(h1 & ar1 & x1 & E & Hinv1 & Hx1 & Hbs & Hne & Hlive & Hk)|E]; [left|right; by rewrite (M_bind_step _ _ _ _ _ E)].
  rewrite (M_bind_step _ _ _ _ _ E). destruct (free_list x1) as [|b l] eqn:Hl; [done|].
  destruct (take_Ok h1 ar1 big (d + 1) x1 b l Hinv1 Hx1 Hl) as (h2 & E2 & Hinv2 & Hlive2 & Hk2).
  exists b, h2. split; [exact E2|]. exists ar1, big, (block_size x1). splits; [done|lia| | | |].
  - apply (live_nonnull h2 ar1 big b (block_size x1)); [done|]. apply Hlive2. by right.
  - intros sz' HL%Hlive. apply (free_not_live h1 ar1 big Hinv1 (d + 1) x1 b sz'); [done| |done]. rewrite Hl. left.
  - intros b' sz'. rewrite Hlive2, Hlive. done.
  - intros b' sz c HL Hc. rewrite (Hk2 b' sz c) by (by rewrite ?Hlive). by apply (Hk b' sz c).
Qed.
