(* ===== verification/MallocFree.v ===== *)
(** [free] (threads/malloc.c): a live block goes back to its free list, an
    arena without live blocks and a big block back to the page allocator. *)
From S2P Require Import Prelude Mem Str Word Bitmap FreeMap Vaddr Palloc Malloc MallocInv MallocOps MallocSafety MallocCorrect.

(** Freeing [b]: no longer live; every other live block stays, with its
    contents. *)
Definition freed (h : heap) (ar big : gmap Z Z) (b : Z) (h' : heap) : Prop :=
  ∃ ar' big', heap_inv h' ar' big' ∧
    (∀ b' sz, live h' ar' big' b' sz ↔ live h ar big b' sz ∧ b' ≠ b) ∧
    keeps (λ b' sz, live h ar big b' sz ∧ b' ≠ b) h h'.

Section Small.
Context (h : heap) (ar big : gmap Z Z) (Hinv : heap_inv h ar big).
Context (d : Z) (x : desc) (Hx : zget (descs h) (d - 1) = Some x) (b : Z) (Hb : block_of ar d x b).
Context (Hn : b ∉ free_list x).

Let a := arena_of b.
Let Hok : desc_ok x.
Proof. exact (desc_facts h ar big Hinv d x Hx). Qed.
Let Ha : ar !! a = Some d.
Proof. exact (proj1 (block_of_facts h ar big Hinv d x b Hx Hb)). Qed.
Let Hs : span ar big a 1.
Proof. exact (span_ar ar big a d Ha). Qed.

Lemma block_range : a + 12 <= b ∧ b + block_size x <= a + 4096 ∧ 0 < b.
Proof.
  destruct (block_of_facts h ar big Hinv d x b Hx Hb) as (_ & idx & Hi & E).
  pose proof (block_at_in x (arena_of b) idx Hok Hi) as H. rewrite <- E in H. fold a in H.
  destruct (kernel_page_facts _ _ (hi_km _ _ _ Hinv) (span_page h ar big Hinv a 1 Hs)) as (_ & ? & _).
  unfold PHYS_BASE in *. lia.
Qed.

(** ** The block overwritten *)

Let h1 := set_hk (set_ram (put_bytes b (replicate (Z.to_nat (block_size x)) 204) (hram h)) (hk h)) h.

Lemma wipe_lookup c : c < b ∨ b + block_size x <= c → hram h1 !! c = hram h !! c.
Proof.
  intros Hc. pose proof (do_size _ Hok). apply put_bytes_ne. rewrite length_replicate. lia.
Qed.

Lemma wipe_inv : heap_inv h1 ar big.
Proof.
  apply ram_inv; [done| |done|].
  - apply kmem_inv_set_ram; [apply Hinv|]. by apply replicate_u8.
  - intros a' n j Hs' Hj. pose proof block_range as (? & ? & _). apply rd32_ext. intros c Hc. apply wipe_lookup.
    destruct (decide (a' = a)) as [->|Hne]; [lia|].
    pose proof (hi_disj _ _ _ Hinv a' n a 1 Hs' Hs Hne). destruct (hi_pages _ _ _ Hinv a' n Hs') as (? & _ & _). lia.
Qed.

Lemma wipe_run : on_hk (on_ram (memset b 204 (block_size x))) h = Ok (b, h1).
Proof.
  pose proof block_range as (? & ? & ?). pose proof (do_size _ Hok).
  rewrite (on_hk_Ok _ h b (set_ram (put_bytes b (replicate (Z.to_nat (block_size x)) 204) (hram h)) (hk h))); [done|].
  apply on_ram_Ok. rewrite <- (Z2Nat.id (block_size x)) at 1 by lia. apply memset_Ok; [done|].
  destruct (kernel_page_facts _ _ (hi_km _ _ _ Hinv) (span_page h ar big Hinv a 1 Hs)) as (_ & _ & _ & Hm).
  eapply mapped_sub; [exact Hm|lia|lia].
Qed.

(** ** The block in its free list *)

Let l := b :: free_list x.
Let n := Z.of_nat (length (free_in a l)).
Let h2 := set_hw (a + 8) n (with_free h1 d x l).

Lemma push_members : NoDup l ∧ ∀ b', b' ∈ l → block_of ar d x b'.
Proof.
  destruct (hi_free _ _ _ Hinv d x Hx) as [Hnd Hbl]. split; [by constructor|].
  intros b' [->|Hb']%elem_of_cons; [done|by apply Hbl].
Qed.

Lemma push_count : n = Z.of_nat (length (free_in a (free_list x))) + 1 ∧ n <= blocks_per_arena x <= 255.
Proof.
  destruct push_members as [Hnd Hbl]. destruct (free_in_count h ar big Hinv d x Hx a l Hnd Hbl) as [Hle _].
  pose proof (do_cnt _ Hok). fold n in Hle. split; [|lia]. unfold n, l, free_in.
  rewrite filter_cons_True by done. cbn [length]. lia.
Qed.

Lemma push_inv : heap_inv h2 ar big.
Proof.
  destruct push_members as [Hnd Hbl]. destruct push_count as [_ Hc].
  apply (set_count_inv h1 ar big wipe_inv a d x l n); try done; [|lia].
  intros a' Hne. unfold l, free_in. by rewrite filter_cons_False.
Qed.

Lemma push_desc d' : zget (descs h2) (d' - 1) = if d =? d' then Some (set_free_list x l) else zget (descs h) (d' - 1).
Proof. exact (with_free_get h1 d x l d' Hx). Qed.

Lemma push_live b' sz : live h2 ar big b' sz ↔ live h ar big b' sz ∧ b' ≠ b.
Proof.
  unfold live. split.
  - intros [(d' & x' & Hx' & Hbo & Hnn & ->)|(a' & n' & Ha' & -> & ->)].
    + rewrite push_desc in Hx'. destruct (Z.eqb_spec d d') as [<-|Hne].
      * injection Hx' as <-. simpl in *. apply not_elem_of_cons in Hnn as [? ?]. split; [left; by exists d, x|done].
      * split; [left; by exists d', x'|]. intros ->. apply Hne.
        destruct (block_of_facts h ar big Hinv d' x' b Hx' Hbo) as (Ea & _). fold a in Ea. congruence.
    + split; [right; eauto|]. intros E. pose proof Ha as Ea. unfold a in Ea. rewrite <- E in Ea.
      destruct (arena_of_in a' (a' + 12)) as [Eb _]; [by apply (hi_pages _ _ _ Hinv a' n' (or_intror Ha'))|lia|].
      rewrite Eb in Ea. pose proof (hi_excl _ _ _ Hinv a' (mk_is_Some _ _ Ea)). congruence.
  - intros [[(d' & x' & Hx' & Hbo & Hnn & ->)|H'] Hne]; [|by right]. left.
    exists d', (if d =? d' then set_free_list x l else x'). rewrite push_desc.
    destruct (Z.eqb_spec d d') as [<-|]; [|done]. rewrite Hx in Hx'. injection Hx' as <-.
    splits; try done. simpl. by apply not_elem_of_cons.
Qed.

Lemma push_keeps : keeps (λ b' sz, live h ar big b' sz ∧ b' ≠ b) h h2.
Proof.
  intros b' sz c [HL Hne] Hc. pose proof (wipe_inv) as Hinv1.
  assert (live h1 ar big b' sz) as HL1 by done.
  assert (live h ar big b (block_size x)) as HLb by (left; by exists d, x).
  pose proof (live_disjoint h ar big Hinv b' sz b (block_size x) HL HLb Hne).
  rewrite <- (wipe_lookup c) by lia.
  apply (keeps_header h1 ar big Hinv1 h2 a 1 Hs) with (b := b') (sz := sz); [|done|done].
  intros c' Hc'. unfold h2, set_hw, hram. cbn [hk ram set_hk set_ram]. apply put_bytes_ne. cbn [word_bytes length]. lia.
Qed.

(** ** The empty arena *)

Section Release.
Context (Hfull : n = blocks_per_arena x) (k : kmem) (Hk : kmem_inv k)
  (Huse : ∀ c, in_use (kernel_pool k) c =
     negb ((a <=? c) && (c <? a + 4096 * 1)) && in_use (kernel_pool (hk h2)) c)
  (Hram : ram k = put_bytes a (replicate (Z.to_nat (4096 * 1)) 204) (hram h2)).

Let bl := blocks a (block_size x) 0 (Z.to_nat (blocks_per_arena x)).
Let l' := filter (λ b', b' ∉ bl) l.
Let x2 := set_free_list x l.
Let h3 := with_free h2 d x2 l'.

Lemma release_aligned : a mod 4096 = 0.
Proof. exact (proj1 (span_page h ar big Hinv a 1 Hs)). Qed.

Lemma release_all b' : b' ∈ bl → b' ∈ l.
Proof.
  destruct push_members as [Hnd Hbl]. destruct (free_in_count h ar big Hinv d x Hx a l Hnd Hbl) as [_ Hall].
  apply Hall; [done|apply release_aligned].
Qed.

Lemma release_bl b' : b' ∈ l → arena_of b' = a → b' ∈ bl.
Proof.
  intros Hb' E. destruct push_members as [_ Hbl]. pose proof (do_cnt _ Hok).
  destruct (block_of_facts h ar big Hinv d x b' Hx (Hbl b' Hb')) as (_ & idx & Hi & Eb).
  apply blocks_elem. rewrite E in Eb. exists idx. split; [lia|done].
Qed.

Lemma release_bl_arena b' : b' ∈ bl → arena_of b' = a.
Proof.
  intros (idx & Hi & ->)%blocks_elem. pose proof (do_cnt _ Hok). apply block_arena; [done|apply release_aligned|lia].
Qed.

Lemma release_get2 : zget (descs h2) (d - 1) = Some x2.
Proof. rewrite push_desc. by rewrite Z.eqb_refl. Qed.

Lemma release_desc d' :
  zget (descs h3) (d' - 1) = if d =? d' then Some (set_free_list x l') else zget (descs h) (d' - 1).
Proof. unfold h3. rewrite with_free_get by apply release_get2. rewrite push_desc. by destruct (d =? d'). Qed.

Lemma block_of_delete d' x' b' : block_of ar d' x' b' → desc_ok x' → arena_of b' ≠ a → block_of (delete a ar) d' x' b'.
Proof.
  intros (a' & idx & Ea & Hi & ->) Hok' Hne. exists a', idx. split; [|exact (conj Hi eq_refl)].
  rewrite lookup_delete_ne; [exact Ea|]. intros <-. apply Hne.
  apply block_arena; [exact Hok'|apply release_aligned|exact Hi].
Qed.

Lemma release_inv : heap_inv (set_hk k h3) (delete a ar) big.
Proof.
  pose proof push_inv as Hinv2. destruct push_members as [Hnd Hbl].
  apply (del_inv h2 ar big Hinv2 a 1 Hs k (descs h3)); [exact Hk|exact Huse|exact Hram|..].
  - unfold h3. rewrite with_free_shape by apply release_get2. apply Hinv2.
  - intros d' x' Hx'. rewrite release_desc in Hx'. destruct (Z.eqb_spec d d') as [<-|Hne].
    + injection Hx' as <-. split; [by apply NoDup_filter|]. intros b' [Hnb Hb']%list_elem_of_filter.
      destruct Hok. apply block_of_delete; [by apply Hbl|done|]. intros E. by apply Hnb, release_bl.
    + destruct (hi_free _ _ _ Hinv d' x' Hx') as [? Hbo]. split; [done|]. intros b' Hb'.
      apply block_of_delete; [exact (Hbo b' Hb')|exact (desc_facts h ar big Hinv d' x' Hx')|]. intros E.
      destruct (block_of_facts h ar big Hinv d' x' b' Hx' (Hbo b' Hb')) as (Ea & _).
      rewrite E in Ea. pose proof Ha. congruence.
  - intros d' x' Hx'. exists (if d =? d' then set_free_list x l' else x'). rewrite release_desc.
    rewrite push_desc in Hx'. destruct (Z.eqb_spec d d') as [<-|]; [|done]. split; [done|].
    injection Hx' as <-. intros a' Hne. simpl. unfold free_in, l'. rewrite list_filter_filter.
    apply list_filter_iff. intros b'. split; [by intros [? _]|]. intros Eb. split; [done|].
    intros Hin%release_bl_arena. congruence.
  - intros a' d'. rewrite lookup_delete_Some. split; intros [? ?]; split; congruence.
  - intros a' n'. split; [|by intros [? _]]. intros Hb'. split; [done|]. intros ->.
    pose proof (hi_excl _ _ _ Hinv a (mk_is_Some _ _ Ha)). congruence.
Qed.

(** A block of the arena is free, so not live. *)
Lemma release_not_live b' sz : live h2 ar big b' sz → arena_of b' ≠ a.
Proof.
  intros [(d' & x' & Hx' & Hbo & Hnn & ->)|(a' & m & Ha' & -> & ->)] Eb.
  - destruct (block_of_facts h2 ar big push_inv d' x' b' Hx' Hbo) as (Ea & idx & Hi & E').
    rewrite Eb in Ea, E'. assert (d' = d) as -> by (pose proof Ha; congruence).
    rewrite release_get2 in Hx'. injection Hx' as <-. pose proof (do_cnt _ Hok).
    apply Hnn, release_all, blocks_elem. exists idx. simpl in Hi, E'. split; [lia|done].
  - destruct (arena_of_in a' (a' + 12)) as [Ea _]; [by apply (hi_pages _ _ _ Hinv a' m (or_intror Ha'))|lia|].
    pose proof (hi_excl _ _ _ Hinv a (mk_is_Some _ _ Ha)). congruence.
Qed.

Lemma release_live b' sz : live (set_hk k h3) (delete a ar) big b' sz ↔ live h2 ar big b' sz.
Proof.
  split.
  - intros [(d' & x' & Hx' & (a' & idx & Ea & Hi & ->) & Hnn & ->)|HB]; [left|by right].
    change (descs (set_hk k h3)) with (descs h3) in Hx'. rewrite release_desc in Hx'.
    apply lookup_delete_Some in Ea as [Hne Ea].
    exists d', (if d =? d' then set_free_list x l else x'). rewrite push_desc.
    destruct (Z.eqb_spec d d') as [<-|]; [|refine (conj Hx' (conj _ (conj Hnn eq_refl))); by exists a', idx].
    injection Hx' as <-. refine (conj eq_refl (conj _ (conj _ eq_refl))); [by exists a', idx|].
    cbn [free_list set_free_list] in *. intros Hin. apply Hnn. apply list_elem_of_filter. split; [|done].
    intros E%release_bl_arena. apply Hne. rewrite <- E.
    apply block_arena; [by destruct Hok|apply (span_page h ar big Hinv a' 1 (span_ar ar big a' d Ea))|done].
  - intros HL. pose proof (release_not_live b' sz HL) as Hne.
    destruct HL as [(d' & x' & Hx' & Hbo & Hnn & ->)|HB]; [left|by right].
    pose proof (desc_facts h2 ar big push_inv d' x' Hx') as Hok'. rewrite push_desc in Hx'.
    exists d', (if d =? d' then set_free_list x l' else x').
    change (descs (set_hk k h3)) with (descs h3). rewrite release_desc.
    destruct (Z.eqb_spec d d') as [<-|].
    + injection Hx' as <-. refine (conj eq_refl (conj _ (conj _ eq_refl))).
      * exact (block_of_delete d (set_free_list x l) b' Hbo Hok' Hne).
      * cbn [free_list set_free_list] in *. intros [_ Hin]%list_elem_of_filter. exact (Hnn Hin).
    + refine (conj Hx' (conj _ (conj Hnn eq_refl))). by apply block_of_delete.
Qed.

Lemma release_keeps : keeps (live h2 ar big) h2 (set_hk k h3).
Proof.
  intros b' sz c HL Hc. destruct (live_span h2 ar big push_inv b' sz HL) as (a' & n' & Hs' & ? & ? & ? & Eb).
  change (hram (set_hk k h3)) with (ram k). rewrite Hram. apply put_bytes_ne. rewrite length_replicate.
  assert (a' ≠ a) as Hne by (rewrite <- Eb; by eapply release_not_live).
  pose proof (hi_disj _ _ _ push_inv a' n' a 1 Hs' Hs Hne). lia.
Qed.

Lemma release_freed : freed h ar big b (set_hk k h3).
Proof.
  exists (delete a ar), big. split; [apply release_inv|]. split.
  - intros b' sz. by rewrite release_live, push_live.
  - intros b' sz c HL Hc. rewrite <- (push_keeps b' sz c HL Hc). apply (release_keeps b' sz c); [|done].
    by apply push_live.
Qed.

Lemma release_run : palloc_free_page a (hk h2) = Ok ((), k) →
  (remove_blocks (Z.to_nat (blocks_per_arena x)) a d 0;; on_hk (palloc_free_page a)) h2 = Ok ((), set_hk k h3).
Proof.
  intros E. pose proof push_inv as Hinv2. pose proof (do_cnt _ Hok). rewrite (M_bind_step _ _ h2 () h3).
  - apply on_hk_Ok. exact E.
  - apply (remove_blocks_Ok _ h2 a d x2 0); [apply Hinv2| |lia|simpl; lia|exact release_all].
    apply (arena_hdr_at h2 ar big Hinv2); [done|apply release_get2].
Qed.

End Release.

(** ** The whole call *)

Lemma free_prefix :
  free b h =
    (if blocks_per_arena x <=? n then
       check (n =? blocks_per_arena x);;
       remove_blocks (Z.to_nat (blocks_per_arena x)) a d 0;; on_hk (palloc_free_page a)
     else mret ()) h2.
Proof.
  destruct (block_of_facts h ar big Hinv d x b Hx Hb) as (_ & idx & Hi & Eb). fold a in Eb.
  pose proof (arena_hdr_at h ar big Hinv a d x Ha Hx) as Hh. pose proof (ah_d _ _ _ _ Hh).
  destruct (hi_arena _ _ _ wipe_inv a d Ha) as (x' & Hh' & Hcnt).
  assert (x' = x) as -> by (pose proof (ah_get _ _ _ _ Hh') as E; change (descs h1) with (descs h) in E; congruence).
  destruct push_count as [Hn1 [Hn2 Hn3]]. pose proof block_range as (_ & _ & Hb0).
  assert (∀ h' o, heap_inv h' ar big → 0 <= o <= 8 → mapped (hram h') (a + o) 4) as Hmap.
  { intros h' o Hi' Ho. by apply (header_facts h' ar big Hi' a 1 o Hs). }
  unfold free. destruct (Z.eqb_spec b NULL); [unfold NULL in *; lia|].
  rewrite (M_bind_step _ _ h a h).
  2: { rewrite Eb. apply (block_to_arena_Ok h a d x idx); [apply Hinv|done|done]. }
  unfold a_desc. rewrite ldw_step by (by apply Hmap). rewrite (ah_desc _ _ _ _ Hh).
  destruct (Z.eqb_spec d NULL); [unfold NULL in *; lia|]. cbn [negb].
  rewrite (get_desc_step _ _ x) by done. rewrite (M_bind_step _ _ _ _ _ wipe_run).
  rewrite (M_bind_step _ _ _ _ _ (put_desc_Ok h1 d x l Hx)).
  unfold a_free_cnt. rewrite ldw_step by (by apply (Hmap h1); [apply wipe_inv|]).
  change (hram (with_free h1 d x l)) with (hram h1). rewrite Hcnt, <- Hn1. rewrite u32_small by lia.
  unfold set_free_cnt. rewrite (M_bind_step _ _ _ () h2); [done|].
  apply stw_Ok. apply (Hmap h1); [apply wipe_inv|lia].
Qed.

Lemma free_small_Ok : ∃ h', free b h = Ok ((), h') ∧ freed h ar big b h'.
Proof.
  rewrite free_prefix. destruct push_count as [_ [Hn2 _]]. pose proof push_inv as Hinv2.
  destruct (Z.leb_spec (blocks_per_arena x) n).
  - assert (n = blocks_per_arena x) as Hfull by lia.
    destruct (span_page h2 ar big Hinv2 a 1 Hs) as [Hal Hu].
    destruct (palloc_free_kernel (hk h2) a 1 (hi_km _ _ _ Hinv2) ltac:(lia) Hal) as (k & E & Hk & Huse & _ & Hram).
    { intros i Hi. by replace (a + 4096 * i) with a by lia. }
    rewrite (M_bind_step _ _ h2 () h2) by (apply check_true; by apply Z.eqb_eq).
    eexists. split; [by apply (release_run Hfull k)|]. by apply release_freed.
  - exists h2. split; [done|]. exists ar, big. splits; [done|apply push_live|apply push_keeps].
Qed.

End Small.

(** * Big blocks *)

Section BigBlock.
Context (h : heap) (ar big : gmap Z Z) (Hinv : heap_inv h ar big) (a n : Z) (Ha : big !! a = Some n).

Let Hs : span ar big a n.
Proof. by right. Qed.

Lemma big_header : block_to_arena (a + 12) h = Ok (a, h).
Proof.
  destruct (kernel_page_facts _ _ (hi_km _ _ _ Hinv) (span_page h ar big Hinv a n Hs)) as (Hal & Hlo & Hhi & _).
  destruct (arena_of_in a (a + 12) Hal) as [Har Hmod]; [lia|]. destruct (hi_big _ _ _ Hinv a n Ha) as (Hm & Hd & _).
  assert (∀ o, 0 <= o <= 8 → mapped (hram h) (a + o) 4) as Hmap by (intros; by apply (header_facts h ar big Hinv a n)).
  unfold PHYS_BASE in *. unfold block_to_arena. rewrite pg_round_down_sub by (unfold is_u32; lia).
  fold (arena_of (a + 12)). rewrite Har.
  rewrite (M_bind_step _ _ h () h) by (apply check_true, negb_true_iff, Z.eqb_neq; unfold NULL; lia).
  unfold a_magic. rewrite ldw_step by (rewrite <- (Z.add_0_r a); by apply Hmap).
  rewrite (M_bind_step _ _ h () h) by (apply check_true; by apply Z.eqb_eq).
  unfold a_desc. rewrite ldw_step by (by apply Hmap). rewrite Hd.
  rewrite (M_bind_step _ _ h () h) by done.
  rewrite (M_bind_step _ _ h () h); [done|]. apply check_true. rewrite pg_ofs_mod, Hmod.
  by replace (a + 12 - a) with 12 by lia.
Qed.

Lemma free_big_Ok : ∃ h', free (a + 12) h = Ok ((), h') ∧ freed h ar big (a + 12) h'.
Proof.
  destruct (kernel_page_facts _ _ (hi_km _ _ _ Hinv) (span_page h ar big Hinv a n Hs)) as (Hal & Hlo & Hhi & _).
  destruct (hi_big _ _ _ Hinv a n Ha) as (_ & Hd & Hc). destruct (hi_pages _ _ _ Hinv a n Hs) as (Hn & _ & Hu).
  assert (∀ o, 0 <= o <= 8 → mapped (hram h) (a + o) 4) as Hmap by (intros; by apply (header_facts h ar big Hinv a n)).
  destruct (palloc_free_kernel (hk h) a n (hi_km _ _ _ Hinv) Hn Hal Hu) as (k & E & Hk & Huse & _ & Hram).
  exists (set_hk k h). split.
  { unfold free. destruct (Z.eqb_spec (a + 12) NULL); [unfold NULL, PHYS_BASE in *; lia|].
    rewrite (M_bind_step _ _ _ _ _ big_header). unfold a_desc. rewrite ldw_step by (by apply Hmap). rewrite Hd.
    cbn [negb Z.eqb NULL]. unfold a_free_cnt. rewrite ldw_step by (by apply Hmap). rewrite Hc. by apply on_hk_Ok. }
  assert (∀ b sz, live h ar big b sz → b ≠ a + 12 → arena_of b ≠ a) as Hother.
  { intros b sz HL Hne Eb. apply Hne. destruct HL as [(d & x & Hx & Hbo & _)|(a' & n' & Ha' & -> & _)].
    - destruct (block_of_facts h ar big Hinv d x b Hx Hbo) as (Ea & _). rewrite Eb in Ea.
      pose proof (hi_excl _ _ _ Hinv a (mk_is_Some _ _ Ea)). congruence.
    - destruct (arena_of_in a' (a' + 12)) as [Ea _]; [by apply (hi_pages _ _ _ Hinv a' n' (or_intror Ha'))|lia|].
      congruence. }
  exists ar, (delete a big). split; [|split].
  - apply (del_inv h ar big Hinv a n Hs k (descs h)); try done; [apply Hinv|exact (hi_free _ _ _ Hinv)|eauto| |].
    + intros a' d. split; [|by intros [? _]]. intros Ha'. split; [done|]. intros ->.
      pose proof (hi_excl _ _ _ Hinv a (mk_is_Some _ _ Ha')). congruence.
    + intros a' n'. rewrite lookup_delete_Some. split; intros [? ?]; split; congruence.
  - intros b sz. unfold live. split.
    + intros [HA|(a' & n' & Ha' & -> & ->)].
      * split; [by left|]. intros ->. destruct HA as (d & x & Hx & Hbo & _).
        destruct (block_of_facts h ar big Hinv d x _ Hx Hbo) as (Ea & _).
        destruct (arena_of_in a (a + 12) Hal) as [Har _]; [lia|]. rewrite Har in Ea.
        pose proof (hi_excl _ _ _ Hinv a (mk_is_Some _ _ Ea)). congruence.
      * apply lookup_delete_Some in Ha' as [Hne Ha']. split; [right; eauto|lia].
    + intros [[HA|(a' & n' & Ha' & -> & ->)] Hne]; [by left|right]. exists a', n'.
      rewrite lookup_delete_ne; [done|]. intros <-. lia.
  - intros b sz c [HL Hne] Hcc. destruct (live_span h ar big Hinv b sz HL) as (a' & n' & Hs' & ? & ? & ? & Eb).
    assert (a' ≠ a) as Hna by (rewrite <- Eb; by eapply Hother).
    pose proof (hi_disj _ _ _ Hinv a' n' a n Hs' Hs Hna).
    change (hram (set_hk k h)) with (ram k). rewrite Hram. apply put_bytes_ne. rewrite length_replicate. lia.
Qed.

End BigBlock.

(** Freeing any live block. *)
Lemma free_Ok h ar big b sz : heap_inv h ar big → live h ar big b sz →
  ∃ h', free b h = Ok ((), h') ∧ freed h ar big b h'.
Proof.
  intros Hinv [(d & x & Hx & Hbo & Hn & _)|(a & n & Ha & -> & _)].
  - by apply (free_small_Ok h ar big Hinv d x).
  - by apply (free_big_Ok h ar big Hinv a n).
Qed.

(** Writing to a live block. *)
Lemma write_live_inv h ar big b sz bs : heap_inv h ar big → live h ar big b sz →
  Forall is_u8 bs → Z.of_nat (length bs) <= sz →
  heap_inv (set_hk (set_ram (put_bytes b bs (hram h)) (hk h)) h) ar big.
Proof.
  intros Hinv HL Hbs Hlen. destruct (live_span h ar big Hinv b sz HL) as (a & n & Hs & ? & ? & ? & _).
  apply ram_inv; [done|apply kmem_inv_set_ram; [apply Hinv|done]|done|].
  intros a' n' j Hs' Hj. apply rd32_put_ne. destruct (decide (a' = a)) as [->|Hne]; [lia|].
  pose proof (hi_disj _ _ _ Hinv a' n' a n Hs' Hs Hne). destruct (hi_pages _ _ _ Hinv a' n' Hs') as (? & _ & _). lia.
Qed.

(** * Properties *)

(** C5: [malloc] of a size that does not overflow returns a null pointer and
    changes nothing, or a block of at least that size that overlaps no live
    block; all live blocks and their contents are preserved. *)
Theorem malloc_correct h ar big size (Hinv : heap_inv h ar big) (H0 : 0 < size)
  (H1 : size + 4108 <= 4294967296) :
  (∃ b h', malloc size h = Ok (b, h') ∧ allocated h ar big size b h' ∧
     ∀ b' sz', live h ar big b' sz' → b + size <= b' ∨ b' + sz' <= b) ∨
  malloc size h = Ok (NULL, h).
Proof.
  destruct (malloc_cases h ar big size Hinv H0 H1) as [(b & h' & E & Hal)|E]; [left|by right].
  exists b, h'. splits; [done|done|]. destruct Hal as (ar' & big' & sz & Hinv' & Hsz & _ & Hnl & Hlive & _).
  intros b' sz' HL. assert (b' ≠ b) as Hne by (intros ->; by apply (Hnl sz')).
  assert (live h' ar' big' b sz) as Hb by (apply Hlive; by right).
  assert (live h' ar' big' b' sz') as Hb' by (apply Hlive; by left).
  pose proof (live_disjoint h' ar' big' Hinv' b sz b' sz' Hb Hb' ltac:(done)). lia.
Qed.

(** C36: a block returned by [malloc] can be freed, whatever has been written
    to it, and afterwards exactly the blocks live before the allocation are
    live, with their contents. *)
Theorem malloc_free_roundtrip h ar big size b h1 k bs
  (Hinv : heap_inv h ar big) (H0 : 0 < size) (H1 : size + 4108 <= 4294967296)
  (Hget : malloc size h = Ok (b, h1)) (Hb : b ≠ NULL)
  (Hbs : Forall is_u8 bs) (Hlen : Z.of_nat (length bs) <= size)
  (Hk : k = set_ram (put_bytes b bs (hram h1)) (hk h1)) :
  ∃ h2 ar2 big2, free b (set_hk k h1) = Ok ((), h2) ∧ heap_inv h2 ar2 big2 ∧
    (∀ b' sz, live h2 ar2 big2 b' sz ↔ live h ar big b' sz) ∧ keeps (live h ar big) h h2.
Proof.
  destruct (malloc_cases h ar big size Hinv H0 H1) as [(b1 & h1' & E & Hal)|E];
    rewrite Hget in E; [|by injection E as ? ?]. injection E as <- <-.
  destruct Hal as (ar1 & big1 & sz & Hinv1 & Hsz & _ & Hnl & Hlive & Hkeep).
  assert (live h1 ar1 big1 b sz) as HLb by (apply Hlive; by right).
  assert (heap_inv (set_hk k h1) ar1 big1) as Hinv1'.
  { subst k. apply (write_live_inv h1 ar1 big1 b sz); [done..|lia]. }
  destruct (free_Ok (set_hk k h1) ar1 big1 b sz Hinv1' HLb) as (h2 & E & ar2 & big2 & Hinv2 & Hlive2 & Hkeep2).
  exists h2, ar2, big2. splits; [done|done| |].
  - intros b' sz'. rewrite Hlive2. change (live (set_hk k h1) ar1 big1 b' sz') with (live h1 ar1 big1 b' sz').
    rewrite Hlive. split; [intros [[HL|[-> _]] Hne]; done|].
    intros HL. split; [by left|]. intros ->. by apply (Hnl sz').
  - intros b' sz' c HL Hc. assert (b' ≠ b) as Hne by (intros ->; by apply (Hnl sz')).
    assert (live h1 ar1 big1 b' sz') as HL1 by (apply Hlive; by left).
    rewrite (Hkeep2 b' sz' c) by done. rewrite <- (Hkeep b' sz' c HL Hc).
    pose proof (live_disjoint h1 ar1 big1 Hinv1 b' sz' b sz HL1 HLb Hne).
    subst k. unfold hram; simpl. apply put_bytes_ne. lia.
Qed.

(** * Initial and sample heaps *)

(** Before the first allocation no page belongs to the heap. *)
Lemma malloc_init_inv k ds : kmem_inv k → malloc_init = Ok ds → heap_inv (mkHeap k ds) ∅ ∅.
Proof.
  intros Hk E. destruct malloc_init_shape as (ds' & E' & Hsh & Hfr). rewrite E in E'. injection E' as <-.
  assert (∀ a n, ¬ span ∅ ∅ a n) as Hno.
  { intros a n [[_ [d Ha]]|Ha]; by rewrite lookup_empty in Ha. }
  split; try done.
  - intros d x Hx. unfold zget in Hx. destruct (d - 1 <? 0); [done|]. simpl in Hx.
    pose proof (lookup_Forall _ _ _ _ Hfr Hx) as Hnil. simpl in Hnil. rewrite Hnil. split; [constructor|].
    by intros b Hb%elem_of_nil.
  - intros a n Hs. by destruct (Hno a n).
  - intros a n a' n' Hs. by destruct (Hno a n).
Qed.

Definition sample_heap : heap :=
  mkHeap sample_kmem (match malloc_init with Ok ds => ds | Err _ => [] end).

Lemma sample_heap_inv : heap_inv sample_heap ∅ ∅.
Proof. apply malloc_init_inv; [apply sample_kmem_inv|reflexivity]. Qed.

Lemma malloc_correct_witness :
  ∃ b h', malloc 100 sample_heap = Ok (b, h') ∧ b = 3222278156 ∧ allocated sample_heap ∅ ∅ 100 b h'.
Proof.
  assert (result (malloc 100 sample_heap) = Some 3222278156) as Er by by vm_compute.
  destruct (malloc_correct sample_heap ∅ ∅ 100 sample_heap_inv ltac:(lia) ltac:(lia)) as [(b & h' & E & Hal & _)|E];
    rewrite E in Er.
  - exists b, h'. injection Er as ->. split; [exact E|]. split; [reflexivity|exact Hal].
  - discriminate Er.
Defined.

Lemma malloc_free_roundtrip_witness :
  ∃ b h1 h2, malloc 100 sample_heap = Ok (b, h1) ∧
    free b (set_hk (set_ram (put_bytes b [1; 2; 3] (hram h1)) (hk h1)) h1) = Ok ((), h2).
Proof.
  assert (result (malloc 100 sample_heap) = Some 3222278156) as Er by by vm_compute.
  destruct (malloc 100 sample_heap) as [[b h1]|] eqn:E; [|discriminate Er]. injection Er as ->.
  destruct (malloc_free_roundtrip sample_heap ∅ ∅ 100 3222278156 h1 _ [1; 2; 3] sample_heap_inv
    ltac:(lia) ltac:(lia) E ltac:(discriminate) ltac:(repeat constructor; lia) ltac:(simpl; lia) eq_refl)
    as (h2 & _ & _ & E2 & _). exists 3222278156, h1, h2. split; [reflexivity|exact E2].
Defined.

(** * Sizes that overflow *)

(** A request within twelve bytes of the largest [size_t] wraps around when
    the header is added, and is granted with a single page. *)
Lemma malloc_size_wraps : result (malloc 4294967290 sample_heap) = Some 3222278156.
Proof. by vm_compute. Qed.

(** The overflow test of [calloc] accepts products that overflow: the block
    for 65537 elements of 65537 bytes has 131073 bytes. *)
Lemma calloc_overflow_accepted h :
  calloc 65537 65537 h =
    (p ← malloc 131073;
     (if negb (p =? NULL) then on_hk (on_ram (memset p 0 131073));; mret () else mret ());;
     mret p) h.
Proof. reflexivity. Qed.
