(* ===== verification/Queue.v ===== *)
(** Kernel lists used as queues.  The scheduler keeps threads in lists that it
    fills with [list_insert_ordered] and [list_sort] (lib/kernel/list.c); the
    files that model it work on the sequence a list represents.  This file
    gives the sequence [list_sort] leaves as a function, [sort_seq], and
    proves that the pointer code computes exactly it. *)
From S2P Require Import Prelude KList KListOps KListSort.
From Stdlib Require Import Permutation Sorted.

Section Queue.
Context (less : Z → Z → bool) `{!StrictWeak less}.
#[local] Abbreviation le := (le_by less).

(** The stable sort of a sequence. *)
Fixpoint sort_seq (xs : list Z) : list Z :=
  match xs with
  | [] => []
  | x :: xs' => merge_seq less [x] (sort_seq xs')
  end.

Lemma sort_seq_perm xs : sort_seq xs ≡ₚ xs.
Proof.
  induction xs as [|x xs IH]; [done|]. cbn [sort_seq].
  by rewrite merge_seq_perm, IH.
Qed.

Lemma sort_seq_sorted xs : Sorted le (sort_seq xs).
Proof.
  induction xs as [|x xs IH]; [constructor|]. cbn [sort_seq].
  apply merge_seq_sorted; [done|repeat constructor|done].
Qed.

Lemma sort_seq_stable x xs :
  List.filter (equiv_to less x) (sort_seq xs) = List.filter (equiv_to less x) xs.
Proof.
  induction xs as [|y xs IH]; [done|]. cbn [sort_seq].
  rewrite merge_seq_stable by first [done | apply sort_seq_sorted | repeat constructor].
  rewrite IH. simpl. by destruct (equiv_to less x y).
Qed.

Lemma equiv_to_refl x : equiv_to less x x = true.
Proof. unfold equiv_to. by rewrite less_irrefl. Qed.

Lemma filter_mem x xs y : y ∈ List.filter (equiv_to less x) xs → y ∈ xs.
Proof. rewrite !list_elem_of_In, List.filter_In. tauto. Qed.

(** A sorted sequence is determined by the order of its equivalent elements:
    there is one stable sort. *)
Lemma stable_sort_unique xs : ∀ ys,
  Sorted le xs → Sorted le ys → xs ≡ₚ ys →
  (∀ x, List.filter (equiv_to less x) xs = List.filter (equiv_to less x) ys) → xs = ys.
Proof.
  induction xs as [|x xs IH]; intros ys Hx Hy Hp Hf; [by apply Permutation_nil_l in Hp|].
  destruct ys as [|y ys]; [by apply Permutation_nil_r in Hp|].
  assert (equiv_to less x y = true) as Hxy.
  { unfold equiv_to. assert (le x y) as Hle.
    { assert (y ∈ x :: xs) as [->|Hin]%elem_of_cons by (rewrite Hp; left);
        [apply less_irrefl; done|by eapply Sorted_lower]. }
    assert (le y x) as Hle'.
    { assert (x ∈ y :: ys) as [->|Hin]%elem_of_cons by (rewrite <- Hp; left);
        [apply less_irrefl; done|by eapply Sorted_lower]. }
    unfold le_by in *. by rewrite Hle, Hle'. }
  pose proof (Hf x) as Hfx. simpl in Hfx. rewrite Hxy, equiv_to_refl in Hfx.
  injection Hfx as <- _. f_equal. apply IH.
  - by inversion Hx.
  - by inversion Hy.
  - by eapply Permutation_cons_inv.
  - intros z. specialize (Hf z). simpl in Hf. destruct (equiv_to less z x); congruence.
Qed.

(** Sorting a linked list leaves [sort_seq] of its sequence. *)
Lemma list_sort_seq fuel h l xs :
  list_rep h l xs → (length xs < fuel)%nat → Z.of_nat (length xs) < 4294967296 →
  ∃ h', list_sort less fuel l h = Ok ((), h') ∧ list_rep h' l (sort_seq xs).
Proof.
  intros Hr Hf Hw.
  destruct (list_sort_Ok less fuel h l xs Hr Hf Hw) as (h' & ys & R & Hr' & Hp & Hs & Hst & _).
  exists h'. split; [done|]. replace (sort_seq xs) with ys; [done|].
  apply stable_sort_unique; [done|apply sort_seq_sorted|by rewrite sort_seq_perm|].
  intros x. by rewrite Hst, sort_seq_stable.
Qed.

(** The first element of a nonempty sorted queue comes before every other. *)
Lemma Sorted_head_le x xs y : Sorted le (x :: xs) → y ∈ x :: xs → le x y.
Proof.
  intros Hs [->|Hin]%elem_of_cons; [by apply less_irrefl|by eapply Sorted_lower].
Qed.

Lemma sort_seq_nil xs : sort_seq xs = [] ↔ xs = [].
Proof.
  split; [|by intros ->]. intros E. pose proof (sort_seq_perm xs) as Hp. rewrite E in Hp.
  by apply Permutation_nil_l in Hp.
Qed.

End Queue.

(** Both constructions only consult the comparison on the elements at hand. *)
Lemma Sorted_ext (less less' : Z → Z → bool) xs :
  (∀ a b, a ∈ xs → b ∈ xs → less a b = less' a b) →
  Sorted (le_by less) xs → Sorted (le_by less') xs.
Proof.
  induction xs as [|x xs IH]; intros He Hs; [constructor|].
  inversion Hs as [|? ? Hs' Hh]; subst. constructor.
  - apply IH; [|done]. intros a b ??. apply He; by right.
  - destruct Hh as [|y ys Hy]; constructor. unfold le_by in *.
    rewrite <- He; [done|set_solver..].
Qed.
