(* ===== verification/Sched.v ===== *)
(** The thread system (threads/thread.c) and the synchronization primitives
    (threads/synch.c), with the interrupt level and the external interrupt
    entry they rely on (threads/interrupt.c) and the timer (devices/timer.c).

    The machine state is one record.  Threads, locks, semaphores and condition
    variables are named by their kernel addresses ([NULL] is 0); kernel lists
    are the sequences they represent.  A call that may switch threads leaves
    the rest of its callers on the running thread's kernel stack: a [frame] is
    what remains to be executed when the call it waits for returns.  A C
    function [f] whose last effect may be a switch becomes a function on
    states that first pushes the frames of what follows; the machine then pops
    the top frame of whichever thread is running ([step], in SchedSteps).  The
    only direct caller of [thread_block] that is not a call here is the wait of
    an interrupt queue (devices/intq.c), which Intq models with its own record
    of the waiting thread. *)
From S2P Require Import Prelude KList KListOps KListSort Queue.
From Stdlib Require Import Permutation Sorted.

(** * Data *)

Inductive thread_status := THREAD_RUNNING | THREAD_READY | THREAD_BLOCKED | THREAD_DYING.
#[global] Instance thread_status_eq_dec : EqDecision thread_status.
Proof. solve_decision. Defined.

(** What a kernel stack may hold: the remainder of a call, with the locals it
    uses ([old] is the saved interrupt level). *)
Inductive frame :=
  | FSetLevel (old : bool)              (** [intr_set_level (old_level)] *)
  | FSemaLoop (sema : Z) (old : bool)   (** back to the test of [sema_down] *)
  | FSemaDown (sema : Z)                (** a call of [sema_down] *)
  | FLockGot (lock : Z) (old : bool)    (** the end of [lock_acquire] *)
  | FLockAcquire (lock : Z)             (** the end of [cond_wait] *)
  | FDonateNext (donatee p : Z)         (** the end of [lock_priority_donate] *)
  | FRecalculate                        (** the end of [thread_set_priority] *)
  | FBroadcast (cond lock : Z)          (** back to the test of [cond_broadcast] *)
  | FTidLocked (t : Z)                  (** [allocate_tid] after [lock_acquire] *)
  | FTidReturn (t tid : Z)              (** [allocate_tid] returns into [t->tid] *)
  | FCreated (t : Z)                    (** [thread_create] after [allocate_tid] *)
  | FSleepDone (old : bool)             (** the end of [timer_sleep] *)
  | FIdleStart (sema : Z)               (** the start of [idle] *)
  | FIdleLoop                           (** the head of the loop of [idle] *)
  | FIdleHalt                           (** [sti; hlt] in the loop of [idle] *)
  | FIntrEnd                            (** [intr_handler] after the handler *)
  | FIret.                              (** return from the interrupt *)
#[global] Instance frame_eq_dec : EqDecision frame.
Proof. solve_decision. Defined.

Record thread := Thread {
  tid : Z;
  status : thread_status;
  priority : Z;
  wakeup_tick : Z;
  lock_own_list : list Z;
  plock_acq : Z;
  origin_priority : Z;
  pagedir : Z;
  stack : list frame
}.

Record semaphore := Semaphore { value : Z; waiters : list Z }.

Record sched := Sched {
  threads : gmap Z thread;        (* live [struct thread] pages *)
  ready_list : list Z;
  waiting_list : list Z;          (* sleeping threads of timer.c *)
  running : Z;                    (* the page the stack pointer is in *)
  idle_thread : Z;
  initial_thread : Z;
  tid_lock : Z;
  semas : gmap Z semaphore;
  holders : gmap Z Z;             (* [holder] of each lock *)
  conds : gmap Z (list Z);        (* waiting [semaphore_elem]s of each condition *)
  intr_on : bool;
  in_external_intr : bool;
  yield_on_return : bool;
  thread_ticks : Z;
  idle_ticks : Z;
  kernel_ticks : Z;
  user_ticks : Z;
  next_tid : Z;
  ticks : Z
}.

Definition PRI_MIN : Z := 0.
Definition PRI_DEFAULT : Z := 31.
Definition PRI_MAX : Z := 63.
Definition TIME_SLICE : Z := 4.
Definition TID_ERROR : Z := -1.

(** Field updates. *)
Definition set_status (v : thread_status) (t : thread) : thread :=
  Thread (tid t) v (priority t) (wakeup_tick t) (lock_own_list t) (plock_acq t)
         (origin_priority t) (pagedir t) (stack t).
Definition set_priority (v : Z) (t : thread) : thread :=
  Thread (tid t) (status t) v (wakeup_tick t) (lock_own_list t) (plock_acq t)
         (origin_priority t) (pagedir t) (stack t).
Definition set_wakeup (v : Z) (t : thread) : thread :=
  Thread (tid t) (status t) (priority t) v (lock_own_list t) (plock_acq t)
         (origin_priority t) (pagedir t) (stack t).
Definition set_own (v : list Z) (t : thread) : thread :=
  Thread (tid t) (status t) (priority t) (wakeup_tick t) v (plock_acq t)
         (origin_priority t) (pagedir t) (stack t).
Definition set_plock (v : Z) (t : thread) : thread :=
  Thread (tid t) (status t) (priority t) (wakeup_tick t) (lock_own_list t) v
         (origin_priority t) (pagedir t) (stack t).
Definition set_origin (v : Z) (t : thread) : thread :=
  Thread (tid t) (status t) (priority t) (wakeup_tick t) (lock_own_list t) (plock_acq t)
         v (pagedir t) (stack t).
Definition set_tid (v : Z) (t : thread) : thread :=
  Thread v (status t) (priority t) (wakeup_tick t) (lock_own_list t) (plock_acq t)
         (origin_priority t) (pagedir t) (stack t).
Definition set_stack (v : list frame) (t : thread) : thread :=
  Thread (tid t) (status t) (priority t) (wakeup_tick t) (lock_own_list t) (plock_acq t)
         (origin_priority t) (pagedir t) v.

Definition with_threads (v : gmap Z thread) (s : sched) : sched :=
  Sched v (ready_list s) (waiting_list s) (running s) (idle_thread s) (initial_thread s)
         (tid_lock s) (semas s) (holders s) (conds s) (intr_on s) (in_external_intr s)
         (yield_on_return s) (thread_ticks s) (idle_ticks s) (kernel_ticks s)
         (user_ticks s) (next_tid s) (ticks s).
Definition with_ready (v : list Z) (s : sched) : sched :=
  Sched (threads s) v (waiting_list s) (running s) (idle_thread s) (initial_thread s)
         (tid_lock s) (semas s) (holders s) (conds s) (intr_on s) (in_external_intr s)
         (yield_on_return s) (thread_ticks s) (idle_ticks s) (kernel_ticks s)
         (user_ticks s) (next_tid s) (ticks s).
Definition with_waiting (v : list Z) (s : sched) : sched :=
  Sched (threads s) (ready_list s) v (running s) (idle_thread s) (initial_thread s)
         (tid_lock s) (semas s) (holders s) (conds s) (intr_on s) (in_external_intr s)
         (yield_on_return s) (thread_ticks s) (idle_ticks s) (kernel_ticks s)
         (user_ticks s) (next_tid s) (ticks s).
Definition with_running (v : Z) (s : sched) : sched :=
  Sched (threads s) (ready_list s) (waiting_list s) v (idle_thread s) (initial_thread s)
         (tid_lock s) (semas s) (holders s) (conds s) (intr_on s) (in_external_intr s)
         (yield_on_return s) (thread_ticks s) (idle_ticks s) (kernel_ticks s)
         (user_ticks s) (next_tid s) (ticks s).
Definition with_idle (v : Z) (s : sched) : sched :=
  Sched (threads s) (ready_list s) (waiting_list s) (running s) v (initial_thread s)
         (tid_lock s) (semas s) (holders s) (conds s) (intr_on s) (in_external_intr s)
         (yield_on_return s) (thread_ticks s) (idle_ticks s) (kernel_ticks s)
         (user_ticks s) (next_tid s) (ticks s).
Definition with_semas (v : gmap Z semaphore) (s : sched) : sched :=
  Sched (threads s) (ready_list s) (waiting_list s) (running s) (idle_thread s)
         (initial_thread s) (tid_lock s) v (holders s) (conds s) (intr_on s)
         (in_external_intr s) (yield_on_return s) (thread_ticks s) (idle_ticks s)
         (kernel_ticks s) (user_ticks s) (next_tid s) (ticks s).
Definition with_holders (v : gmap Z Z) (s : sched) : sched :=
  Sched (threads s) (ready_list s) (waiting_list s) (running s) (idle_thread s)
         (initial_thread s) (tid_lock s) (semas s) v (conds s) (intr_on s)
         (in_external_intr s) (yield_on_return s) (thread_ticks s) (idle_ticks s)
         (kernel_ticks s) (user_ticks s) (next_tid s) (ticks s).
Definition with_conds (v : gmap Z (list Z)) (s : sched) : sched :=
  Sched (threads s) (ready_list s) (waiting_list s) (running s) (idle_thread s)
         (initial_thread s) (tid_lock s) (semas s) (holders s) v (intr_on s)
         (in_external_intr s) (yield_on_return s) (thread_ticks s) (idle_ticks s)
         (kernel_ticks s) (user_ticks s) (next_tid s) (ticks s).
Definition with_intr (v : bool) (s : sched) : sched :=
  Sched (threads s) (ready_list s) (waiting_list s) (running s) (idle_thread s)
         (initial_thread s) (tid_lock s) (semas s) (holders s) (conds s) v
         (in_external_intr s) (yield_on_return s) (thread_ticks s) (idle_ticks s)
         (kernel_ticks s) (user_ticks s) (next_tid s) (ticks s).
Definition with_external (v : bool) (s : sched) : sched :=
  Sched (threads s) (ready_list s) (waiting_list s) (running s) (idle_thread s)
         (initial_thread s) (tid_lock s) (semas s) (holders s) (conds s) (intr_on s) v
         (yield_on_return s) (thread_ticks s) (idle_ticks s) (kernel_ticks s)
         (user_ticks s) (next_tid s) (ticks s).
Definition with_yield (v : bool) (s : sched) : sched :=
  Sched (threads s) (ready_list s) (waiting_list s) (running s) (idle_thread s)
         (initial_thread s) (tid_lock s) (semas s) (holders s) (conds s) (intr_on s)
         (in_external_intr s) v (thread_ticks s) (idle_ticks s) (kernel_ticks s)
         (user_ticks s) (next_tid s) (ticks s).
Definition with_clock (tk it kt ut ti : Z) (s : sched) : sched :=
  Sched (threads s) (ready_list s) (waiting_list s) (running s) (idle_thread s)
         (initial_thread s) (tid_lock s) (semas s) (holders s) (conds s) (intr_on s)
         (in_external_intr s) (yield_on_return s) tk it kt ut (next_tid s) ti.
Definition with_next_tid (v : Z) (s : sched) : sched :=
  Sched (threads s) (ready_list s) (waiting_list s) (running s) (idle_thread s)
         (initial_thread s) (tid_lock s) (semas s) (holders s) (conds s) (intr_on s)
         (in_external_intr s) (yield_on_return s) (thread_ticks s) (idle_ticks s)
         (kernel_ticks s) (user_ticks s) v (ticks s).

(** Apply [f] to thread [t]. *)
Definition upd (t : Z) (f : thread → thread) (s : sched) : sched :=
  with_threads (alter f t (threads s)) s.

(** The thread structure at an address; a fault if there is none. *)
Definition thread_at (s : sched) (t : Z) : outcome thread := of_option (threads s !! t).
Definition sema_at (s : sched) (a : Z) : outcome semaphore := of_option (semas s !! a).
Definition holder_of (s : sched) (lock : Z) : outcome Z := of_option (holders s !! lock).

(** Fields of a thread read through its address. *)
Definition prio (s : sched) (t : Z) : Z :=
  match threads s !! t with Some th => priority th | None => 0 end.
Definition wakeup (s : sched) (t : Z) : Z :=
  match threads s !! t with Some th => wakeup_tick th | None => 0 end.

(** Push a frame on the running thread's kernel stack. *)
Definition push (f : frame) (s : sched) : sched :=
  upd (running s) (λ t, set_stack (f :: stack t) t) s.

(** The addresses of a lock's semaphore and of the tail sentinel of a
    semaphore's waiters ([struct lock] and [struct semaphore], synch.h). *)
Definition lock_sema (lock : Z) : Z := lock + 12.
Definition waiters_tail (sema : Z) : Z := sema + 12.

(** * Interrupt level (threads/interrupt.c) *)

Definition intr_enable (s : sched) : outcome sched :=
  assert (negb (in_external_intr s)) (Ok (with_intr true s)).
Definition intr_disable (s : sched) : sched := with_intr false s.
Definition intr_set_level (level : bool) (s : sched) : outcome sched :=
  if level then intr_enable s else Ok (intr_disable s).
Definition intr_yield_on_return (s : sched) : outcome sched :=
  assert (in_external_intr s) (Ok (with_yield true s)).

(** * Threads (threads/thread.c) *)

Definition higher_priority (s : sched) (x y : Z) : bool := prio s y <? prio s x.
Definition less_wakeup_tick (s : sched) (x y : Z) : bool := wakeup s x <? wakeup s y.

(** A page holds a thread when its magic is intact: it is live. *)
Definition is_thread (s : sched) (t : Z) : bool := bool_decide (is_Some (threads s !! t)).
Definition status_is (s : sched) (t : Z) (st : thread_status) : bool :=
  match threads s !! t with Some th => bool_decide (status th = st) | None => false end.

Definition next_thread_to_run (s : sched) : Z * sched :=
  match ready_list s with
  | [] => (idle_thread s, s)
  | t :: ts => (t, with_ready ts s)
  end.

Definition free_thread (t : Z) (s : sched) : sched := with_threads (delete t (threads s)) s.

Definition schedule_tail (prev : Z) (s : sched) : outcome sched :=
  let curr := running s in
  assert (negb (intr_on s))
  (let s := upd curr (set_status THREAD_RUNNING) s in
   let s := with_clock 0 (idle_ticks s) (kernel_ticks s) (user_ticks s) (ticks s) s in
   if negb (prev =? NULL) && status_is s prev THREAD_DYING && negb (prev =? initial_thread s)
   then assert (negb (prev =? curr)) (Ok (free_thread prev s))
   else Ok s).

Definition schedule (s : sched) : outcome sched :=
  let curr := running s in
  let '(next, s) := next_thread_to_run s in
  assert (negb (intr_on s))
  (assert (negb (status_is s curr THREAD_RUNNING))
  (assert (is_thread s next)
  (if curr =? next then schedule_tail NULL s
   else schedule_tail curr (with_running next s)))).

Definition thread_block (s : sched) : outcome sched :=
  assert (negb (in_external_intr s))
  (assert (negb (intr_on s))
  (schedule (upd (running s) (set_status THREAD_BLOCKED) s))).

Definition thread_unblock (t : Z) (s : sched) : outcome sched :=
  assert (is_thread s t)
  (let old := intr_on s in
   let s := intr_disable s in
   assert (status_is s t THREAD_BLOCKED)
   (let s := with_ready (insert_seq (higher_priority s) t (ready_list s)) s in
    let s := upd t (set_status THREAD_READY) s in
    intr_set_level old s)).

Definition thread_yield (s : sched) : outcome sched :=
  let curr := running s in
  assert (negb (in_external_intr s))
  (let old := intr_on s in
   let s := intr_disable s in
   let s := if curr =? idle_thread s then s
            else with_ready (insert_seq (higher_priority s) curr (ready_list s)) s in
   let s := upd curr (set_status THREAD_READY) s in
   schedule (push (FSetLevel old) s)).

(** The caller's [process_exit] runs before; it is not part of the switch. *)
Definition thread_exit (s : sched) : outcome sched :=
  assert (negb (in_external_intr s))
  (schedule (upd (running s) (set_status THREAD_DYING) (intr_disable s))).

Definition specific_thread_set_priority (new_priority new_t : Z) (s : sched) : outcome sched :=
  let old := intr_on s in
  let s := intr_disable s in
  thread_at s new_t ≫= λ _,
  let s := upd new_t (set_priority new_priority) s in
  match sort_seq (higher_priority s) (ready_list s) with
  | [] => Ok s
  | tfirst :: rest =>
      let s := with_ready (tfirst :: rest) s in
      if (prio s (running s) <=? prio s tfirst) && negb (in_external_intr s)
      then thread_yield (push (FSetLevel old) s)
      else intr_set_level old s
  end.

(** The word [recalculate_priority] reads as the priority of the first waiter.
    [priority] is the word before [elem] in [struct thread], so on an empty
    list it is [head.next], the address of the tail sentinel. *)
Definition front_priority (s : sched) (sema : Z) : Z :=
  match semas s !! sema with
  | Some (Semaphore _ (t :: _)) => prio s t
  | _ => s32 (waiters_tail sema)
  end.

Definition find_priority (s : sched) (locks : list Z) : Z :=
  foldl (λ found lock,
           let comparing := front_priority s (lock_sema lock) in
           if found <? comparing then comparing else found) 0 locks.

(** Interrupts are off while the locks are scanned and back at their level
    for the final call. *)
Definition recalculate_priority (s : sched) : outcome sched :=
  let tcurrent := running s in
  thread_at s tcurrent ≫= λ th,
  match lock_own_list th with
  | [] => specific_thread_set_priority (origin_priority th) tcurrent s
  | locks =>
      let found := find_priority s locks in
      if origin_priority th <? found
      then specific_thread_set_priority found tcurrent s
      else specific_thread_set_priority (origin_priority th) tcurrent s
  end.

Definition thread_set_priority (new_priority : Z) (s : sched) : outcome sched :=
  let s := upd (running s) (set_origin new_priority) s in
  specific_thread_set_priority new_priority (running s) (push FRecalculate s).

Definition thread_get_priority (s : sched) : Z := prio s (running s).

Definition thread_tick (s : sched) : outcome sched :=
  thread_at s (running s) ≫= λ t,
  let s :=
    if running s =? idle_thread s
    then with_clock (thread_ticks s) (s64 (idle_ticks s + 1)) (kernel_ticks s) (user_ticks s) (ticks s) s
    else if negb (pagedir t =? NULL)
    then with_clock (thread_ticks s) (idle_ticks s) (kernel_ticks s) (s64 (user_ticks s + 1)) (ticks s) s
    else with_clock (thread_ticks s) (idle_ticks s) (s64 (kernel_ticks s + 1)) (user_ticks s) (ticks s) s in
  let s := with_clock (u32 (thread_ticks s + 1)) (idle_ticks s) (kernel_ticks s) (user_ticks s) (ticks s) s in
  if TIME_SLICE <=? thread_ticks s then intr_yield_on_return s else Ok s.

(** * Semaphores, locks and condition variables (threads/synch.c) *)

Definition sema_init (sema v : Z) (s : sched) : sched :=
  with_semas (<[sema := Semaphore v []]> (semas s)) s.

(** The loop of [sema_down], entered with interrupts off. *)
Definition sema_loop (sema : Z) (old : bool) (s : sched) : outcome sched :=
  sema_at s sema ≫= λ sm,
  if value sm =? 0
  then let s := with_semas (<[sema := Semaphore (value sm) (waiters sm ++ [running s])]> (semas s)) s in
       thread_block (push (FSemaLoop sema old) s)
  else intr_set_level old
         (with_semas (<[sema := Semaphore (u32 (value sm - 1)) (waiters sm)]> (semas s)) s).

Definition sema_down (sema : Z) (s : sched) : outcome sched :=
  assert (negb (in_external_intr s))
  (let old := intr_on s in
   sema_loop sema old (intr_disable s)).

Definition sema_try_down (sema : Z) (s : sched) : outcome (bool * sched) :=
  sema_at s sema ≫= λ sm,
  let old := intr_on s in
  let s := intr_disable s in
  let '(success, s) :=
    if 0 <? value sm
    then (true, with_semas (<[sema := Semaphore (u32 (value sm - 1)) (waiters sm)]> (semas s)) s)
    else (false, s) in
  intr_set_level old s ≫= λ s, Ok (success, s).

(** Wake the first waiter of highest priority. *)
Definition sema_wake (sema : Z) (s : sched) : outcome sched :=
  sema_at s sema ≫= λ sm,
  match waiters sm with
  | [] => Ok s
  | ws =>
      match (if (1 <? length ws)%nat then sort_seq (higher_priority s) ws else ws) with
      | [] => Err AssertFail
      | t :: rest =>
          thread_unblock t (with_semas (<[sema := Semaphore (value sm) rest]> (semas s)) s)
      end
  end.

Definition sema_incr (sema : Z) (s : sched) : outcome sched :=
  sema_at s sema ≫= λ sm,
  Ok (with_semas (<[sema := Semaphore (u32 (value sm + 1)) (waiters sm)]> (semas s)) s).

Definition sema_up (sema : Z) (s : sched) : outcome sched :=
  let old := intr_on s in
  sema_wake sema (intr_disable s) ≫= λ s,
  sema_incr sema s ≫= λ s,
  recalculate_priority (push (FSetLevel old) s).

Definition lock_init (lock : Z) (s : sched) : sched :=
  sema_init (lock_sema lock) 1 (with_holders (<[lock := NULL]> (holders s)) s).

Definition lock_held_by_current_thread (lock : Z) (s : sched) : outcome bool :=
  holder_of s lock ≫= λ h, Ok (h =? running s).

Definition lock_priority_donate (lock new_priority : Z) (s : sched) : outcome sched :=
  if lock =? NULL then Ok s else
  holder_of s lock ≫= λ tdonatee,
  thread_at s tdonatee ≫= λ th,
  if priority th <? new_priority
  then specific_thread_set_priority new_priority tdonatee (push (FDonateNext tdonatee new_priority) s)
  else Ok s.

(** What [lock_priority_donate] does after raising [tdonatee]. *)
Definition donate_next (tdonatee new_priority : Z) (s : sched) : outcome sched :=
  thread_at s tdonatee ≫= λ th,
  if plock_acq th =? NULL then Ok s
  else lock_priority_donate (plock_acq th) new_priority s.

Definition lock_acquire (lock : Z) (s : sched) : outcome sched :=
  assert (negb (in_external_intr s))
  (holder_of s lock ≫= λ h,
   assert (negb (h =? running s))
   (let old := intr_on s in
    let s := intr_disable s in
    let tcurrent := running s in
    let s := push (FLockGot lock old) s in
    if negb (h =? NULL)
    then let s := upd tcurrent (set_plock lock) s in
         let s := push (FSemaDown (lock_sema lock)) s in
         lock_priority_donate lock (prio s tcurrent) s
    else sema_down (lock_sema lock) s)).

(** What [lock_acquire] does once its semaphore is down. *)
Definition lock_got (lock : Z) (old : bool) (s : sched) : outcome sched :=
  let tcurrent := running s in
  let s := upd tcurrent (λ t, set_plock NULL (set_own (lock_own_list t ++ [lock]) t)) s in
  intr_set_level old (with_holders (<[lock := tcurrent]> (holders s)) s).

Definition lock_try_acquire (lock : Z) (s : sched) : outcome (bool * sched) :=
  holder_of s lock ≫= λ h,
  assert (negb (h =? running s))
  (sema_try_down (lock_sema lock) s ≫= λ r,
   let '(success, s) := r in
   if success : bool then Ok (true, with_holders (<[lock := running s]> (holders s)) s)
   else Ok (false, s)).

(** The sequence of a list after [list_remove] of one element. *)
Fixpoint remove_first (x : Z) (xs : list Z) : list Z :=
  match xs with
  | [] => []
  | y :: ys => if x =? y then ys else y :: remove_first x ys
  end.

(** [list_remove (&lock->own_elem)] has a defined effect only when the lock is
    in the list of its holder. *)
Definition lock_release (lock : Z) (s : sched) : outcome sched :=
  holder_of s lock ≫= λ h,
  assert (h =? running s)
  (let old := intr_on s in
   let s := intr_disable s in
   let s := with_holders (<[lock := NULL]> (holders s)) s in
   thread_at s (running s) ≫= λ th,
   if negb (bool_decide (lock ∈ lock_own_list th)) then Err WildAccess else
   let s := upd (running s) (set_own (remove_first lock (lock_own_list th))) s in
   sema_up (lock_sema lock) (push (FSetLevel old) s)).

Definition cond_at (s : sched) (c : Z) : outcome (list Z) := of_option (conds s !! c).

Definition cond_init (c : Z) (s : sched) : sched := with_conds (<[c := []]> (conds s)) s.

Definition higher_priority_insema (s : sched) (x y : Z) : bool :=
  front_priority s y <? front_priority s x.

(** [waiter] is the address of the [semaphore_elem]'s semaphore, on the
    caller's stack. *)
Definition cond_wait (c lock waiter : Z) (s : sched) : outcome sched :=
  assert (negb (in_external_intr s))
  (lock_held_by_current_thread lock s ≫= λ held,
   assert held
   (let s := sema_init waiter 0 s in
    cond_at s c ≫= λ ws,
    let s := with_conds (<[c := ws ++ [waiter]]> (conds s)) s in
    lock_release lock (push (FSemaDown waiter) (push (FLockAcquire lock) s)))).

Definition cond_signal (c lock : Z) (s : sched) : outcome sched :=
  assert (negb (in_external_intr s))
  (lock_held_by_current_thread lock s ≫= λ held,
   assert held
   (cond_at s c ≫= λ ws,
    match sort_seq (higher_priority_insema s) ws with
    | [] => Ok s
    | waiter :: rest => sema_up waiter (with_conds (<[c := rest]> (conds s)) s)
    end)).

Definition cond_broadcast (c lock : Z) (s : sched) : outcome sched :=
  cond_at s c ≫= λ ws,
  match ws with
  | [] => Ok s
  | _ => cond_signal c lock (push (FBroadcast c lock) s)
  end.

(** * Creating threads *)

(** [init_thread] on a page; the fields of user processes are not part of the
    scheduler's state.  The wake-up time it clears is the initial thread's. *)
Definition init_thread (t p : Z) (body : list frame) (s : sched) : outcome sched :=
  assert (negb (t =? NULL))
  (assert ((PRI_MIN <=? p) && (p <=? PRI_MAX))
  (let s := with_threads (<[t := Thread 0 THREAD_BLOCKED p 0 [] NULL p NULL body]> (threads s)) s in
   Ok (upd (initial_thread s) (set_wakeup 0) s))).

Definition allocate_tid (t : Z) (s : sched) : outcome sched :=
  lock_acquire (tid_lock s) (push (FTidLocked t) s).

(** [tid = next_tid++; lock_release (&tid_lock); return tid]. *)
Definition tid_locked (t : Z) (s : sched) : outcome sched :=
  let tid := next_tid s in
  lock_release (tid_lock s) (push (FTidReturn t tid) (with_next_tid (s32 (next_tid s + 1)) s)).

Definition tid_return (t tid : Z) (s : sched) : outcome sched :=
  thread_at s t ≫= λ _, Ok (upd t (set_tid tid) s).

(** [t] is the page [palloc_get_page] returned; [body] what the thread's
    function does, entered through [kernel_thread] with interrupts enabled. *)
Definition thread_create (t p : Z) (body : list frame) (s : sched) : outcome sched :=
  if t =? NULL then Ok s else
  init_thread t p (FSetLevel true :: body) s ≫= λ s,
  allocate_tid t (push (FCreated t) s).

(** [thread_create] after the stack frames are set up. *)
Definition thread_created (t : Z) (s : sched) : outcome sched :=
  thread_unblock t s ≫= λ s,
  specific_thread_set_priority (prio s (running s)) (running s) s.

Definition idle_start (sema : Z) (s : sched) : outcome sched :=
  sema_up sema (push FIdleLoop (with_idle (running s) s)).
Definition idle_loop (s : sched) : outcome sched :=
  thread_block (push FIdleHalt (intr_disable s)).
Definition idle_halt (s : sched) : outcome sched :=
  intr_enable s ≫= λ s, Ok (push FIdleLoop s).

(** [main], the initial thread, is the code [thread_init] runs in. *)
Definition thread_init (main tidlock readylock filelock : Z) : outcome sched :=
  let s := Sched ∅ [] [] main NULL main tidlock ∅ ∅ ∅ false false false 0 0 0 0 1 0 in
  let s := lock_init filelock (lock_init readylock (lock_init tidlock s)) in
  init_thread main PRI_DEFAULT [] s ≫= λ s,
  let s := upd main (set_status THREAD_RUNNING) s in
  allocate_tid main s.

Definition thread_start (page idle_started : Z) (s : sched) : outcome sched :=
  let s := sema_init idle_started 0 s in
  thread_create page PRI_MIN [FIdleStart idle_started]
    (push (FSetLevel true) (push (FSemaDown idle_started) s)).

(** * The timer (devices/timer.c) *)

Definition timer_sleep (n : Z) (s : sched) : outcome sched :=
  let start := ticks s in
  assert (intr_on s)
  (let old := intr_on s in
   let s := intr_disable s in
   let curr := running s in
   let s := upd curr (set_wakeup (s32 (s64 (start + n)))) s in
   let s := with_waiting (insert_seq (less_wakeup_tick s) curr (waiting_list s)) s in
   thread_block (push (FSleepDone old) s)).

(** The loop of the handler over the threads of [waiting_list]. *)
Fixpoint wake_loop (ws : list Z) (s : sched) : outcome sched :=
  match ws with
  | [] => Ok s
  | i :: ws' =>
      if wakeup s i <=? ticks s
      then thread_unblock i (with_waiting ws' s) ≫= wake_loop ws'
      else Ok s
  end.

Definition timer_interrupt (s : sched) : outcome sched :=
  let s := with_clock (thread_ticks s) (idle_ticks s) (kernel_ticks s) (user_ticks s)
                      (s64 (ticks s + 1)) s in
  thread_tick s ≫= λ s, wake_loop (waiting_list s) s.

(** * External interrupts (threads/interrupt.c) *)

(** The gate clears the interrupt flag, [intr_handler] enters the external
    context and runs the handler; the rest waits on the stack. *)
Definition intr_handler (handler : sched → outcome sched) (s : sched) : outcome sched :=
  let s := push FIntrEnd (push FIret (intr_disable s)) in
  assert (negb (in_external_intr s))
  (handler (with_yield false (with_external true s))).

Definition intr_end (s : sched) : outcome sched :=
  assert (negb (intr_on s))
  (assert (in_external_intr s)
  (let s := with_external false s in
   if yield_on_return s then thread_yield s else Ok s)).

Definition intr_iret (s : sched) : outcome sched := Ok (with_intr true s).
