(* ===== verification/SchedSteps.v ===== *)
(** Executions of the thread system: the machine that resumes kernel stacks,
    the calls kernel code makes of threads/thread.c, threads/synch.c and
    devices/timer.c, the external interrupts, and the boot sequence. *)
From S2P Require Import Prelude KList KListOps KListSort Queue Sched.
From Stdlib Require Import Permutation Sorted.

(** * Resuming a kernel stack *)

Definition run_frame (f : frame) (s : sched) : outcome sched :=
  match f with
  | FSetLevel old => intr_set_level old s
  | FSemaLoop sema old => sema_loop sema old s
  | FSemaDown sema => sema_down sema s
  | FLockGot lock old => lock_got lock old s
  | FLockAcquire lock => lock_acquire lock s
  | FDonateNext t p => donate_next t p s
  | FRecalculate => recalculate_priority s
  | FBroadcast c lock => cond_broadcast c lock s
  | FTidLocked t => tid_locked t s
  | FTidReturn t tid => tid_return t tid s
  | FCreated t => thread_created t s
  | FSleepDone old => intr_set_level old s
  | FIdleStart sema => idle_start sema s
  | FIdleLoop => idle_loop s
  | FIdleHalt => idle_halt s
  | FIntrEnd => intr_end s
  | FIret => intr_iret s
  end.

(** The running thread's top frame, taken off its stack. *)
Definition pop (s : sched) : option (frame * sched) :=
  match threads s !! running s with
  | Some th =>
      match stack th with
      | [] => None
      | f :: fs => Some (f, upd (running s) (set_stack fs) s)
      end
  | None => None
  end.

(** Resume stacks [n] times, or until the running thread's is empty. *)
Fixpoint resume (n : nat) (s : sched) : outcome sched :=
  match n with
  | O => Ok s
  | S n' =>
      match pop s with
      | None => Ok s
      | Some (f, s') => run_frame f s' ≫= resume n'
      end
  end.

(** * Calls and interrupts *)

Inductive call :=
  | CYield
  | CExit
  | CSetPriority (p : Z)
  | CCreate (page p : Z)
  | CSemaInit (sema v : Z)
  | CSemaDown (sema : Z)
  | CSemaTryDown (sema : Z)
  | CSemaUp (sema : Z)
  | CLockInit (lock : Z)
  | CLockAcquire (lock : Z)
  | CLockTryAcquire (lock : Z)
  | CLockRelease (lock : Z)
  | CCondInit (c : Z)
  | CCondWait (c lock waiter : Z)
  | CCondSignal (c lock : Z)
  | CCondBroadcast (c lock : Z)
  | CSleep (n : Z).

Definition run_call (c : call) (s : sched) : outcome sched :=
  match c with
  | CYield => thread_yield s
  | CExit => thread_exit s
  | CSetPriority p => thread_set_priority p s
  | CCreate page p => thread_create page p [] s
  | CSemaInit sema v => Ok (sema_init sema v s)
  | CSemaDown sema => sema_down sema s
  | CSemaTryDown sema => sema_try_down sema s ≫= λ r, Ok (snd r)
  | CSemaUp sema => sema_up sema s
  | CLockInit lock => Ok (lock_init lock s)
  | CLockAcquire lock => lock_acquire lock s
  | CLockTryAcquire lock => lock_try_acquire lock s ≫= λ r, Ok (snd r)
  | CLockRelease lock => lock_release lock s
  | CCondInit c => Ok (cond_init c s)
  | CCondWait c lock waiter => cond_wait c lock waiter s
  | CCondSignal c lock => cond_signal c lock s
  | CCondBroadcast c lock => cond_broadcast c lock s
  | CSleep n => timer_sleep n s
  end.

(** An address that is not the semaphore inside an initialized lock. *)
Definition plain_sema (s : sched) (sema : Z) : Prop := holders s !! (sema - 12) = None.
(** A semaphore object that may be (re)initialized: nobody waits on it. *)
Definition idle_sema (s : sched) (sema : Z) : Prop :=
  plain_sema s sema ∧ ∀ sm, semas s !! sema = Some sm → waiters sm = [].

(** What the interface asks of its callers: a lock's semaphore is only used
    through the lock, an object is not initialized while it is in use, and
    [palloc_get_page] returns no page that holds a live thread. *)
Definition allowed (s : sched) (c : call) : Prop :=
  match c with
  | CCreate page _ => page = NULL ∨ threads s !! page = None
  | CSemaInit sema v => idle_sema s sema ∧ is_u32 v
  | CSemaDown sema | CSemaTryDown sema | CSemaUp sema => plain_sema s sema
  | CLockInit lock => holders s !! lock = None ∧ semas s !! lock_sema lock = None
  | CCondWait _ _ waiter => idle_sema s waiter
  | _ => True
  end.

Inductive irq := IrqTimer | IrqDevice (sema : Z).

(** The timer's handler, and a device's, which signals a semaphore. *)
Definition irq_handler (i : irq) : sched → outcome sched :=
  match i with IrqTimer => timer_interrupt | IrqDevice sema => sema_up sema end.
Definition irq_allowed (s : sched) (i : irq) : Prop :=
  match i with IrqTimer => True | IrqDevice sema => plain_sema s sema end.

(** The running thread has returned to its own code; the idle thread has no
    other code than its loop. *)
Definition at_base (s : sched) : Prop :=
  running s ≠ idle_thread s ∧ ∃ th, threads s !! running s = Some th ∧ stack th = [].

(** One step: the running thread resumes its stack, or makes a call, or is
    interrupted while interrupts are enabled. *)
Inductive step : sched → sched → Prop :=
  | step_resume s f s1 s' : pop s = Some (f, s1) → run_frame f s1 = Ok s' → step s s'
  | step_call s c s' : at_base s → allowed s c → run_call c s = Ok s' → step s s'
  | step_irq s i s' :
      intr_on s = true → irq_allowed s i → intr_handler (irq_handler i) s = Ok s' → step s s'.

(** * Boot *)

(** [thread_init] and [thread_start], on given pages and static objects, run
    until the initial thread continues. *)
Definition boot (main page tidlock readylock filelock idle_started : Z) : outcome sched :=
  thread_init main tidlock readylock filelock ≫= λ s,
  resume 20 s ≫= λ s,
  thread_start page idle_started s ≫= λ s,
  resume 40 s.

Definition sample_boot : outcome sched :=
  boot 3221282816 3222274048 3221400000 3221400064 3221400128 3221286000.
