(* ===== verification/SchedInv.v ===== *)
(** The invariant of the thread system, and its preservation by the primitive
    changes of state that threads/thread.c and threads/synch.c are made of.
    SchedProofs composes them into the operations. *)
From S2P Require Import Prelude KList KListOps KListSort Queue Sched SchedSteps.
From Stdlib Require Import Permutation Sorted.

(** * Sums over the live threads *)

Definition total {A} (f : A → Z) (m : gmap Z A) : Z := map_fold (λ _ a n, f a + n) 0 m.

Section Total.
Context {A : Type} (f : A → Z).

Lemma total_new (m : gmap Z A) k a : m !! k = None → total f (<[k := a]> m) = f a + total f m.
Proof. intros. unfold total. rewrite map_fold_insert_L; [done| |done]. intros. lia. Qed.

Lemma total_delete (m : gmap Z A) k a : m !! k = Some a → total f m = f a + total f (delete k m).
Proof.
  intros E. rewrite <- (insert_id m k a E) at 1. rewrite <- insert_delete_eq.
  by rewrite total_new by apply lookup_delete_eq.
Qed.

Lemma total_insert (m : gmap Z A) k a b :
  m !! k = Some a → total f (<[k := b]> m) = total f m - f a + f b.
Proof.
  intros E. rewrite (total_delete m k a E). rewrite <- insert_delete_eq.
  rewrite total_new by apply lookup_delete_eq. lia.
Qed.

Context (Hf : ∀ a, 0 <= f a).

Lemma total_nonneg (m : gmap Z A) : 0 <= total f m.
Proof.
  induction m as [|k a m E IH] using map_ind; [done|]. rewrite total_new by done.
  specialize (Hf a). lia.
Qed.

Lemma total_ge (m : gmap Z A) k a : m !! k = Some a → f a <= total f m.
Proof.
  intros E. rewrite (total_delete m k a E). pose proof (total_nonneg (delete k m)). lia.
Qed.

Lemma total_ge2 (m : gmap Z A) k a j b :
  m !! k = Some a → m !! j = Some b → k ≠ j → f a + f b <= total f m.
Proof.
  intros Ek Ej Hn. rewrite (total_delete m k a Ek).
  pose proof (total_ge (delete k m) j b). rewrite lookup_delete_ne in H by done.
  specialize (H Ej). lia.
Qed.

Lemma total_zero (m : gmap Z A) : (∀ k a, m !! k = Some a → f a = 0) → total f m = 0.
Proof.
  induction m as [|k a m E IH] using map_ind; intros H0; [done|]. rewrite total_new by done.
  rewrite (H0 k a) by apply lookup_insert_eq. rewrite IH; [done|].
  intros j b Ej. apply (H0 j). rewrite lookup_insert_ne; congruence.
Qed.
End Total.

(** * Where a thread is *)

Inductive place :=
  | PRun | PReady | PDying
  | PSema (sema : Z)   (** blocked in [sema_down] *)
  | PTimer             (** blocked in [timer_sleep] *)
  | PIdle              (** blocked in [idle] *)
  | PNew.              (** not started yet *)
#[global] Instance place_eq_dec : EqDecision place.
Proof. solve_decision. Defined.

Definition place_of (th : thread) : place :=
  match status th with
  | THREAD_RUNNING => PRun
  | THREAD_READY => PReady
  | THREAD_DYING => PDying
  | THREAD_BLOCKED =>
      match stack th with
      | FSemaLoop a _ :: _ => PSema a
      | FSleepDone _ :: _ => PTimer
      | FIdleHalt :: _ => PIdle
      | _ => PNew
      end
  end.

Definition queued (p : place) : bool :=
  match p with PReady | PSema _ | PTimer => true | _ => false end.

(** The list that holds the threads of a place. *)
Definition queue (s : sched) (p : place) : list Z :=
  match p with
  | PReady => ready_list s
  | PSema a => match semas s !! a with Some sm => waiters sm | None => [] end
  | PTimer => waiting_list s
  | _ => []
  end.

(** * Frames *)

Definition wait_frame (f : frame) : bool :=
  match f with FSemaLoop _ _ | FSleepDone _ | FIdleHalt => true | _ => false end.
Definition no_wait (fs : list frame) : Prop := Forall (λ f, wait_frame f = false) fs.

Definition idle_frame (f : frame) : bool :=
  match f with FSetLevel _ | FIdleLoop | FIdleHalt | FIntrEnd | FIret => true | _ => false end.

(** Whether a stack is inside the loop of [idle]. *)
Definition has_idle (fs : list frame) : bool :=
  existsb (λ f, match f with FIdleLoop | FIdleHalt => true | _ => false end) fs.

(** [lock_acquire] works on an initialized lock, a [sema_down] made for a lock
    is on the semaphore of that lock, and [idle] starts only once. *)
Fixpoint frames_ok (locks : gmap Z Z) (fs : list frame) : Prop :=
  match fs with
  | [] => True
  | f :: fs' =>
      match f with
      | FLockGot l _ => is_Some (locks !! l)
      | FSemaDown a | FSemaLoop a _ =>
          match fs' with FLockGot l _ :: _ => a = lock_sema l | _ => True end
      | FIdleStart _ => False
      | _ => True
      end ∧ frames_ok locks fs'
  end.

(** Locks granted to a thread that has not recorded them yet: a [FLockGot]
    whose [sema_down] has returned. *)
Fixpoint grants (l : Z) (fs : list frame) : Z :=
  match fs with
  | [] => 0
  | f :: fs' =>
      match f with
      | FSemaDown _ | FSemaLoop _ _ =>
          match fs' with FLockGot _ _ :: fs'' => grants l fs'' | _ => grants l fs' end
      | FLockGot l' _ => (if l =? l' then 1 else 0) + grants l fs'
      | _ => grants l fs'
      end
  end.

Definition count (l : Z) (xs : list Z) : Z := Z.of_nat (length (List.filter (Z.eqb l) xs)).

(** How often a thread owns, or is about to own, a lock. *)
Definition tokens (l : Z) (th : thread) : Z := count l (lock_own_list th) + grants l (stack th).

(** A thread woken from a semaphore that has not looked at it again. *)
Definition retries (a : Z) (th : thread) : Z :=
  match stack th with
  | FSemaLoop b _ :: _ =>
      if (a =? b) && negb (bool_decide (status th = THREAD_BLOCKED)) then 1 else 0
  | _ => 0
  end.

(** Calls of [thread_create] in progress for page [t]. *)
Definition creates (t : Z) (th : thread) : Z :=
  Z.of_nat (length (List.filter (λ f, bool_decide (f = FCreated t)) (stack th))).

(** * The invariant *)

(** Each list of threads holds exactly the threads whose place it is, once. *)
Definition queues_ok (s : sched) : Prop :=
  ∀ p, NoDup (queue s p) ∧
    ∀ t, t ∈ queue s p ↔
      queued p = true ∧ (p = PReady → t ≠ idle_thread s) ∧
      ∃ th, threads s !! t = Some th ∧ place_of th = p.

(** The ready list is in nonincreasing order of priority. *)
Definition sorted_ok (s : sched) : Prop :=
  Sorted (le_by (higher_priority s)) (ready_list s).

Definition stack_ok (s : sched) (t : Z) (th : thread) : Prop :=
  no_wait (tail (stack th)) ∧ frames_ok (holders s) (stack th) ∧
  (status th = THREAD_DYING → stack th = []) ∧
  (place_of th = PNew → stack th = [FSetLevel true]) ∧
  (has_idle (stack th) = true → t = idle_thread s) ∧
  (t = idle_thread s →
     status th ≠ THREAD_DYING ∧ place_of th ≠ PNew ∧
     Forall (λ f, idle_frame f = true) (stack th)).

Definition stacks_ok (s : sched) : Prop :=
  is_Some (threads s !! idle_thread s) ∧
  ∀ t th, threads s !! t = Some th → stack_ok s t th.

Definition creates_ok (s : sched) : Prop :=
  ∀ t, total (creates t) (threads s) <= 1 ∧
    (0 < total (creates t) (threads s) →
     ∃ th, threads s !! t = Some th ∧ place_of th = PNew).

(** A lock is owned by at most one thread, and by none while its semaphore is
    up; the owner is its holder. *)
Definition locks_ok (s : sched) : Prop :=
  (∀ l h, holders s !! l = Some h →
     ∃ sm, semas s !! lock_sema l = Some sm ∧ value sm + total (tokens l) (threads s) <= 1) ∧
  (∀ l, holders s !! l = None → total (tokens l) (threads s) = 0) ∧
  (∀ t th l, threads s !! t = Some th → l ∈ lock_own_list th → holders s !! l = Some t).

(** No wake-up is lost: while a thread waits, every unit of the semaphore has
    a thread awake to take it. *)
Definition wakeups_ok (s : sched) : Prop :=
  ∀ a sm, semas s !! a = Some sm →
    is_u32 (value sm) ∧ (waiters sm = [] ∨ value sm <= total (retries a) (threads s)).

Definition conds_ok (s : sched) : Prop :=
  ∀ c ws w, conds s !! c = Some ws → w ∈ ws → plain_sema s w ∧ is_Some (semas s !! w).

Record core (s : sched) : Prop := {
  core_queues : queues_ok s;
  core_sorted : sorted_ok s;
  core_stacks : stacks_ok s;
  core_creates : creates_ok s;
  core_locks : locks_ok s;
  core_wakeups : wakeups_ok s;
  core_conds : conds_ok s
}.

(** Exactly the running thread has the status, and it never resumes a wait
    with interrupts on. *)
Definition run_ok (s : sched) : Prop :=
  (∃ th, threads s !! running s = Some th ∧ status th = THREAD_RUNNING ∧
         (intr_on s = true → no_wait (stack th))) ∧
  ∀ t th, threads s !! t = Some th → status th = THREAD_RUNNING → t = running s.

Definition sched_inv (s : sched) : Prop := core s ∧ run_ok s.

(** The state inside an operation: nothing on the running thread's stack is
    the remainder of a wait. *)
Definition clean (s : sched) : Prop :=
  ∃ th, threads s !! running s = Some th ∧ no_wait (stack th).
Definition ok (s : sched) : Prop := sched_inv s ∧ clean s.

(** * Changing one thread *)

Lemma grants_nonneg l fs : 0 <= grants l fs ∧ 0 <= grants l (tail fs).
Proof.
  induction fs as [|f fs [IH1 IH2]]; [done|]. split; [|done].
  destruct f; simpl; try done; try (destruct (_ =? _); lia);
    destruct fs as [|[] fs]; simpl in *; try done; lia.
Qed.
Lemma tokens_nonneg l th : 0 <= tokens l th.
Proof. unfold tokens, count. pose proof (grants_nonneg l (stack th)). lia. Qed.
Lemma retries_nonneg a th : 0 <= retries a th.
Proof. unfold retries. repeat case_match; lia. Qed.
Lemma creates_nonneg t th : 0 <= creates t th.
Proof. unfold creates. lia. Qed.
#[export] Hint Resolve tokens_nonneg retries_nonneg creates_nonneg : machine.

Lemma with_threads_threads m s : threads (with_threads m s) = m.
Proof. by destruct s. Qed.

Lemma upd_insert s t th f :
  threads s !! t = Some th → upd t f s = with_threads (<[t := f th]> (threads s)) s.
Proof.
  intros E. unfold upd. f_equal. apply map_eq. intros u. destruct (decide (u = t)) as [->|].
  - by rewrite lookup_alter_eq, lookup_insert_eq, E.
  - by rewrite lookup_alter_ne, lookup_insert_ne by done.
Qed.

Lemma upd_none s t f : threads s !! t = None → upd t f s = s.
Proof.
  intros E. unfold upd. assert (alter f t (threads s) = threads s) as ->; [|by destruct s].
  apply map_eq. intros u. destruct (decide (u = t)) as [->|].
  - by rewrite lookup_alter_eq, E.
  - by rewrite lookup_alter_ne.
Qed.

Lemma total_upd (g : thread → Z) s t f :
  (∀ th, g (f th) = g th) → total g (threads (upd t f s)) = total g (threads s).
Proof.
  intros Hg. destruct (threads s !! t) as [th|] eqn:E; [|by rewrite upd_none].
  rewrite (upd_insert _ _ _ _ E). simpl. rewrite (total_insert _ _ _ _ _ E), Hg. lia.
Qed.

Section Change.
Context (s s' : sched) (t : Z) (th th' : thread).
Context (Hth : threads s !! t = Some th) (Hm : threads s' = <[t := th']> (threads s)).
Context (Hidle : idle_thread s' = idle_thread s).

Lemma change_lookup u :
  threads s' !! u = if decide (u = t) then Some th' else threads s !! u.
Proof.
  rewrite Hm. destruct (decide (u = t)) as [->|]; [apply lookup_insert_eq|].
  by apply lookup_insert_ne.
Qed.

Lemma queues_change :
  queues_ok s →
  (∀ p, NoDup (queue s' p) ∧ ∀ u, u ∈ queue s' p ↔
     (u ≠ t ∧ u ∈ queue s p) ∨
     (u = t ∧ queued p = true ∧ (p = PReady → t ≠ idle_thread s) ∧ place_of th' = p)) →
  queues_ok s'.
Proof.
  intros Hq Hc p. destruct (Hc p) as [Hn Hi]. split; [done|]. intros u. rewrite Hi, Hidle.
  rewrite change_lookup. destruct (decide (u = t)) as [->|Hu].
  - split; [intros [[? _]|(_ & ? & ? & ?)]; naive_solver|].
    intros (? & ? & th0 & [= <-] & ?). right. done.
  - destruct (Hq p) as [_ Hp]. rewrite <- Hp. naive_solver.
Qed.

(** A thread that stays where it is. *)
Lemma queues_stay :
  queues_ok s → place_of th' = place_of th → (∀ p, queue s' p ≡ₚ queue s p) → queues_ok s'.
Proof.
  intros Hq Hp Hperm. apply queues_change; [done|]. intros p.
  destruct (Hq p) as [Hn Hi]. split; [by rewrite Hperm|]. intros u. rewrite Hperm.
  destruct (decide (u = t)) as [->|]; [|naive_solver]. rewrite Hi, Hth. naive_solver.
Qed.

Lemma prio_change u : priority th' = priority th → prio s' u = prio s u.
Proof.
  intros E. unfold prio. rewrite change_lookup. destruct (decide (u = t)) as [->|]; [|done].
  by rewrite Hth.
Qed.

Lemma sorted_change :
  sorted_ok s → priority th' = priority th → ready_list s' = ready_list s → sorted_ok s'.
Proof.
  intros Hr Ep Er. unfold sorted_ok. rewrite Er.
  revert Hr. apply Sorted_mono. intros a b. unfold le_by, higher_priority.
  by rewrite !prio_change.
Qed.

Lemma frames_ok_mono (h h' : gmap Z Z) fs :
  (∀ l, is_Some (h !! l) → is_Some (h' !! l)) → frames_ok h fs → frames_ok h' fs.
Proof.
  intros Hh. induction fs as [|f fs IH]; [done|]. simpl. intros [Hf Hfs]. split; [|auto].
  destruct f; auto.
Qed.

Lemma stack_ok_mono u thu :
  (∀ l, is_Some (holders s !! l) → is_Some (holders s' !! l)) →
  stack_ok s u thu → stack_ok s' u thu.
Proof.
  intros Hh (W & F & D & P & I & Id). unfold stack_ok. rewrite Hidle.
  splits; try done. by eapply frames_ok_mono.
Qed.

Lemma stacks_change :
  stacks_ok s → (∀ l, is_Some (holders s !! l) → is_Some (holders s' !! l)) →
  stack_ok s t th' → stacks_ok s'.
Proof.
  intros [Hi Hs] Hh Ht. unfold stacks_ok. split.
  - rewrite Hidle, change_lookup. destruct (decide _); [done|]. done.
  - intros u thu. rewrite change_lookup. intros Eu. apply stack_ok_mono; [done|].
    destruct (decide (u = t)) as [->|]; [by simplify_eq|]. by apply Hs.
Qed.

Lemma creates_change :
  creates_ok s → (∀ u, creates u th' <= creates u th) →
  (place_of th = PNew → place_of th' = PNew ∨ total (creates t) (threads s) = 0) →
  creates_ok s'.
Proof.
  intros Hc Hle Hnew u. destruct (Hc u) as [H1 H2]. rewrite Hm.
  rewrite (total_insert _ _ _ _ _ Hth). specialize (Hle u). split; [lia|]. intros Hpos.
  destruct H2 as (thu & Eu & Pu); [lia|]. destruct (decide (u = t)) as [->|].
  - rewrite lookup_insert_eq. exists th'. split; [done|]. simplify_eq.
    destruct (Hnew Pu); [done|lia].
  - rewrite lookup_insert_ne by done. by exists thu.
Qed.

Lemma locks_change :
  locks_ok s → holders s' = holders s →
  (∀ l h, holders s !! l = Some h →
     value <$> semas s' !! lock_sema l = value <$> semas s !! lock_sema l) →
  (∀ l, tokens l th' <= tokens l th) → (∀ l, l ∈ lock_own_list th' → l ∈ lock_own_list th) →
  locks_ok s'.
Proof.
  intros (H1 & H2 & H3) Eh Es Ht Ho. unfold locks_ok. rewrite Eh, Hm. splits.
  - intros l h El. destruct (H1 l h El) as (sm & Esm & Hv). specialize (Es l h El).
    rewrite Esm in Es. simpl in Es. apply fmap_Some in Es as (sm' & Esm' & Ev).
    exists sm'. split; [done|]. rewrite (total_insert _ _ _ _ _ Hth). specialize (Ht l). lia.
  - intros l El. specialize (H2 l El). rewrite (total_insert _ _ _ _ _ Hth).
    pose proof (total_ge (tokens l) (tokens_nonneg l) (threads s) t th Hth).
    pose proof (tokens_nonneg l th'). specialize (Ht l). lia.
  - intros u thu l Eu Hl. destruct (decide (u = t)) as [->|].
    + rewrite lookup_insert_eq in Eu. simplify_eq. by eapply H3; [|apply Ho].
    + rewrite lookup_insert_ne in Eu by done. by eapply H3.
Qed.

Lemma wakeups_change :
  wakeups_ok s → semas s' = semas s → (∀ a, retries a th <= retries a th') → wakeups_ok s'.
Proof.
  intros Hw Es Hr a sm. rewrite Es, Hm. intros Ea. destruct (Hw a sm Ea) as [? Hv].
  split; [done|]. rewrite (total_insert _ _ _ _ _ Hth). specialize (Hr a).
  destruct Hv; [by left|right; lia].
Qed.
End Change.

(** The invariant does not depend on the interrupt flags, clocks and counters. *)
Lemma core_same s s' :
  core s → threads s' = threads s → ready_list s' = ready_list s →
  waiting_list s' = waiting_list s → idle_thread s' = idle_thread s → semas s' = semas s →
  holders s' = holders s → conds s' = conds s → core s'.
Proof.
  intros [Q1 Q2 Q3 Q4 Q5 Q6 Q7] ???????. destruct s, s'; simpl in *; subst.
  constructor; assumption.
Qed.

Lemma sched_inv_same s s' :
  sched_inv s → threads s' = threads s → ready_list s' = ready_list s →
  waiting_list s' = waiting_list s → idle_thread s' = idle_thread s → semas s' = semas s →
  holders s' = holders s → conds s' = conds s → running s' = running s →
  (intr_on s' = true → intr_on s = true ∨ clean s) → sched_inv s'.
Proof.
  intros [Hc [(th & Eth & St & Hw) Ho]] Et ?????? Er Hi. split; [by eapply core_same|].
  split; [|by rewrite Et, Er]. exists th. rewrite Et, Er. splits; [done|done|].
  intros On. destruct (Hi On) as [?|(th2 & E2 & ?)]; [auto|]. by simplify_eq.
Qed.

Lemma ok_same s s' :
  ok s → threads s' = threads s → ready_list s' = ready_list s →
  waiting_list s' = waiting_list s → idle_thread s' = idle_thread s → semas s' = semas s →
  holders s' = holders s → conds s' = conds s → running s' = running s → ok s'.
Proof.
  intros [Hs Hc] Et ?????? Er. split.
  - eapply sched_inv_same; [done..|]. by right.
  - unfold clean. by rewrite Et, Er.
Qed.

(** Changes of those flags and counters inside an operation. *)
Ltac same_state := (eapply ok_same; [eassumption|by match goal with s : sched |- _ => destruct s end ..]).

Lemma ok_intr b s : ok s → ok (with_intr b s).
Proof. intros H. same_state. Qed.
Lemma ok_external b s : ok s → ok (with_external b s).
Proof. intros H. same_state. Qed.
Lemma ok_yield b s : ok s → ok (with_yield b s).
Proof. intros H. same_state. Qed.
Lemma ok_clock a b c d e s : ok s → ok (with_clock a b c d e s).
Proof. intros H. same_state. Qed.
Lemma ok_next_tid v s : ok s → ok (with_next_tid v s).
Proof. intros H. same_state. Qed.
Create HintDb sched discriminated.
#[export] Hint Resolve ok_intr ok_external ok_yield ok_clock ok_next_tid : sched.

Lemma ok_disable s : ok s → ok (intr_disable s).
Proof. apply ok_intr. Qed.
Lemma ok_set_level b s s' : ok s → intr_set_level b s = Ok s' → ok s'.
Proof.
  intros H. unfold intr_set_level, intr_enable, intr_disable. destruct b.
  - rewrite assert_Ok. intros [_ [= <-]]. by apply ok_intr.
  - intros [= <-]. by apply ok_intr.
Qed.
#[export] Hint Resolve ok_disable ok_set_level : sched.

(** ** Changes that keep a thread where it is *)

Lemma core_touch s t th th' :
  core s → threads s !! t = Some th → place_of th' = place_of th →
  priority th' = priority th → stack_ok s t th' →
  (∀ u, creates u th' <= creates u th) → (∀ l, tokens l th' <= tokens l th) →
  (∀ l, l ∈ lock_own_list th' → l ∈ lock_own_list th) →
  (∀ a, retries a th <= retries a th') →
  core (with_threads (<[t := th']> (threads s)) s).
Proof.
  intros [Q1 Q2 Q3 Q4 Q5 Q6 Q7] Eth Hp Hpr Hs Hc Ht Ho Hr.
  set (s' := with_threads _ s).
  assert (threads s' = <[t := th']> (threads s)) as Em by (by destruct s).
  assert (idle_thread s' = idle_thread s) as Ei by (by destruct s).
  constructor.
  - eapply queues_stay; [done..|]. intros p. by destruct s, p.
  - eapply sorted_change; try done; by destruct s.
  - by eapply stacks_change.
  - eapply creates_change; [done..|]. intros <-. by left.
  - eapply locks_change; try done; by destruct s.
  - eapply wakeups_change; try done; by destruct s.
  - unfold conds_ok, plain_sema in *. by destruct s.
Qed.

Lemma ok_touch s t th th' :
  ok s → threads s !! t = Some th → status th' = status th → place_of th' = place_of th →
  priority th' = priority th → stack_ok s t th' →
  (t = running s → no_wait (stack th')) →
  (∀ u, creates u th' <= creates u th) → (∀ l, tokens l th' <= tokens l th) →
  (∀ l, l ∈ lock_own_list th' → l ∈ lock_own_list th) →
  (∀ a, retries a th <= retries a th') →
  ok (with_threads (<[t := th']> (threads s)) s).
Proof.
  intros [[Hc [(r & Er & Sr & Hwr) Ho]] (r' & Er' & Hnr)] Eth Hst Hp Hpr Hs Hn ????.
  simplify_eq.
  assert (Hl : ∀ u, threads (with_threads (<[t := th']> (threads s)) s) !! u =
                    if decide (u = t) then Some th' else threads s !! u).
  { intros u. eapply change_lookup. by destruct s. }
  assert (Hrun : running (with_threads (<[t := th']> (threads s)) s) = running s) by (by destruct s).
  assert (clean (with_threads (<[t := th']> (threads s)) s)) as Hcl.
  { unfold clean. rewrite Hl, Hrun. destruct (decide (running s = t)) as [<-|]; [|by exists r].
    exists th'. auto. }
  split; [split|done]; [by eapply core_touch|]. split.
  - destruct Hcl as (r2 & E2 & N2). rewrite Hrun in *. exists r2. splits; [done| |done].
    rewrite Hl in E2. destruct (decide _) as [<-|]; simplify_eq; congruence.
  - intros u thu. rewrite Hl, Hrun. destruct (decide (u = t)) as [->|]; [|apply Ho].
    intros [= <-] Hr. apply (Ho t th); congruence.
Qed.

(** Fields the invariant does not read. *)
Lemma ok_field s t f :
  ok s →
  (∀ th, status (f th) = status th ∧ priority (f th) = priority th ∧
         stack (f th) = stack th ∧
         lock_own_list (f th) = lock_own_list th) →
  ok (upd t f s).
Proof.
  intros Hok Hf. destruct (threads s !! t) as [th|] eqn:Eth.
  - rewrite (upd_insert _ _ _ _ Eth). destruct (Hf th) as (E1 & E2 & E4 & E5).
    assert (Ep : place_of (f th) = place_of th) by (unfold place_of; by rewrite E1, E4).
    destruct Hok as [[Hc Hr] Hcl] eqn:E. clear E.
    eapply ok_touch; try done.
    + pose proof (proj2 (core_stacks _ Hc) t th Eth) as Hs. unfold stack_ok in *.
      by rewrite Ep, E1, E4.
    + intros ->. destruct Hcl as (th2 & E & ?). simplify_eq. by rewrite E4.
    + intros u. unfold creates. by rewrite E4.
    + intros l. unfold tokens. by rewrite E4, E5.
    + intros l. by rewrite E5.
    + intros a. unfold retries. by rewrite E4, E1.
  - by rewrite upd_none.
Qed.

(** ** The kernel stack of the running thread *)

(** Frames whose presence the invariant does not constrain. *)
Definition plain_frame (f : frame) : bool :=
  match f with
  | FSemaDown _ | FSemaLoop _ _ | FLockGot _ _ | FCreated _ | FIdleStart _
  | FSleepDone _ | FIdleHalt | FIdleLoop => false
  | _ => true
  end.

Lemma running_at s : ok s →
  ∃ th, threads s !! running s = Some th ∧ status th = THREAD_RUNNING ∧ no_wait (stack th).
Proof.
  intros [[_ [(th & E & St & _) _]] (th2 & E2 & N)]. simplify_eq. by exists th.
Qed.

Lemma stack_at s th : ok s → threads s !! running s = Some th → stack_ok s (running s) th.
Proof. intros [[Hc _] _] E. by apply (core_stacks _ Hc). Qed.

Lemma running_place th : status th = THREAD_RUNNING → place_of th = PRun.
Proof. unfold place_of. by intros ->. Qed.

Lemma retries_no_wait a th : no_wait (stack th) → retries a th = 0.
Proof.
  unfold retries. intros Hn. destruct (stack th) as [|[] fs]; try done.
  by apply Forall_inv in Hn.
Qed.

Lemma push_insert s th f :
  threads s !! running s = Some th →
  push f s = with_threads (<[running s := set_stack (f :: stack th) th]> (threads s)) s.
Proof. intros E. unfold push. by rewrite (upd_insert _ _ _ _ E). Qed.

(** Replacing the running thread's stack. *)
Lemma ok_restack s th fs :
  ok s → threads s !! running s = Some th → no_wait fs → frames_ok (holders s) fs →
  (has_idle fs = true → running s = idle_thread s) →
  (running s = idle_thread s → Forall (λ f, idle_frame f = true) fs) →
  (∀ u, creates u (set_stack fs th) <= creates u th) → (∀ l, grants l fs <= grants l (stack th)) →
  ok (with_threads (<[running s := set_stack fs th]> (threads s)) s).
Proof.
  intros Hok E Hn Hf Hh Hi Hc Hg.
  destruct (running_at s Hok) as (th2 & E2 & St & Hn2). simplify_eq.
  destruct (stack_at s th Hok E) as (W & F & D & P & I & Id).
  eapply ok_touch; try done.
  - by rewrite !running_place.
  - unfold stack_ok. rewrite running_place by done. simpl. splits; try done; [|congruence|].
    + destruct fs; [done|]. by inversion Hn.
    + intros Er. splits; [congruence|done|]. by apply Hi.
  - intros l. unfold tokens. simpl. specialize (Hg l). lia.
  - intros a. by rewrite !retries_no_wait.
Qed.

Lemma ok_push f s :
  ok s → plain_frame f = true → (running s = idle_thread s → idle_frame f = true) →
  ok (push f s).
Proof.
  intros Hok Hp Hi. destruct (running_at s Hok) as (th & E & St & Hn).
  destruct (stack_at s th Hok E) as (W & F & D & P & I & Id).
  rewrite (push_insert _ _ _ E). apply ok_restack; try done.
  - constructor; [by destruct f|done].
  - by destruct f.
  - by destruct f.
  - intros Er. constructor; [auto|]. by apply Id.
  - intros u. unfold creates. simpl. by destruct f.
  - intros l. by destruct f.
Qed.

Lemma ok_push_level b s : ok s → ok (push (FSetLevel b) s).
Proof. intros. by apply ok_push. Qed.
#[export] Hint Resolve ok_push_level : sched.

(** Taking a frame off. *)
Lemma pop_Some s f s1 :
  pop s = Some (f, s1) →
  ∃ th fs, threads s !! running s = Some th ∧ stack th = f :: fs ∧
           s1 = with_threads (<[running s := set_stack fs th]> (threads s)) s.
Proof.
  unfold pop. destruct (threads s !! running s) as [th|] eqn:E; [|done].
  destruct (stack th) as [|g fs] eqn:Es; [done|]. intros [= <- <-]. exists th, fs.
  by rewrite (upd_insert _ _ _ _ E).
Qed.

Lemma ok_pop s f s1 :
  sched_inv s → pop s = Some (f, s1) → (∀ a, f ≠ FSemaDown a) → (∀ a b, f ≠ FSemaLoop a b) →
  ok s1.
Proof.
  intros [Hc [(th & E & St & Hw) Ho]] (th2 & fs & E2 & Es & ->)%pop_Some Hd Hl. simplify_eq.
  destruct (proj2 (core_stacks _ Hc) _ _ E) as (W & F & D & P & I & Id).
  rewrite Es in *. simpl in W.
  assert (Hlk : ∀ u, threads (with_threads (<[running s := set_stack fs th]> (threads s)) s) !! u =
     if decide (u = running s) then Some (set_stack fs th) else threads s !! u).
  { intros u. eapply change_lookup. by destruct s. }
  assert (Hrun : running (with_threads (<[running s := set_stack fs th]> (threads s)) s) = running s)
    by (by destruct s).
  assert (no_wait fs ∧ frames_ok (holders s) fs) as [Hn Hf] by (split; [done|by destruct F]).
  split; [split|].
  - eapply core_touch; try done.
    + by rewrite !running_place.
    + unfold stack_ok. rewrite running_place by done. simpl. splits; try done; [|congruence|..].
      * destruct fs; [done|]. by inversion Hn.
      * intros Hh. apply I. simpl. rewrite Hh. apply orb_true_r.
      * intros Er. destruct (Id Er) as (? & ? & Hi). splits; [done..|]. by inversion Hi.
    + intros u. unfold creates. rewrite Es. simpl. case_bool_decide; simpl; lia.
    + intros l. unfold tokens. rewrite Es. simpl.
      destruct f; try done; try (destruct (l =? lock)); try lia;
        exfalso; (by eapply Hd) || (by eapply Hl).
    + intros a. unfold retries at 1. rewrite Es, (retries_no_wait a (set_stack fs th) Hn).
      destruct f; try done. exfalso. by eapply Hl.
  - split.
    + exists (set_stack fs th). rewrite Hlk, Hrun, decide_True by done. by splits.
    + intros u thu. rewrite Hlk, Hrun. destruct (decide _); [done|apply Ho].
  - exists (set_stack fs th). by rewrite Hlk, Hrun, decide_True.
Qed.

(** ** Moving a thread from one place to another *)

Lemma core_move s s' t th th' :
  core s → threads s !! t = Some th → threads s' = <[t := th']> (threads s) →
  idle_thread s' = idle_thread s → holders s' = holders s → conds s' = conds s →
  (∀ a, value <$> semas s' !! a = value <$> semas s !! a) →
  (∀ p, NoDup (queue s' p) ∧ ∀ u, u ∈ queue s' p ↔
     (u ≠ t ∧ u ∈ queue s p) ∨
     (u = t ∧ queued p = true ∧ (p = PReady → t ≠ idle_thread s) ∧ place_of th' = p)) →
  sorted_ok s' → stack_ok s t th' → (∀ u, creates u th' <= creates u th) →
  (place_of th = PNew → total (creates t) (threads s) = 0) →
  (∀ l, tokens l th' <= tokens l th) → lock_own_list th' = lock_own_list th →
  wakeups_ok s' → core s'.
Proof.
  intros [Q1 Q2 Q3 Q4 Q5 Q6 Q7] Eth Em Ei Eh Ec Es Hq Hso Hst Hcr Hnew Htok Hown Hw.
  constructor; [by eapply queues_change|done| | | |done|].
  - eapply stacks_change; try done. by rewrite Eh.
  - eapply creates_change; [done..|]. right. auto.
  - eapply locks_change; try done. by rewrite Hown.
  - intros c ws w. rewrite Ec. intros Hws Hin. destruct (Q7 c ws w Hws Hin) as [Hp Hsm].
    unfold plain_sema. rewrite Eh. split; [done|]. specialize (Es w).
    destruct (semas s !! w); [|by destruct Hsm]. by destruct (semas s' !! w).
Qed.

Lemma queue_mem s p t : core s → t ∈ queue s p →
  queued p = true ∧ (p = PReady → t ≠ idle_thread s) ∧
  ∃ th, threads s !! t = Some th ∧ place_of th = p.
Proof. intros Hc Hin. by apply (core_queues _ Hc). Qed.

Lemma queue_nodup s p : core s → NoDup (queue s p).
Proof. intros Hc. apply (core_queues _ Hc). Qed.

Lemma queue_unique s p t th : core s → threads s !! t = Some th → t ∈ queue s p → place_of th = p.
Proof. intros Hc E (_ & _ & th2 & E2 & P)%queue_mem; [|done]. congruence. Qed.

(** The thread chosen by [next_thread_to_run] starts to run. *)
Lemma core_dispatch s next th rest :
  core s → threads s !! next = Some th → status th ≠ THREAD_RUNNING →
  (ready_list s = next :: rest ∨ ready_list s = [] ∧ next = idle_thread s ∧ rest = []) →
  core (with_threads (<[next := set_status THREAD_RUNNING th]> (threads s)) (with_ready rest s)).
Proof.
  intros Hc Eth Hnr Hnext. set (s' := with_threads _ _).
  pose proof (proj2 (core_stacks _ Hc) _ _ Eth) as (W & F & D & P & I & Id).
  assert (place_of th = PReady ∨ place_of th = PIdle) as Hp.
  { destruct Hnext as [Er|(Er & -> & ->)].
    - left. eapply (queue_unique s PReady next); try done. simpl. rewrite Er. left.
    - destruct (Id eq_refl) as (Hd & Hn & Hf). unfold place_of in *.
      destruct (status th); try done; [by left|]. right.
      destruct (stack th) as [|[] fs]; simpl in *;
        first [done|congruence|by apply Forall_inv in Hf]. }
  assert (∀ a, retries a (set_status THREAD_RUNNING th) = retries a th) as Hret.
  { intros a. unfold retries. simpl. destruct (stack th) as [|[] fs] eqn:Es; try done.
    do 2 f_equal. destruct Hp as [Hp|Hp]; unfold place_of in Hp; rewrite Es in Hp;
      destruct (status th); done. }
  eapply core_move with (s := s); try done.
  - intros p. split.
    + destruct (decide (p = PReady)) as [->|Hne]; [|pose proof (queue_nodup s p Hc); by destruct p].
      simpl. destruct Hnext as [Er|(_ & _ & ->)]; [|constructor].
      pose proof (queue_nodup s PReady Hc) as Hn. simpl in Hn. rewrite Er in Hn. by inversion Hn.
    + intros u. destruct (decide (p = PReady)) as [->|Hne].
      * simpl. destruct Hnext as [Er|(Er & -> & ->)]; rewrite Er.
        -- pose proof (queue_nodup s PReady Hc) as Hn. simpl in Hn. rewrite Er in Hn.
           inversion Hn. set_solver.
        -- set_solver.
      * assert (queue s' p = queue s p) as -> by (by destruct p).
        split; [|intros [[_ ?]|(_ & ? & _ & <-)]; [done|by rewrite running_place in *]].
        intros Hin. left. split; [|done]. intros ->.
        pose proof (queue_unique _ _ _ _ Hc Eth Hin) as Hpl.
        destruct (queue_mem _ _ _ Hc Hin) as (Hq & _).
        destruct Hp as [Hp|Hp]; rewrite Hp in Hpl; by subst.
  - pose proof (core_sorted _ Hc) as S1. unfold sorted_ok in *. simpl.
    assert (Sorted (le_by (higher_priority s)) rest) as Hr.
    { destruct Hnext as [Er|(_ & _ & ->)]; [|constructor]. rewrite Er in S1. by inversion S1. }
    revert Hr. apply Sorted_mono. intros a b. unfold le_by, higher_priority.
    by rewrite !(prio_change s s' next th (set_status THREAD_RUNNING th)).
  - unfold stack_ok. rewrite running_place by done. simpl. splits; try done.
    intros E. destruct (Id E) as (? & ? & ?). by splits.
  - intros E. rewrite E in Hp. by destruct Hp.
  - eapply (wakeups_change s); try done; [apply Hc|]. intros a. by rewrite Hret.
Qed.

(** A dying thread's page is freed. *)
Lemma core_free s t th :
  core s → threads s !! t = Some th → status th = THREAD_DYING → core (free_thread t s).
Proof.
  intros [Q1 Q2 Q3 Q4 Q5 Q6 Q7] Eth Hd.
  destruct (proj2 Q3 _ _ Eth) as (W & F & D & P & I & Id). specialize (D Hd).
  assert (Hne : idle_thread s ≠ t) by (intros <-; by destruct (Id eq_refl)).
  assert (Hlk : ∀ u, threads (free_thread t s) !! u = if decide (u = t) then None else threads s !! u).
  { intros u. simpl. destruct (decide (u = t)) as [->|]; [apply lookup_delete_eq|].
    by apply lookup_delete_ne. }
  assert (Hpl : place_of th = PDying) by (unfold place_of; by rewrite Hd).
  assert (Htot : ∀ f : thread → Z, total f (threads (free_thread t s)) = total f (threads s) - f th).
  { intros f. simpl. rewrite (total_delete f _ _ _ Eth). lia. }
  assert (∀ u p, u ∈ queue s p → u ≠ t) as Hnot.
  { intros u p Hin ->. apply Q1 in Hin as (Hq & _ & th2 & E2 & <-). simplify_eq.
    by rewrite Hpl in Hq. }
  constructor.
  - intros p. destruct (Q1 p) as [Hn Hi]. split; [by destruct p|]. intros u.
    assert (queue (free_thread t s) p = queue s p) as -> by (by destruct p).
    rewrite Hi, Hlk. destruct (decide (u = t)) as [->|]; [|done].
    split; [|naive_solver]. intros Hin%Hi. by apply Hnot in Hin.
  - revert Q2. apply Sorted_ext. intros a b Ha Hb. unfold higher_priority, prio.
    rewrite !Hlk. rewrite !decide_False; [done|by apply (Hnot _ PReady)..].
  - split; [rewrite Hlk; simpl; rewrite decide_False by done; apply Q3|].
    intros u thu. rewrite Hlk. destruct (decide _); [done|]. apply Q3.
  - intros u. rewrite Htot. destruct (Q4 u) as [H1 H2]. pose proof (creates_nonneg u th).
    split; [lia|]. intros Hp. destruct H2 as (thu & Eu & Pu); [lia|]. exists thu.
    rewrite Hlk. destruct (decide (u = t)) as [->|]; [congruence|done].
  - destruct Q5 as (H1 & H2 & H3). unfold locks_ok. splits.
    + intros l h El. destruct (H1 l h El) as (sm & Es & Hv). exists sm. split; [done|].
      rewrite Htot. pose proof (tokens_nonneg l th). lia.
    + intros l El. specialize (H2 l El). rewrite Htot.
      pose proof (total_ge (tokens l) (tokens_nonneg l) _ _ _ Eth). pose proof (tokens_nonneg l th). lia.
    + intros u thu l. rewrite Hlk. destruct (decide _); [done|]. apply H3.
  - intros a sm Ea. destruct (Q6 a sm Ea) as [? Hv]. split; [done|]. rewrite Htot.
    unfold retries at 2. rewrite D. destruct Hv; [by left|right; lia].
  - exact Q7.
Qed.
