(* ===== verification/SchedProofs.v ===== *)
(** Every operation of the thread system preserves its invariant, and every
    switch of threads goes to a ready thread of highest priority. *)
From S2P Require Import Prelude KList KListOps KListSort Queue Sched SchedSteps SchedInv.
From Stdlib Require Import Permutation Sorted.

(** Nothing ready has a higher priority than the running thread; the idle
    thread runs only when nothing is ready. *)
Definition top_priority (s : sched) : Prop :=
  (running s = idle_thread s ∧ ready_list s = []) ∨
  (running s ≠ idle_thread s ∧ ∀ t, t ∈ ready_list s → prio s t <= prio s (running s)).

(** The same of a thread that may have kept the processor. *)
Definition leads (s : sched) : Prop :=
  (running s = idle_thread s ∧ ready_list s = []) ∨ ∀ t, t ∈ ready_list s → prio s t <= prio s (running s).
Lemma top_leads s : top_priority s → leads s.
Proof. intros [?|[_ ?]]; [by left|by right]. Qed.

(** The result of an operation that began with [r] running. *)
Definition res (r : Z) (s : sched) : Prop :=
  sched_inv s ∧ (running s = r ∨ top_priority s).

Lemma ok_res s r : ok s → running s = r → res r s.
Proof. intros [H _] E. split; [done|by left]. Qed.

(** * Switching threads *)

Lemma higher_priority_le s a b : le_by (higher_priority s) a b → prio s b <= prio s a.
Proof. unfold le_by, higher_priority. rewrite Z.ltb_ge. lia. Qed.

#[export] Instance higher_priority_weak s : StrictWeak (higher_priority s).
Proof. split; unfold higher_priority; intros a b *; rewrite ?Z.ltb_lt, ?Z.ltb_ge; lia. Qed.
#[export] Instance less_wakeup_weak s : StrictWeak (less_wakeup_tick s).
Proof. apply (strict_weak_key (wakeup s)). Qed.

Lemma ready_head_top s next rest :
  core s → ready_list s = next :: rest → ∀ t, t ∈ rest → prio s t <= prio s next.
Proof.
  intros Hc Er t Ht. apply higher_priority_le. pose proof (core_sorted _ Hc) as Hs.
  unfold sorted_ok in Hs. rewrite Er in Hs. eapply Sorted_head_le; [apply _|done|by right].
Qed.

Lemma schedule_tail_res s prev s' th rest :
  core s → (∀ t th, threads s !! t = Some th → status th ≠ THREAD_RUNNING) →
  threads s !! running s = Some th →
  (ready_list s = running s :: rest ∨ ready_list s = [] ∧ running s = idle_thread s ∧ rest = []) →
  schedule_tail prev (with_ready rest s) = Ok s' → sched_inv s' ∧ top_priority s'.
Proof.
  intros Hc Hn Eth Hnext. unfold schedule_tail. rewrite assert_Ok. intros [Hio Hs].
  apply negb_true_iff in Hio. simpl in Hio.
  pose proof (core_dispatch s (running s) th rest Hc Eth (Hn _ _ Eth) Hnext) as Hd.
  assert (upd (running s) (set_status THREAD_RUNNING) (with_ready rest s) =
    with_threads (<[running s := set_status THREAD_RUNNING th]> (threads s)) (with_ready rest s))
    as Eu by (exact (upd_insert (with_ready rest s) _ th _ Eth)).
  change (running (with_ready rest s)) with (running s) in Hs. rewrite Eu in Hs.
  set (s1 := with_threads _ _) in *.
  set (s2 := with_clock 0 _ _ _ _ s1) in *.
  assert (core s2) as Hc2 by (eapply core_same; [exact Hd|done..]).
  assert (Hlk : ∀ u, threads s2 !! u =
    if decide (u = running s) then Some (set_status THREAD_RUNNING th) else threads s !! u).
  { intros u. by eapply (change_lookup s s2). }
  assert (sched_inv s2) as Hi2.
  { split; [done|]. split.
    - exists (set_status THREAD_RUNNING th). rewrite Hlk. rewrite decide_True by done.
      splits; [done..|]. simpl. congruence.
    - intros t tht. rewrite Hlk. destruct (decide _); [done|]. intros E St. by apply Hn in E. }
  assert (Hpr : ∀ u, prio s2 u = prio s u) by (intros u; by eapply (prio_change s s2)).
  assert (top_priority s2) as Ht2.
  { destruct Hnext as [Er|(Er & Hr & ->)]; [|by left]. right. split; [|intros t Ht; rewrite !Hpr; by eapply ready_head_top].
    destruct (queue_mem s PReady (running s) Hc) as (_ & Hni & _); [simpl; rewrite Er; left|]. by apply Hni. }
  destruct (negb (prev =? NULL) && status_is s2 prev THREAD_DYING && negb (prev =? initial_thread s2))
    eqn:Ec; [|by simplify_eq].
  apply assert_Ok in Hs as [Hne [= <-]]. apply andb_true_iff in Ec as [Ec _].
  apply andb_true_iff in Ec as [_ Hst]. unfold status_is in Hst.
  destruct (threads s2 !! prev) as [thp|] eqn:Ep; [|done]. apply bool_decide_eq_true in Hst.
  apply negb_true_iff, Z.eqb_neq in Hne. change (prev ≠ running s) in Hne.
  assert (Hfl : ∀ u, u ≠ prev → threads (free_thread prev s2) !! u = threads s2 !! u).
  { intros u Hu. by apply lookup_delete_ne. }
  split.
  - destruct Hi2 as [_ [(r & Er & Sr & Hw) Ho]]. split; [by eapply core_free|]. split.
    + exists r. rewrite Hfl; [splits; [exact Er|exact Sr|exact Hw]|]. intros E. by apply Hne.
    + intros t tht Et. destruct (decide (t = prev)) as [->|].
      * simpl in Et. by rewrite lookup_delete_eq in Et.
      * rewrite Hfl in Et by done. exact (Ho t tht Et).
  - destruct Ht2 as [?|[Hni Ht2]]; [by left|]. right. split; [exact Hni|]. intros t Ht. unfold prio in *.
    assert (t ≠ prev).
    { intros ->. pose proof (queue_unique s2 PReady prev thp Hc2 Ep Ht) as Hpl.
      unfold place_of in Hpl. by rewrite Hst in Hpl. }
    rewrite Hfl by done. rewrite Hfl by (intros E; by apply Hne). by apply Ht2.
Qed.

Lemma with_ready_same s rest : ready_list s = rest → with_ready rest s = s.
Proof. intros <-. by destruct s. Qed.
Lemma with_running_same s r : running s = r → with_running r s = s.
Proof. intros <-. by destruct s. Qed.

Lemma schedule_res s s' :
  core s → (∀ t th, threads s !! t = Some th → status th ≠ THREAD_RUNNING) →
  schedule s = Ok s' → sched_inv s' ∧ top_priority s'.
Proof.
  intros Hc Hn.
  assert (Hgo : ∀ next rest prev, is_Some (threads s !! next) →
    (ready_list s = next :: rest ∨ ready_list s = [] ∧ next = idle_thread s ∧ rest = []) →
    schedule_tail prev (with_ready rest (with_running next s)) = Ok s' →
    sched_inv s' ∧ top_priority s').
  { intros next rest prev [th Eth] Hnext.
    apply (schedule_tail_res (with_running next s) prev s' th rest); try done.
    by eapply core_same. }
  unfold schedule, next_thread_to_run.
  destruct (ready_list s) as [|next rest] eqn:Er; rewrite !assert_Ok; intros (_ & _ & Hl & Hs);
    apply bool_decide_eq_true in Hl; simpl in Hl.
  - destruct (Z.eqb_spec (running s) (idle_thread s)) as [E|E].
    + apply (Hgo (idle_thread s) [] NULL); [done|by right|].
      rewrite with_running_same, with_ready_same by done. done.
    + apply (Hgo (idle_thread s) [] (running s)); [done|by right|].
      by rewrite with_ready_same.
  - destruct (Z.eqb_spec (running s) next) as [E|E].
    + apply (Hgo next rest NULL); [done|by left|].
      by rewrite with_running_same.
    + apply (Hgo next rest (running s)); [done|by left|]. exact Hs.
Qed.

(** ** Leaving the processor *)

Lemma leave_running s x th' :
  run_ok s → threads x = <[running s := th']> (threads s) → status th' ≠ THREAD_RUNNING →
  ∀ t th, threads x !! t = Some th → status th ≠ THREAD_RUNNING.
Proof.
  intros [_ Ho] Em Hst t th. rewrite Em. destruct (decide (t = running s)) as [->|].
  - rewrite lookup_insert_eq. congruence.
  - rewrite lookup_insert_ne by done. intros E St. by apply Ho in E.
Qed.

Lemma running_unqueued s p : sched_inv s → running s ∉ queue s p.
Proof.
  intros [Hc [(th & E & St & _) _]] Hin.
  pose proof (queue_unique _ _ _ _ Hc E Hin) as Hp. rewrite running_place in Hp by done.
  destruct (queue_mem _ _ _ Hc Hin) as (Hq & _). by subst.
Qed.

(** The states of a blocked, yielding or exiting thread all change its record
    and one queue. *)
Lemma leave_res s x th th' s' :
  sched_inv s → threads s !! running s = Some th → threads x = <[running s := th']> (threads s) →
  idle_thread x = idle_thread s → holders x = holders s → conds x = conds s →
  (∀ a, value <$> semas x !! a = value <$> semas s !! a) →
  (∀ p, NoDup (queue x p) ∧ ∀ u, u ∈ queue x p ↔
     u ∈ queue s p ∨
     (u = running s ∧ queued p = true ∧ (p = PReady → running s ≠ idle_thread s) ∧ place_of th' = p)) →
  sorted_ok x → stack_ok s (running s) th' → status th' ≠ THREAD_RUNNING →
  (∀ u, creates u th' <= creates u th) → (∀ l, tokens l th' <= tokens l th) →
  lock_own_list th' = lock_own_list th → wakeups_ok x →
  schedule x = Ok s' → sched_inv s' ∧ top_priority s'.
Proof.
  intros Hok E Em Ei Eh Ec Es Hq Hso Hst Hnr Hcr Htok Hown Hw.
  pose proof Hok as [_ [(th2 & E2 & St & _) _]]. simplify_eq.
  pose proof (running_unqueued s) as Hun. apply schedule_res.
  - eapply core_move; try done; [apply Hok| |].
    + intros p. destruct (Hq p) as [? Hi]. split; [done|]. intros u. rewrite Hi.
      specialize (Hun p Hok). split; [|naive_solver]. intros [?|?]; [left|by right].
      split; [|done]. by intros ->.
    + by rewrite running_place.
  - eapply leave_running; [apply Hok|done..].
Qed.

(** [x] differs from [s] in the running thread only, whose wait frames do not
    count as retries. *)
Lemma leave_wakeups s x th th' :
  ok s → threads s !! running s = Some th → threads x = <[running s := th']> (threads s) →
  semas x = semas s → wakeups_ok x.
Proof.
  intros Hok E Em Es. destruct (running_at s Hok) as (th2 & E2 & St & Hn). simplify_eq.
  eapply (wakeups_change s x); [done..|apply Hok|done|]. intros a.
  rewrite (retries_no_wait _ _ Hn). apply retries_nonneg.
Qed.

Lemma sorted_priority_ext s x xs :
  (∀ u, prio x u = prio s u) → Sorted (le_by (higher_priority s)) xs →
  Sorted (le_by (higher_priority x)) xs.
Proof. intros Hp. apply Sorted_mono. intros a b. unfold le_by, higher_priority. by rewrite !Hp. Qed.
Lemma thread_yield_res s s' :
  ok s → thread_yield s = Ok s' → sched_inv s' ∧ top_priority s'.
Proof.
  intros Hok. unfold thread_yield. rewrite assert_Ok. intros [_ Hs].
  destruct (running_at s Hok) as (th & E & St & Hn). pose proof Hok as [[Hc _] _].
  destruct (stack_at s th Hok E) as (W & F & D & P & I & Id).
  set (th' := set_stack (FSetLevel (intr_on s) :: stack th) (set_status THREAD_READY th)).
  set (rl := if running s =? idle_thread s then ready_list s
             else insert_seq (higher_priority s) (running s) (ready_list s)).
  assert (∃ x, schedule x = Ok s' ∧ threads x = <[running s := th']> (threads s) ∧
     x = with_threads (threads x) (with_ready rl (intr_disable s))) as (x & Hx & Em & Ex).
  { unfold rl. change (idle_thread (intr_disable s)) with (idle_thread s) in Hs.
    destruct (running s =? idle_thread s);
      (eexists; split; [exact Hs|split; [|reflexivity]]);
      erewrite push_insert by (simpl; rewrite lookup_alter_eq, E; reflexivity);
      simpl; apply map_eq; intros u; (destruct (decide (u = running s)) as [->|];
      [by rewrite !lookup_insert_eq|by rewrite !lookup_insert_ne, lookup_alter_ne by done]). }
  assert (Hpr : ∀ u, prio x u = prio s u) by (intros u; by eapply (prio_change s x)).
  assert (Hrl : ready_list x = rl) by (by rewrite Ex).
  pose proof (core_sorted _ Hc) as S1. unfold sorted_ok in S1.
  eapply (leave_res s x th th'); try done; try (by rewrite Ex); [by destruct Hok|..].
  - intros p. pose proof (running_unqueued s PReady (proj1 Hok)) as Hun. simpl in Hun.
    pose proof (queue_nodup s p Hc) as Hnd.
    destruct (decide (p = PReady)) as [->|Hne].
    + simpl. rewrite Hrl. unfold rl. change (place_of th') with PReady. simpl in Hnd.
      destruct (Z.eqb_spec (running s) (idle_thread s)) as [Ei|Ei].
      * split; [done|]. naive_solver.
      * split.
        -- rewrite (insert_seq_perm (higher_priority s)). by constructor.
        -- intros u. rewrite (insert_seq_perm (higher_priority s)), elem_of_cons. naive_solver.
    + assert (queue x p = queue s p) as -> by (rewrite Ex; by destruct p).
      change (place_of th') with PReady. split; [done|]. naive_solver.
  - unfold sorted_ok. rewrite Hrl.
    eapply sorted_priority_ext; [done|]. unfold rl. destruct (_ =? _); [done|].
    apply insert_seq_sorted; [apply _|done].
  - unfold stack_ok. change (place_of th') with PReady. simpl. splits; try done.
    intros Er. destruct (Id Er) as (? & ? & ?). splits; [done..|]. by constructor.
  - eapply leave_wakeups; try done. by rewrite Ex.
Qed.

(** * Semaphores *)

Lemma push_lookup s th f u :
  threads s !! running s = Some th →
  threads (push f s) !! u =
    if decide (u = running s) then Some (set_stack (f :: stack th) th) else threads s !! u.
Proof.
  intros E. rewrite (push_insert _ _ _ E). simpl. destruct (decide (u = running s)) as [->|].
  - by rewrite lookup_insert_eq.
  - by rewrite lookup_insert_ne.
Qed.

(** The running thread of a state whose stack has just been pushed. *)
Lemma pushed_running s f : sched_inv (push f s) →
  ∃ th, threads s !! running s = Some th ∧ status th = THREAD_RUNNING ∧
    threads (push f s) = <[running s := set_stack (f :: stack th) th]> (threads s) ∧
    stack_ok s (running s) (set_stack (f :: stack th) th).
Proof.
  intros [Hc [(th & E & St & _) _]]. change (running (push f s)) with (running s) in E.
  destruct (threads s !! running s) as [th0|] eqn:E0.
  - rewrite (push_lookup _ _ _ _ E0), decide_True in E by done. simplify_eq.
    exists th0. splits; [done..|by rewrite (push_insert _ _ _ E0)|].
    apply (core_stacks _ Hc). change (idle_thread (push f s)) with (idle_thread s).
    by rewrite (push_lookup _ _ _ _ E0), decide_True.
  - unfold push, upd in E. simpl in E. by rewrite lookup_alter_eq, E0 in E.
Qed.

(** The thread finds the semaphore at zero and waits. *)
Lemma sema_wait_res a old s sm s' :
  sched_inv (push (FSemaLoop a old) s) → semas s !! a = Some sm → value sm = 0 →
  thread_block (push (FSemaLoop a old)
    (with_semas (<[a := Semaphore (value sm) (waiters sm ++ [running s])]> (semas s)) s)) = Ok s' →
  sched_inv s' ∧ top_priority s'.
Proof.
  intros Hi Ea Hv. unfold thread_block. rewrite !assert_Ok. intros (_ & _ & Hs).
  destruct (pushed_running _ _ Hi) as (th & E & St & Em & W & F & D & P & I & Id).
  set (y := push (FSemaLoop a old) s) in *. pose proof Hi as [Hc _].
  set (thy := set_stack (FSemaLoop a old :: stack th) th) in *.
  set (th' := set_status THREAD_BLOCKED thy).
  match type of Hs with schedule ?st = _ => set (x := st) in * end.
  assert (threads x = <[running s := th']> (threads s)) as Ex.
  { unfold x, upd, push, upd. simpl. apply map_eq. intros u.
    destruct (decide (u = running s)) as [->|].
    - by rewrite !lookup_alter_eq, lookup_insert_eq, E.
    - by rewrite !lookup_alter_ne, lookup_insert_ne by done. }
  assert (threads x = <[running s := th']> (threads y)) as Exy
    by (by rewrite Ex, Em, insert_insert_eq).
  assert (threads y !! running y = Some thy) as Ey
    by (rewrite Em; apply lookup_insert_eq).
  assert (Hpr : ∀ u, prio x u = prio y u) by (intros u; by eapply (prio_change y x)).
  pose proof (core_sorted _ Hc) as S1. unfold sorted_ok in S1.
  eapply (leave_res y x thy th'); try done.
  - intros b. simpl. destruct (decide (b = a)) as [->|].
    + rewrite lookup_insert_eq. change (semas y) with (semas s). by rewrite Ea.
    + by rewrite lookup_insert_ne.
  - intros p. pose proof (queue_nodup y p Hc) as Hnd.
    pose proof (running_unqueued y p Hi) as Hun. change (place_of th') with (PSema a).
    destruct (decide (p = PSema a)) as [->|Hne].
    + simpl in *. rewrite Ea in *. rewrite lookup_insert_eq. simpl. split.
      * apply NoDup_app. splits; [done| |apply NoDup_singleton]. set_solver.
      * intros u. rewrite elem_of_app, list_elem_of_singleton. naive_solver.
    + assert (queue x p = queue y p) as ->.
      { destruct p; try done. simpl. rewrite lookup_insert_ne; [done|]. by intros ->. }
      split; [done|]. naive_solver.
  - by eapply sorted_priority_ext.
  - unfold stack_ok. change (place_of th') with (PSema a). splits; try done.
    intros Er. destruct (Id Er) as (_ & _ & Hf). by apply Forall_inv in Hf.
  - intros b smb.
    change (semas x) with (<[a := Semaphore (value sm) (waiters sm ++ [running s])]> (semas s)).
    destruct (decide (b = a)) as [->|Hb].
    + rewrite lookup_insert_eq. intros [= <-]. split; simpl; [by rewrite Hv|]. right.
      rewrite Hv. apply total_nonneg, retries_nonneg.
    + rewrite lookup_insert_ne by done. intros Eb.
      destruct (core_wakeups _ Hc b smb Eb) as [? Hw]. split; [done|].
      rewrite Exy. erewrite total_insert by exact Ey.
      assert (∀ st, retries b (set_status st thy) = 0) as Hz.
      { intros st. unfold retries. simpl. by destruct (Z.eqb_spec b a). }
      pose proof (Hz THREAD_BLOCKED) as Z1. pose proof (Hz (status th)) as Z2.
      change (retries b thy = 0) in Z2. fold th' in Z1.
      destruct Hw; [by left|right; lia].
Qed.

(** Returning from the [sema_down] of a lock grants that lock, once. *)
Lemma grants_unwait h l a fs : frames_ok h (FSemaDown a :: fs) →
  grants l (FSemaDown a :: fs) <= grants l fs <= grants l (FSemaDown a :: fs) + 1 ∧
  (grants l fs ≠ grants l (FSemaDown a :: fs) → a = lock_sema l ∧ is_Some (h !! l)).
Proof.
  intros [Ha Hf]. simpl. destruct fs as [|f fs]; [simpl; lia|]. destruct f; try (simpl; lia).
  simpl in Ha, Hf |- *. destruct Hf as [Hl _].
  destruct (Z.eqb_spec l lock) as [->|]; split; try lia. done.
Qed.

(** The thread finds the semaphore positive and takes it. *)
Lemma sema_take_ok a old s sm :
  sched_inv (push (FSemaLoop a old) s) → semas s !! a = Some sm → value sm ≠ 0 →
  ok (with_semas (<[a := Semaphore (u32 (value sm - 1)) (waiters sm)]> (semas s)) s).
Proof.
  intros Hi Ea Hv.
  destruct (pushed_running _ _ Hi) as (th & E & St & Em & W & F & D & P & I & Id).
  set (y := push (FSemaLoop a old) s) in *. pose proof Hi as [[Q1 Q2 Q3 Q4 Q5 Q6 Q7] [_ Ho]].
  set (thy := set_stack (FSemaLoop a old :: stack th) th) in *.
  set (x := with_semas _ s).
  assert (threads y !! running y = Some thy) as Ey by (rewrite Em; apply lookup_insert_eq).
  assert (threads x = <[running y := th]> (threads y)) as Exy.
  { rewrite Em. simpl. rewrite insert_insert_eq. symmetry. by apply insert_id. }
  destruct (Q6 a sm Ea) as [Hu Hwa].
  assert (Hv1 : u32 (value sm - 1) = value sm - 1).
  { unfold is_u32 in Hu. apply u32_small. lia. }
  assert (Hn : no_wait (stack th)) by exact W.
  assert (Hgr : ∀ l, tokens l thy <= tokens l th <= tokens l thy + 1 ∧
            (tokens l th ≠ tokens l thy → a = lock_sema l ∧ is_Some (holders s !! l))).
  { intros l. unfold tokens. simpl. destruct (grants_unwait _ l a (stack th) F) as [G1 G2].
    simpl in G1, G2. split; [lia|]. intros Hne. apply G2. lia. }
  split; [split|]; [| |by exists th].
  - constructor.
    + eapply (queues_stay y x); try done; [by rewrite !running_place|].
      intros p. destruct p; try done. simpl. destruct (decide (sema = a)) as [->|].
      * rewrite lookup_insert_eq. by change (semas y) with (semas s); rewrite Ea.
      * by rewrite lookup_insert_ne.
    + eapply (sorted_change y x); try done.
    + eapply (stacks_change y x); try done. unfold stack_ok. rewrite running_place by done.
      splits; try done; [|by destruct F|congruence|].
      * destruct (stack th); [done|]. by inversion Hn.
      * intros Er. destruct (Id Er) as (_ & _ & Hf). by apply Forall_inv in Hf.
    + eapply (creates_change y x); try done.
      intros C. by rewrite running_place in C.
    + destruct Q5 as (H1 & H2 & H3). unfold locks_ok. change (holders x) with (holders y). splits.
      * intros l h El. destruct (H1 l h El) as (sml & Es & Hvl). rewrite Exy.
        erewrite total_insert by exact Ey. destruct (Hgr l) as [G1 G2].
        destruct (decide (a = lock_sema l)) as [->|Hne].
        -- eexists. split; [apply lookup_insert_eq|]. cbn [value].
           rewrite Hv1. change (semas y) with (semas s) in Es. simplify_eq. lia.
        -- exists sml. split; [|].
           { change (<[a := Semaphore (u32 (value sm - 1)) (waiters sm)]> (semas s) !! lock_sema l = Some sml).
             by rewrite lookup_insert_ne. }
           destruct (decide (tokens l th = tokens l thy)); [lia|]. by apply G2 in n as [? _].
      * intros l El. specialize (H2 l El). rewrite Exy. erewrite total_insert by exact Ey.
        destruct (Hgr l) as [G1 G2]. change (holders y) with (holders s) in El.
        destruct (decide (tokens l th = tokens l thy)); [lia|].
        apply G2 in n as [_ Hs]. rewrite El in Hs. by destruct Hs.
      * intros u thu l Eu Hl. rewrite Exy in Eu. destruct (decide (u = running y)) as [->|].
        -- rewrite lookup_insert_eq in Eu. simplify_eq. by apply (H3 _ thy).
        -- rewrite lookup_insert_ne in Eu by done. by eapply H3.
    + intros b smb. change (semas x) with (<[a := Semaphore (u32 (value sm - 1)) (waiters sm)]> (semas s)).
      rewrite Exy. erewrite total_insert by exact Ey. rewrite (retries_no_wait b th Hn).
      assert (retries b thy = if b =? a then 1 else 0) as ->.
      { unfold retries. simpl. rewrite St, bool_decide_false by done. by rewrite andb_true_r. }
      destruct (Z.eqb_spec b a) as [->|Hb].
      * rewrite lookup_insert_eq. intros [= <-]. cbn [value waiters]. rewrite Hv1.
        unfold is_u32 in *. split; [lia|]. destruct Hwa; [by left|right; lia].
      * rewrite lookup_insert_ne by done. intros Eb. destruct (Q6 b smb Eb) as [? Hw].
        split; [done|]. destruct Hw; [by left|right; lia].
    + intros c ws w Hws Hin. destruct (Q7 c ws w Hws Hin) as [? Hsm]. split; [done|].
      simpl. destruct (decide (w = a)) as [->|]; [by rewrite lookup_insert_eq|].
      by rewrite lookup_insert_ne.
  - split; [by exists th|]. intros u thu Eu Su.
    destruct (decide (u = running s)) as [->|Hne]; [done|]. apply (Ho u thu); [|done].
    rewrite Em. by rewrite lookup_insert_ne.
Qed.

Lemma sema_loop_res a old s s' :
  sched_inv (push (FSemaLoop a old) s) → sema_loop a old s = Ok s' → res (running s) s'.
Proof.
  intros Hi. unfold sema_loop. rewrite bind_Ok. intros (sm & Ea & Hs).
  unfold sema_at in Ea. destruct (semas s !! a) as [sm0|] eqn:E; [|done]. simplify_eq/=.
  destruct (Z.eqb_spec (value sm) 0) as [Hv|Hv].
  - eapply sema_wait_res in Hs as [? ?]; [|done..]. split; [done|by right].
  - pose proof (sema_take_ok a old s sm Hi E Hv) as Hok.
    pose proof (ok_set_level _ _ _ Hok Hs). apply ok_res; [done|].
    unfold intr_set_level, intr_enable, intr_disable in Hs. destruct old; [|by simplify_eq].
    by apply assert_Ok in Hs as [_ [= <-]].
Qed.
(** Entering [sema_down] is coming to its loop with interrupts off. *)
Lemma sema_enter a old s :
  sched_inv (push (FSemaDown a) s) → sched_inv (push (FSemaLoop a old) (intr_disable s)).
Proof.
  intros Hi. destruct (pushed_running _ _ Hi) as (th & E & St & Em & W & F & D & P & I & Id).
  set (y := push (FSemaDown a) s) in *. pose proof Hi as [Hc [_ Ho]].
  set (thy := set_stack (FSemaDown a :: stack th) th) in *.
  set (th' := set_stack (FSemaLoop a old :: stack th) th).
  set (x := push (FSemaLoop a old) (intr_disable s)).
  assert (threads y !! running y = Some thy) as Ey by (rewrite Em; apply lookup_insert_eq).
  assert (threads x = <[running s := th']> (threads y)) as Ex.
  { rewrite Em, insert_insert_eq. unfold x. by rewrite (push_insert (intr_disable s) th) by done. }
  split.
  - eapply core_same with (s := with_threads (<[running s := th']> (threads y)) y); try done.
    eapply core_touch; try done.
    + by rewrite !running_place.
    + unfold stack_ok. rewrite running_place by done. splits; try done; [simpl; congruence|].
      intros Er. destruct (Id Er) as (_ & _ & Hf). by apply Forall_inv in Hf.
    + intros b. unfold retries at 1. simpl. apply retries_nonneg.
  - split.
    + exists th'. rewrite Ex. splits; [apply lookup_insert_eq|done|done].
    + intros u thu. rewrite Ex. destruct (decide (u = running s)) as [->|]; [done|].
      rewrite lookup_insert_ne by done. apply Ho.
Qed.

Lemma sema_down_res a s s' :
  sched_inv (push (FSemaDown a) s) → sema_down a s = Ok s' → res (running s) s'.
Proof.
  intros Hi. unfold sema_down. rewrite assert_Ok. intros [_ Hs].
  eapply (sema_loop_res a _ (intr_disable s)); [by apply sema_enter|done].
Qed.

(** * Priorities *)

(** Changing a priority and sorting the ready list again. *)
Lemma ok_reprioritize p t th s :
  ok s → threads s !! t = Some th →
  let s1 := upd t (set_priority p) s in
  ok (with_ready (sort_seq (higher_priority s1) (ready_list s1)) s1).
Proof.
  intros [[[Q1 Q2 Q3 Q4 Q5 Q6 Q7] [(r & Er & Sr & Hr) Ho]] (r2 & Er2 & Hn)] E s1. simplify_eq.
  set (x := with_ready _ s1). set (th' := set_priority p th).
  assert (threads x = <[t := th']> (threads s)) as Ex
    by (change (threads x) with (threads s1); unfold s1; by rewrite (upd_insert _ _ _ _ E)).
  assert (Hlk : ∀ u, threads x !! u = if decide (u = t) then Some th' else threads s !! u)
    by (intros u; by eapply (change_lookup s x)).
  split; [split|].
  - constructor.
    + eapply (queues_stay s x); try done. intros q. destruct q; try done. simpl.
      by rewrite sort_seq_perm by apply _.
    + apply sort_seq_sorted. apply (higher_priority_weak s1).
    + eapply (stacks_change s x); try done. exact (proj2 Q3 _ _ E).
    + eapply (creates_change s x); try done. by left.
    + eapply (locks_change s x); try done.
    + eapply (wakeups_change s x); try done.
    + exact Q7.
  - split.
    + change (running x) with (running s). rewrite Hlk.
      destruct (decide (running s = t)) as [<-|]; [|by exists r]. simplify_eq.
      exists th'. by splits.
    + change (running x) with (running s). intros u thu. rewrite Hlk.
      destruct (decide (u = t)) as [->|]; [|apply Ho]. intros [= <-] Su. by apply (Ho t th).
  - unfold clean. change (running x) with (running s). rewrite Hlk.
    destruct (decide (running s = t)) as [<-|]; [|by exists r]. simplify_eq. by exists th'.
Qed.

Lemma set_level_running b s s' : intr_set_level b s = Ok s' →
  running s' = running s ∧ ready_list s' = ready_list s ∧ threads s' = threads s ∧
  idle_thread s' = idle_thread s.
Proof.
  unfold intr_set_level, intr_enable, intr_disable. destruct b; [|by intros [= <-]].
  rewrite assert_Ok. by intros [_ [= <-]].
Qed.

Lemma set_priority_res p t s s' :
  ok s → specific_thread_set_priority p t s = Ok s' →
  res (running s) s' ∧ (in_external_intr s = false → leads s').
Proof.
  intros Hok. unfold specific_thread_set_priority. rewrite bind_Ok. intros (th & E & Hs).
  unfold thread_at in E. destruct (threads (intr_disable s) !! t) as [th0|] eqn:Et; [|done].
  pose proof (ok_reprioritize p t th0 (intr_disable s) (ok_disable _ Hok) Et) as Hok2.
  set (s1 := upd t (set_priority p) (intr_disable s)) in *. cbv zeta in Hok2.
  assert (running s1 = running s) as Er by done.
  destruct (sort_seq (higher_priority s1) (ready_list s1)) as [|tfirst rest] eqn:Es.
  - injection Hs as <-. assert (ready_list s1 = []) as Hnil by (by eapply sort_seq_nil).
    rewrite (with_ready_same _ _ Hnil) in Hok2. split; [by apply ok_res|].
    intros _. right. rewrite Hnil. intros u Hu. by apply not_elem_of_nil in Hu.
  - set (s2 := with_ready (tfirst :: rest) s1) in *.
    destruct ((prio s2 (running s2) <=? prio s2 tfirst) && negb (in_external_intr s2)) eqn:Ec.
    + destruct (thread_yield_res (push (FSetLevel (intr_on s)) s2) s') as [? ?];
        [by apply ok_push_level|done|]. split; [|intros _; by apply top_leads]. split; [done|by right].
    + pose proof (ok_set_level _ _ _ Hok2 Hs) as Hok3.
      destruct (set_level_running _ _ _ Hs) as (R1 & R2 & R3 & R4).
      split; [apply ok_res; [done|by rewrite R1]|]. intros Hx. right.
      change (in_external_intr s2) with (in_external_intr s) in Ec. rewrite Hx, andb_true_r in Ec.
      apply Z.leb_gt in Ec. intros u Hu. unfold prio in *. rewrite R3, R1. rewrite R2 in Hu.
      destruct Hok2 as [[Hc2 _] _]. simpl in Hu. apply elem_of_cons in Hu as [->|Hu]; [lia|].
      pose proof (ready_head_top s2 tfirst rest Hc2 eq_refl u Hu) as Hle. unfold prio in Hle. lia.
Qed.

Lemma recalculate_res s s' :
  ok s → recalculate_priority s = Ok s' →
  res (running s) s' ∧ (in_external_intr s = false → leads s').
Proof.
  intros Hok. unfold recalculate_priority. rewrite bind_Ok. intros (th & E & Hs).
  destruct (lock_own_list th); [|destruct (_ <? _)]; by apply set_priority_res in Hs.
Qed.

(** * Waking a thread *)

(** [s0] is [s] with the blocked thread [t] taken out of its queue. *)
Record dequeued (t : Z) (s s0 : sched) : Prop := {
  dq_threads : threads s0 = threads s;
  dq_ready : ready_list s0 = ready_list s;
  dq_running : running s0 = running s;
  dq_idle : idle_thread s0 = idle_thread s;
  dq_holders : holders s0 = holders s;
  dq_conds : conds s0 = conds s;
  dq_values a : value <$> semas s0 !! a = value <$> semas s !! a;
  dq_queue p : NoDup (queue s0 p) ∧ ∀ u, u ∈ queue s0 p ↔ u ≠ t ∧ u ∈ queue s p;
  dq_wakeups : wakeups_ok s0
}.

Lemma unblock_core t th s s0 :
  core s → threads s !! t = Some th → status th = THREAD_BLOCKED → t ≠ idle_thread s →
  (place_of th = PNew → total (creates t) (threads s) = 0) → dequeued t s s0 →
  core (upd t (set_status THREAD_READY)
          (with_ready (insert_seq (higher_priority s0) t (ready_list s0)) s0)).
Proof.
  intros Hc E St Hid Hnew [D1 D2 D3 D4 D5 D6 D7 D8 D10].
  set (x := upd _ _ _). set (th' := set_status THREAD_READY th).
  assert (threads x = <[t := th']> (threads s)) as Ex.
  { unfold x. rewrite (upd_insert _ _ th) by (simpl; by rewrite D1). simpl. by rewrite D1. }
  destruct (proj2 (core_stacks _ Hc) _ _ E) as (W & F & D & P & I & Id).
  assert (Hun : t ∉ ready_list s).
  { intros Hin. pose proof (queue_unique s PReady t th Hc E Hin) as Hp. unfold place_of in Hp.
    rewrite St in Hp. by destruct (stack th) as [|[] ?]. }
  assert (Hpr : ∀ u, prio x u = prio s u) by (intros u; by eapply (prio_change s x)).
  eapply (core_move s x t th th'); try done.
  - intros p. destruct (D8 p) as [Hn Hi]. change (place_of th') with PReady.
    destruct (decide (p = PReady)) as [->|Hne].
    + simpl. rewrite D2. pose proof (queue_nodup s PReady Hc). split.
      * rewrite insert_seq_perm. by constructor.
      * intros u. rewrite insert_seq_perm, elem_of_cons. naive_solver.
    + assert (queue x p = queue s0 p) as -> by (by destruct p). split; [done|].
      intros u. rewrite Hi. naive_solver.
  - apply (sorted_priority_ext s); [done|].
    change (ready_list x) with (insert_seq (higher_priority s0) t (ready_list s0)).
    assert (Hp0 : ∀ u, prio s0 u = prio s u) by (intros u; unfold prio; by rewrite D1).
    rewrite D2. apply (sorted_priority_ext s0); [done|].
    apply insert_seq_sorted; [apply _|]. apply (sorted_priority_ext s); [done|].
    apply (core_sorted _ Hc).
  - eapply (wakeups_change s0 x t th th'); try done; [by rewrite D1|by rewrite D1|].
    intros a. unfold retries. simpl. destruct (stack th) as [|[] ?]; try done.
    rewrite St, bool_decide_true by done. rewrite andb_false_r. destruct (_ && _); lia.
Qed.

Lemma unblock_ok t th s s0 s' :
  ok s → threads s !! t = Some th → t ≠ idle_thread s →
  (place_of th = PNew → total (creates t) (threads s) = 0) → dequeued t s s0 →
  thread_unblock t s0 = Ok s' →
  ok s' ∧ running s' = running s ∧ threads s' = <[t := set_status THREAD_READY th]> (threads s) ∧
  semas s' = semas s0 ∧ holders s' = holders s ∧ conds s' = conds s ∧
  waiting_list s' = waiting_list s0 ∧ in_external_intr s' = in_external_intr s0 ∧
  status th = THREAD_BLOCKED ∧ ticks s' = ticks s0 ∧ intr_on s' = intr_on s0.
Proof.
  intros Hok E Hid Hnew Hd. unfold thread_unblock. rewrite !assert_Ok.
  intros (_ & Hb & Hs). pose proof Hd as [D1 D2 D3 D4 D5 D6 D7 D8 D10].
  assert (status th = THREAD_BLOCKED) as St.
  { unfold status_is in Hb. simpl in Hb. rewrite D1, E in Hb. by apply bool_decide_eq_true in Hb. }
  pose proof Hok as [[Hc [(r & Er & Sr & Hr) Ho]] (r2 & Er2 & Hn)]. simplify_eq.
  pose proof (unblock_core t th s s0 Hc E St Hid Hnew Hd) as Hcx.
  set (x := upd t (set_status THREAD_READY) (with_ready (insert_seq (higher_priority s0) t (ready_list s0)) s0)) in *.
  assert (threads x = <[t := set_status THREAD_READY th]> (threads s)) as Ex.
  { unfold x. rewrite (upd_insert _ _ th) by (simpl; by rewrite D1). simpl. by rewrite D1. }
  assert (t ≠ running s) as Hne by (intros ->; congruence).
  assert (ok x) as Hokx.
  { assert (threads x !! running s = Some r) as Erx by (by rewrite Ex, lookup_insert_ne).
    split; [split; [done|split]|].
    - exists r. change (running x) with (running s0). by rewrite D3.
    - change (running x) with (running s0). rewrite D3. intros u thu. rewrite Ex.
      destruct (decide (u = t)) as [->|].
      + rewrite lookup_insert_eq. by intros [= <-].
      + rewrite lookup_insert_ne by done. apply Ho.
    - exists r. change (running x) with (running s0). by rewrite D3. }
  change (ok (intr_disable x)) with (ok (with_intr false x)) in *.
  assert (Hs2 : intr_set_level (intr_on s0) (intr_disable x) = Ok s') by exact Hs.
  clear Hs. split; [eapply ok_set_level; [|exact Hs2]; by apply ok_disable|].
  unfold intr_set_level, intr_enable, intr_disable in Hs2.
  destruct (intr_on s0) eqn:Ei; [apply assert_Ok in Hs2 as [_ Hs2]|];
    injection Hs2 as <-; by splits.
Qed.

(** ** Raising a semaphore *)

Lemma idle_not_waiting s t th :
  core s → threads s !! t = Some th → (∃ a, place_of th = PSema a) ∨ place_of th = PTimer ∨ place_of th = PNew →
  t ≠ idle_thread s.
Proof.
  intros Hc E Hp ->. destruct (proj2 (core_stacks _ Hc) _ _ E) as (_ & _ & _ & _ & _ & Id).
  destruct (Id eq_refl) as (_ & Hn & Hf). unfold place_of in *.
  destruct Hp as [[a Hp]|[Hp|Hp]]; [..|done]; destruct (status th); try done;
    destruct (stack th) as [|[] ?]; try done; by apply Forall_inv in Hf.
Qed.

Lemma ok_sema_value a v sm s :
  ok s → semas s !! a = Some sm → is_u32 v →
  (waiters sm = [] ∨ v <= total (retries a) (threads s)) →
  (∀ l h, a = lock_sema l → holders s !! l = Some h → v + total (tokens l) (threads s) <= 1) →
  ok (with_semas (<[a := Semaphore v (waiters sm)]> (semas s)) s).
Proof.
  intros [[[Q1 Q2 Q3 Q4 Q5 Q6 Q7] Hr] Hcl] E Hu Hw Hl. set (x := with_semas _ s).
  assert (Hlk : ∀ b, semas x !! b = if decide (b = a) then Some (Semaphore v (waiters sm)) else semas s !! b).
  { intros b. simpl. destruct (decide (b = a)) as [->|]; [apply lookup_insert_eq|by apply lookup_insert_ne]. }
  split; [split|]; [|done..]. constructor; try done.
  - intros p. destruct (Q1 p) as [Hn Hi].
    assert (queue x p = queue s p) as ->; [|done]. destruct p; try done. unfold queue.
    rewrite Hlk. destruct (decide _) as [->|]; [by rewrite E|done].
  - destruct Q5 as (H1 & H2 & H3). unfold locks_ok. splits; [|done..]. intros l h El.
    rewrite Hlk. destruct (decide (lock_sema l = a)) as [Ea|]; [|by apply H1 with h].
    eexists. split; [done|]. cbn [value]. by apply Hl with h.
  - intros b smb. rewrite Hlk. destruct (decide (b = a)) as [->|]; [|apply Q6].
    intros [= <-]. by split.
  - intros c ws w Hws Hin. destruct (Q7 c ws w Hws Hin) as [? Hsm]. split; [done|].
    rewrite Hlk. by destruct (decide _).
Qed.

Lemma dequeue_sema a sm ws t rest s :
  core s → semas s !! a = Some sm → waiters sm ≡ₚ ws → ws = t :: rest → waiters sm ≠ [] →
  dequeued t s (with_semas (<[a := Semaphore (value sm) rest]> (semas s)) s).
Proof.
  intros Hc E Hp -> Hne. set (x := with_semas _ s).
  assert (Hlk : ∀ b, semas x !! b = if decide (b = a) then Some (Semaphore (value sm) rest) else semas s !! b).
  { intros b. simpl. destruct (decide (b = a)) as [->|]; [apply lookup_insert_eq|by apply lookup_insert_ne]. }
  pose proof (queue_nodup s (PSema a) Hc) as Hn. simpl in Hn. rewrite E, Hp in Hn.
  assert (Hin : t ∈ queue s (PSema a)) by (simpl; rewrite E, Hp; left).
  constructor; try done.
  - intros b. rewrite Hlk. destruct (decide _) as [->|]; [by rewrite E|done].
  - intros p. destruct (decide (p = PSema a)) as [->|Hpa].
    + unfold queue. rewrite Hlk, decide_True, E by done. cbn [waiters].
      inversion Hn; subst. split; [done|]. intros u. rewrite Hp. set_solver.
    + assert (queue x p = queue s p) as ->.
      { destruct p; try done. unfold queue. rewrite Hlk, decide_False; [done|]. by intros ->. }
      split; [by apply queue_nodup|]. intros u. split; [|by intros [_ ?]]. intros Hu.
      split; [|done]. intros ->. destruct (queue_mem _ _ _ Hc Hin) as (_ & _ & th & Et & Pt).
      pose proof (queue_unique _ _ _ _ Hc Et Hu). congruence.
  - intros b smb. rewrite Hlk. destruct (decide (b = a)) as [->|]; [|apply (core_wakeups _ Hc)].
    intros [= <-]. destruct (core_wakeups _ Hc a sm E) as [? [?|Hv]]; [done|].
    split; [done|]. by right.
Qed.

Lemma sema_wake_ok a s s' :
  ok s → sema_wake a s = Ok s' →
  ok s' ∧ running s' = running s ∧ holders s' = holders s ∧ conds s' = conds s ∧
  in_external_intr s' = in_external_intr s ∧ intr_on s' = intr_on s ∧
  (∀ l, total (tokens l) (threads s') = total (tokens l) (threads s)) ∧
  ∃ sm sm', semas s !! a = Some sm ∧ semas s' !! a = Some sm' ∧ value sm' = value sm ∧
    (waiters sm' = [] ∨ value sm' + 1 <= total (retries a) (threads s')).
Proof.
  intros Hok. unfold sema_wake. rewrite bind_Ok. intros (sm & E & Hs). unfold sema_at in E.
  destruct (semas s !! a) as [sm0|] eqn:Ea; [|done]. injection E as ->.
  destruct (waiters sm) as [|w ws] eqn:Ew.
  { injection Hs as <-. splits; try done. exists sm, sm. splits; try done. by left. }
  set (order := if (1 <? length (w :: ws))%nat then sort_seq (higher_priority s) (w :: ws) else w :: ws) in *.
  assert (order ≡ₚ w :: ws) as Hp by (unfold order; destruct (_ <? _)%nat; [apply sort_seq_perm|done]).
  destruct order as [|t rest] eqn:Eo; [done|]. clear Eo.
  pose proof Hok as [[Hc _] _].
  assert (t ∈ queue s (PSema a)) as Hin by (simpl; rewrite Ea, Ew, <- Hp; left).
  destruct (queue_mem _ _ _ Hc Hin) as (_ & _ & th & Et & Pt).
  assert (dequeued t s (with_semas (<[a := Semaphore (value sm) rest]> (semas s)) s)) as Hd.
  { eapply (dequeue_sema a sm (t :: rest)); try done; [by rewrite Ew|by rewrite Ew]. }
  eapply unblock_ok in Hs as (K1 & K2 & K3 & K4 & K5 & K6 & K7 & K8 & K9 & K10 & K11);
    [|done|done|eapply idle_not_waiting; try done; by left; eexists|by rewrite Pt|done].
  splits; try done.
  - intros l. rewrite K3. rewrite (total_insert _ _ _ _ _ Et). unfold tokens. simpl. lia.
  - exists sm, (Semaphore (value sm) rest). rewrite K4. simpl. rewrite lookup_insert_eq.
    splits; try done. destruct (core_wakeups _ Hc a sm Ea) as [_ [Hw|Hw]]; [by rewrite Ew in Hw|].
    right. rewrite K3, (total_insert _ _ _ _ _ Et). unfold retries at 2 3. simpl.
    unfold place_of in Pt. rewrite K9 in Pt. destruct (stack th) as [|[] ?]; try done.
    injection Pt as ->. rewrite K9, Z.eqb_refl. simpl. lia.
Qed.

(** Raising the semaphore of a lock is allowed when nobody has the lock. *)
Definition can_up (s : sched) (a : Z) : Prop :=
  ∀ l h sm, a = lock_sema l → holders s !! l = Some h → semas s !! a = Some sm →
    value sm + 1 + total (tokens l) (threads s) <= 1.

Lemma plain_can_up s a : plain_sema s a → can_up s a.
Proof.
  intros Hp l h sm -> El _. unfold plain_sema, lock_sema in Hp.
  replace (l + 12 - 12) with l in Hp by lia. congruence.
Qed.

Lemma u32_incr v : is_u32 v → is_u32 (u32 (v + 1)) ∧ u32 (v + 1) <= v + 1.
Proof.
  unfold is_u32. intros. split; [apply u32_range|]. unfold u32.
  apply Z.mod_le; lia.
Qed.

Lemma sema_up_res a s s' :
  ok s → can_up s a → sema_up a s = Ok s' →
  res (running s) s' ∧ (in_external_intr s = false → leads s').
Proof.
  intros Hok Hup. unfold sema_up. rewrite bind_Ok. intros (s1 & H1 & Hs).
  rewrite bind_Ok in Hs. destruct Hs as (s2 & H2 & Hs).
  eapply sema_wake_ok in H1 as (K1 & K2 & K3 & K4 & K5 & K6 & K7 & sm & sm' & Ea & Ea' & Ev & Hw);
    [|by apply ok_disable].
  change (semas (intr_disable s)) with (semas s) in Ea.
  change (holders (intr_disable s)) with (holders s) in K3.
  change (running (intr_disable s)) with (running s) in K2.
  change (threads (intr_disable s)) with (threads s) in K7.
  change (in_external_intr (intr_disable s)) with (in_external_intr s) in K5.
  unfold sema_incr in H2. rewrite bind_Ok in H2. destruct H2 as (sm2 & E2 & [= <-]).
  unfold sema_at in E2. rewrite Ea' in E2. injection E2 as <-.
  pose proof K1 as [[Hc1 _] _]. destruct (core_wakeups _ Hc1 a sm' Ea') as [Hu _].
  destruct (u32_incr _ Hu) as [Hu1 Hu2].
  eapply recalculate_res in Hs.
  - by rewrite <- K2, <- K5.
  - apply ok_push_level, ok_sema_value; try done.
    + destruct Hw; [by left|right; lia].
    + intros l h -> El. rewrite K3 in El. specialize (Hup l h sm eq_refl El Ea).
      rewrite K7. lia.
Qed.
