(* ===== verification/SchedOps.v ===== *)
(** Preservation of the scheduler's invariant by the remaining operations:
    locks, condition variables, thread creation and exit, the timer, the idle
    thread and external interrupts. *)
From S2P Require Import Prelude KList KListOps KListSort Queue Sched SchedSteps SchedInv SchedProofs.
From Stdlib Require Import Permutation Sorted.

(** * Calls of [sema_down] *)

Definition head_got (fs : list frame) : bool :=
  match fs with FLockGot _ _ :: _ => true | _ => false end.

Lemma ok_push_down a s th :
  ok s → threads s !! running s = Some th → running s ≠ idle_thread s →
  head_got (stack th) = false → ok (push (FSemaDown a) s).
Proof.
  intros Hok E Hi Hh. destruct (running_at s Hok) as (th2 & E2 & St & Hn). simplify_eq.
  destruct (stack_at s th Hok E) as (W & F & D & P & I & Id).
  rewrite (push_insert _ _ _ E). apply ok_restack; try done.
  - by constructor.
  - split; [by destruct (stack th) as [|[] ?]|done].
  - intros l. simpl. by destruct (stack th) as [|[] ?].
Qed.

Lemma push_push_lookup f g s th :
  threads s !! running s = Some th →
  push f (push g s) =
  with_threads (<[running s := set_stack (f :: g :: stack th) th]> (threads s)) s.
Proof.
  intros E. rewrite (push_insert s th g E). erewrite push_insert by apply lookup_insert_eq.
  simpl. by rewrite insert_insert_eq.
Qed.

Lemma ok_push_acquire l old s th :
  ok s → threads s !! running s = Some th → running s ≠ idle_thread s →
  is_Some (holders s !! l) → ok (push (FSemaDown (lock_sema l)) (push (FLockGot l old) s)).
Proof.
  intros Hok E Hi Hl. destruct (running_at s Hok) as (th2 & E2 & St & Hn). simplify_eq.
  destruct (stack_at s th Hok E) as (W & F & D & P & I & Id).
  rewrite (push_push_lookup _ _ _ _ E). apply ok_restack; try done.
  by repeat constructor.
Qed.

(** * Locks *)

Lemma donate_res l p s s' :
  ok s → running s ≠ idle_thread s → lock_priority_donate l p s = Ok s' → res (running s) s'.
Proof.
  intros Hok Hi. unfold lock_priority_donate. destruct (l =? NULL).
  { intros [= <-]. by apply ok_res. }
  rewrite bind_Ok. intros (h & _ & Hs). rewrite bind_Ok in Hs. destruct Hs as (th & _ & Hs).
  destruct (_ <? _); [|injection Hs as <-; by apply ok_res].
  eapply set_priority_res in Hs as [Hr _]; [exact Hr|]. by apply ok_push.
Qed.

Lemma donate_next_res t p s s' :
  ok s → running s ≠ idle_thread s → donate_next t p s = Ok s' → res (running s) s'.
Proof.
  intros Hok Hi. unfold donate_next. rewrite bind_Ok. intros (th & _ & Hs).
  destruct (_ =? _); [injection Hs as <-; by apply ok_res|]. by eapply donate_res.
Qed.

Lemma lock_acquire_res l s s' :
  ok s → running s ≠ idle_thread s → lock_acquire l s = Ok s' → res (running s) s'.
Proof.
  intros Hok Hi. unfold lock_acquire. rewrite assert_Ok. intros [_ Hs].
  rewrite bind_Ok in Hs. destruct Hs as (h & Eh & Hs). apply assert_Ok in Hs as [_ Hs].
  assert (is_Some (holders s !! l)) as Hl.
  { unfold holder_of in Eh. by destruct (holders s !! l). }
  destruct (running_at s Hok) as (th & E & St & Hn).
  assert (ok (push (FSemaDown (lock_sema l)) (push (FLockGot l (intr_on s)) (intr_disable s)))) as Hp
    by (apply (ok_push_acquire l _ _ th); try done; by apply ok_disable).
  destruct (negb (h =? NULL)).
  - set (s1 := push (FLockGot l (intr_on s)) (intr_disable s)) in *.
    apply donate_res in Hs; [done| |done].
    assert (push (FSemaDown (lock_sema l)) (upd (running s) (set_plock l) s1) =
            upd (running s) (set_plock l) (push (FSemaDown (lock_sema l)) s1)) as Ec.
    { unfold push, upd, with_threads. simpl. f_equal. apply map_eq. intros u.
      destruct (decide (u = running s)) as [->|].
      - rewrite !lookup_alter_eq, E. done.
      - by rewrite !lookup_alter_ne. }
    change (running (intr_disable s)) with (running s). rewrite Ec. by apply ok_field.
  - eapply sema_down_res in Hs; [done|]. by destruct Hp.
Qed.

Lemma own_count_nonneg l xs : 0 <= count l xs.
Proof. unfold count. lia. Qed.
Lemma count_app l xs ys : count l (xs ++ ys) = count l xs + count l ys.
Proof. unfold count. rewrite List.filter_app, length_app. lia. Qed.
Lemma count_pos l xs : l ∈ xs → 1 <= count l xs.
Proof.
  unfold count. induction xs as [|x xs IH]; [by intros ?%not_elem_of_nil|].
  intros [->|Hin]%elem_of_cons; simpl; [rewrite Z.eqb_refl; simpl; lia|].
  specialize (IH Hin). destruct (l =? x); simpl; lia.
Qed.
Lemma count_remove_first l k xs :
  l ∈ xs → count k (remove_first l xs) = count k xs - (if k =? l then 1 else 0).
Proof.
  unfold count. induction xs as [|x xs IH]; [by intros ?%not_elem_of_nil|]. simpl.
  destruct (Z.eqb_spec l x) as [<-|Hne]; intros Hin.
  - destruct (k =? l); simpl; lia.
  - apply elem_of_cons in Hin as [->|Hin]; [done|]. specialize (IH Hin). simpl.
    destruct (k =? x); simpl; lia.
Qed.
Lemma remove_first_subset l k xs : k ∈ remove_first l xs → k ∈ xs.
Proof.
  induction xs as [|x xs IH]; simpl; [done|]. destruct (l =? x); set_solver.
Qed.

Lemma token_total l s t th : threads s !! t = Some th → tokens l th <= total (tokens l) (threads s).
Proof. apply total_ge. apply tokens_nonneg. Qed.

Lemma owned_token l th : l ∈ lock_own_list th → 1 <= tokens l th.
Proof.
  intros Hin%count_pos. unfold tokens. pose proof (grants_nonneg l (stack th)). lia.
Qed.

(** Changing the holder of a lock nobody owns. *)
Lemma ok_holder l h s :
  ok s → is_Some (holders s !! l) → total (tokens l) (threads s) = 0 →
  ok (with_holders (<[l := h]> (holders s)) s).
Proof.
  intros [[[Q1 Q2 Q3 Q4 Q5 Q6 Q7] Hr] Hcl] [h0 Hl] Ht. set (x := with_holders _ s).
  assert (Hlk : ∀ k, holders x !! k = if decide (k = l) then Some h else holders s !! k).
  { intros k. simpl. destruct (decide (k = l)) as [->|]; [apply lookup_insert_eq|by apply lookup_insert_ne]. }
  assert (Hsome : ∀ k, is_Some (holders s !! k) → is_Some (holders x !! k)).
  { intros k. rewrite Hlk. by destruct (decide _). }
  split; [split|]; [|done..]. constructor; try done.
  - destruct Q3 as [? Hs]. split; [done|]. intros t th E. eapply stack_ok_mono; [|done|]; [done|auto].
  - destruct Q5 as (H1 & H2 & H3). unfold locks_ok. splits.
    + intros k hk. rewrite Hlk. destruct (decide (k = l)) as [->|]; [|apply H1].
      intros _. by apply H1 with h0.
    + intros k. rewrite Hlk. destruct (decide _); [done|apply H2].
    + intros t th k E Hk. rewrite Hlk. destruct (decide (k = l)) as [->|]; [|by eapply H3].
      pose proof (token_total l s t th E). pose proof (owned_token _ _ Hk). lia.
  - intros c ws w Hws Hin. destruct (Q7 c ws w Hws Hin) as [Hp ?]. split; [|done].
    unfold plain_sema in *. rewrite Hlk. destruct (decide _) as [e|]; [|done].
    rewrite e in Hp. congruence.
Qed.

(** Dropping one owned lock. *)
Lemma ok_disown l s th :
  ok s → threads s !! running s = Some th → l ∈ lock_own_list th →
  let x := upd (running s) (set_own (remove_first l (lock_own_list th))) s in
  ok x ∧ (∀ k, total (tokens k) (threads x) =
               total (tokens k) (threads s) - (if k =? l then 1 else 0)).
Proof.
  intros Hok E Hin x. destruct (running_at s Hok) as (th2 & E2 & St & Hn). simplify_eq.
  unfold x. rewrite (upd_insert _ _ _ _ E). set (th' := set_own _ th).
  assert (Htk : ∀ k, tokens k th' = tokens k th - (if k =? l then 1 else 0)).
  { intros k. unfold tokens. simpl. rewrite count_remove_first by done. lia. }
  split.
  - eapply ok_touch; try done.
    + exact (stack_at s th Hok E).
    + intros k. rewrite Htk. destruct (_ =? _); lia.
    + intros k. apply remove_first_subset.
  - intros k. simpl. rewrite (total_insert _ _ _ _ _ E), Htk. lia.
Qed.

Lemma lock_release_res l s s' :
  ok s → lock_release l s = Ok s' →
  res (running s) s' ∧ (in_external_intr s = false → leads s').
Proof.
  intros Hok. unfold lock_release. rewrite bind_Ok. intros (h & Eh & Hs).
  apply assert_Ok in Hs as [_ Hs]. rewrite bind_Ok in Hs. destruct Hs as (th & E & Hs).
  assert (threads s !! running s = Some th) as Eth.
  { unfold thread_at in E. simpl in E. destruct (threads s !! running s); by simplify_eq/=. }
  destruct (bool_decide (l ∈ lock_own_list th)) eqn:Ein; [|done]. simpl in Hs.
  apply bool_decide_eq_true in Ein.
  destruct (holders s !! l) as [h0|] eqn:El; [|by unfold holder_of in Eh; rewrite El in Eh].
  destruct (ok_disown l (intr_disable s) th (ok_disable _ Hok) Eth Ein) as [Hok1 Htot].
  set (s1 := upd _ _ (intr_disable s)) in *.
  pose proof Hok as [[Hc _] _]. destruct (core_locks _ Hc) as (H1 & _ & _).
  destruct (H1 l h0 El) as (sm & Esm & Hv).
  assert (1 <= total (tokens l) (threads s)) as Hge.
  { pose proof (token_total l s _ th Eth). pose proof (owned_token _ _ Ein). lia. }
  destruct (core_wakeups _ Hc _ _ Esm) as [[Hu _] _].
  pose proof (Htot l) as Hl. rewrite Z.eqb_refl in Hl. change (threads (intr_disable s)) with (threads s) in Hl.
  eapply sema_up_res in Hs; [exact Hs| |].
  - apply ok_push_level. change (ok (with_holders (<[l := NULL]> (holders s1)) s1)).
    apply ok_holder; [done|by exists h0|lia].
  - intros k hk smk Ek Ehk Esk. assert (k = l) as -> by (unfold lock_sema in Ek; lia).
    assert (smk = sm) as -> by (change (semas s !! lock_sema l = Some smk) in Esk; congruence).
    set (x := push _ _). assert (total (tokens l) (threads x) = total (tokens l) (threads s1)) as ->.
    { unfold x. change (threads s1 !! running s1) with (threads s1 !! running s) in *.
      destruct (running_at s1 Hok1) as (th1 & E1 & _).
      erewrite push_insert by exact E1. simpl. rewrite (total_insert _ _ _ _ _ E1).
      unfold tokens at 2 3. simpl. lia. }
    lia.
Qed.

(** The end of [lock_acquire]: the granted lock is recorded as owned. *)
Lemma lock_got_res l old s s' :
  sched_inv (push (FLockGot l old) s) → lock_got l old s = Ok s' → res (running s) s'.
Proof.
  intros Hi Hs. destruct (pushed_running _ _ Hi) as (th & E & St & Em & W & F & D & P & I & Id).
  set (y := push (FLockGot l old) s) in *. pose proof Hi as [[Q1 Q2 Q3 Q4 Q5 Q6 Q7] [_ Ho]].
  set (thy := set_stack (FLockGot l old :: stack th) th) in *.
  assert (threads y !! running y = Some thy) as Ey by (rewrite Em; apply lookup_insert_eq).
  unfold lock_got in Hs. rewrite (upd_insert _ _ _ _ E) in Hs.
  set (th' := set_plock NULL _) in Hs.
  match type of Hs with intr_set_level _ ?st = _ => set (x := st) in * end.
  assert (threads x = <[running y := th']> (threads y)) as Ex
    by (rewrite Em; simpl; by rewrite insert_insert_eq).
  destruct F as [[h0 Hl] F]. simpl in W.
  assert (Hlk : ∀ k, holders x !! k = if decide (k = l) then Some (running s) else holders y !! k).
  { intros k. change (holders x) with (<[l := running s]> (holders s)).
    destruct (decide (k = l)) as [->|]; [apply lookup_insert_eq|by apply lookup_insert_ne]. }
  assert (Htk : ∀ k, tokens k th' = tokens k thy).
  { intros k. unfold tokens. simpl. rewrite count_app. unfold count at 2. simpl.
    destruct (k =? l); simpl; lia. }
  assert (Htot : ∀ k, total (tokens k) (threads x) = total (tokens k) (threads y)).
  { intros k. rewrite Ex, (total_insert _ _ _ _ _ Ey), Htk. lia. }
  assert (Hrth : status th' = THREAD_RUNNING) by exact St.
  assert (ok x) as Hok.
  { split; [split|]; [constructor|..].
    - eapply (queues_stay y x); try done. by rewrite !running_place.
    - by eapply (sorted_change y x).
    - eapply (stacks_change y x); try done.
      + intros k. rewrite Hlk. by destruct (decide _).
      + unfold stack_ok. rewrite running_place by done. splits; try done; [|simpl; congruence|].
        * simpl. destruct (stack th); [done|]. by inversion W.
        * intros Er. destruct (Id Er) as (_ & _ & Hf). by apply Forall_inv in Hf.
    - eapply (creates_change y x); try done. intros C. by rewrite running_place in C.
    - destruct Q5 as (H1 & H2 & H3). unfold locks_ok. splits.
      + intros k hk. rewrite Hlk, Htot. destruct (decide (k = l)) as [->|]; [|apply H1].
        intros _. by apply (H1 l h0).
      + intros k. rewrite Hlk, Htot. destruct (decide _); [done|apply H2].
      + intros u thu k Eu Hk. rewrite Hlk. rewrite Ex in Eu.
        destruct (decide (u = running y)) as [->|Hu].
        * rewrite lookup_insert_eq in Eu. injection Eu as <-. destruct (decide (k = l)); [done|].
          apply (H3 _ thy _ Ey). simpl in *. set_solver.
        * rewrite lookup_insert_ne in Eu by done. destruct (decide (k = l)) as [->|]; [|by eapply H3].
          exfalso. destruct (H1 l h0 Hl) as (sm & Esm & Hv). destruct (Q6 _ _ Esm) as [[? _] _].
          pose proof (total_ge2 _ (tokens_nonneg l) _ _ _ _ _ Ey Eu ltac:(done)) as H2t.
          assert (1 <= tokens l thu) by (by apply owned_token).
          assert (1 <= tokens l thy).
          { unfold tokens. simpl. rewrite Z.eqb_refl. pose proof (grants_nonneg l (stack th)).
            pose proof (own_count_nonneg l (lock_own_list th)). lia. }
          lia.
    - eapply (wakeups_change y x); try done. intros a. unfold retries at 1. simpl. apply retries_nonneg.
    - intros c ws w Hws Hin. destruct (Q7 c ws w Hws Hin) as [Hp ?]. split; [|done].
      unfold plain_sema in *. rewrite Hlk. destruct (decide _) as [e|]; [|done].
      rewrite e in Hp. change (holders y) with (holders s) in Hp. congruence.
    - assert (threads x !! running x = Some th') as Exr by (rewrite Ex; apply lookup_insert_eq).
      split; [by exists th'|]. intros u thu. rewrite Ex.
      destruct (decide (u = running y)) as [->|]; [done|]. rewrite lookup_insert_ne by done. apply Ho.
    - exists th'. split; [rewrite Ex; apply lookup_insert_eq|done]. }
  pose proof (ok_set_level _ _ _ Hok Hs). destruct (set_level_running _ _ _ Hs) as (R & _).
  by apply ok_res.
Qed.

Lemma try_down_ok a b s s' :
  ok s → sema_try_down a s = Ok (b, s') →
  ok s' ∧ running s' = running s ∧ threads s' = threads s ∧ holders s' = holders s ∧
  (b = true → ∃ sm, semas s !! a = Some sm ∧ 0 < value sm).
Proof.
  intros Hok. unfold sema_try_down. rewrite bind_Ok. intros (sm & E & Hs). unfold sema_at in E.
  destruct (semas s !! a) as [sm0|] eqn:Ea; [|done]. injection E as ->.
  set (s1 := intr_disable s) in *. pose proof (ok_disable _ Hok) as Hok1. fold s1 in Hok1.
  pose proof Hok as [[Hc _] _]. destruct (core_wakeups _ Hc a sm Ea) as [Hu Hw].
  destruct (Z.ltb_spec 0 (value sm)) as [Hlt|Hge]; rewrite bind_Ok in Hs;
    destruct Hs as (s2 & H2 & [= <- <-]).
  - assert (u32 (value sm - 1) = value sm - 1) as Hv by (unfold is_u32 in Hu; apply u32_small; lia).
    assert (ok (with_semas (<[a := Semaphore (u32 (value sm - 1)) (waiters sm)]> (semas s1)) s1)) as Hok2.
    { rewrite Hv. apply ok_sema_value; try done.
      - unfold is_u32 in *. lia.
      - destruct Hw; [by left|right]. change (threads s1) with (threads s). lia.
      - intros l h -> El. destruct (core_locks _ Hc) as (H1 & _ & _).
        destruct (H1 l h El) as (sm2 & E2 & Hle). simplify_eq. change (threads s1) with (threads s). lia. }
    pose proof (ok_set_level _ _ _ Hok2 H2). unfold intr_set_level, intr_enable, intr_disable in H2.
    destruct (intr_on s); [apply assert_Ok in H2 as [_ H2]|]; injection H2 as <-; splits; try done; eauto.
  - pose proof (ok_set_level _ _ _ Hok1 H2). unfold intr_set_level, intr_enable, intr_disable in H2.
    destruct (intr_on s); [apply assert_Ok in H2 as [_ H2]|]; injection H2 as <-; by splits.
Qed.

Lemma try_acquire_ok l b s s' :
  ok s → lock_try_acquire l s = Ok (b, s') → ok s' ∧ running s' = running s.
Proof.
  intros Hok. unfold lock_try_acquire. rewrite bind_Ok. intros (h & Eh & Hs).
  apply assert_Ok in Hs as [_ Hs]. rewrite bind_Ok in Hs. destruct Hs as ([b0 s1] & H1 & Hs).
  eapply try_down_ok in H1 as (K1 & K2 & K3 & K4 & K5); [|done].
  destruct b0; injection Hs as <- <-; [|done]. split; [|done].
  destruct (holders s !! l) as [h0|] eqn:El; [|by unfold holder_of in Eh; rewrite El in Eh].
  destruct (K5 eq_refl) as (sm & Esm & Hpos).
  apply ok_holder; [done|rewrite K4; by exists h0|]. rewrite K3.
  pose proof Hok as [[Hc _] _]. destruct (core_locks _ Hc) as (H1 & _ & _).
  destruct (H1 l h0 El) as (sm2 & E2 & Hle). simplify_eq.
  pose proof (total_nonneg _ (tokens_nonneg l) (threads s)). lia.
Qed.

(** * Initialization of objects *)

Lemma sema_init_ok a v s : ok s → idle_sema s a → is_u32 v → ok (sema_init a v s).
Proof.
  intros [[[Q1 Q2 Q3 Q4 Q5 Q6 Q7] Hr] Hcl] [Hp Hw] Hv. set (x := sema_init a v s).
  assert (Hlk : ∀ b, semas x !! b = if decide (b = a) then Some (Semaphore v []) else semas s !! b).
  { intros b. simpl. destruct (decide (b = a)) as [->|]; [apply lookup_insert_eq|by apply lookup_insert_ne]. }
  split; [split|]; [|done..]. constructor; try done.
  - intros p. assert (queue x p = queue s p) as ->; [|apply Q1]. destruct p; try done. unfold queue.
    rewrite Hlk. destruct (decide _) as [->|]; [|done]. destruct (semas s !! a) eqn:E; [|done].
    symmetry. by apply Hw.
  - destruct Q5 as (H1 & H2 & H3). unfold locks_ok. splits; [|done..]. intros l h El.
    rewrite Hlk. destruct (decide (lock_sema l = a)) as [<-|]; [|by apply H1 with h].
    unfold plain_sema, lock_sema in Hp. replace (l + 12 - 12) with l in Hp by lia.
    change (holders x) with (holders s) in El. congruence.
  - intros b smb. rewrite Hlk. destruct (decide (b = a)) as [->|]; [|apply Q6].
    intros [= <-]. split; [done|by left].
  - intros c ws w Hws Hin. destruct (Q7 c ws w Hws Hin) as [? Hsm]. split; [done|].
    rewrite Hlk. by destruct (decide _).
Qed.

Lemma lock_init_ok l s :
  ok s → holders s !! l = None → semas s !! lock_sema l = None → ok (lock_init l s).
Proof.
  intros [[[Q1 Q2 Q3 Q4 Q5 Q6 Q7] Hr] Hcl] Hl Hs. set (x := lock_init l s).
  assert (Hlk : ∀ b, semas x !! b = if decide (b = lock_sema l) then Some (Semaphore 1 []) else semas s !! b).
  { intros b. simpl. destruct (decide (b = lock_sema l)) as [->|]; [apply lookup_insert_eq|by apply lookup_insert_ne]. }
  assert (Hhk : ∀ k, holders x !! k = if decide (k = l) then Some NULL else holders s !! k).
  { intros k. simpl. destruct (decide (k = l)) as [->|]; [apply lookup_insert_eq|by apply lookup_insert_ne]. }
  destruct Q5 as (H1 & H2 & H3). pose proof (H2 l Hl) as H0.
  split; [split|]; [|done..]. constructor; try done.
  - intros p. assert (queue x p = queue s p) as ->; [|apply Q1]. destruct p; try done. unfold queue.
    rewrite Hlk. destruct (decide _) as [->|]; [by rewrite Hs|done].
  - destruct Q3 as [? Hst]. split; [done|]. intros t th E.
    apply (stack_ok_mono s x); [done| |by apply Hst]. intros k. rewrite Hhk. by destruct (decide _).
  - unfold locks_ok. splits.
    + intros k h. rewrite Hhk, Hlk. unfold lock_sema. destruct (decide (k = l)) as [->|].
      * intros _. rewrite decide_True by done. eexists. split; [done|]. cbn [value].
        change (threads x) with (threads s). lia.
      * rewrite decide_False by lia. apply H1.
    + intros k. rewrite Hhk. destruct (decide _); [done|apply H2].
    + intros t th k E Hk. rewrite Hhk. destruct (decide (k = l)) as [->|]; [|by eapply H3].
      specialize (H3 t th l E Hk). congruence.
  - intros b smb. rewrite Hlk. destruct (decide _) as [->|]; [|apply Q6].
    intros [= <-]. split; [done|by left].
  - intros c ws w Hws Hin. destruct (Q7 c ws w Hws Hin) as [Hp Hsm]. split.
    + unfold plain_sema in *. rewrite Hhk. destruct (decide _) as [e|]; [|done]. exfalso.
      assert (w = lock_sema l) as -> by (unfold lock_sema; lia). rewrite Hs in Hsm. by destruct Hsm.
    + rewrite Hlk. by destruct (decide _).
Qed.

Lemma ok_conds c ws s :
  ok s → (∀ w, w ∈ ws → plain_sema s w ∧ is_Some (semas s !! w)) →
  ok (with_conds (<[c := ws]> (conds s)) s).
Proof.
  intros [[[Q1 Q2 Q3 Q4 Q5 Q6 Q7] Hr] Hcl] Hws. split; [split|]; [|done..].
  constructor; try done. intros c' ws' w. simpl. destruct (decide (c' = c)) as [->|].
  - rewrite lookup_insert_eq. intros [= <-]. apply Hws.
  - rewrite lookup_insert_ne by done. apply Q7.
Qed.

(** * Condition variables *)

Lemma cond_signal_res c l s s' : ok s → cond_signal c l s = Ok s' → res (running s) s'.
Proof.
  intros Hok. unfold cond_signal. rewrite assert_Ok. intros [_ Hs].
  rewrite bind_Ok in Hs. destruct Hs as (held & _ & Hs). apply assert_Ok in Hs as [_ Hs].
  rewrite bind_Ok in Hs. destruct Hs as (ws & Ec & Hs). unfold cond_at in Ec.
  destruct (conds s !! c) as [ws0|] eqn:E; [|done]. injection Ec as ->.
  destruct (sort_seq (higher_priority_insema s) ws) as [|w rest] eqn:Es.
  { injection Hs as <-. by apply ok_res. }
  assert (Hw : ∀ u, u ∈ w :: rest → plain_sema s u ∧ is_Some (semas s !! u)).
  { intros u Hu. pose proof Hok as [[Hc _] _]. apply (core_conds _ Hc c ws); [done|].
    by rewrite <- Es, sort_seq_perm in Hu. }
  eapply sema_up_res in Hs as [Hr _]; [exact Hr| |].
  - apply ok_conds; [done|]. intros u Hu. apply Hw. by right.
  - apply plain_can_up. apply Hw. left.
Qed.

Lemma cond_broadcast_res c l s s' :
  ok s → running s ≠ idle_thread s → cond_broadcast c l s = Ok s' → res (running s) s'.
Proof.
  intros Hok Hi. unfold cond_broadcast. rewrite bind_Ok. intros (ws & _ & Hs).
  destruct ws; [injection Hs as <-; by apply ok_res|].
  eapply cond_signal_res in Hs; [exact Hs|]. by apply ok_push.
Qed.

Lemma cond_wait_res c l w s s' :
  ok s → running s ≠ idle_thread s → idle_sema s w → cond_wait c l w s = Ok s' →
  res (running s) s'.
Proof.
  intros Hok Hi Hw. unfold cond_wait. rewrite assert_Ok. intros [_ Hs].
  rewrite bind_Ok in Hs. destruct Hs as (held & _ & Hs). apply assert_Ok in Hs as [_ Hs].
  rewrite bind_Ok in Hs. destruct Hs as (ws & Ec & Hs). unfold cond_at in Ec. simpl in Ec.
  destruct (conds s !! c) as [ws0|] eqn:E; [|done]. injection Ec as ->.
  assert (ok (sema_init w 0 s)) as Hok1 by (by apply sema_init_ok).
  set (s1 := sema_init w 0 s) in *.
  assert (ok (with_conds (<[c := ws ++ [w]]> (conds s1)) s1)) as Hok2.
  { apply ok_conds; [done|]. intros u [Hu|Hu]%elem_of_app.
    - pose proof Hok1 as [[Hc _] _]. by apply (core_conds _ Hc c ws).
    - apply list_elem_of_singleton in Hu as ->. split; [by destruct Hw|].
      simpl. by rewrite lookup_insert_eq. }
  set (s2 := with_conds _ s1) in *.
  assert (ok (push (FLockAcquire l) s2)) as Hok3 by (by apply ok_push).
  destruct (running_at s2 Hok2) as (th & Eth & St & Hn).
  eapply lock_release_res in Hs as [Hr _]; [exact Hr|].
  eapply (ok_push_down _ _ (set_stack (FLockAcquire l :: stack th) th)); try done.
  rewrite (push_lookup _ _ _ _ Eth). by rewrite decide_True.
Qed.

(** * Creating and ending threads *)

Lemma fresh_creates s t : core s → threads s !! t = None → total (creates t) (threads s) = 0.
Proof.
  intros Hc E. destruct (core_creates _ Hc t) as [_ H2].
  pose proof (total_nonneg _ (creates_nonneg t) (threads s)).
  destruct (Z.eq_dec (total (creates t) (threads s)) 0) as [|Hne]; [done|].
  destruct H2 as (th & E2 & _); [lia|]. congruence.
Qed.

Lemma ok_new_thread t p s :
  ok s → threads s !! t = None →
  ok (with_threads (<[t := Thread 0 THREAD_BLOCKED p 0 [] NULL p NULL [FSetLevel true]]> (threads s)) s).
Proof.
  intros [[[Q1 Q2 Q3 Q4 Q5 Q6 Q7] [(r & Er & Sr & Hwr) Ho]] (r2 & Er2 & Hn)] E. simplify_eq.
  set (th := Thread _ _ _ _ _ _ _ _ _). set (x := with_threads _ s).
  assert (Hlk : ∀ u, threads x !! u = if decide (u = t) then Some th else threads s !! u).
  { intros u. simpl. destruct (decide (u = t)) as [->|]; [apply lookup_insert_eq|by apply lookup_insert_ne]. }
  assert (Htot : ∀ f : thread → Z, total f (threads x) = f th + total f (threads s))
    by (intros f; by apply total_new).
  assert (Hnq : ∀ p, t ∉ queue s p).
  { intros q (_ & _ & th0 & E0 & _)%Q1. congruence. }
  assert (t ≠ running s) as Hne by congruence.
  split; [split|]; [constructor|..].
  - intros q. destruct (Q1 q) as [? Hi].
    assert (queue x q = queue s q) as -> by (by destruct q). split; [done|].
    intros u. change (idle_thread x) with (idle_thread s). rewrite Hlk.
    destruct (decide (u = t)) as [->|]; [|apply Hi]. split; [by intros ?%Hnq|].
    intros (Hq & _ & th0 & [= <-] & <-). done.
  - revert Q2. apply Sorted_ext. intros a b Ha Hb. unfold higher_priority, prio. rewrite !Hlk.
    rewrite !decide_False; [done|intros ->; by apply (Hnq PReady)..].
  - destruct Q3 as [Hid Hst]. assert (t ≠ idle_thread s).
    { intros ->. rewrite E in Hid. by destruct Hid. }
    split; [rewrite Hlk; by destruct (decide _)|].
    intros u thu. rewrite Hlk. destruct (decide (u = t)) as [->|]; [|apply Hst].
    intros [= <-]. unfold stack_ok. splits; try done. constructor.
  - intros u. rewrite Htot. change (creates u th) with 0. rewrite Z.add_0_l.
    destruct (Q4 u) as [? H2]. split; [done|]. intros Hp. destruct (H2 Hp) as (thu & Eu & Pu).
    exists thu. rewrite Hlk. destruct (decide (u = t)) as [->|]; [congruence|done].
  - destruct Q5 as (H1 & H2 & H3). unfold locks_ok. splits.
    + intros l h El. rewrite Htot. change (tokens l th) with 0. rewrite Z.add_0_l. by apply H1 with h.
    + intros l El. rewrite Htot. change (tokens l th) with 0. rewrite Z.add_0_l. by apply H2.
    + intros u thu l. rewrite Hlk. destruct (decide (u = t)) as [->|]; [|apply H3].
      intros [= <-] Hin. by apply not_elem_of_nil in Hin.
  - intros a sm Ea. rewrite Htot. change (retries a th) with 0. rewrite Z.add_0_l. by apply Q6.
  - exact Q7.
  - split.
    + exists r. change (running x) with (running s). rewrite Hlk, decide_False by done. done.
    + intros u thu. rewrite Hlk. destruct (decide (u = t)) as [->|]; [by intros [= <-]|apply Ho].
  - exists r. change (running x) with (running s). by rewrite Hlk, decide_False.
Qed.

(** The call of [thread_create] keeps its page while it waits for the tid. *)
Lemma ok_push_created t tht s :
  ok s → threads s !! t = Some tht → place_of tht = PNew → total (creates t) (threads s) = 0 →
  running s ≠ idle_thread s → ok (push (FCreated t) s).
Proof.
  intros Hok Et Pt H0 Hi. destruct (running_at s Hok) as (th & E & St & Hn).
  destruct (stack_at s th Hok E) as (W & F & D & P & I & Id).
  pose proof Hok as [[[Q1 Q2 Q3 Q4 Q5 Q6 Q7] [_ Ho]] _].
  rewrite (push_insert _ _ _ E). set (th' := set_stack _ th). set (x := with_threads _ s).
  assert (t ≠ running s) as Hne.
  { intros ->. simplify_eq. by rewrite running_place in Pt. }
  assert (Hlk : ∀ u, threads x !! u = if decide (u = running s) then Some th' else threads s !! u)
    by (intros u; by eapply (change_lookup s x)).
  assert (threads x !! running x = Some th') as Exr by (rewrite Hlk; by rewrite decide_True).
  assert (no_wait (stack th')) as Hn' by (by constructor).
  split; [split|]; [constructor|..].
  - eapply (queues_stay s x); try done. by rewrite !running_place.
  - by eapply (sorted_change s x).
  - eapply (stacks_change s x); try done. unfold stack_ok. rewrite running_place by done.
    splits; try done. simpl. congruence.
  - intros u. change (threads x) with (<[running s := th']> (threads s)).
    rewrite (total_insert _ _ _ _ _ E). unfold creates at 2 3 5 6. simpl.
    destruct (Q4 u) as [H1 H2]. case_bool_decide as Eu.
    + simplify_eq/=. split; [lia|]. intros _. exists tht. by rewrite lookup_insert_ne.
    + split; [lia|]. intros Hp. destruct H2 as (thu & Eu' & Pu); [lia|].
      destruct (decide (u = running s)) as [->|]; [simplify_eq; by rewrite running_place in Pu|].
      exists thu. by rewrite lookup_insert_ne.
  - eapply (locks_change s x); try done.
  - eapply (wakeups_change s x); try done. intros a. rewrite (retries_no_wait a th Hn).
    apply retries_nonneg.
  - exact Q7.
  - split; [by exists th'|]. intros u thu. rewrite Hlk.
    destruct (decide (u = running s)) as [->|]; [done|apply Ho].
  - by exists th'.
Qed.

Lemma thread_create_res t p s s' :
  ok s → running s ≠ idle_thread s → (t = NULL ∨ threads s !! t = None) →
  thread_create t p [] s = Ok s' → res (running s) s'.
Proof.
  intros Hok Hi Ht. unfold thread_create. destruct (Z.eqb_spec t NULL) as [|Hnn].
  { intros [= <-]. by apply ok_res. }
  destruct Ht as [|Et]; [done|]. rewrite bind_Ok. intros (s1 & H1 & Hs).
  unfold init_thread in H1. apply assert_Ok in H1 as [_ H1]. apply assert_Ok in H1 as [_ [= <-]].
  pose proof (ok_new_thread t p s Hok Et) as Hok0. pose proof Hok as [[Hc _] _].
  set (s0 := with_threads _ s) in *. set (s1 := upd _ _ s0) in *.
  assert (ok s1) as Hok1 by (by apply ok_field).
  assert (total (creates t) (threads s0) = 0) as Hz.
  { change (threads s0) with (<[t := Thread 0 THREAD_BLOCKED p 0 [] NULL p NULL [FSetLevel true]]> (threads s)).
    rewrite total_new by done. by rewrite fresh_creates. }
  assert (threads s0 !! t = Some (Thread 0 THREAD_BLOCKED p 0 [] NULL p NULL [FSetLevel true])) as E0
    by apply lookup_insert_eq.
  assert (ok (push (FCreated t) s1)) as Hok2.
  { eapply (ok_push_created t (if decide (t = initial_thread s) then _ else _)); [done| | | |done].
    - unfold s1, upd. simpl threads. destruct (decide (t = initial_thread s)) as [<-|].
      + rewrite lookup_alter_eq. change (initial_thread s0) with t. exact (f_equal _ E0).
      + rewrite lookup_alter_ne by done. exact E0.
    - by destruct (decide _).
    - unfold s1. by rewrite total_upd. }
  unfold allocate_tid in Hs. eapply lock_acquire_res in Hs; [exact Hs| |done]. by apply ok_push.
Qed.

Lemma tid_locked_res t s s' :
  ok s → running s ≠ idle_thread s → tid_locked t s = Ok s' → res (running s) s'.
Proof.
  intros Hok Hi Hs. eapply lock_release_res in Hs as [Hr _]; [exact Hr|].
  apply ok_push; [by apply ok_next_tid|done..].
Qed.

Lemma tid_return_res t tid s s' : ok s → tid_return t tid s = Ok s' → res (running s) s'.
Proof.
  intros Hok. unfold tid_return. rewrite bind_Ok. intros (th & _ & [= <-]).
  apply ok_res; [by apply ok_field|done].
Qed.

Lemma dequeued_new t th s :
  core s → threads s !! t = Some th → place_of th = PNew → dequeued t s s.
Proof.
  intros Hc E P. constructor; try done.
  - intros p. split; [by apply queue_nodup|]. intros u. split; [|by intros [_ ?]].
    intros Hin. split; [|done]. intros ->. pose proof (queue_unique _ _ _ _ Hc E Hin) as Hp.
    destruct (queue_mem _ _ _ Hc Hin) as (Hq & _). rewrite P in Hp. by subst.
  - apply (core_wakeups _ Hc).
Qed.

Lemma thread_created_res t s s' :
  sched_inv (push (FCreated t) s) → ok s → thread_created t s = Ok s' →
  res (running s) s' ∧ (in_external_intr s = false → leads s').
Proof.
  intros Hi Hok. destruct (pushed_running _ _ Hi) as (th & E & St & Em & _).
  destruct Hi as [Hcy _]. destruct (core_creates _ Hcy t) as [H1 H2].
  rewrite Em in H1, H2. rewrite (total_insert _ _ _ _ _ E) in H1, H2.
  assert (creates t (set_stack (FCreated t :: stack th) th) = creates t th + 1) as Ec.
  { unfold creates. simpl. rewrite bool_decide_true by done. simpl. lia. }
  pose proof (total_nonneg _ (creates_nonneg t) (threads s)).
  destruct H2 as (tht & Et & Pt); [lia|].
  assert (t ≠ running s) as Hne.
  { intros ->. rewrite lookup_insert_eq in Et. simplify_eq. by rewrite running_place in Pt. }
  rewrite lookup_insert_ne in Et by done. pose proof Hok as [[Hc _] _].
  unfold thread_created. rewrite bind_Ok. intros (s1 & H3 & Hs).
  eapply (unblock_ok t tht s s) in H3 as (K1 & K2 & K3 & K4 & K5 & K6 & K7 & K8 & _);
    [|done|done|eapply idle_not_waiting; try done; by right; right|intros _; lia|by eapply dequeued_new].
  eapply set_priority_res in Hs; [|done]. by rewrite <- K2, <- K8.
Qed.

Lemma thread_exit_res s th s' :
  ok s → threads s !! running s = Some th → stack th = [] → running s ≠ idle_thread s →
  thread_exit s = Ok s' → sched_inv s' ∧ top_priority s'.
Proof.
  intros Hok E Hst Hi. unfold thread_exit. rewrite assert_Ok. intros [_ Hs].
  destruct (running_at s Hok) as (th2 & E2 & St & Hn). simplify_eq.
  destruct (stack_at s th Hok E) as (W & F & D & P & I & Id).
  rewrite (upd_insert _ _ th) in Hs by done. set (th' := set_status THREAD_DYING th) in *.
  match type of Hs with schedule ?st = _ => set (x := st) in * end.
  pose proof Hok as [[Hc _] _]. pose proof (core_sorted _ Hc) as S1.
  eapply (leave_res s x th th'); try done; [by destruct Hok|..].
  - intros p. split; [pose proof (queue_nodup s p Hc); by destruct p|].
    assert (queue x p = queue s p) as -> by (by destruct p). change (place_of th') with PDying.
    intros u. split; [by left|]. intros [?|(_ & Hq & _ & <-)]; done.
  - eapply (sorted_priority_ext s); [|done]. intros u. by eapply (prio_change s x).
  - by eapply leave_wakeups.
Qed.

(** * The timer *)

Lemma timer_sleep_res n s s' :
  ok s → running s ≠ idle_thread s → timer_sleep n s = Ok s' → sched_inv s' ∧ top_priority s'.
Proof.
  intros Hok Hi. unfold timer_sleep. rewrite assert_Ok. intros [_ Hs].
  unfold thread_block in Hs. rewrite !assert_Ok in Hs. destruct Hs as (_ & _ & Hs).
  destruct (running_at s Hok) as (th & E & St & Hn).
  destruct (stack_at s th Hok E) as (W & F & D & P & I & Id).
  set (w := s32 (s64 (ticks s + n))) in *.
  set (th' := set_status THREAD_BLOCKED (set_stack (FSleepDone (intr_on s) :: stack th) (set_wakeup w th))).
  match type of Hs with schedule ?st = _ => set (x := st) in * end.
  pose proof Hok as [[Hc _] _]. pose proof (core_sorted _ Hc) as S1.
  assert (threads x = <[running s := th']> (threads s)) as Ex.
  { unfold x, upd, push, upd. simpl. apply map_eq. intros u.
    destruct (decide (u = running s)) as [->|].
    - rewrite !lookup_alter_eq, lookup_insert_eq, E. done.
    - by rewrite !lookup_alter_ne, lookup_insert_ne by done. }
  set (s1 := upd (running s) (set_wakeup w) (intr_disable s)) in *.
  assert (waiting_list x = insert_seq (less_wakeup_tick s1) (running s) (waiting_list s)) as Ewl by done.
  pose proof (running_unqueued s PTimer (proj1 Hok)) as Hun. simpl in Hun.
  eapply (leave_res s x th th'); try done; [by destruct Hok|..].
  - intros p. pose proof (queue_nodup s p Hc) as Hnd. change (place_of th') with PTimer.
    destruct (decide (p = PTimer)) as [->|Hne].
    + unfold queue. rewrite Ewl. simpl in Hnd. split.
      * rewrite (insert_seq_perm (less_wakeup_tick s1)). by constructor.
      * intros u. rewrite (insert_seq_perm (less_wakeup_tick s1)), elem_of_cons. naive_solver.
    + assert (queue x p = queue s p) as -> by (by destruct p). split; [done|]. naive_solver.
  - eapply (sorted_priority_ext s); [|done]. intros u. by eapply (prio_change s x).
  - by eapply leave_wakeups.
Qed.

Lemma dequeue_timer t ws s :
  core s → waiting_list s = t :: ws → dequeued t s (with_waiting ws s).
Proof.
  intros Hc E. pose proof (queue_nodup s PTimer Hc) as Hn. simpl in Hn. rewrite E in Hn.
  assert (Hin : t ∈ queue s PTimer) by (simpl; rewrite E; left).
  constructor; try done.
  - intros p. destruct (decide (p = PTimer)) as [->|Hp].
    + simpl. rewrite E. inversion Hn; subst. split; [done|]. set_solver.
    + assert (queue (with_waiting ws s) p = queue s p) as -> by (by destruct p).
      split; [by apply queue_nodup|]. intros u. split; [|by intros [_ ?]]. intros Hu.
      split; [|done]. intros ->. destruct (queue_mem _ _ _ Hc Hin) as (_ & _ & th & Et & Pt).
      pose proof (queue_unique _ _ _ _ Hc Et Hu). congruence.
  - exact (core_wakeups _ Hc).
Qed.

Lemma wake_loop_ok ws : ∀ s s',
  ok s → waiting_list s = ws → wake_loop ws s = Ok s' →
  ok s' ∧ running s' = running s ∧ in_external_intr s' = in_external_intr s.
Proof.
  induction ws as [|t ws IH]; intros s s' Hok Ews Hs; simpl in Hs; [by injection Hs as <-|].
  destruct (_ <=? _); [|by injection Hs as <-]. rewrite bind_Ok in Hs. destruct Hs as (s1 & H1 & Hs).
  pose proof Hok as [[Hc _] _].
  assert (t ∈ queue s PTimer) as Hin by (simpl; rewrite Ews; left).
  destruct (queue_mem _ _ _ Hc Hin) as (_ & _ & th & Et & Pt).
  eapply (unblock_ok t th s) in H1 as (K1 & K2 & K3 & K4 & K5 & K6 & K7 & K8 & _);
    [|done|done|eapply idle_not_waiting; try done; by right; left|by rewrite Pt|by apply dequeue_timer].
  destruct (IH s1 s' K1 K7 Hs) as (? & R & X). by rewrite R, X, K2, K8.
Qed.

Lemma thread_tick_ok s s' :
  ok s → thread_tick s = Ok s' → ok s' ∧ running s' = running s ∧
  in_external_intr s' = in_external_intr s ∧ waiting_list s' = waiting_list s.
Proof.
  intros Hok. unfold thread_tick. rewrite bind_Ok. intros (th & _ & Hs).
  set (s1 := if running s =? idle_thread s then _ else _) in Hs.
  assert (ok s1 ∧ running s1 = running s ∧ in_external_intr s1 = in_external_intr s ∧
          waiting_list s1 = waiting_list s) as (Hok1 & R1 & X1 & W1).
  { unfold s1. destruct (_ =? _); [|destruct (negb _)]; (split; [by apply ok_clock|done]). }
  destruct (_ <=? _).
  - unfold intr_yield_on_return in Hs. apply assert_Ok in Hs as [_ [= <-]].
    split; [by apply ok_yield, ok_clock|done].
  - injection Hs as <-. split; [by apply ok_clock|done].
Qed.

Lemma timer_interrupt_ok s s' :
  ok s → timer_interrupt s = Ok s' → ok s' ∧ running s' = running s.
Proof.
  intros Hok. unfold timer_interrupt. rewrite bind_Ok. intros (s1 & H1 & Hs).
  apply thread_tick_ok in H1 as (K1 & K2 & K3 & K4); [|by apply ok_clock].
  apply wake_loop_ok in Hs as (? & R & _); [|done..]. split; [done|]. by rewrite R, K2.
Qed.

(** * Idle and interrupts *)

Lemma idle_loop_res s s' :
  sched_inv (push FIdleLoop s) → ok s → idle_loop s = Ok s' → sched_inv s' ∧ top_priority s'.
Proof.
  intros Hiy Hok. destruct (pushed_running _ _ Hiy) as (th & E & St & Em & _ & _ & _ & _ & Iy & _).
  assert (running s = idle_thread s) as Hi by (by apply Iy).
  unfold idle_loop, thread_block. rewrite !assert_Ok. intros (_ & _ & Hs).
  destruct (running_at s Hok) as (th2 & E2 & _ & Hn). simplify_eq.
  destruct (stack_at s th Hok E) as (W & F & D & P & I & Id).
  set (th' := set_status THREAD_BLOCKED (set_stack (FIdleHalt :: stack th) th)).
  match type of Hs with schedule ?st = _ => set (x := st) in * end.
  pose proof Hok as [[Hc _] _]. pose proof (core_sorted _ Hc) as S1.
  assert (threads x = <[running s := th']> (threads s)) as Ex.
  { unfold x, upd, push, upd. simpl. apply map_eq. intros u.
    destruct (decide (u = running s)) as [->|].
    - rewrite !lookup_alter_eq, lookup_insert_eq, E. done.
    - by rewrite !lookup_alter_ne, lookup_insert_ne by done. }
  eapply (leave_res s x th th'); try done; [by destruct Hok|..].
  - intros p. split; [pose proof (queue_nodup s p Hc); by destruct p|].
    assert (queue x p = queue s p) as -> by (by destruct p). change (place_of th') with PIdle.
    intros u. split; [by left|]. intros [?|(_ & Hq & _ & <-)]; done.
  - eapply (sorted_priority_ext s); [|done]. intros u. by eapply (prio_change s x).
  - unfold stack_ok. change (place_of th') with PIdle. splits; try done.
    intros _. splits; try done. constructor; [done|]. by apply Id.
  - by eapply leave_wakeups.
Qed.

Lemma ok_push_idle s : ok s → running s = idle_thread s → ok (push FIdleLoop s).
Proof.
  intros Hok Hi. destruct (running_at s Hok) as (th & E & St & Hn).
  destruct (stack_at s th Hok E) as (W & F & D & P & I & Id).
  rewrite (push_insert _ _ _ E). apply ok_restack; try done.
  - by constructor.
  - intros _. constructor; [done|]. by apply Id.
Qed.

Lemma idle_halt_res s s' :
  sched_inv (push FIdleHalt s) → ok s → idle_halt s = Ok s' → res (running s) s'.
Proof.
  intros Hiy Hok. destruct (pushed_running _ _ Hiy) as (th & E & St & Em & _ & _ & _ & _ & Iy & _).
  assert (running s = idle_thread s) as Hi by (by apply Iy).
  unfold idle_halt, intr_enable. rewrite bind_Ok. intros (s1 & H1 & [= <-]).
  apply assert_Ok in H1 as [_ [= <-]]. apply ok_res; [|done]. apply ok_push_idle; [by apply ok_intr|done].
Qed.

Lemma intr_end_res s s' : ok s → intr_end s = Ok s' → res (running s) s'.
Proof.
  intros Hok. unfold intr_end. rewrite !assert_Ok. intros (_ & _ & Hs).
  destruct (yield_on_return _); [|injection Hs as <-; apply ok_res; [by apply ok_external|done]].
  apply thread_yield_res in Hs as [? ?]; [|by apply ok_external]. split; [done|by right].
Qed.

Lemma intr_handler_res i s s' :
  sched_inv s → intr_on s = true → irq_allowed s i → intr_handler (irq_handler i) s = Ok s' →
  res (running s) s'.
Proof.
  intros Hi On Ha. unfold intr_handler. rewrite assert_Ok. intros [_ Hs].
  assert (ok s) as Hok.
  { split; [done|]. destruct Hi as [_ [(th & E & _ & Hw) _]]. exists th. auto. }
  set (s1 := push FIntrEnd (push FIret (intr_disable s))) in *.
  assert (ok s1) as Hok1 by (apply ok_push; [apply ok_push; [by apply ok_disable|done..]|done..]).
  assert (ok (with_yield false (with_external true s1))) as Hok2 by (by apply ok_yield, ok_external).
  destruct i; simpl in Hs.
  - apply timer_interrupt_ok in Hs as [? R]; [|done]. by apply ok_res.
  - eapply sema_up_res in Hs as [Hr _]; [exact Hr|done|]. by apply plain_can_up.
Qed.
