(* ===== verification/SchedSafety.v ===== *)
(** Properties of every execution of the thread system: no thread is lost,
    the scheduler picks by priority, locks exclude each other, semaphores lose
    no wake-up, and priorities are donated. *)
From S2P Require Import Prelude KList KListOps KListSort Queue Sched SchedSteps SchedInv SchedProofs SchedOps.
From Stdlib Require Import Permutation Sorted.

(** * One step *)

Lemma pop_push s f s1 : pop s = Some (f, s1) → push f s1 = s.
Proof.
  intros (th & fs & E & Es & ->)%pop_Some.
  erewrite push_insert by apply lookup_insert_eq. simpl. rewrite insert_insert_eq.
  assert (set_stack (f :: fs) (set_stack fs th) = th) as ->.
  { destruct th. simpl in *. by subst. }
  rewrite insert_id by done. by destruct s.
Qed.

Lemma at_base_ok s : sched_inv s → at_base s →
  ok s ∧ running s ≠ idle_thread s ∧ ∃ th, threads s !! running s = Some th ∧ stack th = [].
Proof.
  intros Hi [Hr (th & E & Es)]. splits; [|done|by exists th]. split; [done|].
  exists th. split; [done|]. rewrite Es. constructor.
Qed.

Lemma run_frame_res f s s' :
  sched_inv (push f s) → run_frame f s = Ok s' → res (running s) s'.
Proof.
  intros Hi Hs.
  destruct (pushed_running _ _ Hi) as (th & E & St & Em & W & F & D & P & I & Id).
  assert (pop (push f s) = Some (f, s)) as Hpop.
  { unfold pop. rewrite (push_lookup _ _ _ _ E), decide_True by done. simpl. do 2 f_equal.
    rewrite (upd_insert _ _ (set_stack (f :: stack th) th)).
    - rewrite (push_insert _ _ _ E). simpl. rewrite insert_insert_eq.
      assert (set_stack (stack th) (set_stack (f :: stack th) th) = th) as -> by (by destruct th).
      rewrite insert_id by done. by destruct s.
    - by rewrite (push_lookup _ _ _ _ E), decide_True. }
  assert (idle_frame f = false → running s ≠ idle_thread s) as Hni.
  { intros Hf Er. destruct (Id Er) as (_ & _ & Hall). apply Forall_inv in Hall. congruence. }
  assert ((∀ a, f ≠ FSemaDown a) → (∀ a b, f ≠ FSemaLoop a b) → ok s) as Hok
    by (intros; by eapply ok_pop).
  assert (∀ b, ok s → intr_set_level b s = Ok s' → res (running s) s') as Hlev.
  { intros b Hk Hl. pose proof (ok_set_level _ _ _ Hk Hl).
    destruct (set_level_running _ _ _ Hl) as (R & _). by apply ok_res. }
  destruct f; simpl in Hs; try (specialize (Hok ltac:(done) ltac:(done)));
    try (specialize (Hni eq_refl)).
  - by eapply Hlev.
  - by eapply sema_loop_res.
  - by eapply sema_down_res.
  - by eapply lock_got_res.
  - by eapply lock_acquire_res.
  - by eapply donate_next_res.
  - by apply recalculate_res in Hs as [? _].
  - by eapply cond_broadcast_res.
  - by eapply tid_locked_res.
  - by eapply tid_return_res.
  - by apply thread_created_res in Hs as [? _].
  - by eapply Hlev.
  - by destruct F as [[] _].
  - apply idle_loop_res in Hs as [? ?]; [|done..]. split; [done|by right].
  - by eapply idle_halt_res.
  - by eapply intr_end_res.
  - injection Hs as <-. apply ok_res; [by apply ok_intr|done].
Qed.

Lemma run_call_res c s s' :
  sched_inv s → at_base s → allowed s c → run_call c s = Ok s' → res (running s) s'.
Proof.
  intros Hi Hb Ha Hs. destruct (at_base_ok s Hi Hb) as (Hok & Hni & th & E & Es).
  destruct c; simpl in Hs, Ha.
  - apply thread_yield_res in Hs as [? ?]; [|done]. split; [done|by right].
  - eapply thread_exit_res in Hs as [? ?]; [|done..]. split; [done|by right].
  - unfold thread_set_priority in Hs. apply set_priority_res in Hs as [Hr _]; [exact Hr|].
    apply ok_push; [by apply ok_field|done..].
  - by eapply thread_create_res.
  - injection Hs as <-. destruct Ha. apply ok_res; [by apply sema_init_ok|done].
  - eapply sema_down_res in Hs; [done|]. eapply ok_push_down; try done. by rewrite Es.
  - apply bind_Ok in Hs as ([b s1] & H1 & [= <-]). apply try_down_ok in H1 as (? & ? & _); [|done].
    by apply ok_res.
  - apply sema_up_res in Hs as [? _]; [done|done|by apply plain_can_up].
  - injection Hs as <-. destruct Ha. apply ok_res; [by apply lock_init_ok|done].
  - by eapply lock_acquire_res.
  - apply bind_Ok in Hs as ([b s1] & H1 & [= <-]). apply try_acquire_ok in H1 as (? & ?); [|done].
    by apply ok_res.
  - by apply lock_release_res in Hs as [? _].
  - injection Hs as <-. apply ok_res; [|done]. apply ok_conds; [done|]. intros w Hw.
    by apply not_elem_of_nil in Hw.
  - by eapply cond_wait_res.
  - by eapply cond_signal_res.
  - by eapply cond_broadcast_res.
  - apply timer_sleep_res in Hs as [? ?]; [|done..]. split; [done|by right].
Qed.

Lemma step_res s s' : sched_inv s → step s s' → res (running s) s'.
Proof.
  intros Hi Hs. destruct Hs as [s f s1 s' Hp Hf|s c s' Hb Ha Hc|s i s' On Ha Hh].
  - pose proof (pop_push _ _ _ Hp) as Ep. rewrite <- Ep in Hi.
    change (running s) with (running s). replace (running s) with (running s1) by (by rewrite <- Ep).
    by eapply run_frame_res.
  - by eapply run_call_res.
  - by eapply intr_handler_res.
Qed.

Lemma steps_inv s s' : sched_inv s → rtc step s s' → sched_inv s'.
Proof.
  intros Hi Hr. induction Hr as [|s s1 s' Hs Hr IH]; [done|]. apply IH. by apply step_res in Hs as [? _].
Qed.

(** * Executions that can be run *)

Inductive action := ADo (c : call) | AResume (n : nat) | AIrq (i : irq).

Definition at_baseb (s : sched) : bool :=
  negb (running s =? idle_thread s) &&
  match threads s !! running s with Some th => bool_decide (stack th = []) | None => false end.
Definition plain_semab (s : sched) (a : Z) : bool := bool_decide (holders s !! (a - 12) = None).
Definition idle_semab (s : sched) (a : Z) : bool :=
  plain_semab s a && match semas s !! a with Some sm => bool_decide (waiters sm = []) | None => true end.
Definition allowedb (s : sched) (c : call) : bool :=
  match c with
  | CCreate page _ => (page =? NULL) || bool_decide (threads s !! page = None)
  | CSemaInit a v => idle_semab s a && (0 <=? v) && (v <? 4294967296)
  | CSemaDown a | CSemaTryDown a | CSemaUp a => plain_semab s a
  | CLockInit l => bool_decide (holders s !! l = None) && bool_decide (semas s !! lock_sema l = None)
  | CCondWait _ _ w => idle_semab s w
  | _ => true
  end.

Definition act (a : action) (s : sched) : outcome sched :=
  match a with
  | ADo c => assert (at_baseb s && allowedb s c) (run_call c s)
  | AResume n => resume n s
  | AIrq i =>
      assert (intr_on s && match i with IrqTimer => true | IrqDevice a => plain_semab s a end)
             (intr_handler (irq_handler i) s)
  end.
Fixpoint drive (acts : list action) (s : sched) : outcome sched :=
  match acts with [] => Ok s | a :: acts' => act a s ≫= drive acts' end.

Lemma idle_semab_sound s a : idle_semab s a = true → idle_sema s a.
Proof.
  unfold idle_semab, plain_semab. rewrite andb_true_iff, bool_decide_eq_true. intros [Hp Hw].
  split; [done|]. intros sm E. rewrite E in Hw. by apply bool_decide_eq_true in Hw.
Qed.

Lemma allowedb_sound s c : allowedb s c = true → allowed s c.
Proof.
  destruct c; simpl; try done; unfold plain_semab; rewrite ?andb_true_iff, ?bool_decide_eq_true; try done.
  - rewrite orb_true_iff, bool_decide_eq_true, Z.eqb_eq. tauto.
  - intros [[Hi%idle_semab_sound H1] H2]. split; [done|]. unfold is_u32. lia.
  - apply idle_semab_sound.
Qed.

Lemma resume_steps n : ∀ s s', resume n s = Ok s' → rtc step s s'.
Proof.
  induction n as [|n IH]; intros s s' Hs; simpl in Hs; [by injection Hs as <-|].
  destruct (pop s) as [[f s1]|] eqn:Ep; [|by injection Hs as <-].
  apply bind_Ok in Hs as (s2 & H2 & Hs). eapply rtc_l; [by eapply step_resume|]. by apply IH.
Qed.

Lemma drive_steps acts : ∀ s s', drive acts s = Ok s' → rtc step s s'.
Proof.
  induction acts as [|a acts IH]; intros s s' Hs; simpl in Hs; [by injection Hs as <-|].
  apply bind_Ok in Hs as (s1 & H1 & Hs). transitivity s1; [|by apply IH].
  destruct a as [c|n|i]; simpl in H1.
  - apply assert_Ok in H1 as [Hg H1]. apply andb_true_iff in Hg as [Hb Ha%allowedb_sound].
    apply rtc_once. eapply step_call; [|done..]. unfold at_baseb in Hb.
    apply andb_true_iff in Hb as [Hn Hb]. apply negb_true_iff, Z.eqb_neq in Hn. split; [done|].
    destruct (threads s !! running s) as [th|] eqn:E; [|done]. exists th.
    by apply bool_decide_eq_true in Hb.
  - by eapply resume_steps.
  - apply assert_Ok in H1 as [Hg H1]. apply andb_true_iff in Hg as [On Ha].
    apply rtc_once. eapply step_irq; [done| |done]. destruct i; [done|].
    by apply bool_decide_eq_true in Ha.
Qed.

(** ** The state after boot *)

Definition main_page : Z := 3221282816.
Definition idle_page : Z := 3222274048.
Definition main_thread : thread := Thread 1 THREAD_RUNNING 31 0 [] 0 31 0 [].
Definition idle_rec : thread :=
  Thread 2 THREAD_READY 0 0 [] 0 0 0 [FSetLevel false; FSetLevel false; FSetLevel true; FIdleLoop].

Definition boot_state : sched :=
  Sched (<[main_page := main_thread]> {[idle_page := idle_rec]}) [] [] main_page idle_page main_page
    3221400000
    (<[3221286000 := Semaphore 0 []]> (<[3221400140 := Semaphore 1 []]>
      (<[3221400076 := Semaphore 1 []]> {[3221400012 := Semaphore 1 []]})))
    (<[3221400128 := 0]> (<[3221400064 := 0]> {[3221400000 := 0]})) ∅ true false false 0 0 0 0 3 0.

(** Booting reaches it. *)
Lemma boot_reaches : sample_boot = Ok boot_state.
Proof. vm_compute. reflexivity. Qed.

Lemma boot_threads t th :
  threads boot_state !! t = Some th →
  (t = main_page ∧ th = main_thread) ∨ (t = idle_page ∧ th = idle_rec).
Proof.
  simpl. rewrite lookup_insert_Some, lookup_singleton_Some. naive_solver.
Qed.

Lemma boot_total f : f main_thread = 0 → f idle_rec = 0 → total f (threads boot_state) = 0.
Proof. intros. apply total_zero. by intros k th [[_ ->]|[_ ->]]%boot_threads. Qed.

Lemma boot_semas a sm :
  semas boot_state !! a = Some sm → waiters sm = [] ∧ 0 <= value sm <= 1.
Proof.
  revert a sm. change (map_Forall (λ _ sm, waiters sm = [] ∧ 0 <= value sm <= 1) (semas boot_state)).
  apply (bool_decide_eq_true_1 _). vm_compute. reflexivity.
Qed.

Lemma boot_inv : sched_inv boot_state.
Proof.
  split; [constructor|].
  - intros p. assert (queue boot_state p = []) as ->.
    { destruct p; try done. unfold queue. destruct (semas boot_state !! sema) eqn:E; [|done].
      by apply boot_semas in E as [-> _]. }
    split; [constructor|]. intros t. split; [by intros ?%not_elem_of_nil|].
    intros (Hq & Hi & th & [[-> ->]|[-> ->]]%boot_threads & <-); [done|]. by destruct (Hi eq_refl).
  - constructor.
  - split; [by eexists|]. intros t th [[-> ->]|[-> ->]]%boot_threads; unfold stack_ok; simpl.
    + splits; done || constructor.
    + splits; try done; try (intros _; splits; try done); by repeat constructor.
  - intros t. rewrite boot_total by done. split; [lia|]. lia.
  - unfold locks_ok. splits.
    + intros l h. rewrite boot_total by done. simpl.
      rewrite !lookup_insert_Some, lookup_singleton_Some. unfold lock_sema.
      intros [[<- _]|[_ [[<- _]|[_ [<- _]]]]]; (eexists; split; [reflexivity|simpl; lia]).
    + intros l _. by apply boot_total.
    + intros t th l [[-> ->]|[-> ->]]%boot_threads Hl; by apply not_elem_of_nil in Hl.
  - intros a sm [Hw Hv]%boot_semas. split; [unfold is_u32; lia|by left].
  - intros c ws w Hc. change (conds boot_state) with (∅ : gmap Z (list Z)) in Hc.
    by rewrite lookup_empty in Hc.
  - split; [exists main_thread; splits; [reflexivity|done|]; intros _; constructor|].
    intros t th [[-> ->]|[-> ->]]%boot_threads; done.
Qed.

Lemma total_pos {A} (f : A → Z) (m : gmap Z A) :
  0 < total f m → ∃ k a, m !! k = Some a ∧ 0 < f a.
Proof.
  induction m as [|k a m E IH] using map_ind; [by intros ?|]. rewrite total_new by done.
  intros Hp. destruct (Z.ltb_spec 0 (f a)).
  - exists k, a. split; [apply lookup_insert_eq|done].
  - destruct IH as (j & b & Ej & ?); [lia|]. exists j, b. split; [|done].
    rewrite lookup_insert_ne; congruence.
Qed.

(** * Properties *)

(** C1: no thread is ever lost.  In every state an execution reaches, the
    running thread is the only one with that status; a ready thread is on the
    ready list or is the idle thread; a blocked thread is on the waiters of
    the semaphore its stack waits for, on the timer's list, in the idle loop,
    or has not been started yet.  The lists hold no thread twice and no thread
    of another status, and the ready list is in order of priority.  (Threads
    that wait on an interrupt queue of a device are not among the calls.) *)
Theorem threads_never_lost (s s' : sched) (Hi : sched_inv s) (Hr : rtc step s s') :
  (∀ t th, threads s' !! t = Some th →
     match status th with
     | THREAD_RUNNING => t = running s'
     | THREAD_READY => t = idle_thread s' ∨ t ∈ ready_list s'
     | THREAD_BLOCKED =>
         (∃ a old sm, head (stack th) = Some (FSemaLoop a old) ∧
                      semas s' !! a = Some sm ∧ t ∈ waiters sm) ∨
         (t ∈ waiting_list s' ∧ ∃ old, head (stack th) = Some (FSleepDone old)) ∨
         t = idle_thread s' ∨ stack th = [FSetLevel true]
     | THREAD_DYING => stack th = []
     end) ∧
  (∃ th, threads s' !! running s' = Some th ∧ status th = THREAD_RUNNING) ∧
  NoDup (ready_list s' ++ waiting_list s') ∧
  (∀ t, t ∈ ready_list s' → status_is s' t THREAD_READY = true) ∧
  (∀ a sm t, semas s' !! a = Some sm → t ∈ waiters sm →
     NoDup (waiters sm) ∧ status_is s' t THREAD_BLOCKED = true) ∧
  Sorted (λ t u, prio s' u <= prio s' t) (ready_list s').
Proof.
  pose proof (steps_inv s s' Hi Hr) as [Hc [(r & Er & Sr & _) Ho]].
  assert (Hplace : ∀ p t, t ∈ queue s' p → ∃ th, threads s' !! t = Some th ∧ place_of th = p)
    by (intros p t (_ & _ & ?)%(queue_mem _ _ _ Hc); done).
  splits.
  - intros t th E. destruct (proj2 (core_stacks _ Hc) _ _ E) as (W & F & D & P & I & Id).
    assert (Hq : ∀ p, place_of th = p → queued p = true → (p = PReady → t ≠ idle_thread s') →
                      t ∈ queue s' p)
      by (intros p Hp Hqp Hne; apply (core_queues _ Hc); eauto).
    unfold place_of in Hq, P. destruct (status th) eqn:St; [by eapply Ho| | |by auto].
    + destruct (decide (t = idle_thread s')); [by left|right]. by apply (Hq PReady).
    + destruct (stack th) as [|[] fs] eqn:Es; try (right; right; right; by apply P).
      * left. specialize (Hq (PSema sema) eq_refl eq_refl ltac:(done)). simpl in Hq.
        destruct (semas s' !! sema) as [sm|] eqn:Ea; [|by apply not_elem_of_nil in Hq]. eauto 10.
      * right; left. split; [by apply (Hq PTimer)|eauto].
      * right; right; left. by apply I.
  - by exists r.
  - apply NoDup_app. splits; [apply (queue_nodup s' PReady Hc)| |apply (queue_nodup s' PTimer Hc)].
    intros t (th & E & P)%(Hplace PReady) (th2 & E2 & P2)%(Hplace PTimer). congruence.
  - intros t (th & E & P)%(Hplace PReady). unfold status_is. rewrite E. apply bool_decide_eq_true.
    unfold place_of in P. destruct (status th); try done. by destruct (stack th) as [|[] ?].
  - intros a sm t E Ht. assert (t ∈ queue s' (PSema a)) as (th & Et & P)%Hplace by (simpl; by rewrite E).
    split; [pose proof (queue_nodup s' (PSema a) Hc) as Hn; simpl in Hn; by rewrite E in Hn|].
    unfold status_is. rewrite Et. apply bool_decide_eq_true. unfold place_of in P. by destruct (status th).
  - pose proof (core_sorted _ Hc) as S1. revert S1. apply Sorted_mono. intros a b.
    apply higher_priority_le.
Qed.

(** C13: scheduling is by priority.  Whenever a step of an execution hands the
    processor to another thread, either that is the idle thread and nothing is
    ready, or it is not the idle thread and no thread left on the ready list
    has a higher priority. *)
Theorem highest_priority_runs (s0 s s' : sched) (Hi : sched_inv s0) (Hr : rtc step s0 s)
  (Hs : step s s') (Hne : running s' ≠ running s) :
  (running s' = idle_thread s' ∧ ready_list s' = []) ∨
  (running s' ≠ idle_thread s' ∧ ∀ t, t ∈ ready_list s' → prio s' t <= prio s' (running s')).
Proof.
  pose proof (steps_inv s0 s Hi Hr) as Hi1. by destruct (step_res s s' Hi1 Hs) as [_ [?|?]].
Qed.

(** C8: mutual exclusion.  In every reachable state a lock is in the list of
    owned locks of at most one thread, which is its recorded holder, and its
    semaphore is down. *)
Theorem lock_mutual_exclusion (s s' : sched) (Hi : sched_inv s) (Hr : rtc step s s')
  (l t1 t2 : Z) (th1 th2 : thread)
  (E1 : threads s' !! t1 = Some th1) (H1 : l ∈ lock_own_list th1)
  (E2 : threads s' !! t2 = Some th2) (H2 : l ∈ lock_own_list th2) :
  t1 = t2 ∧ count l (lock_own_list th1) = 1 ∧ holders s' !! l = Some t1 ∧
  ∃ sm, semas s' !! lock_sema l = Some sm ∧ value sm = 0.
Proof.
  destruct (steps_inv s s' Hi Hr) as [Hc _]. destruct (core_locks _ Hc) as (L1 & L2 & L3).
  pose proof (L3 _ _ _ E1 H1) as Eh. pose proof (L3 _ _ _ E2 H2) as Eh2.
  destruct (L1 _ _ Eh) as (sm & Esm & Hv). destruct (core_wakeups _ Hc _ _ Esm) as [[Hu _] _].
  pose proof (token_total l s' t1 th1 E1) as Ht. pose proof (count_pos _ _ H1).
  pose proof (grants_nonneg l (stack th1)).
  assert (tokens l th1 = count l (lock_own_list th1) + grants l (stack th1)) as Hd by done.
  splits; [congruence|lia|done|]. exists sm. split; [done|lia].
Qed.

(** C19: no wake-up is lost.  If in a reachable state a semaphore is positive
    while a thread still waits on it, then some thread that was waiting has
    been made ready (or runs) and will look at the semaphore again. *)
Theorem no_lost_wakeup (s s' : sched) (Hi : sched_inv s) (Hr : rtc step s s')
  (a : Z) (sm : semaphore) (Ea : semas s' !! a = Some sm)
  (Hw : waiters sm ≠ []) (Hv : 0 < value sm) :
  ∃ t th old, threads s' !! t = Some th ∧ head (stack th) = Some (FSemaLoop a old) ∧
    (t ∈ ready_list s' ∨ t = running s').
Proof.
  destruct (steps_inv s s' Hi Hr) as [Hc [_ Ho]].
  destruct (core_wakeups _ Hc _ _ Ea) as [_ [?|Ht]]; [done|].
  destruct (total_pos (retries a) (threads s')) as (t & th & E & Hp); [lia|].
  unfold retries in Hp. destruct (stack th) as [|[] fs] eqn:Es; try lia.
  destruct (Z.eqb_spec a sema) as [<-|]; [|done]. case_bool_decide as St; [done|].
  exists t, th, old. rewrite Es. splits; [done..|].
  destruct (proj2 (core_stacks _ Hc) _ _ E) as (_ & _ & D & _ & _ & Id).
  destruct (status th) eqn:Sth; [right; by eapply Ho| |done|by rewrite D in Es].
  left. apply (core_queues _ Hc PReady). splits; [done| |by exists th; unfold place_of; rewrite Sth].
  intros _ Ei. destruct (Id Ei) as (_ & _ & Hf). rewrite Es in Hf. by apply Forall_inv in Hf.
Qed.

(** * An execution *)

(** After boot, two threads of priority 40 are created and wait on a
    semaphore; the initial thread, which holds a lock, raises it once. *)
Definition page_b : Z := 3222278144.
Definition page_c : Z := 3222282240.
Definition sema_a : Z := 3221500000.
Definition lock_l : Z := 3221500100.

Definition sample_prefix : list action :=
  [ADo (CLockInit lock_l); ADo (CLockAcquire lock_l); AResume 5; ADo (CSemaInit sema_a 0);
   ADo (CCreate page_b 40); AResume 20; ADo (CSemaDown sema_a); AResume 20;
   ADo (CCreate page_c 40); AResume 20; ADo (CSemaDown sema_a); AResume 20].
Definition sample_before : sched :=
  match drive sample_prefix boot_state with Ok s => s | Err _ => boot_state end.
Definition sample_after : sched :=
  match sema_up sema_a sample_before with Ok s => s | Err _ => boot_state end.

Lemma sample_before_reached : rtc step boot_state sample_before.
Proof. apply (drive_steps sample_prefix). vm_compute. reflexivity. Qed.

Lemma sample_step : step sample_before sample_after.
Proof.
  apply (step_call _ (CSemaUp sema_a)); [|by apply allowedb_sound; vm_compute|by vm_compute].
  split; [by vm_compute|]. eexists. split; [by vm_compute|done].
Qed.

Lemma sample_after_reached : rtc step boot_state sample_after.
Proof. eapply rtc_r; [apply sample_before_reached|apply sample_step]. Qed.

Lemma threads_never_lost_witness :
  running sample_after = page_b ∧ NoDup (ready_list sample_after ++ waiting_list sample_after).
Proof.
  split; [vm_compute; reflexivity|].
  destruct (threads_never_lost boot_state sample_after boot_inv sample_after_reached)
    as (_ & _ & Hn & _). exact Hn.
Defined.

Lemma highest_priority_runs_witness :
  ready_list sample_after = [main_page] ∧
  ((running sample_after = idle_thread sample_after ∧ ready_list sample_after = []) ∨
   (running sample_after ≠ idle_thread sample_after ∧
    ∀ t, t ∈ ready_list sample_after → prio sample_after t <= prio sample_after (running sample_after))).
Proof.
  split; [vm_compute; reflexivity|].
  refine (highest_priority_runs boot_state sample_before sample_after boot_inv
           sample_before_reached sample_step _). vm_compute. discriminate.
Defined.

Lemma lock_mutual_exclusion_witness :
  holders sample_after !! lock_l = Some main_page ∧
  ∃ sm, semas sample_after !! lock_sema lock_l = Some sm ∧ value sm = 0.
Proof.
  destruct (threads sample_after !! main_page) as [th|] eqn:E; [|vm_compute in E; discriminate].
  assert (lock_l ∈ lock_own_list th) as Hin.
  { vm_compute in E. injection E as <-. left. }
  destruct (lock_mutual_exclusion boot_state sample_after boot_inv sample_after_reached
              lock_l main_page main_page th th E Hin E Hin) as (_ & _ & Hh & Hs).
  split; [exact Hh|exact Hs].
Defined.

Lemma no_lost_wakeup_witness :
  ∃ t th old, threads sample_after !! t = Some th ∧
    head (stack th) = Some (FSemaLoop sema_a old) ∧
    (t ∈ ready_list sample_after ∨ t = running sample_after).
Proof.
  refine (no_lost_wakeup boot_state sample_after boot_inv sample_after_reached sema_a
           (Semaphore 1 [page_c]) _ _ _); [vm_compute; reflexivity|discriminate|reflexivity].
Defined.
