(* ===== verification/SchedPriority.v ===== *)
(** Priorities: preemption after a wake-up or a change of priority, donation
    along a chain of locks, what [recalculate_priority] computes, and the
    executions in which the priority code does not do what it intends. *)
From S2P Require Import Prelude KList KListOps KListSort Queue Sched SchedSteps SchedInv SchedProofs SchedOps SchedSafety.
From Stdlib Require Import Permutation Sorted.

(** * Donation along a chain *)






(** * Preemption *)

(** The calls that may make another thread more urgent than the caller. *)
Definition preempting (s : sched) (c : call) : Prop :=
  match c with
  | CSemaUp a => plain_sema s a
  | CLockRelease _ | CSetPriority _ => True
  | _ => False
  end.

(** Preemption.  When a thread raises a semaphore, releases a lock or
    changes its priority, the call yields if a ready thread is at least as
    urgent: at the point where it continues or the processor has gone to
    another thread, nothing on the ready list outranks the running thread. *)
Theorem preemption (s s' : sched) (c : call) (Hi : sched_inv s) (Hb : at_base s)
  (Hx : in_external_intr s = false) (Hc : preempting s c) (Hs : run_call c s = Ok s') :
  (running s' = idle_thread s' ∧ ready_list s' = []) ∨
  (∀ t, t ∈ ready_list s' → prio s' t <= prio s' (running s')).
Proof.
  destruct (at_base_ok s Hi Hb) as (Hok & Hni & _).
  destruct c; simpl in Hc; try done; simpl in Hs.
  - apply set_priority_res in Hs as [_ Ht]; [by apply Ht|].
    apply ok_push; [by apply ok_field|done..].
  - apply sema_up_res in Hs as [_ Ht]; [by apply Ht|done|by apply plain_can_up].
  - apply lock_release_res in Hs as [_ Ht]; [by apply Ht|done].
Qed.

(** * What [recalculate_priority] computes *)

(** The largest priority among [base] and the first waiters of [locks]. *)
Fixpoint max_front (s : sched) (base : Z) (locks : list Z) : Z :=
  match locks with
  | [] => base
  | l :: ls =>
      match semas s !! lock_sema l with
      | Some (Semaphore _ (t :: _)) => Z.max (prio s t) (max_front s base ls)
      | _ => max_front s base ls
      end
  end.

(** Locks live in kernel memory, where an address read as an [int] is
    negative; the read through an empty list's sentinel is then harmless. *)
Definition kernel_lock (l : Z) : Prop := 3221225472 <= l < 4294967296 - 36.

Lemma sentinel_negative l : kernel_lock l → s32 (waiters_tail (lock_sema l)) < 0.
Proof.
  unfold kernel_lock, waiters_tail, lock_sema, s32. intros H.
  replace (l + 12 + 12 + 2147483648) with (l + 24 - 2147483648 + 1 * 4294967296) by lia.
  rewrite Z.mod_add by lia. rewrite Z.mod_small by lia. lia.
Qed.

Lemma find_priority_max s locks : ∀ found,
  0 <= found → Forall kernel_lock locks →
  foldl (λ found lock, let comparing := front_priority s (lock_sema lock) in
           if found <? comparing then comparing else found) found locks = max_front s found locks.
Proof.
  induction locks as [|l ls IH]; intros found H0 Hk; [done|]. inversion Hk as [|? ? Hl Hls]; subst.
  cbn [foldl max_front]. cbv zeta. unfold front_priority.
  assert (Hm : ∀ a b, max_front s (Z.max a b) ls = Z.max a (max_front s b ls)).
  { clear. intros a b. induction ls as [|l ls IH]; [done|]. simpl.
    destruct (semas s !! lock_sema l) as [[v [|t ws]]|]; try done. rewrite IH. lia. }
  pose proof (sentinel_negative l Hl) as Hneg.
  destruct (semas s !! lock_sema l) as [[v [|t ws]]|].
  1, 3: (destruct (Z.ltb_spec found (s32 (waiters_tail (lock_sema l)))); [lia|by apply IH]).
  rewrite <- Hm. destruct (Z.ltb_spec found (prio s t)).
  - rewrite Z.max_l by lia. apply IH; [lia|done].
  - rewrite Z.max_r by lia. by apply IH.
Qed.

(** The largest priority among [base] and the threads [ts]; the threads that
    wait for a lock; and the wait lists in which no thread has a higher priority
    than the first. *)
Definition max_prio (s : sched) (base : Z) (ts : list Z) : Z := foldr (λ t m, Z.max (prio s t) m) base ts.
Definition lock_waiters (s : sched) (l : Z) : list Z := from_option waiters [] (semas s !! lock_sema l).
Definition front_highest (s : sched) (l : Z) : Prop :=
  match lock_waiters s l with [] => True | t :: ws => Forall (λ u, prio s u <= prio s t) ws end.

Lemma max_prio_app s b us : ∀ ts, max_prio s b (ts ++ us) = max_prio s (max_prio s b us) ts.
Proof. intros ts. unfold max_prio. by rewrite foldr_app. Qed.
Lemma max_prio_below s b t ws : Forall (λ u, prio s u <= prio s t) ws →
  Z.max (prio s t) (max_prio s b ws) = Z.max (prio s t) b.
Proof. induction 1 as [|u ws Hu _ IH]; [done|]. simpl. lia. Qed.
Lemma max_front_all s base ls : Forall (front_highest s) ls →
  max_front s base ls = max_prio s base (ls ≫= lock_waiters s).
Proof.
  induction 1 as [|l ls Hl _ IH]; [done|]. rewrite bind_cons, max_prio_app, <- IH. simpl.
  unfold front_highest, lock_waiters in *. destruct (semas s !! lock_sema l) as [[v [|t ws]]|]; [done| |done].
  simpl. by rewrite max_prio_below.
Qed.

(** C40: the priority a thread returns to.  [recalculate_priority] sets the
    running thread to the larger of its own priority and the priorities of the
    first waiters of the locks it still owns; an owned lock without waiters
    does not count, although its list's sentinel is read as a thread.  When no
    waiter of an owned lock has a higher priority than the first one, that is
    the maximum over all the waiters, which the comment of the code asks for;
    otherwise a later waiter's donation is lost. *)
Theorem recalculate_priority_max (s : sched) (th : thread)
  (E : threads s !! running s = Some th) (Hk : Forall kernel_lock (lock_own_list th))
  (H0 : 0 <= origin_priority th) :
  recalculate_priority s =
  specific_thread_set_priority
    (Z.max (origin_priority th) (max_front s 0 (lock_own_list th))) (running s) s ∧
  (Forall (front_highest s) (lock_own_list th) →
   recalculate_priority s =
   specific_thread_set_priority
     (Z.max (origin_priority th) (max_prio s 0 (lock_own_list th ≫= lock_waiters s))) (running s) s).
Proof.
  enough (recalculate_priority s = specific_thread_set_priority
    (Z.max (origin_priority th) (max_front s 0 (lock_own_list th))) (running s) s) as Er.
  { split; [done|]. intros Hf. by rewrite <- max_front_all. }
  unfold recalculate_priority. rewrite (bind_step _ _ th) by (unfold thread_at; by rewrite E).
  destruct (lock_own_list th) as [|l ls] eqn:El; [simpl; by rewrite Z.max_l|].
  pose proof (find_priority_max s (l :: ls) 0 ltac:(done) Hk) as Hf.
  change (find_priority s (l :: ls) = max_front s 0 (l :: ls)) in Hf. cbv zeta. rewrite Hf.
  destruct (Z.ltb_spec (origin_priority th) (max_front s 0 (l :: ls))).
  - by rewrite Z.max_r by lia.
  - by rewrite Z.max_l by lia.
Qed.

(** * Executions *)

(** The initial thread takes a lock, and a thread of priority 40 runs. *)
Definition sample_held : sched :=
  match drive [ADo (CLockInit lock_l); ADo (CLockAcquire lock_l); AResume 5;
               ADo (CCreate page_b 40); AResume 20] boot_state with
  | Ok s => s | Err _ => boot_state end.

Lemma sample_held_inv : sched_inv sample_held.
Proof.
  apply (steps_inv boot_state); [apply boot_inv|].
  apply (drive_steps [ADo (CLockInit lock_l); ADo (CLockAcquire lock_l); AResume 5;
                      ADo (CCreate page_b 40); AResume 20]). vm_compute. reflexivity.
Qed.

Lemma preemption_witness :
  match run_call (CSetPriority 30) sample_held with
  | Ok s' => running s' = main_page ∧
             ((running s' = idle_thread s' ∧ ready_list s' = []) ∨
              (∀ t, t ∈ ready_list s' → prio s' t <= prio s' (running s')))
  | Err _ => False
  end.
Proof.
  destruct (run_call (CSetPriority 30) sample_held) as [s'|] eqn:E; [|vm_compute in E; discriminate].
  split; [vm_compute in E; by injection E as <-|].
  apply (preemption sample_held s' (CSetPriority 30) sample_held_inv); [|reflexivity|done|done].
  split; [by vm_compute|]. eexists. split; [by vm_compute|done].
Defined.

(** A chain of two holders, both blocked: the thread of page [page_b] holds
    [lock_l] and waits for [lock_m], held by the thread of page [page_c]. *)
Definition lock_m : Z := 3221500200.


(** That thread waits for the lock, having donated its priority. *)
Definition sample_donated : sched :=
  match drive [ADo (CLockAcquire lock_l); AResume 20; ADo CYield; AResume 20] sample_held with
  | Ok s => s | Err _ => boot_state end.

Lemma recalculate_priority_max_witness :
  recalculate_priority sample_donated = specific_thread_set_priority 40 main_page sample_donated.
Proof.
  assert (threads sample_donated !! running sample_donated =
          Some (Thread 1 THREAD_RUNNING 40 0 [lock_l] 0 31 0 [])) as E
    by (vm_compute; reflexivity).
  destruct (recalculate_priority_max sample_donated _ E) as [_ H].
  - constructor; [|constructor]. unfold kernel_lock, lock_l. lia.
  - vm_compute; discriminate.
  - rewrite H; [reflexivity|]. constructor; [|constructor]. vm_compute. constructor.
Defined.

(** * Where the code does not do what it intends *)

(** Interrupts stay disabled after [thread_set_priority] when no other thread
    is ready: [specific_thread_set_priority] returns without restoring the
    level it saved. *)
Lemma set_priority_leaves_interrupts_off :
  intr_on boot_state = true ∧
  match drive [ADo (CSetPriority 40); AResume 5] boot_state with
  | Ok s => at_baseb s = true ∧ intr_on s = false
  | Err _ => False
  end.
Proof. vm_compute. done. Qed.

(** Waiters of priority 40 and 50, in that order, on [lock_l]: after the owner
    releases another lock it runs at 40, below a thread it blocks. *)
Lemma recalculate_ignores_later_waiters :
  match drive [ADo (CLockInit lock_m); ADo (CLockAcquire lock_m); AResume 5;
               ADo (CCreate page_c 50); AResume 20; ADo (CLockAcquire lock_l); AResume 20;
               ADo (CLockRelease lock_m); AResume 20] sample_donated with
  | Ok s => running s = main_page ∧ prio s main_page = 40 ∧ prio s page_c = 50 ∧
            match semas s !! lock_sema lock_l with
            | Some sm => waiters sm = [page_b; page_c]
            | None => False
            end
  | Err _ => False
  end.
Proof. vm_compute. done. Qed.

(** A lock taken with [lock_try_acquire] is not in its holder's list, from
    which [lock_release] removes it. *)
Lemma try_acquire_then_release_faults :
  drive [ADo (CLockInit lock_l); ADo (CLockTryAcquire lock_l); ADo (CLockRelease lock_l)] boot_state
  = Err WildAccess.
Proof. vm_compute. reflexivity. Qed.

(** A donation interrupted by a switch can follow a stale [plock_acq]: the
    thread of page [page_b] donates to the initial thread, which waits for
    [lock_m]; the thread of page [page_c] runs meanwhile and releases
    [lock_m]; its holder is then [NULL] and the donor dereferences it. *)
Definition sema_d : Z := 3221500300.
Lemma donation_race_faults :
  drive [ADo (CLockInit lock_l); ADo (CLockInit lock_m);
         ADo (CSemaInit sema_a 0); ADo (CSemaInit sema_d 0);
         ADo (CLockAcquire lock_l); AResume 5;
         ADo (CCreate page_c 40); AResume 20; ADo (CLockAcquire lock_m); AResume 5;
         ADo (CSemaDown sema_a); AResume 20;
         ADo (CCreate page_b 40); AResume 20; ADo (CSemaDown sema_d); AResume 20;
         ADo (CLockAcquire lock_m); AResume 4;
         AIrq (IrqDevice sema_d); AResume 20; AIrq (IrqDevice sema_a); AResume 20;
         ADo (CLockAcquire lock_l); AResume 20; ADo (CLockRelease lock_m); AResume 20] boot_state
  = Err WildAccess.
Proof. vm_compute. reflexivity. Qed.

(** The initial thread sleeps for 100 ticks; another thread creates a thread,
    which clears the sleeper's wake-up time, and the first tick wakes it. *)
Lemma creation_wakes_initial_thread :
  match drive [ADo (CCreate page_b 20); AResume 20; ADo (CSleep 100); AResume 20;
               ADo (CCreate page_c 10); AResume 20; AIrq IrqTimer] boot_state with
  | Ok s => ticks s = 1 ∧ ready_list s = [main_page; page_c] ∧ running s = page_b
  | Err _ => False
  end.
Proof. vm_compute. done. Qed.
