(* ===== verification/PageFault.v ===== *)
(** Page faults (userprog/exception.c): how a page of a user program gets into
    memory, from its file, from the swap disk or as a new page of the stack,
    and how another page is moved out to make room for it.

    The handler works on the page allocator, the page directories, the frame
    table and the swap table as the other files model them, over one memory.
    The supplementary page tables are the maps that [Page] shows them to be;
    the swap disk is any [Disk], and the file system enters through the class
    [Files].  The results of [malloc] are a sequence in the state.

    The handler is one step here.  In the kernel it runs with interrupts on and
    waits for the disk, so that other threads can run between its parts; what
    they could do to the frame table or to the page that is being moved out in
    the meantime is not modelled. *)
From S2P Require Import Prelude Cache Descriptor Mem Str Word Bitmap FreeMap Vaddr Palloc Pagedir PagedirInv PagedirOps PagedirSafety Frame Page.

(** * Files *)

(** [file_read_at] and [file_write_at] (filesys/file.c): the bytes read, the
    number of bytes written. *)
Class Files (F : Type) := {
  read_at : F → Z → Z → Z → outcome (list Z * F);
  write_at : F → Z → list Z → Z → outcome (Z * F)
}.

(** The bytes [bs] in place of those from [pos] on. *)
Definition splice (d bs : list Z) (pos : nat) : list Z :=
  take pos d ++ bs ++ drop (pos + length bs) d.

(** What the file system promises: an open file leads to an inode, and an inode
    has bytes.  Inside a file, reading returns its bytes and changes none;
    writing replaces them, unless it is denied, and changes no other inode. *)
Class FilesLaws (F : Type) `{Files F} := {
  files_inv : F → Prop;
  inode_of : F → Z → option Z;
  contents : F → Z → option (list Z);
  denied : F → Z → bool;
  contents_u8 st i d : files_inv st → contents st i = Some d → Forall is_u8 d;
  read_at_ok st f i d size ofs :
    files_inv st → inode_of st f = Some i → contents st i = Some d →
    0 <= size → 0 <= ofs → ofs + size <= Z.of_nat (length d) → ofs + size < 2147483648 →
    ∃ st', read_at st f size ofs = Ok (take (Z.to_nat size) (drop (Z.to_nat ofs) d), st') ∧ files_inv st' ∧
      (∀ g, inode_of st' g = inode_of st g) ∧ (∀ j, contents st' j = contents st j) ∧
      (∀ j, denied st' j = denied st j);
  write_at_ok st f i d bs ofs :
    files_inv st → inode_of st f = Some i → contents st i = Some d → denied st i = false → Forall is_u8 bs →
    0 <= ofs → ofs + Z.of_nat (length bs) <= Z.of_nat (length d) → ofs + Z.of_nat (length bs) < 2147483648 →
    ∃ st', write_at st f bs ofs = Ok (Z.of_nat (length bs), st') ∧ files_inv st' ∧
      (∀ g, inode_of st' g = inode_of st g) ∧ (∀ j, denied st' j = denied st j) ∧
      contents st' i = Some (splice d bs (Z.to_nat ofs)) ∧
      (∀ j, j ≠ i → contents st' j = contents st j)
}.

(** * Buffers *)

(** The [n] bytes at [p], and the bytes [bs] stored from [p] on. *)
Fixpoint load_bytes (n : nat) (p : Z) : MM (list Z) :=
  match n with
  | O => mret []
  | S n => v ← load p; bs ← load_bytes n (p + 1); mret (v :: bs)
  end.
Fixpoint store_bytes (p : Z) (bs : list Z) : MM () :=
  match bs with
  | [] => mret ()
  | b :: bs => store p b;; store_bytes (p + 1) bs
  end.

(** * State *)

Definition PF_P : Z := 1.
Definition PF_W : Z := 2.
Definition PF_U : Z := 4.
Definition STACK_BASE : Z := 0xb8000000.

(** The members of [struct thread] that the handler uses. *)
Record proc := mkProc { pagedir : Z; user_esp : Z }.
(** The members of [struct intr_frame] that it uses. *)
Record intr_frame := mkIntrFrame { error_code : Z; esp : Z; cs : Z }.
(** What it prints. *)
Inductive message := ExitMessage (t : Z) | UnknownSegment (cs : Z) | Whatthe (n : Z).
(** The handler returns to the program, or the thread exits. *)
Inductive verdict := Returns | Exits.

Section Fault.
Context {D F : Type} `{Disk D} `{Files F}.

Record machine := mkMachine {
  mvm : vm;
  procs : gmap Z proc;
  tables : gmap Z (gmap Z page);
  swap_disk : D;
  files : F;
  mallocs : list (option Z);
  log : list message;
  page_fault_cnt : Z
}.
Abbreviation FM := (M machine).

Definition set_mvm (v : vm) (s : machine) : machine :=
  mkMachine v (procs s) (tables s) (swap_disk s) (files s) (mallocs s) (log s) (page_fault_cnt s).
Definition set_procs (p : gmap Z proc) (s : machine) : machine :=
  mkMachine (mvm s) p (tables s) (swap_disk s) (files s) (mallocs s) (log s) (page_fault_cnt s).
Definition set_tables (t : gmap Z (gmap Z page)) (s : machine) : machine :=
  mkMachine (mvm s) (procs s) t (swap_disk s) (files s) (mallocs s) (log s) (page_fault_cnt s).
Definition set_disk (d : D) (s : machine) : machine :=
  mkMachine (mvm s) (procs s) (tables s) d (files s) (mallocs s) (log s) (page_fault_cnt s).
Definition set_files (f : F) (s : machine) : machine :=
  mkMachine (mvm s) (procs s) (tables s) (swap_disk s) f (mallocs s) (log s) (page_fault_cnt s).
Definition set_mallocs (l : list (option Z)) (s : machine) : machine :=
  mkMachine (mvm s) (procs s) (tables s) (swap_disk s) (files s) l (log s) (page_fault_cnt s).
Definition say (m : message) (s : machine) : machine :=
  mkMachine (mvm s) (procs s) (tables s) (swap_disk s) (files s) (mallocs s) (log s ++ [m]) (page_fault_cnt s).
Definition count_fault (s : machine) : machine :=
  mkMachine (mvm s) (procs s) (tables s) (swap_disk s) (files s) (mallocs s) (log s) (s64 (page_fault_cnt s + 1)).

Definition on_vm {A} (f : VM A) : FM A := λ s, '(a, v) ← f (mvm s); Ok (a, set_mvm v s).
Definition on_pm {A} (f : PM A) : FM A := on_vm (on_mmu f).
Definition on_mem {A} (f : MM A) : FM A := on_pm (on_km (on_ram f)).

(** The next result of [malloc]. *)
Definition malloc : FM (option Z) :=
  s ← getS;
  match mallocs s with
  | [] => mret None
  | r :: l => modS (set_mallocs l);; mret r
  end.

Definition get_proc (t : Z) : FM proc := s ← getS; pureM (of_option (procs s !! t)).
(** The ASSERT on the thread of vm/page.c. *)
Definition get_table (t : Z) : FM (gmap Z page) :=
  s ← getS; match tables s !! t with Some m => mret m | None => fail AssertFail end.
Definition put_page (t : Z) (m : gmap Z page) (p : page) (s : machine) : machine :=
  set_tables (<[t := <[load_vaddr p := p]> m]> (tables s)) s.

(** [page_lookup]. *)
Definition spt_lookup (address t : Z) : FM (option page) :=
  m ← get_table t;
  p ← malloc;
  mret (match p with Some _ => m !! pg_round_down address | None => None end).

(** [page_swap_out_index]. *)
Definition moved (p : page) (out : bool) (idx : Z) : page :=
  mkPage (load_vaddr p) (file_of p) (load_filepos p) (load_read_bytes p) (load_zero_bytes p) (writable p)
    out (mmaped p) idx.
Definition spt_swap_out_index (address t : Z) (out : bool) (idx : Z) : FM bool :=
  m ← get_table t;
  check (negb (size m =? 0)%nat);;
  p ← malloc;
  match p with
  | None => mret false
  | Some _ =>
      match m !! pg_round_down address with
      | Some prev => modS (put_page t m (moved prev out idx));; mret true
      | None => mret false
      end
  end.

(** * Parts of the handler *)

Definition kill (cur : Z) (f : intr_frame) : FM verdict :=
  (if (cs f =? SEL_UCSEG) || (cs f =? SEL_KCSEG) then modS (say (ExitMessage cur))
   else modS (say (UnknownSegment (cs f))));;
  mret Exits.

(** [for (i = idx * 8; i < idx * 8 + 8; i++)], with [count] counting along; a
    32-bit [i] takes at most eight steps. *)
Fixpoint sectors_loop (fuel : nat) (body : Z → Z → FM ()) (i limit count : Z) : FM () :=
  match fuel with
  | O => fail OutOfFuel
  | S fuel =>
      if i <? limit then body i count;; sectors_loop fuel body (u32 (i + 1)) limit (count + 1)
      else mret ()
  end.
Definition for_slot (body : Z → Z → FM ()) (idx : Z) : FM () :=
  sectors_loop 9 body (u32 (idx * 8)) (u32 (u32 (idx * 8) + 8)) 0.

Definition write_sector (buffer i count : Z) : FM () :=
  bs ← on_mem (load_bytes (Z.to_nat DISK_SECTOR_SIZE) (u32 (buffer + count * DISK_SECTOR_SIZE)));
  s ← getS; d ← pureM (disk_write (swap_disk s) i bs); modS (set_disk d).
Definition read_sector (buffer i count : Z) : FM () :=
  s ← getS; bs ← pureM (disk_read (swap_disk s) i);
  on_mem (store_bytes (u32 (buffer + count * DISK_SECTOR_SIZE)) bs).

(** [file_read_at] into memory and [file_write_at] from memory. *)
Definition file_read (ff buffer size ofs : Z) : FM Z :=
  s ← getS; '(bs, fs) ← pureM (read_at (files s) ff (s32 size) (s32 ofs));
  modS (set_files fs);;
  on_mem (store_bytes buffer bs);;
  mret (Z.of_nat (length bs)).
Definition file_write (ff buffer size ofs : Z) : FM Z :=
  bs ← on_mem (load_bytes (Z.to_nat (s32 size)) buffer);
  s ← getS; '(n, fs) ← pureM (write_at (files s) ff bs (s32 ofs));
  modS (set_files fs);;
  mret n.

(** The swap-out branch: the new value of [kpage]. *)
Definition swap_out : FM Z :=
  swapping_index ← on_vm swap_table_scan_and_flip;
  e ← on_vm frame_table_find_victim;
  match e with
  | None => fail AssertFail
  | Some e =>
      fr_elem ← on_vm (get_frame e);
      victim_page ← spt_lookup (fe_vaddr fr_elem) (pd_thread fr_elem);
      match victim_page with
      | None => fail AssertFail
      | Some victim_page =>
          victim_kvaddr ← on_pm (pagedir_get_page (fe_pd fr_elem) (fe_vaddr fr_elem));
          on_pm (pagedir_clear_page (fe_pd fr_elem) (fe_vaddr fr_elem));;
          (if negb (mmaped victim_page) then
             check (negb (victim_kvaddr =? NULL));;
             ok ← spt_swap_out_index (fe_vaddr fr_elem) (pd_thread fr_elem) true swapping_index;
             check ok;;
             for_slot (write_sector victim_kvaddr) swapping_index
           else
             dirty ← on_pm (pagedir_is_dirty (fe_pd fr_elem) (fe_vaddr fr_elem));
             if (dirty : bool) then
               on_pm (pagedir_set_dirty (fe_pd fr_elem) (fe_vaddr fr_elem) false);;
               n ← file_write (file_of victim_page) victim_kvaddr (load_read_bytes victim_page)
                     (load_filepos victim_page);
               check (u32 n =? load_read_bytes victim_page)
             else mret ());;
          on_pm (on_km (palloc_free_page victim_kvaddr));;
          on_vm (modS (free_frame e));;
          kpage ← on_pm (on_km (palloc_get_page (Z.lor PAL_USER PAL_ZERO)));
          on_vm swap_lock_release;;
          mret kpage
      end
  end.

(** [fr_elem = malloc (...)] and the stores to its members. *)
Definition add_frame (e : Z) (f : frame_elem) (v : vm) : vm :=
  mkVm (vm_mmu v) (<[e := f]> (frames v)) (frame_table v) (swap_table v) (swap_lock v).
Definition push_frame (cur pd upage : Z) : FM () :=
  e ← malloc;
  match e with
  | None => fail WildAccess
  | Some e => on_vm (modS (add_frame e (mkFrame cur pd upage)));; on_vm (frame_table_push_back e)
  end.

(** "Add the page to the process's address space". *)
Definition install (ram_pages pd upage kpage : Z) (writable : bool) (n : Z) : FM bool :=
  k ← on_pm (pagedir_get_page pd upage);
  ok ← (if negb (k =? NULL) then mret false else on_pm (pagedir_set_page ram_pages pd upage kpage writable));
  if (ok : bool) then mret true
  else on_pm (on_km (palloc_free_page kpage));; modS (say (Whatthe n));; mret false.

Definition checkheuristic (user_esp fault_addr : Z) : bool :=
  (user_esp <=? fault_addr) || (fault_addr =? u32 (user_esp - 4)) || (fault_addr =? u32 (user_esp - 32)).
Definition new_stack_page (upage : Z) : page := mkPage upage NULL 0 0 PGSIZE true false false 0.

Definition stack_growth (ram_pages cur fault_addr upage kpage : Z) (f : intr_frame) : FM verdict :=
  tcurrent ← get_proc cur;
  if (STACK_BASE <=? fault_addr) && checkheuristic (user_esp tcurrent) fault_addr && is_user_vaddr fault_addr then
    pi ← malloc;
    match pi with
    | None => mret Returns
    | Some _ =>
        m ← get_table cur;
        modS (put_page cur m (new_stack_page upage));;
        push_frame cur (pagedir tcurrent) upage;;
        install ram_pages (pagedir tcurrent) upage kpage true 4;;
        mret Returns
    end
  else kill cur f.

Definition lazy_load (ram_pages cur upage kpage : Z) (faulted_page : page) : FM verdict :=
  tcurrent ← get_proc cur;
  n ← file_read (file_of faulted_page) kpage (load_read_bytes faulted_page) (load_filepos faulted_page);
  if negb (n =? s32 (load_read_bytes faulted_page)) then
    on_pm (on_km (palloc_free_page kpage));; modS (say (ExitMessage cur));; mret Exits
  else
    ok ← install ram_pages (pagedir tcurrent) upage kpage (writable faulted_page) 2;
    (if (ok : bool) then push_frame cur (pagedir tcurrent) upage else mret ());;
    mret Returns.

Definition swap_in (ram_pages cur upage kpage : Z) (faulted_page : page) : FM verdict :=
  tcurrent ← get_proc cur;
  for_slot (read_sector kpage) (swap_index faulted_page);;
  ok ← install ram_pages (pagedir tcurrent) upage kpage (writable faulted_page) 3;
  if (ok : bool) then
    found ← spt_swap_out_index upage cur false 0;
    check found;;
    on_vm (swap_table_bitmap_set (swap_index faulted_page) false);;
    push_frame cur (pagedir tcurrent) upage;;
    mret Returns
  else mret Returns.

(** * The handler *)

(** [cur] is the current thread, [fault_addr] the value of CR2. *)
Definition note_esp (cur : Z) (f : intr_frame) : FM () :=
  tcurrent ← get_proc cur;
  (if is_user_vaddr (esp f) then
     e ← on_pm (set_new_dirty_page (esp f) (pagedir tcurrent) (user_esp tcurrent));
     modS (λ s, set_procs (<[cur := mkProc (pagedir tcurrent) e]> (procs s)) s)
   else mret ());;
  tcurrent ← get_proc cur;
  check (is_user_vaddr (user_esp tcurrent)).

Definition bring_in (ram_pages cur fault_addr kpage : Z) (f : intr_frame) : FM verdict :=
  let not_present := Z.land (error_code f) PF_P =? 0 in
  let upage := pg_round_down fault_addr in
  faulted_page ← spt_lookup upage cur;
  match faulted_page with
  | None => stack_growth ram_pages cur fault_addr upage kpage f
  | Some p =>
      on_vm swap_lock_acquire;; on_vm swap_lock_release;;
      if not_present then
        if negb (swap_outed p) then lazy_load ram_pages cur upage kpage p else swap_in ram_pages cur upage kpage p
      else kill cur f
  end.

Definition page_fault (ram_pages cur fault_addr : Z) (f : intr_frame) : FM verdict :=
  modS count_fault;;
  note_esp cur f;;
  kpage ← on_pm (on_km (palloc_get_page (Z.lor PAL_USER PAL_ZERO)));
  kpage ← (if kpage =? NULL then swap_out else mret kpage);
  if kpage =? NULL then mret Returns else bring_in ram_pages cur fault_addr kpage f.
End Fault.
Arguments machine D F : clear implicits.
