(* ===== verification/FaultBytes.v ===== *)
(** The bytes that the page-fault handler moves: pages as lists of 4096 bytes,
    slots of the swap disk as eight sectors, and the two loops that copy one to
    the other. *)
From S2P Require Import Prelude Cache Descriptor Mem Str Word Bitmap FreeMap Vaddr Palloc Pagedir PagedirInv PagedirOps PagedirSafety Frame Page PageFault.

(** * Pages of bytes *)

Lemma splice_length d bs pos : (pos + length bs <= length d)%nat → length (splice d bs pos) = length d.
Proof. intros. unfold splice. rewrite !length_app, length_take, length_drop. lia. Qed.
Lemma splice_lookup d bs pos i : (pos + length bs <= length d)%nat →
  splice d bs pos !! i = if decide (pos <= i < pos + length bs)%nat then bs !! (i - pos)%nat else d !! i.
Proof.
  intros Hl. unfold splice. case_decide as Hd.
  - rewrite lookup_app_r, lookup_app_l by (rewrite length_take; lia). rewrite length_take. f_equal. lia.
  - destruct (decide (i < pos)%nat).
    + rewrite lookup_app_l by (rewrite length_take; lia). apply lookup_take_lt. lia.
    + rewrite lookup_app_r, lookup_app_r by (rewrite length_take; lia). rewrite length_take, lookup_drop. f_equal. lia.
Qed.

(** Parts of a list that was spliced: those apart from the new bytes, and the
    new bytes themselves. *)
Lemma slice_splice_ne d bs pos m n : (pos + length bs <= length d)%nat →
  (pos + length bs <= m)%nat ∨ (m + n <= pos)%nat ∨ n = 0%nat →
  take n (drop m (splice d bs pos)) = take n (drop m d).
Proof.
  intros Hl Hd. apply list_eq. intros i. destruct (decide (i < n)%nat).
  - rewrite !lookup_take_lt, !lookup_drop, splice_lookup by done. case_decide; [lia|done].
  - by rewrite !lookup_take_ge by lia.
Qed.
Lemma slice_splice d bs pos : (pos + length bs <= length d)%nat → take (length bs) (drop pos (splice d bs pos)) = bs.
Proof.
  intros Hl. unfold splice. rewrite drop_app_le by (rewrite length_take; lia).
  rewrite drop_ge by (rewrite length_take; lia). simpl. rewrite take_app_le by done. by apply take_ge.
Qed.

Lemma page_bytes_lookup m p i : (i < 4096)%nat → page_bytes m p !! i = Some (default 0 (m !! (p + Z.of_nat i))).
Proof.
  intros Hi. unfold page_bytes. rewrite list_lookup_fmap, lookup_seq_lt by lia. done.
Qed.

Lemma page_bytes_ext m m' p : (∀ a, p <= a < p + 4096 → m' !! a = m !! a) → page_bytes m' p = page_bytes m p.
Proof.
  intros Hm. unfold page_bytes. apply list_fmap_ext. intros i x Hx. apply lookup_seq in Hx as [-> Hi].
  rewrite Hm; [done|lia].
Qed.

(** Bytes stored inside a page, and outside of it. *)
Lemma page_bytes_put m p o bs : (o + length bs <= 4096)%nat →
  page_bytes (put_bytes (p + Z.of_nat o) bs m) p = splice (page_bytes m p) bs o.
Proof.
  intros Hl. apply list_eq. intros i. pose proof (page_bytes_length m p) as Hlen. change (Z.to_nat 4096) with 4096%nat in Hlen.
  rewrite splice_lookup by lia. destruct (decide (i < 4096)%nat).
  2: { rewrite !lookup_ge_None_2; [by case_decide; [lia|]|rewrite ?page_bytes_length; lia..]. }
  rewrite !page_bytes_lookup by done. rewrite put_bytes_lookup. case_decide as Hd.
  - destruct (bs !! (i - o)%nat) as [b|] eqn:E; [|apply lookup_ge_None in E; lia].
    do 2 f_equal. bcases; try lia. simpl. replace (Z.to_nat (p + Z.of_nat i - (p + Z.of_nat o))) with (i - o)%nat by lia.
    by rewrite E.
  - do 2 f_equal. bcases; simpl; try done; lia.
Qed.

Lemma load_bytes_Ok bs m p : bytes_at m p bs → load_bytes (length bs) p m = Ok (bs, m).
Proof.
  revert p. induction bs as [|b bs IH]; intros p Hb; [done|]. apply bytes_at_cons in Hb as [Hp Hb].
  cbn [load_bytes length]. erewrite M_bind_step by by apply mem_load_Ok.
  by erewrite M_bind_step by by apply IH.
Qed.

Lemma store_bytes_Ok bs m p : Forall is_u8 bs → mapped m p (length bs) → store_bytes p bs m = Ok ((), put_bytes p bs m).
Proof.
  revert p m. induction bs as [|b bs IH]; intros p m Hu Hm; [done|]. apply Forall_cons in Hu as [Hb Hu].
  cbn [length] in Hm. apply mapped_S in Hm as [Hp Hm]. cbn [store_bytes].
  erewrite M_bind_step by by apply store_Ok. rewrite u8_small by done. rewrite IH by (done || by apply mapped_insert).
  by rewrite put_bytes_insert_comm by lia.
Qed.

(** A page in eight chunks. *)
Definition chunk (pg : list Z) (c : nat) : list Z := take 512 (drop (512 * c) pg).

Lemma chunks_from pg c n : length pg = (512 * (c + n))%nat → concat (chunk pg <$> seq c n) = drop (512 * c) pg.
Proof.
  revert c. induction n as [|n IH]; intros c Hl.
  - simpl. rewrite drop_ge; [done|lia].
  - cbn [seq fmap list_fmap concat]. rewrite IH by lia. unfold chunk.
    replace (512 * S c)%nat with (512 * c + 512)%nat by lia. rewrite <- drop_drop. apply take_drop.
Qed.
Lemma chunks_concat pg : length pg = 4096%nat → concat (chunk pg <$> seq 0 8) = pg.
Proof. intros Hl. by rewrite chunks_from. Qed.

Lemma chunk_length pg c : length pg = 4096%nat → (c < 8)%nat → length (chunk pg c) = 512%nat.
Proof. intros Hl Hc. unfold chunk. rewrite length_take, length_drop. lia. Qed.

Lemma bytes_at_chunk m p pg c : length pg = 4096%nat → bytes_at m p pg → (c < 8)%nat →
  bytes_at m (p + Z.of_nat c * 512) (chunk pg c).
Proof.
  intros Hl Hb Hc i b Hi. unfold chunk in Hi. pose proof (lookup_lt_Some _ _ _ Hi) as Hlt.
  rewrite length_take in Hlt. rewrite lookup_take_lt, lookup_drop in Hi by lia. apply Hb in Hi.
  by replace (p + Z.of_nat c * 512 + Z.of_nat i) with (p + Z.of_nat (512 * c + i)) by lia.
Qed.

(** * Memory inside the machine *)

Section Bytes.
Context {D F : Type} `{Disk D} {DL : DiskLaws D} `{Files F}.
Abbreviation machine := (PageFault.machine D F).

Definition mm (s : machine) : mmu := vm_mmu (mvm s).
Definition with_mm (u : mmu) (s : machine) : machine := set_mvm (set_mmu u (mvm s)) s.
Definition with_ram (m : mem) (s : machine) : machine := with_mm (set_km (set_ram m (km (mm s))) (mm s)) s.

Lemma on_pm_Ok {A} (f : PM A) s a u : f (mm s) = Ok (a, u) → on_pm f s = Ok (a, with_mm u s).
Proof. unfold on_pm, on_vm, on_mmu, mm. by intros ->. Qed.
Lemma on_vm_Ok {A} (f : VM A) (s : machine) a v : f (mvm s) = Ok (a, v) → on_vm f s = Ok (a, set_mvm v s).
Proof. unfold on_vm. by intros ->. Qed.
Lemma on_mem_Ok {A} (f : MM A) s a m : f (mram (mm s)) = Ok (a, m) → on_mem f s = Ok (a, with_ram m s).
Proof. intros E. unfold on_mem. apply on_pm_Ok. unfold on_km, on_ram. fold (mram (mm s)). by rewrite E. Qed.
Lemma with_mm_same s : with_mm (mm s) s = s.
Proof. by destruct s as [[]]. Qed.
Lemma with_ram_same s : with_ram (mram (mm s)) s = s.
Proof. by destruct s as [[[[] ? ? ?]]]. Qed.
Lemma with_mm_twice u u' s : with_mm u' (with_mm u s) = with_mm u' s.
Proof. done. Qed.

(** * Slots of the swap disk *)

Definition sector_at (d : D) (i : Z) : list Z :=
  match disk_read d i with Ok bs => bs | Err _ => [] end.
Definition slot_at (d : D) (idx : Z) : list Z :=
  concat ((λ c, sector_at d (idx * 8 + Z.of_nat c)) <$> seq 0 8).

Lemma for_slot_unwrapped body idx : 0 <= idx → idx * 8 + 8 < 4294967296 →
  for_slot (D := D) (F := F) body idx = sectors_loop 9 body (idx * 8) (idx * 8 + 8) 0.
Proof. intros. unfold for_slot. by rewrite !u32_small by (rewrite ?u32_small; lia). Qed.

Section Slot.
Context (idx k : Z) (Hidx : 0 <= idx) (Hwrap : idx * 8 + 8 < 4294967296).
Context (Hk : 0 <= k) (Hkw : k + 4096 <= 4294967296).

Lemma buffer_addr c : (c < 8)%nat → u32 (k + Z.of_nat c * DISK_SECTOR_SIZE) = k + Z.of_nat c * 512.
Proof using Hk Hkw. intros. unfold DISK_SECTOR_SIZE. rewrite u32_small; lia. Qed.

(** Writing the sectors from [c] on. *)
Lemma write_from pg n c s : length pg = 4096%nat → bytes_at (mram (mm s)) k pg → (c + n = 8)%nat →
  idx * 8 + 8 <= capacity (swap_disk s) →
  ∃ d, sectors_loop (S n) (write_sector k) (idx * 8 + Z.of_nat c) (idx * 8 + 8) (Z.of_nat c) s = Ok ((), set_disk d s) ∧
    capacity d = capacity (swap_disk s) ∧
    (∀ j, (c <= j < 8)%nat → sector_at d (idx * 8 + Z.of_nat j) = chunk pg j) ∧
    (∀ i, i < idx * 8 + Z.of_nat c ∨ idx * 8 + 8 <= i → sector_at d i = sector_at (swap_disk s) i).
Proof using DL Hidx Hwrap Hk Hkw.
  intros Hl Hb. revert c s Hb. induction n as [|n IH]; intros c s Hb Hc Hcap; cbn [sectors_loop].
  - destruct (Z.ltb_spec (idx * 8 + Z.of_nat c) (idx * 8 + 8)); [lia|]. exists (swap_disk s).
    splits; [by destruct s|done|intros; lia|done].
  - destruct (Z.ltb_spec (idx * 8 + Z.of_nat c) (idx * 8 + 8)); [|lia].
    assert (on_mem (load_bytes 512 (k + Z.of_nat c * 512)) s = Ok (chunk pg c, s)) as El.
    { rewrite <- (chunk_length pg c) by (done || lia). rewrite <- (with_ram_same s) at 2.
      apply on_mem_Ok, load_bytes_Ok. apply bytes_at_chunk; (done || lia). }
    destruct (disk_write_ok (swap_disk s) (idx * 8 + Z.of_nat c) (chunk pg c)) as (d1 & Ew & Hcap1 & Hr1 & Ho1);
      [lia|apply chunk_length; (done || lia)|].
    assert (write_sector k (idx * 8 + Z.of_nat c) (Z.of_nat c) s = Ok ((), set_disk d1 s)) as E1.
    { unfold write_sector. rewrite buffer_addr by lia. change (Z.to_nat DISK_SECTOR_SIZE) with 512%nat.
      rewrite (M_bind_step _ _ _ _ _ El), getS_step. by rewrite (pureM_step _ _ _ _ Ew). }
    rewrite (M_bind_step _ _ _ _ _ E1). rewrite u32_small by lia.
    replace (idx * 8 + Z.of_nat c + 1) with (idx * 8 + Z.of_nat (S c)) by lia.
    replace (Z.of_nat c + 1) with (Z.of_nat (S c)) by lia.
    destruct (IH (S c) (set_disk d1 s)) as (d & E & Hcapd & Hj & Ho); [done|lia|by simpl; rewrite Hcap1|].
    exists d. cbn [swap_disk set_disk] in *. splits; [exact E|congruence| |].
    + intros j Hjr. destruct (decide (j = c)) as [->|]; [|apply Hj; lia].
      rewrite Ho by lia. unfold sector_at. by rewrite Hr1.
    + intros i Hi. rewrite Ho by lia. unfold sector_at. by rewrite Ho1 by lia.
Qed.

Lemma swap_slot_written pg s : length pg = 4096%nat → bytes_at (mram (mm s)) k pg →
  idx * 8 + 8 <= capacity (swap_disk s) →
  ∃ d, for_slot (write_sector k) idx s = Ok ((), set_disk d s) ∧ capacity d = capacity (swap_disk s) ∧
    slot_at d idx = pg ∧ (∀ j, j ≠ idx → slot_at d j = slot_at (swap_disk s) j) ∧
    (∀ i, sector_at d i = sector_at (swap_disk s) i ∨ ∃ c, sector_at d i = chunk pg c).
Proof using DL Hidx Hwrap Hk Hkw.
  intros Hl Hb Hcap. rewrite for_slot_unwrapped by done.
  destruct (write_from pg 8 0 s Hl Hb eq_refl Hcap) as (d & E & Hc & Hj & Ho). rewrite Z.add_0_r in E.
  exists d. splits; [exact E|done| | |].
  - transitivity (concat (chunk pg <$> seq 0 8)); [|by apply chunks_concat]. unfold slot_at. f_equal. apply list_fmap_ext.
    intros i c Hi. apply lookup_seq in Hi. apply Hj. lia.
  - intros j Hne. unfold slot_at. f_equal. apply list_fmap_ext.
    intros i c Hi. apply lookup_seq in Hi. apply Ho. lia.
  - intros i. destruct (decide (idx * 8 <= i < idx * 8 + 8)).
    + right. exists (Z.to_nat (i - idx * 8)). rewrite <- Hj by lia. f_equal. lia.
    + left. apply Ho. lia.
Qed.

(** Reading the sectors from [c] on into a page of memory. *)
Lemma read_from n c s : mapped (mram (mm s)) k 4096 → (c + n = 8)%nat → idx * 8 + 8 <= capacity (swap_disk s) →
  (∀ j, Forall is_u8 (sector_at (swap_disk s) j)) →
  sectors_loop (S n) (read_sector k) (idx * 8 + Z.of_nat c) (idx * 8 + 8) (Z.of_nat c) s =
    Ok ((), with_ram (put_bytes (k + Z.of_nat c * 512)
      (concat ((λ c, sector_at (swap_disk s) (idx * 8 + Z.of_nat c)) <$> seq c n)) (mram (mm s))) s).
Proof using DL Hidx Hwrap Hk Hkw.
  intros Hm Hc Hcap Hu. revert c s Hm Hc Hcap Hu. induction n as [|n IH]; intros c s Hm Hc Hcap Hu; cbn [sectors_loop].
  - destruct (Z.ltb_spec (idx * 8 + Z.of_nat c) (idx * 8 + 8)); [lia|]. simpl. by rewrite with_ram_same.
  - destruct (Z.ltb_spec (idx * 8 + Z.of_nat c) (idx * 8 + 8)); [|lia].
    destruct (disk_read_ok (swap_disk s) (idx * 8 + Z.of_nat c)) as (bs & Er & Hbl); [lia|].
    assert (sector_at (swap_disk s) (idx * 8 + Z.of_nat c) = bs) as Es by (unfold sector_at; by rewrite Er).
    set (m1 := put_bytes (k + Z.of_nat c * 512) bs (mram (mm s))).
    assert (read_sector k (idx * 8 + Z.of_nat c) (Z.of_nat c) s = Ok ((), with_ram m1 s)) as E1.
    { unfold read_sector. rewrite getS_step, (pureM_step _ _ _ _ Er), buffer_addr by lia. apply on_mem_Ok.
      apply store_bytes_Ok; [rewrite <- Es; apply Hu|]. rewrite Hbl. eapply mapped_sub; [exact Hm|lia|lia]. }
    rewrite (M_bind_step _ _ _ _ _ E1). rewrite u32_small by lia.
    replace (idx * 8 + Z.of_nat c + 1) with (idx * 8 + Z.of_nat (S c)) by lia.
    replace (Z.of_nat c + 1) with (Z.of_nat (S c)) by lia.
    etransitivity; [apply (IH (S c) (with_ram m1 s)); [by apply mapped_put|lia|done|done]|].
    cbn [seq fmap list_fmap concat]. rewrite Es, put_bytes_app, Hbl. do 2 f_equal.
    change (swap_disk (with_ram m1 s)) with (swap_disk s). change (mram (mm (with_ram m1 s))) with m1.
    unfold m1. rewrite put_bytes_put_ne by lia.
    by replace (k + Z.of_nat c * 512 + Z.of_nat 512) with (k + Z.of_nat (S c) * 512) by lia.
Qed.

Lemma swap_slot_read s : mapped (mram (mm s)) k 4096 → idx * 8 + 8 <= capacity (swap_disk s) →
  (∀ j, Forall is_u8 (sector_at (swap_disk s) j)) →
  for_slot (read_sector k) idx s = Ok ((), with_ram (put_bytes k (slot_at (swap_disk s) idx) (mram (mm s))) s).
Proof using DL Hidx Hwrap Hk Hkw.
  intros Hm Hcap Hu. rewrite for_slot_unwrapped by done. pose proof (read_from 8 0 s Hm eq_refl Hcap Hu) as E.
  rewrite Z.mul_0_l, !Z.add_0_r in E. exact E.
Qed.
End Slot.

Lemma slot_length s idx : 0 <= idx → idx * 8 + 8 <= capacity s → length (slot_at s idx) = 4096%nat.
Proof.
  intros Hi Hc. unfold slot_at. cbn [seq fmap list_fmap concat]. rewrite !length_app.
  assert (∀ c, (c < 8)%nat → length (sector_at s (idx * 8 + Z.of_nat c)) = 512%nat) as Hl.
  { intros c Hcc. unfold sector_at. destruct (disk_read_ok s (idx * 8 + Z.of_nat c)) as (bs & -> & ?); [lia|done]. }
  rewrite !Hl by lia. done.
Qed.
End Bytes.
