(* ===== verification/FaultInv.v ===== *)
(** Where the pages of user programs are: the invariant that ties the
    supplementary page tables, the page directories, the frame table, the swap
    slots and the files together, and what a page holds in each place. *)
From S2P Require Import Prelude Cache Descriptor Mem Str Word Bitmap FreeMap Vaddr Palloc Pagedir PagedirInv PagedirOps PagedirSafety Frame FrameClock Page PageFault FaultBytes.

(** The part of an entry that says where a page is and what may be done to it. *)
Definition core (e : Z) : bool * Z * bool * bool := (has e PTE_P, frame e, has e PTE_W, has e PTE_D).

Lemma core_P e e' : core e = core e' → has e PTE_P = has e' PTE_P.
Proof. by intros [= ? ? ? ?]. Qed.
Lemma core_frame e e' : core e = core e' → frame e = frame e'.
Proof. by intros [= ? ? ? ?]. Qed.
Lemma core_W e e' : core e = core e' → has e PTE_W = has e' PTE_W.
Proof. by intros [= ? ? ? ?]. Qed.
Lemma core_D e e' : core e = core e' → has e PTE_D = has e' PTE_D.
Proof. by intros [= ? ? ? ?]. Qed.

Section Inv.
Context {D F : Type} `{Disk D} {DL : DiskLaws D} `{Files F} {FL : FilesLaws F} (ram_pages : Z) (pds : gset Z).
Abbreviation machine := (PageFault.machine D F).
Implicit Types (s : machine) (t v : Z) (p : page).

(** * Where a page is and what it holds *)

Definition entry s t v : option page := tables s !! t ≫= λ m, m !! v.
Definition pd_of s t : Z := match procs s !! t with Some pr => pagedir pr | None => 0 end.
Definition pte_at s t v : Z := pte_of (mm s) (pd_of s t) v.
Definition present s t v : bool := has (pte_at s t v) PTE_P.
Definition kaddr s t v : Z := PHYS_BASE + frame (pte_at s t v).
Definition frame_bytes s t v : list Z := page_bytes (mram (mm s)) (kaddr s t v).

Definition backed s p : Prop :=
  ∃ i d, inode_of (files s) (file_of p) = Some i ∧ contents (files s) i = Some d ∧
    load_filepos p + load_read_bytes p <= Z.of_nat (length d).
Definition file_bytes s p : list Z :=
  match inode_of (files s) (file_of p) ≫= contents (files s) with
  | Some d => take (Z.to_nat (load_read_bytes p)) (drop (Z.to_nat (load_filepos p)) d)
  | None => []
  end.
Definition zeros (n : Z) : list Z := replicate (Z.to_nat n) 0.

Definition holds s t v p : list Z :=
  if present s t v then frame_bytes s t v
  else if swap_outed p then slot_at (swap_disk s) (swap_index p)
  else file_bytes s p ++ zeros (4096 - load_read_bytes p).

(** The bytes that a page keeps: those of its file, for a mapped file. *)
Definition extent p : nat := if mmaped p then Z.to_nat (load_read_bytes p) else 4096.

(** A page of [s] is a page of [s'] with the same bytes, wherever it is. *)
Definition kept_page s s' t v : Prop :=
  match entry s t v with
  | None => entry s' t v = None
  | Some p => ∃ out idx, entry s' t v = Some (moved p out idx) ∧
                take (extent p) (holds s' t v (moved p out idx)) = take (extent p) (holds s t v p)
  end.
Definition same_pages s s' : Prop := ∀ t v, kept_page s s' t v.

Lemma moved_self p : moved p (swap_outed p) (swap_index p) = p.
Proof. by destruct p. Qed.
(** Pages that did not move. *)
Lemma kept_page_intro s s' t v : entry s' t v = entry s t v →
  (∀ p, entry s t v = Some p → holds s' t v p = holds s t v p) → kept_page s s' t v.
Proof.
  intros He Hh. unfold kept_page. rewrite He. destruct (entry s t v) as [p|]; [|done].
  exists (swap_outed p), (swap_index p). rewrite moved_self. by rewrite Hh.
Qed.
Lemma kept_page_trans s s' s'' t v : kept_page s s' t v → kept_page s' s'' t v → kept_page s s'' t v.
Proof.
  unfold kept_page. destruct (entry s t v) as [p|].
  - intros (o & i & E & Hb). rewrite E. intros (o' & i' & E' & Hb').
    exists o', i'. split; [exact E'|]. rewrite <- Hb. exact Hb'.
  - intros E. by rewrite E.
Qed.
Lemma same_pages_refl s : same_pages s s.
Proof. intros t v. by apply kept_page_intro. Qed.
Lemma same_pages_trans s s' s'' : same_pages s s' → same_pages s' s'' → same_pages s s''.
Proof. intros H1 H2 t v. by eapply kept_page_trans. Qed.

(** * The invariant *)

Record page_ok (v : Z) (p : page) : Prop := {
  ok_vaddr : load_vaddr p = v;
  ok_aligned : v mod 4096 = 0;
  ok_user : uaddr v;
  ok_read : 0 <= load_read_bytes p <= 4096;
  ok_pos : 0 <= load_filepos p ∧ load_filepos p + load_read_bytes p < 2147483648;
  ok_mmap : mmaped p = true → swap_outed p = false
}.

(** The pages of a file that another page must not overlap, if one of them is
    written back to the file. *)
Definition apart s p p' : Prop :=
  inode_of (files s) (file_of p) = inode_of (files s) (file_of p') →
  load_filepos p + load_read_bytes p <= load_filepos p' ∨ load_filepos p' + load_read_bytes p' <= load_filepos p ∨
  load_read_bytes p' = 0.

Record paging s : Prop := {
  pg_vm : vm_inv (mvm s) pds;
  pg_lock : swap_lock (mvm s) = false;
  pg_files : files_inv (files s);
  pg_ram : pool_end (user_pool (km (mm s))) <= PHYS_BASE + ram_pages * 4096;
  (** Processes have directories of their own, and tables. *)
  pg_proc : ∀ t pr, procs s !! t = Some pr →
    pagedir pr ∈ pds ∧ pagedir pr ≠ base_page_dir (mm s) ∧ uaddr (user_esp pr) ∧ t ≠ NULL;
  pg_tables : ∀ t, is_Some (tables s !! t) ↔ is_Some (procs s !! t);
  pg_pd : ∀ t t', is_Some (procs s !! t) → is_Some (procs s !! t') → pd_of s t = pd_of s t' → t = t';
  pg_page : ∀ t v p, entry s t v = Some p → page_ok v p;
  (** A page is in a frame, in a swap slot, or in its file. *)
  pg_where : ∀ t v p, entry s t v = Some p →
    if present s t v then swap_outed p = false ∧ ∃ e, e ∈ frame_table (mvm s) ∧ frames (mvm s) !! e = Some (mkFrame t (pd_of s t) v)
    else swap_outed p = true ∨ backed s p;
  (** The frames are those of present pages, in use, and no two are one. *)
  pg_frame : ∀ e f, e ∈ frame_table (mvm s) → frames (mvm s) !! e = Some f →
    ∃ p, f = mkFrame (pd_thread f) (pd_of s (pd_thread f)) (fe_vaddr f) ∧
      entry s (pd_thread f) (fe_vaddr f) = Some p ∧ present s (pd_thread f) (fe_vaddr f) = true ∧
      kaddr s (pd_thread f) (fe_vaddr f) mod 4096 = 0 ∧
      in_use (user_pool (km (mm s))) (kaddr s (pd_thread f) (fe_vaddr f)) = true ∧
      has (pte_at s (pd_thread f) (fe_vaddr f)) PTE_W = writable p;
  pg_frames_apart : ∀ e e' f f', e ∈ frame_table (mvm s) → e' ∈ frame_table (mvm s) →
    frames (mvm s) !! e = Some f → frames (mvm s) !! e' = Some f' →
    kaddr s (pd_thread f) (fe_vaddr f) = kaddr s (pd_thread f') (fe_vaddr f') → e = e';
  (** Mapped files: a page that was not written to agrees with its file. *)
  pg_mmap : ∀ t v p, entry s t v = Some p → mmaped p = true →
    backed s p ∧ (∀ i, inode_of (files s) (file_of p) = Some i → denied (files s) i = false) ∧
    (present s t v = true → has (pte_at s t v) PTE_D = false →
     take (Z.to_nat (load_read_bytes p)) (frame_bytes s t v) = file_bytes s p);
  pg_apart : ∀ t v p t' v' p', entry s t v = Some p → entry s t' v' = Some p' → (t, v) ≠ (t', v') →
    mmaped p = true → apart s p p';
  (** Swap slots: in use, and no two pages in one. *)
  pg_swap : ∃ b, swap_table (mvm s) = Some b ∧ bitmap_wf b ∧ bit_cnt b * 8 <= capacity (swap_disk s) ∧
    bit_cnt b * 8 < 4294967296 ∧
    ∀ t v p, entry s t v = Some p → swap_outed p = true → 0 <= swap_index p < bit_cnt b ∧ bget b (swap_index p) = true;
  pg_slots : ∀ t v p t' v' p', entry s t v = Some p → entry s t' v' = Some p' →
    swap_outed p = true → swap_outed p' = true → swap_index p = swap_index p' → t = t' ∧ v = v';
  pg_sectors : ∀ i, Forall is_u8 (sector_at (swap_disk s) i);
  (** New frame elements are blocks of the kernel that are not in use. *)
  pg_mallocs : ∀ i e, mallocs s !! i = Some (Some e) → PHYS_BASE <= e ∧ frames (mvm s) !! e = None;
  pg_fresh : ∀ i j e, mallocs s !! i = Some (Some e) → mallocs s !! j = Some (Some e) → i = j;
  pg_count : Z.of_nat (length (frame_table (mvm s)) + length (mallocs s)) < 4294967296
}.

Lemma entry_proc s t v p : paging s → entry s t v = Some p → ∃ pr, procs s !! t = Some pr ∧ pd_of s t = pagedir pr.
Proof using.
  intros Hp He. unfold entry in He. destruct (tables s !! t) as [m|] eqn:Et; [|done].
  destruct (proj1 (pg_tables s Hp t)) as [pr Hpr]; [by rewrite Et|]. exists pr. unfold pd_of. by rewrite Hpr.
Qed.
Lemma entry_pd s t v p : paging s → entry s t v = Some p → pd_of s t ∈ pds ∧ uaddr v ∧ pd_of s t ≠ base_page_dir (mm s).
Proof using.
  intros Hp He. destruct (entry_proc s t v p Hp He) as (pr & Hpr & ->).
  destruct (pg_proc s Hp t pr Hpr) as (? & ? & _). splits; [done| |done]. by eapply pg_page.
Qed.

(** A page of a process, in its table or not. *)
Definition user_page s t v : Prop := is_Some (procs s !! t) ∧ uaddr v ∧ v mod 4096 = 0.
Lemma entry_user_page s t v p : paging s → entry s t v = Some p → user_page s t v.
Proof using.
  intros Hp He. destruct (entry_proc s t v p Hp He) as (pr & Hpr & _). destruct (pg_page s Hp t v p He). split; eauto.
Qed.

(** The frame element of a present page. *)
Lemma present_frame s t v p : paging s → entry s t v = Some p → present s t v = true →
  ∃ e, e ∈ frame_table (mvm s) ∧ frames (mvm s) !! e = Some (mkFrame t (pd_of s t) v).
Proof using. intros Hp He Hpr. pose proof (pg_where s Hp t v p He) as Hw. rewrite Hpr in Hw. by destruct Hw as [_ ?]. Qed.

Lemma present_kaddr s t v p : paging s → entry s t v = Some p → present s t v = true →
  kaddr s t v mod 4096 = 0 ∧ in_use (user_pool (km (mm s))) (kaddr s t v) = true.
Proof using.
  intros Hp He Hpr. destruct (present_frame s t v p Hp He Hpr) as (e & Hin & Hf).
  destruct (pg_frame s Hp e _ Hin Hf) as (p' & _ & _ & _ & ? & ? & _). done.
Qed.

(** Different present pages have different frames. *)
Lemma kaddr_inj s t v p t' v' p' : paging s → entry s t v = Some p → entry s t' v' = Some p' →
  present s t v = true → present s t' v' = true → kaddr s t v = kaddr s t' v' → t = t' ∧ v = v'.
Proof using.
  intros Hp He He' Hpr Hpr' Hk. destruct (present_frame s t v p Hp He Hpr) as (e & Hin & Hf).
  destruct (present_frame s t' v' p' Hp He' Hpr') as (e' & Hin' & Hf').
  assert (e = e') as -> by (by eapply (pg_frames_apart s Hp e e')). rewrite Hf in Hf'. by simplify_eq.
Qed.

End Inv.
