(* ===== verification/FaultMoves.v ===== *)
(** The three kinds of change that the page-fault handler makes: changes that
    move no page, taking a page out of its frame, and putting a page into a
    frame.  Each keeps the invariant and the bytes of every page. *)
From S2P Require Import Prelude Cache Descriptor Mem Str Word Bitmap FreeMap Vaddr Palloc Pagedir PagedirInv PagedirOps PagedirSafety Frame FrameClock Page PageFault FaultBytes FaultInv.

Section Moves.
Context {D F : Type} `{Disk D} {DL : DiskLaws D} `{Files F} {FL : FilesLaws F} (ram_pages : Z) (pds : gset Z).
Abbreviation machine := (PageFault.machine D F).
Abbreviation paging := (paging ram_pages pds).
Implicit Types (s : machine) (t v : Z) (p : page).

(** The blocks that [malloc] has still to give. *)
Definition later s s' : Prop := ∃ n, mallocs s' = drop n (mallocs s).
Lemma later_refl s : later s s.
Proof. by exists 0%nat. Qed.
Lemma later_trans s s' s'' : later s s' → later s' s'' → later s s''.
Proof. intros [n E] [n' E']. exists (n + n')%nat. by rewrite E', E, drop_drop. Qed.
Lemma later_lookup s s' i e : later s s' → mallocs s' !! i = Some e → ∃ n, mallocs s !! (n + i)%nat = Some e ∧ mallocs s' = drop n (mallocs s).
Proof. intros [n E] Hi. exists n. split; [|done]. by rewrite E, lookup_drop in Hi. Qed.

(** Files whose bytes and permissions are the same. *)
Record same_files (f f' : F) : Prop := {
  sf_inv : files_inv f';
  sf_inode : ∀ g, inode_of f' g = inode_of f g;
  sf_contents : ∀ j, contents f' j = contents f j;
  sf_denied : ∀ j, denied f' j = denied f j
}.
Lemma same_files_refl f : files_inv f → same_files f f.
Proof. by split. Qed.

(** * Changes that move no page *)

Record stable s s' : Prop := {
  st_vm : vm_inv (mvm s') pds;
  st_lock : swap_lock (mvm s') = false;
  st_table : frame_table (mvm s') = frame_table (mvm s);
  st_frames : frames (mvm s') = frames (mvm s);
  st_swap : swap_table (mvm s') = swap_table (mvm s);
  st_base : base_page_dir (mm s') = base_page_dir (mm s);
  st_pool : pool_end (user_pool (km (mm s'))) = pool_end (user_pool (km (mm s)));
  st_tables : tables s' = tables s;
  st_disk : swap_disk s' = swap_disk s;
  st_pd : ∀ t, pd_of s' t = pd_of s t;
  st_procs : ∀ t, is_Some (procs s' !! t) ↔ is_Some (procs s !! t);
  st_esp : ∀ t pr, procs s' !! t = Some pr → uaddr (user_esp pr);
  st_files : same_files (files s) (files s');
  st_later : later s s';
  st_core : ∀ pd va, pd ∈ pds → uaddr va → core (pte_of (mm s') pd va) = core (pte_of (mm s) pd va);
  st_bytes : ∀ t v p, entry s t v = Some p → present s t v = true →
    in_use (user_pool (km (mm s'))) (kaddr s t v) = true ∧
    page_bytes (mram (mm s')) (kaddr s t v) = frame_bytes s t v
}.

Section Stable.
Context s s' (Hp : paging s) (Hs : stable s s').

Lemma stable_entry t v : entry s' t v = entry s t v.
Proof using Hs. unfold entry. by rewrite (st_tables s s' Hs). Qed.
Lemma stable_core t v p : entry s t v = Some p → core (pte_at s' t v) = core (pte_at s t v).
Proof using Hs Hp.
  intros He. unfold pte_at. rewrite (st_pd s s' Hs). destruct (entry_pd ram_pages pds s t v p Hp He) as (? & ? & _).
  by apply (st_core s s' Hs).
Qed.
Lemma stable_absent t v : user_page s t v → present s' t v = present s t v.
Proof using Hs Hp.
  intros ([pr Hpr] & Hv & _). unfold present, pte_at. rewrite (st_pd s s' Hs). apply core_P, (st_core s s' Hs); [|done].
  unfold pd_of. rewrite Hpr. by apply (pg_proc _ _ s Hp t pr).
Qed.
Lemma stable_present t v p : entry s t v = Some p → present s' t v = present s t v.
Proof using Hs Hp. intros He. unfold present. by apply core_P, (stable_core t v p). Qed.
Lemma stable_kaddr t v p : entry s t v = Some p → kaddr s' t v = kaddr s t v.
Proof using Hs Hp. intros He. unfold kaddr. by rewrite (core_frame _ _ (stable_core t v p He)). Qed.
Lemma stable_frame_bytes t v p : entry s t v = Some p → present s t v = true → frame_bytes s' t v = frame_bytes s t v.
Proof using Hs Hp.
  intros He Hpr. unfold frame_bytes at 1. rewrite (stable_kaddr t v p) by done. by eapply st_bytes.
Qed.
Lemma stable_file_bytes p : file_bytes s' p = file_bytes s p.
Proof using Hs.
  unfold file_bytes. rewrite (sf_inode _ _ (st_files s s' Hs)). destruct (inode_of (files s) (file_of p)) as [i|]; [|done].
  simpl. by rewrite (sf_contents _ _ (st_files s s' Hs)).
Qed.
Lemma stable_backed p : backed s p → backed s' p.
Proof using Hs.
  intros (i & d & Hi & Hd & Hl). exists i, d.
  by rewrite (sf_inode _ _ (st_files s s' Hs)), (sf_contents _ _ (st_files s s' Hs)).
Qed.
Lemma stable_holds t v p : entry s t v = Some p → holds s' t v p = holds s t v p.
Proof using Hs Hp.
  intros He. unfold holds. rewrite (stable_present t v p) by done. destruct (present s t v) eqn:E.
  - by apply (stable_frame_bytes t v p).
  - by rewrite (st_disk s s' Hs), stable_file_bytes.
Qed.
Lemma stable_same_pages : same_pages s s'.
Proof using Hs Hp.
  intros t v. apply kept_page_intro; [apply stable_entry|]. intros p. apply stable_holds.
Qed.

Lemma stable_paging : paging s'.
Proof using Hs Hp.
  split.
  - apply Hs.
  - apply Hs.
  - apply Hs.
  - rewrite (st_pool s s' Hs). apply Hp.
  - intros t pr Hpr. destruct (proj1 (st_procs s s' Hs t)) as [pr0 Hpr0]; [eauto|].
    destruct (pg_proc _ _ s Hp t pr0 Hpr0) as (H1 & H2 & _ & H4). pose proof (st_pd s s' Hs t) as Hd.
    unfold pd_of in Hd. rewrite Hpr, Hpr0 in Hd. rewrite Hd, (st_base s s' Hs). splits; [done|done|by eapply st_esp|done].
  - intros t. rewrite (st_tables s s' Hs), (st_procs s s' Hs). apply Hp.
  - intros t t' Ht Ht'. rewrite !(st_pd s s' Hs). apply Hp; by apply (st_procs s s' Hs).
  - intros t v p. rewrite stable_entry. apply Hp.
  - intros t v p. rewrite stable_entry. intros He. pose proof (pg_where _ _ s Hp t v p He) as Hw.
    rewrite (stable_present t v p) by done. rewrite (st_table s s' Hs), (st_frames s s' Hs), (st_pd s s' Hs).
    destruct (present s t v); [done|]. destruct Hw as [?|?]; [by left|right]. by apply stable_backed.
  - intros e f. rewrite (st_table s s' Hs), (st_frames s s' Hs). intros Hin Hf.
    destruct (pg_frame _ _ s Hp e f Hin Hf) as (p & Ef & He & Hpr & Hal & Hu & Hw). exists p.
    rewrite stable_entry, (st_pd s s' Hs), (stable_present _ _ p), (stable_kaddr _ _ p), (core_W _ _ (stable_core _ _ p He)) by done.
    splits; try done. by eapply st_bytes.
  - intros e e' f f'. rewrite (st_table s s' Hs), (st_frames s s' Hs). intros Hin Hin' Hf Hf' Hk.
    destruct (pg_frame _ _ s Hp e f Hin Hf) as (p & _ & He & _).
    destruct (pg_frame _ _ s Hp e' f' Hin' Hf') as (p' & _ & He' & _).
    rewrite (stable_kaddr _ _ p), (stable_kaddr _ _ p') in Hk by done. by eapply (pg_frames_apart _ _ s Hp).
  - intros t v p. rewrite stable_entry. intros He Hm. destruct (pg_mmap _ _ s Hp t v p He Hm) as (Hb & Hd & Hc).
    splits.
    + by apply stable_backed.
    + intros i. rewrite (sf_inode _ _ (st_files s s' Hs)), (sf_denied _ _ (st_files s s' Hs)). apply Hd.
    + rewrite (stable_present t v p), (core_D _ _ (stable_core t v p He)), stable_file_bytes by done.
      intros Hpr HD. by rewrite (stable_frame_bytes t v p), Hc.
  - intros t v p t' v' p'. rewrite !stable_entry. intros He He' Hne Hm. unfold apart. rewrite !(sf_inode _ _ (st_files s s' Hs)).
    by apply (pg_apart _ _ s Hp t v p t' v' p').
  - rewrite (st_swap s s' Hs), (st_disk s s' Hs). destruct (pg_swap _ _ s Hp) as (b & ? & ? & ? & ? & Hb).
    exists b. splits; try done. intros t v p. rewrite stable_entry. apply Hb.
  - intros t v p t' v' p'. rewrite !stable_entry. apply Hp.
  - rewrite (st_disk s s' Hs). apply Hp.
  - intros i e Hi. rewrite (st_frames s s' Hs). destruct (later_lookup s s' i _ (st_later s s' Hs) Hi) as (n & Hn & _).
    by eapply pg_mallocs.
  - intros i j e Hi Hj. destruct (later_lookup s s' i _ (st_later s s' Hs) Hi) as (n & Hn & E).
    rewrite E, lookup_drop in Hj. assert ((n + i)%nat = (n + j)%nat); [|lia]. by eapply (pg_fresh _ _ s Hp).
  - rewrite (st_table s s' Hs). destruct (st_later s s' Hs) as [n E]. rewrite E, length_drop.
    pose proof (pg_count _ _ s Hp). lia.
Qed.
End Stable.

Lemma stable_trans s s' s'' : paging s → stable s s' → stable s' s'' → stable s s''.
Proof using.
  intros Hp H1 H2. pose proof (stable_paging s s' Hp H1) as Hp'. split.
  - apply H2.
  - apply H2.
  - by rewrite (st_table _ _ H2), (st_table _ _ H1).
  - by rewrite (st_frames _ _ H2), (st_frames _ _ H1).
  - by rewrite (st_swap _ _ H2), (st_swap _ _ H1).
  - by rewrite (st_base _ _ H2), (st_base _ _ H1).
  - by rewrite (st_pool _ _ H2), (st_pool _ _ H1).
  - by rewrite (st_tables _ _ H2), (st_tables _ _ H1).
  - by rewrite (st_disk _ _ H2), (st_disk _ _ H1).
  - intros t. by rewrite (st_pd _ _ H2), (st_pd _ _ H1).
  - intros t. by rewrite (st_procs _ _ H2), (st_procs _ _ H1).
  - apply H2.
  - destruct (st_files _ _ H1) as [_ Hi Hc Hd], (st_files _ _ H2) as [Hv Hi' Hc' Hd'].
    split; [done|..]; intros; congruence.
  - eapply later_trans; [apply H1|apply H2].
  - intros pd va Hpd Hva. rewrite (st_core _ _ H2), (st_core _ _ H1) by done. done.
  - intros t v p He Hpr. assert (entry s' t v = Some p) as He' by by rewrite (stable_entry s s' H1).
    destruct (st_bytes _ _ H2 t v p He') as [Hu Hb]; [by rewrite (stable_present s s' Hp H1 t v p)|].
    rewrite (stable_kaddr s s' Hp H1 t v p He) in Hu, Hb. split; [done|]. rewrite Hb.
    by apply (stable_frame_bytes s s' Hp H1 t v p).
Qed.

(** * Taking a page out of its frame *)

(** The page [p0] at [v0] of [t0] leaves the frame of element [e0] for slot
    [idx] of the swap disk ([out]) or for its file. *)
Record unmaps s s' (e0 t0 v0 : Z) (p0 : page) (out : bool) (idx : Z) : Prop := {
  um_vm : vm_inv (mvm s') pds;
  um_lock : swap_lock (mvm s') = false;
  um_victim : entry s t0 v0 = Some p0 ∧ present s t0 v0 = true ∧ e0 ∈ frame_table (mvm s) ∧
    frames (mvm s) !! e0 = Some (mkFrame t0 (pd_of s t0) v0);
  um_table : ∀ e, e ∈ frame_table (mvm s') ↔ e ∈ frame_table (mvm s) ∧ e ≠ e0;
  um_length : (length (frame_table (mvm s')) <= length (frame_table (mvm s)))%nat;
  um_frames : frames (mvm s') = delete e0 (frames (mvm s));
  um_base : base_page_dir (mm s') = base_page_dir (mm s);
  um_pool : pool_end (user_pool (km (mm s'))) = pool_end (user_pool (km (mm s)));
  um_procs : procs s' = procs s;
  um_tables : ∀ t, is_Some (tables s' !! t) ↔ is_Some (tables s !! t);
  um_entry : ∀ t v, entry s' t v = if decide (t = t0 ∧ v = v0) then Some (moved p0 out idx) else entry s t v;
  um_later : later s s';
  um_gone : present s' t0 v0 = false;
  um_core : ∀ t v, ¬ (t = t0 ∧ v = v0) → user_page s t v → core (pte_at s' t v) = core (pte_at s t v);
  um_bytes : ∀ t v p, ¬ (t = t0 ∧ v = v0) → entry s t v = Some p → present s t v = true →
    in_use (user_pool (km (mm s'))) (kaddr s t v) = true ∧
    page_bytes (mram (mm s')) (kaddr s t v) = frame_bytes s t v;
  um_finv : files_inv (files s');
  um_inode : ∀ g, inode_of (files s') g = inode_of (files s) g;
  um_denied : ∀ j, denied (files s') j = denied (files s) j;
  um_backed : ∀ p, backed s p → backed s' p;
  um_file : ∀ t v p, ¬ (t = t0 ∧ v = v0) → entry s t v = Some p → file_bytes s' p = file_bytes s p;
  um_disk : capacity (swap_disk s') = capacity (swap_disk s) ∧ (∀ i, Forall is_u8 (sector_at (swap_disk s') i)) ∧
    ∀ t v p, entry s t v = Some p → swap_outed p = true →
      slot_at (swap_disk s') (swap_index p) = slot_at (swap_disk s) (swap_index p);
  um_swap : ∃ b b', swap_table (mvm s) = Some b ∧ swap_table (mvm s') = Some b' ∧ bitmap_wf b' ∧
    bit_cnt b' = bit_cnt b ∧ (∀ j, bget b j = true → bget b' j = true) ∧
    if out then mmaped p0 = false ∧ slot_at (swap_disk s') idx = frame_bytes s t0 v0 ∧
                0 <= idx < bit_cnt b ∧ bget b idx = false ∧ bget b' idx = true
    else mmaped p0 = true ∧ file_bytes s' p0 = take (Z.to_nat (load_read_bytes p0)) (frame_bytes s t0 v0)
}.

Section Unmap.
Context s s' e0 t0 v0 p0 out idx (Hp : paging s) (Hs : unmaps s s' e0 t0 v0 p0 out idx).

Lemma unmap_pd t : pd_of s' t = pd_of s t.
Proof using Hs. unfold pd_of. by rewrite (um_procs _ _ _ _ _ _ _ _ Hs). Qed.
Lemma unmap_entry_ne t v : ¬ (t = t0 ∧ v = v0) → entry s' t v = entry s t v.
Proof using Hs. intros Hne. rewrite (um_entry _ _ _ _ _ _ _ _ Hs). by rewrite decide_False. Qed.
Lemma unmap_entry_eq : entry s' t0 v0 = Some (moved p0 out idx).
Proof using Hs. rewrite (um_entry _ _ _ _ _ _ _ _ Hs). by rewrite decide_True. Qed.
(** An entry of the new state is the victim's or an old one. *)
Lemma unmap_cases t v p : entry s' t v = Some p →
  (t = t0 ∧ v = v0 ∧ p = moved p0 out idx) ∨ (¬ (t = t0 ∧ v = v0) ∧ entry s t v = Some p).
Proof using Hs. rewrite (um_entry _ _ _ _ _ _ _ _ Hs). case_decide as Hd; [left|by right]. by destruct Hd; simplify_eq. Qed.
(** A frame of the new table is one of the old table and holds another page. *)
Lemma unmap_frame e f : e ∈ frame_table (mvm s') → frames (mvm s') !! e = Some f →
  e ∈ frame_table (mvm s) ∧ frames (mvm s) !! e = Some f ∧ ¬ (pd_thread f = t0 ∧ fe_vaddr f = v0).
Proof using Hs Hp.
  intros Hin Hf. apply (um_table _ _ _ _ _ _ _ _ Hs) in Hin as [Hin Hne]. rewrite (um_frames _ _ _ _ _ _ _ _ Hs) in Hf.
  rewrite lookup_delete_ne in Hf by done. splits; [done|done|]. intros [Ht Hv].
  destruct (um_victim _ _ _ _ _ _ _ _ Hs) as (_ & _ & Hin0 & Hf0). apply Hne.
  eapply (pg_frames_apart _ _ s Hp e e0 f _ Hin Hin0 Hf Hf0). cbn [pd_thread fe_vaddr]. by rewrite Ht, Hv.
Qed.

Lemma unmap_core t v p : ¬ (t = t0 ∧ v = v0) → entry s t v = Some p → core (pte_at s' t v) = core (pte_at s t v).
Proof using Hs Hp. intros Hne He. apply (um_core _ _ _ _ _ _ _ _ Hs); [done|]. by eapply entry_user_page. Qed.
Lemma unmap_present t v p : ¬ (t = t0 ∧ v = v0) → entry s t v = Some p → present s' t v = present s t v.
Proof using Hs Hp. intros Hne He. unfold present. by eapply core_P, unmap_core. Qed.
Lemma unmap_kaddr t v p : ¬ (t = t0 ∧ v = v0) → entry s t v = Some p → kaddr s' t v = kaddr s t v.
Proof using Hs Hp. intros Hne He. unfold kaddr. by erewrite core_frame by by eapply unmap_core. Qed.
Lemma unmap_frame_bytes t v p : ¬ (t = t0 ∧ v = v0) → entry s t v = Some p → present s t v = true →
  frame_bytes s' t v = frame_bytes s t v.
Proof using Hs Hp. intros Hne He Hpr. unfold frame_bytes at 1. rewrite (unmap_kaddr t v p) by done. by eapply um_bytes. Qed.

Lemma unmap_holds t v p : ¬ (t = t0 ∧ v = v0) → entry s t v = Some p → holds s' t v p = holds s t v p.
Proof using Hs Hp.
  intros Hne He. unfold holds. rewrite (unmap_present t v p) by done. destruct (present s t v) eqn:E.
  - by apply (unmap_frame_bytes t v p).
  - destruct (swap_outed p) eqn:Eo; [by eapply (um_disk _ _ _ _ _ _ _ _ Hs)|].
    by rewrite (um_file _ _ _ _ _ _ _ _ Hs t v p).
Qed.

Lemma unmap_same_pages : same_pages s s'.
Proof using Hs Hp.
  intros t v. destruct (decide (t = t0 ∧ v = v0)) as [[-> ->]|Hne].
  - destruct (um_victim _ _ _ _ _ _ _ _ Hs) as (He & Hpr & _). unfold kept_page. rewrite He. exists out, idx. split; [apply unmap_entry_eq|].
    unfold holds. rewrite Hpr, (um_gone _ _ _ _ _ _ _ _ Hs). cbn [moved swap_outed swap_index].
    destruct (um_swap _ _ _ _ _ _ _ _ Hs) as (b & b' & _ & _ & _ & _ & _ & Hd). destruct out.
    + destruct Hd as (_ & -> & _). done.
    + destruct Hd as [Hm Hf]. change (file_bytes s' (moved p0 false idx)) with (file_bytes s' p0). rewrite Hf.
      unfold extent. rewrite Hm. cbn [moved load_read_bytes].
      destruct (pg_page _ _ s Hp t0 v0 p0 He) as [_ _ _ Hr _ _].
      rewrite take_app_le by (rewrite length_take; unfold frame_bytes; rewrite page_bytes_length; lia). by rewrite take_take, Nat.min_id.
  - apply kept_page_intro; [by apply unmap_entry_ne|]. intros p. by apply unmap_holds.
Qed.

Lemma unmap_paging : paging s'.
Proof using Hs Hp.
  pose proof (um_victim _ _ _ _ _ _ _ _ Hs) as (He0 & Hpr0 & Hin0 & Hf0).
  pose proof (um_swap _ _ _ _ _ _ _ _ Hs) as (b & b' & Eb & Eb' & Hwf & Hcnt & Hmono & Hdest).
  destruct (pg_swap _ _ s Hp) as (b2 & E2 & _ & Hcap & Hw & Hbits). rewrite Eb in E2. injection E2 as <-.
  split.
  - apply Hs.
  - apply Hs.
  - apply Hs.
  - rewrite (um_pool _ _ _ _ _ _ _ _ Hs). apply Hp.
  - intros t pr. rewrite (um_procs _ _ _ _ _ _ _ _ Hs), (um_base _ _ _ _ _ _ _ _ Hs). apply Hp.
  - intros t. rewrite (um_tables _ _ _ _ _ _ _ _ Hs), (um_procs _ _ _ _ _ _ _ _ Hs). apply Hp.
  - intros t t'. rewrite !unmap_pd, (um_procs _ _ _ _ _ _ _ _ Hs). apply Hp.
  - intros t v p [(-> & -> & ->)|[Hne He]]%unmap_cases; [|by eapply pg_page].
    destruct (pg_page _ _ s Hp t0 v0 p0 He0) as [? ? ? ? ? Hmm]. split; try done.
    cbn [moved mmaped swap_outed]. intros Hm. destruct out; [|done]. by destruct Hdest as [? _]; congruence.
  - intros t v p [(-> & -> & ->)|[Hne He]]%unmap_cases.
    + rewrite (um_gone _ _ _ _ _ _ _ _ Hs). destruct out; [by left|right]. apply (um_backed _ _ _ _ _ _ _ _ Hs).
      by apply (pg_mmap _ _ s Hp t0 v0 p0 He0); destruct Hdest.
    + pose proof (pg_where _ _ s Hp t v p He) as Hwh. rewrite (unmap_present t v p) by done. rewrite unmap_pd.
      destruct (present s t v).
      * destruct Hwh as (? & e & Hin & Hf). split; [done|]. exists e. rewrite (um_table _ _ _ _ _ _ _ _ Hs), (um_frames _ _ _ _ _ _ _ _ Hs).
        assert (e ≠ e0) by (intros ->; rewrite Hf in Hf0; simplify_eq; by destruct Hne).
        by rewrite lookup_delete_ne.
      * destruct Hwh as [?|?]; [by left|right]. by apply (um_backed _ _ _ _ _ _ _ _ Hs).
  - intros e f Hin Hf. destruct (unmap_frame e f Hin Hf) as (Hin' & Hf' & Hne).
    destruct (pg_frame _ _ s Hp e f Hin' Hf') as (p & Ef & He & Hpr & Hal & Hu & HW). exists p.
    rewrite unmap_pd, unmap_entry_ne, (unmap_present _ _ p), (unmap_kaddr _ _ p) by done.
    erewrite (core_W (pte_at s' _ _)) by by eapply unmap_core. splits; try done. by eapply um_bytes.
  - intros e e' f f' Hin Hin' Hf Hf' Hk. destruct (unmap_frame e f Hin Hf) as (Hin1 & Hf1 & Hne).
    destruct (unmap_frame e' f' Hin' Hf') as (Hin1' & Hf1' & Hne').
    destruct (pg_frame _ _ s Hp e f Hin1 Hf1) as (p & _ & He & _).
    destruct (pg_frame _ _ s Hp e' f' Hin1' Hf1') as (p' & _ & He' & _).
    rewrite (unmap_kaddr _ _ p), (unmap_kaddr _ _ p') in Hk by done. by eapply (pg_frames_apart _ _ s Hp).
  - intros t v p [(-> & -> & ->)|[Hne He]]%unmap_cases Hm.
    + destruct (pg_mmap _ _ s Hp t0 v0 p0 He0 Hm) as (Hb & Hd & _). splits.
      * by apply (um_backed _ _ _ _ _ _ _ _ Hs).
      * intros i. rewrite (um_inode _ _ _ _ _ _ _ _ Hs), (um_denied _ _ _ _ _ _ _ _ Hs). apply Hd.
      * by rewrite (um_gone _ _ _ _ _ _ _ _ Hs).
    + destruct (pg_mmap _ _ s Hp t v p He Hm) as (Hb & Hd & Hc). splits.
      * by apply (um_backed _ _ _ _ _ _ _ _ Hs).
      * intros i. rewrite (um_inode _ _ _ _ _ _ _ _ Hs), (um_denied _ _ _ _ _ _ _ _ Hs). apply Hd.
      * rewrite (unmap_present t v p), (um_file _ _ _ _ _ _ _ _ Hs t v p) by done.
        erewrite (core_D (pte_at s' t v)) by by eapply unmap_core. intros Hpr HD.
        by rewrite (unmap_frame_bytes t v p), Hc.
  - intros t v p t' v' p' He He' Hne Hm. unfold apart. rewrite !(um_inode _ _ _ _ _ _ _ _ Hs).
    assert (∀ t v p, entry s' t v = Some p → ∃ q, entry s t v = Some q ∧ ∃ o i, p = moved q o i) as Hold.
    { intros t1 v1 p1 [(-> & -> & ->)|[_ H1]]%unmap_cases; [by eauto|]. exists p1. split; [done|].
      exists (swap_outed p1), (swap_index p1). by rewrite moved_self. }
    destruct (Hold _ _ _ He) as (q & Hq & o & i & ->). destruct (Hold _ _ _ He') as (q' & Hq' & o' & i' & ->).
    by apply (pg_apart _ _ s Hp t v q t' v' q').
  - exists b'. rewrite Hcnt. destruct (um_disk _ _ _ _ _ _ _ _ Hs) as (-> & _ & _). splits; try done.
    intros t v p [(-> & -> & ->)|[Hne He]]%unmap_cases; cbn [moved swap_outed swap_index].
    + intros ->. by destruct Hdest as (_ & _ & ? & _ & ?).
    + intros Ho. destruct (Hbits t v p He Ho). auto.
  - assert (∀ t v p, entry s t v = Some p → swap_outed p = true → out = true → swap_index p ≠ idx) as Hfresh.
    { intros t v p He Ho Hout Hi. rewrite Hout in Hdest. destruct Hdest as (_ & _ & _ & Hf & _).
      destruct (Hbits t v p He Ho). congruence. }
    intros t v p t' v' p' [(-> & -> & ->)|[Hne He]]%unmap_cases [(-> & -> & ->)|[Hne' He']]%unmap_cases;
      cbn [moved swap_outed swap_index]; intros Ho Ho' Hi; [done| | |by eapply (pg_slots _ _ s Hp)].
    + exfalso. by apply (Hfresh t' v' p').
    + exfalso. by apply (Hfresh t v p).
  - apply Hs.
  - intros i e Hi. rewrite (um_frames _ _ _ _ _ _ _ _ Hs).
    destruct (later_lookup s s' i _ (um_later _ _ _ _ _ _ _ _ Hs) Hi) as (n & Hn & _).
    destruct (pg_mallocs _ _ s Hp _ _ Hn). split; [done|]. apply lookup_delete_None. by right.
  - intros i j e Hi Hj. destruct (later_lookup s s' i _ (um_later _ _ _ _ _ _ _ _ Hs) Hi) as (n & Hn & E).
    rewrite E, lookup_drop in Hj. assert ((n + i)%nat = (n + j)%nat); [|lia]. by eapply (pg_fresh _ _ s Hp).
  - destruct (um_later _ _ _ _ _ _ _ _ Hs) as [n E]. rewrite E, length_drop.
    pose proof (pg_count _ _ s Hp). pose proof (um_length _ _ _ _ _ _ _ _ Hs). lia.
Qed.
End Unmap.

(** * Putting a page into a frame *)

(** The page at [v0] of [t0], described by [p1] from now on, gets the frame at
    [k], with the new element [e0] of the frame table. *)
Record maps_in s s' (e0 t0 v0 : Z) (p1 : page) (k : Z) : Prop := {
  mp_vm : vm_inv (mvm s') pds;
  mp_lock : swap_lock (mvm s') = false;
  mp_table : frame_table (mvm s') = frame_table (mvm s) ++ [e0];
  mp_frames : frames (mvm s') = <[e0 := mkFrame t0 (pd_of s t0) v0]> (frames (mvm s));
  mp_base : base_page_dir (mm s') = base_page_dir (mm s);
  mp_pool : pool_end (user_pool (km (mm s'))) = pool_end (user_pool (km (mm s)));
  mp_procs : procs s' = procs s;
  mp_tables : ∀ t, is_Some (tables s' !! t) ↔ is_Some (tables s !! t);
  mp_entry : ∀ t v, entry s' t v = if decide (t = t0 ∧ v = v0) then Some p1 else entry s t v;
  mp_page : page_ok v0 p1 ∧ swap_outed p1 = false;
  mp_old : match entry s t0 v0 with
           | Some p0 => present s t0 v0 = false ∧ ∃ i, p1 = moved p0 false i
           | None => mmaped p1 = false ∧ load_read_bytes p1 = 0
           end;
  mp_pte : present s' t0 v0 = true ∧ kaddr s' t0 v0 = k ∧ has (pte_at s' t0 v0) PTE_W = writable p1;
  mp_frame : k mod 4096 = 0 ∧ in_use (user_pool (km (mm s'))) k = true ∧
    ∀ t v p, entry s t v = Some p → present s t v = true → kaddr s t v ≠ k;
  mp_clean : mmaped p1 = true →
    take (Z.to_nat (load_read_bytes p1)) (page_bytes (mram (mm s')) k) = file_bytes s p1;
  mp_core : ∀ t v, ¬ (t = t0 ∧ v = v0) → user_page s t v → core (pte_at s' t v) = core (pte_at s t v);
  mp_bytes : ∀ t v p, ¬ (t = t0 ∧ v = v0) → entry s t v = Some p → present s t v = true →
    in_use (user_pool (km (mm s'))) (kaddr s t v) = true ∧
    page_bytes (mram (mm s')) (kaddr s t v) = frame_bytes s t v;
  mp_files : same_files (files s) (files s');
  mp_disk : swap_disk s' = swap_disk s;
  mp_swap : ∃ b b', swap_table (mvm s) = Some b ∧ swap_table (mvm s') = Some b' ∧ bitmap_wf b' ∧ bit_cnt b' = bit_cnt b ∧
    ∀ j, bget b j = true → bget b' j = true ∨ ∃ p0, entry s t0 v0 = Some p0 ∧ swap_outed p0 = true ∧ j = swap_index p0;
  mp_malloc : ∃ n i, (i < n)%nat ∧ mallocs s !! i = Some (Some e0) ∧ mallocs s' = drop n (mallocs s)
}.

Section MapIn.
Context s s' e0 t0 v0 p1 k (Hp : paging s) (Hs : maps_in s s' e0 t0 v0 p1 k).

Lemma map_pd t : pd_of s' t = pd_of s t.
Proof using Hs. unfold pd_of. by rewrite (mp_procs _ _ _ _ _ _ _ Hs). Qed.
Lemma map_entry_ne t v : ¬ (t = t0 ∧ v = v0) → entry s' t v = entry s t v.
Proof using Hs. intros Hne. rewrite (mp_entry _ _ _ _ _ _ _ Hs). by rewrite decide_False. Qed.
Lemma map_entry_eq : entry s' t0 v0 = Some p1.
Proof using Hs. rewrite (mp_entry _ _ _ _ _ _ _ Hs). by rewrite decide_True. Qed.
Lemma map_cases t v p : entry s' t v = Some p →
  (t = t0 ∧ v = v0 ∧ p = p1) ∨ (¬ (t = t0 ∧ v = v0) ∧ entry s t v = Some p).
Proof using Hs. rewrite (mp_entry _ _ _ _ _ _ _ Hs). case_decide as Hd; [left|by right]. by destruct Hd; simplify_eq. Qed.

Lemma map_core t v p : ¬ (t = t0 ∧ v = v0) → entry s t v = Some p → core (pte_at s' t v) = core (pte_at s t v).
Proof using Hs Hp. intros Hne He. apply (mp_core _ _ _ _ _ _ _ Hs); [done|]. by eapply entry_user_page. Qed.
Lemma map_present t v p : ¬ (t = t0 ∧ v = v0) → entry s t v = Some p → present s' t v = present s t v.
Proof using Hs Hp. intros Hne He. unfold present. by eapply core_P, map_core. Qed.
Lemma map_kaddr t v p : ¬ (t = t0 ∧ v = v0) → entry s t v = Some p → kaddr s' t v = kaddr s t v.
Proof using Hs Hp. intros Hne He. unfold kaddr. by erewrite core_frame by by eapply map_core. Qed.
Lemma map_frame_bytes t v p : ¬ (t = t0 ∧ v = v0) → entry s t v = Some p → present s t v = true →
  frame_bytes s' t v = frame_bytes s t v.
Proof using Hs Hp. intros Hne He Hpr. unfold frame_bytes at 1. rewrite (map_kaddr t v p) by done. by eapply mp_bytes. Qed.
Lemma map_file_bytes p : file_bytes s' p = file_bytes s p.
Proof using Hs.
  unfold file_bytes. rewrite (sf_inode _ _ (mp_files _ _ _ _ _ _ _ Hs)). destruct (inode_of (files s) (file_of p)) as [i|]; [|done].
  simpl. by rewrite (sf_contents _ _ (mp_files _ _ _ _ _ _ _ Hs)).
Qed.
Lemma map_backed p : backed s p → backed s' p.
Proof using Hs.
  intros (i & d & Hi & Hd & Hl). exists i, d.
  by rewrite (sf_inode _ _ (mp_files _ _ _ _ _ _ _ Hs)), (sf_contents _ _ (mp_files _ _ _ _ _ _ _ Hs)).
Qed.

Lemma map_holds t v p : ¬ (t = t0 ∧ v = v0) → entry s t v = Some p → holds s' t v p = holds s t v p.
Proof using Hs Hp.
  intros Hne He. unfold holds. rewrite (map_present t v p) by done. destruct (present s t v) eqn:E.
  - by apply (map_frame_bytes t v p).
  - by rewrite (mp_disk _ _ _ _ _ _ _ Hs), map_file_bytes.
Qed.
Lemma map_holds_new : holds s' t0 v0 p1 = page_bytes (mram (mm s')) k.
Proof using Hs. unfold holds. destruct (mp_pte _ _ _ _ _ _ _ Hs) as (-> & <- & _). done. Qed.

(** The page that was faulted in, if it had its bytes before. *)
Lemma map_same_pages p0 : entry s t0 v0 = Some p0 →
  take (extent p0) (page_bytes (mram (mm s')) k) = take (extent p0) (holds s t0 v0 p0) → same_pages s s'.
Proof using Hs Hp.
  intros He0 Hb t v. destruct (decide (t = t0 ∧ v = v0)) as [[-> ->]|Hne].
  - unfold kept_page. rewrite He0. pose proof (mp_old _ _ _ _ _ _ _ Hs) as Ho. rewrite He0 in Ho. destruct Ho as (_ & i & Ep1).
    exists false, i. rewrite <- Ep1. split; [apply map_entry_eq|]. by rewrite map_holds_new.
  - apply kept_page_intro; [by apply map_entry_ne|]. intros p. by apply map_holds.
Qed.

(** The element is new. *)
Lemma map_fresh : frames (mvm s) !! e0 = None ∧ e0 ∉ frame_table (mvm s).
Proof using Hs Hp.
  destruct (mp_malloc _ _ _ _ _ _ _ Hs) as (n & i & _ & Hi & _). destruct (pg_mallocs _ _ s Hp i e0 Hi) as [_ Hn].
  split; [done|]. intros Hin. destruct (vi_frames _ _ (pg_vm _ _ s Hp) e0 Hin) as (f & Hf & _). congruence.
Qed.
(** A frame of the new table is the new one or one of the old table. *)
Lemma map_frame e f : e ∈ frame_table (mvm s') → frames (mvm s') !! e = Some f →
  (e = e0 ∧ f = mkFrame t0 (pd_of s t0) v0) ∨
  (e ∈ frame_table (mvm s) ∧ frames (mvm s) !! e = Some f ∧ ¬ (pd_thread f = t0 ∧ fe_vaddr f = v0)).
Proof using Hs Hp.
  rewrite (mp_table _ _ _ _ _ _ _ Hs), (mp_frames _ _ _ _ _ _ _ Hs). intros Hin Hf. destruct map_fresh as [_ Hn].
  destruct (decide (e = e0)) as [->|Hne].
  - left. rewrite lookup_insert_eq in Hf. by simplify_eq.
  - right. rewrite lookup_insert_ne in Hf by done.
    assert (e ∈ frame_table (mvm s)) as Hin' by (apply elem_of_app in Hin as [?|?%list_elem_of_singleton]; done).
    splits; [done|done|]. intros [<- <-]. destruct (pg_frame _ _ s Hp e f Hin' Hf) as (p & _ & He & Hpr & _).
    pose proof (mp_old _ _ _ _ _ _ _ Hs) as Ho. rewrite He in Ho. destruct Ho. congruence.
Qed.
Lemma map_frame_old e f : e ∈ frame_table (mvm s) → frames (mvm s) !! e = Some f →
  e ∈ frame_table (mvm s') ∧ frames (mvm s') !! e = Some f.
Proof using Hs Hp.
  intros Hin Hf. destruct map_fresh as [Hn _]. rewrite (mp_table _ _ _ _ _ _ _ Hs), (mp_frames _ _ _ _ _ _ _ Hs).
  rewrite lookup_insert_ne by congruence. split; [|done]. apply elem_of_app. by left.
Qed.

Lemma map_paging : paging s'.
Proof using Hs Hp.
  pose proof (mp_pte _ _ _ _ _ _ _ Hs) as (Hpr0 & Hk0 & HW0). pose proof (mp_frame _ _ _ _ _ _ _ Hs) as (Hal0 & Hu0 & Hk_new).
  pose proof (mp_page _ _ _ _ _ _ _ Hs) as [Hok Hout]. pose proof (mp_old _ _ _ _ _ _ _ Hs) as Hold.
  pose proof (mp_swap _ _ _ _ _ _ _ Hs) as (b & b' & Eb & Eb' & Hwf & Hcnt & Hmono).
  destruct (pg_swap _ _ s Hp) as (b2 & E2 & _ & Hcap & Hw & Hbits). rewrite Eb in E2. injection E2 as <-.
  split.
  - apply Hs.
  - apply Hs.
  - apply Hs.
  - rewrite (mp_pool _ _ _ _ _ _ _ Hs). apply Hp.
  - intros t pr. rewrite (mp_procs _ _ _ _ _ _ _ Hs), (mp_base _ _ _ _ _ _ _ Hs). apply Hp.
  - intros t. rewrite (mp_tables _ _ _ _ _ _ _ Hs), (mp_procs _ _ _ _ _ _ _ Hs). apply Hp.
  - intros t t'. rewrite !map_pd, (mp_procs _ _ _ _ _ _ _ Hs). apply Hp.
  - intros t v p [(-> & -> & ->)|[Hne He]]%map_cases; [done|by eapply pg_page].
  - intros t v p [(-> & -> & ->)|[Hne He]]%map_cases.
    + rewrite Hpr0, map_pd, (mp_table _ _ _ _ _ _ _ Hs), (mp_frames _ _ _ _ _ _ _ Hs). split; [done|]. exists e0.
      rewrite lookup_insert_eq. split; [|done]. apply elem_of_app. right. by left.
    + pose proof (pg_where _ _ s Hp t v p He) as Hwh. rewrite (map_present t v p) by done. rewrite map_pd.
      destruct (present s t v).
      * destruct Hwh as (? & e & Hin & Hf). split; [done|]. exists e. by apply map_frame_old.
      * destruct Hwh as [?|?]; [by left|right]. by apply map_backed.
  - intros e f Hin Hf. destruct (map_frame e f Hin Hf) as [[-> ->]|(Hin' & Hf' & Hne)]; cbn [pd_thread fe_vaddr].
    + exists p1. rewrite map_pd, map_entry_eq, Hk0. by splits.
    + destruct (pg_frame _ _ s Hp e f Hin' Hf') as (p & Ef & He & Hpr & Hal & Hu & HW). exists p.
      rewrite map_pd, map_entry_ne, (map_present _ _ p), (map_kaddr _ _ p) by done.
      erewrite (core_W (pte_at s' _ _)) by by eapply map_core. splits; try done. by eapply mp_bytes.
  - assert (∀ e f, e ∈ frame_table (mvm s) → frames (mvm s) !! e = Some f → ¬ (pd_thread f = t0 ∧ fe_vaddr f = v0) →
      kaddr s' (pd_thread f) (fe_vaddr f) = k → False) as Hno.
    { intros e f Hin Hf Hne. destruct (pg_frame _ _ s Hp e f Hin Hf) as (p & _ & He & Hpr & _).
      rewrite (map_kaddr _ _ p) by done. by apply (Hk_new _ _ p). }
    intros e e' f f' Hin Hin' Hf Hf' Hk. destruct (map_frame e f Hin Hf) as [[-> ->]|(Hin1 & Hf1 & Hne)],
      (map_frame e' f' Hin' Hf') as [[-> ->]|(Hin1' & Hf1' & Hne')]; cbn [pd_thread fe_vaddr] in Hk.
    + done.
    + destruct (Hno e' f'); try done. congruence.
    + destruct (Hno e f); try done. congruence.
    + destruct (pg_frame _ _ s Hp e f Hin1 Hf1) as (p & _ & He & _).
      destruct (pg_frame _ _ s Hp e' f' Hin1' Hf1') as (p' & _ & He' & _).
      rewrite (map_kaddr _ _ p), (map_kaddr _ _ p') in Hk by done. by eapply (pg_frames_apart _ _ s Hp).
  - intros t v p He Hm.
    assert (∃ q, entry s t v = Some q ∧ ∃ o i, p = moved q o i) as (q & Hq & o & i & ->).
    { destruct (map_cases t v p He) as [(-> & -> & ->)|[_ ?]].
      - destruct (entry s t0 v0) as [p0|]; [|by destruct Hold; congruence]. destruct Hold as (_ & i & ->). eauto.
      - exists p. split; [done|]. exists (swap_outed p), (swap_index p). by rewrite moved_self. }
    destruct (pg_mmap _ _ s Hp t v q Hq Hm) as (Hb & Hd & Hc). splits.
    + by apply map_backed.
    + intros j. rewrite (sf_inode _ _ (mp_files _ _ _ _ _ _ _ Hs)), (sf_denied _ _ (mp_files _ _ _ _ _ _ _ Hs)). apply Hd.
    + rewrite map_file_bytes. destruct (map_cases t v _ He) as [(-> & -> & Ep)|[Hne He']].
      * rewrite Ep. intros _ _. unfold frame_bytes. rewrite Hk0. apply Hs. by rewrite <- Ep.
      * rewrite (map_present t v q) by done. erewrite (core_D (pte_at s' t v)) by by eapply map_core. intros Hpr HD.
        rewrite (map_frame_bytes t v q) by done. by apply Hc.
  - intros t v p t' v' p' He He' Hne Hm. unfold apart. rewrite !(sf_inode _ _ (mp_files _ _ _ _ _ _ _ Hs)).
    destruct (map_cases t v p He) as [(-> & -> & ->)|[_ H1]], (map_cases t' v' p' He') as [(-> & -> & ->)|[_ H2]].
    + done.
    + destruct (entry s t0 v0) as [p0|] eqn:E0; [|by destruct Hold; congruence]. destruct Hold as (_ & i & ->).
      by apply (pg_apart _ _ s Hp t0 v0 p0 t' v' p').
    + destruct (entry s t0 v0) as [p0|] eqn:E0; [|intros _; right; by right; destruct Hold]. destruct Hold as (_ & i & ->).
      by apply (pg_apart _ _ s Hp t v p t0 v0 p0).
    + by apply (pg_apart _ _ s Hp t v p t' v' p').
  - exists b'. rewrite Hcnt, (mp_disk _ _ _ _ _ _ _ Hs). splits; try done.
    intros t v p [(-> & -> & ->)|[Hne He]]%map_cases Ho; [congruence|]. destruct (Hbits t v p He Ho) as [Hr Hb].
    split; [done|]. destruct (Hmono _ Hb) as [?|(p0 & He0 & Ho0 & Hi)]; [done|]. exfalso. apply Hne.
    by apply (pg_slots _ _ s Hp t v p t0 v0 p0).
  - intros t v p t' v' p' [(-> & -> & ->)|[Hne He]]%map_cases [(-> & -> & ->)|[Hne' He']]%map_cases Ho Ho' Hi;
      [done|congruence|congruence|by eapply (pg_slots _ _ s Hp)].
  - rewrite (mp_disk _ _ _ _ _ _ _ Hs). apply Hp.
  - intros i e Hi. rewrite (mp_frames _ _ _ _ _ _ _ Hs). destruct (mp_malloc _ _ _ _ _ _ _ Hs) as (n & j & Hj & Hj0 & E).
    rewrite E, lookup_drop in Hi. destruct (pg_mallocs _ _ s Hp _ _ Hi). split; [done|].
    rewrite lookup_insert_ne; [done|]. intros ->. assert (j = (n + i)%nat); [|lia]. by eapply (pg_fresh _ _ s Hp).
  - intros i j e. destruct (mp_malloc _ _ _ _ _ _ _ Hs) as (n & _ & _ & _ & ->). rewrite !lookup_drop. intros Hi Hj.
    assert ((n + i)%nat = (n + j)%nat); [|lia]. by eapply (pg_fresh _ _ s Hp).
  - rewrite (mp_table _ _ _ _ _ _ _ Hs). destruct (mp_malloc _ _ _ _ _ _ _ Hs) as (n & j & Hj & Hj0 & ->).
    apply lookup_lt_Some in Hj0. rewrite length_app, length_drop. pose proof (pg_count _ _ s Hp). simpl. lia.
Qed.
End MapIn.
End Moves.
