(* ===== verification/FaultSteps.v ===== *)
(** The steps of the page-fault handler that move no page: each keeps the
    invariant and the bytes of all pages. *)
From S2P Require Import Prelude Cache Descriptor Mem Str Word Bitmap FreeMap Vaddr Palloc Pagedir PagedirInv PagedirOps PagedirSafety Frame FrameClock Page PageFault FaultBytes FaultInv FaultMoves.

(** * Flags outside the core of an entry *)

Lemma core_lor e flag : Z.land flag (Z.lor (Z.lor PTE_P PTE_W) (Z.lor PTE_D PTE_ADDR)) = 0 → core (Z.lor e flag) = core e.
Proof.
  intros Hz. assert (∀ m, Z.land m (Z.lor (Z.lor PTE_P PTE_W) (Z.lor PTE_D PTE_ADDR)) = m → Z.land (Z.lor e flag) m = Z.land e m) as Hl.
  { intros m Hm. rewrite Z.land_lor_distr_l. rewrite <- Hm at 2. rewrite (Z.land_comm m), Z.land_assoc, Hz, Z.land_0_l. apply Z.lor_0_r. }
  unfold core, has, frame. by rewrite !Hl.
Qed.
Lemma core_flag flag value e : flag = PTE_A ∨ flag = PTE_S → core (flag_value flag value e) = core e.
Proof.
  intros Hf. unfold flag_value. destruct value.
  - apply core_lor. by destruct Hf as [-> | ->].
  - unfold core, has, frame. rewrite <- !Z.land_assoc. by destruct Hf as [-> | ->].
Qed.
Lemma core_changed s pd va flag value : flag = PTE_A ∨ flag = PTE_S →
  core (changed s pd va (flag_value flag value)) = core (pte_of s pd va).
Proof.
  intros Hf. unfold changed, pte_of. destruct (pte_slot s pd va); [by apply core_flag|done].
Qed.
Lemma core_not_accessed e : core (not_accessed e) = core e.
Proof. apply (core_flag PTE_A false). by left. Qed.
Lemma core_aged e e' : aged e e' → core e' = core e.
Proof. intros [-> | ->]; [done|apply core_not_accessed]. Qed.

(** * Memory of the user pool *)

Lemma in_use_pool p a : in_use p a = true → in_pool p a = true.
Proof. unfold in_use. by intros [? _]%andb_true_iff. Qed.

(** A page of the user pool lies in it entirely. *)
Lemma user_page_in s k a : kmem_inv s → k mod 4096 = 0 → in_pool (user_pool s) k = true → k <= a < k + 4096 →
  in_pool (user_pool s) a = true ∧ in_pool (kernel_pool s) a = false ∧ PHYS_BASE <= k ∧ k + 4096 <= pool_end (user_pool s) ∧
  pool_end (user_pool s) <= 4294967296.
Proof.
  intros Hi Hk Hin Ha. pose proof (ki_user _ Hi) as [_ Hb Hbase Hend _]. unfold in_pool in Hin.
  apply andb_true_iff in Hin as [Hlo%Z.leb_le Hhi%Z.ltb_lt].
  destruct (aligned_page (user_pool s) k Hb Hk Hlo) as (r & Hr & ->). unfold page_at, pool_end in *.
  assert (in_pool (user_pool s) a = true) as Hina.
  { unfold in_pool, pool_end. apply andb_true_iff. split; [apply Z.leb_le|apply Z.ltb_lt]; lia. }
  splits; [done|exact (in_pool_other s true a Hi Hina)|lia|lia|lia].
Qed.

Lemma user_page_mapped s k : kmem_inv s → k mod 4096 = 0 → in_pool (user_pool s) k = true → mapped (ram s) k 4096.
Proof.
  intros Hi Hk Hin. destruct (user_page_in s k k Hi Hk Hin ltac:(lia)) as (_ & _ & _ & He & _).
  unfold in_pool in Hin. apply andb_true_iff in Hin as [Hlo%Z.leb_le _]. destruct (ki_user _ Hi) as [_ _ _ _ Hm].
  eapply mapped_sub; [exact Hm|lia|unfold pool_end in He; lia].
Qed.

Lemma page_bytes_user u u' k : kmem_inv (km u) → user_same u u' → k mod 4096 = 0 → in_pool (user_pool (km u)) k = true →
  page_bytes (mram u') k = page_bytes (mram u) k.
Proof.
  intros Hi [_ Hm] Hk Hin. apply page_bytes_ext. intros a Ha. apply Hm. by apply (user_page_in (km u) k a Hi Hk Hin).
Qed.

(** A change of the user pool and of its memory, seen from the page tables. *)
Definition kernel_same (k k' : kmem) : Prop :=
  kernel_pool k' = kernel_pool k ∧ ∀ a, in_pool (kernel_pool k) a = true → ram k' !! a = ram k !! a.

Section UserChange.
Context (u : mmu) (pds : gset Z) (Hu : mmu_inv u pds) (k' : kmem) (Hk : kmem_inv k') (Hs : kernel_same (km u) k').

Lemma kernel_kpage pg : kpage u pg ↔ kpage (set_km k' u) pg.
Proof using Hs. unfold kpage, kernel_page. cbn [km set_km]. by rewrite (proj1 Hs). Qed.

Lemma kernel_rd pg i : kpage u pg → 0 <= i < 1024 → rd32 (mram (set_km k' u)) (pg + 4 * i) = rd32 (mram u) (pg + 4 * i).
Proof using Hs Hu.
  intros [Hal Huse] Hr. apply rd32_ext. intros a Ha. apply Hs. apply in_use_pool in Huse.
  pose proof (mo_inv _ _ (mi_mm _ _ Hu)) as [[_ Hb _ _ _] _ _ _]. unfold in_pool in *.
  apply andb_true_iff in Huse as [Hlo%Z.leb_le Hhi%Z.ltb_lt].
  destruct (aligned_page (kernel_pool (km u)) pg Hb Hal Hlo) as (r & ? & ->). unfold page_at, pool_end in *.
  apply andb_true_iff. split; [apply Z.leb_le|apply Z.ltb_lt]; lia.
Qed.

Lemma kernel_pde pd i : pd ∈ pds → 0 <= i < 1024 → pde_at (set_km k' u) pd i = pde_at u pd i.
Proof using Hs Hu. intros Hpd Hi. apply kernel_rd; [by apply (mi_mm _ _ Hu)|done]. Qed.

Lemma kernel_pte pd va : pd ∈ pds → uaddr va → pte_of (set_km k' u) pd va = pte_of u pd va.
Proof using Hs Hu.
  intros Hpd Hva. pose proof (pd_no_user va Hva). unfold pte_of.
  assert (pte_slot (set_km k' u) pd va = pte_slot u pd va) as ->.
  { unfold pte_slot. by rewrite kernel_pde by (done || lia). }
  destruct (pte_slot u pd va) as [a|] eqn:Ea; [|done].
  destruct (slot_table u pds (mi_mm _ _ Hu) pd va a) as (pt & _ & Hkp & _ & ->); [done..|].
  apply kernel_rd; [done|by apply pt_no_user].
Qed.

Lemma kernel_mmu_inv : mmu_inv (set_km k' u) pds.
Proof using Hs Hu Hk.
  destruct Hu as [[Hi Hpd Hb Hn Hpt Hinj Hke] Ha Hc]. split.
  - split.
    + done.
    + intros pd Hin. by apply kernel_kpage, Hpd.
    + done.
    + intros i Hr. cbn [base_page_dir set_km]. rewrite kernel_pde by (done || lia). by apply Hn.
    + intros pd i Hin Hr. rewrite kernel_pde by (done || lia). intros Hnz. destruct (Hpt pd i Hin Hr Hnz) as (pt & ? & ? & ?).
      exists pt. splits; try done. by apply kernel_kpage.
    + intros pd1 i1 pd2 i2 ????. rewrite !kernel_pde by (done || lia). by apply Hinj.
    + intros pd i Hin Hr. cbn [base_page_dir set_km]. rewrite !kernel_pde by (done || lia). by apply Hke.
  - done.
  - intros v e Hv. destruct (Hc v e Hv) as (? & ? & Hvis). split; [done|]. split; [done|].
    change (active (set_km k' u)) with (active u). by rewrite kernel_pte.
Qed.
Lemma kernel_no_table pd va : pd ∈ pds → uaddr va → no_table u pd va → no_table (set_km k' u) pd va.
Proof using Hs Hu.
  intros Hpd Hva [Hz Hex]. pose proof (pd_no_user va Hva). split; [by rewrite kernel_pde by (done || lia)|].
  cbn [km set_km]. by rewrite (proj1 Hs).
Qed.
End UserChange.

(** * Steps of the handler *)

Section Steps.
Context {D F : Type} `{Disk D} {DL : DiskLaws D} `{Files F} {FL : FilesLaws F} (ram_pages : Z) (pds : gset Z).
Abbreviation machine := (PageFault.machine D F).
Abbreviation paging := (paging ram_pages pds).
Abbreviation stable := (stable pds).
Implicit Types (s : machine) (t v : Z) (p : page).

Lemma paging_mmu s : paging s → mmu_inv (mm s) pds.
Proof using. intros Hp. apply (pg_vm _ _ s Hp). Qed.
Lemma paging_kmem s : paging s → kmem_inv (km (mm s)).
Proof using. intros Hp. apply (mi_mm _ _ (paging_mmu s Hp)). Qed.

Lemma vm_inv_mmu w u : vm_inv w pds → mmu_inv u pds → vm_inv (set_mmu u w) pds.
Proof using. intros [] ?. by split. Qed.

(** A change of the memory management unit and of the memory. *)
Lemma stable_mm s u : paging s → mmu_inv u pds → base_page_dir u = base_page_dir (mm s) →
  pool_end (user_pool (km u)) = pool_end (user_pool (km (mm s))) →
  (∀ pd va, pd ∈ pds → uaddr va → core (pte_of u pd va) = core (pte_of (mm s) pd va)) →
  (∀ t v p, entry s t v = Some p → present s t v = true →
     in_use (user_pool (km u)) (kaddr s t v) = true ∧ page_bytes (mram u) (kaddr s t v) = frame_bytes s t v) →
  stable s (with_mm u s).
Proof using.
  intros Hp Hu Hb He Hc Hby. split; try done.
  - by apply vm_inv_mmu; [apply Hp|].
  - apply Hp.
  - intros t pr Hpr. by apply (pg_proc _ _ s Hp t pr Hpr).
  - apply same_files_refl, Hp.
  - by exists 0%nat.
Qed.

(** An operation on one entry that keeps its core. *)
Lemma stable_step s u pd va w : paging s → pd ∈ pds → uaddr va → mmu_inv u pds → entry_step pds pd va w (mm s) u →
  core w = core (pte_of (mm s) pd va) → stable s (with_mm u s).
Proof using.
  intros Hp Hpd Hva Hu [_ Hup Hb _ Hus] Hw. apply stable_mm; try done.
  - by rewrite (proj1 Hus).
  - intros pd' va' Hpd' Hva'. rewrite Hup by done. case_decide as Hd; [|done]. destruct Hd as [-> Hpg].
    rewrite Hw. unfold pte_of, pte_slot. apply same_page in Hpg as [-> ->]; done.
  - intros t v p He Hpr. destruct (present_kaddr _ _ s t v p Hp He Hpr) as [Hal Hin]. rewrite (proj1 Hus). split; [done|].
    apply page_bytes_user; [by apply paging_kmem|done|done|by apply in_use_pool].
Qed.

(** A change of the user pool. *)
Lemma stable_user s k' : paging s → kmem_inv k' → kernel_same (km (mm s)) k' →
  pool_end (user_pool k') = pool_end (user_pool (km (mm s))) →
  (∀ t v p, entry s t v = Some p → present s t v = true →
     in_use (user_pool k') (kaddr s t v) = true ∧ page_bytes (ram k') (kaddr s t v) = frame_bytes s t v) →
  stable s (with_mm (set_km k' (mm s)) s).
Proof using.
  intros Hp Hk Hs He Hb. pose proof (paging_mmu s Hp) as Hu. apply stable_mm; try done.
  - by apply kernel_mmu_inv.
  - intros pd va Hpd Hva. f_equal. by apply (kernel_pte (mm s) pds).
Qed.

(** ** Frames that hold no page *)

Definition spare s (k : Z) : Prop :=
  k mod 4096 = 0 ∧ in_use (user_pool (km (mm s))) k = true ∧
  ∀ t v p, entry s t v = Some p → present s t v = true → kaddr s t v ≠ k.

Lemma spare_addr s k : paging s → spare s k → frame_addr ram_pages k ∧ k ≠ NULL ∧ mapped (mram (mm s)) k 4096.
Proof using.
  intros Hp (Hal & Hu & _). apply in_use_pool in Hu. pose proof (paging_kmem s Hp) as Hi.
  destruct (user_page_in _ k k Hi Hal Hu ltac:(lia)) as (_ & _ & Hb & He & Hend). pose proof (pg_ram _ _ s Hp).
  splits; [|unfold NULL, PHYS_BASE in *; lia|by apply user_page_mapped]. unfold frame_addr. splits; try done; lia.
Qed.

(** Pages are whole frames apart. *)
Lemma pages_disjoint k k' a : k mod 4096 = 0 → k' mod 4096 = 0 → k ≠ k' → k <= a < k + 4096 → a < k' ∨ k' + 4096 <= a.
Proof using. intros Hk Hk' Hne Ha. pose proof (Z.div_mod k 4096). pose proof (Z.div_mod k' 4096). lia. Qed.

Lemma kernel_same_put k a0 bs q : kmem_inv k → q mod 4096 = 0 → in_pool (user_pool k) q = true → q <= a0 →
  a0 + Z.of_nat (length bs) <= q + 4096 → kernel_same k (set_ram (put_bytes a0 bs (ram k)) k).
Proof using.
  intros Hi Hal Hin Hlo Hhi. split; [done|]. intros a Ha. cbn [ram set_ram]. apply put_bytes_ne.
  destruct (decide (q <= a < q + 4096)) as [Hr|]; [|lia].
  destruct (user_page_in k q a Hi Hal Hin Hr) as (_ & Hno & _). congruence.
Qed.

(** Storing into a frame that holds no page. *)
Lemma store_spare s k o bs : paging s → spare s k → Forall is_u8 bs → (o + length bs <= 4096)%nat →
  let s' := with_ram (put_bytes (k + Z.of_nat o) bs (mram (mm s))) s in
  on_mem (store_bytes (k + Z.of_nat o) bs) s = Ok ((), s') ∧ stable s s' ∧ spare s' k ∧
  page_bytes (mram (mm s')) k = splice (page_bytes (mram (mm s)) k) bs o.
Proof using.
  intros Hp Hsp Hu8 Hl s'. pose proof Hsp as (Hal & Hu & Hno). pose proof (paging_kmem s Hp) as Hi.
  destruct (spare_addr s k Hp Hsp) as (_ & _ & Hm). splits.
  - apply on_mem_Ok, store_bytes_Ok; [done|]. eapply mapped_sub; [exact Hm|lia|lia].
  - apply stable_user; [done| | |done|].
    + by apply kmem_inv_set_ram.
    + apply (kernel_same_put _ _ _ k); [done|done|by apply in_use_pool|lia|lia].
    + intros t v p He Hpr. destruct (present_kaddr _ _ s t v p Hp He Hpr) as [Hal' Hu']. split; [done|].
      unfold frame_bytes. apply page_bytes_ext. intros a Ha. apply put_bytes_ne.
      pose proof (pages_disjoint _ k a Hal' Hal (Hno t v p He Hpr) Ha). lia.
  - split; [done|]. split; [done|]. intros t v p He Hpr.
    assert (pte_at s' t v = pte_at s t v) as Ep.
    { destruct (entry_pd _ _ s t v p Hp He) as (Hpd & Hva & _).
      apply (kernel_pte (mm s) pds (paging_mmu s Hp)); [|done|done].
      apply (kernel_same_put _ _ _ k); [done|done|by apply in_use_pool|lia|lia]. }
    unfold kaddr, present in *. rewrite Ep in *. by apply (Hno t v p).
  - by apply page_bytes_put.
Qed.

(** What the allocator fills a page with. *)
Lemma filler (b : Z) : ∃ zs, replicate (Z.to_nat (4096 * 1)) b = zs ∧ Z.of_nat (length zs) = 4096.
Proof using. eexists. split; [reflexivity|]. by rewrite length_replicate. Qed.

(** Giving it back. *)
Lemma free_spare s k : paging s → spare s k →
  ∃ s', on_pm (on_km (palloc_free_page k)) s = Ok ((), s') ∧ stable s s' ∧
    ∃ k', s' = with_mm (set_km k' (mm s)) s ∧ kernel_same (km (mm s)) k'.
Proof using.
  intros Hp (Hal & Hu & Hno). pose proof (paging_kmem s Hp) as Hi.
  destruct (palloc_free_pool (km (mm s)) true k 1 Hi ltac:(lia) Hal) as (k' & E & Hi' & Hb & He & Huse & Hkp & Hram).
  { intros i Hr. replace i with 0 by lia. by rewrite Z.add_0_r. }
  destruct (filler 204) as (zs & Ez & Hz). rewrite Ez in Hram. clear Ez.
  cbn [get_pool negb] in *. assert (kernel_same (km (mm s)) k') as Hks.
  { split; [exact Hkp|]. intros a Ha. rewrite Hram.
    apply (kernel_same_put (km (mm s)) k zs k); [exact Hi|exact Hal|by apply in_use_pool|lia|lia|exact Ha]. }
  eexists. split; [apply on_pm_Ok, on_km_Ok; exact E|]. split; [|by exists k'].
  apply stable_user; [exact Hp|exact Hi'|exact Hks|exact He|].
  - intros t v p Hen Hpr. destruct (present_kaddr _ _ s t v p Hp Hen Hpr) as [Hal' Hu'].
    pose proof (Hno t v p Hen Hpr) as Hne. split.
    + rewrite Huse, Hu', andb_true_r. apply negb_true_iff.
      destruct (pages_disjoint _ k (kaddr s t v) Hal' Hal Hne ltac:(lia)); bcases; simpl; done || lia.
    + unfold frame_bytes. apply page_bytes_ext. intros a Ha. rewrite Hram. apply put_bytes_ne.
      pose proof (pages_disjoint _ k a Hal' Hal Hne Ha). lia.
Qed.

Lemma page_bytes_zeroed m k (zs : list Z) : replicate (Z.to_nat (4096 * 1)) 0 = zs → page_bytes (put_bytes k zs m) k = replicate 4096 0.
Proof using.
  intros <-. rewrite <- (Z.add_0_r k) at 1. change 0 with (Z.of_nat 0) at 1.
  assert (Z.to_nat (4096 * 1) = 4096%nat) as -> by reflexivity. rewrite page_bytes_put by (rewrite length_replicate; lia).
  unfold splice. rewrite length_replicate, drop_ge by (rewrite page_bytes_length; lia). by rewrite app_nil_r.
Qed.

(** Taking a frame from the pool. *)
Definition PAL_USER_ZERO : Z := Z.lor PAL_USER PAL_ZERO.
Lemma take_frame s : paging s →
  (∃ k s', on_pm (on_km (palloc_get_page PAL_USER_ZERO)) s = Ok (k, s') ∧ k ≠ NULL ∧ stable s s' ∧ spare s' k ∧
     page_bytes (mram (mm s')) k = replicate 4096 0 ∧ ∃ u, s' = with_mm u s) ∨
  on_pm (on_km (palloc_get_page PAL_USER_ZERO)) s = Ok (NULL, s).
Proof using.
  intros Hp. pose proof (paging_kmem s Hp) as Hi.
  destruct (palloc_get_page_cases (km (mm s)) PAL_USER_ZERO Hi eq_refl) as [(k & k' & E & Hg)|E]; [left|right].
  2: { rewrite <- (with_mm_same s) at 2. rewrite <- (set_km_same (mm s)). by apply on_pm_Ok, on_km_Ok. }
  pose proof E as E'. apply palloc_get_pool with (user := true) in E' as (Hb & He & _); [|done|lia].
  destruct Hg as (Hn & Hi' & Hal & Hin & Hfree & Huse & Hkp & Hram). cbn [get_pool negb] in *.
  change (has PAL_USER_ZERO PAL_USER) with true in *. cbn [get_pool negb] in *.
  unfold zeroed in Hram. change (has PAL_USER_ZERO PAL_ZERO) with true in Hram. cbv iota in Hram.
  destruct (filler 0) as (zs & Ez & Hz). rewrite Ez in Hram. pose proof (page_bytes_zeroed (ram (km (mm s))) k zs Ez) as Hzero. clear Ez.
  assert (kernel_same (km (mm s)) k') as Hks.
  { split; [exact Hkp|]. intros a Ha. rewrite Hram.
    apply (kernel_same_put (km (mm s)) k zs k); [exact Hi|exact Hal|exact Hin|lia|lia|exact Ha]. }
  assert (∀ t v p, entry s t v = Some p → present s t v = true → kaddr s t v ≠ k) as Hno.
  { intros t v p Hen Hpr Heq. destruct (present_kaddr _ _ s t v p Hp Hen Hpr) as [_ Hu']. congruence. }
  exists k. eexists. split; [apply on_pm_Ok, on_km_Ok; exact E|]. split; [done|]. split; [|split; [|split; [|by eexists]]].
  - apply stable_user; [exact Hp|exact Hi'|exact Hks|exact He|]. intros t v p Hen Hpr.
    destruct (present_kaddr _ _ s t v p Hp Hen Hpr) as [Hal' Hu'].
    split; [by rewrite Huse, Hu', orb_true_r|]. unfold frame_bytes. apply page_bytes_ext. intros a Ha. rewrite Hram.
    apply put_bytes_ne. pose proof (pages_disjoint _ k a Hal' Hal (Hno t v p Hen Hpr) Ha). lia.
  - split; [done|]. split.
    { change (in_use (user_pool k') k = true). rewrite Huse, Z.leb_refl, (proj2 (Z.ltb_lt k (k + 4096))) by lia. reflexivity. }
    intros t v p Hen Hpr. destruct (entry_pd _ _ s t v p Hp Hen) as (Hpd & Hva & _).
    assert (pte_at (with_mm (set_km k' (mm s)) s) t v = pte_at s t v) as Ep by
      exact (kernel_pte (mm s) pds (paging_mmu s Hp) k' Hks (pd_of s t) v Hpd Hva).
    unfold kaddr, present in *. rewrite Ep in *. by apply (Hno t v p).
  - change (page_bytes (ram k') k = replicate 4096 0). rewrite Hram. exact Hzero.
Qed.

(** ** Messages, counters, [malloc] *)

Lemma stable_same s s' : paging s → mvm s' = mvm s → procs s' = procs s → tables s' = tables s →
  swap_disk s' = swap_disk s → files s' = files s → later s s' → stable s s'.
Proof using.
  intros Hp Hv Hpr Ht Hd Hf Hl. assert (∀ t, pd_of s' t = pd_of s t) as Hpd by (intros t; unfold pd_of; by rewrite Hpr).
  split; unfold mm; rewrite ?Hv, ?Hpr, ?Ht, ?Hd, ?Hf; try done.
  - apply Hp.
  - apply Hp.
  - intros t pr Hpp. by apply (pg_proc _ _ s Hp t pr Hpp).
  - apply same_files_refl, Hp.
  - intros t v p He Hp'. split; [|done]. by apply (present_kaddr ram_pages pds s t v p).
Qed.
Lemma stable_refl s : paging s → stable s s.
Proof using. intros Hp. apply stable_same; try done. apply later_refl. Qed.
Lemma stable_say s m : paging s → stable s (say m s).
Proof using. intros Hp. apply stable_same; try done. by exists 0%nat. Qed.
Lemma stable_count s : paging s → stable s (count_fault s).
Proof using. intros Hp. apply stable_same; try done. by exists 0%nat. Qed.
Lemma stable_malloc s r l : paging s → mallocs s = r :: l → stable s (set_mallocs l s).
Proof using. intros Hp E. apply stable_same; try done. exists 1%nat. by rewrite E. Qed.

Lemma malloc_Ok s r l : mallocs s = r :: l → malloc s = Ok (r, set_mallocs l s).
Proof using. intros E. unfold malloc. rewrite getS_step. by rewrite E. Qed.

Lemma get_table_Ok s t : is_Some (tables s !! t) → ∃ m, get_table t s = Ok (m, s) ∧ tables s !! t = Some m ∧ ∀ v, m !! v = entry s t v.
Proof using.
  intros [m Hm]. exists m. unfold get_table, entry. rewrite getS_step. rewrite Hm. done.
Qed.

Lemma spt_lookup_Ok s t a e l : is_Some (tables s !! t) → mallocs s = Some e :: l →
  spt_lookup a t s = Ok (entry s t (pg_round_down a), set_mallocs l s).
Proof using.
  intros Ht E. destruct (get_table_Ok s t Ht) as (m & Em & _ & Hm). unfold spt_lookup.
  rewrite (M_bind_step _ _ _ _ _ Em), (M_bind_step _ _ _ _ _ (malloc_Ok s _ _ E)). by rewrite <- Hm.
Qed.

Lemma get_proc_Ok s t pr : procs s !! t = Some pr → get_proc t s = Ok (pr, s).
Proof using. intros E. unfold get_proc. rewrite getS_step. by rewrite E. Qed.

(** ** The stack pointer *)

Lemma round_user va : uaddr va → uaddr (pg_round_down va) ∧ pg_round_down va mod 4096 = 0.
Proof using.
  intros Hva. rewrite pg_round_down_sub by by apply uaddr_u32. unfold uaddr, PHYS_BASE in *.
  pose proof (Z.div_mod va 4096). pose proof (Z.mod_pos_bound va 4096).
  replace (va - va mod 4096) with (va / 4096 * 4096) by lia. rewrite Z.mod_mul by lia. lia.
Qed.

Lemma flag_step s pd va flag value : paging s → pd ∈ pds → uaddr va → flag = PTE_A ∨ flag = PTE_S →
  ∃ u, assign_flag pd va flag value (mm s) = Ok ((), u) ∧ stable s (with_mm u s).
Proof using.
  intros Hp Hpd Hva Hf. pose proof (paging_mmu s Hp) as Hu.
  assert (is_u32 flag ∧ Z.land flag 4294963207 = 0) as [H32 Hz] by (destruct Hf as [-> | ->]; by split; [by unfold is_u32|]).
  destruct (assign_flag_Ok (mm s) pds pd va flag value Hu Hpd Hva H32) as (u & E & Hs & _). exists u. split; [done|].
  eapply stable_step; [done|done|done| |done|by apply core_changed]. by eapply assign_flag_inv.
Qed.

(** The stack pointer that the handler goes by. *)
Definition new_esp (pr : proc) (f : intr_frame) : Z := if is_user_vaddr (esp f) then esp f else user_esp pr.

Lemma note_esp_Ok s cur pr f : paging s → procs s !! cur = Some pr → 0 <= esp f →
  ∃ s', note_esp cur f s = Ok ((), s') ∧ stable s s' ∧ mallocs s' = mallocs s ∧ log s' = log s ∧
    procs s' !! cur = Some (mkProc (pagedir pr) (new_esp pr f)).
Proof using.
  intros Hp Hpr Hesp. destruct (pg_proc _ _ s Hp cur pr Hpr) as (Hpd & _ & Hue & _). unfold note_esp.
  rewrite (M_bind_step _ _ _ _ _ (get_proc_Ok s cur pr Hpr)).
  assert (∀ s1 pr1, stable s s1 → mallocs s1 = mallocs s → log s1 = log s → procs s1 !! cur = Some pr1 →
    ∃ s', (tcurrent ← get_proc cur; check (is_user_vaddr (user_esp tcurrent))) s1 = Ok ((), s') ∧
      stable s s' ∧ mallocs s' = mallocs s ∧ log s' = log s ∧ procs s' !! cur = Some pr1) as Hend.
  { intros s1 pr1 H1 Hm Hl Hpr1.
    exists s1. splits; try done. rewrite (M_bind_step _ _ _ _ _ (get_proc_Ok s1 cur pr1 Hpr1)).
    apply check_true, Z.ltb_lt. apply (st_esp _ _ _ H1 cur pr1 Hpr1). }
  unfold new_esp. destruct (is_user_vaddr (esp f)) eqn:Eu.
  2: { rewrite (M_bind_step _ _ s () s) by done. apply Hend; try done; [by apply stable_refl|]. by destruct pr. }
  apply Z.ltb_lt in Eu. assert (uaddr (esp f)) as He by by split.
  assert (∃ u, set_new_dirty_page (esp f) (pagedir pr) (user_esp pr) (mm s) = Ok (esp f, u) ∧ stable s (with_mm u s))
    as (u & E & Hst).
  { unfold set_new_dirty_page. assert (is_user_vaddr (esp f) = true) as -> by by apply Z.ltb_lt.
    destruct (Z.eqb_spec (user_esp pr) (esp f)) as [->|_]; cbn [negb andb].
    { exists (mm s). rewrite with_mm_same. split; [done|]. by apply stable_refl. }
    destruct (flag_step s (pagedir pr) (pg_round_down (user_esp pr)) PTE_S false) as (u1 & E1 & H1); [done|done|by apply round_user|by right|].
    pose proof (stable_paging _ _ _ _ Hp H1) as Hp1.
    destruct (flag_step (with_mm u1 s) (pagedir pr) (pg_round_down (esp f)) PTE_S true) as (u2 & E2 & H2); [done|done|by apply round_user|by right|].
    exists u2. unfold pagedir_set_stack. rewrite (M_bind_step _ _ _ _ _ E1). change (mm (with_mm u1 s)) with u1 in E2.
    rewrite (M_bind_step _ _ _ _ _ E2). split; [done|]. by eapply stable_trans. }
  pose proof (stable_paging _ _ _ _ Hp Hst) as Hp1.
  rewrite (M_bind_step _ _ s () (set_procs (<[cur := mkProc (pagedir pr) (esp f)]> (procs s)) (with_mm u s))).
  2: { erewrite M_bind_step by by apply on_pm_Ok. done. }
  apply Hend; [|done|done|apply lookup_insert_eq]. eapply stable_trans; [done|exact Hst|].
  assert (∀ t, pd_of (set_procs (<[cur := mkProc (pagedir pr) (esp f)]> (procs s)) (with_mm u s)) t = pd_of s t) as Hpds.
  { intros t. unfold pd_of. cbn [procs set_procs]. destruct (decide (t = cur)) as [->|]; [by rewrite lookup_insert_eq, Hpr|].
    by rewrite lookup_insert_ne. }
  pose proof (stable_refl _ Hp1) as [? ? ? ? ? ? ? ? ? ? ? ? ? ? ? ?]. split; try done.
  - intros t. cbn [procs set_procs with_mm set_mvm]. destruct (decide (t = cur)) as [->|]; [rewrite lookup_insert_eq, Hpr|by rewrite lookup_insert_ne].
    split; eauto.
  - intros t pr'. cbn [procs set_procs]. destruct (decide (t = cur)) as [->|]; [rewrite lookup_insert_eq; by intros [= <-]|].
    rewrite lookup_insert_ne by done. intros Hpp. by apply (pg_proc _ _ s Hp t pr' Hpp).
Qed.
End Steps.
