(* ===== verification/FaultEvict.v ===== *)
(** Making room: the swap-out branch of the page-fault handler takes the page
    that the clock chooses out of its frame, to the swap disk or to its file,
    and the bytes of every page stay what they are. *)
From S2P Require Import Prelude Cache Descriptor Mem Str Word Bitmap FreeMap Vaddr Palloc Pagedir PagedirInv PagedirOps PagedirSafety Frame FrameClock Page PageFault FaultBytes FaultInv FaultMoves FaultSteps.

Lemma bget_pos b i : bget b i = true → 0 <= i.
Proof.
  unfold bget, zget. destruct (Z.ltb_spec (i / 32) 0); [done|]. intros _.
  pose proof (Z.div_mod i 32). pose proof (Z.mod_pos_bound i 32). lia.
Qed.

(** * Clearing an entry *)

(** The entry of [va] is not present any more; every other entry has the same
    core, and the memory of user programs is as it was. *)
Record clears (pds : gset Z) (pd va : Z) (u u' : mmu) : Prop := {
  cl_inv : mmu_inv u' pds;
  cl_base : base_page_dir u' = base_page_dir u;
  cl_user : user_same u u';
  cl_gone : has (pte_of u' pd va) PTE_P = false;
  cl_core : ∀ pd' va', pd' ∈ pds → uaddr va' → ¬ (pd' = pd ∧ pg_no va' = pg_no va) →
    core (pte_of u' pd' va') = core (pte_of u pd' va')
}.

Lemma clear_present_P e : has (clear_present e) PTE_P = false.
Proof.
  unfold clear_present. destruct (has e PTE_P) eqn:E; [|done]. unfold has. rewrite <- Z.land_assoc. by rewrite Z.land_0_r.
Qed.
Lemma changed_clear_P u pd va : has (changed u pd va clear_present) PTE_P = false.
Proof. unfold changed. destruct (pte_slot u pd va); [apply clear_present_P|done]. Qed.

(** [pagedir_get_page] followed by [pagedir_clear_page]. *)
Lemma get_and_clear u pds pd va : mmu_inv u pds → pd ∈ pds → uaddr va → va mod 4096 = 0 →
  frame (pte_of u pd va) + 4096 <= 1073741824 →
  ∃ u1 u2, pagedir_get_page pd va u = Ok (default NULL (translate u pd va), u1) ∧
    pagedir_clear_page pd va u1 = Ok ((), u2) ∧ clears pds pd va u u2 ∧ has (pte_of u2 pd va) PTE_D = has (pte_of u pd va) PTE_D.
Proof.
  intros Hu Hpd Hva Hal Hfr. destruct (pagedir_get_page_Ok u pds pd va Hu Hpd Hva (λ _, Hfr)) as (u1 & E1 & H1 & Hu1).
  destruct (pagedir_clear_page_Ok u1 pds pd va Hu1 Hpd Hal Hva) as (u2 & E2 & H2 & Hu2). exists u1, u2.
  pose proof (es_updates _ _ _ _ _ _ H2 pd va Hpd Hva) as Ev2. rewrite decide_True in Ev2 by done.
  splits; [done|done| |].
  - split; [done|by rewrite (es_base _ _ _ _ _ _ H2), (es_base _ _ _ _ _ _ H1)| |by rewrite Ev2; apply changed_clear_P|].
    + eapply user_same_trans; [apply (es_user _ _ _ _ _ _ H1)|apply (es_user _ _ _ _ _ _ H2)].
    + intros pd' va' Hpd' Hva' Hne. rewrite (es_updates _ _ _ _ _ _ H2), (es_updates _ _ _ _ _ _ H1) by done.
      by rewrite !decide_False.
  - pose proof (es_updates _ _ _ _ _ _ H1 pd va Hpd Hva) as Ev1. rewrite decide_True in Ev1 by done.
    assert (has (pte_of u1 pd va) PTE_D = has (pte_of u pd va) PTE_D) as <-.
    { rewrite Ev1. apply core_D, core_changed. by left. }
    rewrite Ev2. unfold changed, pte_of. destruct (pte_slot u1 pd va); [|done]. unfold clear_present.
    case_match; [|done]. unfold has. by rewrite <- Z.land_assoc.
Qed.

(** Clearing the dirty bit of an entry that is not present. *)
Lemma clear_dirty u u' pds pd va : mmu_inv u pds → pd ∈ pds → uaddr va → clears pds pd va u u' →
  ∃ u2, pagedir_set_dirty pd va false u' = Ok ((), u2) ∧ clears pds pd va u u2.
Proof.
  intros Hu Hpd Hva [Hi Hb Hus Hg Hc]. unfold pagedir_set_dirty.
  destruct (assign_flag_Ok u' pds pd va PTE_D false Hi Hpd Hva ltac:(by unfold is_u32)) as (u2 & E & H2 & _).
  exists u2. split; [done|]. pose proof (es_updates _ _ _ _ _ _ H2 pd va Hpd Hva) as Ev. rewrite decide_True in Ev by done. split.
  - by eapply (assign_flag_inv u' pds pd va PTE_D false u2).
  - by rewrite (es_base _ _ _ _ _ _ H2).
  - eapply user_same_trans; [exact Hus|apply (es_user _ _ _ _ _ _ H2)].
  - rewrite Ev. unfold changed. destruct (pte_slot u' pd va); [|done]. unfold flag_value, has in *. by rewrite <- Z.land_assoc.
  - intros pd' va' Hpd' Hva' Hne. rewrite (es_updates _ _ _ _ _ _ H2) by done. rewrite decide_False by done. by apply Hc.
Qed.

(** * The frame that becomes free *)

Section Evict.
Context {D F : Type} `{Disk D} {DL : DiskLaws D} `{Files F} {FL : FilesLaws F} (ram_pages : Z) (pds : gset Z).
Abbreviation machine := (PageFault.machine D F).
Abbreviation paging := (paging ram_pages pds).
Implicit Types (s : machine) (t v : Z) (p : page).

Lemma vm_inv_free w e u st l : vm_inv w pds → e ∉ frame_table w → mmu_inv u pds →
  vm_inv (mkVm u (delete e (frames w)) (frame_table w) st l) pds.
Proof using.
  intros [_ Hnd Hsz Hfr Hdi] Hn Hu. assert (∀ x, x ∈ frame_table w → delete e (frames w) !! x = frames w !! x) as Hd.
  { intros x Hx. apply lookup_delete_ne. by intros ->. }
  split; cbn [vm_mmu frame_table frames]; try done.
  - intros x Hx. rewrite Hd by done. by apply Hfr.
  - intros x y f g Hx Hy. rewrite !Hd by done. by apply Hdi.
Qed.

(** Pages of different processes, or different pages, have different entries. *)
Lemma other_slot s t v t0 v0 : paging s → user_page s t v → user_page s t0 v0 →
  ¬ (t = t0 ∧ v = v0) → ¬ (pd_of s t = pd_of s t0 ∧ pg_no v = pg_no v0).
Proof using.
  intros Hp (Hpr & _ & Ha) (Hpr0 & _ & Ha0) Hne [Hpd Hpg]. apply Hne. split; [by apply (pg_pd _ _ s Hp)|].
  rewrite !pg_no_div in Hpg. pose proof (Z.div_mod v 4096). pose proof (Z.div_mod v0 4096). lia.
Qed.

(** What the clock leaves, in a state of which the victim is [e]. *)
Record victim s (e : Z) (f : frame_elem) (w : vm) : Prop := {
  vc_in : e ∈ frame_table (mvm s);
  vc_frame : frames (mvm s) !! e = Some f;
  vc_vm : vm_inv w pds;
  vc_table : ∀ x, x ∈ frame_table w ↔ x ∈ frame_table (mvm s) ∧ x ≠ e;
  vc_length : (length (frame_table w) <= length (frame_table (mvm s)))%nat;
  vc_frames : frames w = frames (mvm s);
  vc_user : user_same (mm s) (vm_mmu w);
  vc_base : base_page_dir (vm_mmu w) = base_page_dir (mm s);
  vc_core : ∀ pd va, pd ∈ pds → uaddr va → core (pte_of (vm_mmu w) pd va) = core (pte_of (mm s) pd va)
}.

Section Victim.
Context s (Hp : paging s) e f w (Hv : victim s e f w).
Abbreviation t0 := (pd_thread f).
Abbreviation v0 := (fe_vaddr f).

Lemma victim_page : ∃ p, entry s t0 v0 = Some p ∧ present s t0 v0 = true ∧ f = mkFrame t0 (pd_of s t0) v0 ∧
  kaddr s t0 v0 mod 4096 = 0 ∧ in_use (user_pool (km (mm s))) (kaddr s t0 v0) = true.
Proof using Hp Hv.
  destruct (pg_frame _ _ s Hp e f (vc_in _ _ _ _ Hv) (vc_frame _ _ _ _ Hv)) as (p & ? & ? & ? & ? & ? & _). by exists p.
Qed.

(** The page of the victim, translated after the clock has passed. *)
Lemma victim_translate : fe_pd f ∈ pds ∧ uaddr v0 ∧ v0 mod 4096 = 0 ∧
  frame (pte_of (vm_mmu w) (fe_pd f) v0) + 4096 <= 1073741824 ∧
  translate (vm_mmu w) (fe_pd f) v0 = Some (kaddr s t0 v0).
Proof using Hp Hv.
  destruct victim_page as (p & He & Hpr & Ef & Hal & Hu). destruct (entry_pd _ _ s _ _ p Hp He) as (Hpd & Hva & _).
  destruct (pg_page _ _ s Hp _ _ p He) as [_ Hvm _ _ _ _].
  pose proof (vc_core _ _ _ _ Hv (pd_of s t0) v0 Hpd Hva) as Hc. fold (pte_at s t0 v0) in Hc.
  assert (fe_pd f = pd_of s t0) as Epd by (by rewrite Ef at 1). rewrite Epd.
  destruct (user_page_in _ (kaddr s t0 v0) (kaddr s t0 v0) (paging_kmem ram_pages pds s Hp) Hal (in_use_pool _ _ Hu) ltac:(lia)) as (_ & _ & _ & H1 & H2).
  rewrite (core_frame _ _ Hc). unfold kaddr in *. unfold PHYS_BASE in *. splits; try done; [lia|].
  unfold translate. rewrite (core_P _ _ Hc), (core_frame _ _ Hc). fold (present s t0 v0). rewrite Hpr, Hvm. f_equal. unfold PHYS_BASE. lia.
Qed.

(** The state after the frame has been given back. *)
Lemma victim_freed u : clears pds (fe_pd f) v0 (vm_mmu w) u →
  ∃ k', palloc_free_page (kaddr s t0 v0) (km u) = Ok ((), k') ∧ mmu_inv (set_km k' u) pds ∧
    pool_end (user_pool k') = pool_end (user_pool (km (mm s))) ∧
    in_use (user_pool k') (kaddr s t0 v0) = false ∧ in_pool (user_pool k') (kaddr s t0 v0) = true ∧
    has (pte_of (set_km k' u) (pd_of s t0) v0) PTE_P = false ∧
    (∀ t v, ¬ (t = t0 ∧ v = v0) → user_page s t v →
       core (pte_of (set_km k' u) (pd_of s t) v) = core (pte_at s t v)) ∧
    (∀ t v p, ¬ (t = t0 ∧ v = v0) → entry s t v = Some p → present s t v = true →
       in_use (user_pool k') (kaddr s t v) = true ∧ page_bytes (ram k') (kaddr s t v) = frame_bytes s t v).
Proof using Hp Hv.
  intros [Hi Hb Hus Hg Hc]. destruct victim_page as (p0 & He0 & Hpr0 & Ef & Hal & Hu).
  destruct (entry_pd _ _ s _ _ p0 Hp He0) as (Hpd0 & Hva0 & _).
  assert (fe_pd f = pd_of s t0) as Epd by (by rewrite Ef at 1). rewrite Epd in *.
  pose proof (user_same_trans _ _ _ (vc_user _ _ _ _ Hv) Hus) as Hus'. pose proof Hus' as [Hpool Hmem].
  pose proof (mo_inv _ _ (mi_mm _ _ Hi)) as Hik. rewrite <- Hpool in Hu.
  destruct (palloc_free_pool (km u) true (kaddr s t0 v0) 1 Hik ltac:(lia) Hal) as (k' & E & Hi' & Hbs & He & Huse & Hkp & Hram).
  { intros i Hr. cbn [get_pool]. replace i with 0 by lia. by rewrite Z.add_0_r. }
  destruct (filler 204) as (zs & Ez & Hz). rewrite Ez in Hram. clear Ez. cbn [get_pool negb] in *. exists k'.
  assert (kernel_same (km u) k') as Hks.
  { split; [exact Hkp|]. intros a Ha. rewrite Hram.
    apply (kernel_same_put (km u) _ zs (kaddr s t0 v0)); [exact Hik|exact Hal|by apply in_use_pool|lia|lia|exact Ha]. }
  assert (in_pool (user_pool k') (kaddr s t0 v0) = true) as Hin'.
  { apply in_use_pool in Hu. unfold in_pool in *. by rewrite Hbs, He. }
  splits; [done|by apply kernel_mmu_inv|by rewrite He, Hpool| |done| | |].
  - rewrite Huse. bcases; simpl; done || lia.
  - by rewrite (kernel_pte u pds Hi k' Hks).
  - intros t v Hne Hup. pose proof Hup as ([pr Hpr] & Hva & _).
    assert (pd_of s t ∈ pds) as Hpd by (unfold pd_of; rewrite Hpr; by apply (pg_proc _ _ s Hp t pr)).
    rewrite (kernel_pte u pds Hi k' Hks) by done. rewrite Hc; [by apply (vc_core _ _ _ _ Hv)|done|done|].
    apply other_slot; try done. by eapply entry_user_page.
  - intros t v p Hne Hen Hpr. destruct (present_kaddr _ _ s t v p Hp Hen Hpr) as [Hal' Hu'].
    assert (kaddr s t v ≠ kaddr s t0 v0) as Hk.
    { intros Hk. apply Hne. by apply (kaddr_inj _ _ s t v p t0 v0 p0 Hp). }
    split.
    + rewrite Huse. rewrite <- Hpool in Hu'. rewrite Hu', andb_true_r. apply negb_true_iff.
      destruct (pages_disjoint _ (kaddr s t0 v0) (kaddr s t v) Hal' Hal Hk ltac:(lia)); bcases; simpl; done || lia.
    + unfold frame_bytes. rewrite <- (page_bytes_user (mm s) u (kaddr s t v)); [|by eapply paging_kmem|done|done|by apply in_use_pool].
      apply page_bytes_ext. intros a Ha. rewrite Hram. apply put_bytes_ne.
      pose proof (pages_disjoint _ (kaddr s t0 v0) a Hal' Hal Hk Ha). lia.
Qed.
End Victim.

(** * The rest of the branch *)

(** The state once the frame of [e] has been given back and the lock is free. *)
Definition freed (k' : kmem) (e : Z) s : machine :=
  set_mvm (mkVm (set_km k' (mm s)) (delete e (frames (mvm s))) (frame_table (mvm s)) (swap_table (mvm s)) false) s.

Lemma on_pm_inv {A} (f : PM A) s a s' : on_pm f s = Ok (a, s') → ∃ u, f (mm s) = Ok (a, u) ∧ s' = with_mm u s.
Proof using.
  unfold on_pm, on_vm, on_mmu. fold (mm s). destruct (f (mm s)) as [[a' u]|]; [|done]. intros [= -> <-]. by exists u.
Qed.

Lemma no_page_left k k' : kmem_inv k → palloc_get_page PAL_USER_ZERO k = Ok (NULL, k') → exhausted (user_pool k) 1.
Proof using.
  intros Hk E. unfold palloc_get_page in E.
  destruct (palloc_get_multiple_cases k PAL_USER_ZERO 1 Hk ltac:(lia)) as [(pg & k2 & E2 & Hn & _)|[Hex _]]; [|done].
  rewrite E in E2. by injection E2 as <- <-.
Qed.

Lemma evict_tail s e kv k' : palloc_free_page kv (km (mm s)) = Ok ((), k') → swap_lock (mvm s) = true →
  paging (freed k' e s) → kv mod 4096 = 0 → in_pool (user_pool k') kv = true → in_use (user_pool k') kv = false →
  ∃ k s', (on_pm (on_km (palloc_free_page kv));; on_vm (modS (free_frame e));;
           kpage ← on_pm (on_km (palloc_get_page (Z.lor PAL_USER PAL_ZERO)));
           on_vm swap_lock_release;; mret kpage) s = Ok (k, s') ∧ k ≠ NULL ∧
    stable pds (freed k' e s) s' ∧ spare s' k ∧ page_bytes (mram (mm s')) k = replicate 4096 0 ∧
    ∃ u, s' = with_mm u (freed k' e s).
Proof using.
  intros Ef Hlock Hp Hal Hin Hu. fold PAL_USER_ZERO.
  rewrite (M_bind_step _ _ _ _ _ (on_pm_Ok _ s _ _ (on_km_Ok _ (mm s) _ _ Ef))).
  erewrite M_bind_step by by apply on_vm_Ok. set (sx := set_mvm _ _).
  assert (∀ A (g : PM A) u a, g (mm (freed k' e s)) = Ok (a, u) → on_pm g sx = Ok (a, with_mm u sx)) as Hon.
  { intros A g u a Eg. by apply on_pm_Ok. }
  destruct (take_frame ram_pages pds (freed k' e s) Hp) as [(k & s' & E & Hn & Hst & Hsp & Hz & u & ->)|E].
  - exists k, (with_mm u (freed k' e s)). splits; try done; [|by exists u].
    apply on_pm_inv in E as (u' & Eg & E2). assert (u = u') as <- by (by apply (f_equal mm) in E2).
    rewrite (M_bind_step _ _ _ _ _ (Hon _ _ _ _ Eg)).
    rewrite (M_bind_step _ _ _ () (with_mm u (freed k' e s))); [done|]. unfold on_vm, swap_lock_release. rewrite getS_step.
    change (swap_lock (mvm (with_mm u sx))) with (swap_lock (mvm s)). by rewrite Hlock.
  - exfalso. apply on_pm_inv in E as (u & Eg & _). unfold on_km in Eg. apply bind_Ok in Eg as ([a k2] & Eg & [= -> _]).
    apply no_page_left in Eg; [|by eapply paging_kmem]. change (exhausted (user_pool k') 1) in Eg.
    assert (kmem_inv k') as Hk' by exact (paging_kmem _ _ _ Hp).
    destruct (user_page_in k' kv kv Hk' Hal Hin ltac:(lia)) as (_ & _ & _ & Hend & _).
    unfold in_pool in Hin. apply andb_true_iff in Hin as [Hlo%Z.leb_le _].
    destruct (Eg kv Hal Hlo ltac:(lia)) as (i & Hi & Hbad). replace i with 0 in Hbad by lia. rewrite Z.add_0_r in Hbad. congruence.
Qed.

(** Entries after one page of a table has been replaced. *)
Lemma entry_put s t m p t' v' : tables s !! t = Some m →
  entry (put_page t m p s) t' v' = if decide (t' = t ∧ v' = load_vaddr p) then Some p else entry s t' v'.
Proof using.
  intros Hm. unfold entry, put_page. cbn [tables set_tables]. destruct (decide (t' = t)) as [->|Hne].
  - rewrite lookup_insert_eq, Hm. simpl. destruct (decide (v' = load_vaddr p)) as [->|].
    + by rewrite lookup_insert_eq, decide_True.
    + rewrite lookup_insert_ne by done. by rewrite decide_False by (by intros [_ ?]).
  - rewrite lookup_insert_ne by done. by rewrite decide_False by (by intros [? _]).
Qed.
Lemma tables_put s t m p t' : tables s !! t = Some m → is_Some (tables (put_page t m p s) !! t') ↔ is_Some (tables s !! t').
Proof using.
  intros Hm. unfold put_page. cbn [tables set_tables]. destruct (decide (t' = t)) as [->|Hne].
  - rewrite lookup_insert_eq, Hm. split; eauto.
  - by rewrite lookup_insert_ne.
Qed.

(** [page_swap_out_index] on a page that is there. *)
Lemma spt_swap_out_Ok s t v p out idx e l : entry s t v = Some p → pg_round_down v = v → mallocs s = Some e :: l →
  ∃ m, tables s !! t = Some m ∧ spt_swap_out_index v t out idx s = Ok (true, put_page t m (moved p out idx) (set_mallocs l s)).
Proof using.
  intros He Hv E. unfold entry in He. destruct (tables s !! t) as [m|] eqn:Et; [|done]. simpl in He. exists m. split; [done|].
  destruct (get_table_Ok s t) as (m' & Em & Et' & _); [by rewrite Et|]. rewrite Et in Et'. injection Et' as <-.
  unfold spt_swap_out_index. rewrite (M_bind_step _ _ _ _ _ Em).
  rewrite (M_bind_step _ _ s () s).
  2: { apply check_true, negb_true_iff, Nat.eqb_neq. intros Hz. apply map_size_empty_inv in Hz. subst m. by rewrite lookup_empty in He. }
  rewrite (M_bind_step _ _ _ _ _ (malloc_Ok s _ _ E)). by rewrite Hv, He.
Qed.

Lemma round_aligned v : uaddr v → v mod 4096 = 0 → pg_round_down v = v.
Proof using. intros Hv Ha. rewrite pg_round_down_sub by by apply uaddr_u32. lia. Qed.

(** * Both ways out *)

(** What the page's contents, its table and the swap table are when the frame
    is given back. *)
Record stored s s' (t0 v0 : Z) (p0 : page) (out : bool) (idx : Z) (b b' : bitmap) : Prop := {
  so_procs : procs s' = procs s;
  so_later : later s s';
  so_tables : ∀ t, is_Some (tables s' !! t) ↔ is_Some (tables s !! t);
  so_entry : ∀ t v, entry s' t v = if decide (t = t0 ∧ v = v0) then Some (moved p0 out idx) else entry s t v;
  so_finv : files_inv (files s');
  so_inode : ∀ g, inode_of (files s') g = inode_of (files s) g;
  so_denied : ∀ j, denied (files s') j = denied (files s) j;
  so_backed : ∀ p, backed s p → backed s' p;
  so_file : ∀ t v p, ¬ (t = t0 ∧ v = v0) → entry s t v = Some p → file_bytes s' p = file_bytes s p;
  so_disk : capacity (swap_disk s') = capacity (swap_disk s) ∧ (∀ i, Forall is_u8 (sector_at (swap_disk s') i)) ∧
    ∀ t v p, entry s t v = Some p → swap_outed p = true →
      slot_at (swap_disk s') (swap_index p) = slot_at (swap_disk s) (swap_index p);
  so_dest : if out then mmaped p0 = false ∧ slot_at (swap_disk s') idx = frame_bytes s t0 v0 ∧
                 0 <= idx < bit_cnt b ∧ bget b idx = false ∧ bget b' idx = true
            else mmaped p0 = true ∧ file_bytes s' p0 = take (Z.to_nat (load_read_bytes p0)) (frame_bytes s t0 v0)
}.

Section Out.
Context s (Hp : paging s) e f w (Hv : victim s e f w) p0 (He0 : entry s (pd_thread f) (fe_vaddr f) = Some p0).
Context b b' (Hb : swap_table (mvm s) = Some b) (Hwf : bitmap_wf b') (Hcnt : bit_cnt b' = bit_cnt b)
  (Hmono : ∀ j, bget b j = true → bget b' j = true).
Abbreviation t0 := (pd_thread f).
Abbreviation v0 := (fe_vaddr f).

(** The machine with the entry cleared to [u]; the swap lock is held. *)
Definition out_vm (u : mmu) : vm := mkVm u (frames (mvm s)) (frame_table w) (Some b') true.

Lemma stored_unmaps u out idx sB : clears pds (fe_pd f) v0 (vm_mmu w) u → mvm sB = out_vm u →
  stored s sB t0 v0 p0 out idx b b' →
  ∃ k', palloc_free_page (kaddr s t0 v0) (km (mm sB)) = Ok ((), k') ∧ in_pool (user_pool k') (kaddr s t0 v0) = true ∧
    in_use (user_pool k') (kaddr s t0 v0) = false ∧ unmaps pds s (freed k' e sB) e t0 v0 p0 out idx.
Proof using Hp Hv He0 Hb Hwf Hcnt Hmono.
  intros Hcl HB Hst. destruct (victim_freed s Hp e f w Hv u Hcl) as (k' & E & Hi & Hend & Hu & Hin & Hg & Hcore & Hby).
  assert (mm sB = u) as Em by (unfold mm; by rewrite HB).
  assert (mm (freed k' e sB) = set_km k' u) as Emf by (unfold freed; by rewrite Em).
  exists k'. rewrite Em. splits; try done.
  destruct (victim_page s Hp e f w Hv) as (p & He & Hpr & Ef & _). rewrite He0 in He. injection He as <-.
  assert (∀ t, pd_of (freed k' e sB) t = pd_of s t) as Hpd.
  { intros t. unfold pd_of. change (procs (freed k' e sB)) with (procs sB). by rewrite (so_procs _ _ _ _ _ _ _ _ _ Hst). }
  assert (mvm (freed k' e sB) = mkVm (set_km k' u) (delete e (frames (mvm s))) (frame_table w) (Some b') false) as Evm.
  { unfold freed. cbn [mvm set_mvm]. by rewrite Em, HB. }
  split; unfold present, pte_at, mm; rewrite ?Evm; cbn [vm_mmu swap_lock frame_table frames swap_table]; rewrite ?Hpd.
  - rewrite <- (vc_frames _ _ _ _ Hv). apply vm_inv_free; [apply Hv| |done].
    intros Hx. by apply (vc_table _ _ _ _ Hv) in Hx as [_ ?].
  - done.
  - splits; [done|done|apply Hv|]. rewrite <- Ef. apply Hv.
  - apply Hv.
  - apply Hv.
  - done.
  - etransitivity; [exact (cl_base _ _ _ _ _ Hcl)|apply Hv].
  - done.
  - apply Hst.
  - apply Hst.
  - apply Hst.
  - apply (so_later _ _ _ _ _ _ _ _ _ Hst).
  - done.
  - intros t v Hne Hup. rewrite Hpd. by apply Hcore.
  - intros t v p Hne Hen Hpp. by apply (Hby t v p).
  - apply Hst.
  - apply Hst.
  - apply Hst.
  - apply Hst.
  - apply (so_file _ _ _ _ _ _ _ _ _ Hst).
  - apply (so_disk _ _ _ _ _ _ _ _ _ Hst).
  - exists b, b'. splits; try done. apply (so_dest _ _ _ _ _ _ _ _ _ Hst).
Qed.

(** The machine when the entry has been cleared. *)
Definition out_machine (u : mmu) (l : list (option Z)) : machine :=
  mkMachine (out_vm u) (procs s) (tables s) (swap_disk s) (files s) l (log s) (page_fault_cnt s).

Lemma out_bytes u : clears pds (fe_pd f) v0 (vm_mmu w) u →
  bytes_at (mram u) (kaddr s t0 v0) (frame_bytes s t0 v0) ∧ 0 <= kaddr s t0 v0 ∧ kaddr s t0 v0 + 4096 <= 4294967296 ∧
  kaddr s t0 v0 ≠ NULL ∧ Forall is_u8 (frame_bytes s t0 v0).
Proof using Hp Hv.
  intros Hcl. destruct (victim_page s Hp e f w Hv) as (p & He & Hpr & Ef & Hal & Hu).
  pose proof (user_same_trans _ _ _ (vc_user _ _ _ _ Hv) (cl_user _ _ _ _ _ Hcl)) as Hus.
  pose proof (paging_kmem _ _ s Hp) as Hi. pose proof (in_use_pool _ _ Hu) as Hin.
  destruct (user_page_in _ _ (kaddr s t0 v0) Hi Hal Hin ltac:(lia)) as (_ & _ & Hb0 & Hb1 & Hb2). unfold PHYS_BASE, NULL in *.
  splits; try lia.
  - unfold frame_bytes. rewrite <- (page_bytes_user (mm s) u) by done. apply page_bytes_at.
    apply (user_page_mapped (km u)); [apply (mi_mm _ _ (cl_inv _ _ _ _ _ Hcl))|done|]. by rewrite (proj1 Hus).
  - apply page_bytes_u8, Hi.
Qed.

Lemma store_in_slot u l a idx : clears pds (fe_pd f) v0 (vm_mmu w) u → later s (out_machine u (Some a :: l)) →
  mmaped p0 = false → 0 <= idx < bit_cnt b → bget b idx = false → bget b' idx = true →
  ∃ sB, (check (negb (kaddr s t0 v0 =? NULL));; ok ← spt_swap_out_index v0 t0 true idx; check ok;;
         for_slot (write_sector (kaddr s t0 v0)) idx) (out_machine u (Some a :: l)) = Ok ((), sB) ∧
    mvm sB = out_vm u ∧ stored s sB t0 v0 p0 true idx b b' ∧ mallocs sB = l ∧ log sB = log s.
Proof using Hp Hv He0 Hb DL.
  intros Hcl Hl Hm Hidx Hfree Hset. set (sA := out_machine u (Some a :: l)) in *.
  destruct (out_bytes u Hcl) as (Hby & Hk0 & Hk1 & Hkn & Hu8).
  destruct (pg_page _ _ s Hp _ _ p0 He0) as [Hva Hal Hua _ _ _].
  destruct (pg_swap _ _ s Hp) as (b2 & E2 & _ & Hcap & Hw & Hbits). rewrite Hb in E2. injection E2 as <-.
  rewrite (M_bind_step _ _ sA () sA) by (apply check_true; by destruct (Z.eqb_spec (kaddr s t0 v0) NULL)).
  destruct (spt_swap_out_Ok sA t0 v0 p0 true idx a l) as (m & Hm0 & Es); [done|by apply round_aligned|done|].
  rewrite (M_bind_step _ _ _ _ _ Es). set (s1 := put_page t0 m (moved p0 true idx) (set_mallocs l sA)).
  rewrite (M_bind_step _ _ s1 () s1) by done.
  destruct (swap_slot_written idx (kaddr s t0 v0) ltac:(lia) ltac:(lia) Hk0 Hk1 (frame_bytes s t0 v0) s1)
    as (d & Ed & Hcd & Hslot & Hother & Hsec).
  { unfold frame_bytes. by rewrite page_bytes_length. }
  { exact Hby. }
  { change (swap_disk s1) with (swap_disk s). lia. }
  exists (set_disk d s1). splits; [exact Ed|done| |done|done].
  change (swap_disk s1) with (swap_disk s) in *. split; try done.
  - destruct Hl as [n E]. exists (n + 1)%nat. change (mallocs (set_disk d s1)) with l.
    change (mallocs sA) with (Some a :: l) in E. rewrite <- drop_drop, <- E. done.
  - intros t. apply (tables_put (set_mallocs l sA)), Hm0.
  - intros t v. etransitivity; [apply (entry_put (set_mallocs l sA)), Hm0|]. cbn [moved load_vaddr]. by rewrite Hva.
  - apply Hp.
  - splits; [done| |].
    + intros i. cbn [swap_disk set_disk]. destruct (Hsec i) as [->|[c ->]]; [apply Hp|]. unfold chunk. by apply Forall_take, Forall_drop.
    + intros t v p He Ho. apply Hother. destruct (Hbits t v p He Ho) as [_ Hbit]. intros Heq. congruence.
Qed.

(** Nothing to store. *)
Lemma stored_clean u l : clears pds (fe_pd f) v0 (vm_mmu w) u → later s (out_machine u l) → mmaped p0 = true →
  has (pte_at s t0 v0) PTE_D = false → stored s (out_machine u l) t0 v0 p0 false (swap_index p0) b b'.
Proof using Hp Hv He0.
  intros Hcl Hl Hm HD. destruct (victim_page s Hp e f w Hv) as (p & He & Hpr & _). rewrite He0 in He. injection He as <-.
  destruct (pg_page _ _ s Hp _ _ p0 He0) as [_ _ _ _ _ Hmm].
  split; try done.
  - intros t v. change (entry (out_machine u l) t v) with (entry s t v). case_decide as Hd; [|done].
    destruct Hd as [-> ->]. rewrite He0. f_equal. rewrite <- (Hmm Hm). symmetry. apply moved_self.
  - apply Hp.
  - splits; [done|apply Hp|done].
  - split; [done|]. destruct (pg_mmap _ _ s Hp _ _ p0 He0 Hm) as (_ & _ & Hc). symmetry. by apply Hc.
Qed.

(** Writing the page back to its file. *)
Lemma store_in_file u l : clears pds (fe_pd f) v0 (vm_mmu w) u → later s (out_machine u l) → mmaped p0 = true →
  ∃ fs, file_write (file_of p0) (kaddr s t0 v0) (load_read_bytes p0) (load_filepos p0) (out_machine u l) =
          Ok (load_read_bytes p0, set_files fs (out_machine u l)) ∧
    stored s (set_files fs (out_machine u l)) t0 v0 p0 false (swap_index p0) b b'.
Proof using Hp Hv He0.
  intros Hcl Hl Hm. destruct (victim_page s Hp e f w Hv) as (p & He & Hpr & _). rewrite He0 in He. injection He as <-.
  destruct (pg_page _ _ s Hp _ _ p0 He0) as [_ _ _ Hr [Hpos0 Hpos] Hmm].
  destruct (pg_mmap _ _ s Hp _ _ p0 He0 Hm) as ((i & d & Hi & Hd & Hlen) & Hden & _).
  destruct (out_bytes u Hcl) as (Hby & _ & _ & _ & Hu8). set (n := Z.to_nat (load_read_bytes p0)).
  set (bs := take n (frame_bytes s t0 v0)).
  assert (length bs = n) as Hbl.
  { unfold bs, n. rewrite length_take. unfold frame_bytes. rewrite page_bytes_length. lia. }
  assert (on_mem (load_bytes n (kaddr s t0 v0)) (out_machine u l) = Ok (bs, out_machine u l)) as El.
  { rewrite <- Hbl. rewrite <- (with_ram_same (out_machine u l)) at 2. apply on_mem_Ok, load_bytes_Ok.
    rewrite <- (take_drop n (frame_bytes s t0 v0)) in Hby. by apply bytes_at_app in Hby as [Hby _]. }
  destruct (write_at_ok (files s) (file_of p0) i d bs (load_filepos p0)) as (fs & Ew & Hfi & Hin & Hdn & Hct & Hoth);
    [apply Hp|done|done|by apply Hden|by apply Forall_take|done|rewrite Hbl; lia|rewrite Hbl; lia|].
  rewrite Hbl in Ew. unfold n in Ew. rewrite Z2Nat.id in Ew by lia.
  assert ((Z.to_nat (load_filepos p0) + length bs <= length d)%nat) as Hfit by (rewrite Hbl; lia).
  exists fs. split.
  { unfold file_write. rewrite !s32_small by lia. fold n. rewrite (M_bind_step _ _ _ _ _ El), getS_step.
    rewrite (pureM_step _ _ _ _ Ew). done. }
  split; try done.
  - intros t v. change (entry (set_files fs (out_machine u l)) t v) with (entry s t v). case_decide as Hdc; [|done].
    destruct Hdc as [-> ->]. rewrite He0. f_equal. rewrite <- (Hmm Hm). symmetry. apply moved_self.
  - intros p (j & dj & Hj & Hdj & Hlj). cbn [files set_files]. destruct (decide (j = i)) as [->|Hne].
    + exists i, (splice d bs (Z.to_nat (load_filepos p0))). cbn [files set_files]. rewrite Hin, Hct. rewrite Hd in Hdj. injection Hdj as <-.
      by rewrite splice_length.
    + exists j, dj. cbn [files set_files]. by rewrite Hin, Hoth.
  - intros t v p Hne Hep. unfold file_bytes. cbn [files set_files]. rewrite Hin.
    destruct (inode_of (files s) (file_of p)) as [j|] eqn:Ej; [|done]. simpl. destruct (decide (j = i)) as [->|Hnj]; [|by rewrite Hoth].
    rewrite Hct, Hd. destruct (pg_page _ _ s Hp _ _ p Hep) as [_ _ _ Hr' [Hq0 Hq] _].
    apply slice_splice_ne; [done|]. rewrite Hbl. unfold n.
    destruct (pg_apart _ _ s Hp t0 v0 p0 t v p He0 Hep) as [?|[?|?]]; [intros [= <- <-]; by apply Hne|done|congruence|lia..].
  - splits; [done|apply Hp|done].
  - split; [done|]. unfold file_bytes. cbn [files set_files]. rewrite Hin, Hi. simpl. rewrite Hct. fold n. rewrite <- Hbl at 1.
    by apply slice_splice.
Qed.

(** The test of the dirty bit and the write. *)
Lemma store_mmaped u l : clears pds (fe_pd f) v0 (vm_mmu w) u → later s (out_machine u l) → mmaped p0 = true →
  has (pte_of u (fe_pd f) v0) PTE_D = has (pte_at s t0 v0) PTE_D →
  ∃ u' sB, (dirty ← on_pm (pagedir_is_dirty (fe_pd f) v0);
         if (dirty : bool) then
           on_pm (pagedir_set_dirty (fe_pd f) v0 false);;
           n ← file_write (file_of p0) (kaddr s t0 v0) (load_read_bytes p0) (load_filepos p0);
           check (u32 n =? load_read_bytes p0)
         else mret ()) (out_machine u l) = Ok ((), sB) ∧
    clears pds (fe_pd f) v0 (vm_mmu w) u' ∧ mvm sB = out_vm u' ∧ stored s sB t0 v0 p0 false (swap_index p0) b b' ∧
    mallocs sB = l ∧ log sB = log s.
Proof using Hp Hv He0.
  intros Hcl Hl Hm HD. destruct (victim_translate s Hp e f w Hv) as (Hpd & Hva & _).
  pose proof (cl_inv _ _ _ _ _ Hcl) as Hu. destruct (pg_page _ _ s Hp _ _ p0 He0) as [_ _ _ Hr _ _].
  assert (on_pm (pagedir_is_dirty (fe_pd f) v0) (out_machine u l) = Ok (has (pte_at s t0 v0) PTE_D, out_machine u l)) as Et.
  { rewrite <- (with_mm_same (out_machine u l)) at 2. apply on_pm_Ok. change (mm (out_machine u l)) with u.
    unfold pagedir_is_dirty. rewrite (test_flag_Ok u pds); [by rewrite HD|apply Hu|done|done]. }
  rewrite (M_bind_step _ _ _ _ _ Et). destruct (has (pte_at s t0 v0) PTE_D) eqn:Ed.
  - destruct (clear_dirty _ u pds (fe_pd f) v0 (vi_mmu _ _ (vc_vm _ _ _ _ Hv)) Hpd Hva Hcl) as (u2 & E2 & Hcl2).
    assert (on_pm (pagedir_set_dirty (fe_pd f) v0 false) (out_machine u l) = Ok ((), out_machine u2 l)) as E2'
      by exact (on_pm_Ok _ (out_machine u l) _ _ E2).
    rewrite (M_bind_step _ _ _ _ _ E2'). destruct (store_in_file u2 l Hcl2 Hl Hm) as (fs & Ef & Hst).
    rewrite (M_bind_step _ _ _ _ _ Ef). exists u2, (set_files fs (out_machine u2 l)). splits; try done.
    apply check_true, Z.eqb_eq, u32_small. lia.
  - exists u, (out_machine u l). splits; try done. by apply stored_clean.
Qed.
End Out.

(** * The whole branch *)

(** Claiming a slot of the swap disk; the lock stays held. *)
Definition claimed s (b : bitmap) : vm := mkVm (vm_mmu (mvm s)) (frames (mvm s)) (frame_table (mvm s)) (Some b) true.
Definition slot_free s : Prop := ∃ b j, swap_table (mvm s) = Some b ∧ 0 <= j < bit_cnt b ∧ bget b j = false.

Lemma claim_slot s : paging s → slot_free s →
  ∃ idx b b', on_vm swap_table_scan_and_flip s = Ok (idx, set_mvm (claimed s b') s) ∧ swap_table (mvm s) = Some b ∧
    bitmap_wf b' ∧ bit_cnt b' = bit_cnt b ∧ (∀ j, bget b j = true → bget b' j = true) ∧
    0 <= idx < bit_cnt b ∧ bget b idx = false ∧ bget b' idx = true.
Proof using.
  intros Hp (b & j & Eb & Hj & Hbj). destruct (pg_swap _ _ s Hp) as (b2 & E2 & Hwf & _). rewrite Eb in E2. injection E2 as <-.
  destruct (scan_and_flip_bits b 1 Hwf ltac:(lia)) as [(r & b' & E & Hr & Hrc & Hrun & _ & Hwf' & Hcnt & Hg)|[_ Hno]].
  2: { exfalso. apply (Hno j ltac:(lia) ltac:(lia)). intros i Hi. by replace i with j by lia. }
  exists r, b, b'. splits; try done; try lia.
  - apply on_vm_Ok. unfold swap_table_scan_and_flip. set (v1 := set_swap_lock true (mvm s)).
    rewrite (M_bind_step _ _ _ () v1) by (unfold swap_lock_acquire; rewrite getS_step; by rewrite (pg_lock _ _ s Hp)).
    rewrite (M_bind_step _ _ v1 b v1).
    2: { unfold get_swap_table. rewrite getS_step. unfold pureM. change (swap_table v1) with (swap_table (mvm s)). by rewrite Eb. }
    by rewrite (pureM_step _ _ _ _ E).
  - intros i Hi. rewrite Hg by by apply (bget_pos b). by rewrite Hi, orb_true_r.
  - apply Hrun. lia.
  - rewrite Hg by lia. bcases; simpl; done || lia.
Qed.

(** The clock's choice. *)
Definition cold_frame s : Prop := ∃ x, x ∈ frame_table (mvm s) ∧ bit PTE_S (mvm s) x = false.

Lemma find_frame s b' : paging s → cold_frame s →
  ∃ e f w, on_vm frame_table_find_victim (set_mvm (claimed s b') s) = Ok (Some e, set_mvm w s) ∧ victim s e f w ∧
    swap_table w = Some b' ∧ swap_lock w = true.
Proof using.
  intros Hp Hc. assert (vm_inv (claimed s b') pds) as Hi by (by destruct (pg_vm _ _ s Hp); split).
  destruct (find_victim_Ok (claimed s b') pds Hi Hc) as (e & A & B & w & P & HT & _ & E & Hw & HTw & [Hf [Hs Hl] [Hu Hb] Hag]).
  cbn [frame_table claimed frames swap_table swap_lock vm_mmu] in *.
  assert (e ∈ frame_table (mvm s)) as Hin by (rewrite HT; apply elem_of_app; right; by left).
  destruct (vi_frames _ _ (pg_vm _ _ s Hp) e Hin) as (f & Hfe & _).
  exists e, f, w. splits; [exact (on_vm_Ok _ (set_mvm (claimed s b') s) _ _ E)| |done|done]. split; try done.
  - intros x. pose proof (vi_nodup _ _ (pg_vm _ _ s Hp)) as Hnd. rewrite HT in Hnd |- *. rewrite HTw.
    apply NoDup_app in Hnd as (_ & Hd & [Hn _]%NoDup_cons).
    rewrite !elem_of_app, elem_of_cons. split.
    + intros [Hx|Hx]; (split; [auto|]); intros ->; [done|]. by apply (Hd e Hx); left.
    + intros [[?|[?|?]] ?]; auto. done.
  - rewrite HT, HTw, !length_app. simpl. lia.
  - intros pd va Hpd Hva. apply core_aged. by apply Hag.
Qed.

(** Looking the victim up and clearing its entry. *)
Lemma clear_victim s e f w b' a l : paging s → victim s e f w → swap_table w = Some b' → swap_lock w = true →
  mallocs s = Some a :: l →
  ∃ p0 u1 u, entry s (pd_thread f) (fe_vaddr f) = Some p0 ∧ on_vm (get_frame e) (set_mvm w s) = Ok (f, set_mvm w s) ∧
    spt_lookup (fe_vaddr f) (pd_thread f) (set_mvm w s) = Ok (Some p0, set_mallocs l (set_mvm w s)) ∧
    on_pm (pagedir_get_page (fe_pd f) (fe_vaddr f)) (set_mallocs l (set_mvm w s)) =
      Ok (kaddr s (pd_thread f) (fe_vaddr f), out_machine s w b' u1 l) ∧
    on_pm (pagedir_clear_page (fe_pd f) (fe_vaddr f)) (out_machine s w b' u1 l) = Ok ((), out_machine s w b' u l) ∧
    clears pds (fe_pd f) (fe_vaddr f) (vm_mmu w) u ∧
    has (pte_of u (fe_pd f) (fe_vaddr f)) PTE_D = has (pte_at s (pd_thread f) (fe_vaddr f)) PTE_D.
Proof using.
  intros Hp Hv Hsw Hlk Hm. destruct (victim_page s Hp e f w Hv) as (p0 & He & _ & Ef & _).
  destruct (victim_translate s Hp e f w Hv) as (Hpd & Hva & Hal & Hfr & Htr).
  destruct (get_and_clear _ pds _ _ (vi_mmu _ _ (vc_vm _ _ _ _ Hv)) Hpd Hva Hal Hfr) as (u1 & u & E1 & E2 & Hcl & HD).
  rewrite Htr in E1.
  assert (∀ u' : mmu, with_mm u' (set_mallocs l (set_mvm w s)) = out_machine s w b' u' l) as Hout.
  { intros u'. unfold out_machine, out_vm. rewrite <- (vc_frames _ _ _ _ Hv), <- Hsw, <- Hlk. done. }
  exists p0, u1, u. splits; try done.
  - refine (on_vm_Ok _ (set_mvm w s) _ _ _). apply get_frame_Ok. cbn [mvm set_mvm]. rewrite (vc_frames _ _ _ _ Hv). apply Hv.
  - rewrite (spt_lookup_Ok (set_mvm w s) _ _ a l);
      [rewrite round_aligned by done; change (entry (set_mvm w s)) with (entry s); by rewrite He| |done].
    apply (pg_tables _ _ s Hp). destruct (entry_proc _ _ s _ _ p0 Hp He) as (pr & Hpr & _). by rewrite Hpr.
  - rewrite <- Hout. exact (on_pm_Ok _ (set_mallocs l (set_mvm w s)) _ _ E1).
  - exact (on_pm_Ok _ (out_machine s w b' u1 l) _ _ E2).
  - rewrite HD. apply core_D. assert (fe_pd f = pd_of s (pd_thread f)) as Epd by (by rewrite Ef at 1).
    rewrite Epd in *. by apply (vc_core _ _ _ _ Hv).
Qed.

(** What the branch leaves: a zeroed frame that holds no page, every page with
    its bytes, and absent pages where they were. *)
Record room_made s s' (k : Z) : Prop := {
  rm_paging : paging s';
  rm_same : same_pages s s';
  rm_spare : spare s' k;
  rm_null : k ≠ NULL;
  rm_zero : page_bytes (mram (mm s')) k = replicate 4096 0;
  rm_procs : procs s' = procs s;
  rm_log : log s' = log s;
  rm_absent : ∀ t v, user_page s t v → present s t v = false → entry s' t v = entry s t v ∧ present s' t v = false
}.

Lemma unmaps_room s e t0 v0 p0 out idx sf s' k : paging s → unmaps pds s sf e t0 v0 p0 out idx → stable pds sf s' →
  spare s' k → k ≠ NULL → page_bytes (mram (mm s')) k = replicate 4096 0 → procs s' = procs s → log s' = log s →
  room_made s s' k.
Proof using.
  intros Hp Hum Hst Hsp Hn Hz Hpro Hlog. pose proof (unmap_paging _ _ s sf _ _ _ _ _ _ Hp Hum) as Hpf. split; [..|exact Hsp|exact Hn|exact Hz|exact Hpro|exact Hlog|].
  - by apply (stable_paging _ _ sf).
  - eapply same_pages_trans; [by eapply unmap_same_pages|by eapply stable_same_pages].
  - intros t v Hup Hpr. destruct (um_victim _ _ _ _ _ _ _ _ _ Hum) as (He0 & Hpr0 & _).
    assert (¬ (t = t0 ∧ v = v0)) as Hne by (intros [-> ->]; congruence).
    assert (user_page sf t v) as Hupf.
    { destruct Hup as (? & ? & ?). split; [|done]. by rewrite (um_procs _ _ _ _ _ _ _ _ _ Hum). }
    rewrite (stable_entry _ sf s' Hst), (stable_absent ram_pages pds sf s' Hpf Hst t v Hupf).
    rewrite (unmap_entry_ne pds _ _ _ _ _ _ _ _ Hum) by done. split; [done|]. unfold present.
    by rewrite (core_P _ _ (um_core _ _ _ _ _ _ _ _ _ Hum t v Hne Hup)).
Qed.

(** From the stored page on. *)
Lemma finish_out s e f w p0 b b' u out idx sB : paging s → victim s e f w →
  entry s (pd_thread f) (fe_vaddr f) = Some p0 → swap_table (mvm s) = Some b → bitmap_wf b' → bit_cnt b' = bit_cnt b →
  (∀ j, bget b j = true → bget b' j = true) →
  clears pds (fe_pd f) (fe_vaddr f) (vm_mmu w) u → mvm sB = out_vm s w b' u →
  stored s sB (pd_thread f) (fe_vaddr f) p0 out idx b b' → log sB = log s →
  ∃ k s', (on_pm (on_km (palloc_free_page (kaddr s (pd_thread f) (fe_vaddr f))));; on_vm (modS (free_frame e));;
           kpage ← on_pm (on_km (palloc_get_page (Z.lor PAL_USER PAL_ZERO)));
           on_vm swap_lock_release;; mret kpage) sB = Ok (k, s') ∧ room_made s s' k ∧ mallocs s' = mallocs sB.
Proof using.
  intros Hp Hv He Hb Hwf Hcnt Hmono Hcl HB Hst Hlog.
  destruct (stored_unmaps s Hp e f w Hv p0 He b b' Hb Hwf Hcnt Hmono u out idx sB Hcl HB Hst) as (k' & E & Hin & Hu & Hum).
  destruct (victim_page s Hp e f w Hv) as (_ & _ & _ & _ & Hal & _).
  destruct (evict_tail sB e _ k' E) as (k & s' & Et & Hn & Hs & Hsp & Hz & uu & ->); try done.
  { by rewrite HB. }
  { by eapply unmap_paging. }
  eexists _, _. split; [exact Et|]. split; [|done].
  eapply unmaps_room; try done. apply (so_procs _ _ _ _ _ _ _ _ _ Hst).
Qed.

Lemma swap_out_Ok s a1 a2 l : paging s → mallocs s = Some a1 :: Some a2 :: l → slot_free s → cold_frame s →
  ∃ k s', swap_out s = Ok (k, s') ∧ room_made s s' k ∧ (mallocs s' = l ∨ mallocs s' = Some a2 :: l).
Proof using DL.
  intros Hp Hm Hfree Hcold.
  destruct (claim_slot s Hp Hfree) as (idx & b & b' & E1 & Hb & Hwf & Hcnt & Hmono & Hidx & Hno & Hset).
  destruct (find_frame s b' Hp Hcold) as (e & f & w & E2 & Hv & Hsw & Hlk).
  destruct (clear_victim s e f w b' a1 (Some a2 :: l) Hp Hv Hsw Hlk Hm) as (p0 & u1 & u & He & E3 & E4 & E5 & E6 & Hcl & HD).
  unfold swap_out. rewrite (M_bind_step _ _ _ _ _ E1), (M_bind_step _ _ _ _ _ E2). cbv beta iota.
  rewrite (M_bind_step _ _ _ _ _ E3), (M_bind_step _ _ _ _ _ E4). cbv beta iota.
  rewrite (M_bind_step _ _ _ _ _ E5), (M_bind_step _ _ _ _ _ E6).
  destruct (mmaped p0) eqn:Emm; cbn [negb].
  - assert (later s (out_machine s w b' u (Some a2 :: l))) as Hl by (exists 1%nat; by rewrite Hm).
    destruct (store_mmaped s Hp e f w Hv p0 He b b' u (Some a2 :: l) Hcl Hl Emm HD)
      as (u' & sB & EB & Hcl' & HB & Hst & HmB & HlB).
    rewrite (M_bind_step _ _ _ _ _ EB).
    destruct (finish_out s e f w p0 b b' u' _ _ sB Hp Hv He Hb Hwf Hcnt Hmono Hcl' HB Hst HlB) as (k & s' & E & Hr & Hms).
    exists k, s'. split; [exact E|]. split; [exact Hr|]. right. by rewrite Hms.
  - assert (later s (out_machine s w b' u (Some a2 :: l))) as Hl by (exists 1%nat; by rewrite Hm).
    destruct (store_in_slot s Hp e f w Hv p0 He b b' Hb u l a2 idx Hcl Hl Emm Hidx Hno Hset)
      as (sB & EB & HB & Hst & HmB & HlB).
    rewrite (M_bind_step _ _ _ _ _ EB).
    destruct (finish_out s e f w p0 b b' u _ _ sB Hp Hv He Hb Hwf Hcnt Hmono Hcl HB Hst HlB) as (k & s' & E & Hr & Hms).
    exists k, s'. split; [exact E|]. split; [exact Hr|]. left. by rewrite Hms.
Qed.
End Evict.
