(* ===== verification/FaultLoad.v ===== *)
(** Bringing a page in: the branches of the page-fault handler that fill a
    frame from a file, from the swap disk or with zeros, and map it. *)
From S2P Require Import Prelude Cache Descriptor Mem Str Word Bitmap FreeMap Vaddr Palloc Pagedir PagedirInv PagedirOps PagedirSafety Frame FrameClock Page PageFault FaultBytes FaultInv FaultMoves FaultSteps FaultEvict.

(** The entry of [va] maps the frame [k]; the others have the same core. *)
Record installs (pds : gset Z) (pd va k : Z) (w : bool) (u u' : mmu) : Prop := {
  in_inv : mmu_inv u' pds;
  in_base : base_page_dir u' = base_page_dir u;
  in_user : user_same u u';
  in_pte : pte_of u' pd va = user_entry k w;
  in_core : ∀ pd' va', pd' ∈ pds → uaddr va' → ¬ (pd' = pd ∧ pg_no va' = pg_no va) →
    core (pte_of u' pd' va') = core (pte_of u pd' va')
}.

Section Load.
Context {D F : Type} `{Disk D} {DL : DiskLaws D} `{Files F} {FL : FilesLaws F} (ram_pages : Z) (pds : gset Z).
Abbreviation machine := (PageFault.machine D F).
Abbreviation paging := (paging ram_pages pds).
Implicit Types (s : machine) (t v : Z) (p : page).

(** * Mapping the frame *)

Lemma install_Ok s pd v k w n : paging s → spare s k → pd ∈ pds → pd ≠ base_page_dir (mm s) → uaddr v → v mod 4096 = 0 →
  has (pte_of (mm s) pd v) PTE_P = false →
  (∃ u, install ram_pages pd v k w n s = Ok (true, with_mm u s) ∧ installs pds pd v k w (mm s) u) ∨
  (∃ u, install ram_pages pd v k w n s = Ok (false, say (Whatthe n) (with_mm u s)) ∧
     stable pds s (say (Whatthe n) (with_mm u s)) ∧ no_table u pd v).
Proof using.
  intros Hp Hsp Hpd Hb Hva Hal Hnp. pose proof (paging_mmu _ _ s Hp) as Hu. destruct (spare_addr _ _ s k Hp Hsp) as (Hfa & Hkn & _).
  destruct (pagedir_get_page_Ok (mm s) pds pd v Hu Hpd Hva) as (u1 & E1 & H1 & Hu1); [congruence|].
  unfold translate in E1. rewrite Hnp in E1. cbn [default] in E1.
  pose proof (core_changed (mm s) pd v PTE_A true ltac:(by left)) as Hcc.
  assert (stable pds s (with_mm u1 s)) as Hst by (by eapply stable_step).
  pose proof (es_updates _ _ _ _ _ _ H1 pd v Hpd Hva) as Ev. rewrite decide_True in Ev by done.
  unfold install. rewrite (M_bind_step _ _ _ _ _ (on_pm_Ok _ s _ _ E1)). cbn [Z.eqb NULL negb].
  destruct (pagedir_set_page_cases ram_pages u1 pds pd v k w) as [(u2 & E2 & H2 & _ & Hu2)|[E2 Hno]]; try done.
  { by rewrite (es_base _ _ _ _ _ _ H1). }
  { by rewrite Ev, (core_P _ _ Hcc). }
  - left. exists u2. rewrite (M_bind_step _ _ _ _ _ (on_pm_Ok _ (with_mm u1 s) _ _ E2)). split; [done|].
    split; [done|by rewrite (es_base _ _ _ _ _ _ H2), (es_base _ _ _ _ _ _ H1)| | |].
    + eapply user_same_trans; [apply (es_user _ _ _ _ _ _ H1)|apply (es_user _ _ _ _ _ _ H2)].
    + rewrite (es_updates _ _ _ _ _ _ H2) by done. by rewrite decide_True.
    + intros pd' va' Hpd' Hva' Hne. rewrite (es_updates _ _ _ _ _ _ H2), (es_updates _ _ _ _ _ _ H1) by done.
      by rewrite !decide_False.
  - right. rewrite (M_bind_step _ _ _ _ _ (on_pm_Ok _ (with_mm u1 s) _ _ E2)). cbv beta iota.
    change (with_mm u1 (with_mm u1 s)) with (with_mm u1 s).
    pose proof (stable_paging _ _ s _ Hp Hst) as Hp1.
    assert (spare (with_mm u1 s) k) as Hsp1.
    { destruct Hsp as (? & Hus & Hfree). split; [done|]. split.
      - change (in_use (user_pool (km u1)) k = true). by rewrite (proj1 (es_user _ _ _ _ _ _ H1)).
      - intros t v' p He Hpr. rewrite (stable_kaddr _ _ s _ Hp Hst t v' p) by done.
        rewrite (stable_present _ _ s _ Hp Hst t v' p) in Hpr by done. by apply (Hfree t v' p). }
    destruct (free_spare _ _ (with_mm u1 s) k Hp1 Hsp1) as (s2 & E3 & H3 & k3 & -> & Hks).
    rewrite (M_bind_step _ _ _ _ _ E3). exists (set_km k3 u1). split; [reflexivity|].
    pose proof (stable_paging _ _ _ _ Hp1 H3) as Hp2. split; [|by apply (kernel_no_table u1 pds Hu1 k3 Hks)].
    eapply stable_trans; [exact Hp|exact Hst|]. eapply stable_trans; [exact Hp1|exact H3|]. exact (stable_say _ _ _ _ Hp2).
Qed.

(** * The new frame element *)

Lemma push_frame_Ok s cur pd v e l : mallocs s = Some e :: l →
  push_frame cur pd v s = Ok ((), set_mallocs l (set_mvm (mkVm (mm s) (<[e := mkFrame cur pd v]> (frames (mvm s)))
    (frame_table (mvm s) ++ [e]) (swap_table (mvm s)) (swap_lock (mvm s))) s)).
Proof using.
  intros E. unfold push_frame. by rewrite (M_bind_step _ _ _ _ _ (malloc_Ok s _ _ E)).
Qed.

(** The table with the frame of a page that was not present. *)
Lemma vm_inv_push s e cur v u st : paging s → is_Some (procs s !! cur) → uaddr v → v mod 4096 = 0 →
  (match entry s cur v with Some _ => present s cur v = false | None => True end) →
  PHYS_BASE <= e → frames (mvm s) !! e = None → Z.of_nat (length (frame_table (mvm s))) + 1 < 4294967296 → mmu_inv u pds →
  vm_inv (mkVm u (<[e := mkFrame cur (pd_of s cur) v]> (frames (mvm s))) (frame_table (mvm s) ++ [e]) st false) pds.
Proof using.
  intros Hp [pr Hpr] Hva Hal Hab Hek Hen Hlen Hu. pose proof (pg_vm _ _ s Hp) as [_ Hnd Hsz Hfr Hdi].
  destruct (pg_proc _ _ s Hp cur pr Hpr) as (Hpd & _ & _ & Hcn). assert (pd_of s cur = pagedir pr) as Epd by (unfold pd_of; by rewrite Hpr).
  assert (e ∉ frame_table (mvm s)) as Hn by (intros Hin; destruct (Hfr e Hin) as (f & Hf & _); congruence).
  assert (∀ x, x ∈ frame_table (mvm s) → <[e := mkFrame cur (pd_of s cur) v]> (frames (mvm s)) !! x = frames (mvm s) !! x) as Hold.
  { intros x Hx. rewrite lookup_insert_ne; [done|]. by intros ->. }
  assert (∀ x f, x ∈ frame_table (mvm s) → frames (mvm s) !! x = Some f → page_of f ≠ page_of (mkFrame cur (pd_of s cur) v)) as Hother.
  { intros x f Hx Hf Heq. destruct (pg_frame _ _ s Hp x f Hx Hf) as (p & Ef & He & Hpr' & _).
    destruct (entry_proc _ _ s _ _ p Hp He) as (pr' & Hpp & _). injection Heq as Hpde Hpg. rewrite Ef in Hpde. cbn [fe_pd] in Hpde.
    assert (pd_thread f = cur) as Ht by (apply (pg_pd _ _ s Hp); eauto).
    assert (fe_vaddr f = v) as Hv.
    { destruct (pg_page _ _ s Hp _ _ p He) as [_ Ha _ _ _ _]. rewrite !pg_no_div in Hpg.
      pose proof (Z.div_mod v 4096). pose proof (Z.div_mod (fe_vaddr f) 4096). lia. }
    rewrite Ht, Hv in *. rewrite He in Hab. congruence. }
  split; cbn [vm_mmu frame_table frames].
  - done.
  - apply NoDup_app. splits; [done| |apply NoDup_singleton]. intros x Hx ->%list_elem_of_singleton. done.
  - rewrite length_app. simpl. lia.
  - intros x [Hx| ->%list_elem_of_singleton]%elem_of_app; [rewrite Hold by done; by apply Hfr|].
    rewrite lookup_insert_eq. eexists. split; [done|]. cbn [fe_pd fe_vaddr pd_thread]. by rewrite Epd.
  - intros x y f g [Hx| ->%list_elem_of_singleton]%elem_of_app [Hy| ->%list_elem_of_singleton]%elem_of_app;
      rewrite ?lookup_insert_eq, ?(Hold x), ?(Hold y) by done.
    + by apply Hdi.
    + intros Hf [= <-] Heq. destruct (Hother x f Hx Hf Heq).
    + intros [= <-] Hg Heq. symmetry in Heq. destruct (Hother y g Hy Hg Heq).
    + done.
Qed.

(** * The page in its frame *)

(** What the code has done when the page described by [p1] is mapped, with the
    bytes of its frame as they were in [s]. *)
Record mapped_state s s' (e cur v : Z) (p1 : page) (u : mmu) : Prop := {
  ms_vm : ∃ st, mvm s' = mkVm u (<[e := mkFrame cur (pd_of s cur) v]> (frames (mvm s))) (frame_table (mvm s) ++ [e]) st false;
  ms_procs : procs s' = procs s;
  ms_tables : ∀ t, is_Some (tables s' !! t) ↔ is_Some (tables s !! t);
  ms_entry : ∀ t v', entry s' t v' = if decide (t = cur ∧ v' = v) then Some p1 else entry s t v';
  ms_files : files s' = files s;
  ms_disk : swap_disk s' = swap_disk s;
  ms_swap : ∃ b b', swap_table (mvm s) = Some b ∧ swap_table (mvm s') = Some b' ∧ bitmap_wf b' ∧ bit_cnt b' = bit_cnt b ∧
    ∀ j, bget b j = true → bget b' j = true ∨ ∃ p0, entry s cur v = Some p0 ∧ swap_outed p0 = true ∧ j = swap_index p0;
  ms_malloc : ∃ n i, (i < n)%nat ∧ mallocs s !! i = Some (Some e) ∧ mallocs s' = drop n (mallocs s)
}.

Lemma mapped_maps_in s s' e cur v p1 k u : paging s → spare s k → is_Some (procs s !! cur) →
  installs pds (pd_of s cur) v k (writable p1) (mm s) u → mapped_state s s' e cur v p1 u →
  page_ok v p1 → swap_outed p1 = false →
  match entry s cur v with
  | Some p0 => present s cur v = false ∧ ∃ i, p1 = moved p0 false i
  | None => mmaped p1 = false ∧ load_read_bytes p1 = 0
  end →
  (mmaped p1 = true → take (Z.to_nat (load_read_bytes p1)) (page_bytes (mram (mm s)) k) = file_bytes s p1) →
  maps_in pds s s' e cur v p1 k ∧ page_bytes (mram (mm s')) k = page_bytes (mram (mm s)) k.
Proof using.
  intros Hp Hsp Hpr [Hi Hb Hus Hpte Hcore] [(st & Hvm) Hprocs Htab Hent Hfi Hdi Hsw Hml] Hok Hout Hold Hclean.
  pose proof Hsp as (Hka & Hku & Hkno). destruct (spare_addr _ _ s k Hp Hsp) as (Hfa & _ & _).
  pose proof (paging_kmem _ _ s Hp) as Hkm. assert (mm s' = u) as Em by (unfold mm; by rewrite Hvm).
  assert (∀ t, pd_of s' t = pd_of s t) as Hpd by (intros t; unfold pd_of; by rewrite Hprocs).
  destruct (user_entry_fields ram_pages k (writable p1) Hfa) as (HP & HF & HW).
  assert (∀ k', k' mod 4096 = 0 → in_use (user_pool (km (mm s))) k' = true → page_bytes (mram u) k' = page_bytes (mram (mm s)) k') as Hby
    by (intros k' Ha Hu; apply page_bytes_user; try done; by apply in_use_pool).
  split; [|rewrite Em; by apply Hby].
  destruct Hml as (n & i & Hin & Hi0 & Hdrop). destruct (pg_mallocs _ _ s Hp i e Hi0) as [Hek Hen].
  pose proof (lookup_lt_Some _ _ _ Hi0) as Hlt. pose proof (pg_count _ _ s Hp) as Hct.
  destruct Hok as [Hva Hal Hua Hr Hps Hmm].
  split; unfold present, kaddr, pte_at; rewrite ?Em, ?Hpd, ?Hpte.
  - rewrite Hvm. apply vm_inv_push; try done; [|lia]. destruct (entry s cur v); [by destruct Hold|done].
  - by rewrite Hvm.
  - by rewrite Hvm.
  - by rewrite Hvm.
  - done.
  - by rewrite (proj1 Hus).
  - done.
  - done.
  - done.
  - by split.
  - done.
  - splits; [done|rewrite HF; lia|done].
  - rewrite (proj1 Hus). by splits.
  - intros Hm. rewrite Hby by done. by apply Hclean.
  - intros t v' Hne Hup. rewrite Hpd. pose proof Hup as ([pr Hpr'] & ? & _). apply Hcore; [|done|].
    + unfold pd_of. rewrite Hpr'. by apply (pg_proc _ _ s Hp t pr).
    + by apply (other_slot ram_pages pds s t v' cur v).
  - intros t v' p Hne He Hpr'. destruct (present_kaddr _ _ s t v' p Hp He Hpr') as [Ha Hu]. rewrite (proj1 Hus).
    split; [done|]. by apply Hby.
  - rewrite Hfi. apply same_files_refl, Hp.
  - done.
  - done.
  - by exists n, i.
Qed.

(** What a fault on a page that is not present leaves: all pages with their
    bytes, and the page in memory, or a complaint because there is no page
    table for it and no memory for one. *)
Definition arrived s s' (cur v : Z) : Prop :=
  paging s' ∧ same_pages s s' ∧
  ((present s' cur v = true ∧ log s' = log s) ∨
   (present s' cur v = false ∧ (∃ n, log s' = log s ++ [Whatthe n]) ∧ no_table (mm s') (pd_of s' cur) v)).

Lemma arrive_mapped s s1 s2 e cur v p1 k p : paging s → stable pds s s1 → log s1 = log s →
  entry s1 cur v = Some p → maps_in pds s1 s2 e cur v p1 k → page_bytes (mram (mm s2)) k = holds s1 cur v p →
  log s2 = log s1 → arrived s s2 cur v.
Proof using.
  intros Hp Hst Hl1 He1 Hmp Hby Hl2. pose proof (stable_paging _ _ s s1 Hp Hst) as Hp1.
  split; [by apply (map_paging _ _ s1 s2 _ _ _ _ _ Hp1 Hmp)|]. split.
  - eapply same_pages_trans; [by eapply stable_same_pages|].
    eapply (map_same_pages _ _ s1 s2 _ _ _ _ _ Hp1 Hmp p He1). by rewrite Hby.
  - left. split; [apply (mp_pte _ _ _ _ _ _ _ _ Hmp)|congruence].
Qed.
Lemma arrive_failed s s1 s2 cur v p n : paging s → stable pds s s1 → log s1 = log s → entry s1 cur v = Some p →
  present s1 cur v = false → stable pds s1 s2 → log s2 = log s1 ++ [Whatthe n] → no_table (mm s2) (pd_of s1 cur) v →
  arrived s s2 cur v.
Proof using.
  intros Hp Hst Hl1 He1 Hab1 Hst2 Hl2 Hno. pose proof (stable_paging _ _ s s1 Hp Hst) as Hp1.
  split; [by apply (stable_paging _ _ s1 s2)|]. split; [eapply same_pages_trans; by eapply stable_same_pages|].
  right. rewrite (stable_present _ _ s1 s2 Hp1 Hst2 cur v p) by done. split; [done|]. split; [exists n; by rewrite Hl2, Hl1|].
  by rewrite (st_pd _ _ _ Hst2).
Qed.

(** ** From the file *)

Lemma stable_files s fs : paging s → same_files (files s) fs → stable pds s (set_files fs s).
Proof using.
  intros Hp Hf. pose proof (stable_refl _ _ s Hp) as []. by split.
Qed.

Lemma fill_zeros m k bs : (length bs <= 4096)%nat → page_bytes m k = replicate 4096 0 →
  splice (page_bytes m k) bs 0 = bs ++ replicate (4096 - length bs) 0.
Proof using. intros Hl ->. unfold splice. rewrite take_0, app_nil_l, drop_replicate. reflexivity. Qed.

Lemma file_read_Ok s k p : paging s → spare s k → page_bytes (mram (mm s)) k = replicate 4096 0 →
  0 <= load_read_bytes p <= 4096 → 0 <= load_filepos p → load_filepos p + load_read_bytes p < 2147483648 → backed s p →
  ∃ s', file_read (file_of p) k (load_read_bytes p) (load_filepos p) s = Ok (load_read_bytes p, s') ∧
    stable pds s s' ∧ spare s' k ∧ mallocs s' = mallocs s ∧ log s' = log s ∧
    page_bytes (mram (mm s')) k = file_bytes s p ++ zeros (4096 - load_read_bytes p).
Proof using.
  intros Hp Hsp Hz Hr Hq0 Hq1 (i & d & Hi & Hd & Hl).
  destruct (read_at_ok (files s) (file_of p) i d (load_read_bytes p) (load_filepos p) (pg_files _ _ s Hp) Hi Hd ltac:(lia) Hq0 Hl Hq1)
    as (fs & E & Hfi & Hin & Hct & Hdn).
  assert (file_bytes s p = take (Z.to_nat (load_read_bytes p)) (drop (Z.to_nat (load_filepos p)) d)) as Eb.
  { unfold file_bytes. rewrite Hi. simpl. by rewrite Hd. }
  rewrite <- Eb in E. assert (length (file_bytes s p) = Z.to_nat (load_read_bytes p)) as Hlb.
  { rewrite Eb, length_take, length_drop. lia. }
  pose proof (stable_files s fs Hp ltac:(by split)) as Hst. pose proof (stable_paging _ _ _ _ Hp Hst) as Hp1.
  destruct (store_spare _ _ (set_files fs s) k 0 (file_bytes s p) Hp1 Hsp) as (Es & Hst2 & Hsp2 & Hb2).
  { rewrite Eb. apply Forall_take, Forall_drop. by apply (contents_u8 (files s) i d (pg_files _ _ s Hp)). }
  { rewrite Hlb. lia. }
  rewrite Z.add_0_r in Es, Hst2, Hsp2, Hb2. eexists. splits; [|by eapply stable_trans|exact Hsp2|done|done|].
  - unfold file_read. rewrite !s32_small by lia. rewrite getS_step, (pureM_step _ _ _ _ E). cbv beta iota. rewrite modS_step.
    rewrite (M_bind_step _ _ _ _ _ Es). rewrite Hlb, Z2Nat.id by lia. done.
  - rewrite Hb2. rewrite fill_zeros by (done || rewrite Hlb; lia). rewrite Hlb. unfold zeros. f_equal. f_equal. lia.
Qed.

Lemma lazy_load_Ok s cur v k p e l : paging s → entry s cur v = Some p → present s cur v = false → swap_outed p = false →
  spare s k → page_bytes (mram (mm s)) k = replicate 4096 0 → mallocs s = Some e :: l →
  ∃ s', lazy_load ram_pages cur v k p s = Ok (Returns, s') ∧ arrived s s' cur v.
Proof using.
  intros Hp He Hab Hso Hsp Hz Hm. destruct (entry_proc _ _ s cur v p Hp He) as (pr & Hpr & Epd).
  pose proof (pg_page _ _ s Hp cur v p He) as Hok. pose proof Hok as [_ Hal Hva Hr [Hq0 Hq1] _].
  pose proof (pg_where _ _ s Hp cur v p He) as Hw. rewrite Hab in Hw. destruct Hw as [?|Hbk]; [congruence|].
  unfold lazy_load. rewrite (M_bind_step _ _ _ _ _ (get_proc_Ok s cur pr Hpr)).
  destruct (file_read_Ok s k p Hp Hsp Hz Hr Hq0 Hq1 Hbk) as (s1 & E1 & Hst & Hsp1 & Hm1 & Hl1 & Hb1).
  rewrite (M_bind_step _ _ _ _ _ E1). rewrite s32_small, Z.eqb_refl by lia. cbn [negb].
  pose proof (stable_paging _ _ s s1 Hp Hst) as Hp1.
  assert (entry s1 cur v = Some p) as He1 by by rewrite (stable_entry _ s s1 Hst).
  assert (present s1 cur v = false) as Hab1 by by rewrite (stable_present _ _ s s1 Hp Hst cur v p).
  destruct (entry_pd _ _ s1 cur v p Hp1 He1) as (Hpd & _ & Hnb). pose proof (st_pd _ _ _ Hst cur) as Epd1.
  assert (is_Some (procs s1 !! cur)) as Hpr1 by (apply (st_procs _ _ _ Hst); eauto).
  rewrite <- Epd, <- Epd1.
  destruct (install_Ok s1 (pd_of s1 cur) v k (writable p) 2 Hp1 Hsp1 Hpd Hnb Hva Hal Hab1) as [(u & E2 & Hin)|(u & E2 & Hst2 & Hno)].
  - rewrite (M_bind_step _ _ _ _ _ E2). cbv beta iota.
    assert (mallocs (with_mm u s1) = Some e :: l) as Hmu by (by rewrite <- Hm, <- Hm1).
    rewrite (M_bind_step _ _ _ _ _ (push_frame_Ok (with_mm u s1) cur (pd_of s1 cur) v e l Hmu)).
    set (s2 := set_mallocs l _). exists s2. split; [done|].
    assert (moved p false (swap_index p) = p) as Emv by (rewrite <- Hso; apply moved_self).
    assert (page_bytes (mram (mm s1)) k = holds s1 cur v p) as Hh.
    { unfold holds. rewrite Hab1, Hso, Hb1. by rewrite (stable_file_bytes _ s s1 Hst). }
    destruct (mapped_maps_in s1 s2 e cur v p k u Hp1 Hsp1 Hpr1 Hin) as [Hmp Hby]; [|done|done| | |].
    + split; try done.
      * exists (swap_table (mvm s1)). unfold s2. by rewrite <- (pg_lock _ _ s1 Hp1).
      * intros t v'. change (entry s2 t v') with (entry s1 t v'). case_decide as Hd; [by destruct Hd; subst|done].
      * destruct (pg_swap _ _ s1 Hp1) as (b & Hb & Hwf & _). exists b, b. splits; try done. by left.
      * exists 1%nat, 0%nat. rewrite Hm1, Hm. by splits; [lia| |].
    + rewrite He1. split; [done|]. by exists (swap_index p).
    + intros _. rewrite Hb1. rewrite take_app_le.
      * rewrite (stable_file_bytes _ s s1 Hst). apply take_ge. destruct Hbk as (i & d & Hi & Hd & Hl).
        unfold file_bytes. rewrite Hi. simpl. rewrite Hd, length_take. lia.
      * destruct Hbk as (i & d & Hi & Hd & Hl). unfold file_bytes. rewrite Hi. simpl. rewrite Hd, length_take, length_drop. lia.
    + eapply arrive_mapped; [exact Hp|exact Hst|exact Hl1|exact He1|exact Hmp|by rewrite Hby, Hh|done].
  - rewrite (M_bind_step _ _ _ _ _ E2). eexists. split; [reflexivity|].
    eapply arrive_failed; [exact Hp|exact Hst|exact Hl1|exact He1|exact Hab1|exact Hst2|reflexivity|exact Hno].
Qed.

(** ** From the swap disk *)

Lemma bitmap_set_Ok s b idx : swap_table (mvm s) = Some b → swap_lock (mvm s) = false → bitmap_wf b → 0 <= idx < bit_cnt b →
  ∃ b', on_vm (swap_table_bitmap_set idx false) s = Ok ((), set_mvm (set_swap (Some b') (mvm s)) s) ∧
    bitmap_wf b' ∧ bit_cnt b' = bit_cnt b ∧ ∀ j, bget b j = true → bget b' j = true ∨ j = idx.
Proof using.
  intros Hb Hl Hwf Hi. destruct (bitmap_set_put b idx false Hwf Hi) as (b' & E & Hput). exists b'. split.
  - refine (on_vm_Ok _ s _ _ _). unfold swap_table_bitmap_set. set (v1 := set_swap_lock true (mvm s)).
    rewrite (M_bind_step _ _ _ () v1) by (unfold swap_lock_acquire; rewrite getS_step; by rewrite Hl).
    rewrite (M_bind_step _ _ v1 b v1).
    2: { unfold get_swap_table. rewrite getS_step. unfold pureM. change (swap_table v1) with (swap_table (mvm s)). by rewrite Hb. }
    rewrite (pureM_step _ _ _ _ E), modS_step. unfold swap_lock_release. rewrite getS_step. cbn [swap_lock set_swap set_swap_lock v1].
    rewrite (M_bind_step _ _ _ () (set_swap (Some b') v1)) by done. unfold modS. do 2 f_equal.
    unfold set_swap_lock, set_swap, v1. cbn. by rewrite <- Hl.
  - destruct Hput as (Hwf' & Hcnt & Hg). splits; try done. intros j Hj. destruct (Z.eq_dec j idx) as [->|]; [by right|left].
    rewrite Hg by by apply (bget_pos b). by destruct (Z.eqb_spec idx j).
Qed.

Lemma slot_read_Ok s k p : paging s → spare s k → (∃ t v, entry s t v = Some p) → swap_outed p = true →
  ∃ s', for_slot (read_sector k) (swap_index p) s = Ok ((), s') ∧ stable pds s s' ∧ spare s' k ∧
    mallocs s' = mallocs s ∧ log s' = log s ∧ page_bytes (mram (mm s')) k = slot_at (swap_disk s) (swap_index p).
Proof using DL.
  intros Hp Hsp (t & v & He) Ho. destruct (pg_swap _ _ s Hp) as (b & _ & _ & Hcap & Hw & Hbits).
  destruct (Hbits t v p He Ho) as [Hidx _]. destruct (spare_addr _ _ s k Hp Hsp) as ((_ & Hk0 & _ & Hk1) & _ & Hm).
  assert (swap_index p * 8 + 8 <= capacity (swap_disk s)) as Hcs by lia.
  assert (swap_index p * 8 + 8 < 4294967296) as Hws by lia.
  unfold PHYS_BASE in Hk0. pose proof (slot_length (swap_disk s) (swap_index p) (proj1 Hidx) Hcs) as Hl.
  pose proof (swap_slot_read (swap_index p) k (proj1 Hidx) Hws ltac:(lia) ltac:(lia) s Hm Hcs (pg_sectors _ _ s Hp)) as E.
  destruct (store_spare _ _ s k 0 (slot_at (swap_disk s) (swap_index p)) Hp Hsp) as (_ & Hst & Hsp2 & Hb2).
  { unfold slot_at. rewrite Forall_concat. apply Forall_fmap, Forall_forall. intros c _. apply Hp. }
  { rewrite Hl. lia. }
  rewrite Z.add_0_r in Hst, Hsp2, Hb2. eexists. splits; [exact E|exact Hst|exact Hsp2|done|done|].
  rewrite Hb2. unfold splice. rewrite take_0, app_nil_l, Nat.add_0_l, drop_ge; [apply app_nil_r|].
  rewrite page_bytes_length, Hl. lia.
Qed.

Lemma swap_in_Ok s cur v k p e e' l : paging s → entry s cur v = Some p → present s cur v = false → swap_outed p = true →
  spare s k → mallocs s = Some e :: Some e' :: l →
  ∃ s', swap_in ram_pages cur v k p s = Ok (Returns, s') ∧ arrived s s' cur v.
Proof using DL.
  intros Hp He Hab Hso Hsp Hm. destruct (entry_proc _ _ s cur v p Hp He) as (pr & Hpr & Epd).
  pose proof (pg_page _ _ s Hp cur v p He) as [Hvd Hal Hva Hr Hps Hmm]. unfold swap_in.
  rewrite (M_bind_step _ _ _ _ _ (get_proc_Ok s cur pr Hpr)).
  destruct (slot_read_Ok s k p Hp Hsp ltac:(eauto) Hso) as (s1 & E1 & Hst & Hsp1 & Hm1 & Hl1 & Hb1).
  rewrite (M_bind_step _ _ _ _ _ E1). pose proof (stable_paging _ _ s s1 Hp Hst) as Hp1.
  assert (entry s1 cur v = Some p) as He1 by by rewrite (stable_entry _ s s1 Hst).
  assert (present s1 cur v = false) as Hab1 by by rewrite (stable_present _ _ s s1 Hp Hst cur v p).
  destruct (entry_pd _ _ s1 cur v p Hp1 He1) as (Hpd & _ & Hnb). pose proof (st_pd _ _ _ Hst cur) as Epd1.
  assert (is_Some (procs s1 !! cur)) as Hpr1 by (apply (st_procs _ _ _ Hst); eauto).
  rewrite <- Epd, <- Epd1.
  destruct (install_Ok s1 (pd_of s1 cur) v k (writable p) 3 Hp1 Hsp1 Hpd Hnb Hva Hal Hab1) as [(u & E2 & Hin)|(u & E2 & Hst2 & Hno)].
  2: { rewrite (M_bind_step _ _ _ _ _ E2). eexists. split; [reflexivity|].
    eapply arrive_failed; [exact Hp|exact Hst|exact Hl1|exact He1|exact Hab1|exact Hst2|reflexivity|exact Hno]. }
  rewrite (M_bind_step _ _ _ _ _ E2). cbv beta iota.
  destruct (spt_swap_out_Ok (with_mm u s1) cur v p false 0 e (Some e' :: l)) as (m & Hmt & E3);
    [done|by apply round_aligned|by rewrite <- Hm, <- Hm1|].
  rewrite (M_bind_step _ _ _ _ _ E3). set (s3 := put_page _ _ _ _). rewrite (M_bind_step _ _ s3 () s3) by done.
  destruct (pg_swap _ _ s1 Hp1) as (b & Hb & Hwf & _ & _ & Hbits). destruct (Hbits cur v p He1 Hso) as [Hidx _].
  destruct (bitmap_set_Ok s3 b (swap_index p) Hb (pg_lock _ _ s1 Hp1) Hwf Hidx) as (b' & E4 & Hwf' & Hcnt & Hmono).
  rewrite (M_bind_step _ _ _ _ _ E4). set (s4 := set_mvm _ _).
  rewrite (M_bind_step _ _ _ _ _ (push_frame_Ok s4 cur (pd_of s1 cur) v e' l eq_refl)).
  set (s5 := set_mallocs l _). exists s5. split; [done|].
  assert (page_bytes (mram (mm s1)) k = holds s1 cur v p) as Hh.
  { unfold holds. by rewrite Hab1, Hso, Hb1, (st_disk _ _ _ Hst). }
  destruct (mapped_maps_in s1 s5 e' cur v (moved p false 0) k u Hp1 Hsp1 Hpr1 Hin) as [Hmp Hby]; [|by split|done| | |].
  - split; try done.
    + exists (Some b'). unfold s5. by rewrite <- (pg_lock _ _ s1 Hp1).
    + intros t. apply (tables_put (set_mallocs (Some e' :: l) (with_mm u s1))), Hmt.
    + intros t v'. etransitivity; [apply (entry_put (set_mallocs (Some e' :: l) (with_mm u s1))), Hmt|].
      cbn [moved load_vaddr]. by rewrite Hvd.
    + exists b, b'. splits; try done. intros j Hj. destruct (Hmono j Hj) as [?| ->]; [by left|right]. by exists p.
    + exists 2%nat, 1%nat. rewrite Hm1, Hm. by splits; [lia| |].
  - rewrite He1. split; [done|]. by exists 0.
  - cbn [moved mmaped]. intros Hx. specialize (Hmm Hx). congruence.
  - eapply arrive_mapped; [exact Hp|exact Hst|exact Hl1|exact He1|exact Hmp|by rewrite Hby, Hh|done].
Qed.

(** ** A new page of the stack *)

(** [install] looks at the memory management unit only. *)
Lemma install_elsewhere s s2 pd v k w n : mm s2 = mm s →
  (∀ u, install ram_pages pd v k w n s = Ok (true, with_mm u s) → install ram_pages pd v k w n s2 = Ok (true, with_mm u s2)) ∧
  (∀ u, install ram_pages pd v k w n s = Ok (false, say (Whatthe n) (with_mm u s)) →
     install ram_pages pd v k w n s2 = Ok (false, say (Whatthe n) (with_mm u s2))).
Proof using.
  intros Em. unfold install, on_pm, on_vm, on_mmu, mbind, M_bind. fold (mm s) (mm s2). rewrite Em.
  assert (∀ (b : bool) u1 u (g : machine → machine), mm (g (with_mm u1 s)) = u1 → mm (g (with_mm u s)) = u →
    Ok (b, g (with_mm u1 s)) = Ok (b, g (with_mm u s)) → u1 = u) as Hmm.
  { intros b u1 u g E1 E2 Heq. injection Heq as Heq. rewrite <- E1, <- E2. by rewrite Heq. }
  destruct (pagedir_get_page pd v (mm s)) as [[k0 u0]|]; [|by split]. cbn [mbind outcome_bind].
  destruct (negb (k0 =? NULL)).
  - unfold mret, M_ret. cbn. destruct (on_km (palloc_free_page k) u0) as [[[] u1]|]; cbn; [|by split].
    split; [done|]. intros u Hu. by rewrite (Hmm false u1 u (say (Whatthe n)) eq_refl eq_refl Hu).
  - cbn. destruct (pagedir_set_page ram_pages pd v k w u0) as [[[] u1]|]; cbn; [| |by split].
    + split; [|done]. intros u Hu. by rewrite (Hmm true u1 u id eq_refl eq_refl Hu).
    + destruct (on_km (palloc_free_page k) u1) as [[[] u2]|]; cbn; [|by split]. split; [done|].
      intros u Hu. by rewrite (Hmm false u2 u (say (Whatthe n)) eq_refl eq_refl Hu).
Qed.

(** The stack page [v] of [cur] is there, full of zeros; nothing else changed. *)
Record grown s s' (cur v : Z) : Prop := {
  gr_paging : paging s';
  gr_entry : entry s' cur v = Some (new_stack_page v);
  gr_present : present s' cur v = true;
  gr_holds : holds s' cur v (new_stack_page v) = replicate 4096 0;
  gr_others : ∀ t v', ¬ (t = cur ∧ v' = v) → kept_page s s' t v';
  gr_log : log s' = log s
}.

(** The page table is missing: the new page is known, and a frame element is
    in the table for it, but it is not in memory; the others are as before. *)
Record stranded s s' (cur v : Z) : Prop := {
  sd_entry : entry s' cur v = Some (new_stack_page v);
  sd_present : present s' cur v = false;
  sd_table : no_table (mm s') (pd_of s' cur) v;
  sd_others : ∀ t v', ¬ (t = cur ∧ v' = v) → kept_page s s' t v';
  sd_log : log s' = log s ++ [Whatthe 4]
}.

Lemma holds_elsewhere s s' t v p : mm s' = mm s → procs s' = procs s → swap_disk s' = swap_disk s → files s' = files s →
  holds s' t v p = holds s t v p.
Proof using.
  intros Em Ep Ed Ef. unfold holds, present, frame_bytes, kaddr, pte_at, pd_of, file_bytes. by rewrite Em, Ep, Ed, Ef.
Qed.

(** The condition under which the stack may grow. *)
Definition stack_access (esp fault_addr : Z) : bool :=
  (STACK_BASE <=? fault_addr) && checkheuristic esp fault_addr && is_user_vaddr fault_addr.

Lemma stack_growth_Ok s cur pr fa v k f e e' l : paging s → procs s !! cur = Some pr → entry s cur v = None →
  present s cur v = false → uaddr v → v mod 4096 = 0 → spare s k → page_bytes (mram (mm s)) k = replicate 4096 0 →
  mallocs s = Some e :: Some e' :: l → stack_access (user_esp pr) fa = true →
  ∃ s', stack_growth ram_pages cur fa v k f s = Ok (Returns, s') ∧ (grown s s' cur v ∨ stranded s s' cur v).
Proof using.
  intros Hp Hpr He Hab Hva Hal Hsp Hz Hm Hc. assert (pd_of s cur = pagedir pr) as Epd by (unfold pd_of; by rewrite Hpr).
  destruct (pg_proc _ _ s Hp cur pr Hpr) as (Hpd & Hnb & _ & _). unfold stack_growth.
  rewrite (M_bind_step _ _ _ _ _ (get_proc_Ok s cur pr Hpr)). fold (stack_access (user_esp pr) fa). rewrite Hc.
  rewrite (M_bind_step _ _ _ _ _ (malloc_Ok s _ _ Hm)). set (s1 := set_mallocs (Some e' :: l) s).
  destruct (get_table_Ok s1 cur) as (m & Em & Etm & _); [apply (pg_tables _ _ s Hp); eauto|].
  rewrite (M_bind_step _ _ _ _ _ Em), modS_step. set (s2 := put_page _ _ _ _).
  rewrite (M_bind_step _ _ _ _ _ (push_frame_Ok s2 cur (pagedir pr) v e' l eq_refl)). set (s3 := set_mallocs l _).
  assert (mm s3 = mm s) as Emm by done. destruct (install_elsewhere s s3 (pagedir pr) v k true 4 Emm) as [Hgood Hbad].
  destruct (install_Ok s (pagedir pr) v k true 4 Hp Hsp Hpd Hnb Hva Hal) as [(u & E & Hin)|(u & E & Hst & Hno)].
  { by rewrite <- Epd. }
  2: { rewrite (M_bind_step _ _ _ _ _ (Hbad u E)). eexists. split; [reflexivity|right].
       assert (∀ t v', entry s3 t v' = if decide (t = cur ∧ v' = v) then Some (new_stack_page v) else entry s t v') as Hent
         by (intros t v'; exact (entry_put s1 cur m (new_stack_page v) t v' Etm)).
       assert (user_page s cur v) as Hup by (split; eauto).
       split; [| | | |done].
       - etransitivity; [exact (Hent cur v)|]. by rewrite decide_True.
       - rewrite <- Hab, <- (stable_absent _ _ s _ Hp Hst cur v Hup). done.
       - rewrite <- Epd in Hno. exact Hno.
       - intros t v' Hne. apply kept_page_intro.
         + etransitivity; [exact (Hent t v')|]. by rewrite decide_False.
         + intros p Hep. rewrite <- (stable_holds _ _ s _ Hp Hst t v' p Hep). by apply holds_elsewhere. }
  rewrite (M_bind_step _ _ _ _ _ (Hgood u E)). exists (with_mm u s3). split; [done|left]. rewrite <- Epd in Hin.
  destruct (mapped_maps_in s (with_mm u s3) e' cur v (new_stack_page v) k u Hp Hsp ltac:(eauto) Hin) as [Hmp Hby].
  - split; try done.
    + exists (swap_table (mvm s)). unfold s3. rewrite Epd. by rewrite <- (pg_lock _ _ s Hp).
    + intros t. apply (tables_put s1), Etm.
    + intros t v'. exact (entry_put s1 cur m (new_stack_page v) t v' Etm).
    + destruct (pg_swap _ _ s Hp) as (b & Hb & Hwf & _). exists b, b. splits; try done. by left.
    + exists 2%nat, 1%nat. rewrite Hm. by splits; [lia| |].
  - by split; [| | |cbn; lia|cbn; lia|].
  - done.
  - by rewrite He.
  - done.
  - split; [by eapply map_paging|by apply (map_entry_eq pds s _ _ _ _ _ _ Hmp)|apply (mp_pte _ _ _ _ _ _ _ _ Hmp)| | |done].
    + by rewrite (map_holds_new pds s _ _ _ _ _ _ Hmp), Hby.
    + intros t v' Hne. apply kept_page_intro; [by apply (map_entry_ne pds s _ _ _ _ _ _ Hmp)|]. intros p Hep.
      by apply (map_holds ram_pages pds s _ _ _ _ _ _ Hp Hmp).
Qed.
End Load.
