(* ===== verification/FaultCorrect.v ===== *)
(** The page-fault handler is correct: whatever it does, no page loses its
    bytes, and an access to a page that is not in memory finds it there
    afterwards. *)
From S2P Require Import Prelude Cache Descriptor Mem Str Word Bitmap FreeMap Vaddr Palloc Pagedir PagedirInv PagedirOps PagedirSafety PagedirSteps Frame FrameClock Page PageFault FaultBytes FaultInv FaultMoves FaultSteps FaultEvict FaultLoad.

Section Handler.
Context {D F : Type} `{Disk D} {DL : DiskLaws D} `{Files F} {FL : FilesLaws F} (ram_pages : Z) (pds : gset Z).
Abbreviation machine := (PageFault.machine D F).
Abbreviation paging := (paging ram_pages pds).
Implicit Types (s : machine) (t v : Z) (p : page).

(** * What the handler needs *)

(** The next [n] requests to [malloc] succeed. *)
Definition supply (n : nat) s : Prop := ∀ i, (i < n)%nat → ∃ e, mallocs s !! i = Some (Some e).
(** There is a frame, or a page can be moved out. *)
Definition room s : Prop := ¬ exhausted (user_pool (km (mm s))) 1 ∨ (slot_free s ∧ cold_frame s).

Lemma supply_S n s : supply (S n) s → ∃ e l, mallocs s = Some e :: l ∧ ∀ s', mallocs s' = l → supply n s'.
Proof using.
  intros Hs. destruct (Hs 0%nat ltac:(lia)) as [e He]. destruct (mallocs s) as [|r l] eqn:E; [done|]. injection He as ->.
  exists e, l. split; [done|]. intros s' Hl i Hi. destruct (Hs (S i) ltac:(lia)) as [e' He']. exists e'. rewrite Hl.
  by rewrite E in He'.
Qed.
Lemma supply_le n n' s : (n' <= n)%nat → supply n s → supply n' s.
Proof using. intros Hl Hs i Hi. apply Hs. lia. Qed.

(** A frame for the page, from the pool or from another page. *)
Lemma frame_found s : paging s → room s → supply 5 s →
  ∃ k s', (kpage ← on_pm (on_km (palloc_get_page (Z.lor PAL_USER PAL_ZERO)));
           if kpage =? NULL then swap_out else mret kpage) s = Ok (k, s') ∧ room_made ram_pages pds s s' k ∧ supply 3 s'.
Proof using DL.
  intros Hp Hroom Hsup. fold PAL_USER_ZERO.
  destruct (take_frame ram_pages pds s Hp) as [(k & s' & E & Hn & Hst & Hsp & Hz & u & Eu)|E].
  - exists k, s'. rewrite (M_bind_step _ _ _ _ _ E). destruct (Z.eqb_spec k NULL); [done|]. split; [done|].
    split; [|subst s'; by apply (supply_le 5); [lia|]].
    split; [by eapply stable_paging|by eapply stable_same_pages|exact Hsp|exact Hn|exact Hz|by subst s'|by subst s'|].
    intros t v Hup Hab. rewrite (stable_entry _ s s' Hst). split; [done|]. by rewrite (stable_absent _ _ s s' Hp Hst).
  - rewrite (M_bind_step _ _ _ _ _ E). change (NULL =? NULL) with true. cbv beta iota.
    destruct Hroom as [Hno|[Hfree Hcold]].
    { destruct Hno. apply on_pm_inv in E as (u & Eg & _). unfold on_km in Eg. apply bind_Ok in Eg as ([a k2] & Eg & [= -> _]).
      eapply no_page_left; [|exact Eg]. by eapply paging_kmem. }
    destruct (supply_S 4 s Hsup) as (a1 & l1 & Hm & Hsup1). destruct (supply_S 3 (set_mallocs l1 s) (Hsup1 (set_mallocs l1 s) eq_refl)) as (a2 & l & Hm2 & Hsup2).
    cbn [mallocs set_mallocs] in Hm2. subst l1.
    destruct (swap_out_Ok ram_pages pds s a1 a2 l Hp Hm Hfree Hcold) as (k & s' & Es & Hr & Hms). exists k, s'.
    split; [exact Es|]. split; [exact Hr|]. destruct Hms as [Hms|Hms]; [by apply Hsup2|]. apply (supply_le 4); [lia|]. by apply Hsup1.
Qed.

(** * The handler from the frame on *)

Lemma lock_round s : paging s → on_vm swap_lock_acquire s = Ok ((), set_mvm (set_swap_lock true (mvm s)) s) ∧
  on_vm swap_lock_release (set_mvm (set_swap_lock true (mvm s)) s) = Ok ((), s).
Proof using.
  intros Hp. pose proof (pg_lock _ _ s Hp) as Hl. split.
  - refine (on_vm_Ok _ s _ _ _). unfold swap_lock_acquire. rewrite getS_step. by rewrite Hl.
  - unfold on_vm, swap_lock_release. rewrite getS_step. cbn [mvm set_mvm swap_lock set_swap_lock].
    rewrite (M_bind_step _ _ _ () (set_swap_lock true (mvm s))) by done. destruct s as [[]]. cbn in *. by subst.
Qed.

Lemma kept_arrived s s1 s' cur v : same_pages s s1 → log s1 = log s → arrived ram_pages pds s1 s' cur v →
  arrived ram_pages pds s s' cur v.
Proof using.
  intros Hs Hl (Hp & Ha & Hw). split; [exact Hp|]. split; [by eapply same_pages_trans|]. by rewrite Hl in Hw.
Qed.
Lemma kept_stranded s s1 s' cur v : same_pages s s1 → log s1 = log s → stranded s1 s' cur v → stranded s s' cur v.
Proof using.
  intros Hs Hl [? ? ? Ho ?]. split; try done; [|congruence]. intros t v' Hne. eapply kept_page_trans; [apply Hs|by apply Ho].
Qed.
Lemma kept_grown s s1 s' cur v : same_pages s s1 → log s1 = log s → grown ram_pages pds s1 s' cur v →
  grown ram_pages pds s s' cur v.
Proof using.
  intros Hs Hl [? ? ? ? Ho ?]. split; try done; [|congruence]. intros t v' Hne. eapply kept_page_trans; [apply Hs|by apply Ho].
Qed.

Lemma bring_in_known s cur fa k f p : let v := pg_round_down fa in
  paging s → uaddr fa → entry s cur v = Some p → present s cur v = false → spare s k →
  page_bytes (mram (mm s)) k = replicate 4096 0 → supply 3 s → Z.land (error_code f) PF_P = 0 →
  ∃ s', bring_in ram_pages cur fa k f s = Ok (Returns, s') ∧ arrived ram_pages pds s s' cur v.
Proof using DL.
  intros v Hp Hfa He Hab Hsp Hz Hsup Herr. destruct (round_user fa Hfa) as [Hva Hal]. fold v in Hva, Hal.
  destruct (entry_proc _ _ s cur v p Hp He) as (pr & Hpr & _).
  destruct (supply_S 2 s Hsup) as (a & l & Hm & Hsup1). unfold bring_in. fold v. rewrite Herr.
  assert (is_Some (tables s !! cur)) as Ht by (apply (pg_tables _ _ s Hp); eauto).
  rewrite (M_bind_step _ _ _ _ _ (spt_lookup_Ok s cur v a l Ht Hm)). rewrite round_aligned, He by done. cbv beta iota.
  pose proof (stable_malloc _ _ s _ l Hp Hm) as Hst. pose proof (stable_paging _ _ _ _ Hp Hst) as Hp1.
  destruct (lock_round (set_mallocs l s) Hp1) as [E1 E2].
  rewrite (M_bind_step _ _ _ _ _ E1), (M_bind_step _ _ _ _ _ E2). change (0 =? 0) with true. cbv beta iota.
  destruct (supply_S 1 (set_mallocs l s) (Hsup1 (set_mallocs l s) eq_refl)) as (e & l1 & Hm1 & Hsup2).
  assert (∀ s', arrived ram_pages pds (set_mallocs l s) s' cur v → arrived ram_pages pds s s' cur v) as Hback
    by (intros s'; apply kept_arrived; [by eapply stable_same_pages|reflexivity]).
  destruct (swap_outed p) eqn:Eo; cbn [negb].
  - destruct (supply_S 0 (set_mallocs l1 s) (Hsup2 (set_mallocs l1 s) eq_refl)) as (e' & l2 & Hm2 & _). cbn [mallocs set_mallocs] in Hm1, Hm2. subst l1.
    destruct (swap_in_Ok ram_pages pds (set_mallocs l s) cur v k p e e' l2) as (s' & E & Ha); try done. exists s'. split; [exact E|exact (Hback s' Ha)].
  - destruct (lazy_load_Ok ram_pages pds (set_mallocs l s) cur v k p e l1) as (s' & E & Ha); try done. exists s'. split; [exact E|exact (Hback s' Ha)].
Qed.

(** What [kill] prints. *)
Definition last_words (cur : Z) (f : intr_frame) : message :=
  if (cs f =? SEL_UCSEG) || (cs f =? SEL_KCSEG) then ExitMessage cur else UnknownSegment (cs f).
Lemma kill_Ok cur f s : kill cur f s = Ok (Exits, say (last_words cur f) s).
Proof using. unfold kill, last_words. by destruct ((cs f =? SEL_UCSEG) || (cs f =? SEL_KCSEG)). Qed.

Lemma bring_in_unknown s cur pr fa k f : let v := pg_round_down fa in
  paging s → procs s !! cur = Some pr → uaddr fa → entry s cur v = None → present s cur v = false → spare s k →
  page_bytes (mram (mm s)) k = replicate 4096 0 → supply 3 s →
  ∃ r s', bring_in ram_pages cur fa k f s = Ok (r, s') ∧
    if stack_access (user_esp pr) fa then r = Returns ∧ (grown ram_pages pds s s' cur v ∨ stranded s s' cur v)
    else r = Exits ∧ paging s' ∧ same_pages s s' ∧ log s' = log s ++ [last_words cur f].
Proof using.
  intros v Hp Hpr Hfa He Hab Hsp Hz Hsup. destruct (round_user fa Hfa) as [Hva Hal]. fold v in Hva, Hal.
  destruct (supply_S 2 s Hsup) as (a & l & Hm & Hsup1). unfold bring_in. fold v.
  assert (is_Some (tables s !! cur)) as Ht by (apply (pg_tables _ _ s Hp); eauto).
  rewrite (M_bind_step _ _ _ _ _ (spt_lookup_Ok s cur v a l Ht Hm)). rewrite round_aligned, He by done. cbv beta iota.
  pose proof (stable_malloc _ _ s _ l Hp Hm) as Hst. pose proof (stable_paging _ _ _ _ Hp Hst) as Hp1.
  destruct (stack_access (user_esp pr) fa) eqn:Ea.
  - destruct (supply_S 1 (set_mallocs l s) (Hsup1 (set_mallocs l s) eq_refl)) as (e & l1 & Hm1 & Hsup2).
    destruct (supply_S 0 (set_mallocs l1 s) (Hsup2 (set_mallocs l1 s) eq_refl)) as (e' & l2 & Hm2 & _). cbn [mallocs set_mallocs] in Hm1, Hm2. subst l1.
    destruct (stack_growth_Ok ram_pages pds (set_mallocs l s) cur pr fa v k f e e' l2) as (s' & E & Ha); try done.
    exists Returns, s'. split; [exact E|]. split; [done|]. destruct Ha as [Ha|Ha]; [left; eapply kept_grown|right; eapply kept_stranded];
      [by eapply stable_same_pages| |exact Ha|by eapply stable_same_pages| |exact Ha]; reflexivity.
  - unfold stack_growth. rewrite (M_bind_step _ _ _ _ _ (get_proc_Ok (set_mallocs l s) cur pr Hpr)).
    fold (stack_access (user_esp pr) fa). rewrite Ea, kill_Ok. eexists _, _. split; [done|]. split; [done|].
    pose proof (stable_say _ _ _ (last_words cur f) Hp1) as Hst2. splits; [by eapply stable_paging| |done].
    eapply same_pages_trans; by eapply stable_same_pages.
Qed.

(** * The handler *)

(** What a fault at [fa] leaves behind: a page the process knows of arrives;
    an access to the stack makes the stack grow; any other kills the process. *)
Definition fault_served s (cur : Z) (pr : proc) (fa : Z) (f : intr_frame) (r : verdict) s' : Prop :=
  let v := pg_round_down fa in
  match entry s cur v with
  | Some _ => r = Returns ∧ arrived ram_pages pds s s' cur v
  | None =>
      if stack_access (new_esp pr f) fa
      then r = Returns ∧ (grown ram_pages pds s s' cur v ∨ stranded s s' cur v)
      else r = Exits ∧ paging s' ∧ same_pages s s' ∧ log s' = log s ++ [last_words cur f]
  end.

(** The state in which the handler looks for a frame. *)
Definition noted s (cur : Z) (f : intr_frame) s1 : Prop := note_esp cur f (count_fault s) = Ok ((), s1).

(** A frame is at hand: the handler goes on with [bring_in]. *)
Record ready s (cur : Z) (pr : proc) (f : intr_frame) (k : Z) s' : Prop := {
  rd_goes : ∀ fa, page_fault ram_pages cur fa f s = bring_in ram_pages cur fa k f s';
  rd_paging : paging s';
  rd_same : same_pages s s';
  rd_spare : spare s' k;
  rd_zero : page_bytes (mram (mm s')) k = replicate 4096 0;
  rd_proc : procs s' !! cur = Some (mkProc (pagedir pr) (new_esp pr f));
  rd_log : log s' = log s;
  rd_supply : supply 3 s';
  rd_absent : ∀ v, user_page s cur v → present s cur v = false → entry s' cur v = entry s cur v ∧ present s' cur v = false
}.

Lemma frame_ready s cur pr f : paging s → procs s !! cur = Some pr → 0 <= esp f → supply 5 s →
  (∀ s1, noted s cur f s1 → room s1) → ∃ k s', ready s cur pr f k s'.
Proof using DL.
  intros Hp Hpr Hesp Hsup Hroom. pose proof (stable_count _ _ s Hp) as Hc. pose proof (stable_paging _ _ _ _ Hp Hc) as Hpc.
  destruct (note_esp_Ok _ _ (count_fault s) cur pr f Hpc Hpr Hesp) as (s1 & E1 & Hst & Hm1 & Hl1 & Hpr1).
  pose proof (stable_trans _ _ _ _ _ Hp Hc Hst) as Hs1. pose proof (stable_paging _ _ _ _ Hp Hs1) as Hp1.
  destruct (frame_found s1 Hp1 (Hroom s1 E1)) as (k & s2 & E2 & [Hp2 Hsame Hsp Hn Hz Hpr2 Hl2 Habs] & Hsup2).
  { intros i Hi. rewrite Hm1. by apply Hsup. }
  exists k, s2. split; [|exact Hp2| |exact Hsp|exact Hz| | |exact Hsup2|].
  - intros fa. unfold page_fault. rewrite modS_step, (M_bind_step _ _ _ _ _ E1). revert E2. unfold mbind, M_bind.
    destruct (on_pm _ s1) as [[k0 s0]|]; [|done]. intros ->. by destruct (Z.eqb_spec k NULL).
  - eapply same_pages_trans; [by eapply stable_same_pages|done].
  - by rewrite Hpr2.
  - by rewrite Hl2.
  - intros v Hup Hab. assert (user_page s1 cur v) as Hup1 by (destruct Hup as [_ ?]; split; eauto).
    destruct (Habs cur v Hup1) as [He2 Hab2]; [by rewrite (stable_absent _ _ s s1 Hp Hs1)|].
    by rewrite (stable_entry _ s s1 Hs1) in He2.
Qed.

Lemma page_fault_Ok s cur pr fa f : paging s → procs s !! cur = Some pr → uaddr fa → 0 <= esp f → supply 5 s →
  present s cur (pg_round_down fa) = false → Z.land (error_code f) PF_P = 0 → (∀ s1, noted s cur f s1 → room s1) →
  ∃ r s', page_fault ram_pages cur fa f s = Ok (r, s') ∧ fault_served s cur pr fa f r s'.
Proof using DL.
  intros Hp Hpr Hfa Hesp Hsup Hab Herr Hroom. destruct (round_user fa Hfa) as [Hva Hal]. set (v := pg_round_down fa) in *.
  destruct (frame_ready s cur pr f Hp Hpr Hesp Hsup Hroom) as (k & s2 & [Hgo Hp2 Hss Hsp Hz Hpr2 Hlog Hsup2 Habs]).
  destruct (Habs v) as [He2 Hab2]; [by split; eauto|done|]. rewrite Hgo. unfold fault_served. fold v. rewrite <- He2.
  destruct (entry s2 cur v) as [p|] eqn:Ee.
  - destruct (bring_in_known s2 cur fa k f p Hp2 Hfa Ee Hab2 Hsp Hz Hsup2 Herr) as (s' & E & Ha & Hs' & Hw).
    exists Returns, s'. split; [exact E|]. split; [done|]. rewrite Hlog in Hw. split; [done|]. split; [|done].
    by eapply same_pages_trans.
  - destruct (bring_in_unknown s2 cur _ fa k f Hp2 Hpr2 Hfa Ee Hab2 Hsp Hz Hsup2) as (r & s' & E & Ho).
    exists r, s'. split; [exact E|]. cbn [user_esp] in Ho. destruct (stack_access (new_esp pr f) fa).
    + destruct Ho as [-> [Hg|Hl]]; (split; [done|]); [left; by eapply kept_grown|right; by eapply kept_stranded].
    + destruct Ho as (-> & Hp' & Hs' & Hl). rewrite Hlog in Hl. splits; try done. by eapply same_pages_trans.
Qed.
End Handler.
