(* ===== verification/FaultUser.v ===== *)
(** User programs see a flat memory: the loads and stores of a program, with
    the page faults they cause, read and write the bytes of its pages as if
    every page were in memory. *)
From S2P Require Import Prelude Cache Descriptor Mem Str Word Bitmap FreeMap Vaddr Palloc Pagedir PagedirInv PagedirOps PagedirSafety PagedirSteps Frame FrameClock Page PageFault FaultBytes FaultInv FaultMoves FaultSteps FaultEvict FaultLoad FaultCorrect.

Section User.
Context {D F : Type} `{Disk D} {DL : DiskLaws D} `{Files F} {FL : FilesLaws F} (ram_pages : Z) (pds : gset Z).
Abbreviation machine := (PageFault.machine D F).
Abbreviation paging := (paging ram_pages pds).
Implicit Types (s : machine) (t v : Z) (p : page).

(** * Accesses of the processor *)

(** A translation that is allowed marks the entry accessed, and dirty if it is
    for a store; one that is not allowed faults. *)
Definition cpu_load t va : M machine (option Z) :=
  s ← getS;
  let v := pg_round_down va in
  if present s t v then
    on_pm (assign_flag (pd_of s t) v PTE_A true);;
    bs ← on_mem (load_bytes 1 (kaddr s t v + va mod 4096));
    mret (head bs)
  else mret None.
Definition cpu_store t va (b : Z) : M machine bool :=
  s ← getS;
  let v := pg_round_down va in
  if present s t v && has (pte_at s t v) PTE_W then
    on_pm (assign_flag (pd_of s t) v PTE_A true);;
    on_pm (assign_flag (pd_of s t) v PTE_D true);;
    on_mem (store_bytes (kaddr s t v + va mod 4096) [b]);;
    mret true
  else mret false.

(** The instruction is executed again when the handler returns. *)
Definition user_load t va (f : intr_frame) : M machine (option Z) :=
  r ← cpu_load t va;
  match r with
  | Some b => mret (Some b)
  | None => w ← page_fault ram_pages t va f; match w with Returns => cpu_load t va | Exits => mret None end
  end.
Definition user_store t va b (f : intr_frame) : M machine bool :=
  r ← cpu_store t va b;
  if (r : bool) then mret true
  else w ← page_fault ram_pages t va f; match w with Returns => cpu_store t va b | Exits => mret false end.

(** * A store into a page *)

Record writes s t0 v0 (bs : list Z) (u : mmu) : Prop := {
  wr_inv : mmu_inv u pds;
  wr_base : base_page_dir u = base_page_dir (mm s);
  wr_pool : user_pool (km u) = user_pool (km (mm s));
  wr_core : ∀ t v p, ¬ (t = t0 ∧ v = v0) → entry s t v = Some p → core (pte_of u (pd_of s t) v) = core (pte_at s t v);
  wr_target : core (pte_of u (pd_of s t0) v0) =
    (has (pte_at s t0 v0) PTE_P, frame (pte_at s t0 v0), has (pte_at s t0 v0) PTE_W, true);
  wr_others : ∀ t v p, ¬ (t = t0 ∧ v = v0) → entry s t v = Some p → present s t v = true →
    page_bytes (mram u) (kaddr s t v) = frame_bytes s t v;
  wr_bytes : page_bytes (mram u) (kaddr s t0 v0) = bs
}.

Section Write.
Context s t0 v0 p0 bs u (Hp : paging s) (He0 : entry s t0 v0 = Some p0) (Hpr0 : present s t0 v0 = true) (Hw : writes s t0 v0 bs u).
Abbreviation s' := (with_mm u s).

Lemma write_core_but_D t v p : entry s t v = Some p →
  present s' t v = present s t v ∧ kaddr s' t v = kaddr s t v ∧ has (pte_at s' t v) PTE_W = has (pte_at s t v) PTE_W ∧
  (¬ (t = t0 ∧ v = v0) → has (pte_at s' t v) PTE_D = has (pte_at s t v) PTE_D).
Proof using Hw.
  intros He. unfold present, kaddr. change (pte_at s' t v) with (pte_of u (pd_of s t) v).
  destruct (decide (t = t0 ∧ v = v0)) as [[-> ->]|Hne].
  - pose proof (wr_target _ _ _ _ _ Hw) as Ht. unfold core in Ht. injection Ht as HP HF HWr _. rewrite HP, HF, HWr.
    splits; try done. by intros [].
  - pose proof (wr_core _ _ _ _ _ Hw t v p Hne He) as Hc.
    rewrite (core_P _ _ Hc), (core_frame _ _ Hc), (core_W _ _ Hc), (core_D _ _ Hc). done.
Qed.

Lemma write_frame_bytes t v p : entry s t v = Some p → present s t v = true →
  frame_bytes s' t v = if decide (t = t0 ∧ v = v0) then bs else frame_bytes s t v.
Proof using Hw.
  intros He Hpr. unfold frame_bytes at 1. destruct (write_core_but_D t v p He) as (_ & -> & _).
  change (mram (mm s')) with (mram u). case_decide as Hd; [destruct Hd as [-> ->]; apply Hw|by eapply (wr_others _ _ _ _ _ Hw)].
Qed.

Lemma write_holds t v p : entry s t v = Some p →
  holds s' t v p = if decide (t = t0 ∧ v = v0) then bs else holds s t v p.
Proof using Hw Hpr0.
  intros He. unfold holds. destruct (write_core_but_D t v p He) as (-> & _). destruct (present s t v) eqn:Ep.
  - by apply (write_frame_bytes t v p).
  - rewrite decide_False; [done|]. intros [-> ->]. congruence.
Qed.

Lemma write_paging : paging s'.
Proof using Hp He0 Hpr0 Hw.
  pose proof (wr_pool _ _ _ _ _ Hw) as Hpool. split; try apply Hp.
  - apply vm_inv_mmu; [apply Hp|apply Hw].
  - change (mm s') with u. rewrite Hpool. apply Hp.
  - intros t pr Hpr. change (mm s') with u. rewrite (wr_base _ _ _ _ _ Hw). by apply Hp.
  - intros t v p He. destruct (write_core_but_D t v p He) as (-> & _). by apply (pg_where _ _ s Hp).
  - intros e f Hin Hf. destruct (pg_frame _ _ s Hp e f Hin Hf) as (p & Ef & He & Hpr & Hal & Hu & HW). exists p.
    destruct (write_core_but_D _ _ p He) as (-> & -> & -> & _). change (mm s') with u. rewrite Hpool. by splits.
  - intros e e' f f' Hin Hin' Hf Hf' Hk. destruct (pg_frame _ _ s Hp e f Hin Hf) as (p & _ & He & _).
    destruct (pg_frame _ _ s Hp e' f' Hin' Hf') as (p' & _ & He' & _).
    destruct (write_core_but_D _ _ p He) as (_ & Hk1 & _), (write_core_but_D _ _ p' He') as (_ & Hk2 & _).
    rewrite Hk1, Hk2 in Hk. by eapply (pg_frames_apart _ _ s Hp).
  - intros t v p He Hm. destruct (pg_mmap _ _ s Hp t v p He Hm) as (Hb & Hd & Hc). splits; [done|done|].
    destruct (write_core_but_D t v p He) as (-> & _ & _ & HD). intros Hpr Hdirty.
    destruct (decide (t = t0 ∧ v = v0)) as [[-> ->]|Hne].
    + exfalso. pose proof (wr_target _ _ _ _ _ Hw) as Ht. unfold core in Ht. injection Ht as _ _ _ HDt.
      change (pte_at s' t0 v0) with (pte_of u (pd_of s t0) v0) in Hdirty. congruence.
    + rewrite (write_frame_bytes t v p) by done. rewrite decide_False by done. apply Hc; [done|]. by rewrite <- HD.
Qed.
End Write.

(** * One access to a page in memory *)

(** Marking a present entry dirty. *)
Lemma core_dirty u pd v e : core (pte_of u pd v) = core e → has e PTE_P = true →
  core (changed u pd v (flag_value PTE_D true)) = (has e PTE_P, frame e, has e PTE_W, true).
Proof using.
  intros Hc HP. unfold changed, flag_value. destruct (pte_slot u pd v) as [a|] eqn:Es.
  - assert (∀ x, has (Z.lor x PTE_D) PTE_P = has x PTE_P ∧ frame (Z.lor x PTE_D) = frame x ∧
      has (Z.lor x PTE_D) PTE_W = has x PTE_W ∧ has (Z.lor x PTE_D) PTE_D = true) as Hl.
    { intros x. unfold has, frame. rewrite !Z.land_lor_distr_l. change (Z.land PTE_D PTE_P) with 0.
      change (Z.land PTE_D PTE_ADDR) with 0. change (Z.land PTE_D PTE_W) with 0. rewrite !Z.lor_0_r. splits; try done.
      apply negb_true_iff, Z.eqb_neq. intros [_ Hx]%Z.lor_eq_0_iff. done. }
    unfold core at 1. destruct (Hl (pte_of u pd v)) as (-> & -> & -> & ->).
    by rewrite (core_P _ _ Hc), (core_frame _ _ Hc), (core_W _ _ Hc).
  - exfalso. apply core_P in Hc. unfold pte_of in Hc. rewrite Es, HP in Hc. done.
Qed.

Lemma present_W s t v p : paging s → entry s t v = Some p → present s t v = true → has (pte_at s t v) PTE_W = writable p.
Proof using.
  intros Hp He Hpr. destruct (present_frame _ _ s t v p Hp He Hpr) as (e & Hin & Hf).
  destruct (pg_frame _ _ s Hp e _ Hin Hf) as (p' & _ & He' & _ & _ & _ & HW). cbn [pd_thread fe_vaddr] in *. congruence.
Qed.

Lemma cpu_load_Ok s t va p : let v := pg_round_down va in
  paging s → uaddr va → entry s t v = Some p → present s t v = true →
  ∃ s', cpu_load t va s = Ok (holds s t v p !! Z.to_nat (va mod 4096), s') ∧ stable pds s s' ∧ log s' = log s.
Proof using.
  intros v Hp Hva He Hpr. destruct (entry_pd _ _ s t v p Hp He) as (Hpd & Hv & _).
  destruct (flag_step _ _ s (pd_of s t) v PTE_A true Hp Hpd Hv ltac:(by left)) as (u & E & Hst).
  destruct (present_kaddr _ _ s t v p Hp He Hpr) as [Hal Hu]. pose proof (Z.mod_pos_bound va 4096 ltac:(lia)) as Ho.
  exists (with_mm u s). splits; [|done|done]. unfold cpu_load. rewrite getS_step. fold v. rewrite Hpr.
  rewrite (M_bind_step _ _ _ _ _ (on_pm_Ok _ s _ _ E)). destruct (st_bytes _ _ _ Hst t v p He Hpr) as [Hu' Hb].
  pose proof (stable_paging _ _ _ _ Hp Hst) as Hp1. change (mm (with_mm u s)) with u in *.
  assert (bytes_at (mram u) (kaddr s t v) (frame_bytes s t v)) as Hby.
  { rewrite <- Hb. apply page_bytes_at, (user_page_mapped (km u)); [exact (paging_kmem _ _ _ Hp1)|done|by apply in_use_pool]. }
  unfold holds. rewrite Hpr. unfold frame_bytes in *. rewrite page_bytes_lookup in * by lia.
  pose proof (page_bytes_lookup (mram (mm s)) (kaddr s t v) (Z.to_nat (va mod 4096)) ltac:(lia)) as Hl. set (b := default 0 _) in *.
  apply Hby in Hl. rewrite Z2Nat.id in Hl by lia.
  assert (on_mem (load_bytes 1 (kaddr s t v + va mod 4096)) (with_mm u s) = Ok ([b], with_mm u s)) as El.
  { rewrite <- (with_ram_same (with_mm u s)) at 2. apply on_mem_Ok. change 1%nat with (length [b]). apply load_bytes_Ok.
    apply bytes_at_cons. split; [exact Hl|apply bytes_at_nil]. }
  by rewrite (M_bind_step _ _ _ _ _ El).
Qed.

(** The store, as one change of the entry and one of the memory. *)
Lemma cpu_store_writes s t va p b : let v := pg_round_down va in
  paging s → uaddr va → entry s t v = Some p → present s t v = true → writable p = true → is_u8 b →
  ∃ u, cpu_store t va b s = Ok (true, with_mm u s) ∧ writes s t v (splice (frame_bytes s t v) [b] (Z.to_nat (va mod 4096))) u.
Proof using.
  intros v Hp Hva He Hpr HW Hb. destruct (entry_pd _ _ s t v p Hp He) as (Hpd & Hv & _).
  destruct (present_kaddr _ _ s t v p Hp He Hpr) as [Hal Hu]. pose proof (Z.mod_pos_bound va 4096 ltac:(lia)) as Ho.
  set (o := Z.to_nat (va mod 4096)). assert (kaddr s t v + va mod 4096 = kaddr s t v + Z.of_nat o) as Ea by (unfold o; lia).
  unfold cpu_store. rewrite getS_step. fold v. rewrite Hpr, (present_W s t v p) by done. rewrite HW, Ea. cbn [andb].
  pose proof (paging_mmu _ _ s Hp) as Hmu.
  destruct (assign_flag_Ok (mm s) pds (pd_of s t) v PTE_A true Hmu Hpd Hv ltac:(by unfold is_u32)) as (u1 & E1 & S1 & _).
  pose proof (assign_flag_inv _ pds _ _ PTE_A true u1 Hmu Hpd Hv ltac:(by unfold is_u32) eq_refl E1) as Hi1.
  destruct (assign_flag_Ok u1 pds (pd_of s t) v PTE_D true Hi1 Hpd Hv ltac:(by unfold is_u32)) as (u2 & E2 & S2 & _).
  pose proof (assign_flag_inv _ pds _ _ PTE_D true u2 Hi1 Hpd Hv ltac:(by unfold is_u32) eq_refl E2) as Hi2.
  pose proof (user_same_trans _ _ _ (es_user _ _ _ _ _ _ S1) (es_user _ _ _ _ _ _ S2)) as [Hpool Hmem].
  assert (in_pool (user_pool (km u2)) (kaddr s t v) = true) as Hin2 by (rewrite Hpool; by apply in_use_pool).
  pose proof (mo_inv _ _ (mi_mm _ _ Hi2)) as Hk2. pose proof (user_page_mapped _ _ Hk2 Hal Hin2) as Hm2.
  set (m' := put_bytes (kaddr s t v + Z.of_nat o) [b] (mram u2)). set (k' := set_ram m' (km u2)).
  assert (kernel_same (km u2) k') as Hks by (apply (kernel_same_put _ _ _ (kaddr s t v)); try done; simpl; lia).
  assert (kmem_inv k') as Hk' by (apply kmem_inv_set_ram; [done|by apply Forall_singleton]).
  assert (∀ q, q mod 4096 = 0 → in_use (user_pool (km (mm s))) q = true → page_bytes (mram u2) q = page_bytes (mram (mm s)) q) as Hpb.
  { intros q Hq Hqu. apply page_bytes_user; [by eapply paging_kmem|done|done|by apply in_use_pool]. }
  exists (set_km k' u2). split.
  { rewrite (M_bind_step _ _ _ _ _ (on_pm_Ok _ s _ _ E1)), (M_bind_step _ _ _ _ _ (on_pm_Ok _ (with_mm u1 s) _ _ E2)).
    rewrite (M_bind_step _ _ _ () (with_mm (set_km k' u2) s)); [done|]. refine (on_mem_Ok _ (with_mm u2 s) _ _ _).
    apply store_bytes_Ok; [by apply Forall_singleton|]. eapply mapped_sub; [exact Hm2|lia|simpl; lia]. }
  split.
  - by apply kernel_mmu_inv.
  - cbn [base_page_dir set_km]. by rewrite (es_base _ _ _ _ _ _ S2), (es_base _ _ _ _ _ _ S1).
  - exact Hpool.
  - intros t' v' p' Hne He'. destruct (entry_pd _ _ s t' v' p' Hp He') as (Hpd' & Hv' & _). rewrite (kernel_pte u2 pds Hi2 k' Hks) by done.
    rewrite (es_updates _ _ _ _ _ _ S2), (es_updates _ _ _ _ _ _ S1) by done.
    pose proof (other_slot _ _ s t' v' t v Hp ltac:(by eapply entry_user_page) ltac:(by eapply entry_user_page) Hne). by rewrite !decide_False.
  - rewrite (kernel_pte u2 pds Hi2 k' Hks) by done. rewrite (es_updates _ _ _ _ _ _ S2) by done. rewrite decide_True by done.
    pose proof (es_updates _ _ _ _ _ _ S1 (pd_of s t) v Hpd Hv) as Ev. rewrite decide_True in Ev by done.
    apply core_dirty; [|exact Hpr]. rewrite Ev. apply core_changed. by left.
  - intros t' v' p' Hne He' Hpr'. destruct (present_kaddr _ _ s t' v' p' Hp He' Hpr') as [Hal' Hu'].
    assert (kaddr s t' v' ≠ kaddr s t v) as Hkne by (intros Hk; apply Hne; by apply (kaddr_inj _ _ s t' v' p' t v p Hp)).
    unfold frame_bytes. rewrite <- Hpb by done. apply page_bytes_ext. intros a Ha. apply put_bytes_ne.
    pose proof (pages_disjoint _ (kaddr s t v) a Hal' Hal Hkne Ha). simpl. lia.
  - change (page_bytes m' (kaddr s t v) = splice (frame_bytes s t v) [b] o). unfold m', frame_bytes. rewrite page_bytes_put by (simpl; lia). by rewrite Hpb.
Qed.

(** * The memory of a program *)

(** What a program finds at a page: its bytes, wherever they are. *)
Definition image s t v : option (list Z) := (λ p, take (extent p) (holds s t v p)) <$> entry s t v.
Definition may_write s t v : bool := match entry s t v with Some p => writable p | None => false end.

Lemma kept_image s s' t v : kept_page s s' t v → image s' t v = image s t v ∧ may_write s' t v = may_write s t v.
Proof using.
  unfold kept_page, image, may_write. destruct (entry s t v) as [p|]; [|by intros ->].
  intros (o & i & -> & Hb). cbn [fmap option_fmap option_map]. change (extent (moved p o i)) with (extent p). by rewrite Hb.
Qed.
Lemma same_image s s' : same_pages s s' → ∀ t v, image s' t v = image s t v.
Proof using. intros Hs t v. by apply kept_image. Qed.

Lemma frame_bytes_length s t v : length (frame_bytes s t v) = 4096%nat.
Proof using. apply page_bytes_length. Qed.
Lemma extent_le s t v p : paging s → entry s t v = Some p → (extent p <= 4096)%nat.
Proof using. intros Hp He. destruct (pg_page _ _ s Hp t v p He). unfold extent. destruct (mmaped p); lia. Qed.

(** A load from a page in memory. *)
Lemma load_present s t va bs x : let v := pg_round_down va in
  paging s → uaddr va → present s t v = true → image s t v = Some bs → bs !! Z.to_nat (va mod 4096) = Some x →
  ∃ s', cpu_load t va s = Ok (Some x, s') ∧ paging s' ∧ same_pages s s' ∧ log s' = log s.
Proof using.
  intros v Hp Hva Hpr Him Hx. unfold image in Him. destruct (entry s t v) as [p|] eqn:He; [|done]. injection Him as <-.
  destruct (cpu_load_Ok s t va p Hp Hva He Hpr) as (s' & E & Hst & Hl). apply lookup_take_Some in Hx as [Hx _].
  fold v in E. rewrite Hx in E. exists s'. splits; [done|by eapply stable_paging|by eapply stable_same_pages|done].
Qed.

(** A store to a page in memory. *)
Lemma store_present s t va bs b : let v := pg_round_down va in let o := Z.to_nat (va mod 4096) in
  paging s → uaddr va → present s t v = true → image s t v = Some bs → (o < length bs)%nat → may_write s t v = true → is_u8 b →
  ∃ s', cpu_store t va b s = Ok (true, s') ∧ paging s' ∧ log s' = log s ∧
    ∀ t' v', image s' t' v' = if decide (t' = t ∧ v' = v) then Some (splice bs [b] o) else image s t' v'.
Proof using.
  intros v o Hp Hva Hpr Him Hx HW Hb. unfold image in Him. unfold may_write in HW. destruct (entry s t v) as [p|] eqn:He; [|done].
  injection Him as <-. destruct (cpu_store_writes s t va p b Hp Hva He Hpr HW Hb) as (u & E & Hw). fold v o in Hw.
  exists (with_mm u s). splits; [done|by eapply write_paging|done|]. intros t' v'. unfold image at 1.
  change (entry (with_mm u s) t' v') with (entry s t' v'). unfold image. pose proof (extent_le s t v p Hp He) as Hex.
  destruct (entry s t' v') as [p'|] eqn:He'; cbn [fmap option_fmap option_map].
  - rewrite (write_holds s t v _ u Hpr Hw t' v' p' He'). case_decide as Hd; [|done]. destruct Hd as [-> ->].
    assert (p' = p) as -> by congruence. f_equal. unfold holds in *. rewrite Hpr in *.
    rewrite length_take, frame_bytes_length in Hx. apply list_eq. intros i.
    rewrite splice_lookup by (rewrite length_take, frame_bytes_length; cbn [length]; lia).
    destruct (decide (i < extent p)%nat) as [Hi|Hi].
    + rewrite lookup_take_lt, splice_lookup by (rewrite ?frame_bytes_length; cbn [length]; lia). repeat case_decide; try done.
      by rewrite lookup_take_lt.
    + rewrite lookup_take_ge by lia. repeat case_decide; cbn [length] in *; try lia. by rewrite lookup_take_ge by lia.
  - case_decide as Hd; [|done]. destruct Hd as [-> ->]. congruence.
Qed.

(** * Every load and every store *)

Section Access.
Context s t (pr : proc) (va : Z) (f : intr_frame) (bs : list Z).
Abbreviation v := (pg_round_down va).
Abbreviation o := (Z.to_nat (va mod 4096)).
Context (Hp : paging s) (Hproc : procs s !! t = Some pr) (Hva : uaddr va) (Hesp : 0 <= esp f) (Hsup : supply 5 s)
  (Herr : Z.land (error_code f) PF_P = 0) (Hroom : ∀ s1, noted s t f s1 → room s1) (Him : image s t v = Some bs).

Lemma fault_arrives : present s t v = false →
  ∃ s', page_fault ram_pages t va f s = Ok (Returns, s') ∧ arrived ram_pages pds s s' t v.
Proof using Hp Hproc Hva Hesp Hsup Herr Hroom Him DL.
  intros Hab. destruct (page_fault_Ok _ _ s t pr va f Hp Hproc Hva Hesp Hsup Hab Herr Hroom) as (r & s' & E & Hs).
  unfold fault_served in Hs. unfold image in Him. destruct (entry s t v); [|done]. destruct Hs as [-> Ha]. eauto.
Qed.

Lemma load_flat x : bs !! o = Some x →
  ∃ r s', user_load t va f s = Ok (r, s') ∧ paging s' ∧ same_pages s s' ∧
    (r = Some x ∧ log s' = log s ∨ r = None ∧ (∃ n, log s' = log s ++ [Whatthe n]) ∧ no_table (mm s') (pd_of s' t) v).
Proof using Hp Hproc Hva Hesp Hsup Herr Hroom Him DL.
  intros Hx. destruct (present s t v) eqn:Hpr.
  - destruct (load_present s t va bs x Hp Hva Hpr Him Hx) as (s' & E & ? & ? & ?). exists (Some x), s'.
    unfold user_load. rewrite (M_bind_step _ _ _ _ _ E). splits; try done. by left.
  - assert (∀ s0, present s0 t v = false → cpu_load t va s0 = Ok (None, s0)) as Hno.
    { intros s0 H0'. unfold cpu_load. rewrite getS_step. by rewrite H0'. }
    destruct (fault_arrives Hpr) as (s1 & E1 & Hp1 & Hs1 & Hl). unfold user_load.
    rewrite (M_bind_step _ _ _ _ _ (Hno s Hpr)), (M_bind_step _ _ _ _ _ E1).
    destruct Hl as [[Hpr1 Hl1]|[Hab1 Hn]].
    + destruct (load_present s1 t va bs x Hp1 Hva Hpr1) as (s' & E & ? & ? & ?); [by rewrite (same_image s s1)|done|].
      exists (Some x), s'. splits; [exact E|done|by eapply same_pages_trans|left; split; congruence].
    + exists None, s1. splits; [by apply Hno|done|done|by right].
Qed.

Lemma store_flat b : (o < length bs)%nat → may_write s t v = true → is_u8 b →
  ∃ (r : bool) s', user_store t va b f s = Ok (r, s') ∧ paging s' ∧
    if r then log s' = log s ∧ ∀ t' v', image s' t' v' = if decide (t' = t ∧ v' = v) then Some (splice bs [b] o) else image s t' v'
    else same_pages s s' ∧ (∃ n, log s' = log s ++ [Whatthe n]) ∧ no_table (mm s') (pd_of s' t) v.
Proof using Hp Hproc Hva Hesp Hsup Herr Hroom Him DL.
  intros Hx HW Hb. destruct (present s t v) eqn:Hpr.
  - destruct (store_present s t va bs b Hp Hva Hpr Him Hx HW Hb) as (s' & E & ? & ? & ?). exists true, s'.
    unfold user_store. rewrite (M_bind_step _ _ _ _ _ E). by splits.
  - assert (∀ s0, present s0 t v = false → cpu_store t va b s0 = Ok (false, s0)) as Hno.
    { intros s0 H0'. unfold cpu_store. rewrite getS_step. by rewrite H0'. }
    destruct (fault_arrives Hpr) as (s1 & E1 & Hp1 & Hs1 & Hl). unfold user_store.
    rewrite (M_bind_step _ _ _ _ _ (Hno s Hpr)), (M_bind_step _ _ _ _ _ E1).
    destruct Hl as [[Hpr1 Hl1]|[Hab1 Hn]].
    + destruct (store_present s1 t va bs b Hp1 Hva Hpr1) as (s' & E & ? & ? & Hi);
        [by rewrite (same_image s s1)|done|by rewrite (proj2 (kept_image s s1 t v (Hs1 t v)))|done|].
      exists true, s'. splits; [exact E|done|congruence|]. intros t' v'. by rewrite Hi, (same_image s s1).
    + exists false, s1. splits; [by apply Hno|done|done|apply Hn|apply Hn].
Qed.
End Access.
End User.
