(* ===== verification/FaultRuns.v ===== *)
(** What the page-fault handler promises to the programs, and a run of it on a
    small machine: one frame for two pages, so that every fault moves the other
    page out. *)
From S2P Require Import Prelude Cache Descriptor Mem Str Word Bitmap FreeMap Vaddr Palloc Pagedir PagedirInv PagedirOps PagedirSafety PagedirSteps Frame FrameClock Page PageFault FaultBytes FaultInv FaultMoves FaultSteps FaultEvict FaultLoad FaultCorrect FaultUser.

(** * Files in memory *)

(** An instance of the interface to the file system: whether writing is denied,
    and the bytes, of each file. *)
Abbreviation memfiles := (gmap Z (bool * list Z)).

#[global] Instance memfiles_Files : Files memfiles := {
  read_at m f size ofs :=
    '(_, d) ← of_option (m !! f); Ok (take (Z.to_nat size) (drop (Z.to_nat ofs) d), m);
  write_at m f bs ofs :=
    '(deny, d) ← of_option (m !! f);
    if (deny : bool) then Ok (0, m) else Ok (Z.of_nat (length bs), <[f := (false, splice d bs (Z.to_nat ofs))]> m)
}.

#[refine, global] Instance memfiles_laws : FilesLaws memfiles := {
  files_inv m := map_Forall (λ _ x, Forall is_u8 x.2) m;
  inode_of m f := (λ _, f) <$> m !! f;
  contents m i := snd <$> m !! i;
  denied m i := default false (fst <$> m !! i);
  contents_u8 := _; read_at_ok := _; write_at_ok := _
}.
Proof.
  - intros m i d Hm Hd. destruct (m !! i) as [[b x]|] eqn:E; [|done]. injection Hd as <-. exact (Hm i _ E).
  - intros m f i d size ofs Hm Hf Hd Hs Ho Hl Hw. destruct (m !! f) as [[b x]|] eqn:E; [|done]. injection Hf as <-.
    rewrite E in Hd. injection Hd as <-. exists m. cbn [read_at memfiles_Files]. rewrite E. by splits.
  - intros m f i d bs ofs Hm Hf Hd Hden Hbs Ho Hl Hw. destruct (m !! f) as [[b x]|] eqn:E; [|done]. injection Hf as <-.
    rewrite E in Hd, Hden. injection Hd as <-. cbn in Hden. subst b.
    exists (<[f := (false, splice x bs (Z.to_nat ofs))]> m). cbn [write_at memfiles_Files]. rewrite E. splits.
    + done.
    + apply map_Forall_insert_2; [|done]. pose proof (Hm f _ E) as Hx. cbn [snd] in *. unfold splice.
      apply Forall_app; split; [by apply Forall_take|]. apply Forall_app; split; [done|by apply Forall_drop].
    + intros g. cbv beta. destruct (decide (g = f)) as [-> |]; [rewrite lookup_insert_eq, E; done|by rewrite lookup_insert_ne].
    + intros g. cbv beta. destruct (decide (g = f)) as [-> |]; [rewrite lookup_insert_eq, E; done|by rewrite lookup_insert_ne].
    + cbv beta. by rewrite lookup_insert_eq.
    + intros j Hj. cbv beta. by rewrite lookup_insert_ne.
Defined.

(** * The theorems *)

Section Theorems.
Context {D F : Type} `{Disk D} {DL : DiskLaws D} `{Files F} {FL : FilesLaws F} (ram_pages : Z) (pds : gset Z).
Abbreviation machine := (PageFault.machine D F).
Abbreviation paging := (paging ram_pages pds).
Implicit Types (s : machine) (t : Z).



(** An access that the entry of the page forbids ends the process, and no
    page of any process changes; but the frame that the handler had already
    taken for the page, perhaps from another page, stays in use although no
    page is in it. *)
Theorem rights_violation_leaks s cur pr fault_addr f p :
  paging s → procs s !! cur = Some pr → uaddr fault_addr → 0 <= esp f → supply 5 s →
  entry s cur (pg_round_down fault_addr) = Some p → Z.land (error_code f) PF_P ≠ 0 →
  (∀ s1, noted s cur f s1 → room s1) →
  ∃ s' k, page_fault ram_pages cur fault_addr f s = Ok (Exits, s') ∧ paging s' ∧ same_pages s s' ∧
    log s' = log s ++ [last_words cur f] ∧ spare s' k.
Proof using DL.
  intros Hp Hpr Hfa Hesp Hsup He Herr Hroom. destruct (round_user fault_addr Hfa) as [Hva Hal]. set (v := pg_round_down fault_addr) in *.
  destruct (frame_ready ram_pages pds s cur pr f Hp Hpr Hesp Hsup Hroom) as (k & s2 & [Hgo Hp2 Hss Hsp _ _ Hlog Hsup2 _]).
  destruct (supply_S 2 s2 Hsup2) as (a & l & Hm & _).
  assert (∃ p2, entry s2 cur v = Some p2) as [p2 He2].
  { pose proof (Hss cur v) as Hk. unfold kept_page in Hk. rewrite He in Hk. destruct Hk as (? & ? & -> & _). eauto. }
  assert (is_Some (tables s2 !! cur)) as Ht by (apply (pg_tables _ _ s2 Hp2); destruct (entry_proc _ _ s2 cur v p2 Hp2 He2) as (? & ? & _); eauto).
  pose proof (stable_malloc _ _ s2 _ l Hp2 Hm) as Hst. pose proof (stable_paging _ _ _ _ Hp2 Hst) as Hp3.
  destruct (lock_round ram_pages pds (set_mallocs l s2) Hp3) as [E1 E2].
  pose proof (stable_say _ _ _ (last_words cur f) Hp3) as Hst2.
  exists (say (last_words cur f) (set_mallocs l s2)), k. splits.
  - rewrite Hgo. unfold bring_in. fold v. rewrite (M_bind_step _ _ _ _ _ (spt_lookup_Ok s2 cur v a l Ht Hm)).
    rewrite round_aligned, He2 by done. cbv beta iota.
    rewrite (M_bind_step _ _ _ _ _ E1), (M_bind_step _ _ _ _ _ E2). destruct (Z.eqb_spec (Z.land (error_code f) PF_P) 0); [done|].
    apply kill_Ok.
  - by eapply stable_paging.
  - eapply same_pages_trans; [done|]. eapply same_pages_trans; by eapply stable_same_pages.
  - cbn [log say set_mallocs]. by rewrite Hlog.
  - exact Hsp.
Qed.
End Theorems.

(** * A small machine *)

(** One process with a page of a program file and a page on the swap disk, and
    memory for one of them. *)
Definition tiny_pages : kmem := mkKmem (kernel_pool sample_pages) (mkPool (mkBitmap 1 [0]) 3222294528) sample_ram.
Definition tiny_mmu : mmu := set_km tiny_pages sample_mmu.
Definition tiny_thread : Z := 3222290432.
Definition code_page : page := mkPage 134512640 900 0 100 3996 true false false 0.
Definition data_page : page := mkPage 134516736 0 0 0 4096 true true false 0.
Definition tiny_machine : PageFault.machine ramdisk memfiles :=
  mkMachine (mkVm tiny_mmu ∅ [] (Some (mkBitmap 2 [1])) false)
    {[tiny_thread := mkProc 3222278144 3221225400]}
    {[tiny_thread := {[134512640 := code_page; 134516736 := data_page]}]}
    (replicate 16 (replicate 512 7)) {[900 := (false, replicate 100 5)]}
    ((λ i, Some (3223322624 + 32 * Z.of_nat i)) <$> seq 0 40) [] 0.

Opaque sample_ram.
Lemma tiny_pages_inv : kmem_inv tiny_pages.
Proof.
  pose proof sample_pages_inv as Hi. split; cbn [kernel_pool user_pool ram tiny_pages]; [exact (ki_kernel _ Hi)| |done|exact (ki_bytes _ Hi)].
  split; [|done..|apply sample_ram_mapped; [done|by vm_compute]]. split; [simpl; lia|]. split; [by vm_compute|]. by repeat constructor.
Qed.
Lemma tiny_mmu_inv : mmu_inv tiny_mmu sample_pds.
Proof. apply kernel_mmu_inv; [apply sample_mmu_inv|apply tiny_pages_inv|by split]. Qed.

Lemma tiny_proc t pr : procs tiny_machine !! t = Some pr → t = tiny_thread ∧ pr = mkProc 3222278144 3221225400.
Proof.
  change (procs tiny_machine) with ({[tiny_thread := mkProc 3222278144 3221225400]} : gmap Z proc).
  intros E%lookup_singleton_Some. destruct E as [<- <-]. split; reflexivity.
Qed.
Lemma tiny_entry t v p : entry tiny_machine t v = Some p →
  t = tiny_thread ∧ (v = 134512640 ∧ p = code_page ∨ v = 134516736 ∧ p = data_page).
Proof.
  unfold entry. change (tables tiny_machine) with
    ({[tiny_thread := {[134512640 := code_page; 134516736 := data_page]}]} : gmap Z (gmap Z page)).
  intros (m & E%lookup_singleton_Some & Hv)%bind_Some. destruct E as [<- <-]. split; [reflexivity|].
  apply lookup_insert_Some in Hv as [[<- <-]|[_ E%lookup_singleton_Some]]; [left; split; reflexivity|].
  destruct E as [<- <-]. right. split; reflexivity.
Qed.
Lemma tiny_pte t v p : entry tiny_machine t v = Some p → pte_at tiny_machine t v = 0.
Proof.
  intros [-> He]%tiny_entry. assert (uaddr v) as Hv by (destruct He as [[-> _]|[-> _]]; by split).
  change (pte_of tiny_mmu 3222278144 v = 0). unfold tiny_mmu.
  rewrite (kernel_pte sample_mmu sample_pds sample_mmu_inv) by (done || apply sample_pd_in). apply sample_pte; [apply sample_pd_in|done].
Qed.
Lemma tiny_absent t v p : entry tiny_machine t v = Some p → present tiny_machine t v = false.
Proof. intros He. unfold present. by rewrite (tiny_pte t v p He). Qed.
Lemma tiny_malloc i e : mallocs tiny_machine !! i = Some (Some e) → e = 3223322624 + 32 * Z.of_nat i.
Proof.
  cbn [mallocs tiny_machine]. intros E%list_lookup_fmap_Some. destruct E as (j & Hj & Hs). injection Hj as ->.
  apply lookup_seq in Hs as [-> _]. reflexivity.
Qed.

Lemma tiny_page_ok v p : v = 134512640 ∧ p = code_page ∨ v = 134516736 ∧ p = data_page → page_ok v p.
Proof. intros [[-> ->]|[-> ->]]; split; unfold uaddr, PHYS_BASE; cbn; lia || done. Qed.
Lemma tiny_backed : backed tiny_machine code_page.
Proof. exists 900, (replicate 100 5). split; [reflexivity|]. split; [reflexivity|]. by vm_compute. Qed.

Lemma tiny_paging : paging 2048 sample_pds tiny_machine.
Proof.
  split.
  - split; [exact tiny_mmu_inv|apply NoDup_nil_2|done|intros e []%elem_of_nil|intros e e' f f' []%elem_of_nil].
  - reflexivity.
  - intros i x E. change (files tiny_machine) with ({[900 := (false, replicate 100 5)]} : memfiles) in E.
    apply lookup_singleton_Some in E as [_ <-]. cbn [snd]. by apply replicate_u8.
  - by vm_compute.
  - intros t pr [-> ->]%tiny_proc. splits; [apply sample_pd_in|done|by split|done].
  - intros t. change (is_Some (({[tiny_thread := {[134512640 := code_page; 134516736 := data_page]}]} : gmap Z (gmap Z page)) !! t) ↔
      is_Some (({[tiny_thread := mkProc 3222278144 3221225400]} : gmap Z proc) !! t)).
    destruct (decide (t = tiny_thread)) as [-> |Hne]; [by rewrite !lookup_singleton_eq|].
    assert (tiny_thread ≠ t) as Hne' by congruence.
    rewrite (lookup_singleton_ne tiny_thread t _ Hne'), (lookup_singleton_ne tiny_thread t _ Hne').
    split; intros [? E]; discriminate E.
  - intros t t' [pr E1] [pr' E2] _. apply tiny_proc in E1 as [-> _], E2 as [-> _]. reflexivity.
  - intros t v p [_ He]%tiny_entry. by apply tiny_page_ok.
  - intros t v p He. rewrite (tiny_absent t v p He). apply tiny_entry in He as [_ [[-> ->]|[-> ->]]]; [right; apply tiny_backed|by left].
  - intros e f []%elem_of_nil.
  - intros e e' f f' []%elem_of_nil.
  - intros t v p [_ [[-> ->]|[-> ->]]]%tiny_entry Hm; discriminate Hm.
  - intros t v p t' v' p' [_ [[-> ->]|[-> ->]]]%tiny_entry _ _ Hm; discriminate Hm.
  - exists (mkBitmap 2 [1]). split; [reflexivity|]. split; [|splits; [by vm_compute|by vm_compute|]].
    + split; [cbn; lia|]. split; [by vm_compute|by repeat constructor].
    + intros t v p [_ [[-> ->]|[-> ->]]]%tiny_entry Hs; [discriminate Hs|]. split; [cbn; lia|reflexivity].
  - intros t v p t' v' p' [-> He]%tiny_entry [-> He']%tiny_entry Hs Hs' _.
    destruct He as [[-> ->]|[-> ->]]; [discriminate Hs|]. destruct He' as [[-> ->]|[-> ->]]; [discriminate Hs'|]. done.
  - intros i. unfold sector_at. cbn [disk_read swap_disk tiny_machine ramdisk_Disk].
    destruct (zget _ i) as [bs|] eqn:E; [|apply Forall_nil_2]. unfold zget in E. destruct (i <? 0); [done|].
    apply lookup_replicate in E as [-> _]. apply Forall_resize; [done|by apply replicate_u8].
  - intros i e ->%tiny_malloc. split; [unfold PHYS_BASE; lia|apply lookup_empty].
  - intros i j e He%tiny_malloc He'%tiny_malloc. lia.
  - by vm_compute.
Qed.

(** ** The conditions of the theorems, decided *)

Section Decide.
Context {D F : Type} `{Disk D} `{Files F}.
Implicit Types s : PageFault.machine D F.

Definition has_supply s : bool := forallb (λ r, bool_decide (is_Some r)) (take 5 (mallocs s)) && (5 <=? length (mallocs s))%nat.
Definition has_room s : bool :=
  let p := user_pool (km (mm s)) in
  (base p mod 4096 =? 0) &&
  (existsb (λ k, negb (in_use p (base p + 4096 * Z.of_nat k))) (seq 0 (Z.to_nat (bit_cnt (used_map p)))) ||
   match swap_table (mvm s) with
   | Some b => existsb (λ j, negb (bget b (Z.of_nat j))) (seq 0 (Z.to_nat (bit_cnt b)))
   | None => false
   end && existsb (λ e, negb (bit PTE_S (mvm s) e)) (frame_table (mvm s))).
Definition room_after s (t : Z) (f : intr_frame) : bool :=
  match note_esp t f (count_fault s) with Ok (_, s1) => has_room s1 | Err _ => true end.
Definition after {A} (m : M (PageFault.machine D F) A) s : PageFault.machine D F :=
  match m s with Ok (_, s') => s' | Err _ => s end.

Lemma has_supply_ok s : has_supply s = true → supply 5 s.
Proof using.
  unfold has_supply. intros [Hf Hl%Nat.leb_le]%andb_true_iff i Hi.
  destruct (lookup_lt_is_Some_2 (mallocs s) i ltac:(lia)) as [r Hr]. rewrite forallb_forall in Hf.
  assert (r ∈ take 5 (mallocs s)) as Hin by (eapply list_elem_of_lookup_2; by rewrite lookup_take_lt).
  apply list_elem_of_In, Hf, bool_decide_eq_true in Hin. destruct Hin as [e ->]. eauto.
Qed.
Lemma existsb_elem {A} (g : A → bool) l : existsb g l = true → ∃ x, x ∈ l ∧ g x = true.
Proof using. intros (x & Hx%list_elem_of_In & Hg)%existsb_exists. eauto. Qed.
Lemma has_room_ok s : has_room s = true → room s.
Proof using.
  unfold has_room. intros [Hb%Z.eqb_eq Ho]%andb_true_iff. apply orb_true_iff in Ho as [E|[E1 E2]%andb_true_iff]; [left|right].
  - apply existsb_elem in E as (k & Hk%elem_of_seq & Hu%negb_true_iff). set (p := user_pool (km (mm s))) in *.
    intros Hex. destruct (Hex (base p + 4096 * Z.of_nat k)) as (i & Hi & Hin).
    + rewrite Z.mul_comm, Z_mod_plus_full. done.
    + lia.
    + unfold pool_end, pool_cnt. lia.
    + replace i with 0 in Hin by lia. rewrite Z.mul_0_r, Z.add_0_r in Hin. congruence.
  - split.
    + unfold slot_free. destruct (swap_table (mvm s)) as [b|]; [|done].
      apply existsb_elem in E1 as (j & Hj%elem_of_seq & Hu%negb_true_iff). exists b, (Z.of_nat j). splits; [done|lia|lia|done].
    + apply existsb_elem in E2 as (e & Hin & Hu%negb_true_iff). by exists e.
Qed.
Lemma room_after_ok s t f : room_after s t f = true → ∀ s1, noted s t f s1 → room s1.
Proof using. unfold room_after, noted. intros Hr s1 E. rewrite E in Hr. by apply has_room_ok. Qed.
End Decide.

(** ** Runs *)

Opaque after user_load user_store.

Definition plain : intr_frame := mkIntrFrame PF_U 3221225400 SEL_UCSEG.




Lemma rights_violation_leaks_witness : ∃ s' k,
  page_fault 2048 tiny_thread 134516740 (mkIntrFrame (Z.lor PF_U PF_P) 3221225400 SEL_UCSEG) tiny_machine = Ok (Exits, s') ∧
  log s' = [ExitMessage tiny_thread] ∧ spare s' k.
Proof.
  destruct (rights_violation_leaks 2048 sample_pds tiny_machine tiny_thread (mkProc 3222278144 3221225400) 134516740
    (mkIntrFrame (Z.lor PF_U PF_P) 3221225400 SEL_UCSEG) data_page) as (s' & k & E & _ & _ & Hl & Hsp);
    [exact tiny_paging|reflexivity|by split|done|apply has_supply_ok; by vm_compute|reflexivity|discriminate|apply room_after_ok; by vm_compute|].
  exists s', k. split; [exact E|]. split; [exact Hl|exact Hsp].
Defined.

(** ** Runs outside the theorems *)

(** The same machine with another swap table, another page of the program and
    other files. *)
Definition tiny_with (b : bitmap) (p : page) (deny : bool) : PageFault.machine ramdisk memfiles :=
  mkMachine (mkVm tiny_mmu ∅ [] (Some b) false) (procs tiny_machine)
    {[tiny_thread := {[134512640 := p; 134516736 := data_page]}]}
    (swap_disk tiny_machine) {[900 := (deny, replicate 100 5)]} (mallocs tiny_machine) [] 0.
Definition verdict_of {A} (r : outcome (A * PageFault.machine ramdisk memfiles)) : A + fault :=
  match r with Ok (a, _) => inl a | Err e => inr e end.
Definition slots_of (s : PageFault.machine ramdisk memfiles) : option bitmap := swap_table (mvm s).
Definition index_at (s : PageFault.machine ramdisk memfiles) (v : Z) : option (bool * Z) :=
  (λ p, (swap_outed p, swap_index p)) <$> entry s tiny_thread v.

(** When no slot is free, [BITMAP_ERROR] is used as the index of one: eight
    times it wraps around, the loop writes nothing, and the page that is moved
    out is lost; bringing it in again reads nothing and stops the kernel. *)
Lemma full_swap_loses_page :
  let s1 := after (user_load 2048 tiny_thread 134512650 plain) (tiny_with (mkBitmap 1 [1]) code_page false) in
  let s2 := after (user_load 2048 tiny_thread 134516740 plain) s1 in
  (verdict_of (user_load 2048 tiny_thread 134516740 plain s1), index_at s2 134512640, concat (swap_disk s2)) =
  (inl (Some 7), Some (true, BITMAP_ERROR), concat (swap_disk s1)).
Proof. vm_compute. reflexivity. Qed.
Lemma lost_page_stops_kernel (w : vm) b : swap_lock w = false → swap_table w = Some b → bitmap_wf b →
  swap_table_bitmap_set BITMAP_ERROR false w = Err AssertFail.
Proof.
  intros Hl Hb (Hc & _). unfold swap_table_bitmap_set. rewrite (M_bind_step _ _ _ () (set_swap_lock true w)).
  2: { unfold swap_lock_acquire. rewrite getS_step. by rewrite Hl. }
  rewrite (M_bind_step _ _ _ b (set_swap_lock true w)).
  2: { unfold get_swap_table. rewrite getS_step. change (swap_table (set_swap_lock true w)) with (swap_table w). by rewrite Hb. }
  unfold bitmap_set. assert ((BITMAP_ERROR <? bit_cnt b) = false) as -> by (apply Z.ltb_ge; unfold BITMAP_ERROR, SIZE_MAX; lia). reflexivity.
Qed.

(** A page of a mapped file does not need the slot that was claimed for it: it
    stays claimed, and no page is in it. *)
Lemma mapped_victim_keeps_slot :
  let s1 := after (user_load 2048 tiny_thread 134512650 plain) (tiny_with (mkBitmap 2 [1]) (mkPage 134512640 900 0 100 3996 true false true 0) false) in
  let s2 := after (user_load 2048 tiny_thread 134516740 plain) s1 in
  (verdict_of (user_load 2048 tiny_thread 134516740 plain s1), slots_of s2, index_at s2 134512640, index_at s2 134516736) =
  (inl (Some 7), Some (mkBitmap 2 [2]), Some (false, 0), Some (false, 0)).
Proof. vm_compute. reflexivity. Qed.

(** A page of a mapped file that is being executed cannot be written back: the
    kernel stops. *)
Lemma denied_victim_stops_kernel :
  let s1 := after (user_store 2048 tiny_thread 134512650 9 plain) (tiny_with (mkBitmap 2 [1]) (mkPage 134512640 900 0 100 3996 true false true 0) true) in
  verdict_of (user_load 2048 tiny_thread 134516740 plain s1) = inr AssertFail.
Proof. vm_compute. reflexivity. Qed.
